(* ===== verification/_CoqProject ===== *)
-Q . S2P
Prelude.v
Text.v
Channels.v
YamuxFrame.v
YamuxStream.v
YamuxStreamProofs.v
YamuxFlow.v
YamuxSession.v
YamuxSessionProofs.v
YamuxControl.v
Multiaddr.v
MultiaddrProofs.v
QueueMpsc.v
PriorityChannel.v
PriorityChannelProofs.v
UnboundedChannel.v
Buffers.v
Molecule.v
MoleculeProofs.v
Messages.v
Wire.v
Select.v
SecioAlgorithms.v
SecioCipher.v
SecioStream.v
SecioStreamProofs.v
SecioHandshake.v
SecioHandshakeProofs.v
PeerId.v
Tentacle.v
ChannelEnds.v
ChannelSinks.v
Utils.v
Substream.v
SubstreamProofs.v
WritePart.v
Session.v
SessionProofs.v
Service.v
ServiceProofs.v
FutureTask.v
Control.v
MemoryTransport.v
WsStream.v
Transports.v
TransportsProofs.v
Listeners.v
Runtime.v
Builder.v
Upnp.v
ProtocolHandle.v
ProtocolHandleProofs.v
Layouts.v
ProtocolMessages.v
Ping.v
Identify.v
Discovery.v
Compress.v
MessageFlow.v
SharedState.v
SupportProtocols.v
Node.v
