(* ===== verification/Prelude.v ===== *)
(** * Verification of a CKB peer-to-peer node

    The repository holds a network stack and two programs on it. [src/tentacle] is the stack: [yamux]
    multiplexes byte streams over one connection, [secio] authenticates the peer and encrypts the
    connection, [multiaddr] names addresses, and [tentacle/src] joins them to sessions and services,
    with its own priority channels ([channel/]), send buffers ([buffer.rs]) and the selection of a
    protocol on a fresh substream ([protocol_select/]); [protocols] are the ping, identify and
    discovery protocols on it. [src/connector] keeps the sessions of a client of the CKB network, and
    [src/p2p-node] is a node on top of it.

    The service accepts and dials connections, runs the secio handshake on each, and opens a session
    over the encrypted stream. A session runs yamux on it; each yamux stream starts with the selection
    of a protocol and becomes a substream. A message of the user goes from a control through the task
    channel of the service to the session, through its priority buffer to the substream and over the
    stream to the peer; there it goes from the substream to the handler of the protocol, whose
    callbacks run in a task of their own. The connector and the node are such handlers: they compress
    messages and record which sessions and protocols are open.

    ** Files

    Shared parts.
    - [Prelude] (this file): bytes and machine words, the result type [res] (a value, an error of the
      code, or a panic), the state and error monad [M], shared lemmas, tactics and hint databases.
      [Text]: UTF-8, splitting, the varint interface. [Channels]: the interfaces of the channels.
      [Wire]: the socket interface and the [await]s on it.

    Yamux ([tentacle/yamux/src]).
    - [YamuxFrame] ([frame.rs], [config.rs]): frames, flags and the resumable codec.
    - [YamuxStream], [YamuxStreamProofs] ([stream.rs], [error.rs]): [StreamHandle], one definition per
      method. [YamuxFlow]: two handles joined by two wires.
    - [YamuxSession], [YamuxSessionProofs] ([session.rs]): [Session] with its poll loop.
      [YamuxControl] ([control.rs]): the calls of the controls of a session, interleaved with it.

    Addresses and channels.
    - [Multiaddr], [MultiaddrProofs] ([multiaddr/src]): both forms of an address. [PeerId]
      ([secio/src/peer_id.rs]). [Utils] ([utils.rs], [transports/mod.rs]): socket addresses, reachable
      addresses, the transport of an address.
    - [QueueMpsc] ([channel/queue.rs]): the lock-free queue on a heap. [PriorityChannel],
      [PriorityChannelProofs] ([channel/mod.rs], [bound.rs]): the bounded channel as a step relation,
      one step per atomic access. [UnboundedChannel] ([unbound.rs]): the same without parking, by
      refinement of the bounded one. [Buffers] ([buffer.rs]). [ChannelEnds]: whole calls on the ends of
      the bounded channel, which discharge the interfaces of the buffers, substreams and sessions.
      [ChannelSinks] ([sink_impl.rs], [async_send] and [async_quick_send]): sending as a future.
    - [MemoryTransport] ([transports/memory.rs]): listeners, dials and sockets inside one process.
    - [Transports], [TransportsProofs] ([transports/tcp.rs], [ws.rs], [tls.rs], [mod.rs], [dns.rs],
      [runtime/tokio_runtime.rs]): dialing and listening over sockets of the system. [Listeners]
      ([ws.rs], [tls.rs], [mod.rs]): the polls of listeners and the union of the streams.
      [WsStream] ([ws.rs]): bytes over the messages of a websocket. [Runtime] ([runtime/budget.rs],
      [generic_timer.rs], [async_runtime.rs]). [Upnp] ([upnp/mod.rs]).

    Secio ([tentacle/secio/src]) and protocol selection.
    - [Molecule], [MoleculeProofs] (the generated [handshake_mol.rs], [protocol_select_mol.rs]),
      [Messages] ([handshake_struct.rs], [ProtocolInfo]): hostile bytes to messages and back.
      [Select] ([protocol_select/mod.rs]): the negotiation of a version.
    - [SecioAlgorithms] ([support.rs], [crypto/cipher.rs]), [SecioCipher] ([crypto/openssl_impl.rs],
      [ring_impl.rs]), [SecioStream], [SecioStreamProofs] ([codec/secure_stream.rs]),
      [SecioHandshake], [SecioHandshakeProofs] ([handshake/]).

    The framework ([tentacle/tentacle/src]).
    - [Tentacle]: the data its parts share ([context.rs], [error.rs], [service/config.rs], events).
    - [Substream], [SubstreamProofs], [WritePart] ([substream.rs]): a protocol stream of a session,
      and the write part of a split stream.
    - [Session], [SessionProofs] ([session.rs]); [Service], [ServiceProofs] ([service.rs],
      [service/helper.rs], [service/event.rs]); [FutureTask] ([service/future_task.rs]); [Control]
      ([service/control.rs], [context.rs]); [ProtocolHandle], [ProtocolHandleProofs]
      ([protocol_handle_stream.rs]); [Builder] ([builder.rs], [service/config.rs]).

    Protocols and programs.
    - [Layouts], [ProtocolMessages] ([protocols/*/src/protocol_mol.rs], [protocol.rs]); [Ping],
      [Identify], [Discovery] ([protocols/*/src/lib.rs], [state.rs], [addr.rs]).
    - [MessageFlow]: two substreams over the two handles of a yamux stream, with compression around
      their messages.
    - [Compress], [SharedState], [SupportProtocols] ([connector/src]); [Node]
      ([p2p-node/src/node/mod.rs], [network.rs], [connector/src/lib.rs], [extension.rs]).

    A struct of the code is a record with the same fields, an enum an inductive type with the same
    constructors, and a method a definition with the same name (with a prefix where two types have
    methods of one name). A method on [&mut self] is a computation in [M], whose state is kept also
    when it fails; an assertion, an index out of range, an [unwrap] of nothing and an arithmetic
    overflow are the result [RPanic]. Integers are [Z] with their width checked or wrapped as the code
    does; byte strings are [list byte]; a [HashMap] is a [gmap], and where its iteration order matters
    the order is the class [HashOrder]. A task of the runtime is one component whose polls and events
    come in any order; tasks it spawns and requests to the service are recorded in a list of its state.
    Where threads or tasks share state (the queue, the channels, the transport in memory, the handlers
    of the connector) the model is a step relation or a list of events in any order.

    ** Interfaces

    Code outside the repository, and a component seen from its clients, is a class of operations and a
    class of laws with its documented behaviour; definitions use the operations and theorems the laws.
    - Channels and transports: [UnboundedSender], [Receiver], [BoundedSender], [CloseReceiver],
      [CloseSender], [NewMpsc], [NewPipe], [AwaitSender] (futures' mpsc), [PrioritySender],
      [PriorityReceiver], [AwaitPriority] (the channels of [channel/], as their clients see them),
      [WakingChannel] (the wake-ups of the channel of a listener), [Framed], [MessageCodec], [Socket], [Shutdown], [Reframe], [DelimitedCodec] (tokio_util), [NewChannel],
      [EventChannelLaws], [LiveReceiver], [Timer], [JoinHandle], [SpawnHandle] (runtimes).
    - The system and its libraries: [Os] (sockets), [Resolver], [WebSocket] and [WsClient] (tungstenite),
      [TlsClient], [Accept], [PeerAddr], [AsyncRw], [Gateway] (a router that maps ports).
    - Data: [Varint], [TextCodecs] (unsigned_varint, bs58, IPv6 text), [MolNumber] (molecule), [Snap].
      [LayoutLaws] and [FieldsLaws] are what a molecule layout promises to the one that contains it.
    - Cryptography: [Aead] (openssl and ring), [Primitives] (hashes, signatures, key agreement, HMAC).
    - Users: [ProtocolHandler] (the callbacks of a protocol), [IdentifyCallback], [AddressManager],
      [BloomFilter], [RandomChoice].
    The classes with laws have a reference instance with the laws proved, used by the witnesses; these
    instances show that the laws are consistent and are not models of the libraries. Authentication is
    stated relative to the laws: what is proved is that a signature was verified and which bytes it
    covers, not that signatures cannot be forged.

    ** What the theorems show

    - Handshake: two honest parties complete it with the same algorithms, each other's keys and
      complementary session keys ([handshake_agrees]); who completes it has verified the peer's
      signature over both proposals and received its own nonce under the derived key
      ([handshake_authenticates]); the algorithms chosen are common ([algorithms_agree]).
    - Encrypted stream, over any socket with the laws of a socket: bytes arrive in order and without
      loss while every read has room and no write fails ([secure_stream_in_order]), what a read returns
      was buffered or comes from a frame sealed with the key ([only_sealed_frames_read]), nonces do
      not repeat ([nonces_distinct]).
    - Yamux streams: no operation panics under any traffic ([stream_run_safe]), two endpoints deliver
      all bytes in order ([stream_bytes_in_order]) and keep the windows consistent
      ([flow_control_consistent]), reads and writes on every branch, the close paths, and no lost
      wake-up of a writer.
    - Yamux session: no run panics ([session_never_panics]), frames are sent and distributed in order
      ([send_all_in_order], [distribute_in_order]), identifiers are fresh, pings, go-away and the
      bounds on streams; every call of a control gets its own stream or an error
      ([control_calls_answered]) and none is forgotten ([poll_drains_commands]); the codec gives
      back every list of frames under any chunking of the wire ([feed_encode_all]).
    - Channels and buffers: the linked queue refines a FIFO list and its drop frees every node
      ([queue_refines_fifo]); under every interleaving the bounded channel delivers each priority in
      order ([channel_delivers_in_order]; a handle makes one call at a time), within its capacity ([channel_capacity]) and without losing
      a wake-up of the receiver ([receiver_wakeup]); the unbounded channel refines it
      ([unbounded_refines_bounded]); the buffers flush in order, and into the real channel too
      ([buffered_channel_in_order]). A future that sends sends once ([async_send_once],
      [quick_send_once]).
    - Transports: sockets in memory and websockets deliver bytes in order ([memory_bytes_in_order],
      [ws_bytes_in_order], for reads with room and while no write fails); a dial ends in time and keeps the address it was given
      ([dial_ends_in_time], [dial_keeps_address]); the address of a listener leads back to it
      ([listen_address_redials]); a poll of a listener hands out only connections that were accepted
      and upgraded, and one that finds none is woken by the listener and by the channel of upgraded
      connections ([listener_poll_next_spec], [listener_hands_out_accepted]); a task yields once per
      budget ([budget_yields_once]); ports mapped on a router are unmapped
      ([igd_leaves_nothing_mapped]) and their leases renewed ([leases_renewed_in_time]).
    - Messages and addresses: encoding and decoding are inverse ([protocol_messages_roundtrip], and
      [text_roundtrip] for addresses without a slash in a name); decoding arbitrary bytes does not
      panic, except at a misaligned number, and it is shown when that is ([protocol_messages_typed]); both sides of
      a protocol selection agree ([negotiation_agrees]).
    - Substreams: what is given to a substream is sent, and what it receives is passed to the handlers,
      in order at each priority ([substream_sends_in_order], [substream_receives_in_order]); write
      parts send what they are given in order ([write_part_sends_in_order]). Messages of up to 8 MiB
      that are sent compressed over a yamux stream come out of the other end decompressed, in order at
      each priority ([messages_end_to_end]).
    - Sessions: the two maps of streams agree and no poll panics ([session_streams_consistent]),
      messages reach the stream of their protocol in order ([session_messages_in_order]), and a session
      ends.
    - Service: the user sees each session opened and closed once, in turn ([service_sessions_seen]); no
      event panics ([service_never_panics]); messages go to the sessions they are for
      ([service_routes_messages]); identifiers of sessions are found
      ([generate_next_session_terminates]); a shutdown ends it, unless a session or a listener is
      added after it ([graceful_shutdown_ends]); spawned
      tasks are tracked ([tasks_tracked]); controls put their tasks in order
      ([control_calls_in_order]); what a builder builds satisfies what these theorems start from
      ([built_service_starts]).
    - Protocol handlers: callbacks are bracketed by [connected] and [disconnected]
      ([callbacks_bracketed]), messages arrive in order ([handler_receives_in_order]), a panic of a
      callback for an event is reported unless the service shuts down, one in the sweep of closed
      sessions or in [poll] is not ([panic_reported]).
    - Protocols: identify does not panic on any message ([identify_never_panics]); two nodes learn each
      other's addresses ([identify_exchange], [discovery_exchange]); the messages discovery sends are
      accepted ([discovery_messages_accepted]).
    - Connector and node: the index of peers agrees with the open sessions ([shared_state_consistent]),
      and the node finds for a peer exactly the open sessions it made to it, with the callbacks of
      protocols in any order ([node_peer_sessions]); a connection attempt ends with the session or
      an error ([connect_decides]); compression is undone by decompression.

    ** Fuel and bounds

    Loops whose bound is data recurse on it. The others have fuel: [recv_frames] turns once per queued
    frame and once more; [send_all] at most twice per pending frame, since a transport that was flushed
    is ready; the poll of the yamux session has the bound of sixteen turns the code has; the loops that
    write out a substream or a session turn once per message and once more; iteration over an address
    consumes at least a byte per turn and has the length as fuel; [stretch_key] writes, and
    [read_exact] reads, at least a byte per turn; [fill_buffer] takes a queued message per turn;
    freeing a queue visits each node once; a free identifier of a session or task is found within as
    many turns as there are taken ones; an address to resolve loses a component, so a byte, per turn,
    and the loop of a listener takes a waiting connection per turn; twenty digits print any 64-bit number. Running out of fuel is
    the result [RPanic] or [None], so the theorems that exclude these show that it is enough; in
    [stretch_key] it is the unwrapped [None], and [read_exact] and [write_all] would wait, which the
    completion of the handshake ([handshake_agrees]) excludes. Lengths are assumed below 2^32 or 2^64
    only where a theorem says so.

    ** What is not modelled

    The transport of browsers and the other wasm variants, the modules that wrap the timers, streams
    and spawning of a runtime, locks, benchmarks and fuzz targets are left out: they pass calls on to
    libraries. The cryptographic primitives are calls of libraries as well. The command line,
    [Display], [Debug], logging and serde glue have no effect on the state the theorems are about;
    owned entities and conversions of the generated molecule code repeat its readers; the messages of
    the crate [ckb_types] are an argument of [Node]. Memory orderings of the atomics are those of
    sequential consistency. Two services are not composed into one run: [MessageFlow] joins
    substreams over streams, [YamuxFlow] streams and [SecioHandshakeProofs] handshakes. The handlers
    of ping and discovery use the decoders that take no address, so a misaligned message does not stop
    them in the model.

    ** What the model showed

    Lemmas beside the theorems record where the code deviates from its intent, among them
    [distribute_drops_frames] (frames after a refused SYN are lost), [local_close_reopened] (a locally
    closed stream accepts data again), [empty_read_loses_data] (a read with an empty buffer loses
    buffered data), [sweep_panic_silent] and [poll_panic_silent] (panics of callbacks nobody is told
    of), [session_after_shutdown] and [listener_after_shutdown] (a service that does not end),
    [slash_name_not_read_back] (names in addresses), [misaligned_numbers] (raw pointers into
    messages), [late_protocol_revives_session], [pong_always_disconnects] (every answered ping
    ends the session), [silence_not_reported] (identify does not notice a silent peer),
    [oversized_answer_panics] (discovery), [connect_before_all_open] and [inbound_session_kept]
    (connector and node), [read_after_end_waits] (a socket in memory), [ws_read_after_ping_not_woken] and
    [ws_empty_read_drops_buffer] (websockets), [tls_dial_never_ends] (a TLS handshake has no timeout),
    [ws_url_authority] (URLs of IPv6 addresses), [zero_window_accepted] and [frame_length_truncated]
    (the builder), and [shared_port_unmapped] (upnp). *)

From Stdlib Require Import ZArith Lia Bool.
From Stdlib Require Strings.Byte.
From stdpp Require Import base list gmap.

Open Scope Z_scope.

(** ** Bytes and fixed-width integers *)

Notation byte := Init.Byte.byte.
Abbreviation bytes := (list byte).

(** The unsigned value of a byte, and the byte a [u8] cast ([as u8]) of an integer gives. *)
Definition byte_val (b : byte) : Z := Z.of_N (Byte.to_N b).

Definition byte_of (z : Z) : byte :=
  match Byte.of_N (Z.to_N (z mod 256)) with
  | Some b => b
  | None => Byte.x00
  end.

Lemma byte_val_range b : 0 <= byte_val b < 256.
Proof. unfold byte_val. pose proof (Byte.to_N_bounded b). lia. Qed.

Lemma byte_val_of z : byte_val (byte_of z) = z mod 256.
Proof.
  unfold byte_val, byte_of.
  pose proof (Z.mod_pos_bound z 256 ltac:(lia)) as Hb.
  destruct (Byte.of_N _) as [b|] eqn:E.
  - apply Byte.to_of_N in E. rewrite E. lia.
  - apply Byte.of_N_None_iff in E. lia.
Qed.

Lemma byte_of_val b : byte_of (byte_val b) = b.
Proof.
  unfold byte_of. rewrite Z.mod_small by apply byte_val_range.
  unfold byte_val. rewrite N2Z.id, Byte.of_to_N. done.
Qed.

Lemma byte_val_inj b1 b2 : byte_val b1 = byte_val b2 → b1 = b2.
Proof. intros H. rewrite <- (byte_of_val b1), <- (byte_of_val b2). by rewrite H. Qed.

#[export] Instance byte_eq_dec : EqDecision byte.
Proof. intros a b. destruct (Byte.byte_eq_dec a b); [by left | by right]. Defined.

#[export] Instance byte_countable : Countable byte := inj_countable' byte_val byte_of byte_of_val.

(** [u8], [u16], [u32], [u64] and [usize] (64-bit targets) are integers below [2 ^ w]. *)
Definition in_width (w z : Z) : Prop := 0 <= z < 2 ^ w.

Abbreviation is_u8 := (in_width 8).
Abbreviation is_u16 := (in_width 16).
Abbreviation is_u32 := (in_width 32).
Abbreviation is_u64 := (in_width 64).

#[export] Instance in_width_dec w z : Decision (in_width w z).
Proof. unfold in_width. apply _. Defined.

(** [as u32] and the like: truncation to the width. *)
Definition cast (w z : Z) : Z := z mod 2 ^ w.

Lemma cast_id w z : in_width w z → cast w z = z.
Proof. intros H. apply Z.mod_small, H. Qed.

(** Rust's [checked_add]/[checked_sub]; the operators [+], [-] on machine integers
    panic exactly where these give [None] (overflow checks on). *)
Definition checked_add (w a b : Z) : option Z :=
  if decide (a + b < 2 ^ w) then Some (a + b) else None.

Definition checked_sub (a b : Z) : option Z :=
  if decide (b <= a) then Some (a - b) else None.

Definition wrapping_add (w a b : Z) : Z := (a + b) mod 2 ^ w.

Lemma checked_add_Some w a b c :
  checked_add w a b = Some c ↔ c = a + b ∧ a + b < 2 ^ w.
Proof. unfold checked_add. case_decide; naive_solver. Qed.

Lemma checked_add_None w a b : checked_add w a b = None ↔ 2 ^ w <= a + b.
Proof. unfold checked_add. case_decide; split; try done; lia. Qed.

Lemma checked_sub_Some a b c : checked_sub a b = Some c ↔ c = a - b ∧ b <= a.
Proof. unfold checked_sub. case_decide; naive_solver. Qed.

Lemma checked_sub_None a b : checked_sub a b = None ↔ a < b.
Proof. unfold checked_sub. case_decide; split; try done; lia. Qed.

Lemma checked_add_ok w a b : a + b < 2 ^ w → checked_add w a b = Some (a + b).
Proof. intros. by apply checked_add_Some. Qed.

Lemma checked_sub_ok a b : b <= a → checked_sub a b = Some (a - b).
Proof. intros. by apply checked_sub_Some. Qed.

(** ** Lengths as integers ([Vec::len] is a [usize]) *)

Definition len {A} (l : list A) : Z := Z.of_nat (length l).

Lemma len_nonneg {A} (l : list A) : 0 <= len l.
Proof. unfold len. lia. Qed.

Lemma len_app {A} (l k : list A) : len (l ++ k) = len l + len k.
Proof. unfold len. rewrite length_app. lia. Qed.

Lemma len_nil {A} : len (@nil A) = 0.
Proof. done. Qed.

Lemma len_cons {A} (x : A) l : len (x :: l) = 1 + len l.
Proof. unfold len. cbn [length]. lia. Qed.

Lemma len_zero {A} (l : list A) : len l = 0 → l = [].
Proof. destruct l; [done|]. rewrite len_cons. pose proof (len_nonneg l). lia. Qed.

Lemma len_take {A} n (l : list A) :
  0 <= n <= len l → len (take (Z.to_nat n) l) = n.
Proof. unfold len. intros. rewrite length_take. lia. Qed.

Lemma len_drop {A} n (l : list A) :
  0 <= n <= len l → len (drop (Z.to_nat n) l) = len l - n.
Proof. unfold len. intros. rewrite length_drop. lia. Qed.

Definition is_empty {A} (l : list A) : bool :=
  match l with [] => true | _ => false end.

(** ** Big-endian integers ([BufMut::put_u16/u32/u64], [Buf::get_u16/...]) *)

Fixpoint be_bytes (n : nat) (z : Z) : bytes :=
  match n with
  | O => []
  | S m => be_bytes m (z / 256) ++ [byte_of z]
  end.

Definition be_val (l : bytes) : Z :=
  fold_left (fun acc b => 256 * acc + byte_val b) l 0.

Lemma be_bytes_length n z : length (be_bytes n z) = n.
Proof.
  revert z. induction n as [|n IH]; intros z; cbn; [done|].
  rewrite length_app, IH. cbn. lia.
Qed.

Lemma be_bytes_len n z : len (be_bytes n z) = Z.of_nat n.
Proof. unfold len. by rewrite be_bytes_length. Qed.

Lemma be_val_snoc l b : be_val (l ++ [b]) = 256 * be_val l + byte_val b.
Proof. unfold be_val. by rewrite fold_left_app. Qed.

Lemma be_val_be_bytes n z :
  be_val (be_bytes n z) = z mod 2 ^ (8 * Z.of_nat n).
Proof.
  revert z. induction n as [|n IH]; intros z; cbn [be_bytes].
  - rewrite Z.mod_1_r. done.
  - rewrite be_val_snoc, IH, byte_val_of.
    replace (2 ^ (8 * Z.of_nat (S n))) with (256 * 2 ^ (8 * Z.of_nat n)).
    2:{ replace (8 * Z.of_nat (S n)) with (8 + 8 * Z.of_nat n) by lia.
        rewrite Z.pow_add_r by lia. done. }
    rewrite Z.rem_mul_r by lia. lia.
Qed.

Lemma be_val_be_bytes_id n z :
  in_width (8 * Z.of_nat n) z → be_val (be_bytes n z) = z.
Proof. intros H. rewrite be_val_be_bytes. by apply cast_id. Qed.

Lemma be_val_range l : in_width (8 * len l) (be_val l).
Proof.
  induction l as [|b l IH] using rev_ind.
  - cbn. unfold in_width, len. cbn. lia.
  - rewrite be_val_snoc, len_app, len_cons, len_nil.
    unfold in_width in *. replace (8 * (len l + (1 + 0))) with (8 + 8 * len l) by lia.
    pose proof (len_nonneg l). rewrite Z.pow_add_r by lia.
    pose proof (byte_val_range b). change (2 ^ 8) with 256. lia.
Qed.

Lemma be_bytes_be_val l : be_bytes (length l) (be_val l) = l.
Proof.
  induction l as [|b l IH] using rev_ind; [done|].
  rewrite length_app. cbn [length]. rewrite Nat.add_1_r. cbn [be_bytes].
  rewrite be_val_snoc. pose proof (byte_val_range b).
  replace ((256 * be_val l + byte_val b) / 256) with (be_val l)
    by (rewrite Z.mul_comm, Z.div_add_l, Z.div_small; lia).
  rewrite IH. f_equal. f_equal. apply byte_val_inj.
  rewrite byte_val_of, Z.mul_comm, Z.add_comm, Z.mod_add by lia.
  apply Z.mod_small; lia.
Qed.

(** ** Outcomes, polls, and the state-and-error monad of the [&mut self] methods *)

(** A method returns a value, returns [Err e] (its state changes persist), or panics. *)
Inductive res (E A : Type) : Type :=
| ROk (a : A)
| RErr (e : E)
| RPanic.
Arguments ROk {E A} a.
Arguments RErr {E A} e.
Arguments RPanic {E A}.

(** [std::task::Poll]. *)
Inductive Poll (A : Type) : Type :=
| Ready (a : A)
| Pending.
Arguments Ready {A} a.
Arguments Pending {A}.

(** Outcomes of functions without state. *)
#[export] Instance res_ret E : MRet (res E) := λ A a, ROk a.

#[export] Instance res_bind E : MBind (res E) := λ A B k c,
  match c with
  | ROk a => k a
  | RErr e => RErr e
  | RPanic => RPanic
  end.

Definition M (S E A : Type) : Type := S → S * res E A.

#[export] Instance M_ret S E : MRet (M S E) := λ A a s, (s, ROk a).

#[export] Instance M_bind S E : MBind (M S E) := λ A B k c s,
  match c s with
  | (s', ROk a) => k a s'
  | (s', RErr e) => (s', RErr e)
  | (s', RPanic) => (s', RPanic)
  end.

Definition throw {S E A} (e : E) : M S E A := λ s, (s, RErr e).
Definition panic {S E A} : M S E A := λ s, (s, RPanic).
Definition gets {S E A} (f : S → A) : M S E A := λ s, (s, ROk (f s)).
Definition modify {S E} (f : S → S) : M S E unit := λ s, (f s, ROk tt).

(** Arithmetic that panics on overflow, and [ok_or(e)?]. *)
Definition or_panic {S E A} (o : option A) : M S E A :=
  match o with Some a => mret a | None => panic end.
Definition ok_or {S E A} (e : E) (o : option A) : M S E A :=
  match o with Some a => mret a | None => throw e end.

(** Runs a method and hands its [Result] to the caller instead of propagating it
    ([match self.f() { Ok(..) => .., Err(..) => .. }], [let _ignore = self.f()]). *)
Definition catch {S E E' A} (c : M S E A) : M S E' (E + A) := λ s,
  match c s with
  | (s', ROk a) => (s', ROk (inr a))
  | (s', RErr e) => (s', ROk (inl e))
  | (s', RPanic) => (s', RPanic)
  end.

(** A sequence that ends in a value went through both parts. *)
Lemma bind_ok {S E A B} (c : M S E A) (k : A → M S E B) s s' b :
  (c ≫= k) s = (s', ROk b) → ∃ s1 a, c s = (s1, ROk a) ∧ k a s1 = (s', ROk b).
Proof. unfold mbind, M_bind. destruct (c s) as [s1 [a|e|]]; [eauto|discriminate..]. Qed.

Lemma res_bind_ok {E A B} (r : res E A) (k : A → res E B) b :
  r ≫= k = ROk b → ∃ a, r = ROk a ∧ k a = ROk b.
Proof. destruct r; [eauto|discriminate..]. Qed.

Lemma bind_run {S E A B} (c : M S E A) (k : A → M S E B) s s1 a :
  c s = (s1, ROk a) → (c ≫= k) s = k a s1.
Proof. unfold mbind, M_bind. by intros ->. Qed.

Create HintDb keeps discriminated.

(** ** Invariants of methods, whatever their outcome *)

Definition keeps {S E A} (P : S → Prop) (c : M S E A) : Prop := ∀ s, P s → P (c s).1.

Section Keeps.
Context {S : Type} (P : S → Prop).

Lemma keeps_bind {E A B} (c : M S E A) (k : A → M S E B) :
  keeps P c → (∀ a, keeps P (k a)) → keeps P (c ≫= k).
Proof.
  intros Hc Hk s Hs. unfold mbind, M_bind. specialize (Hc s Hs).
  destruct (c s) as [s1 [a|e|]]; [by apply Hk|done..].
Qed.

Lemma keeps_id {E A} (c : M S E A) : (∀ s, (c s).1 = s) → keeps P c.
Proof. intros Hc s Hs. by rewrite Hc. Qed.

Lemma keeps_ret {E A} (a : A) : keeps P (mret a : M S E A).
Proof. by apply keeps_id. Qed.

Lemma keeps_throw {E A} (e : E) : keeps P (throw e : M S E A).
Proof. by apply keeps_id. Qed.

Lemma keeps_panic {E A} : keeps P (panic : M S E A).
Proof. by apply keeps_id. Qed.

Lemma keeps_gets {E A} (f : S → A) : keeps P (gets f : M S E A).
Proof. by apply keeps_id. Qed.

(** The value read may be remembered. *)
Lemma keeps_gets_bind {E A B} (f : S → A) (k : A → M S E B) :
  (∀ s, P s → P (k (f s) s).1) → keeps P (gets f ≫= k).
Proof. intros Hk s Hs. exact (Hk s Hs). Qed.

Lemma keeps_modify {E} (f : S → S) : (∀ s, P s → P (f s)) → keeps P (modify f : M S E unit).
Proof. intros Hf s Hs. exact (Hf s Hs). Qed.

Lemma keeps_or_panic {E A} (o : option A) : keeps P (or_panic o : M S E A).
Proof. apply keeps_id. by destruct o. Qed.

Lemma keeps_ok_or {E A} (e : E) (o : option A) : keeps P (ok_or e o : M S E A).
Proof. apply keeps_id. by destruct o. Qed.

Lemma keeps_catch {E E' A} (c : M S E A) : keeps P c → keeps P (catch c : M S E' (E + A)).
Proof. intros Hc s Hs. unfold catch. specialize (Hc s Hs). by destruct (c s) as [? []]. Qed.

End Keeps.

(** ** Methods that neither panic nor break an invariant *)

Definition safe {S E A} (I : S → Prop) (c : M S E A) : Prop :=
  ∀ s, I s → (c s).2 ≠ RPanic ∧ I (c s).1.

Section Safe.
Context {S : Type} (I : S → Prop).

Lemma safe_bind {E A B} (c : M S E A) (k : A → M S E B) :
  safe I c → (∀ a, safe I (k a)) → safe I (c ≫= k).
Proof.
  intros Hc Hk s Hs. unfold mbind, M_bind. specialize (Hc s Hs).
  destruct (c s) as [s1 [a|e|]]; cbn in *; [|naive_solver..]. apply Hk, Hc.
Qed.

(** With a postcondition of the first step. *)
Lemma safe_bind_post {E A B} (Q : A → Prop) (c : M S E A) (k : A → M S E B) :
  safe I c → (∀ s s' a, I s → c s = (s', ROk a) → Q a) → (∀ a, Q a → safe I (k a)) →
  safe I (c ≫= k).
Proof.
  intros Hc HQ Hk s Hs. unfold mbind, M_bind. pose proof (Hc s Hs).
  destruct (c s) as [s1 [a|e|]] eqn:E1; cbn in *; [|naive_solver..].
  apply Hk; [by eapply HQ|]. naive_solver.
Qed.

Lemma safe_gets_bind {E A B} (f : S → A) (k : A → M S E B) :
  (∀ s, I s → (k (f s) s).2 ≠ RPanic ∧ I (k (f s) s).1) → safe I (gets f ≫= k).
Proof. intros Hk s Hs. exact (Hk s Hs). Qed.

Lemma safe_ret {E A} (a : A) : safe I (mret a : M S E A).
Proof. by intros s Hs. Qed.

Lemma safe_throw {E A} (e : E) : safe I (throw e : M S E A).
Proof. by intros s Hs. Qed.

Lemma safe_gets {E A} (f : S → A) : safe I (gets f : M S E A).
Proof. by intros s Hs. Qed.

Lemma safe_modify {E} (f : S → S) : (∀ s, I s → I (f s)) → safe I (modify f : M S E unit).
Proof. intros Hf s Hs. split; [done|]. exact (Hf s Hs). Qed.

Lemma safe_ok_or {E A} (e : E) (o : option A) : safe I (ok_or e o : M S E A).
Proof. by destruct o; intros s Hs. Qed.

Lemma safe_catch {E E' A} (c : M S E A) : safe I c → safe I (catch c : M S E' (E + A)).
Proof. intros Hc s Hs. unfold catch. specialize (Hc s Hs). destruct (c s) as [? []]; naive_solver. Qed.

End Safe.

Create HintDb safe discriminated.
#[export] Hint Resolve safe_ret safe_throw safe_gets safe_ok_or safe_catch : safe.

#[export] Hint Resolve keeps_ret keeps_throw keeps_panic keeps_gets keeps_or_panic keeps_ok_or
  keeps_catch : keeps.

(** ** Total runs with a postcondition

    [wp c Q s]: the method returns from [s], neither failing nor panicking, with [Q]. *)

Definition wp {S E A} (c : M S E A) (Q : A → S → Prop) (s : S) : Prop :=
  match c s with (s', ROk a) => Q a s' | _ => False end.

Section Wp.
Context {S E : Type}.

Lemma wp_bind {A B} (c : M S E A) (k : A → M S E B) Q s :
  wp c (λ a, wp (k a) Q) s → wp (c ≫= k) Q s.
Proof. unfold wp, mbind, M_bind. by destruct (c s) as [s1 []]. Qed.

Lemma wp_ret {A} (a : A) (Q : A → S → Prop) s : Q a s → wp (mret a : M S E A) Q s.
Proof. done. Qed.

Lemma wp_gets {A} (f : S → A) (Q : A → S → Prop) s : Q (f s) s → wp (gets f : M S E A) Q s.
Proof. done. Qed.

Lemma wp_modify f (Q : unit → S → Prop) s : Q tt (f s) → wp (modify f : M S E unit) Q s.
Proof. done. Qed.

Lemma wp_or_panic {A} (o : option A) a (Q : A → S → Prop) s :
  o = Some a → Q a s → wp (or_panic o : M S E A) Q s.
Proof. by intros ->. Qed.

Lemma wp_mono {A} (c : M S E A) (Q Q' : A → S → Prop) s :
  wp c Q s → (∀ a s', Q a s' → Q' a s') → wp c Q' s.
Proof. unfold wp. destruct (c s) as [s1 []]; auto. Qed.

Lemma wp_run {A} (c : M S E A) Q s : wp c Q s → ∃ s' a, c s = (s', ROk a) ∧ Q a s'.
Proof. unfold wp. destruct (c s) as [s1 []]; naive_solver. Qed.

Lemma wp_ok {A} (c : M S E A) (Q : A → S → Prop) s s' a : wp c Q s → c s = (s', ROk a) → Q a s'.
Proof. unfold wp. intros H E1. by rewrite E1 in H. Qed.

Lemma wp_keeps {A} (P : S → Prop) (c : M S E A) Q s :
  wp c Q s → keeps P c → P s → wp c (λ a s', Q a s' ∧ P s') s.
Proof. unfold wp. intros H Hk Hs. specialize (Hk s Hs). by destruct (c s) as [s1 []]. Qed.

End Wp.

(** ** Tactics *)

(** Walk through the binds of a method, leaving the primitive steps. *)
Ltac keeps_walk :=
  repeat first
    [ solve [eauto with keeps]
    | apply keeps_bind; [|intros]
    | apply keeps_catch
    | match goal with |- keeps _ (match ?x with _ => _ end) => destruct x end ].

(** Runs the primitive steps at the head of a method. *)
Ltac wp_step :=
  lazymatch goal with
  | |- wp (mbind _ _) _ _ => apply wp_bind
  | |- wp (mret _) _ _ => apply wp_ret; cbn beta
  | |- wp (gets _) _ _ => apply wp_gets; cbn beta
  | |- wp (modify _) _ _ => apply wp_modify; cbn beta
  end.
Ltac wp_steps := repeat wp_step.

Ltac safe_walk :=
  repeat first
    [ solve [eauto with safe]
    | apply safe_bind; [|intros]
    | apply safe_catch
    | match goal with |- safe _ (match ?x with _ => _ end) => destruct x end ].

(** Splits every pair and result returned by a monadic step in the context. *)
Ltac res_destruct :=
  repeat match goal with
  | H : context [match ?x with ROk _ => _ | RErr _ => _ | RPanic => _ end] |- _ =>
      let E := fresh "E" in destruct x eqn:E
  | |- context [match ?x with ROk _ => _ | RErr _ => _ | RPanic => _ end] =>
      let E := fresh "E" in destruct x eqn:E
  | H : context [let (_, _) := ?x in _] |- _ => let E := fresh "E" in destruct x eqn:E
  end.

Ltac destruct_if :=
  match goal with
  | |- context [if ?b then _ else _] => let E := fresh "E" in destruct b eqn:E
  end.

Create HintDb p2p discriminated.
#[export] Hint Resolve byte_val_range len_nonneg be_bytes_length be_bytes_len : p2p.

Create Rewrite HintDb plen.
#[export] Hint Rewrite @len_app @len_nil @len_cons be_bytes_len : plen.
