(* ===== verification/Text.v ===== *)
(** * Strings and varints

    Rust strings as byte lists: UTF-8 validation and splitting, shared by the multiaddresses,
    the handshake messages and the protocol selection; and the interface of the
    [unsigned_varint] crate, shared by the multiaddresses and the peer identifiers. *)

From Stdlib Require Import ZArith Lia Bool.
From Stdlib Require Import Strings.String.
From stdpp Require Import base list sets.
From S2P Require Import Prelude.

Open Scope Z_scope.

Definition str (s : string) : bytes := String.list_byte_of_string s.

(** ** UTF-8 *)

Definition in_range (lo hi : Z) (b : byte) : bool := (lo <=? byte_val b) && (byte_val b <=? hi).
Definition cont (b : byte) : bool := in_range 0x80 0xBF b.

(** [str::from_utf8] accepts exactly the well-formed sequences of the Unicode standard. *)
Fixpoint utf8_ok (l : bytes) : bool :=
  match l with
  | [] => true
  | b0 :: r0 =>
      if in_range 0x00 0x7F b0 then utf8_ok r0 else
      match r0 with
      | [] => false
      | b1 :: r1 =>
          if in_range 0xC2 0xDF b0 then cont b1 && utf8_ok r1 else
          match r1 with
          | [] => false
          | b2 :: r2 =>
              if in_range 0xE0 0xE0 b0 then in_range 0xA0 0xBF b1 && cont b2 && utf8_ok r2
              else if in_range 0xE1 0xEC b0 || in_range 0xEE 0xEF b0 then
                cont b1 && cont b2 && utf8_ok r2
              else if in_range 0xED 0xED b0 then in_range 0x80 0x9F b1 && cont b2 && utf8_ok r2
              else
                match r2 with
                | [] => false
                | b3 :: r3 =>
                    (in_range 0xF0 0xF0 b0 && in_range 0x90 0xBF b1
                     || in_range 0xF1 0xF3 b0 && cont b1
                     || in_range 0xF4 0xF4 b0 && in_range 0x80 0x8F b1)
                    && cont b2 && cont b3 && utf8_ok r3
                end
          end
      end
  end.

(** ** Splitting *)

(** [str::split(c)] *)
Fixpoint split_on (c : byte) (l : bytes) : list bytes :=
  match l with
  | [] => [[]]
  | b :: r =>
      if bool_decide (b = c) then [] :: split_on c r
      else match split_on c r with
           | [] => [[b]]
           | x :: xs => (b :: x) :: xs
           end
  end.

Lemma split_on_app c x l : c ∉ x → split_on c (x ++ c :: l) = x :: split_on c l.
Proof.
  induction x as [|b x IH]; intros Hx; cbn.
  - by rewrite bool_decide_eq_true_2.
  - rewrite bool_decide_eq_false_2 by set_solver. by rewrite IH by set_solver.
Qed.

Lemma split_on_none c x : c ∉ x → split_on c x = [x].
Proof.
  induction x as [|b x IH]; intros Hx; cbn; [done|].
  rewrite bool_decide_eq_false_2 by set_solver. by rewrite IH by set_solver.
Qed.

(** Parts joined with a leading separator each. *)
Lemma split_on_join c parts :
  Forall (λ x, c ∉ x) parts → split_on c (concat (map (cons c) parts)) = [] :: parts.
Proof.
  intros Hp. assert (∀ l, split_on c (c :: l) = [] :: split_on c l) as Hc
    by (intros; cbn; by rewrite bool_decide_eq_true_2).
  induction Hp as [|x parts Hx Hp IH]; [done|]. cbn [map concat].
  destruct parts as [|y parts].
  - cbn [map concat]. rewrite app_nil_r. rewrite Hc. by rewrite split_on_none.
  - rewrite <- app_comm_cons, Hc. f_equal. cbn [map concat] in IH |- *.
    rewrite <- app_comm_cons, Hc in IH. injection IH as IH. rewrite <- app_comm_cons.
    by rewrite split_on_app, IH.
Qed.

(** ** The order on byte strings *)

(** Strings and byte slices compare lexicographically by bytes. *)
Fixpoint bytes_cmp (a b : bytes) : comparison :=
  match a, b with
  | [], [] => Eq
  | [], _ :: _ => Lt
  | _ :: _, [] => Gt
  | x :: a, y :: b =>
      match Z.compare (byte_val x) (byte_val y) with Eq => bytes_cmp a b | c => c end
  end.

Lemma bytes_cmp_eq a b : bytes_cmp a b = Eq ↔ a = b.
Proof.
  revert b. induction a as [|x a IH]; intros [|y b]; cbn; try (split; done).
  destruct (Z.compare_spec (byte_val x) (byte_val y)) as [H|H|H].
  - rewrite IH. apply byte_val_inj in H as ->. naive_solver.
  - split; [done|]. intros [= -> _]. lia.
  - split; [done|]. intros [= -> _]. lia.
Qed.

Lemma bytes_cmp_opp a b : bytes_cmp b a = CompOpp (bytes_cmp a b).
Proof.
  revert b. induction a as [|x a IH]; intros [|y b]; cbn; try done.
  rewrite (Z.compare_antisym (byte_val x) (byte_val y)). destruct (_ ?= _); cbn; auto.
Qed.

Lemma bytes_cmp_trans a b c : bytes_cmp a b ≠ Gt → bytes_cmp b c ≠ Gt → bytes_cmp a c ≠ Gt.
Proof.
  revert b c. induction a as [|x a IH]; intros [|y b] [|z c]; cbn; try done.
  destruct (Z.compare_spec (byte_val x) (byte_val y)), (Z.compare_spec (byte_val y) (byte_val z)),
    (Z.compare_spec (byte_val x) (byte_val z)); try done; try lia. apply IH.
Qed.

(** ** Varints *)

(** [unsigned_varint]: encoders and decoders by width in bits. *)
Class Varint := {
  vi_encode : Z → Z → bytes;
  vi_decode : Z → bytes → option (Z * bytes);
}.

(** Decoding reads a non-empty prefix and does not depend on what follows it; it inverts
    encoding. *)
Class VarintLaws `{V : Varint} : Prop := {
  vi_roundtrip : ∀ w n rest, w <= 64 → in_width w n →
    vi_decode w (vi_encode w n ++ rest) = Some (n, rest);
  vi_prefix : ∀ w b n r, vi_decode w b = Some (n, r) →
    in_width w n ∧ ∃ d, b = d ++ r ∧ d ≠ [] ∧ ∀ r', vi_decode w (d ++ r') = Some (n, r');
}.
