(* ===== verification/Channels.v ===== *)
(** * Interfaces to the channels and sinks the program uses

    [futures::channel::mpsc] and [tokio_util]'s framed transports are not part of the
    sources. What the components call of them is an interface here: a class of operations
    with a ghost view of the messages, and a class of laws that states the documented
    behaviour. The components are defined over the operations and proved against the laws;
    the reference channels at the end discharge the laws and serve the concrete runs. *)

From Stdlib Require Import ZArith Lia Bool.
From stdpp Require Import base list gmap.
From S2P Require Import Prelude.

Open Scope Z_scope.

(** ** Unbounded senders ([UnboundedSender::unbounded_send], [is_closed]) *)

Class UnboundedSender (T A : Type) := {
  unbounded_send : T → A → T * bool;
  us_is_closed : T → bool;
  us_sent : T → list A;
}.
#[global] Hint Mode UnboundedSender ! - : typeclass_instances.

(** A send on an open channel enqueues the message; on a closed one it fails. *)
Class UnboundedSenderLaws (T A : Type) `{US : UnboundedSender T A} : Prop := {
  us_send_open : ∀ (s : T) (a : A), us_is_closed s = false → ∃ s',
    unbounded_send s a = (s', true) ∧ us_sent s' = us_sent s ++ [a] ∧ us_is_closed s' = false;
  us_send_closed : ∀ (s : T) (a : A), us_is_closed s = true → ∃ s',
    unbounded_send s a = (s', false) ∧ us_sent s' = us_sent s ∧ us_is_closed s' = true;
}.

(** ** Receivers ([Stream::poll_next], [FusedStream::is_terminated]) *)

Class Receiver (R A : Type) := {
  recv_poll_next : R → R * Poll (option A);
  recv_is_terminated : R → bool;
  recv_queue : R → list A;
}.
#[global] Hint Mode Receiver ! - : typeclass_instances.

(** Messages leave the channel in the order they entered it; the other two results are
    given only when nothing is queued. *)
Class ReceiverLaws (R A : Type) `{RC : Receiver R A} : Prop := {
  recv_some : ∀ (r r' : R) (a : A),
    recv_poll_next r = (r', Ready (Some a)) → recv_queue r = a :: recv_queue r';
  recv_none : ∀ (r r' : R),
    recv_poll_next r = (r', Ready None) → recv_queue r = [] ∧ recv_queue r' = [];
  recv_pending : ∀ (r r' : R),
    recv_poll_next r = (r', Pending) → recv_queue r = [] ∧ recv_queue r' = [];
}.

(** ** Bounded senders ([Sender::poll_ready], [Sender::try_send]) *)

(** [TrySendError]: full, giving the message back, or disconnected. *)
Inductive TrySend (A : Type) := SendOk | SendFull (a : A) | SendDisconnected.
Arguments SendOk {A}.
Arguments SendFull {A} a.
Arguments SendDisconnected {A}.

(** [poll_ready] is [Ready true] for [Ready(Ok(()))] and [Ready false] for [Ready(Err(_))]. *)
Class BoundedSender (T A : Type) := {
  bs_poll_ready : T → T * Poll bool;
  bs_try_send : T → A → T * TrySend A;
  bs_sent : T → list A;
}.
#[global] Hint Mode BoundedSender ! - : typeclass_instances.

(** Only a successful [try_send] enqueues; a full channel gives the message back. *)
Class BoundedSenderLaws (T A : Type) `{BS : BoundedSender T A} : Prop := {
  bs_ready_sent : ∀ (s : T), bs_sent (bs_poll_ready s).1 = bs_sent s;
  bs_try_ok : ∀ (s s' : T) (a : A), bs_try_send s a = (s', SendOk) → bs_sent s' = bs_sent s ++ [a];
  bs_try_full : ∀ (s s' : T) (a b : A),
    bs_try_send s a = (s', SendFull b) → b = a ∧ bs_sent s' = bs_sent s;
  bs_try_disc : ∀ (s s' : T) (a : A),
    bs_try_send s a = (s', SendDisconnected) → bs_sent s' = bs_sent s;
}.

(** ** Reference channels *)

(** An unbounded sender that keeps what it sent. *)
Record LogSender (A : Type) := mkLogSender { ls_log : list A; ls_closed : bool }.
Arguments mkLogSender {A} _ _.
Arguments ls_log {A} _.
Arguments ls_closed {A} _.

#[export] Instance LogSender_ops A : UnboundedSender (LogSender A) A := {
  unbounded_send s a :=
    if ls_closed s then (s, false) else (mkLogSender (ls_log s ++ [a]) false, true);
  us_is_closed := ls_closed;
  us_sent := ls_log;
}.

#[export] Instance LogSender_laws A : UnboundedSenderLaws (LogSender A) A.
Proof. split; intros [l c] a; cbn; intros ->; eauto. Qed.

(** A receiver on a queue, closed or not; it terminates after the end was seen. *)
Record QueueReceiver (A : Type) := mkQueueReceiver {
  qr_queue : list A; qr_closed : bool; qr_terminated : bool }.
Arguments mkQueueReceiver {A} _ _ _.
Arguments qr_queue {A} _.
Arguments qr_closed {A} _.
Arguments qr_terminated {A} _.

#[export] Instance QueueReceiver_ops A : Receiver (QueueReceiver A) A := {
  recv_poll_next r :=
    match qr_queue r with
    | a :: q => (mkQueueReceiver q (qr_closed r) (qr_terminated r), Ready (Some a))
    | [] => if qr_closed r then (mkQueueReceiver [] true true, Ready None)
            else (r, Pending)
    end;
  recv_is_terminated := qr_terminated;
  recv_queue := qr_queue;
}.

#[export] Instance QueueReceiver_laws A : ReceiverLaws (QueueReceiver A) A.
Proof.
  split; intros [q c t] r'; cbn.
  - intros a H. destruct q; [destruct c; discriminate|]. by simplify_eq.
  - destruct q; [destruct c|]; intros; by simplify_eq.
  - destruct q; [destruct c|]; intros; by simplify_eq.
Qed.

(** A bounded sender with a capacity, holding what it accepted and is not yet taken. *)
Record SlotSender (A : Type) := mkSlotSender { ss_sent : list A; ss_free : nat; ss_dropped : bool }.
Arguments mkSlotSender {A} _ _ _.
Arguments ss_sent {A} _.
Arguments ss_free {A} _.
Arguments ss_dropped {A} _.

#[export] Instance SlotSender_ops A : BoundedSender (SlotSender A) A := {
  bs_poll_ready s :=
    (s, if ss_dropped s then Ready false else
        match ss_free s with O => Pending | S _ => Ready true end);
  bs_try_send s a :=
    if ss_dropped s then (s, SendDisconnected) else
    match ss_free s with
    | O => (s, SendFull a)
    | S n => (mkSlotSender (ss_sent s ++ [a]) n false, SendOk)
    end;
  bs_sent := ss_sent;
}.

#[export] Instance SlotSender_laws A : BoundedSenderLaws (SlotSender A) A.
Proof.
  split; [done|..]; intros [l n d] s' a; cbn.
  - destruct d; [discriminate|]. destruct n; intros; by simplify_eq.
  - intros b. destruct d; [discriminate|]. destruct n; intros; by simplify_eq.
  - destruct d; [intros; by simplify_eq|]. destruct n; intros; by simplify_eq.
Qed.
