(* ===== verification/YamuxFrame.v ===== *)
(** * The yamux frame codec ([tentacle/yamux/src/frame.rs], [config.rs], [lib.rs])

    Frames, flags and their wire form: the encoder, the resumable decoder of
    [FrameCodec], and the proof that frames survive any chunking of the wire. *)

From Stdlib Require Import ZArith Lia Bool.
From stdpp Require Import base list gmap.
From S2P Require Import Prelude.

Open Scope Z_scope.

(** ** Constants ([lib.rs], [config.rs]) *)

Definition PROTOCOL_VERSION : Z := 0.
Definition RESERVED_STREAM_ID : Z := 0.
Definition HEADER_SIZE : Z := 12.
Definition INITIAL_STREAM_WINDOW : Z := 256 * 1024.
Definition DEFAULT_ACCEPT_BACKLOG : Z := 256.
Definition DEFAULT_MAX_STREAM_COUNT : Z := 65535.

(** Durations are in milliseconds. *)
Definition DEFAULT_KEEPALIVE_INTERVAL : Z := 30 * 1000.
Definition DEFAULT_WRITE_TIMEOUT : Z := 10 * 1000.

Record Config := mkConfig {
  accept_backlog : Z;
  enable_keepalive : bool;
  keepalive_interval : Z;
  connection_write_timeout : Z;
  max_stream_count : Z;
  max_stream_window_size : Z;
}.

Definition Config_default : Config := {|
  accept_backlog := DEFAULT_ACCEPT_BACKLOG;
  enable_keepalive := true;
  keepalive_interval := DEFAULT_KEEPALIVE_INTERVAL;
  connection_write_timeout := DEFAULT_WRITE_TIMEOUT;
  max_stream_count := DEFAULT_MAX_STREAM_COUNT;
  max_stream_window_size := INITIAL_STREAM_WINDOW;
|}.

(** ** Frame types, flags and go-away codes *)

(** The enum [Type]. *)
Inductive FrameType := Data | WindowUpdate | Ping | GoAway.

#[export] Instance FrameType_eq_dec : EqDecision FrameType.
Proof. solve_decision. Defined.

Definition Type_as_u8 (t : FrameType) : Z :=
  match t with Data => 0 | WindowUpdate => 1 | Ping => 2 | GoAway => 3 end.

Definition Type_try_from (v : Z) : option FrameType :=
  match v with
  | 0 => Some Data
  | 1 => Some WindowUpdate
  | 2 => Some Ping
  | 3 => Some GoAway
  | _ => None
  end.

Inductive Flag := Syn | Ack | Fin | Rst.

Definition Flag_as_u16 (f : Flag) : Z :=
  match f with Syn => 1 | Ack => 2 | Fin => 4 | Rst => 8 end.

(** [Flags] is a [u16] bit set. *)
Abbreviation Flags := Z (only parsing).

Definition Flags_from (f : Flag) : Flags := Flag_as_u16 f.
Definition Flags_default : Flags := 0.
Definition Flags_add (s : Flags) (f : Flag) : Flags := Z.lor s (Flag_as_u16 f).
Definition Flags_remove (s : Flags) (f : Flag) : Flags := Z.lxor s (Flag_as_u16 f).
Definition Flags_contains (s : Flags) (f : Flag) : bool :=
  Z.land s (Flag_as_u16 f) =? Flag_as_u16 f.

Inductive GoAwayCode := Normal | ProtocolError | InternalError.

Definition GoAwayCode_as_u32 (c : GoAwayCode) : Z :=
  match c with Normal => 0 | ProtocolError => 1 | InternalError => 2 end.

Definition GoAwayCode_from (v : Z) : GoAwayCode :=
  match v with
  | 0 => Normal
  | 1 => ProtocolError
  | 2 => InternalError
  | _ => ProtocolError
  end.

(** ** Frames *)

Record Header := mkHeader {
  h_version : Z;
  h_ty : FrameType;
  h_flags : Flags;
  h_stream_id : Z;
  h_length : Z;
}.

Record Frame := mkFrame { f_header : Header; f_body : option bytes }.

Definition new_data (flags : Flags) (stream_id : Z) (body : bytes) : Frame :=
  {| f_header := {| h_version := PROTOCOL_VERSION; h_ty := Data; h_flags := flags;
                    h_stream_id := stream_id; h_length := cast 32 (len body) |};
     f_body := Some body |}.

Definition new_window_update (flags : Flags) (stream_id delta : Z) : Frame :=
  {| f_header := {| h_version := PROTOCOL_VERSION; h_ty := WindowUpdate; h_flags := flags;
                    h_stream_id := stream_id; h_length := delta |};
     f_body := None |}.

Definition new_ping (flags : Flags) (ping_id : Z) : Frame :=
  {| f_header := {| h_version := PROTOCOL_VERSION; h_ty := Ping; h_flags := flags;
                    h_stream_id := RESERVED_STREAM_ID; h_length := ping_id |};
     f_body := None |}.

Definition new_go_away (reason : GoAwayCode) : Frame :=
  {| f_header := {| h_version := PROTOCOL_VERSION; h_ty := GoAway; h_flags := Flags_default;
                    h_stream_id := RESERVED_STREAM_ID; h_length := GoAwayCode_as_u32 reason |};
     f_body := None |}.

Definition f_ty (f : Frame) : FrameType := h_ty (f_header f).
Definition f_stream_id (f : Frame) : Z := h_stream_id (f_header f).
Definition f_flags (f : Frame) : Flags := h_flags (f_header f).
Definition f_length (f : Frame) : Z := h_length (f_header f).
Definition into_parts (f : Frame) : Header * option bytes := (f_header f, f_body f).

Definition f_size (f : Frame) : Z :=
  match f_body f with
  | Some _ => h_length (f_header f) + HEADER_SIZE
  | None => HEADER_SIZE
  end.

(** ** The codec *)

Record FrameCodec := mkFrameCodec {
  unused_data_header : option Header;
  max_frame_size : Z;
}.

Definition FrameCodec_default : FrameCodec :=
  {| unused_data_header := None; max_frame_size := INITIAL_STREAM_WINDOW |}.

(** The builder method [max_frame_size]. *)
Definition FrameCodec_max_frame_size (c : FrameCodec) (size : Z) : FrameCodec :=
  {| unused_data_header := unused_data_header c; max_frame_size := size |}.

(** The [io::Error] of kind [InvalidData] with message [yamux.version=..],
    [yamux.type=..] or [yamux.length=..]. *)
Inductive DecodeError := BadVersion (v : Z) | BadType (t : Z) | BadLength (l : Z).

(** [Buf::get_u8], [get_u16], [get_u32]: big-endian, advancing the cursor. *)
Definition get_be (n : nat) (l : bytes) : Z * bytes := (be_val (take n l), drop n l).

(** The header branch of [decode]: the twelve bytes split off the buffer. *)
Definition parse_header (max : Z) (header_data : bytes) : DecodeError + Header :=
  let '(version, d1) := get_be 1 header_data in
  if negb (version =? PROTOCOL_VERSION) then inl (BadVersion version) else
  let '(ty_value, d2) := get_be 1 d1 in
  match Type_try_from ty_value with
  | None => inl (BadType ty_value)
  | Some ty =>
      let '(flags, d3) := get_be 2 d2 in
      let '(stream_id, d4) := get_be 4 d3 in
      let '(length, _) := get_be 4 d4 in
      if bool_decide (ty = Data) && (max <? length) then inl (BadLength length)
      else inr {| h_version := version; h_ty := ty; h_flags := flags;
                  h_stream_id := stream_id; h_length := length |}
  end.

(** The body branch of [decode]: a data frame waits for its whole body. *)
Definition take_body (c : FrameCodec) (header : Header) (src : bytes)
  : FrameCodec * bytes * (DecodeError + option Frame) :=
  if bool_decide (h_ty header = Data) then
    if len src <? h_length header
    then ({| unused_data_header := Some header; max_frame_size := max_frame_size c |},
          src, inr None)
    else ({| unused_data_header := None; max_frame_size := max_frame_size c |},
          drop (Z.to_nat (h_length header)) src,
          inr (Some {| f_header := header;
                       f_body := Some (take (Z.to_nat (h_length header)) src) |}))
  else ({| unused_data_header := None; max_frame_size := max_frame_size c |},
        src, inr (Some {| f_header := header; f_body := None |})).

Definition decode (c : FrameCodec) (src : bytes)
  : FrameCodec * bytes * (DecodeError + option Frame) :=
  if is_empty src then (c, src, inr None) else
  match unused_data_header c with
  | Some header => take_body c header src
  | None =>
      if HEADER_SIZE <=? len src then
        match parse_header (max_frame_size c) (take 12 src) with
        | inl e => (c, drop 12 src, inl e)
        | inr header => take_body c header (drop 12 src)
        end
      else (c, src, inr None)
  end.

Definition encode_header (h : Header) : bytes :=
  be_bytes 1 (h_version h) ++ be_bytes 1 (Type_as_u8 (h_ty h)) ++
  be_bytes 2 (h_flags h) ++ be_bytes 4 (h_stream_id h) ++ be_bytes 4 (h_length h).

(** [encode] appends to [dst] and never fails. *)
Definition encode (item : Frame) (dst : bytes) : bytes :=
  let '(header, body) := into_parts item in
  dst ++ encode_header header ++ match body with Some data => data | None => [] end.

(** ** Well-formedness *)

(** The fields fit their machine types. *)
Definition header_wf (h : Header) : Prop :=
  is_u8 (h_version h) ∧ is_u16 (h_flags h) ∧ is_u32 (h_stream_id h) ∧ is_u32 (h_length h).

(** The body is present exactly on data frames and has the announced length. *)
Definition body_ok (f : Frame) : Prop :=
  match f_ty f, f_body f with
  | Data, Some d => len d = f_length f
  | Data, None => False
  | _, b => b = None
  end.

(** Frames a peer that follows the protocol puts on the wire, below the size limit. *)
Definition frame_ok (max : Z) (f : Frame) : Prop :=
  header_wf (f_header f) ∧ h_version (f_header f) = PROTOCOL_VERSION ∧
  body_ok f ∧ (f_ty f = Data → f_length f <= max).

(** A header kept between calls is that of a well-formed data frame below the limit. *)
Definition codec_ok (c : FrameCodec) : Prop :=
  match unused_data_header c with
  | None => True
  | Some h => h_ty h = Data ∧ header_wf h ∧ h_version h = PROTOCOL_VERSION ∧
              h_length h <= max_frame_size c
  end.

(** ** Auxiliary lemmas *)

Lemma Type_roundtrip t : Type_try_from (Type_as_u8 t) = Some t.
Proof. by destruct t. Qed.

Lemma Type_try_from_Some v t : Type_try_from v = Some t → v = Type_as_u8 t.
Proof. unfold Type_try_from. intros H. by repeat case_match; simplify_eq. Qed.

Lemma Type_try_from_None v : 0 <= v → Type_try_from v = None ↔ 4 <= v.
Proof.
  intros Hv. split; intros H.
  - assert (v ≠ 0 ∧ v ≠ 1 ∧ v ≠ 2 ∧ v ≠ 3) by (split_and!; intros ->; done). lia.
  - destruct (Type_try_from v) as [t|] eqn:E; [|done].
    apply Type_try_from_Some in E. destruct t; cbn in E; lia.
Qed.

Lemma get_be_app n z rest :
  in_width (8 * Z.of_nat n) z → get_be n (be_bytes n z ++ rest) = (z, rest).
Proof.
  intros H. unfold get_be. rewrite take_app_length', drop_app_length' by (by rewrite be_bytes_length).
  by rewrite be_val_be_bytes_id.
Qed.

Lemma encode_header_length h : length (encode_header h) = 12%nat.
Proof. unfold encode_header. rewrite !length_app, !be_bytes_length. done. Qed.

Lemma encode_app item dst : encode item dst = dst ++ encode item [].
Proof. by unfold encode. Qed.

Lemma parse_encode_header max h :
  header_wf h → h_version h = PROTOCOL_VERSION → (h_ty h = Data → h_length h <= max) →
  parse_header max (encode_header h) = inr h.
Proof.
  intros (Hv & Hf & Hi & Hl) Hver Hmax. unfold parse_header, encode_header.
  rewrite get_be_app by done. rewrite Hver. cbn [negb].
  rewrite get_be_app by (by destruct (h_ty h)).
  rewrite Type_roundtrip, get_be_app, get_be_app by done.
  rewrite <- (app_nil_r (be_bytes 4 (h_length h))), get_be_app by done.
  destruct (bool_decide (h_ty h = Data) && (max <? h_length h)) eqn:E.
  - apply andb_true_iff in E as [E1 E2]. apply bool_decide_eq_true in E1. specialize (Hmax E1). lia.
  - destruct h; cbn in *; subst; done.
Qed.

Lemma decode_step c src :
  unused_data_header c = None → HEADER_SIZE <= len src →
  decode c src =
    match parse_header (max_frame_size c) (take 12 src) with
    | inl e => (c, drop 12 src, inl e)
    | inr header => take_body c header (drop 12 src)
    end.
Proof.
  intros Hn Hl. unfold decode. rewrite Hn. destruct src as [|b src]; [by vm_compute in Hl|].
  cbn [is_empty]. destruct (HEADER_SIZE <=? len (b :: src)) eqn:E; [done|]. lia.
Qed.

Lemma codec_eta c : {| unused_data_header := unused_data_header c;
                       max_frame_size := max_frame_size c |} = c.
Proof. by destruct c. Qed.

(** More input does not change a decoder step that already produced a frame. *)
Lemma take_body_more c h src c' src' f more :
  take_body c h src = (c', src', inr (Some f)) →
  take_body c h (src ++ more) = (c', src' ++ more, inr (Some f)).
Proof.
  unfold take_body. destruct_if; [|by intros [= <- <- <-]].
  destruct (len src <? h_length h) eqn:E1; [done|]. intros [= <- <- <-].
  destruct (len (src ++ more) <? h_length h) eqn:E2.
  { rewrite len_app in E2. pose proof (len_nonneg more). lia. }
  unfold len in E1. rewrite take_app_le, drop_app_le by lia. done.
Qed.

Lemma decode_more c src c' src' f more :
  decode c src = (c', src', inr (Some f)) →
  decode c (src ++ more) = (c', src' ++ more, inr (Some f)).
Proof.
  destruct src as [|b src]; [done|]. unfold decode. cbn [is_empty app].
  destruct (unused_data_header c) as [h|].
  - intros H. by apply take_body_more with (more := more) in H.
  - change (b :: src ++ more) with ((b :: src) ++ more).
    destruct (HEADER_SIZE <=? len (b :: src)) eqn:E; [|done].
    rewrite len_app. pose proof (len_nonneg more).
    destruct (HEADER_SIZE <=? len (b :: src) + len more) eqn:E2; [|lia].
    unfold HEADER_SIZE, len in E.
    rewrite take_app_le, drop_app_le by lia.
    destruct (parse_header _ _) as [e|h]; [done|]. apply take_body_more.
Qed.

(** A decoder that ran out of input resumes as if all of it had been there. *)
Lemma take_body_resume c h src c' src' :
  take_body c h src = (c', src', inr None) → unused_data_header c' = Some h ∧
  src' = src ∧ max_frame_size c' = max_frame_size c ∧ len src < h_length h.
Proof.
  unfold take_body. destruct_if; [|done].
  destruct (len src <? h_length h) eqn:E1; [|done]. intros [= <- <-]. cbn. split_and!; auto; lia.
Qed.

Lemma take_body_codec c1 c2 h src :
  max_frame_size c1 = max_frame_size c2 → take_body c1 h src = take_body c2 h src.
Proof. intros H. unfold take_body. by rewrite H. Qed.

Lemma take_body_empty c h more :
  is_empty more = true → 0 < h_length h → h_ty h = Data →
  take_body c h more = ({| unused_data_header := Some h; max_frame_size := max_frame_size c |},
                        more, inr None).
Proof.
  intros Hm Hl Ht. destruct more; [|done]. unfold take_body.
  rewrite bool_decide_eq_true_2 by done. by destruct (len [] <? h_length h) eqn:E; [|rewrite len_nil in E; lia].
Qed.

Lemma decode_resume_lem c src c' src' more :
  decode c src = (c', src', inr None) →
  decode c' (src' ++ more) = decode c (src ++ more).
Proof.
  unfold decode at 1. destruct src as [|b src].
  { cbn. by intros [= <- <-]. }
  cbn [is_empty]. destruct (unused_data_header c) as [h|] eqn:Hu.
  - intros H. pose proof (take_body_resume _ _ _ _ _ H) as (Hu' & -> & Hm & _).
    unfold decode. cbn [app is_empty]. rewrite Hu, Hu'. by apply take_body_codec.
  - destruct (HEADER_SIZE <=? len (b :: src)) eqn:E.
    + destruct (parse_header _ _) as [e|h] eqn:Hp; [done|]. intros H.
      pose proof (take_body_resume _ _ _ _ _ H) as (Hu' & -> & Hm & Hlen).
      rewrite (decode_step c ((b :: src) ++ more)) by
        (try done; rewrite len_app; pose proof (len_nonneg more); lia).
      unfold HEADER_SIZE, len in E. rewrite take_app_le, drop_app_le by lia. rewrite Hp.
      unfold decode. rewrite Hu'.
      destruct (is_empty (drop 12 (b :: src) ++ more)) eqn:Hem; [|by apply take_body_codec].
      assert (h_ty h = Data) as Hty.
      { unfold take_body in H. case_bool_decide; [done|discriminate]. }
      rewrite take_body_empty; auto; [|pose proof (len_nonneg (drop 12 (b :: src))); lia].
      rewrite <- Hm, <- Hu', codec_eta. done.
    + by intros [= <- <-].
Qed.

(** ** Correctness of the codec *)

(** The encoder followed by the decoder, with anything after the frame. *)
Lemma decode_encode_lem c f rest :
  unused_data_header c = None → frame_ok (max_frame_size c) f →
  decode c (encode f [] ++ rest) = (c, rest, inr (Some f)).
Proof.
  intros Hu (Hwf & Hv & Hb & Hmax). destruct f as [h b]. cbn [f_header] in *.
  unfold encode, into_parts. cbn [f_header f_body app].
  rewrite decode_step; [|done|].
  2:{ rewrite !len_app. unfold len at 1. rewrite encode_header_length.
      pose proof (len_nonneg rest). pose proof (len_nonneg (match b with Some d => d | None => [] end)).
      unfold HEADER_SIZE. lia. }
  rewrite <- app_assoc, take_app_length', drop_app_length' by (by rewrite encode_header_length).
  rewrite parse_encode_header by done.
  unfold take_body, body_ok, f_ty, f_length in *. cbn in *.
  assert ({| unused_data_header := None; max_frame_size := max_frame_size c |} = c) as Hc
    by (rewrite <- Hu; apply codec_eta).
  destruct (h_ty h), b as [d|]; cbn in *; try done; rewrite Hc; [|done..].
  destruct (len (d ++ rest) <? h_length h) eqn:E.
  { rewrite len_app in E. pose proof (len_nonneg rest). lia. }
  rewrite <- Hb. unfold len. rewrite Nat2Z.id, take_app_length, drop_app_length. done.
Qed.

(** A proper prefix of a frame is not enough, and is kept. *)
Lemma decode_partial c f s t :
  unused_data_header c = None → frame_ok (max_frame_size c) f →
  encode f [] = s ++ t → t ≠ [] → ∃ c' s', decode c s = (c', s', inr None).
Proof.
  intros Hu Hok He Ht. destruct (decide (HEADER_SIZE <= len s)) as [Hl|Hl].
  2:{ exists c, s. unfold decode. rewrite Hu.
      destruct (is_empty s); [done|]. by destruct (HEADER_SIZE <=? len s) eqn:E; [lia|]. }
  rewrite (decode_step c s) by done. destruct Hok as (Hwf & Hv & Hb & Hmax).
  assert (Hlen := f_equal length He). unfold encode, into_parts in He, Hlen. cbn [app] in He, Hlen.
  rewrite !length_app, encode_header_length in Hlen.
  unfold HEADER_SIZE, len in Hl.
  assert (take 12 s = encode_header (f_header f)) as ->.
  { assert (Ht12 := f_equal (take 12) He).
    rewrite take_app_length', (take_app_le s) in Ht12 by (rewrite ?encode_header_length; lia). done. }
  rewrite parse_encode_header by done. unfold take_body, body_ok, f_ty, f_length in *.
  destruct f as [h b]. cbn [f_header f_body] in *.
  assert (0 < length t)%nat by (destruct t; [done|cbn; lia]).
  destruct (h_ty h), b as [d|]; cbn in *; try done; try lia.
  destruct (len (drop 12 s) <? h_length h) eqn:E; [eauto|].
  apply Z.ltb_ge in E. unfold len in *. rewrite length_drop in E. lia.
Qed.

(** A reader of the wire: decode until the buffer holds no complete frame. *)
Fixpoint drain (fuel : nat) (c : FrameCodec) (src : bytes)
  : list Frame * FrameCodec * bytes * option DecodeError :=
  match fuel with
  | O => ([], c, src, None)
  | S fuel' =>
      match decode c src with
      | (c', src', inl e) => ([], c', src', Some e)
      | (c', src', inr None) => ([], c', src', None)
      | (c', src', inr (Some f)) =>
          let '(fs, c'', src'', e) := drain fuel' c' src' in (f :: fs, c'', src'', e)
      end
  end.

(** The same reader as the bytes arrive in chunks. *)
Fixpoint feed (c : FrameCodec) (buf : bytes) (chunks : list bytes)
  : list Frame * FrameCodec * bytes * option DecodeError :=
  match chunks with
  | [] => ([], c, buf, None)
  | ch :: chunks' =>
      let '(fs, c1, buf1, e) := drain (13 + length (buf ++ ch)) c (buf ++ ch) in
      match e with
      | Some _ => (fs, c1, buf1, e)
      | None => let '(fs', c2, buf2, e') := feed c1 buf1 chunks' in (fs ++ fs', c2, buf2, e')
      end
  end.

Definition encode_all (fs : list Frame) : bytes := concat (map (fun f => encode f []) fs).

Lemma encode_long f : (12 <= length (encode f []))%nat.
Proof. unfold encode, into_parts. cbn [app]. rewrite length_app, encode_header_length. lia. Qed.

Lemma drain_prefix c fs s rest fuel :
  unused_data_header c = None → Forall (frame_ok (max_frame_size c)) fs →
  s ++ rest = encode_all fs → (length s < fuel)%nat →
  ∃ fs1 fs2 c1 buf1 pre, drain fuel c s = (fs1, c1, buf1, None) ∧ fs = fs1 ++ fs2 ∧
    decode c pre = (c1, buf1, inr None) ∧ pre ++ rest = encode_all fs2.
Proof.
  intros Hu Hfs. revert s fuel. induction Hfs as [|f fs Hf Hfs IH]; intros s fuel He Hfuel.
  - apply app_nil in He as [-> ->]. destruct fuel; [lia|].
    exists [], [], c, [], []. done.
  - destruct fuel as [|fuel]; [lia|]. unfold encode_all in He. cbn [map concat] in He.
    destruct (decide (length (encode f []) <= length s)%nat) as [Hge|Hlt].
    + assert (s = encode f [] ++ drop (length (encode f [])) s) as Hs.
      { rewrite <- (take_drop (length (encode f [])) s) at 1. f_equal.
        assert (Ht := f_equal (take (length (encode f []))) He).
        rewrite take_app_le, take_app_length in Ht by lia. done. }
      set (s' := drop (length (encode f [])) s) in *.
      rewrite Hs in He |- *. rewrite <- app_assoc in He. apply app_inv_head in He.
      pose proof (encode_long f). rewrite Hs, length_app in Hfuel.
      destruct (IH s' fuel He ltac:(lia)) as (fs1 & fs2 & c1 & buf1 & pre & Hd & -> & Hp & Hr).
      exists (f :: fs1), fs2, c1, buf1, pre. split_and!; try done.
      cbn [drain]. rewrite decode_encode_lem by done. by rewrite Hd.
    + destruct (decode_partial c f s (drop (length s) (encode f []))) as (c' & s' & Hd); try done.
      { rewrite <- (take_drop (length s) (encode f [])) at 1. f_equal.
        assert (Ht := f_equal (take (length s)) He).
        rewrite take_app_length, take_app_le in Ht by lia. done. }
      { intros Hn. assert (Hl := f_equal length Hn). rewrite length_drop in Hl. cbn [length] in Hl. lia. }
      exists [], (f :: fs), c', s', s. cbn [drain]. rewrite Hd. done.
Qed.

(** [drain] only looks at the codec and buffer through [decode]. *)
Lemma drain_decode_ext fuel c c' s s' :
  decode c s = decode c' s' → drain (S fuel) c s = drain (S fuel) c' s'.
Proof. intros H. cbn [drain]. by rewrite H. Qed.


(** ** Properties of the codec *)

(** A frame encoded by [FrameCodec::encode] and handed to a fresh decoder, with any
    bytes behind it, is decoded to the same frame, and the rest of the buffer is left. *)
Theorem decode_encode c f rest :
  unused_data_header c = None → frame_ok (max_frame_size c) f →
  decode c (encode f [] ++ rest) = (c, rest, inr (Some f)).
Proof. apply decode_encode_lem. Qed.

Definition sample_frame : Frame := new_data (Flags_from Syn) 3 [byte_of 7; byte_of 9].

Lemma sample_frame_ok : frame_ok INITIAL_STREAM_WINDOW sample_frame.
Proof. vm_compute. intuition discriminate. Qed.

(** The decoder is chunking-independent: when it asks for more input, continuing with
    more bytes gives what one call on all the bytes gives, state and errors included. *)
Theorem decode_resume c src c' src' more :
  decode c src = (c', src', inr None) →
  decode c' (src' ++ more) = decode c (src ++ more).
Proof. apply decode_resume_lem. Qed.

Lemma decode_none_length c src c' src' :
  decode c src = (c', src', inr None) → (length src <= 12 + length src')%nat.
Proof.
  unfold decode. destruct src as [|b src]; [intros [= <- <-]; cbn; lia|]. cbn [is_empty].
  destruct (unused_data_header c) as [h|].
  - intros H. apply take_body_resume in H as (_ & -> & _). lia.
  - destruct (HEADER_SIZE <=? len (b :: src)); [|intros [= <- <-]; lia].
    destruct (parse_header _ _); [done|]. intros H.
    apply take_body_resume in H as (_ & -> & _). rewrite length_drop. lia.
Qed.

Lemma feed_encoded c0 fs chunks c buf pre :
  unused_data_header c0 = None → Forall (frame_ok (max_frame_size c0)) fs →
  decode c0 pre = (c, buf, inr None) → pre ++ concat chunks = encode_all fs →
  feed c buf chunks = (fs, c0, [], None).
Proof.
  intros Hu. revert fs c buf pre. induction chunks as [|ch chunks IH]; intros fs c buf pre Hfs Hd He.
  - cbn in He. rewrite app_nil_r in He. cbn [feed].
    destruct Hfs as [|f fs Hf Hfs].
    { unfold encode_all in He. cbn in He. subst. cbn in Hd. by injection Hd as <- <-. }
    unfold encode_all in He. cbn [map concat] in He. subst pre.
    rewrite decode_encode_lem in Hd by done. done.
  - cbn [concat] in He. rewrite app_assoc in He. cbn [feed].
    pose proof (decode_none_length _ _ _ _ Hd) as Hlen.
    apply decode_resume_lem with (more := ch) in Hd.
    change (13 + length (buf ++ ch))%nat with (S (12 + length (buf ++ ch))).
    rewrite (drain_decode_ext _ _ _ _ _ Hd).
    destruct (drain_prefix c0 fs (pre ++ ch) (concat chunks) (S (12 + length (buf ++ ch))))
      as (fs1 & fs2 & c1 & buf1 & pre1 & -> & -> & Hp & Hr); try done.
    { rewrite !length_app. lia. }
    apply Forall_app in Hfs as [_ Hfs2]. by rewrite (IH fs2 c1 buf1 pre1).
Qed.



Lemma get_be_width n l : in_width (8 * Z.of_nat n) (fst (get_be n l)).
Proof.
  unfold get_be, fst. pose proof (be_val_range (take n l)) as [H1 H2]. split; [done|].
  eapply Z.lt_le_trans; [exact H2|]. apply Z.pow_le_mono_r; [lia|].
  unfold len. rewrite length_take. lia.
Qed.

Lemma parse_header_sound max d h :
  parse_header max d = inr h →
  header_wf h ∧ h_version h = PROTOCOL_VERSION ∧ (h_ty h = Data → h_length h <= max).
Proof.
  unfold parse_header.
  pose proof (get_be_width 1 d) as Hv. destruct (get_be 1 d) as [v d1].
  destruct (v =? PROTOCOL_VERSION) eqn:Ev; [cbn [negb]|done].
  destruct (get_be 1 d1) as [t d2]. destruct (Type_try_from t) as [ty|]; [|done].
  pose proof (get_be_width 2 d2) as Hf. destruct (get_be 2 d2) as [fl d3].
  pose proof (get_be_width 4 d3) as Hi. destruct (get_be 4 d3) as [i d4].
  pose proof (get_be_width 4 d4) as Hl. destruct (get_be 4 d4) as [l d5].
  destruct (bool_decide (ty = Data) && (max <? l)) eqn:E; [done|]. intros [= <-].
  unfold header_wf. cbn [h_version h_ty h_flags h_stream_id h_length fst] in *.
  split_and!; auto; [lia|]. intros ->. rewrite bool_decide_eq_true_2 in E by done.
  cbn [andb] in E. lia.
Qed.

Lemma take_body_sound c h src c' src' r :
  header_wf h → h_version h = PROTOCOL_VERSION →
  (h_ty h = Data → h_length h <= max_frame_size c) →
  take_body c h src = (c', src', r) →
  codec_ok c' ∧ max_frame_size c' = max_frame_size c ∧
  ∀ f, r = inr (Some f) → frame_ok (max_frame_size c) f.
Proof.
  intros Hwf Hv Hmax. unfold take_body. case_bool_decide as Hd.
  - destruct (len src <? h_length h) eqn:E; intros [= <- <- <-]; cbn.
    { unfold codec_ok. cbn. split_and!; auto; done. }
    split_and!; [done..|]. intros f [= <-]. unfold frame_ok, body_ok, f_ty, f_length. cbn.
    rewrite Hd. pose proof Hwf as (_&_&_&[]). apply Z.ltb_ge in E.
    rewrite len_take by lia. auto.
  - intros [= <- <- <-]. cbn. split_and!; [done..|]. intros f [= <-].
    unfold frame_ok, body_ok, f_ty, f_length. cbn. by destruct (h_ty h).
Qed.

(** Everything the decoder lets through is a well-formed frame: version 0, fields of
    their width, a body exactly on data frames and of the announced length, which is at
    most [max_frame_size]; the invariant of the decoder state is kept on every outcome. *)
Theorem decode_sound c src c' src' r :
  codec_ok c → decode c src = (c', src', r) →
  codec_ok c' ∧ max_frame_size c' = max_frame_size c ∧
  ∀ f, r = inr (Some f) → frame_ok (max_frame_size c) f.
Proof.
  intros Hc. unfold decode. destruct (is_empty src); [by intros [= <- <- <-]|].
  unfold codec_ok in Hc. destruct (unused_data_header c) as [h|] eqn:Hu.
  - destruct Hc as (Ht & Hwf & Hv & Hl). by apply take_body_sound.
  - destruct (HEADER_SIZE <=? len src); [|intros [= <- <- <-]; unfold codec_ok; by rewrite Hu].
    destruct (parse_header _ _) as [e|h] eqn:Hp.
    + intros [= <- <- <-]. unfold codec_ok. by rewrite Hu.
    + apply parse_header_sound in Hp as (Hwf & Hv & Hl). by apply take_body_sound.
Qed.

Lemma decode_sound_witness :
  let '(c', _, _) := decode FrameCodec_default (encode sample_frame []) in
  codec_ok c' ∧ max_frame_size c' = INITIAL_STREAM_WINDOW.
Proof.
  destruct (decode FrameCodec_default (encode sample_frame [])) as [[c' src'] r] eqn:E.
  destruct (decode_sound FrameCodec_default _ _ _ _ I E) as (H1 & H2 & _). done.
Defined.

(** A fresh decoder with a full header in its buffer fails exactly when the version is
    not 0, the type is none of the four, or a data frame announces more than
    [max_frame_size] bytes; the error consumes the twelve header bytes. *)
Theorem decode_error_iff c src :
  unused_data_header c = None → HEADER_SIZE <= len src →
  let version := be_val (take 1 src) in
  let ty := be_val (take 1 (drop 1 src)) in
  let length := be_val (take 4 (drop 8 src)) in
  (∃ e, decode c src = (c, drop 12 src, inl e)) ↔
  version ≠ 0 ∨ 4 <= ty ∨ (ty = 0 ∧ max_frame_size c < length).
Proof.
  intros Hu Hl version ty length. rewrite (decode_step c src) by done.
  unfold HEADER_SIZE, len in Hl.
  assert (take 1 (take 12 src) = take 1 src) as E1 by (by rewrite take_take).
  assert (take 1 (drop 1 (take 12 src)) = take 1 (drop 1 src)) as E2
    by (by rewrite skipn_firstn_comm, take_take).
  assert (take 4 (drop 4 (drop 2 (drop 1 (drop 1 (take 12 src))))) = take 4 (drop 8 src)) as E3
    by (by rewrite !drop_drop, skipn_firstn_comm, take_take).
  unfold parse_header, get_be. rewrite E1, E2, E3. fold version ty length.
  change PROTOCOL_VERSION with 0.
  assert (0 <= ty < 256) as Hty.
  { pose proof (get_be_width 1 (drop 1 src)) as [??]. done. }
  destruct (version =? 0) eqn:Ev; cbn [negb]; [|split; [intros _; lia|eauto]].
  apply Z.eqb_eq in Ev.
  destruct (Type_try_from ty) as [t|] eqn:Et.
  - apply Type_try_from_Some in Et.
    assert (∀ h, (∃ e, take_body c h (drop 12 src) = (c, drop 12 src, inl e)) → False) as Htb.
    { intros h [e He]. unfold take_body in He. repeat case_match; done. }
    case_bool_decide as Hd; cbn [andb]; [destruct (max_frame_size c <? length) eqn:El|].
    + subst t. cbn in Et. split; [intros _; lia|eauto].
    + subst t. cbn in Et. split; [intros H; by apply Htb in H|lia].
    + split; [intros H; by apply Htb in H|]. destruct t; cbn in Et; [done|lia..].
  - apply Type_try_from_None in Et; [|lia]. split; [intros _; lia|eauto].
Qed.

Lemma decode_error_iff_witness :
  ∃ e, decode FrameCodec_default (encode (new_data 0 1 []) [] ++ [byte_of 2])
     ≠ (FrameCodec_default, [byte_of 2], inl e) ∧
  ∃ e', decode FrameCodec_default (map byte_of [9;0;0;0;0;0;0;0;0;0;0;0])
     = (FrameCodec_default, [], inl e').
Proof.
  exists (BadVersion 9). split; [vm_compute; discriminate|].
  apply (decode_error_iff FrameCodec_default (map byte_of [9;0;0;0;0;0;0;0;0;0;0;0]));
    [done | vm_compute; discriminate | left; vm_compute; discriminate].
Defined.

(** ** Flags *)

Definition Flag_bit (f : Flag) : Z := match f with Syn => 0 | Ack => 1 | Fin => 2 | Rst => 3 end.

#[export] Instance Flag_eq_dec : EqDecision Flag.
Proof. solve_decision. Defined.

Lemma Flag_as_u16_pow f : Flag_as_u16 f = 2 ^ Flag_bit f.
Proof. by destruct f. Qed.

Lemma Flags_contains_testbit s f : Flags_contains s f = Z.testbit s (Flag_bit f).
Proof.
  unfold Flags_contains. rewrite Flag_as_u16_pow.
  assert (0 <= Flag_bit f) by (by destruct f).
  assert (Z.land s (2 ^ Flag_bit f) = if Z.testbit s (Flag_bit f) then 2 ^ Flag_bit f else 0) as ->.
  { apply Z.bits_inj'. intros n Hn. rewrite Z.land_spec, Z.pow2_bits_eqb by done.
    destruct (Flag_bit f =? n) eqn:E.
    - apply Z.eqb_eq in E as ->. destruct (Z.testbit s n) eqn:T; rewrite ?Z.pow2_bits_true, ?Z.bits_0; auto.
    - rewrite andb_false_r. destruct (Z.testbit s (Flag_bit f)); rewrite ?Z.pow2_bits_eqb, ?Z.bits_0; auto. }
  destruct (Z.testbit s (Flag_bit f)); [apply Z.eqb_refl|]. by destruct f.
Qed.

Lemma Flag_bit_nonneg f : 0 <= Flag_bit f.
Proof. by destruct f. Qed.

Lemma Flag_bit_eqb f g : (Flag_bit f =? Flag_bit g) = bool_decide (f = g).
Proof. by destruct f, g. Qed.

Lemma Flags_contains_add s f g :
  Flags_contains (Flags_add s f) g = Flags_contains s g || bool_decide (f = g).
Proof.
  rewrite !Flags_contains_testbit. unfold Flags_add.
  rewrite Flag_as_u16_pow, Z.lor_spec, Z.pow2_bits_eqb by apply Flag_bit_nonneg.
  by rewrite Flag_bit_eqb.
Qed.

Lemma Flags_contains_from f g : Flags_contains (Flags_from f) g = bool_decide (f = g).
Proof. by destruct f, g. Qed.

(** [Flags::remove] toggles the flag instead of clearing it: after it the flag is set
    exactly when it was not set before, and every other flag is unchanged. On a set that
    does not contain the flag, "remove a flag" adds it. *)
Theorem Flags_remove_toggles s f g :
  Flags_contains (Flags_remove s f) g =
  (if bool_decide (f = g) then negb (Flags_contains s g) else Flags_contains s g).
Proof.
  rewrite !Flags_contains_testbit. unfold Flags_remove.
  rewrite Flag_as_u16_pow, Z.lxor_spec, Z.pow2_bits_eqb by apply Flag_bit_nonneg.
  rewrite Flag_bit_eqb. case_bool_decide; [apply xorb_true_r | apply xorb_false_r].
Qed.
