(* ===== verification/YamuxStream.v ===== *)
(** * The yamux substream ([tentacle/yamux/src/stream.rs], [error.rs])

    [StreamHandle]: the stream state machine, its receive and send windows, the read and
    write halves and the close paths. The event channel to the session and the frame
    channel from it are the interfaces of [Channels]. *)

From Stdlib Require Import ZArith Lia Bool.
From stdpp Require Import base list gmap.
From S2P Require Import Prelude Channels YamuxFrame.

Open Scope Z_scope.

(** ** Errors, events and states *)

(** [error.rs]. *)
Inductive Error :=
| InvalidVersion | InvalidMsgType | SessionShutdown | StreamsExhausted | DuplicateStream
| RecvWindowExceeded | Timeout | StreamClosed | UnexpectedFlag | RemoteGoAway
| ConnectionReset | ConnectionWriteTimeout | KeepAliveTimeout | SubStreamRemoteClosing
| WouldBlock.

#[export] Instance Error_eq_dec : EqDecision Error.
Proof. solve_decision. Defined.

(** The [io::ErrorKind]s that reach the callers of the stream. *)
Inductive IoErrorKind := IoBrokenPipe | IoConnectionReset | IoInvalidData | IoTimedOut.

Inductive StreamEvent := EvFrame (f : Frame) | EvClosed (id : Z) | EvGoAway.

Inductive StreamState :=
| Init | SynSent | SynReceived | Established | LocalClosing | RemoteClosing | Closed | Reset.

#[export] Instance StreamState_eq_dec : EqDecision StreamState.
Proof. solve_decision. Defined.

(** A task waker, by an identity. *)
Abbreviation Waker := nat (only parsing).

(** ** The handle *)

(** [s_woken] is ghost: the wakers woken so far. *)
Record StreamHandle (ES FR : Type) := mkStream {
  s_id : Z;
  s_state : StreamState;
  s_max_recv_window : Z;
  s_recv_window : Z;
  s_send_window : Z;
  s_read_buf : bytes;
  s_event_sender : ES;
  s_frame_receiver : FR;
  s_writeable_wake : option Waker;
  s_woken : list Waker;
}.
Arguments mkStream {ES FR}.
Arguments s_id {ES FR}.
Arguments s_state {ES FR}.
Arguments s_max_recv_window {ES FR}.
Arguments s_recv_window {ES FR}.
Arguments s_send_window {ES FR}.
Arguments s_read_buf {ES FR}.
Arguments s_event_sender {ES FR}.
Arguments s_frame_receiver {ES FR}.
Arguments s_writeable_wake {ES FR}.
Arguments s_woken {ES FR}.

Section Stream.
Context {ES FR : Type} `{UnboundedSender ES StreamEvent} `{Receiver FR Frame}.

Abbreviation SH := (StreamHandle ES FR).

Definition set_state (v : StreamState) (s : SH) : SH :=
  mkStream (s_id s) v (s_max_recv_window s) (s_recv_window s) (s_send_window s) (s_read_buf s)
    (s_event_sender s) (s_frame_receiver s) (s_writeable_wake s) (s_woken s).
Definition set_recv_window (v : Z) (s : SH) : SH :=
  mkStream (s_id s) (s_state s) (s_max_recv_window s) v (s_send_window s) (s_read_buf s)
    (s_event_sender s) (s_frame_receiver s) (s_writeable_wake s) (s_woken s).
Definition set_send_window (v : Z) (s : SH) : SH :=
  mkStream (s_id s) (s_state s) (s_max_recv_window s) (s_recv_window s) v (s_read_buf s)
    (s_event_sender s) (s_frame_receiver s) (s_writeable_wake s) (s_woken s).
Definition set_read_buf (v : bytes) (s : SH) : SH :=
  mkStream (s_id s) (s_state s) (s_max_recv_window s) (s_recv_window s) (s_send_window s) v
    (s_event_sender s) (s_frame_receiver s) (s_writeable_wake s) (s_woken s).
Definition set_event_sender (v : ES) (s : SH) : SH :=
  mkStream (s_id s) (s_state s) (s_max_recv_window s) (s_recv_window s) (s_send_window s)
    (s_read_buf s) v (s_frame_receiver s) (s_writeable_wake s) (s_woken s).
Definition set_frame_receiver (v : FR) (s : SH) : SH :=
  mkStream (s_id s) (s_state s) (s_max_recv_window s) (s_recv_window s) (s_send_window s)
    (s_read_buf s) (s_event_sender s) v (s_writeable_wake s) (s_woken s).
Definition set_writeable_wake (v : option Waker) (s : SH) : SH :=
  mkStream (s_id s) (s_state s) (s_max_recv_window s) (s_recv_window s) (s_send_window s)
    (s_read_buf s) (s_event_sender s) (s_frame_receiver s) v (s_woken s).

(** [if let Some(waker) = self.writeable_wake.take() { waker.wake() }] *)
Definition take_wake (s : SH) : SH :=
  mkStream (s_id s) (s_state s) (s_max_recv_window s) (s_recv_window s) (s_send_window s)
    (s_read_buf s) (s_event_sender s) (s_frame_receiver s) None
    (match s_writeable_wake s with Some w => s_woken s ++ [w] | None => s_woken s end).

(** [StreamHandle::new]; [None] is its [assert!]. *)
Definition StreamHandle_new (id : Z) (es : ES) (fr : FR) (state : StreamState)
    (max_window_size : Z) : option SH :=
  if bool_decide (state = Init ∨ state = SynReceived) then
    Some (mkStream id state max_window_size INITIAL_STREAM_WINDOW INITIAL_STREAM_WINDOW []
            es fr None [])
  else None.

(** *** Sending to the session *)

Definition unbound_send_event (event : StreamEvent) : M SH Error unit := λ s,
  let '(es, ok) := unbounded_send (s_event_sender s) event in
  (set_event_sender es s, if ok then ROk tt else RErr SessionShutdown).

Definition unbound_send_frame (frame : Frame) : M SH Error unit :=
  unbound_send_event (EvFrame frame).

Definition send_go_away {E} : M SH E unit :=
  modify (set_state LocalClosing) ;;
  catch (unbound_send_event EvGoAway) ;;
  mret tt.

Definition get_flags {E} : M SH E Flags :=
  st ← gets s_state;
  match st with
  | Init => modify (set_state SynSent) ;; mret (Flags_from Syn)
  | SynReceived => modify (set_state Established) ;; mret (Flags_from Ack)
  | _ => mret Flags_default
  end.

Definition send_window_update : M SH Error unit :=
  buf ← gets s_read_buf;
  let buf_len := cast 32 (len buf) in
  mx ← gets s_max_recv_window;
  rw ← gets s_recv_window;
  d1 ← or_panic (checked_sub mx buf_len);
  delta ← or_panic (checked_sub d1 rw);
  flags ← get_flags;
  if (delta <? mx / 2) && (flags =? 0) then mret tt else
  rw' ← or_panic (checked_add 32 rw delta);
  modify (set_recv_window rw') ;;
  id ← gets s_id;
  unbound_send_event (EvFrame (new_window_update flags id delta)).

Definition send_data (data : bytes) : M SH Error unit :=
  flags ← get_flags;
  id ← gets s_id;
  unbound_send_frame (new_data flags id data).

Definition send_close : M SH Error unit :=
  flags ← get_flags;
  id ← gets s_id;
  unbound_send_frame (new_window_update (Flags_add flags Fin) id 0).

Definition close : M SH Error unit :=
  st ← gets s_state;
  id ← gets s_id;
  match st with
  | SynSent | SynReceived | Established | Init =>
      modify (set_state LocalClosing) ;; send_close
  | RemoteClosing =>
      modify (set_state Closed) ;; send_close ;; unbound_send_event (EvClosed id)
  | Reset | Closed =>
      modify (set_state Closed) ;; unbound_send_event (EvClosed id)
  | LocalClosing =>
      modify (set_state Closed) ;; unbound_send_event (EvClosed id)
  end.

(** *** Receiving from the session *)

Definition process_flags (flags : Flags) : M SH Error unit :=
  st ← gets s_state;
  (if Flags_contains flags Ack && bool_decide (st = SynSent)
   then modify (set_state SynReceived) else mret tt) ;;
  (if Flags_contains flags Fin then
     st ← gets s_state;
     match st with
     | Init | SynSent | SynReceived | Established => modify (set_state RemoteClosing)
     | LocalClosing => modify (set_state Closed)
     | _ => throw UnexpectedFlag
     end
   else mret tt) ;;
  (if Flags_contains flags Rst then modify (set_state Reset) else mret tt).

Definition handle_window_update (frame : Frame) : M SH Error unit :=
  process_flags (f_flags frame) ;;
  sw ← gets s_send_window;
  sw' ← ok_or InvalidMsgType (checked_add 32 sw (f_length frame));
  modify (set_send_window sw') ;;
  modify take_wake.

Definition handle_data (frame : Frame) : M SH Error unit :=
  process_flags (f_flags frame) ;;
  rw ← gets s_recv_window;
  let length := f_length frame in
  if rw <? length then throw RecvWindowExceeded else
  (match f_body frame with
   | Some data => modify (set_read_buf data)
   | None => mret tt
   end) ;;
  rw' ← or_panic (checked_sub rw length);
  modify (set_recv_window rw').

Definition handle_frame (frame : Frame) : M SH Error unit :=
  match f_ty frame with
  | WindowUpdate => handle_window_update frame
  | Data => handle_data frame
  | _ => throw InvalidMsgType
  end.

(** The loop of [recv_frames]; one unit of fuel per turn. *)
Fixpoint recv_frames_loop (fuel : nat) : M SH Error unit :=
  match fuel with
  | O => panic
  | S fuel' =>
      st ← gets s_state;
      match st with
      | RemoteClosing => throw SubStreamRemoteClosing
      | Reset | Closed => throw SessionShutdown
      | _ =>
          buf ← gets s_read_buf;
          if negb (is_empty buf) then mret tt else
          fr ← gets s_frame_receiver;
          if recv_is_terminated fr then
            modify (set_state RemoteClosing) ;; throw SessionShutdown
          else
            let '(fr', p) := recv_poll_next fr in
            modify (set_frame_receiver fr') ;;
            match p with
            | Ready (Some frame) => handle_frame frame ;; recv_frames_loop fuel'
            | Ready None => modify (set_state RemoteClosing) ;; throw SessionShutdown
            | Pending => mret tt
            end
      end
  end.

(** A turn that goes on takes a frame off the channel, so the queue bounds the turns. *)
Definition recv_frames : M SH Error unit :=
  fr ← gets s_frame_receiver;
  recv_frames_loop (S (length (recv_queue fr))).

Definition check_self_state : M SH IoErrorKind bool :=
  buf ← gets s_read_buf;
  st ← gets s_state;
  if is_empty buf then
    match st with
    | RemoteClosing | Closed => mret true
    | Reset => throw IoConnectionReset
    | _ => mret false
    end
  else mret false.

(** *** [AsyncRead], [AsyncWrite] and [Drop]

    The error of the monad is [Poll::Ready(Err(kind))]; [poll_read] returns the bytes it
    put into a buffer with [remaining] free bytes. *)

Definition is_fatal (e : Error) : bool :=
  bool_decide (e = UnexpectedFlag ∨ e = RecvWindowExceeded ∨ e = InvalidMsgType).

Definition poll_read (remaining : Z) : M SH IoErrorKind (Poll bytes) :=
  eof ← check_self_state;
  if eof : bool then mret (Ready []) else
  r ← catch recv_frames;
  (match r with
   | inl e => if is_fatal e then send_go_away ;; throw IoInvalidData else mret tt
   | inr _ => mret tt
   end) ;;
  eof2 ← check_self_state;
  if eof2 : bool then mret (Ready []) else
  buf ← gets s_read_buf;
  let n := Z.min remaining (len buf) in
  if n =? 0 then mret Pending else
  modify (set_read_buf (drop (Z.to_nat n) buf)) ;;
  st ← gets s_state;
  (match st with
   | RemoteClosing | Closed | Reset => mret tt
   | _ =>
       w ← catch send_window_update;
       match w with
       | inl _ => throw IoBrokenPipe
       | inr _ => mret tt
       end
   end) ;;
  mret (Ready (take (Z.to_nat n) buf)).

Definition poll_write (cx : Waker) (buf : bytes) : M SH IoErrorKind (Poll Z) :=
  st ← gets s_state;
  match st with
  | Reset | LocalClosing | Closed => throw IoBrokenPipe
  | _ =>
      sw ← gets s_send_window;
      if sw =? 0 then modify (set_writeable_wake (Some cx)) ;; mret Pending else
      let n := Z.min sw (len buf) in
      r ← catch (send_data (take (Z.to_nat n) buf));
      match r with
      | inr _ =>
          sw ← gets s_send_window;
          sw' ← or_panic (checked_sub sw (cast 32 n));
          modify (set_send_window sw') ;;
          mret (Ready n)
      | inl WouldBlock => mret Pending
      | inl _ => throw IoBrokenPipe
      end
  end.

Definition poll_flush : M SH IoErrorKind (Poll unit) := mret (Ready tt).

Definition poll_shutdown : M SH IoErrorKind (Poll unit) :=
  r ← catch close;
  match r with
  | inl _ => throw IoBrokenPipe
  | inr _ => mret (Ready tt)
  end.

Definition drop_handle : M SH IoErrorKind unit :=
  es ← gets s_event_sender;
  st ← gets s_state;
  if negb (us_is_closed es) && negb (bool_decide (st = Closed)) then
    (match st with
     | LocalClosing | Reset => mret tt
     | Established | Init | RemoteClosing | SynReceived | SynSent =>
         flags ← get_flags;
         id ← gets s_id;
         catch (unbound_send_event (EvFrame (new_window_update (Flags_add flags Rst) id 0))) ;;
         mret tt
     | Closed => panic
     end) ;;
    id ← gets s_id;
    catch (unbound_send_event (EvClosed id)) ;;
    mret tt
  else mret tt.

End Stream.
