(* ===== verification/YamuxStreamProofs.v ===== *)
(** * Properties of the yamux substream

    The window invariant and panic freedom of every operation of [StreamHandle], the
    accounting of both windows (the relation [flow]), delivery of the received bytes in
    order, and the stream state machine. Everything is proved against the channel laws. *)

From Stdlib Require Import ZArith Lia Bool.
From stdpp Require Import base list gmap.
From S2P Require Import Prelude Channels YamuxFrame YamuxStream.

Open Scope Z_scope.

(** Reduces the projections of updated handles, and nothing else. *)
Ltac sh_simpl :=
  cbn [set_state set_recv_window set_send_window set_read_buf set_event_sender
       set_frame_receiver set_writeable_wake take_wake s_id s_state s_max_recv_window
       s_recv_window s_send_window s_read_buf s_event_sender s_frame_receiver
       s_writeable_wake s_woken fst snd] in *.

(** ** Frame accounting *)

(** Bytes a frame takes from a window, and credit it gives to one. *)
Definition data_of (f : Frame) : Z := match f_ty f with Data => f_length f | _ => 0 end.
Definition delta_of (f : Frame) : Z := match f_ty f with WindowUpdate => f_length f | _ => 0 end.

Definition sum_of (g : Frame → Z) (fs : list Frame) : Z := foldr (λ f a, g f + a) 0 fs.
Abbreviation data_sum := (sum_of data_of).
Abbreviation delta_sum := (sum_of delta_of).

Definition ev_frames (evs : list StreamEvent) : list Frame :=
  omap (λ e, match e with EvFrame f => Some f | _ => None end) evs.

(** The payload bytes of the data frames, in order. *)
Definition payload (fs : list Frame) : bytes :=
  concat (map (λ f, match f_ty f, f_body f with Data, Some d => d | _, _ => [] end) fs).

(** Frames the session hands to a stream: what [decode] lets through. *)
Definition frame_in (f : Frame) : Prop := header_wf (f_header f) ∧ body_ok f.

(** Frames a stream produces. *)
Definition frame_out (f : Frame) : Prop :=
  frame_in f ∧ (f_ty f = Data ∨ f_ty f = WindowUpdate).

Lemma sum_of_app g l k : sum_of g (l ++ k) = sum_of g l + sum_of g k.
Proof. unfold sum_of. induction l as [|x l IH]; cbn in *; lia. Qed.

Lemma sum_of_cons g x l : sum_of g (x :: l) = g x + sum_of g l.
Proof. done. Qed.

Lemma sum_of_nil g : sum_of g [] = 0.
Proof. done. Qed.

Lemma ev_frames_app l k : ev_frames (l ++ k) = ev_frames l ++ ev_frames k.
Proof. apply omap_app. Qed.

Lemma frame_in_sums l :
  Forall frame_in l → 0 <= data_sum l ∧ 0 <= delta_sum l.
Proof.
  induction 1 as [|f l ((?&?&?&[? ?]) & ?) Hl IH]; [done|].
  rewrite !sum_of_cons. unfold data_of, delta_of, f_length in *. destruct (f_ty f); lia.
Qed.

Section Proofs.
Context {ES FR : Type} `{US : UnboundedSender ES StreamEvent} `{RC : Receiver FR Frame}.
Context `{USL : !UnboundedSenderLaws ES StreamEvent} `{RCL : !ReceiverLaws FR Frame}.

Abbreviation SH := (StreamHandle ES FR).

Definition queue (s : SH) : list Frame := recv_queue (s_frame_receiver s).
Definition sent (s : SH) : list StreamEvent := us_sent (s_event_sender s).

(** ** The invariant *)

(** What was granted to the peer and is not yet used, plus what is buffered, never exceeds
    the maximal window. *)
Definition stream_inv (s : SH) : Prop :=
  0 <= s_recv_window s ∧ len (s_read_buf s) + s_recv_window s <= s_max_recv_window s ∧
  s_max_recv_window s < 2 ^ 32 ∧ is_u32 (s_send_window s) ∧ is_u32 (s_id s) ∧
  Forall frame_in (queue s).

(** One or several operations took [cons] from the frame channel and put [prod] into the
    event channel, and the windows moved accordingly. *)
Definition flow (s s' : SH) (cons : list Frame) (prod : list StreamEvent) : Prop :=
  queue s = cons ++ queue s' ∧ sent s' = sent s ++ prod ∧
  s_max_recv_window s' = s_max_recv_window s ∧ s_id s' = s_id s ∧
  s_send_window s' + data_sum (ev_frames prod) <= s_send_window s + delta_sum cons ∧
  s_recv_window s + delta_sum (ev_frames prod) <= s_recv_window s' + data_sum cons ∧
  Forall frame_out (ev_frames prod).

Definition flows (s s' : SH) : Prop := ∃ cons prod, flow s s' cons prod.

Lemma flow_refl s : flow s s [] [].
Proof.
  unfold flow. rewrite app_nil_r, !sum_of_nil. cbn. split_and!; auto; lia.
Qed.

Lemma flow_trans s1 s2 s3 c1 p1 c2 p2 :
  flow s1 s2 c1 p1 → flow s2 s3 c2 p2 → flow s1 s3 (c1 ++ c2) (p1 ++ p2).
Proof.
  unfold flow. intros (Q1 & S1 & M1 & I1 & A1 & B1 & F1) (Q2 & S2 & M2 & I2 & A2 & B2 & F2).
  rewrite ev_frames_app, !sum_of_app, Q1, Q2, S2, S1, !app_assoc.
  split_and!; try congruence; try lia. by apply Forall_app.
Qed.

(** An operation keeps the invariant, does not panic and moves the windows by the rules. *)
Definition op_ok {E A} (c : M SH E A) : Prop :=
  ∀ s, stream_inv s → (c s).2 ≠ RPanic ∧ stream_inv (c s).1 ∧ flows s (c s).1.

Lemma op_ok_bind {E A B} (c : M SH E A) (k : A → M SH E B) :
  op_ok c → (∀ a, op_ok (k a)) → op_ok (c ≫= k).
Proof.
  intros Hc Hk s Hs. unfold mbind, M_bind. specialize (Hc s Hs).
  destruct (c s) as [s1 [a|e|]]; cbn in *; [|naive_solver..].
  destruct Hc as (_ & Hs1 & (c1 & p1 & F1)). specialize (Hk a s1 Hs1).
  destruct Hk as (Hp & Hs2 & (c2 & p2 & F2)). split_and!; auto.
  eexists _, _. by eapply flow_trans.
Qed.

Lemma op_ok_ret {E A} (a : A) : op_ok (mret a : M SH E A).
Proof. intros s Hs. cbn. split_and!; [done|done|]. eexists _, _. apply flow_refl. Qed.

Lemma op_ok_throw {E A} (e : E) : op_ok (throw e : M SH E A).
Proof. intros s Hs. cbn. split_and!; [done|done|]. eexists _, _. apply flow_refl. Qed.

Lemma op_ok_gets {E A} (f : SH → A) : op_ok (gets f : M SH E A).
Proof. intros s Hs. cbn. split_and!; [done|done|]. eexists _, _. apply flow_refl. Qed.

Lemma op_ok_catch {E E' A} (c : M SH E A) : op_ok c → op_ok (catch c : M SH E' (E + A)).
Proof.
  intros Hc s Hs. specialize (Hc s Hs). unfold catch.
  destruct (c s) as [s1 [a|e|]]; cbn in *; naive_solver.
Qed.

Lemma op_ok_set_state {E} st : op_ok (modify (set_state st) : M SH E unit).
Proof.
  intros s Hs. cbn. split_and!; [done|done|]. exists [], []. by apply (flow_refl s).
Qed.

Lemma op_ok_set_wake {E} w : op_ok (modify (set_writeable_wake w) : M SH E unit).
Proof.
  intros s Hs. cbn. split_and!; [done|done|]. exists [], []. by apply (flow_refl s).
Qed.

Lemma op_ok_get_flags {E} : op_ok (get_flags : M SH E Flags).
Proof.
  apply op_ok_bind; [apply op_ok_gets|]. intros [];
    auto using op_ok_bind, op_ok_set_state, op_ok_ret.
Qed.

Lemma op_ok_process_flags fl : op_ok (process_flags fl : M SH Error unit).
Proof.
  apply op_ok_bind; [apply op_ok_gets|]. intros st.
  apply op_ok_bind; [case_match; auto using op_ok_set_state, op_ok_ret|]. intros _.
  apply op_ok_bind.
  - case_match; [|apply op_ok_ret]. apply op_ok_bind; [apply op_ok_gets|].
    intros []; auto using op_ok_set_state, op_ok_throw.
  - intros _. case_match; auto using op_ok_set_state, op_ok_ret.
Qed.

(** ** Sending *)

Lemma send_event_spec ev (s : SH) : ∃ es ok,
  unbound_send_event ev s =
    (set_event_sender es s, if ok : bool then ROk tt else RErr SessionShutdown) ∧
  us_sent es = sent s ++ (if ok then [ev] else []) ∧
  us_is_closed es = us_is_closed (s_event_sender s) ∧
  ok = negb (us_is_closed (s_event_sender s)).
Proof.
  unfold unbound_send_event, sent. destruct (us_is_closed (s_event_sender s)) eqn:Hc.
  - destruct (us_send_closed _ ev Hc) as (es & -> & Hs & Hc'). exists es, false.
    by rewrite app_nil_r.
  - destruct (us_send_open _ ev Hc) as (es & -> & Hs & Hc'). by exists es, true.
Qed.

(** Events that neither carry data nor give credit. *)
Definition free_event (ev : StreamEvent) : Prop :=
  match ev with EvFrame f => frame_out f ∧ data_of f = 0 ∧ delta_of f = 0 | _ => True end.

Lemma op_ok_free_event ev : free_event ev → op_ok (unbound_send_event ev : M SH Error unit).
Proof.
  intros Hf s Hs. destruct (send_event_spec ev s) as (es & ok & -> & Hsent & _). cbn.
  split_and!; [by destruct ok | done |]. exists [], (if ok then [ev] else []).
  unfold flow, sent. cbn [set_event_sender s_event_sender s_max_recv_window s_id s_send_window s_recv_window].
  rewrite Hsent. destruct ok, ev as [f| |]; cbn in *; rewrite ?sum_of_cons, ?sum_of_nil;
    try destruct Hf as (? & ? & ?); split_and!; auto; lia.
Qed.

Lemma new_window_update_in fl id delta :
  is_u16 fl → is_u32 id → is_u32 delta → frame_out (new_window_update fl id delta).
Proof. intros. split; [|by right]. by repeat split; try apply H; try apply H0; try apply H1. Qed.

Lemma new_data_in fl id d :
  is_u16 fl → is_u32 id → is_u32 (len d) → frame_out (new_data fl id d).
Proof.
  intros Hf Hi Hd. split; [|by left]. unfold frame_in, new_data, header_wf, body_ok. cbn.
  rewrite cast_id by done. done.
Qed.

Definition flags_of (st : StreamState) : Flags :=
  match st with Init => 1 | SynReceived => 2 | _ => 0 end.
Definition flagged (st : StreamState) : StreamState :=
  match st with Init => SynSent | SynReceived => Established | _ => st end.

Lemma set_state_id (s : SH) : set_state (s_state s) s = s.
Proof. by destruct s. Qed.

Lemma get_flags_eq {E} (s : SH) :
  (get_flags : M SH E Flags) s = (set_state (flagged (s_state s)) s, ROk (flags_of (s_state s))).
Proof. by destruct s as [? []]. Qed.

Lemma flags_of_u16 st : is_u16 (flags_of st).
Proof. by destruct st. Qed.

Lemma flags_add_u16 st f : is_u16 (Flags_add (flags_of st) f).
Proof. by destruct st, f. Qed.

(** Under the invariant the subtractions of [send_window_update] cannot underflow: it
    either omits the update or grants all the free space. *)
Lemma send_window_update_run (s : SH) :
  stream_inv s →
  let delta := s_max_recv_window s - len (s_read_buf s) - s_recv_window s in
  let s1 := set_state (flagged (s_state s)) s in
  0 <= delta < 2 ^ 32 ∧
  send_window_update s =
    if (delta <? s_max_recv_window s / 2) && (flags_of (s_state s) =? 0) then (s1, ROk tt)
    else unbound_send_event (EvFrame (new_window_update (flags_of (s_state s)) (s_id s) delta))
           (set_recv_window (s_recv_window s + delta) s1).
Proof.
  intros (H0 & H1 & H2 & H3 & H4 & H5) delta s1. pose proof (len_nonneg (s_read_buf s)).
  split; [subst delta; lia|].
  unfold send_window_update, mbind, M_bind. cbn [gets].
  rewrite (cast_id 32 (len _)) by (split; lia).
  rewrite checked_sub_ok by lia.
  cbn [or_panic mret M_ret].
  rewrite checked_sub_ok by lia.
  cbn [or_panic mret M_ret]. rewrite get_flags_eq. fold delta s1.
  destruct_if; [done|].
  rewrite checked_add_ok by (subst delta; lia).
  done.
Qed.

Lemma op_ok_send_window_update : op_ok (send_window_update : M SH Error unit).
Proof.
  intros s Hs. destruct (send_window_update_run s Hs) as (Hdelta & ->).
  set (delta := s_max_recv_window s - _ - _) in *.
  destruct (_ && _).
  { split; [done|]. split; [exact Hs|]. exists [], []. by apply (flow_refl s). }
  pose proof Hs as (H0 & H1 & H2 & H3 & H4 & H5). pose proof (len_nonneg (s_read_buf s)).
  match goal with |- context [unbound_send_event ?e ?s1] =>
    destruct (send_event_spec e s1) as (es & ok & -> & Hsent & _) end.
  split; [by destruct ok|]. split.
  - unfold stream_inv, queue. cbn. split_and!; auto; lia.
  - exists [], (if ok then [EvFrame (new_window_update (flags_of (s_state s)) (s_id s) delta)] else []).
    unfold flow, sent, queue in *. cbn in *. rewrite Hsent.
    assert (frame_out (new_window_update (flags_of (s_state s)) (s_id s) delta))
      by (apply new_window_update_in; [apply flags_of_u16|done|done]).
    destruct ok; cbn; rewrite ?sum_of_cons, ?sum_of_nil; unfold data_of, delta_of, f_length; cbn;
      split_and!; auto; lia.
Qed.

(** ** Receiving *)

(** The state after the flags of a frame, and whether they are unexpected. *)
Definition after_flags (fl : Flags) (st : StreamState) : StreamState :=
  let st1 := if Flags_contains fl Ack && bool_decide (st = SynSent) then SynReceived else st in
  let st2 := if Flags_contains fl Fin then
               match st1 with LocalClosing => Closed | RemoteClosing | Closed | Reset => st1
               | _ => RemoteClosing end
             else st1 in
  if Flags_contains fl Rst then Reset else st2.

(** The states in which [recv_frames] still takes frames. *)
Definition receiving (st : StreamState) : bool :=
  match st with RemoteClosing | Closed | Reset => false | _ => true end.

Lemma process_flags_run fl (s : SH) :
  receiving (s_state s) = true →
  process_flags fl s = (set_state (after_flags fl (s_state s)) s, ROk tt).
Proof.
  intros Hr. destruct s as [i st]. cbn in Hr.
  unfold process_flags, after_flags, mbind, M_bind. cbn.
  destruct (Flags_contains fl Ack), (Flags_contains fl Fin), (Flags_contains fl Rst), st;
    try discriminate; reflexivity.
Qed.

Lemma handle_window_update_run f (s : SH) :
  receiving (s_state s) = true →
  let s1 := set_state (after_flags (f_flags f) (s_state s)) s in
  handle_window_update f s =
    if s_send_window s + f_length f <? 2 ^ 32
    then (take_wake (set_send_window (s_send_window s + f_length f) s1), ROk tt)
    else (s1, RErr InvalidMsgType).
Proof.
  intros Hr s1. unfold handle_window_update, mbind, M_bind. rewrite process_flags_run by done.
  cbn [gets]. fold s1. change (s_send_window s1) with (s_send_window s).
  destruct (_ <? _) eqn:E.
  - rewrite checked_add_ok by lia. done.
  - rewrite (proj2 (checked_add_None _ _ _)) by lia. done.
Qed.

Lemma handle_data_run f (s : SH) :
  receiving (s_state s) = true →
  let s1 := set_state (after_flags (f_flags f) (s_state s)) s in
  handle_data f s =
    if s_recv_window s <? f_length f then (s1, RErr RecvWindowExceeded)
    else (set_recv_window (s_recv_window s - f_length f)
            (match f_body f with Some d => set_read_buf d s1 | None => s1 end), ROk tt).
Proof.
  intros Hr s1. unfold handle_data, mbind, M_bind. rewrite process_flags_run by done.
  cbn [gets]. fold s1. change (s_recv_window s1) with (s_recv_window s).
  destruct (_ <? _) eqn:E; [done|].
  rewrite checked_sub_ok by lia. by destruct (f_body f).
Qed.

(** What handling one frame does to the handle, on every outcome. *)
Lemma handle_frame_spec f (s : SH) :
  stream_inv s → receiving (s_state s) = true → s_read_buf s = [] → frame_in f →
  let '(s', r) := handle_frame f s in
  r ≠ RPanic ∧ stream_inv s' ∧ s_frame_receiver s' = s_frame_receiver s ∧
  s_event_sender s' = s_event_sender s ∧ s_max_recv_window s' = s_max_recv_window s ∧
  s_id s' = s_id s ∧ s_send_window s' <= s_send_window s + delta_of f ∧
  s_recv_window s <= s_recv_window s' + data_of f ∧
  (r = ROk tt → s_read_buf s' = payload [f] ∧ s_send_window s' = s_send_window s + delta_of f ∧
     s_recv_window s' = s_recv_window s - data_of f ∧
     s_state s' = after_flags (f_flags f) (s_state s)) ∧
  (∀ e, r = RErr e → e ≠ UnexpectedFlag ∧
     (e = RecvWindowExceeded ∧ s_recv_window s < data_of f ∨
      e = InvalidMsgType ∧ (2 ^ 32 <= s_send_window s + delta_of f ∨ f_ty f = Ping ∨ f_ty f = GoAway))).
Proof.
  intros Hs Hr Hb [Hwf Hbody]. pose proof Hs as (H0 & H1 & H2 & H3 & H4 & H5).
  pose proof Hwf as (_ & _ & _ & Hl). unfold handle_frame, data_of, delta_of, payload.
  unfold body_ok in Hbody. destruct Hl as [Hl1 Hl2].
  change (h_length (f_header f)) with (f_length f) in *.
  destruct (f_ty f) eqn:Ht; cbn [map concat]; rewrite ?Ht.
  - rewrite handle_data_run by done. destruct (f_body f) as [d|] eqn:Hd; [|done].
    rewrite Hb in H1. destruct (_ <? _) eqn:E.
    + sh_simpl. split_and!; auto; try lia; try done.
      intros e [= <-]. split; [done|]. left. split; [done|lia].
    + cbn. rewrite app_nil_r. split_and!; auto; try lia; try done; [|intros; split_and!; auto; lia].
      unfold stream_inv. sh_simpl. rewrite len_nil in H1. split_and!; auto; lia.
  - rewrite handle_window_update_run by done. destruct (_ <? _) eqn:E.
    + cbn. split_and!; auto; try lia; try done.
      * unfold stream_inv. sh_simpl. destruct H3. split_and!; auto; split; lia.
      * intros _. rewrite Hb. cbn. split_and!; auto; lia.
    + sh_simpl. split_and!; auto; try lia; try done.
      intros e [= <-]. split; [done|]. right. split; [done|]. left. lia.
  - cbn. split_and!; auto; try lia; try done. intros e [= <-]. split; [done|]. right. auto.
  - cbn. split_and!; auto; try lia; try done. intros e [= <-]. split; [done|]. right. auto.
Qed.

Lemma payload_cons f l : payload (f :: l) = payload [f] ++ payload l.
Proof. unfold payload. cbn. by rewrite app_nil_r. Qed.

(** The bytes received and not yet read: the buffer and the queued data frames. *)
Definition unread (s : SH) : bytes := s_read_buf s ++ payload (queue s).

(** Only data and window-update frames are queued, the data fits the receive window and the
    credits fit the send window: what a peer that respects the windows produces. *)
Definition honest_queue (s : SH) : Prop :=
  data_sum (queue s) <= s_recv_window s ∧ s_send_window s + delta_sum (queue s) < 2 ^ 32 ∧
  Forall (λ f, f_ty f = Data ∨ f_ty f = WindowUpdate) (queue s).

Definition recv_post (s : SH) (p : SH * res Error unit) : Prop :=
  let '(s', r) := p in
  r ≠ RPanic ∧ stream_inv s' ∧ s_event_sender s' = s_event_sender s ∧
  (∃ cons, flow s s' cons []) ∧
  ((∀ e, r = RErr e → is_fatal e = false) → unread s' = unread s) ∧
  (∀ e, r = RErr e → e ≠ UnexpectedFlag) ∧
  (honest_queue s → ∀ e, r = RErr e → is_fatal e = false).

(** Outcomes that touch nothing but the state and the drained receiver. *)
Lemma recv_post_stop (s : SH) st fr r :
  stream_inv s → recv_queue fr = queue s → r ≠ RPanic →
  (∀ e, r = RErr e → is_fatal e = false) →
  recv_post s (set_state st (set_frame_receiver fr s), r).
Proof.
  intros Hs Hq Hr Hf. unfold recv_post. split_and!; [done|..].
  - unfold stream_inv, queue in *. sh_simpl. by rewrite Hq.
  - done.
  - exists []. pose proof (flow_refl s) as HF. unfold flow, queue, sent in *. sh_simpl. by rewrite Hq.
  - intros _. unfold unread, queue in *. sh_simpl. by rewrite Hq.
  - intros e ->. specialize (Hf e eq_refl). by intros ->.
  - auto.
Qed.

Lemma set_frame_receiver_id (s : SH) : set_frame_receiver (s_frame_receiver s) s = s.
Proof. by destruct s. Qed.

Lemma recv_post_same (s : SH) r :
  stream_inv s → r ≠ RPanic → (∀ e, r = RErr e → is_fatal e = false) → recv_post s (s, r).
Proof.
  intros. pose proof (recv_post_stop s (s_state s) (s_frame_receiver s) r) as HP.
  rewrite set_frame_receiver_id, set_state_id in HP. auto.
Qed.

(** Taking one frame off the channel and handling it. *)
Lemma recv_post_frame (s : SH) fr f :
  stream_inv s → receiving (s_state s) = true → s_read_buf s = [] →
  queue s = f :: recv_queue fr →
  recv_post s (handle_frame f (set_frame_receiver fr s)) ∧
  (∀ s', handle_frame f (set_frame_receiver fr s) = (s', ROk tt) →
     queue s' = recv_queue fr ∧ (honest_queue s → honest_queue s')).
Proof.
  intros Hs Hr Hb Hq. pose proof Hs as (H0 & H1 & H2 & H3 & H4 & H5). rewrite Hq in H5.
  apply Forall_cons in H5 as [Hf Hfs].
  assert (stream_inv (set_frame_receiver fr s)) as Hs1 by (unfold stream_inv; by sh_simpl).
  pose proof (handle_frame_spec f (set_frame_receiver fr s) Hs1 Hr Hb Hf) as HP.
  destruct (handle_frame f (set_frame_receiver fr s)) as [s' r].
  destruct HP as (Hp & Hs' & Hfr & Hes & Hmx & Hid & Hsw & Hrw & Hok & Herr). sh_simpl.
  assert (queue s' = recv_queue fr) as Hq' by (unfold queue; by rewrite Hfr).
  pose proof (frame_in_sums _ Hfs) as [? ?].
  split; [split_and!; auto|].
  - exists [f]. unfold flow, sent. rewrite Hq, Hq', Hes, app_nil_r, !sum_of_cons, !sum_of_nil. cbn.
    split_and!; auto; lia.
  - intros Hn. unfold unread. rewrite Hq, Hq', Hb, (payload_cons f). cbn.
    destruct r as [[]|e|]; [|destruct (Herr e eq_refl) as [_ [[-> _]|[-> _]]]; by discriminate (Hn _ eq_refl)|done].
    by destruct (Hok eq_refl) as (-> & _).
  - intros e He. by apply Herr.
  - intros (D1 & D2 & D3) e ->. rewrite Hq in D1, D2, D3. rewrite !sum_of_cons in D1, D2.
    apply Forall_cons in D3 as [D3 _].
    destruct (Herr e eq_refl) as [_ [[-> D]|[-> [D|[D|D]]]]]; try lia; rewrite D in D3; by destruct D3.
  - intros s'' [= <- ->]. split; [done|]. intros (D1 & D2 & D3). rewrite Hq in D1, D2, D3.
    rewrite !sum_of_cons in D1, D2. apply Forall_cons in D3 as [_ D3].
    destruct (Hok eq_refl) as (_ & E1 & E2 & _). unfold honest_queue. rewrite Hq', E1, E2.
    split_and!; auto; lia.
Qed.

Lemma recv_post_trans (s1 s2 : SH) c p :
  recv_post s1 (s2, ROk tt) → (honest_queue s1 → honest_queue s2) → recv_post s2 c → c = p →
  recv_post s1 p.
Proof.
  intros (_ & _ & E1 & (c1 & F1) & U1 & _ & _) Hh HP <-. destruct c as [s3 r].
  destruct HP as (P2 & I2 & E2 & (c2 & F2) & U2 & X2 & N2). split_and!; auto; [congruence|..].
  - exists (c1 ++ c2). by apply (flow_trans _ _ _ _ _ _ _ F1 F2).
  - intros Hn. rewrite U2, U1 by done. done.
Qed.

Lemma recv_frames_loop_spec fuel (s : SH) :
  stream_inv s → (length (queue s) < fuel)%nat → recv_post s (recv_frames_loop fuel s).
Proof.
  revert s. induction fuel as [|fuel IH]; intros s Hs Hlen; [lia|].
  cbn [recv_frames_loop]. unfold mbind, M_bind. cbn [gets].
  destruct (receiving (s_state s)) eqn:Hr; cycle 1.
  { destruct (s_state s) eqn:Hst; try discriminate; apply recv_post_same; auto; try done;
      by intros e [= <-]. }
  assert (∀ k a b : M SH Error unit,
    (match s_state s with RemoteClosing => a | Reset | Closed => b | _ => k end) = k) as Hk
    by (by intros; destruct (s_state s)).
  rewrite Hk. destruct (is_empty (s_read_buf s)) eqn:Hbe; cbn [negb];
    [|by apply recv_post_same].
  assert (s_read_buf s = []) as Hb by (by destruct (s_read_buf s)).
  destruct (recv_is_terminated (s_frame_receiver s)).
  { cbn. rewrite <- (set_frame_receiver_id s) at 2. apply recv_post_stop; auto; try done; by intros e [= <-]. }
  destruct (recv_poll_next (s_frame_receiver s)) as [fr [[f|]|]] eqn:Ep; cbn [modify].
  - apply recv_some in Ep. destruct (recv_post_frame s fr f Hs Hr Hb Ep) as [HP HQ].
    destruct (handle_frame f (set_frame_receiver fr s)) as [s' [[]|e|]] eqn:Eh; [|exact HP..].
    destruct (HQ s' eq_refl) as [Hq' Hh]. eapply recv_post_trans; [exact HP|exact Hh| |reflexivity].
    apply IH; [apply HP|]. rewrite Hq'. unfold queue in Hlen. rewrite Ep in Hlen. cbn in Hlen. lia.
  - apply recv_none in Ep as [E1 E2]. apply recv_post_stop; auto; try done.
    + unfold queue. by rewrite E1.
    + by intros e [= <-].
  - apply recv_pending in Ep as [E1 E2]. 
    change (set_frame_receiver fr s) with (set_state (s_state s) (set_frame_receiver fr s)).
    apply recv_post_stop; auto; try done. unfold queue. by rewrite E1.
Qed.

(** ** The public operations *)

Lemma op_ok_recv_frames : op_ok (recv_frames : M SH Error unit).
Proof.
  intros s Hs. unfold recv_frames, mbind, M_bind. cbn [gets].
  pose proof (recv_frames_loop_spec (S (length (queue s))) s Hs ltac:(lia)) as HP.
  unfold queue in HP. destruct (recv_frames_loop _ s) as [s' r].
  destruct HP as (? & ? & ? & (c & ?) & _). split_and!; auto. by exists c, [].
Qed.

Lemma op_ok_send_go_away {E} : op_ok (send_go_away : M SH E unit).
Proof.
  apply op_ok_bind; [apply op_ok_set_state|intros _].
  apply op_ok_bind; [by apply op_ok_catch, op_ok_free_event|intros _; apply op_ok_ret].
Qed.

Lemma op_ok_check_self_state : op_ok (check_self_state : M SH IoErrorKind bool).
Proof.
  apply op_ok_bind; [apply op_ok_gets|intros buf]. apply op_ok_bind; [apply op_ok_gets|intros st].
  destruct (is_empty buf), st; auto using op_ok_ret, op_ok_throw.
Qed.

(** The buffer may be replaced by a suffix of itself. *)
Lemma flow_set_read_buf (s : SH) n :
  stream_inv s → stream_inv (set_read_buf (drop n (s_read_buf s)) s) ∧
  flows s (set_read_buf (drop n (s_read_buf s)) s).
Proof.
  intros (H0 & H1 & H2 & H3 & H4 & H5). split.
  - unfold stream_inv. sh_simpl. unfold len in *. rewrite length_drop. split_and!; auto; lia.
  - exists [], []. by apply (flow_refl s).
Qed.

(** The part of [poll_read] after the second state check. *)
Definition read_tail (remaining : Z) : M SH IoErrorKind (Poll bytes) :=
  buf ← gets s_read_buf;
  let n := Z.min remaining (len buf) in
  if n =? 0 then mret Pending else
  modify (set_read_buf (drop (Z.to_nat n) buf)) ;;
  st ← gets s_state;
  (match st with
   | RemoteClosing | Closed | Reset => mret tt
   | _ =>
       w ← catch send_window_update;
       match w with
       | inl _ => throw IoBrokenPipe
       | inr _ => mret tt
       end
   end) ;;
  mret (Ready (take (Z.to_nat n) buf)).

(** The same at one state. *)
Definition ok_at {E A} (s : SH) (p : SH * res E A) : Prop :=
  p.2 ≠ RPanic ∧ stream_inv p.1 ∧ flows s p.1.

Lemma ok_at_step {E A} (s s1 : SH) (c : M SH E A) :
  stream_inv s1 → flows s s1 → op_ok c → ok_at s (c s1).
Proof.
  intros Hs1 (c1 & p1 & F1) Hc. destruct (Hc s1 Hs1) as (X1 & X2 & (c2 & p2 & F2)).
  split_and!; auto. eexists _, _. by eapply flow_trans.
Qed.

Lemma op_ok_gets_at {E A B} (f : SH → A) (k : A → M SH E B) :
  (∀ s, stream_inv s → ok_at s (k (f s) s)) → op_ok (gets f ≫= k).
Proof. intros Hk s Hs. exact (Hk s Hs). Qed.

Lemma op_ok_update : op_ok (w ← catch send_window_update;
  match w with inl _ => throw IoBrokenPipe | inr _ => mret tt end : M SH IoErrorKind unit).
Proof.
  apply op_ok_bind; [apply op_ok_catch, op_ok_send_window_update|].
  intros []; [apply op_ok_throw|apply op_ok_ret].
Qed.

Lemma op_ok_read_tail remaining : op_ok (read_tail remaining).
Proof.
  apply op_ok_gets_at. intros s Hs. cbn zeta.
  destruct (_ =? 0); [by apply op_ok_ret|].
  destruct (flow_set_read_buf s (Z.to_nat (Z.min remaining (len (s_read_buf s)))) Hs) as [Hs1 HF].
  change ((modify ?f ≫= ?k) s) with (k tt (f s)). refine (ok_at_step _ _ _ Hs1 HF _).
  apply op_ok_bind; [apply op_ok_gets|intros st].
  apply op_ok_bind; [|intros _; apply op_ok_ret].
  destruct st; auto using op_ok_ret, op_ok_update.
Qed.

Lemma op_ok_poll_read remaining : op_ok (poll_read remaining : M SH IoErrorKind (Poll bytes)).
Proof.
  apply op_ok_bind; [apply op_ok_check_self_state|intros []; [apply op_ok_ret|]].
  apply op_ok_bind; [apply op_ok_catch, op_ok_recv_frames|intros r].
  apply op_ok_bind.
  { destruct r as [e|]; [|apply op_ok_ret]. destruct (is_fatal e); [|apply op_ok_ret].
    apply op_ok_bind; [apply op_ok_send_go_away|intros _; apply op_ok_throw]. }
  intros _. apply op_ok_bind; [apply op_ok_check_self_state|intros []; [apply op_ok_ret|]].
  apply op_ok_read_tail.
Qed.

Lemma send_data_run d (s : SH) :
  send_data d s =
    unbound_send_frame (new_data (flags_of (s_state s)) (s_id s) d)
      (set_state (flagged (s_state s)) s).
Proof. unfold send_data, mbind, M_bind. by rewrite get_flags_eq. Qed.

Definition writable (st : StreamState) : bool :=
  match st with Reset | LocalClosing | Closed => false | _ => true end.

(** What a write sends: one data frame with a prefix of the buffer that fits the window. *)
Lemma poll_write_run cx buf (s : SH) :
  stream_inv s →
  let n := Z.min (s_send_window s) (len buf) in
  let ev := EvFrame (new_data (flags_of (s_state s)) (s_id s) (take (Z.to_nat n) buf)) in
  let s1 := set_state (flagged (s_state s)) s in
  ∃ es ok, us_sent es = sent s ++ (if ok : bool then [ev] else []) ∧
  ok = negb (us_is_closed (s_event_sender s)) ∧ us_is_closed es = us_is_closed (s_event_sender s) ∧
  poll_write cx buf s =
    if writable (s_state s) then
      if s_send_window s =? 0 then (set_writeable_wake (Some cx) s, ROk Pending)
      else if ok then (set_send_window (s_send_window s - n) (set_event_sender es s1), ROk (Ready n))
      else (set_event_sender es s1, RErr IoBrokenPipe)
    else (s, RErr IoBrokenPipe).
Proof.
  intros (H0 & H1 & H2 & [H3 H3'] & H4 & H5) n ev s1. pose proof (len_nonneg buf).
  destruct (send_event_spec ev s1) as (es & ok & He & Hsent & Hcl & Hok).
  exists es, ok. split_and!; [done..|].
  unfold poll_write, mbind, M_bind. cbn [gets]. destruct (writable (s_state s)) eqn:Hw; cycle 1.
  { destruct (s_state s); done. }
  assert (∀ k a : M SH IoErrorKind (Poll Z),
    (match s_state s with Reset | LocalClosing | Closed => a | _ => k end) = k) as Hk
    by (by intros; destruct (s_state s)).
  rewrite Hk. destruct (_ =? 0); [done|]. fold n.
  unfold catch at 1. rewrite send_data_run. fold s1. unfold unbound_send_frame. fold ev. rewrite He.
  destruct ok; [|done]. subst s1. sh_simpl.
  rewrite (cast_id 32 n) by (split; lia). rewrite checked_sub_ok by lia. done.
Qed.

Lemma op_ok_poll_write cx buf : op_ok (poll_write cx buf : M SH IoErrorKind (Poll Z)).
Proof.
  intros s Hs. destruct (poll_write_run cx buf s Hs) as (es & ok & Hsent & _ & _ & ->).
  destruct (writable _); [|by apply op_ok_throw].
  destruct (_ =? 0).
  { split; [done|]. split; [exact Hs|]. exists [], []. by apply (flow_refl s). }
  pose proof Hs as (H0 & H1 & H2 & [H3 H3'] & H4 & H5). pose proof (len_nonneg buf).
  set (n := Z.min _ _) in *. set (ev := new_data _ _ _) in *.
  assert (len (take (Z.to_nat n) buf) = n) as Hn by (apply len_take; lia).
  assert (frame_out ev) by (apply new_data_in; [apply flags_of_u16|done|rewrite Hn; split; lia]).
  assert (data_of ev = n) as Hd.
  { unfold data_of, ev, f_length, new_data. cbn. rewrite Hn. apply cast_id. split; lia. }
  assert (delta_of ev = 0) as Hdl by done.
  destruct ok; (split; [done|split]); try (unfold stream_inv; sh_simpl; split_and!; auto; split; lia).
  - exists [], [EvFrame ev]. unfold flow, sent, queue in *. sh_simpl. rewrite Hsent. cbn [ev_frames omap list_omap].
    rewrite ?sum_of_cons, ?sum_of_nil, Hd, Hdl. split_and!; auto; lia.
  - exists [], []. pose proof (flow_refl s) as HF. unfold flow, sent, queue in *. sh_simpl.
    by rewrite Hsent.
Qed.

(** Closing frames: a zero-credit update that carries the pending flag and [f]. *)
Definition closing_frame (s : SH) (f : Flag) : Frame :=
  new_window_update (Flags_add (flags_of (s_state s)) f) (s_id s) 0.

Lemma op_ok_closing_frame (s : SH) f (c : M SH Error unit) :
  stream_inv s →
  c s = unbound_send_event (EvFrame (closing_frame s f)) (set_state (flagged (s_state s)) s) →
  ok_at s (c s).
Proof.
  intros Hs ->. apply ok_at_step; [exact Hs|exists [], []; by apply (flow_refl s)|].
  apply op_ok_free_event. split; [|done].
  apply new_window_update_in; [apply flags_add_u16|apply Hs|done].
Qed.

Lemma send_close_run (s : SH) :
  send_close s =
    unbound_send_event (EvFrame (closing_frame s Fin)) (set_state (flagged (s_state s)) s).
Proof. unfold send_close, mbind, M_bind. by rewrite get_flags_eq. Qed.

Lemma op_ok_send_close : op_ok (send_close : M SH Error unit).
Proof.
  intros s Hs. apply (op_ok_closing_frame s Fin send_close Hs).
  apply send_close_run.
Qed.

Lemma op_ok_close : op_ok (close : M SH Error unit).
Proof.
  apply op_ok_bind; [apply op_ok_gets|intros st]. apply op_ok_bind; [apply op_ok_gets|intros id].
  assert (op_ok (unbound_send_event (EvClosed id) : M SH Error unit)) by (by apply op_ok_free_event).
  destruct st; (apply op_ok_bind; [apply op_ok_set_state|intros _]);
    auto using op_ok_send_close, op_ok_bind.
Qed.

Lemma op_ok_poll_shutdown : op_ok (poll_shutdown : M SH IoErrorKind (Poll unit)).
Proof.
  apply op_ok_bind; [apply op_ok_catch, op_ok_close|]. intros []; auto using op_ok_throw, op_ok_ret.
Qed.

(** The reset frame of [drop]. *)
Definition drop_reset : M SH IoErrorKind unit :=
  flags ← get_flags;
  id ← gets s_id;
  catch (unbound_send_event (EvFrame (new_window_update (Flags_add flags Rst) id 0))) ;;
  mret tt.

Lemma op_ok_drop_reset : op_ok drop_reset.
Proof.
  set (c := (flags ← get_flags; id ← gets s_id;
    unbound_send_event (EvFrame (new_window_update (Flags_add flags Rst) id 0))) : M SH Error unit).
  assert (op_ok c) as Hc.
  { intros s Hs. apply (op_ok_closing_frame s Rst c Hs).
    unfold c, mbind, M_bind. by rewrite get_flags_eq. }
  assert (∀ s, drop_reset s = (catch c ≫= λ _, mret tt) s) as Heq.
  { intros s. unfold drop_reset, c, catch, mbind, M_bind. rewrite !get_flags_eq. cbn [gets].
    by destruct (unbound_send_event _ _) as [? []]. }
  intros s Hs. rewrite Heq. revert s Hs. change (op_ok (catch c ≫= λ _, mret tt : M SH IoErrorKind unit)).
  apply op_ok_bind; [by apply op_ok_catch|intros; apply op_ok_ret].
Qed.

Lemma op_ok_drop_handle : op_ok (drop_handle : M SH IoErrorKind unit).
Proof.
  apply op_ok_bind; [apply op_ok_gets|intros es]. apply op_ok_bind; [apply op_ok_gets|intros st].
  destruct (negb (us_is_closed es)); cbn [andb]; [|apply op_ok_ret].
  destruct (bool_decide (st = Closed)) eqn:Hc; cbn [negb]; [apply op_ok_ret|].
  apply bool_decide_eq_false in Hc. apply op_ok_bind.
  { pose proof op_ok_drop_reset. destruct st; auto using op_ok_ret; done. }
  intros _. apply op_ok_bind; [apply op_ok_gets|intros id].
  apply op_ok_bind; [by apply op_ok_catch, op_ok_free_event|intros; apply op_ok_ret].
Qed.

Lemma StreamHandle_new_inv id es fr st mx (s : SH) :
  StreamHandle_new id es fr st mx = Some s → is_u32 id → recv_queue fr = [] →
  INITIAL_STREAM_WINDOW <= mx < 2 ^ 32 → stream_inv s.
Proof.
  unfold StreamHandle_new. case_bool_decide; [|done]. intros [= <-] Hid Hq [H1 H2].
  unfold stream_inv, queue. sh_simpl. rewrite Hq. change (len []) with 0.
  split_and!; auto; try done; unfold INITIAL_STREAM_WINDOW, in_width in *; lia.
Qed.

(** ** Runs of a handle *)

(** The operations of the handle's owner, and the session putting frames into its channel. *)
Inductive stream_step : SH → SH → Prop :=
| step_read s n : stream_step s (poll_read n s).1
| step_write s cx buf : stream_step s (poll_write cx buf s).1
| step_flush s : stream_step s (poll_flush s).1
| step_shutdown s : stream_step s (poll_shutdown s).1
| step_drop s : stream_step s (drop_handle s).1
| step_deliver s fr fs :
    recv_queue fr = queue s ++ fs → Forall frame_in fs → stream_step s (set_frame_receiver fr s).

Lemma stream_step_inv s s' : stream_step s s' → stream_inv s → stream_inv s'.
Proof.
  intros Hst Hs. destruct Hst.
  - by apply op_ok_poll_read.
  - by apply op_ok_poll_write.
  - done.
  - by apply op_ok_poll_shutdown.
  - by apply op_ok_drop_handle.
  - destruct Hs as (?&?&?&?&?&?). unfold stream_inv, queue in *. sh_simpl. rewrite H.
    split_and!; auto. by apply Forall_app.
Qed.

Lemma stream_steps_inv s s' : rtc stream_step s s' → stream_inv s → stream_inv s'.
Proof. induction 1; eauto using stream_step_inv. Qed.

(** *** No lost wake-up *)

(** A writer is parked only while the send window is empty. *)
Definition parked_ok (s : SH) : Prop := ∀ w, s_writeable_wake s = Some w → s_send_window s = 0.

(** An update that touches neither the wake nor the send window. *)
Lemma parked_frame {E} (f : SH → SH) :
  (∀ s, s_writeable_wake (f s) = s_writeable_wake s ∧ s_send_window (f s) = s_send_window s) →
  keeps parked_ok (modify f : M SH E unit).
Proof.
  intros Hf. apply keeps_modify. intros s Hs w. destruct (Hf s) as [-> ->]. apply Hs.
Qed.

Lemma parked_event ev : keeps parked_ok (unbound_send_event ev : M SH Error unit).
Proof. intros s Hs. unfold unbound_send_event. by destruct (unbounded_send _ _). Qed.

Hint Resolve parked_event : keeps.
Hint Extern 1 (keeps parked_ok (modify _)) => apply parked_frame; by intros [] : keeps.

Lemma parked_get_flags {E} : keeps parked_ok (get_flags : M SH E Flags).
Proof. unfold get_flags. keeps_walk. Qed.
Hint Resolve parked_get_flags : keeps.

Lemma parked_handle_frame f : keeps parked_ok (handle_frame f : M SH Error unit).
Proof.
  unfold handle_frame, handle_window_update, handle_data, process_flags.
  destruct (f_ty f); [keeps_walk| |keeps_walk..].
  apply keeps_bind; [keeps_walk|intros _].
  intros s Hs. unfold mbind, M_bind. cbn [gets].
  destruct (checked_add 32 (s_send_window s) (f_length f)); [|exact Hs]. by intros w [=].
Qed.
Hint Resolve parked_handle_frame : keeps.

Lemma parked_recv_frames_loop n : keeps parked_ok (recv_frames_loop n : M SH Error unit).
Proof. induction n; cbn [recv_frames_loop]; [eauto with keeps|]. keeps_walk. Qed.
Hint Resolve parked_recv_frames_loop : keeps.

Lemma parked_poll_write cx buf (s : SH) :
  stream_inv s → parked_ok s → parked_ok (poll_write cx buf s).1.
Proof.
  intros Hi Hs. destruct (poll_write_run cx buf s Hi) as (es & ok & _ & _ & _ & ->).
  destruct (writable _); [|done]. destruct (_ =? 0) eqn:E.
  - intros w _. cbn. lia.
  - pose proof (len_nonneg buf). destruct ok; intros w Hw; specialize (Hs w Hw); cbn; lia.
Qed.

Lemma parked_poll_read n : keeps parked_ok (poll_read n : M SH IoErrorKind (Poll bytes)).
Proof.
  unfold poll_read, check_self_state, recv_frames, send_go_away, send_window_update. keeps_walk.
Qed.

Lemma parked_poll_shutdown : keeps parked_ok (poll_shutdown : M SH IoErrorKind (Poll unit)).
Proof. unfold poll_shutdown, close, send_close, unbound_send_frame. keeps_walk. Qed.

Lemma parked_drop_handle : keeps parked_ok (drop_handle : M SH IoErrorKind unit).
Proof. unfold drop_handle. keeps_walk. Qed.

Lemma parked_step s s' : stream_step s s' → stream_inv s → parked_ok s → parked_ok s'.
Proof.
  intros Hst Hi. destruct Hst; auto using parked_poll_write.
  - apply parked_poll_read.
  - apply parked_poll_shutdown.
  - apply parked_drop_handle.
Qed.

(** *** Closed and reset streams stay silent *)

Definition sealed (st : StreamState) : bool :=
  match st with Closed | Reset => true | _ => false end.

(** The stream is over, and since [base] no frame was sent. *)
Definition silent (base : list StreamEvent) (s : SH) : Prop :=
  sealed (s_state s) = true ∧ ∃ evs, sent s = base ++ evs ∧ ev_frames evs = [].

Section Silent.
Context (base : list StreamEvent).

Lemma silent_frame (f : SH → SH) s :
  s_event_sender (f s) = s_event_sender s → sealed (s_state (f s)) = true →
  silent base s → silent base (f s).
Proof. intros Hf Hw (H1 & H2). split; [done|]. unfold sent in *. by rewrite Hf. Qed.

Lemma silent_event id : keeps (silent base) (unbound_send_event (EvClosed id) : M SH Error unit).
Proof.
  intros s (H1 & evs & H2 & H3).
  destruct (send_event_spec (EvClosed id) s) as (es & ok & -> & Hs & _). split; [done|]. cbn [fst].
  exists (evs ++ if ok then [EvClosed id] else []). unfold sent in *. sh_simpl.
  rewrite Hs, H2, app_assoc. split; [done|]. rewrite ev_frames_app, H3. by destruct ok.
Qed.

Lemma recv_frames_sealed (s : SH) :
  sealed (s_state s) = true → recv_frames s = (s, RErr SessionShutdown).
Proof.
  intros Hs. unfold recv_frames, mbind, M_bind. cbn [gets recv_frames_loop].
  unfold mbind, M_bind. cbn [gets]. by destruct (s_state s).
Qed.

Lemma silent_poll_read n : keeps (silent base) (poll_read n : M SH IoErrorKind (Poll bytes)).
Proof.
  intros s Hs. pose proof (recv_frames_sealed s (proj1 Hs)) as Hrf.
  assert (∀ k, silent base (set_read_buf k s))
    by (intros k; apply (silent_frame (set_read_buf k)); [done|apply Hs|done]).
  unfold poll_read, check_self_state, mbind, M_bind, catch. cbn [gets].
  destruct (is_empty (s_read_buf s)) eqn:He, (s_state s) eqn:Hst;
    try (exfalso; destruct Hs as [Hx _]; by rewrite Hst in Hx);
    cbn [mret M_ret throw fst]; try done; rewrite Hrf; change (is_fatal SessionShutdown) with false;
    cbn -[Z.eqb]; rewrite ?He, ?Hst; cbn -[Z.eqb]; destruct_if; cbn; rewrite ?Hst; cbn; done.
Qed.

Lemma silent_poll_write cx b : keeps (silent base) (poll_write cx b : M SH IoErrorKind (Poll Z)).
Proof.
  intros s Hs. unfold poll_write, mbind, M_bind. cbn [gets].
  destruct (s_state s) eqn:Hst; try (exfalso; destruct Hs as [Hx _]; by rewrite Hst in Hx); done.
Qed.

Lemma silent_close : keeps (silent base) (close : M SH Error unit).
Proof.
  intros s Hs. pose proof (silent_frame (set_state Closed) s eq_refl eq_refl Hs) as Hs1.
  pose proof (silent_event (s_id s) _ Hs1). unfold close, mbind, M_bind. cbn [gets modify].
  destruct (s_state s) eqn:Hst; try (exfalso; destruct Hs as [Hx _]; by rewrite Hst in Hx); done.
Qed.

Lemma silent_drop : keeps (silent base) (drop_handle : M SH IoErrorKind unit).
Proof.
  intros s Hs. unfold drop_handle, mbind at 1 2, M_bind at 1 2. cbn [gets].
  pose proof (keeps_catch (E' := IoErrorKind) _ _ (silent_event (s_id s)) s Hs) as Hc.
  destruct (negb _); [|done]. cbn [andb].
  destruct (s_state s) eqn:Hst; try (exfalso; destruct Hs as [Hx _]; by rewrite Hst in Hx).
  - by rewrite bool_decide_eq_true_2.
  - rewrite bool_decide_eq_false_2 by done. cbn [negb]. unfold mbind, M_bind. cbn [mret M_ret gets].
    by destruct (catch _ s) as [? []].
Qed.

Lemma silent_step s s' : stream_step s s' → silent base s → silent base s'.
Proof.
  intros Hst Hs. destruct Hst.
  - by apply silent_poll_read.
  - by apply silent_poll_write.
  - done.
  - unfold poll_shutdown, mbind, M_bind.
    pose proof (keeps_catch (E' := IoErrorKind) _ _ silent_close s Hs).
    by destruct (catch _ s) as [? [[]| |]].
  - by apply silent_drop.
  - apply (silent_frame (set_frame_receiver fr)); auto. apply Hs.
Qed.
End Silent.

(** *** What a read returns *)

(** [bad]: the reason for a protocol error. *)
Definition read_post (bad : Prop) (n : Z) (s : SH) (p : SH * res IoErrorKind (Poll bytes)) : Prop :=
  let '(s', r) := p in
  match r with
  | ROk (Ready d) =>
      unread s = d ++ unread s' ∧ len d <= n ∧
      (d = [] → s_read_buf s' = [] ∧ (s_state s' = RemoteClosing ∨ s_state s' = Closed))
  | ROk Pending => unread s' = unread s ∧ (0 < n → s_read_buf s' = [])
  | RErr IoConnectionReset => unread s' = unread s ∧ s_state s' = Reset ∧ s_read_buf s' = []
  | RErr IoInvalidData => bad
  | RErr IoBrokenPipe => us_is_closed (s_event_sender s) = true
  | RErr IoTimedOut | RPanic => False
  end.

Lemma check_self_state_run (s : SH) :
  check_self_state s =
    (s, if is_empty (s_read_buf s) then
          match s_state s with
          | RemoteClosing | Closed => ROk true | Reset => RErr IoConnectionReset | _ => ROk false
          end
        else ROk false).
Proof.
  unfold check_self_state, mbind, M_bind. cbn [gets].
  by destruct (is_empty _), (s_state s).
Qed.

Lemma send_window_update_keeps (s : SH) :
  let s' := (send_window_update s).1 in
  s_read_buf s' = s_read_buf s ∧ s_frame_receiver s' = s_frame_receiver s.
Proof.
  set (P := λ s' : SH, s_read_buf s' = s_read_buf s ∧ s_frame_receiver s' = s_frame_receiver s).
  assert (keeps P (send_window_update : M SH Error unit)) as HK; [|by apply HK].
  assert (∀ ev, keeps P (unbound_send_event ev : M SH Error unit))
    by (intros ev s1 H1; unfold unbound_send_event; by destruct (unbounded_send _ _)).
  assert (∀ f : SH → SH, (∀ s1, s_read_buf (f s1) = s_read_buf s1 ∧
    s_frame_receiver (f s1) = s_frame_receiver s1) → keeps P (modify f : M SH Error unit)) as Hm.
  { intros f Hf s1 H1. unfold P. cbn. destruct (Hf s1) as [-> ->]. exact H1. }
  unfold send_window_update, get_flags. keeps_walk; apply Hm; by intros [].
Qed.

Lemma send_window_update_err (s : SH) e :
  stream_inv s → (send_window_update s).2 = RErr e → us_is_closed (s_event_sender s) = true.
Proof.
  intros Hs. destruct (send_window_update_run s Hs) as [_ ->]. destruct (_ && _); [done|].
  match goal with |- context [unbound_send_event ?ev ?s1] =>
    destruct (send_event_spec ev s1) as (es & ok & -> & _ & _ & Hok) end.
  cbn in *. by destruct ok, (us_is_closed (s_event_sender s)).
Qed.

Lemma read_tail_spec n (s : SH) :
  stream_inv s → 0 <= n → read_post False n s (read_tail n s).
Proof.
  intros Hs Hn. unfold read_tail, mbind, M_bind. cbn [gets].
  pose proof (len_nonneg (s_read_buf s)). destruct (_ =? 0) eqn:E.
  { cbn. split; [done|]. intros. apply len_zero. lia. }
  set (m := Z.min n (len (s_read_buf s))) in *. cbn [modify].
  destruct (flow_set_read_buf s (Z.to_nat m) Hs) as [Hs1 _].
  set (s1 := set_read_buf (drop (Z.to_nat m) (s_read_buf s)) s) in *.
  assert (∀ s2 : SH, s_read_buf s2 = s_read_buf s1 → s_frame_receiver s2 = s_frame_receiver s1 →
    read_post False n s (s2, ROk (Ready (take (Z.to_nat m) (s_read_buf s))))) as Hend.
  { intros s2 Hb Hf. unfold read_post, unread, queue. rewrite Hb, Hf. cbn.
    rewrite app_assoc, take_drop, len_take by lia. split_and!; [done|lia|].
    intros Ht. assert (m = 0); [|lia]. rewrite <- (len_take m (s_read_buf s)) by lia. by rewrite Ht. }
  destruct (s_state s1); try (by apply Hend); unfold catch;
    destruct (send_window_update_keeps s1) as [K1 K2];
    pose proof (send_window_update_err s1) as Her; pose proof (op_ok_send_window_update s1 Hs1) as [Hp _];
    destruct (send_window_update s1) as [s2 [[]|e|]]; cbn in *;
    solve [by apply Hend | by eapply Her | done].
Qed.

Lemma read_post_from bad n (s s1 : SH) p :
  unread s1 = unread s → s_event_sender s1 = s_event_sender s →
  read_post False n s1 p → read_post bad n s p.
Proof.
  intros Hu He. destruct p as [s2 [[d|]|[]|]]; cbn; rewrite ?Hu, ?He; done.
Qed.

(** The part of [poll_read] after the first state check. *)
Definition read_rest (n : Z) : M SH IoErrorKind (Poll bytes) :=
  r ← catch recv_frames;
  (match r with
   | inl e => if is_fatal e then send_go_away ;; throw IoInvalidData else mret tt
   | inr _ => mret tt
   end) ;;
  eof2 ← check_self_state;
  if eof2 : bool then mret (Ready []) else read_tail n.

(** The state check in front of a read of a handle that is where [s] was. *)
Lemma checked_spec bad n (s s1 : SH) (k : M SH IoErrorKind (Poll bytes)) :
  0 <= n → unread s1 = unread s → read_post bad n s (k s1) →
  read_post bad n s
    ((eof ← check_self_state; if eof : bool then mret (Ready []) else k) s1).
Proof.
  intros Hn Hu Hk. unfold mbind, M_bind. rewrite check_self_state_run.
  destruct (is_empty (s_read_buf s1)) eqn:He; [|done].
  assert (s_read_buf s1 = []) as Hb by (by destruct (s_read_buf s1)).
  destruct (s_state s1) eqn:Hst; try done; cbn; rewrite ?len_nil; split_and!; auto.
Qed.

Lemma send_go_away_invalid (s : SH) :
  ∃ s', (send_go_away ;; throw IoInvalidData : M SH IoErrorKind unit) s = (s', RErr IoInvalidData).
Proof.
  unfold send_go_away, mbind, M_bind, catch. cbn [modify].
  destruct (send_event_spec EvGoAway (set_state LocalClosing s)) as (es & ok & -> & _).
  destruct ok; eexists; reflexivity.
Qed.

Lemma read_rest_spec n (s : SH) :
  stream_inv s → 0 <= n → read_post (¬ honest_queue s) n s (read_rest n s).
Proof.
  intros Hs Hn. unfold read_rest. unfold mbind at 1, M_bind at 1, catch at 1.
  assert (recv_post s (recv_frames s)) as HP by (apply recv_frames_loop_spec; [done|unfold queue; lia]).
  destruct (recv_frames s) as [s1 r]. destruct HP as (Hp & Hi & Hes & _ & Hu & _ & Hh).
  assert ((∀ e, r = RErr e → is_fatal e = false) → read_post (¬ honest_queue s) n s
    ((eof2 ← check_self_state; if eof2 : bool then mret (Ready []) else read_tail n) s1)) as Hgo.
  { intros Hf. apply checked_spec; auto. apply (read_post_from _ n s s1); auto. by apply read_tail_spec. }
  destruct r as [[]|e|]; [by apply Hgo| |done]. destruct (is_fatal e) eqn:Hf.
  - unfold mbind at 1, M_bind at 1. destruct (send_go_away_invalid s1) as [s2 Hga].
    unfold mbind, M_bind in Hga |- *. rewrite Hga. cbn. intros Hq. specialize (Hh Hq e eq_refl). congruence.
  - apply Hgo. by intros e' [= <-].
Qed.

Lemma poll_read_spec n (s : SH) :
  stream_inv s → 0 <= n → read_post (¬ honest_queue s) n s (poll_read n s).
Proof. intros Hs Hn. apply (checked_spec _ n s s (read_rest n)); auto using read_rest_spec. Qed.

End Proofs.

(** ** The properties *)

Section Claims.
Context {ES FR : Type} `{US : UnboundedSender ES StreamEvent} `{RC : Receiver FR Frame}.
Context `{USL : !UnboundedSenderLaws ES StreamEvent} `{RCL : !ReceiverLaws FR Frame}.
Abbreviation SH := (StreamHandle ES FR).

(** C4: from a fresh handle, whatever the owner does and whatever well-formed frames the peer
    sends, every reachable handle satisfies the window invariant and none of its operations
    can panic: no subtraction or addition of the windows overflows, the read loop ends. *)
Theorem stream_run_safe id es fr st mx (s0 s : SH) :
  StreamHandle_new id es fr st mx = Some s0 → is_u32 id → recv_queue fr = [] →
  INITIAL_STREAM_WINDOW <= mx < 2 ^ 32 → rtc stream_step s0 s →
  stream_inv s ∧
  (∀ n, (poll_read n s).2 ≠ RPanic) ∧ (∀ cx buf, (poll_write cx buf s).2 ≠ RPanic) ∧
  (poll_shutdown s).2 ≠ RPanic ∧ (drop_handle s).2 ≠ RPanic.
Proof.
  intros Hn Hid Hq Hmx Hst.
  assert (stream_inv s) as Hs by eauto using stream_steps_inv, StreamHandle_new_inv.
  split; [exact Hs|]. split_and!; intros.
  - by apply op_ok_poll_read.
  - by apply op_ok_poll_write.
  - by apply op_ok_poll_shutdown.
  - by apply op_ok_drop_handle.
Qed.

(** Reads deliver the received bytes in order. A read that returns bytes returns the
    first ones of the unread bytes, at most what was asked for; an empty read means the peer
    closed; [Pending] and a reset take nothing, and [Pending] only with an empty buffer; a
    protocol error needs a queue that violates the windows; a broken pipe needs a closed
    session. *)
Theorem poll_read_in_order n (s : SH) :
  stream_inv s → 0 <= n → read_post (¬ honest_queue s) n s (poll_read n s).
Proof. apply poll_read_spec. Qed.

(** A write is refused when the local side is closed, parks the writer when the send
    window is empty, and otherwise sends exactly one data frame, the longest prefix of the
    buffer the window allows, with the pending SYN or ACK, and takes it off the window. *)
Theorem poll_write_sends_prefix cx buf (s : SH) :
  stream_inv s → us_is_closed (s_event_sender s) = false →
  let n := Z.min (s_send_window s) (len buf) in
  let '(s', r) := poll_write cx buf s in
  if writable (s_state s) then
    if s_send_window s =? 0 then
      r = ROk Pending ∧ s_writeable_wake s' = Some cx ∧ sent s' = sent s
    else
      r = ROk (Ready n) ∧ s_send_window s' = s_send_window s - n ∧
      sent s' = sent s ++ [EvFrame (new_data (flags_of (s_state s)) (s_id s) (take (Z.to_nat n) buf))] ∧
      s_state s' = flagged (s_state s)
  else r = RErr IoBrokenPipe ∧ s' = s.
Proof.
  intros Hs Hc n. destruct (poll_write_run cx buf s Hs) as (es & ok & Hsent & Hok & _ & ->).
  rewrite Hc in Hok. subst ok. destruct (writable _); [|done]. by destruct (_ =? 0).
Qed.

(** No wake-up is lost: in every reachable handle a writer is parked only while the send
    window is empty, so an update that makes it writable has taken and woken it. *)
Theorem no_lost_wakeup id es fr st mx (s0 s : SH) w :
  StreamHandle_new id es fr st mx = Some s0 → is_u32 id → recv_queue fr = [] →
  INITIAL_STREAM_WINDOW <= mx < 2 ^ 32 → rtc stream_step s0 s →
  s_writeable_wake s = Some w → s_send_window s = 0.
Proof.
  intros Hn Hid Hq Hmx Hst. assert (stream_inv s0) as Hs0 by eauto using StreamHandle_new_inv.
  assert (parked_ok s0) as Hp0.
  { unfold StreamHandle_new in Hn. case_bool_decide; [|done]. injection Hn as <-. by intros ? [=]. }
  assert (parked_ok s) as Hp; [|by apply Hp].
  clear Hn. induction Hst; eauto using stream_step_inv, parked_step.
Qed.

(** A closed or reset stream stays so and never sends a frame again, whatever the owner
    or the peer does. *)
Theorem closed_stays_silent (s s' : SH) :
  s_state s = Closed ∨ s_state s = Reset → rtc stream_step s s' →
  (s_state s' = Closed ∨ s_state s' = Reset) ∧
  ∃ evs, sent s' = sent s ++ evs ∧ ev_frames evs = [].
Proof.
  intros Hst Hr. assert (silent (sent s) s) as Hs.
  { split; [by destruct Hst as [-> | ->]|]. exists []. by rewrite app_nil_r. }
  assert (silent (sent s) s') as [H1 H2]; [|split; [destruct (s_state s'); auto; discriminate|done]].
  clear Hst. remember (sent s) as base eqn:Hb. clear Hb.
  induction Hr; eauto using silent_step.
Qed.

End Claims.

(** ** Concrete handles *)

Definition demo_handle (st : StreamState) (q : list Frame) (ended : bool)
    : StreamHandle (LogSender StreamEvent) (QueueReceiver Frame) :=
  mkStream 1 st INITIAL_STREAM_WINDOW INITIAL_STREAM_WINDOW INITIAL_STREAM_WINDOW []
    (mkLogSender [] false) (mkQueueReceiver q ended false) None [].

Definition demo_data (fl : Flags) : Frame := new_data fl 1 (map byte_of [7; 8; 9]).

Lemma demo_inv st ended fl :
  is_u16 fl → stream_inv (demo_handle st [demo_data fl] ended).
Proof.
  intros Hf. unfold stream_inv. cbn -[Z.pow len]. split_and!; try done.
  repeat constructor; try done; apply Hf.
Qed.

Definition demo_new := StreamHandle_new 1 (mkLogSender (@nil StreamEvent) false)
  (mkQueueReceiver (@nil Frame) false false) Init INITIAL_STREAM_WINDOW.

Lemma stream_run_safe_witness :
  stream_inv (poll_write 0%nat (map byte_of [1; 2]) (demo_handle Init [] false)).1.
Proof.
  eapply (stream_run_safe 1 (mkLogSender [] false) (mkQueueReceiver [] false false) Init
    INITIAL_STREAM_WINDOW); [reflexivity|done|done|done|].
  apply rtc_once, step_write.
Defined.

Lemma poll_read_in_order_witness :
  let s := demo_handle Established [demo_data 0] false in
  read_post (¬ honest_queue s) 2 s (poll_read 2 s) ∧
  (poll_read 2 s).2 = ROk (Ready (map byte_of [7; 8])).
Proof. split; [apply poll_read_in_order; [by apply demo_inv|done] | vm_compute; done]. Defined.

Lemma poll_write_sends_prefix_witness :
  let s := demo_handle Init [demo_data 0] false in
  (poll_write 0%nat (map byte_of [1; 2]) s).2 = ROk (Ready 2).
Proof.
  intros s. pose proof (poll_write_sends_prefix 0%nat (map byte_of [1; 2]) s
    ltac:(by apply demo_inv) eq_refl) as H.
  destruct (poll_write 0%nat (map byte_of [1; 2]) s) as [s' r]. apply H.
Defined.

Lemma no_lost_wakeup_witness :
  let s0 := demo_handle Init [] false in
  let s1 := (poll_write 0%nat (repeat (byte_of 5) (Z.to_nat INITIAL_STREAM_WINDOW)) s0).1 in
  let s2 := (poll_write 7%nat [byte_of 1] s1).1 in
  s_send_window s2 = 0.
Proof.
  intros s0 s1 s2.
  assert (s_writeable_wake s2 = Some 7%nat) as Hw by (vm_compute; reflexivity).
  revert Hw. apply (no_lost_wakeup 1 (mkLogSender [] false) (mkQueueReceiver [] false false)
    Init INITIAL_STREAM_WINDOW s0); [reflexivity|done|done|done|].
  eapply rtc_l; [apply step_write|]. apply rtc_once, step_write.
Defined.

Lemma closed_stays_silent_witness :
  let s := demo_handle Reset [] false in
  s_state (drop_handle s).1 = Closed ∨ s_state (drop_handle s).1 = Reset.
Proof.
  intros s. apply (closed_stays_silent s (drop_handle s).1); [by right|].
  apply rtc_once, step_drop.
Defined.

(** A data frame that carries FIN is delivered after the state became [RemoteClosing]:
    the branch of [poll_read] that is logged as unreachable is taken, and no window update
    is sent for the bytes. *)
Theorem fin_data_takes_unreachable_branch :
  let s := demo_handle Established [demo_data (Flags_from Fin)] false in
  let '(s', r) := poll_read 10 s in
  r = ROk (Ready (map byte_of [7; 8; 9])) ∧ s_state s' = RemoteClosing ∧ sent s' = [].
Proof. vm_compute. done. Qed.

(** When the session dropped the frame channel, a read moves a locally closed stream from
    [LocalClosing] back to [RemoteClosing], where writes are accepted again: the stream
    sends data after its own FIN. *)
Theorem local_close_reopened :
  let s0 := demo_handle Established [] true in
  let s1 := (poll_shutdown s0).1 in
  let s2 := (poll_read 10 s1).1 in
  let '(s3, r) := poll_write 0%nat [byte_of 1] s2 in
  s_state s1 = LocalClosing ∧ (poll_write 0%nat [byte_of 1] s1).2 = RErr IoBrokenPipe ∧
  r = ROk (Ready 1) ∧
  sent s3 = [EvFrame (new_window_update (Flags_from Fin) 1 0); EvFrame (new_data 0 1 [byte_of 1])].
Proof. vm_compute. done. Qed.
