(* ===== verification/YamuxFlow.v ===== *)
(** * Two yamux endpoints

    The two handles of one stream, with a wire in each direction that keeps order: what the
    codec round trip and the per-stream order of the session provide. The windows of the two
    sides stay consistent, so no side ever accuses the other of a violation, and the bytes
    read on one side are the bytes written on the other, in order. *)

From Stdlib Require Import ZArith Lia Bool.
From stdpp Require Import base list gmap.
From S2P Require Import Prelude Channels YamuxFrame YamuxStream YamuxStreamProofs.

Open Scope Z_scope.

Section Flow.
Context {ES FR : Type} `{US : UnboundedSender ES StreamEvent} `{RC : Receiver FR Frame}.
Context `{USL : !UnboundedSenderLaws ES StreamEvent} `{RCL : !ReceiverLaws FR Frame}.
Abbreviation SH := (StreamHandle ES FR).

(** ** The system *)

(** One side: its handle, and the bytes its owner wrote and read so far. *)
Record side := mkSide { sd_h : SH; sd_wr : bytes; sd_rd : bytes }.

Record sys := mkSys { sy_a : side; sy_b : side; sy_ab : list Frame; sy_ba : list Frame }.

Definition new_frames (s s' : SH) : list Frame := ev_frames (drop (length (sent s)) (sent s')).

Definition read_bytes (r : res IoErrorKind (Poll bytes)) : bytes :=
  match r with ROk (Ready d) => d | _ => [] end.
Definition written (buf : bytes) (r : res IoErrorKind (Poll Z)) : bytes :=
  match r with ROk (Ready n) => take (Z.to_nat n) buf | _ => [] end.

(** What an owner does to its side; the session that creates a stream sends a window update. *)
Inductive side_op (x : side) : side → Prop :=
| so_read n : 0 <= n →
    side_op x (mkSide (poll_read n (sd_h x)).1 (sd_wr x) (sd_rd x ++ read_bytes (poll_read n (sd_h x)).2))
| so_write cx buf :
    side_op x (mkSide (poll_write cx buf (sd_h x)).1
      (sd_wr x ++ written buf (poll_write cx buf (sd_h x)).2) (sd_rd x))
| so_shutdown : side_op x (mkSide (poll_shutdown (sd_h x)).1 (sd_wr x) (sd_rd x))
| so_drop : side_op x (mkSide (drop_handle (sd_h x)).1 (sd_wr x) (sd_rd x))
| so_update : side_op x (mkSide (send_window_update (sd_h x)).1 (sd_wr x) (sd_rd x)).

Inductive sys_step : sys → sys → Prop :=
| ss_op_a a b ab ba a' : side_op a a' →
    sys_step (mkSys a b ab ba) (mkSys a' b (ab ++ new_frames (sd_h a) (sd_h a')) ba)
| ss_op_b a b ab ba b' : side_op b b' →
    sys_step (mkSys a b ab ba) (mkSys a b' ab (ba ++ new_frames (sd_h b) (sd_h b')))
| ss_deliver_b a b f ab ba fr : recv_queue fr = queue (sd_h b) ++ [f] →
    sys_step (mkSys a b (f :: ab) ba)
      (mkSys a (mkSide (set_frame_receiver fr (sd_h b)) (sd_wr b) (sd_rd b)) ab ba)
| ss_deliver_a a b f ab ba fr : recv_queue fr = queue (sd_h a) ++ [f] →
    sys_step (mkSys a b ab (f :: ba))
      (mkSys (mkSide (set_frame_receiver fr (sd_h a)) (sd_wr a) (sd_rd a)) b ab ba).

(** ** Operations that send no data *)

Definition open (s : SH) : Prop := us_is_closed (s_event_sender s) = false.

Definition quiet (base : list StreamEvent) (s : SH) : Prop :=
  open s ∧ ∃ evs, sent s = base ++ evs ∧ payload (ev_frames evs) = [].

Lemma payload_app l k : payload (l ++ k) = payload l ++ payload k.
Proof. unfold payload. by rewrite map_app, concat_app. Qed.

Section Quiet.
Context (base : list StreamEvent).

Lemma quiet_frame {E} (f : SH → SH) :
  (∀ s, s_event_sender (f s) = s_event_sender s) → keeps (quiet base) (modify f : M SH E unit).
Proof.
  intros Hf. apply keeps_modify. intros s (H1 & H2). unfold quiet, open, sent in *. by rewrite Hf.
Qed.

Lemma quiet_event ev :
  match ev with EvFrame f => payload [f] = [] | _ => True end →
  keeps (quiet base) (unbound_send_event ev : M SH Error unit).
Proof.
  intros Hev s (H1 & evs & H2 & H3).
  destruct (send_event_spec ev s) as (es & ok & -> & Hs & Hc & _). unfold open, sent in *.
  split; [unfold open; sh_simpl; congruence|].
  exists (evs ++ if ok then [ev] else []). unfold sent. sh_simpl.
  rewrite Hs, H2, app_assoc. split; [done|]. rewrite ev_frames_app, payload_app, H3.
  by destruct ok, ev.
Qed.

Hint Extern 1 (keeps (quiet base) (unbound_send_event _)) => apply quiet_event; done : keeps.
Hint Extern 1 (keeps (quiet base) (modify _)) => apply quiet_frame; by intros [] : keeps.

Lemma quiet_recv_frames_loop n : keeps (quiet base) (recv_frames_loop n : M SH Error unit).
Proof.
  induction n; cbn [recv_frames_loop]; [eauto with keeps|].
  unfold handle_frame, handle_window_update, handle_data, process_flags. keeps_walk.
Qed.
Hint Resolve quiet_recv_frames_loop : keeps.

Lemma quiet_poll_read n : keeps (quiet base) (poll_read n : M SH IoErrorKind (Poll bytes)).
Proof.
  unfold poll_read, check_self_state, recv_frames, send_go_away, send_window_update, get_flags.
  keeps_walk.
Qed.

Lemma quiet_poll_shutdown : keeps (quiet base) (poll_shutdown : M SH IoErrorKind (Poll unit)).
Proof. unfold poll_shutdown, close, send_close, unbound_send_frame, get_flags. keeps_walk. Qed.

Lemma quiet_drop_handle : keeps (quiet base) (drop_handle : M SH IoErrorKind unit).
Proof. unfold drop_handle, get_flags. keeps_walk. Qed.

Lemma quiet_update : keeps (quiet base) (send_window_update : M SH Error unit).
Proof. unfold send_window_update, get_flags. keeps_walk. Qed.
End Quiet.

Lemma quiet_start (s : SH) : open s → quiet (sent s) s.
Proof. intros. split; [done|]. exists []. by rewrite app_nil_r. Qed.

Lemma quiet_payload (s s' : SH) : quiet (sent s) s' → open s' ∧ payload (new_frames s s') = [].
Proof.
  intros (H1 & evs & H2 & H3). split; [done|]. unfold new_frames. by rewrite H2, drop_app_length.
Qed.

(** ** Operations that read nothing *)

Definition unread_is (u : bytes) (s : SH) : Prop := unread s = u.

Lemma unread_event u ev : keeps (unread_is u) (unbound_send_event ev : M SH Error unit).
Proof. intros s Hs. unfold unbound_send_event. by destruct (unbounded_send _ _). Qed.

Lemma unread_frame {E} u (f : SH → SH) :
  (∀ s, s_read_buf (f s) = s_read_buf s ∧ s_frame_receiver (f s) = s_frame_receiver s) →
  keeps (unread_is u) (modify f : M SH E unit).
Proof.
  intros Hf. apply keeps_modify. intros s. unfold unread_is, unread, queue.
  by destruct (Hf s) as [-> ->].
Qed.

Hint Resolve unread_event : keeps.
Hint Extern 1 (keeps (unread_is _) (modify _)) => apply unread_frame; by intros [] : keeps.

Lemma unread_poll_write u cx buf : keeps (unread_is u) (poll_write cx buf : M SH IoErrorKind (Poll Z)).
Proof. unfold poll_write, send_data, unbound_send_frame, get_flags. keeps_walk. Qed.

Lemma unread_poll_shutdown u : keeps (unread_is u) (poll_shutdown : M SH IoErrorKind (Poll unit)).
Proof. unfold poll_shutdown, close, send_close, unbound_send_frame, get_flags. keeps_walk. Qed.

Lemma unread_drop_handle u : keeps (unread_is u) (drop_handle : M SH IoErrorKind unit).
Proof. unfold drop_handle, get_flags. keeps_walk. Qed.

Lemma unread_update u : keeps (unread_is u) (send_window_update : M SH Error unit).
Proof. unfold send_window_update, get_flags. keeps_walk. Qed.

(** ** The effect of an operation *)

Definition op_effect (x x' : side) : Prop :=
  let s := sd_h x in let s' := sd_h x' in let out := new_frames s s' in
  stream_inv s' ∧ open s' ∧
  (∃ cons, queue s = cons ++ queue s' ∧
    s_send_window s' + data_sum out <= s_send_window s + delta_sum cons ∧
    s_recv_window s + delta_sum out <= s_recv_window s' + data_sum cons) ∧
  Forall frame_out out ∧ sd_wr x' = sd_wr x ++ payload out ∧
  sd_rd x ++ unread s = sd_rd x' ++ unread s'.

Lemma op_effect_intro (x x' : side) :
  stream_inv (sd_h x') → flows (sd_h x) (sd_h x') → open (sd_h x') →
  sd_wr x' = sd_wr x ++ payload (new_frames (sd_h x) (sd_h x')) →
  sd_rd x ++ unread (sd_h x) = sd_rd x' ++ unread (sd_h x') → op_effect x x'.
Proof.
  intros Hi (c & p & F1 & F2 & F3 & F4 & F5 & F6 & F7) Ho Hw Hr.
  assert (new_frames (sd_h x) (sd_h x') = ev_frames p) as Hn
    by (unfold new_frames; by rewrite F2, drop_app_length).
  unfold op_effect. rewrite Hn in *. split; [done|]. split; [done|].
  split; [by exists c|]. done.
Qed.

Lemma op_effect_quiet (x : side) (s' : SH) rd :
  stream_inv s' → flows (sd_h x) s' → quiet (sent (sd_h x)) s' →
  sd_rd x ++ unread (sd_h x) = rd ++ unread s' → op_effect x (mkSide s' (sd_wr x) rd).
Proof.
  intros Hi Hf Hq Hr. apply quiet_payload in Hq as [Ho Hp].
  apply op_effect_intro; auto. cbn. by rewrite Hp, app_nil_r.
Qed.

Lemma write_effect (x : side) cx buf :
  stream_inv (sd_h x) → open (sd_h x) →
  op_effect x (mkSide (poll_write cx buf (sd_h x)).1
    (sd_wr x ++ written buf (poll_write cx buf (sd_h x)).2) (sd_rd x)).
Proof.
  intros Hs Ho. destruct (op_ok_poll_write cx buf (sd_h x) Hs) as (_ & Hi & Hf).
  apply op_effect_intro; auto; cbn [sd_h sd_wr sd_rd].
  - destruct (poll_write_run cx buf (sd_h x) Hs) as (es & ok & _ & _ & Hc & ->).
    unfold open in *. rewrite Ho in Hc. destruct (writable _); [|done]. destruct (_ =? 0); [done|]. by destruct ok.
  - f_equal. destruct (poll_write_run cx buf (sd_h x) Hs) as (es & ok & Hsent & _ & _ & ->).
    assert (∀ s', sent s' = sent (sd_h x) → payload (new_frames (sd_h x) s') = []) as Hnil.
    { intros s' E. unfold new_frames. by rewrite E, drop_all. }
    destruct (writable _); [|symmetry; by apply Hnil]. destruct (_ =? 0); [symmetry; by apply Hnil|].
    destruct ok; [|symmetry; apply Hnil; unfold sent in *; sh_simpl; by rewrite Hsent, app_nil_r].
    unfold new_frames. unfold sent at 2. sh_simpl. rewrite Hsent, drop_app_length. cbn.
    by rewrite app_nil_r.
  - f_equal. symmetry. by apply (unread_poll_write (unread (sd_h x)) cx buf).
Qed.

Lemma read_effect (x : side) n :
  stream_inv (sd_h x) → open (sd_h x) → honest_queue (sd_h x) → 0 <= n →
  op_effect x (mkSide (poll_read n (sd_h x)).1 (sd_wr x)
    (sd_rd x ++ read_bytes (poll_read n (sd_h x)).2)).
Proof.
  intros Hs Ho Hh Hn. destruct (op_ok_poll_read n (sd_h x) Hs) as (_ & Hi & Hf).
  apply op_effect_quiet; [done|done|by apply quiet_poll_read, quiet_start|].
  rewrite <- app_assoc. f_equal. pose proof (poll_read_spec n (sd_h x) Hs Hn) as Hp.
  unfold open in Ho. destruct (poll_read n (sd_h x)) as [s' [[d|]|[]|]]; cbn in Hp |- *;
    try (symmetry; apply Hp); try apply Hp; try done; congruence.
Qed.

Lemma side_op_effect x x' :
  side_op x x' → stream_inv (sd_h x) → open (sd_h x) → honest_queue (sd_h x) → op_effect x x'.
Proof.
  intros Hop Hs Ho Hh. destruct Hop.
  - by apply read_effect.
  - by apply write_effect.
  - destruct (op_ok_poll_shutdown (sd_h x) Hs) as (_ & Hi & Hf).
    apply op_effect_quiet; [done|done|by apply quiet_poll_shutdown, quiet_start|].
    f_equal. symmetry. by apply (unread_poll_shutdown (unread (sd_h x))).
  - destruct (op_ok_drop_handle (sd_h x) Hs) as (_ & Hi & Hf).
    apply op_effect_quiet; [done|done|by apply quiet_drop_handle, quiet_start|].
    f_equal. symmetry. by apply (unread_drop_handle (unread (sd_h x))).
  - destruct (op_ok_send_window_update (sd_h x) Hs) as (_ & Hi & Hf).
    apply op_effect_quiet; [done|done|by apply quiet_update, quiet_start|].
    f_equal. symmetry. by apply (unread_update (unread (sd_h x))).
Qed.

(** ** The invariant of the system *)

(** From [x] to [y]: the credit of the sender, what is under way in both directions, and the
    bytes. *)
Definition dir_inv (x y : side) (xy yx : list Frame) : Prop :=
  s_send_window (sd_h x) + data_sum xy + data_sum (queue (sd_h y)) + delta_sum yx
    + delta_sum (queue (sd_h x)) <= s_recv_window (sd_h y) ∧
  sd_rd y ++ unread (sd_h y) ++ payload xy = sd_wr x.

Definition node_inv (x : side) : Prop :=
  stream_inv (sd_h x) ∧ open (sd_h x) ∧ Forall frame_out (queue (sd_h x)).

Definition pair_inv (x y : side) (xy yx : list Frame) : Prop :=
  node_inv x ∧ node_inv y ∧ Forall frame_out xy ∧ Forall frame_out yx ∧
  dir_inv x y xy yx ∧ dir_inv y x yx xy.

Lemma pair_inv_sym x y xy yx : pair_inv x y xy yx → pair_inv y x yx xy.
Proof. unfold pair_inv. naive_solver. Qed.

Lemma frame_out_sums l : Forall frame_out l → 0 <= data_sum l ∧ 0 <= delta_sum l.
Proof. intros H. apply frame_in_sums. eapply Forall_impl; [exact H|by intros f [? _]]. Qed.

Lemma pair_honest x y xy yx : pair_inv x y xy yx → honest_queue (sd_h x).
Proof.
  intros ((I1 & O1 & Q1) & (I2 & O2 & Q2) & F1 & F2 & [D1 _] & [D2 _]).
  pose proof (frame_out_sums _ F1). pose proof (frame_out_sums _ F2).
  pose proof (frame_out_sums _ Q1). pose proof (frame_out_sums _ Q2).
  destruct I1 as (? & ? & ? & [? ?] & _). destruct I2 as (? & ? & ? & [? ?] & _).
  pose proof (len_nonneg (s_read_buf (sd_h x))). pose proof (len_nonneg (s_read_buf (sd_h y))).
  split_and!; [lia|lia|]. eapply Forall_impl; [exact Q1|by intros f [_ ?]].
Qed.

Lemma pair_op x y xy yx x' :
  pair_inv x y xy yx → side_op x x' →
  pair_inv x' y (xy ++ new_frames (sd_h x) (sd_h x')) yx.
Proof.
  intros HP Hop. pose proof (pair_honest _ _ _ _ HP) as Hh.
  destruct HP as ((I1 & O1 & Q1) & N2 & F1 & F2 & [D1 B1] & [D2 B2]).
  destruct (side_op_effect x x' Hop I1 O1 Hh) as (I' & O' & (c & Hq & W1 & W2) & Fo & Hw & Hr).
  rewrite Hq in *. apply Forall_app in Q1 as [_ Q1]. rewrite !sum_of_app in *.
  unfold pair_inv, node_inv, dir_inv. rewrite payload_app, !sum_of_app, Forall_app.
  split; [done|]. split; [done|]. split; [done|]. split; [done|]. split; (split; [lia|]).
  - by rewrite Hw, <- B1, !app_assoc.
  - by rewrite app_assoc, <- Hr, <- app_assoc.
Qed.

Lemma pair_deliver x y f xy yx fr :
  pair_inv x y (f :: xy) yx → recv_queue fr = queue (sd_h y) ++ [f] →
  pair_inv x (mkSide (set_frame_receiver fr (sd_h y)) (sd_wr y) (sd_rd y)) xy yx.
Proof.
  intros (N1 & (I2 & O2 & Q2) & F1 & F2 & [D1 B1] & [D2 B2]) Hq.
  apply Forall_cons in F1 as [Ff F1]. unfold pair_inv, node_inv, dir_inv, unread, queue in *.
  cbn [sd_h sd_wr sd_rd]. sh_simpl. rewrite Hq. rewrite !sum_of_cons in *.
  rewrite !sum_of_app, !sum_of_cons, !sum_of_nil.
  split; [done|]. split.
  { split; [|split; [done|by apply Forall_app; auto]].
    destruct I2 as (?&?&?&?&?&?). unfold stream_inv, queue. sh_simpl. rewrite Hq.
    split_and!; auto. apply Forall_app. split; [done|]. by repeat constructor; apply Ff. }
  split; [done|]. split; [done|]. split; (split; [lia|]); [|done].
  rewrite payload_app, <- B1, (payload_cons f xy). by rewrite <- !app_assoc.
Qed.

Definition sys_inv (s : sys) : Prop := pair_inv (sy_a s) (sy_b s) (sy_ab s) (sy_ba s).

Lemma sys_step_inv s s' : sys_step s s' → sys_inv s → sys_inv s'.
Proof.
  intros Hst HP. destruct Hst; unfold sys_inv in *; cbn [sy_a sy_b sy_ab sy_ba] in *.
  - by apply pair_op.
  - apply pair_inv_sym, pair_op; auto using pair_inv_sym.
  - by eapply pair_deliver.
  - apply pair_inv_sym. apply pair_inv_sym in HP. by eapply pair_deliver.
Qed.

Lemma sys_steps_inv s s' : rtc sys_step s s' → sys_inv s → sys_inv s'.
Proof. induction 1; eauto using sys_step_inv. Qed.

(** The two handles of a new stream: the opener and the side that saw the SYN, before
    [create_stream] sends their first window updates (the step [so_update]). The event channels
    are open, since the sessions of both ends run. *)
Definition sys_start (id mxa mxb : Z) (es : ES) (fr : FR) : option sys :=
  match StreamHandle_new id es fr Init mxa, StreamHandle_new id es fr SynReceived mxb with
  | Some a, Some b => Some (mkSys (mkSide a [] []) (mkSide b [] []) [] [])
  | _, _ => None
  end.

Lemma sys_start_inv id mxa mxb es fr s :
  sys_start id mxa mxb es fr = Some s → is_u32 id → recv_queue fr = [] →
  us_is_closed es = false →
  INITIAL_STREAM_WINDOW <= mxa < 2 ^ 32 → INITIAL_STREAM_WINDOW <= mxb < 2 ^ 32 → sys_inv s.
Proof.
  unfold sys_start. intros Hs Hid Hq Ho Ha Hb.
  destruct (StreamHandle_new id es fr Init mxa) as [a|] eqn:Ea; [|done].
  destruct (StreamHandle_new id es fr SynReceived mxb) as [b|] eqn:Eb; [|done].
  injection Hs as <-. pose proof (StreamHandle_new_inv _ _ _ _ _ _ Ea Hid Hq Ha).
  pose proof (StreamHandle_new_inv _ _ _ _ _ _ Eb Hid Hq Hb).
  unfold StreamHandle_new in Ea, Eb. cbn in Ea, Eb. injection Ea as <-. injection Eb as <-.
  unfold sys_inv, pair_inv, node_inv, dir_inv, open, unread, queue. cbn. rewrite Hq.
  split_and!; auto; try done.
Qed.

(** C2: in every reachable state of two connected handles, what one owner has read, followed
    by what waits in the peer's buffer, channel and wire, is exactly what the other owner's
    writes accepted: no byte is lost, duplicated or reordered, in either direction. The owners
    read, write, shut down and drop their handles, and window updates are sent at any time, the
    first ones of [create_stream] included; frames cross the wire in order. *)
Theorem stream_bytes_in_order id mxa mxb es fr s0 s :
  sys_start id mxa mxb es fr = Some s0 → is_u32 id → recv_queue fr = [] →
  us_is_closed es = false →
  INITIAL_STREAM_WINDOW <= mxa < 2 ^ 32 → INITIAL_STREAM_WINDOW <= mxb < 2 ^ 32 →
  rtc sys_step s0 s →
  sd_rd (sy_b s) ++ unread (sd_h (sy_b s)) ++ payload (sy_ab s) = sd_wr (sy_a s) ∧
  sd_rd (sy_a s) ++ unread (sd_h (sy_a s)) ++ payload (sy_ba s) = sd_wr (sy_b s).
Proof.
  intros Hs Hid Hq Ho Ha Hb Hr.
  assert (sys_inv s) as (_ & _ & _ & _ & [_ B1] & [_ B2])
    by eauto using sys_steps_inv, sys_start_inv.
  done.
Qed.

(** C8: flow control is consistent: in every reachable state of two connected handles no read
    reports a protocol violation (window exceeded, window overflow or a foreign frame type),
    and the bytes buffered, queued or under way to a side never exceed its maximal window. *)
Theorem flow_control_consistent id mxa mxb es fr s0 s n :
  sys_start id mxa mxb es fr = Some s0 → is_u32 id → recv_queue fr = [] →
  us_is_closed es = false →
  INITIAL_STREAM_WINDOW <= mxa < 2 ^ 32 → INITIAL_STREAM_WINDOW <= mxb < 2 ^ 32 →
  rtc sys_step s0 s → 0 <= n →
  let a := sd_h (sy_a s) in let b := sd_h (sy_b s) in
  (poll_read n a).2 ≠ RErr IoInvalidData ∧ (poll_read n b).2 ≠ RErr IoInvalidData ∧
  len (s_read_buf b) + data_sum (queue b) + data_sum (sy_ab s) <= s_max_recv_window b ∧
  len (s_read_buf a) + data_sum (queue a) + data_sum (sy_ba s) <= s_max_recv_window a.
Proof.
  intros Hs Hid Hq Ho Ha Hb Hr Hn a b.
  assert (sys_inv s) as HP by eauto using sys_steps_inv, sys_start_inv.
  pose proof (pair_honest _ _ _ _ HP) as Hha.
  pose proof (pair_honest _ _ _ _ (pair_inv_sym _ _ _ _ HP)) as Hhb.
  destruct HP as ((I1 & O1 & Q1) & (I2 & O2 & Q2) & F1 & F2 & [D1 _] & [D2 _]).
  fold a b in Hha, Hhb, I1, Q1, I2, Q2, D1, D2.
  pose proof (frame_out_sums _ F1). pose proof (frame_out_sums _ F2).
  pose proof (frame_out_sums _ Q1). pose proof (frame_out_sums _ Q2).
  pose proof (poll_read_spec n a I1 Hn) as Pa. pose proof (poll_read_spec n b I2 Hn) as Pb.
  destruct I1 as (? & ? & ? & [? ?] & _). destruct I2 as (? & ? & ? & [? ?] & _).
  split_and!; [| |lia|lia].
  - intros E. destruct (poll_read n a) as [s' r]. cbn in E. subst r. by apply Pa.
  - intros E. destruct (poll_read n b) as [s' r]. cbn in E. subst r. by apply Pb.
Qed.

End Flow.

(** ** A run *)

Definition demo_es : LogSender StreamEvent := mkLogSender [] false.
Definition demo_fr : QueueReceiver Frame := mkQueueReceiver [] false false.
Definition demo_start : sys (ES := LogSender StreamEvent) (FR := QueueReceiver Frame) :=
  let h st := mkStream 1 st INITIAL_STREAM_WINDOW INITIAL_STREAM_WINDOW INITIAL_STREAM_WINDOW []
                demo_es demo_fr None [] in
  mkSys (mkSide (h Init) [] []) (mkSide (h SynReceived) [] []) [] [].

(** [a] writes three bytes, the frame reaches [b], [b] reads two of them. *)
Definition demo_write : side := 
  let h := sd_h (sy_a demo_start) in let buf := map byte_of [1; 2; 3] in
  mkSide (poll_write 0%nat buf h).1 ([] ++ written buf (poll_write 0%nat buf h).2) [].
Definition demo_delivered : side :=
  let h := sd_h (sy_b demo_start) in
  mkSide (set_frame_receiver (mkQueueReceiver [new_data 1 1 (map byte_of [1; 2; 3])] false false) h) [] [].
Definition demo_read : side :=
  let h := sd_h demo_delivered in
  mkSide (poll_read 2 h).1 [] ([] ++ read_bytes (poll_read 2 h).2).
Definition demo_end := mkSys demo_write demo_read []
  ([] ++ new_frames (sd_h demo_delivered) (sd_h demo_read)).

Lemma demo_run : rtc sys_step demo_start demo_end.
Proof.
  eapply rtc_l; [eapply (ss_op_a _ _ _ _ demo_write), (so_write (sy_a demo_start) 0%nat (map byte_of [1; 2; 3]))|].
  eapply rtc_l; [eapply (ss_deliver_b _ _ (new_data 1 1 (map byte_of [1; 2; 3])) [] _
    (mkQueueReceiver [new_data 1 1 (map byte_of [1; 2; 3])] false false)); vm_compute; reflexivity|].
  apply rtc_once. eapply (ss_op_b _ demo_delivered _ _ demo_read), (so_read demo_delivered 2). lia.
Qed.

Lemma stream_bytes_in_order_witness :
  sd_rd demo_read ++ unread (sd_h demo_read) ++ [] = map byte_of [1; 2; 3].
Proof.
  apply (stream_bytes_in_order 1 INITIAL_STREAM_WINDOW INITIAL_STREAM_WINDOW demo_es demo_fr
    demo_start demo_end); [reflexivity|done..|apply demo_run].
Defined.

Lemma flow_control_consistent_witness :
  (poll_read 4 (sd_h demo_read)).2 ≠ RErr IoInvalidData.
Proof.
  apply (flow_control_consistent 1 INITIAL_STREAM_WINDOW INITIAL_STREAM_WINDOW demo_es demo_fr
    demo_start demo_end); [reflexivity|done..|apply demo_run|lia].
Defined.
