(* ===== verification/YamuxSession.v ===== *)
(** * The yamux session ([tentacle/yamux/src/session.rs], [control.rs])

    [Session]: sending frames in order, distributing received frames to the streams, opening
    and accepting streams, pings and keep-alive, go-away, and the poll loop. The framed
    transport, the channels and the timer are interfaces. *)

From Stdlib Require Import ZArith Lia Bool.
From stdpp Require Import base list gmap.
From S2P Require Import Prelude Channels YamuxFrame YamuxStream.

Open Scope Z_scope.

(** ** What the session uses *)

(** [tokio_util::codec::Framed] over the transport; [fr_sent] is the ghost list of the frames
    it accepted. *)
Class Framed (T IOE : Type) := {
  fr_poll_ready : T → T * Poll (IOE + unit);
  fr_start_send : T → Frame → T * (IOE + unit);
  fr_poll_flush : T → T * Poll (IOE + unit);
  fr_poll_next : T → T * Poll (option (IOE + Frame));
  fr_sent : T → list Frame;
}.
#[global] Hint Mode Framed ! - : typeclass_instances.

(** Only [start_send] accepts a frame; after a completed flush the sink is ready; the frames
    it yields are decoded ones. *)
Class FramedLaws (T IOE : Type) `{F : Framed T IOE} : Prop := {
  fr_ready_sent : ∀ t : T, fr_sent (fr_poll_ready t).1 = fr_sent t;
  fr_flush_sent : ∀ t : T, fr_sent (fr_poll_flush t).1 = fr_sent t;
  fr_next_sent : ∀ t : T, fr_sent (fr_poll_next t).1 = fr_sent t;
  fr_start_ok : ∀ (t t' : T) f, fr_start_send t f = (t', inr tt) → fr_sent t' = fr_sent t ++ [f];
  fr_start_err : ∀ (t t' : T) f e, fr_start_send t f = (t', inl e) → fr_sent t' = fr_sent t;
  fr_flush_ready : ∀ t t' : T, fr_poll_flush t = (t', Ready (inr tt)) → (fr_poll_ready t').2 ≠ Pending;
  fr_next_wf : ∀ (t t' : T) f,
    fr_poll_next t = (t', Ready (Some (inr f))) → header_wf (f_header f) ∧ body_ok f;
}.

(** [mpsc::channel(n)]: a fresh bounded channel. *)
Class NewChannel (S R : Type) := channel : Z → S * R.

Class NewChannelLaws (S R A : Type) `{NewChannel S R} `{BoundedSender S A} `{Receiver R A} : Prop := {
  channel_sent : ∀ n, bs_sent (channel n).1 = [];
  channel_queue : ∀ n, recv_queue (channel n).2 = [];
}.

(** A receiver whose channel cannot end: the session holds a sender of it itself. *)
Class LiveReceiver (R A : Type) `{Receiver R A} : Prop :=
  lr_live : ∀ r r' : R, recv_poll_next r ≠ (r', Ready None).

(** The event channel seen from both ends. The session keeps the receiver, so it is never
    closed. *)
Class EventChannelLaws (C A : Type) `{UnboundedSender C A} `{Receiver C A} : Prop := {
  ec_open : ∀ c : C, us_is_closed c = false;
  ec_send_queue : ∀ (c c' : C) (a : A),
    unbounded_send c a = (c', true) → recv_queue c' = recv_queue c ++ [a];
}.

(** The timer module: [interval(period)] and its [poll_next]. *)
Class Timer (T : Type) := {
  interval : Z → T;
  tm_poll_next : T → T * Poll (option unit);
}.

(** ** Data *)

(** Milliseconds. *)
Definition TIMEOUT : Z := 30 * 1000.

Inductive SessionType := Client | Server.

#[export] Instance SessionType_eq_dec : EqDecision SessionType.
Proof. solve_decision. Defined.

(** [control.rs]: a command carries the identity of its one-shot reply sender. *)
Inductive Command := OpenStream (tx : nat) | Shutdown (tx : nat).

Inductive Reply (H : Type) := RepOpen (r : Error + H) | RepShutdown.
Arguments RepOpen {H} r.
Arguments RepShutdown {H}.

(** The [io::Error]s of the session: the transport's, and the keep-alive timeout. *)
Inductive SessErr (IOE : Type) := SIo (e : IOE) | STimedOut.
Arguments SIo {IOE} e.
Arguments STimedOut {IOE}.

(** [ss_replies] and [ss_wakes] are ghost: the answers given through the one-shot senders of
    the commands, and how often the task woke itself. [ss_events] is the event channel: the
    session holds a sender and the receiver, the handles hold clones of the sender. *)
Record Session (FT EC FS FR CR TM : Type) := mkSession {
  ss_framed : FT;
  ss_eof : bool;
  ss_remote_go_away : bool;
  ss_local_go_away : bool;
  ss_next_stream_id : Z;
  ss_ty : SessionType;
  ss_config : Config;
  ss_pings : gmap Z Z;
  ss_ping_id : Z;
  ss_streams : gmap Z FS;
  ss_pending_streams : list (StreamHandle EC FR);
  ss_write_pending : list Frame;
  ss_read_pending : list Frame;
  ss_events : EC;
  ss_control_receiver : CR;
  ss_keepalive : option TM;
  ss_replies : list (nat * Reply (StreamHandle EC FR));
  ss_wakes : nat;
}.
Arguments mkSession {FT EC FS FR CR TM}.
Arguments ss_framed {FT EC FS FR CR TM}.
Arguments ss_eof {FT EC FS FR CR TM}.
Arguments ss_remote_go_away {FT EC FS FR CR TM}.
Arguments ss_local_go_away {FT EC FS FR CR TM}.
Arguments ss_next_stream_id {FT EC FS FR CR TM}.
Arguments ss_ty {FT EC FS FR CR TM}.
Arguments ss_config {FT EC FS FR CR TM}.
Arguments ss_pings {FT EC FS FR CR TM}.
Arguments ss_ping_id {FT EC FS FR CR TM}.
Arguments ss_streams {FT EC FS FR CR TM}.
Arguments ss_pending_streams {FT EC FS FR CR TM}.
Arguments ss_write_pending {FT EC FS FR CR TM}.
Arguments ss_read_pending {FT EC FS FR CR TM}.
Arguments ss_events {FT EC FS FR CR TM}.
Arguments ss_control_receiver {FT EC FS FR CR TM}.
Arguments ss_keepalive {FT EC FS FR CR TM}.
Arguments ss_replies {FT EC FS FR CR TM}.
Arguments ss_wakes {FT EC FS FR CR TM}.

Section Session.
Context {IOE FT EC FS FR CR TM : Type}.
Context `{Framed FT IOE} `{UnboundedSender EC StreamEvent} `{Receiver EC StreamEvent}.
Context `{BoundedSender FS Frame} `{Receiver FR Frame} `{NewChannel FS FR}.
Context `{Receiver CR Command} `{Timer TM}.

Abbreviation SH := (StreamHandle EC FR).
Abbreviation SS := (Session FT EC FS FR CR TM).
Abbreviation SM := (M SS (SessErr IOE)).

Definition put_framed (v : FT) (s : SS) : SS :=
  mkSession v (ss_eof s) (ss_remote_go_away s) (ss_local_go_away s) (ss_next_stream_id s)
    (ss_ty s) (ss_config s) (ss_pings s) (ss_ping_id s) (ss_streams s) (ss_pending_streams s)
    (ss_write_pending s) (ss_read_pending s) (ss_events s) (ss_control_receiver s)
    (ss_keepalive s) (ss_replies s) (ss_wakes s).
Definition put_eof (v : bool) (s : SS) : SS :=
  mkSession (ss_framed s) v (ss_remote_go_away s) (ss_local_go_away s) (ss_next_stream_id s)
    (ss_ty s) (ss_config s) (ss_pings s) (ss_ping_id s) (ss_streams s) (ss_pending_streams s)
    (ss_write_pending s) (ss_read_pending s) (ss_events s) (ss_control_receiver s)
    (ss_keepalive s) (ss_replies s) (ss_wakes s).
Definition put_remote_go_away (v : bool) (s : SS) : SS :=
  mkSession (ss_framed s) (ss_eof s) v (ss_local_go_away s) (ss_next_stream_id s) (ss_ty s)
    (ss_config s) (ss_pings s) (ss_ping_id s) (ss_streams s) (ss_pending_streams s)
    (ss_write_pending s) (ss_read_pending s) (ss_events s) (ss_control_receiver s)
    (ss_keepalive s) (ss_replies s) (ss_wakes s).
Definition put_local_go_away (v : bool) (s : SS) : SS :=
  mkSession (ss_framed s) (ss_eof s) (ss_remote_go_away s) v (ss_next_stream_id s) (ss_ty s)
    (ss_config s) (ss_pings s) (ss_ping_id s) (ss_streams s) (ss_pending_streams s)
    (ss_write_pending s) (ss_read_pending s) (ss_events s) (ss_control_receiver s)
    (ss_keepalive s) (ss_replies s) (ss_wakes s).
Definition put_next_stream_id (v : Z) (s : SS) : SS :=
  mkSession (ss_framed s) (ss_eof s) (ss_remote_go_away s) (ss_local_go_away s) v (ss_ty s)
    (ss_config s) (ss_pings s) (ss_ping_id s) (ss_streams s) (ss_pending_streams s)
    (ss_write_pending s) (ss_read_pending s) (ss_events s) (ss_control_receiver s)
    (ss_keepalive s) (ss_replies s) (ss_wakes s).
Definition put_pings (v : gmap Z Z) (s : SS) : SS :=
  mkSession (ss_framed s) (ss_eof s) (ss_remote_go_away s) (ss_local_go_away s)
    (ss_next_stream_id s) (ss_ty s) (ss_config s) v (ss_ping_id s) (ss_streams s)
    (ss_pending_streams s) (ss_write_pending s) (ss_read_pending s) (ss_events s)
    (ss_control_receiver s) (ss_keepalive s) (ss_replies s) (ss_wakes s).
Definition put_ping_id (v : Z) (s : SS) : SS :=
  mkSession (ss_framed s) (ss_eof s) (ss_remote_go_away s) (ss_local_go_away s)
    (ss_next_stream_id s) (ss_ty s) (ss_config s) (ss_pings s) v (ss_streams s)
    (ss_pending_streams s) (ss_write_pending s) (ss_read_pending s) (ss_events s)
    (ss_control_receiver s) (ss_keepalive s) (ss_replies s) (ss_wakes s).
Definition put_streams (v : gmap Z FS) (s : SS) : SS :=
  mkSession (ss_framed s) (ss_eof s) (ss_remote_go_away s) (ss_local_go_away s)
    (ss_next_stream_id s) (ss_ty s) (ss_config s) (ss_pings s) (ss_ping_id s) v
    (ss_pending_streams s) (ss_write_pending s) (ss_read_pending s) (ss_events s)
    (ss_control_receiver s) (ss_keepalive s) (ss_replies s) (ss_wakes s).
Definition put_pending_streams (v : list (StreamHandle EC FR)) (s : SS) : SS :=
  mkSession (ss_framed s) (ss_eof s) (ss_remote_go_away s) (ss_local_go_away s)
    (ss_next_stream_id s) (ss_ty s) (ss_config s) (ss_pings s) (ss_ping_id s) (ss_streams s) v
    (ss_write_pending s) (ss_read_pending s) (ss_events s) (ss_control_receiver s)
    (ss_keepalive s) (ss_replies s) (ss_wakes s).
Definition put_write_pending (v : list Frame) (s : SS) : SS :=
  mkSession (ss_framed s) (ss_eof s) (ss_remote_go_away s) (ss_local_go_away s)
    (ss_next_stream_id s) (ss_ty s) (ss_config s) (ss_pings s) (ss_ping_id s) (ss_streams s)
    (ss_pending_streams s) v (ss_read_pending s) (ss_events s) (ss_control_receiver s)
    (ss_keepalive s) (ss_replies s) (ss_wakes s).
Definition put_read_pending (v : list Frame) (s : SS) : SS :=
  mkSession (ss_framed s) (ss_eof s) (ss_remote_go_away s) (ss_local_go_away s)
    (ss_next_stream_id s) (ss_ty s) (ss_config s) (ss_pings s) (ss_ping_id s) (ss_streams s)
    (ss_pending_streams s) (ss_write_pending s) v (ss_events s) (ss_control_receiver s)
    (ss_keepalive s) (ss_replies s) (ss_wakes s).
Definition put_events (v : EC) (s : SS) : SS :=
  mkSession (ss_framed s) (ss_eof s) (ss_remote_go_away s) (ss_local_go_away s)
    (ss_next_stream_id s) (ss_ty s) (ss_config s) (ss_pings s) (ss_ping_id s) (ss_streams s)
    (ss_pending_streams s) (ss_write_pending s) (ss_read_pending s) v (ss_control_receiver s)
    (ss_keepalive s) (ss_replies s) (ss_wakes s).
Definition put_control_receiver (v : CR) (s : SS) : SS :=
  mkSession (ss_framed s) (ss_eof s) (ss_remote_go_away s) (ss_local_go_away s)
    (ss_next_stream_id s) (ss_ty s) (ss_config s) (ss_pings s) (ss_ping_id s) (ss_streams s)
    (ss_pending_streams s) (ss_write_pending s) (ss_read_pending s) (ss_events s) v
    (ss_keepalive s) (ss_replies s) (ss_wakes s).
Definition put_keepalive (v : option TM) (s : SS) : SS :=
  mkSession (ss_framed s) (ss_eof s) (ss_remote_go_away s) (ss_local_go_away s)
    (ss_next_stream_id s) (ss_ty s) (ss_config s) (ss_pings s) (ss_ping_id s) (ss_streams s)
    (ss_pending_streams s) (ss_write_pending s) (ss_read_pending s) (ss_events s)
    (ss_control_receiver s) v (ss_replies s) (ss_wakes s).
Definition put_replies (v : list (nat * Reply (StreamHandle EC FR))) (s : SS) : SS :=
  mkSession (ss_framed s) (ss_eof s) (ss_remote_go_away s) (ss_local_go_away s)
    (ss_next_stream_id s) (ss_ty s) (ss_config s) (ss_pings s) (ss_ping_id s) (ss_streams s)
    (ss_pending_streams s) (ss_write_pending s) (ss_read_pending s) (ss_events s)
    (ss_control_receiver s) (ss_keepalive s) v (ss_wakes s).
Definition put_wakes (v : nat) (s : SS) : SS :=
  mkSession (ss_framed s) (ss_eof s) (ss_remote_go_away s) (ss_local_go_away s)
    (ss_next_stream_id s) (ss_ty s) (ss_config s) (ss_pings s) (ss_ping_id s) (ss_streams s)
    (ss_pending_streams s) (ss_write_pending s) (ss_read_pending s) (ss_events s)
    (ss_control_receiver s) (ss_keepalive s) (ss_replies s) v.

(** *** Construction *)

(** [Session::new]; [None] is its [assert!]. *)
Definition Session_new (framed : FT) (ec : EC) (cr : CR) (config : Config) (ty : SessionType)
    : option SS :=
  if bool_decide (INITIAL_STREAM_WINDOW <= max_stream_window_size config) then
    Some (mkSession framed false false false
            (match ty with Client => 1 | Server => 2 end) ty config ∅ 0 ∅ [] [] [] ec cr
            (if enable_keepalive config then Some (interval (keepalive_interval config)) else None)
            [] 0)
  else None.

Definition is_dead (s : SS) : bool :=
  ss_remote_go_away s && ss_local_go_away s || ss_eof s.

(** *** The sink *)

Definition sink_result {A B} (r : SS * Poll (IOE + A)) (k : Poll A → B) : SS * res (SessErr IOE) B :=
  match r with
  | (s, Ready (inr a)) => (s, ROk (k (Ready a)))
  | (s, Ready (inl e)) => (s, RErr (SIo e))
  | (s, Pending) => (s, ROk (k Pending))
  end.

Definition sink_poll_ready : SM (Poll unit) := λ s,
  let '(t, p) := fr_poll_ready (ss_framed s) in sink_result (put_framed t s, p) (λ p, p).

Definition sink_start_send (f : Frame) : SM unit := λ s,
  let '(t, r) := fr_start_send (ss_framed s) f in sink_result (put_framed t s, Ready r) (λ _, tt).

(** [poll_complete]: whether there is work left. *)
Definition poll_complete : SM bool := λ s,
  let '(t, p) := fr_poll_flush (ss_framed s) in
  sink_result (put_framed t s, p) (λ p, match p with Ready _ => false | Pending => true end).

(** The loop of [send_all], one unit of fuel per turn. *)
Fixpoint send_all_loop (fuel : nat) : SM bool :=
  match fuel with
  | O => panic
  | S fuel' =>
      wp ← gets ss_write_pending;
      match wp with
      | [] => poll_complete ;; mret false
      | frame :: rest =>
          modify (put_write_pending rest) ;;
          dead ← gets is_dead;
          if dead : bool then poll_complete ;; mret false else
          p ← sink_poll_ready;
          match p with
          | Ready _ => sink_start_send frame ;; send_all_loop fuel'
          | Pending =>
              modify (put_write_pending (frame :: rest)) ;;
              c ← poll_complete;
              if c : bool then mret true else send_all_loop fuel'
          end
      end
  end.

(** A turn that does not take a frame off is followed by one that does. *)
Definition send_all : SM bool :=
  wp ← gets ss_write_pending;
  send_all_loop (S (2 * length wp)).

Definition push_write (frame : Frame) : SM unit :=
  modify (λ s, put_write_pending (ss_write_pending s ++ [frame]) s).

Definition push_read (frame : Frame) : SM unit :=
  modify (λ s, put_read_pending (ss_read_pending s ++ [frame]) s).

Definition send_frame (frame : Frame) : SM unit :=
  push_write frame ;; send_all ;; mret tt.

(** *** Pings and go-away *)

Definition send_ping (ping_id : option Z) : SM Z :=
  match ping_id with
  | Some id => send_frame (new_ping (Flags_from Ack) id) ;; mret id
  | None =>
      cur ← gets ss_ping_id;
      let id := wrapping_add 32 cur 1 in
      modify (put_ping_id id) ;;
      send_frame (new_ping (Flags_from Syn) id) ;; mret id
  end.

Definition send_go_away_with_code (code : GoAwayCode) : SM unit :=
  modify (put_write_pending []) ;;
  send_frame (new_go_away code) ;;
  modify (put_local_go_away true) ;;
  cfg ← gets ss_config;
  modify (put_keepalive (Some (tm_poll_next (interval (connection_write_timeout cfg))).1)).

Definition send_go_away_normal : SM unit := send_go_away_with_code Normal.

Definition shutdown : SM unit :=
  dead ← gets is_dead;
  if dead : bool then mret tt else
  modify (put_write_pending []) ;; send_go_away_normal.

(** [Instant::now] is read as [now]; times are milliseconds. *)
Definition keep_alive (now ping_at : Z) : SM unit :=
  pings ← gets ss_pings;
  if existsb (λ p, TIMEOUT <? Z.max 0 (now - snd p)) (map_to_list pings) then throw STimedOut else
  ping_id ← send_ping None;
  modify (λ s, put_pings (<[ping_id := ping_at]> (ss_pings s)) s).

Definition handle_ping (frame : Frame) : SM unit :=
  if Flags_contains (f_flags frame) Syn then send_ping (Some (f_length frame)) ;; mret tt
  else if Flags_contains (f_flags frame) Ack then
    modify (λ s, put_pings
      (filter (λ p, f_length frame <= p.1) (delete (f_length frame) (ss_pings s))) s)
  else mret tt.

Definition handle_go_away (frame : Frame) : SM unit :=
  let close : SM unit :=
    modify (put_remote_go_away true) ;;
    modify (put_write_pending []) ;;
    l ← gets ss_local_go_away;
    if l : bool then mret tt else send_go_away_normal in
  match GoAwayCode_from (f_length frame) with
  | Normal => close
  | ProtocolError => close
  | InternalError => close
  end.

(** *** Streams *)

(** The fresh handle sends its first window update through the event channel; the error of
    that send is only logged. The handle keeps a clone of the sender. *)
Definition create_stream (stream_id : option Z) : M SS Error SH :=
  is_ ← (match stream_id with
        | Some id => mret (id, SynReceived)
        | None =>
            next ← gets ss_next_stream_id;
            n ← ok_or StreamsExhausted (checked_add 32 next 2);
            modify (put_next_stream_id n) ;;
            mret (next, Init)
        end : M SS Error (Z * StreamState));
  let '(id, state) := is_ in
  let '(frame_sender, frame_receiver) := channel 8 in
  streams ← gets ss_streams;
  match streams !! id with
  | Some _ => throw DuplicateStream
  | None =>
      modify (put_streams (<[id := frame_sender]> streams)) ;;
      ec ← gets ss_events;
      cfg ← gets ss_config;
      stream ← or_panic (StreamHandle_new id ec frame_receiver state (max_stream_window_size cfg));
      match send_window_update stream with
      | (_, RPanic) => panic
      | (stream', _) => modify (put_events (s_event_sender stream')) ;; mret stream'
      end
  end.

Definition open_stream : M SS Error SH :=
  dead ← gets is_dead;
  if dead : bool then throw SessionShutdown else
  r ← gets ss_remote_go_away;
  if r : bool then throw RemoteGoAway else create_stream None.

(** The end of a turn of [distribute_to_substream]: the frame goes to its stream, the result
    is the set of blocked streams. *)
Definition deliver_frame (blocked : gset Z) (frame : Frame) : SM (gset Z) :=
  let id := f_stream_id frame in
  streams ← gets ss_streams;
  match streams !! id with
  | None => mret blocked
  | Some fs =>
      let '(fs1, p) := bs_poll_ready fs in
      modify (put_streams (<[id := fs1]> streams)) ;;
      match p with
      | Ready true =>
          let '(fs2, r) := bs_try_send fs1 frame in
          modify (put_streams (<[id := fs2]> streams)) ;;
          match r with
          | SendOk => mret blocked
          | SendFull back => push_read back ;; mret ({[id]} ∪ blocked)
          | SendDisconnected => modify (put_streams (delete id streams)) ;; mret blocked
          end
      | Pending => push_read frame ;; mret ({[id]} ∪ blocked)
      | Ready false => modify (put_streams (delete id streams)) ;; mret blocked
      end
  end.

(** The handling of a SYN: [true] when the turn goes on, [false] for [return Ok(())]. *)
Definition accept_syn (id : Z) : SM bool :=
  l ← gets ss_local_go_away;
  if l : bool then
    send_frame (new_window_update (Flags_from Rst) id 0) ;; mret false
  else
    streams ← gets ss_streams;
    pending ← gets ss_pending_streams;
    cfg ← gets ss_config;
    if (Z.of_nat (size streams) <? max_stream_count cfg) && (len pending <? accept_backlog cfg) then
      r ← catch (create_stream (Some id));
      match r with
      | inr stream =>
          modify (put_pending_streams (pending ++ [stream])) ;; mret true
      | inl _ => send_go_away_with_code ProtocolError ;; mret false
      end
    else
      push_write (new_window_update (Flags_add (Flags_from Ack) Rst) id 0) ;; mret true.

Fixpoint distribute_loop (blocked : gset Z) (buf : list Frame) : SM unit :=
  match buf with
  | [] => mret tt
  | frame :: buf' =>
      if bool_decide (f_stream_id frame ∈ blocked) then
        push_read frame ;; distribute_loop blocked buf'
      else
        go ← (if Flags_contains (f_flags frame) Syn then accept_syn (f_stream_id frame)
              else mret true);
        if go : bool then
          blocked' ← deliver_frame blocked frame;
          distribute_loop blocked' buf'
        else mret tt
  end.

Definition distribute_to_substream : SM unit :=
  buf ← gets ss_read_pending;
  modify (put_read_pending []) ;;
  distribute_loop ∅ buf.

Definition flush : SM unit :=
  rp ← gets ss_read_pending;
  wp ← gets ss_write_pending;
  if negb (is_empty rp) || negb (is_empty wp) then
    send_all ;; distribute_to_substream
  else mret tt.

(** *** Incoming frames, events and commands *)

Definition handle_stream_message (frame : Frame) : SM unit :=
  push_read frame ;; distribute_to_substream.

Definition sess_handle_frame (frame : Frame) : SM unit :=
  match f_ty frame with
  | Data | WindowUpdate => handle_stream_message frame
  | Ping => handle_ping frame
  | GoAway => handle_go_away frame
  end.

(** The result tells whether the poll was [Pending]. *)
Definition sess_recv_frames : SM bool :=
  t ← gets ss_framed;
  let '(t', p) := fr_poll_next t in
  modify (put_framed t') ;;
  match p with
  | Ready (Some (inr frame)) => sess_handle_frame frame ;; mret false
  | Ready None => modify (put_eof true) ;; mret false
  | Pending => mret true
  | Ready (Some (inl e)) => throw (SIo e)
  end.

Definition handle_event (event : StreamEvent) : SM unit :=
  match event with
  | EvFrame frame => send_frame frame
  | EvClosed id => modify (λ s, put_streams (delete id (ss_streams s)) s)
  | EvGoAway => send_go_away_with_code ProtocolError
  end.

Definition recv_events : SM bool :=
  ec ← gets ss_events;
  let '(ec', p) := recv_poll_next ec in
  modify (put_events ec') ;;
  match p with
  | Ready (Some event) => handle_event event ;; mret false
  | Ready None => panic
  | Pending => mret true
  end.

Definition reply (tx : nat) (r : Reply SH) : SM unit :=
  modify (λ s, put_replies (ss_replies s ++ [(tx, r)]) s).

Definition control_poll : SM bool :=
  cr ← gets ss_control_receiver;
  let '(cr', p) := recv_poll_next cr in
  modify (put_control_receiver cr') ;;
  match p with
  | Ready (Some (OpenStream tx)) => r ← catch open_stream; reply tx (RepOpen r) ;; mret false
  | Ready (Some (Shutdown tx)) => shutdown ;; reply tx RepShutdown ;; mret false
  | Ready None => panic
  | Pending => mret true
  end.

(** *** [Stream::poll_next]

    [Ready None] ends the session, [Ready (Some h)] hands out an accepted stream; the error of
    the monad is [Ready(Some(Err(e)))]. *)

Definition poll_keepalive (now : Z) : SM unit :=
  k ← gets ss_keepalive;
  match k with
  | None => mret tt
  | Some tm =>
      let '(tm', p) := tm_poll_next tm in
      modify (put_keepalive (Some tm')) ;;
      match p with
      | Ready (Some _) =>
          l ← gets ss_local_go_away;
          if l : bool then modify (put_remote_go_away true) else keep_alive now now
      | _ => mret tt
      end
  end.

Fixpoint poll_loop (n : nat) (need_wake : bool) : SM (Poll (option SH)) :=
  match n with
  | O =>
      (if need_wake then modify (λ s, put_wakes (S (ss_wakes s)) s) else mret tt) ;; mret Pending
  | S n' =>
      dead ← gets is_dead;
      if dead : bool then mret (Ready None) else
      flush ;;
      poll_complete ;;
      pending ← gets ss_pending_streams;
      match pending with
      | stream :: rest => modify (put_pending_streams rest) ;; mret (Ready (Some stream))
      | [] =>
          p1 ← control_poll;
          p2 ← sess_recv_frames;
          p3 ← recv_events;
          if p1 && p2 && p3 then mret Pending else poll_loop n' true
      end
  end.

Definition sess_poll_next (now : Z) : SM (Poll (option SH)) :=
  dead ← gets is_dead;
  if dead : bool then mret (Ready None) else
  poll_keepalive now ;;
  poll_loop 16 false.

End Session.
