(* ===== verification/YamuxSessionProofs.v ===== *)
(** * Properties of the yamux session

    Frames are sent in order; frames reach each stream in order; stream identifiers are fresh
    and of the right parity; the backlog bounds hold; go-away and pings; no operation panics. *)

From Stdlib Require Import ZArith Lia Bool.
From stdpp Require Import base list gmap.
From S2P Require Import Prelude Channels YamuxFrame YamuxStream YamuxStreamProofs YamuxSession.

Open Scope Z_scope.

(** Reduces the projections of updated sessions, and nothing else. *)
Ltac ss_simpl :=
    cbn [put_framed put_eof put_remote_go_away put_local_go_away put_next_stream_id
       put_pings put_ping_id put_streams put_pending_streams put_write_pending
       put_read_pending put_events put_control_receiver put_keepalive put_replies
       put_wakes ss_framed ss_eof ss_remote_go_away ss_local_go_away ss_next_stream_id
       ss_ty ss_config ss_pings ss_ping_id ss_streams ss_pending_streams ss_write_pending
       ss_read_pending ss_events ss_control_receiver ss_keepalive ss_replies ss_wakes fst
       snd] in *.

Section Proofs.
Context {IOE FT EC FS FR CR TM : Type}.
Context `{F : Framed FT IOE} `{US : UnboundedSender EC StreamEvent} `{RE : Receiver EC StreamEvent}.
Context `{BS : BoundedSender FS Frame} `{RC : Receiver FR Frame} `{NC : NewChannel FS FR}.
Context `{RCmd : Receiver CR Command} `{T : Timer TM}.
Context `{FL : !FramedLaws FT IOE} `{USL : !UnboundedSenderLaws EC StreamEvent}.
Context `{REL : !ReceiverLaws EC StreamEvent} `{ECL : !EventChannelLaws EC StreamEvent}.
Context `{BSL : !BoundedSenderLaws FS Frame} `{RCL : !ReceiverLaws FR Frame}.
Context `{NCL : !NewChannelLaws FS FR Frame}.
Context `{EL : !LiveReceiver EC StreamEvent} `{CL : !LiveReceiver CR Command}.

Abbreviation SH := (StreamHandle EC FR).
Abbreviation SS := (Session FT EC FS FR CR TM).
Abbreviation SM := (M SS (SessErr IOE)).

(** ** Sending *)

(** The frames handed to the transport, and those that still wait, in order. *)
Definition out (s : SS) : list Frame := fr_sent (ss_framed s) ++ ss_write_pending s.

(** [send_all] touches the sink and the pending frames only; it loses at most the frame on
    which the transport failed, and reports [true] only when the flush is blocked. *)
Definition send_post (s : SS) (p : SS * res (SessErr IOE) bool) : Prop :=
  ∃ t w, p.1 = put_framed t (put_write_pending w s) ∧
  match p.2 with
  | ROk b => fr_sent t ++ w = out s ∧ (b = false → w = [])
  | RErr e => ∃ lost, fr_sent t ++ lost ++ w = out s ∧ (length lost <= 1)%nat
  | RPanic => False
  end.

Lemma put_same (s : SS) : put_framed (ss_framed s) (put_write_pending (ss_write_pending s) s) = s.
Proof. by destruct s. Qed.

Lemma poll_complete_spec (s : SS) :
  ∃ t, (poll_complete s).1 = put_framed t s ∧ fr_sent t = fr_sent (ss_framed s) ∧
  match (poll_complete s).2 with
  | ROk false => (fr_poll_ready t).2 ≠ Pending | RPanic => False | _ => True end.
Proof.
  unfold poll_complete. pose proof (fr_flush_sent (ss_framed s)) as Hs.
  destruct (fr_poll_flush (ss_framed s)) as [t p] eqn:E. exists t. cbn in Hs.
  destruct p as [[e|[]]|]; cbn; split_and!; auto. by eapply fr_flush_ready.
Qed.

Lemma send_post_trans (s s1 : SS) t w p :
  s1 = put_framed t (put_write_pending w s) → out s1 = out s → send_post s1 p → send_post s p.
Proof.
  intros -> Ho (t2 & w2 & Hs & Hr). exists t2, w2. rewrite Ho in Hr. by destruct s.
Qed.

(** A flush at the end of [send_all]. *)
Lemma send_post_flush (s : SS) :
  ss_write_pending s = [] → send_post s ((poll_complete ;; mret false : SM bool) s).
Proof.
  intros Hw. destruct (poll_complete_spec s) as (t & H1 & H2 & H3).
  unfold mbind, M_bind. destruct (poll_complete s) as [s1 r]. cbn in H1, H3. subst s1.
  exists t, []. unfold out. rewrite Hw, <- H2.
  destruct r as [b|e|]; cbn; (split; [by destruct s; cbn in *; subst|]); try done.
  exists []. split; [done|cbn; lia].
Qed.

Lemma send_all_loop_spec fuel (s : SS) :
  is_dead s = false →
  let n := (2 * length (ss_write_pending s))%nat in
  (n < fuel ∨ (fr_poll_ready (ss_framed s)).2 ≠ Pending ∧ n <= fuel ∧ 0 < fuel)%nat →
  send_post s (send_all_loop fuel s).
Proof.
  revert s. induction fuel as [|fuel IH]; intros s Hd n Hf; [lia|].
  cbn [send_all_loop]. unfold mbind at 1, M_bind at 1. cbn [gets].
  destruct (ss_write_pending s) as [|frame rest] eqn:Hw; [by apply send_post_flush|].
  unfold mbind, M_bind. cbn [modify gets]. change (is_dead (put_write_pending rest s)) with (is_dead s).
  rewrite Hd. unfold sink_poll_ready. change (ss_framed (put_write_pending rest s)) with (ss_framed s).
  pose proof (fr_ready_sent (ss_framed s)) as Hrs.
  destruct (fr_poll_ready (ss_framed s)) as [t [[e|[]]|]] eqn:Er; cbn [fst snd sink_result] in *.
  - exists t, rest. split; [done|]. cbn. exists [frame]. unfold out. by rewrite Hrs, Hw.
  - unfold sink_start_send. ss_simpl.
    destruct (fr_start_send t frame) as [t' [e|[]]] eqn:Es; cbn [sink_result].
    + apply fr_start_err in Es. exists t', rest. split; [done|]. cbn. exists [frame].
      unfold out. by rewrite Es, Hrs, Hw.
    + apply fr_start_ok in Es. eapply (send_post_trans _ _ t' rest); [reflexivity| |].
      * unfold out. ss_simpl. by rewrite Es, Hrs, Hw, <- app_assoc.
      * apply IH; [done|]. ss_simpl. left. cbn in n. lia.
  - set (s1 := put_write_pending (frame :: rest) (put_framed t (put_write_pending rest s))).
    assert (s1 = put_framed t (put_write_pending (ss_write_pending s) s)) as Hs1 by (by rewrite Hw).
    assert (out s1 = out s) as Ho by (unfold out, s1; ss_simpl; by rewrite Hrs, Hw).
    destruct Hf as [Hf|[Hf _]]; [|by contradict Hf].
    eapply (send_post_trans _ s1 t); [exact Hs1|done|].
    destruct (poll_complete_spec s1) as (t2 & H1 & H2 & H3).
    destruct (poll_complete s1) as [s2 r]. cbn in H1, H3. subst s2.
    assert (out (put_framed t2 s1) = out s1) as Ho2 by (unfold out; ss_simpl; by rewrite H2).
    destruct r as [[]|e|]; [| | |done].
    + exists t2, (frame :: rest). split; [done|]. cbn. unfold out in *. by rewrite <- Ho2.
    + eapply (send_post_trans _ (put_framed t2 s1) t2 (frame :: rest)); [done|done|].
      apply IH; [done|]. right. ss_simpl. cbn in n. cbn. split; [done|lia].
    + exists t2, (frame :: rest). split; [done|]. exists []. unfold out in *. rewrite <- Ho2.
      split; [done|cbn; lia].
Qed.

Lemma send_all_spec (s : SS) : is_dead s = false → send_post s (send_all s).
Proof. intros Hd. apply send_all_loop_spec; [done|]. left. lia. Qed.

(** On a dead session one frame is dropped and the sink is flushed. *)
Lemma send_all_dead (s : SS) :
  is_dead s = true → ∃ t, (send_all s).1 = put_framed t (put_write_pending (tail (ss_write_pending s)) s)
    ∧ (send_all s).2 ≠ RPanic.
Proof.
  intros Hd. unfold send_all. unfold mbind at 1, M_bind at 1. cbn [gets send_all_loop].
  unfold mbind, M_bind. cbn [gets]. destruct (ss_write_pending s) as [|f rest] eqn:Hw; cbn [tail].
  - destruct (poll_complete_spec s) as (t & H1 & H2 & H3). exists t.
    destruct (poll_complete s) as [s1 [b|e|]]; cbn in *; subst; split; try done; destruct s; cbn in *; by subst.
  - cbn [modify gets]. change (is_dead (put_write_pending rest s)) with (is_dead s). rewrite Hd.
    destruct (poll_complete_spec (put_write_pending rest s)) as (t & H1 & H2 & H3). exists t.
    by destruct (poll_complete (put_write_pending rest s)) as [s1 [b|e|]]; cbn in *; subst.
Qed.

(** ** The invariant, and no panic *)

Definition sess_inv (s : SS) : Prop :=
  INITIAL_STREAM_WINDOW <= max_stream_window_size (ss_config s) < 2 ^ 32 ∧
  is_u32 (ss_next_stream_id s) ∧
  Z.odd (ss_next_stream_id s) = bool_decide (ss_ty s = Client) ∧
  len (ss_pending_streams s) <= Z.max 0 (accept_backlog (ss_config s)) ∧
  Forall frame_in (ss_read_pending s).

Abbreviation ssafe c := (safe sess_inv c).

(** Updates of the other fields. *)
Lemma ssafe_frame {E} (f : SS → SS) :
  (∀ s, ss_config (f s) = ss_config s ∧ ss_next_stream_id (f s) = ss_next_stream_id s ∧
        ss_ty (f s) = ss_ty s ∧ ss_pending_streams (f s) = ss_pending_streams s ∧
        ss_read_pending (f s) = ss_read_pending s) → ssafe (modify f : M SS E unit).
Proof.
  intros Hf. apply safe_modify. intros s Hs. unfold sess_inv.
  destruct (Hf s) as (-> & -> & -> & -> & ->). exact Hs.
Qed.

Hint Extern 1 (ssafe (modify _)) => apply ssafe_frame; by intros [] : safe.

Lemma ssafe_send_all : ssafe (send_all : SM bool).
Proof.
  intros s Hs. destruct (is_dead s) eqn:Hd.
  - destruct (send_all_dead s Hd) as (t & -> & Hp). by destruct s.
  - destruct (send_all_spec s Hd) as (t & w & -> & Hr). split; [|by destruct s].
    by intros Hp; rewrite Hp in Hr.
Qed.

Lemma ssafe_poll_complete : ssafe (poll_complete : SM bool).
Proof.
  intros s Hs. destruct (poll_complete_spec s) as (t & -> & _ & Hr). split; [|by destruct s].
  by intros Hp; rewrite Hp in Hr.
Qed.

Hint Resolve ssafe_send_all ssafe_poll_complete : safe.

Lemma ssafe_send_frame f : ssafe (send_frame f : SM unit).
Proof. unfold send_frame, push_write. safe_walk. Qed.
Hint Resolve ssafe_send_frame : safe.

Lemma ssafe_go_away code : ssafe (send_go_away_with_code code : SM unit).
Proof. unfold send_go_away_with_code. safe_walk. Qed.
Hint Resolve ssafe_go_away : safe.

Lemma ssafe_send_ping o : ssafe (send_ping o : SM Z).
Proof. unfold send_ping. safe_walk. Qed.
Hint Resolve ssafe_send_ping : safe.

Lemma ssafe_shutdown : ssafe (shutdown : SM unit).
Proof. unfold shutdown, send_go_away_normal. safe_walk. Qed.

Lemma ssafe_keep_alive now at_ : ssafe (keep_alive now at_ : SM unit).
Proof. unfold keep_alive. safe_walk. Qed.

Lemma ssafe_handle_ping f : ssafe (handle_ping f : SM unit).
Proof. unfold handle_ping. safe_walk. Qed.

Lemma ssafe_handle_go_away f : ssafe (handle_go_away f : SM unit).
Proof. unfold handle_go_away, send_go_away_normal. safe_walk. Qed.

Lemma ssafe_push_read f : frame_in f → ssafe (push_read f : SM unit).
Proof.
  intros Hf. apply safe_modify. intros s (H1 & H2 & H3 & H4 & H5). unfold sess_inv. ss_simpl.
  split_and!; try apply H1; auto; try apply H2. apply Forall_app; auto.
Qed.

Hint Resolve ssafe_shutdown ssafe_keep_alive ssafe_handle_ping ssafe_handle_go_away
  ssafe_push_read : safe.

(** The first window update of a fresh handle: the window is opened up to its maximum. *)
Lemma fresh_update id (ec : EC) (fr : FR) st mx :
  is_u32 id → INITIAL_STREAM_WINDOW <= mx < 2 ^ 32 → recv_queue fr = [] →
  st = Init ∨ st = SynReceived →
  ∃ ec', us_sent ec' = us_sent ec ++ [EvFrame (new_window_update (flags_of st) id (mx - INITIAL_STREAM_WINDOW))] ∧
  recv_queue ec' = recv_queue ec ++ [EvFrame (new_window_update (flags_of st) id (mx - INITIAL_STREAM_WINDOW))] ∧
  let h := mkStream id st mx INITIAL_STREAM_WINDOW INITIAL_STREAM_WINDOW [] ec fr None [] in
  StreamHandle_new id ec fr st mx = Some h ∧
  send_window_update h =
    (mkStream id (flagged st) mx mx INITIAL_STREAM_WINDOW [] ec' fr None [], ROk tt).
Proof.
  intros Hid Hmx Hq Hst.
  set (h := mkStream id st mx INITIAL_STREAM_WINDOW INITIAL_STREAM_WINDOW [] ec fr None []).
  assert (StreamHandle_new id ec fr st mx = Some h) as Hn
    by (unfold StreamHandle_new; by rewrite bool_decide_eq_true_2).
  pose proof (StreamHandle_new_inv _ _ _ _ _ _ Hn Hid Hq Hmx) as Hi.
  destruct (send_window_update_run h Hi) as [Hd Hrun]. cbn -[Z.pow Z.div INITIAL_STREAM_WINDOW] in Hd, Hrun.
  replace (mx - len [] - INITIAL_STREAM_WINDOW) with (mx - INITIAL_STREAM_WINDOW) in * by (change (len []) with 0; lia).
  replace (flags_of st =? 0) with false in Hrun by (by destruct Hst as [-> | ->]).
  rewrite andb_false_r in Hrun. unfold unbound_send_event in Hrun. ss_simpl. sh_simpl.
  destruct (us_send_open ec (EvFrame (new_window_update (flags_of st) id (mx - INITIAL_STREAM_WINDOW)))
    (ec_open ec)) as (ec' & Hs & Hl & _).
  change (s_event_sender h) with ec in Hrun. rewrite Hs in Hrun. exists ec'. split; [done|]. split; [by apply ec_send_queue|]. split; [done|].
  rewrite Hrun. unfold set_event_sender, set_recv_window, set_state, h. sh_simpl.
  by replace (INITIAL_STREAM_WINDOW + (mx - INITIAL_STREAM_WINDOW)) with mx by lia.
Qed.

(** [create_stream] on a free identifier. *)
Lemma create_stream_run (s : SS) o :
  sess_inv s → (∀ id, o = Some id → is_u32 id) →
  let id := default (ss_next_stream_id s) o in
  let st := match o with Some _ => SynReceived | None => Init end in
  let s1 := match o with Some _ => s | None => put_next_stream_id (ss_next_stream_id s + 2) s end in
  let mx := max_stream_window_size (ss_config s) in
  let ev := EvFrame (new_window_update (flags_of st) id (mx - INITIAL_STREAM_WINDOW)) in
  ∃ ec', recv_queue ec' = recv_queue (ss_events s) ++ [ev] ∧
  create_stream o s =
    if bool_decide (o = None ∧ 2 ^ 32 <= ss_next_stream_id s + 2) then (s, RErr StreamsExhausted) else
    if decide (is_Some (ss_streams s !! id)) then (s1, RErr DuplicateStream) else
    (put_events ec' (put_streams (<[id := (channel 8).1]> (ss_streams s)) s1),
     ROk (mkStream id (flagged st) mx mx INITIAL_STREAM_WINDOW [] ec' (channel 8).2 None [])).
Proof.
  intros (Hmx & Hn & _) Ho id st s1 mx ev.
  assert (is_u32 id) as Hid by (unfold id; destruct o; cbn; auto).
  destruct (fresh_update id (ss_events s) (channel 8).2 st mx) as (ec' & _ & Hq & Hnew & Hrun); auto.
  { apply channel_queue. } { unfold st. destruct o; auto. }
  exists ec'. split; [done|]. unfold create_stream.
  set (rest := λ is_ : Z * StreamState, _ : M SS Error SH).
  assert (rest (id, st) s1 =
    if decide (is_Some (ss_streams s !! id)) then (s1, RErr DuplicateStream) else
    (put_events ec' (put_streams (<[id := (channel 8).1]> (ss_streams s)) s1),
     ROk (mkStream id (flagged st) mx mx INITIAL_STREAM_WINDOW [] ec' (channel 8).2 None []))) as Hrest.
  { unfold rest. destruct (channel 8) as [fs fr]. unfold mbind, M_bind. cbn [gets fst snd] in *.
    replace (ss_streams s1) with (ss_streams s) by (unfold s1; by destruct o).
    destruct (ss_streams s !! id) eqn:El; [rewrite decide_True by eauto; done|].
    rewrite decide_False by (intros [? [=]]). cbn [modify gets].
    replace (ss_events (put_streams (<[id:=fs]> (ss_streams s)) s1)) with (ss_events s) by (unfold s1; by destruct o).
    replace (ss_config (put_streams (<[id:=fs]> (ss_streams s)) s1)) with (ss_config s) by (unfold s1; by destruct o).
    fold mx. rewrite Hnew. cbn [or_panic mret M_ret]. rewrite Hrun. by destruct o. }
  unfold mbind at 1, M_bind at 1. destruct o as [i|].
  - rewrite bool_decide_eq_false_2 by naive_solver. exact Hrest.
  - unfold mbind at 1, M_bind at 1. cbn [gets]. unfold mbind at 1, M_bind at 1.
    case_bool_decide as Hx.
    + rewrite (proj2 (checked_add_None _ _ _)) by (destruct Hx; lia). done.
    + rewrite checked_add_ok by (apply Z.nle_gt; naive_solver). exact Hrest.
Qed.

Lemma sess_inv_next (s : SS) :
  sess_inv s → ss_next_stream_id s + 2 < 2 ^ 32 →
  sess_inv (put_next_stream_id (ss_next_stream_id s + 2) s).
Proof.
  intros (H1 & H2 & H3 & H4 & H5) Hn. unfold sess_inv. ss_simpl.
  split; [done|]. split; [destruct H2; split; lia|]. split; [|done].
  by rewrite Z.odd_add, H3, xorb_false_r.
Qed.

Lemma ssafe_create_stream o : (∀ id, o = Some id → is_u32 id) → ssafe (create_stream o : M SS Error SH).
Proof.
  intros Ho s Hs. destruct (create_stream_run s o Hs Ho) as (ec' & _ & ->).
  case_bool_decide as Hx; [done|].
  assert (sess_inv (match o with Some _ => s | None => put_next_stream_id (ss_next_stream_id s + 2) s end)) as Hs1.
  { destruct o; [done|]. apply sess_inv_next; [done|]. apply Z.nle_gt. naive_solver. }
  by destruct (decide _).
Qed.

Lemma ssafe_open_stream : ssafe (open_stream : M SS Error SH).
Proof. unfold open_stream. pose proof (ssafe_create_stream None ltac:(done)). safe_walk. Qed.
Hint Resolve ssafe_open_stream : safe.

(** The acceptance of a stream, when there is room. *)
Lemma accept_room (s : SS) id :
  sess_inv s → is_u32 id → ss_local_go_away s = false →
  (Z.of_nat (size (ss_streams s)) <? max_stream_count (ss_config s)) &&
  (len (ss_pending_streams s) <? accept_backlog (ss_config s)) = true →
  (is_Some (ss_streams s !! id) ∧
   (accept_syn id : SM bool) s = (send_go_away_with_code ProtocolError ;; mret false) s) ∨
  (ss_streams s !! id = None ∧ ∃ ec' h, s_id h = id ∧
   (accept_syn id : SM bool) s =
     (put_pending_streams (ss_pending_streams s ++ [h])
       (put_events ec' (put_streams (<[id := (channel 8).1]> (ss_streams s)) s)), ROk true)).
Proof.
  intros Hs Hid Hl Hroom. destruct (create_stream_run s (Some id) Hs ltac:(congruence)) as (ec' & _ & Hc).
  rewrite bool_decide_eq_false_2 in Hc by naive_solver. cbn [default] in Hc.
  assert ((accept_syn id : SM bool) s = match create_stream (Some id) s with
    | (s', ROk h) => (put_pending_streams (ss_pending_streams s ++ [h]) s', ROk true)
    | (s', RErr _) => (send_go_away_with_code ProtocolError ;; mret false) s'
    | (s', RPanic) => (s', RPanic) end) as Heq.
  { unfold accept_syn, catch, mbind, M_bind. cbn [gets]. rewrite Hl. cbn [gets]. rewrite Hroom.
    by destruct (create_stream (Some id) s) as [? []]. }
  rewrite Heq, Hc. cbn [default]. destruct (decide _) as [Hd|Hd]; [by left|]. right.
  split; [by apply eq_None_not_Some|]. eexists _, _. split; [|reflexivity]. done.
Qed.

Lemma ssafe_accept_syn id : is_u32 id → ssafe (accept_syn id : SM bool).
Proof.
  intros Hid s Hs. destruct (ss_local_go_away s) eqn:Hl.
  { assert (ssafe (send_frame (new_window_update (Flags_from Rst) id 0) ;; mret false : SM bool)) as HK
      by safe_walk.
    specialize (HK s Hs). unfold accept_syn, mbind, M_bind in *. cbn [gets] in *. by rewrite Hl. }
  destruct ((Z.of_nat (size (ss_streams s)) <? max_stream_count (ss_config s)) &&
    (len (ss_pending_streams s) <? accept_backlog (ss_config s))) eqn:Hroom.
  - destruct (accept_room s id Hs Hid Hl Hroom) as [[_ ->]|(_ & ec' & h & _ & ->)].
    + assert (ssafe (send_go_away_with_code ProtocolError ;; mret false : SM bool)) as HK by safe_walk.
      by apply HK.
    + split; [done|]. destruct Hs as (H1 & H2 & H3 & H4 & H5). unfold sess_inv. ss_simpl.
      rewrite len_app, len_cons, len_nil. apply andb_prop in Hroom as [_ Hr]. apply Z.ltb_lt in Hr.
      split_and!; auto; try apply H1; try apply H2. lia.
  - unfold accept_syn, mbind, M_bind. cbn [gets]. rewrite Hl. cbn [gets]. rewrite Hroom. by destruct s.
Qed.
Hint Resolve ssafe_accept_syn : safe.

Lemma ssafe_deliver_frame b f : frame_in f → ssafe (deliver_frame b f : SM (gset Z)).
Proof.
  intros Hf. unfold deliver_frame. apply safe_bind; [apply safe_gets|intros st].
  destruct (st !! f_stream_id f) as [fs|]; [|apply safe_ret].
  destruct (bs_poll_ready fs) as [fs1 [[]|]]; (apply safe_bind; [eauto with safe|intros _]);
    [|safe_walk..].
  destruct (bs_try_send fs1 f) as [fs2 r] eqn:Et. apply safe_bind; [eauto with safe|intros _].
  destruct r as [|back|]; [safe_walk| |safe_walk]. apply bs_try_full in Et as [-> _]. safe_walk.
Qed.
Hint Resolve ssafe_deliver_frame : safe.

Lemma ssafe_distribute_loop b buf : Forall frame_in buf → ssafe (distribute_loop b buf : SM unit).
Proof.
  intros Hb. revert b. induction Hb as [|f buf Hf Hb IH]; intros b; cbn [distribute_loop];
    [apply safe_ret|].
  assert (is_u32 (f_stream_id f)) by apply Hf. safe_walk.
Qed.

Lemma ssafe_distribute : ssafe (distribute_to_substream : SM unit).
Proof.
  unfold distribute_to_substream. apply safe_gets_bind. intros s Hs.
  assert (ssafe (distribute_loop ∅ (ss_read_pending s) : SM unit)) as HL
    by apply ssafe_distribute_loop, Hs.
  apply HL. destruct Hs as (H1 & H2 & H3 & H4 & H5). unfold sess_inv. ss_simpl.
  split; [done|]. split_and!; auto.
Qed.
Hint Resolve ssafe_distribute : safe.

Lemma ssafe_flush : ssafe (flush : SM unit).
Proof. unfold flush. safe_walk. Qed.

Lemma ssafe_sess_recv_frames : ssafe (sess_recv_frames : SM bool).
Proof.
  unfold sess_recv_frames. apply safe_bind; [apply safe_gets|intros t].
  destruct (fr_poll_next t) as [t' p] eqn:E. apply safe_bind; [eauto with safe|intros _].
  destruct p as [[[e|f]|]|]; [safe_walk| |safe_walk..].
  assert (frame_in f) by (by eapply fr_next_wf).
  unfold sess_handle_frame, handle_stream_message. safe_walk.
Qed.

Lemma ssafe_recv_events : ssafe (recv_events : SM bool).
Proof.
  unfold recv_events. apply safe_bind; [apply safe_gets|intros ec].
  destruct (recv_poll_next ec) as [ec' p] eqn:E. apply safe_bind; [eauto with safe|intros _].
  destruct p as [[e|]|]; [| |safe_walk].
  - unfold handle_event. safe_walk.
  - by apply lr_live in E.
Qed.
Hint Resolve ssafe_flush ssafe_sess_recv_frames ssafe_recv_events : safe.

Lemma ssafe_control_poll : ssafe (control_poll : SM bool).
Proof.
  unfold control_poll. apply safe_bind; [apply safe_gets|intros cr].
  destruct (recv_poll_next cr) as [cr' p] eqn:E. apply safe_bind; [eauto with safe|intros _].
  destruct p as [[[]|]|]; unfold reply; [safe_walk..| |safe_walk]. by apply lr_live in E.
Qed.

Lemma ssafe_poll_keepalive now : ssafe (poll_keepalive now : SM unit).
Proof.
  unfold poll_keepalive. apply safe_bind; [apply safe_gets|intros [tm|]]; [|apply safe_ret].
  destruct (tm_poll_next tm) as [tm' [[]|]]; safe_walk.
Qed.
Hint Resolve ssafe_control_poll ssafe_poll_keepalive : safe.

Lemma ssafe_poll_loop n w : ssafe (poll_loop n w : SM (Poll (option SH))).
Proof.
  revert w. induction n as [|n IH]; intros w; cbn [poll_loop]; [safe_walk|].
  apply safe_bind; [apply safe_gets|intros []]; [apply safe_ret|].
  apply safe_bind; [eauto with safe|intros _]. apply safe_bind; [eauto with safe|intros _].
  apply safe_gets_bind. intros s Hs. destruct (ss_pending_streams s) as [|h rest] eqn:Hp.
  - assert (ssafe (p1 ← control_poll; p2 ← sess_recv_frames; p3 ← recv_events;
      if p1 && p2 && p3 then mret Pending else poll_loop n true : SM (Poll (option SH)))) as HK
      by safe_walk. by apply HK.
  - split; [done|]. destruct Hs as (H1 & H2 & H3 & H4 & H5). rewrite Hp, len_cons in H4.
    unfold sess_inv. ss_simpl. pose proof (len_nonneg rest). split; [done|]. split; [exact H2|]. split; [done|]. split; [|done]. change (len rest <= Z.max 0 (accept_backlog (ss_config s))). lia.
Qed.

Lemma ssafe_poll_next now : ssafe (sess_poll_next now : SM (Poll (option SH))).
Proof. unfold sess_poll_next. pose proof ssafe_poll_loop. safe_walk. Qed.

(** ** Runs of a session *)

(** The owner polls, opens, shuts down; the environment moves the transport, the timer and
    the channels, and takes frames out of the streams' channels. *)
Inductive sess_step : SS → SS → Prop :=
| st_poll s now : sess_step s (sess_poll_next (IOE := IOE) now s).1
| st_open s : sess_step s (open_stream s).1
| st_shutdown s : sess_step s (shutdown (IOE := IOE) s).1
| st_go_away s code : sess_step s (send_go_away_with_code (IOE := IOE) code s).1
| st_env s t ec cr st tm : dom st = dom (ss_streams s) →
    sess_step s (put_framed t (put_events ec (put_control_receiver cr
      (put_streams st (put_keepalive tm s))))).

Lemma sess_step_inv s s' : sess_step s s' → sess_inv s → sess_inv s'.
Proof.
  intros Hst Hs. destruct Hst.
  - by apply ssafe_poll_next.
  - by apply ssafe_open_stream.
  - by apply ssafe_shutdown.
  - by apply ssafe_go_away.
  - by destruct s.
Qed.

Lemma sess_steps_inv s s' : rtc sess_step s s' → sess_inv s → sess_inv s'.
Proof. induction 1; eauto using sess_step_inv. Qed.

Lemma Session_new_inv t ec cr cfg ty (s : SS) :
  Session_new t ec cr cfg ty = Some s → max_stream_window_size cfg < 2 ^ 32 → sess_inv s.
Proof.
  unfold Session_new. case_bool_decide; [|done]. intros [= <-] Hm. unfold sess_inv. ss_simpl.
  split; [done|]. split; [by destruct ty|]. split; [by destruct ty|].
  change (len []) with 0. split; [lia|done].
Qed.

(** ** Identifiers only grow *)

Definition next_from (n : Z) (s : SS) : Prop := n <= ss_next_stream_id s.

Lemma nf_frame {E} n (f : SS → SS) :
  (∀ s, ss_next_stream_id (f s) = ss_next_stream_id s) → keeps (next_from n) (modify f : M SS E unit).
Proof. intros Hf. apply keeps_modify. intros s. unfold next_from. by rewrite Hf. Qed.

Hint Extern 1 (keeps (next_from _) (modify _)) => apply nf_frame; by intros [] : keeps.

Lemma nf_sink_ready n : keeps (next_from n) (sink_poll_ready : SM (Poll unit)).
Proof.
  intros s Hs. unfold sink_poll_ready. destruct (fr_poll_ready _) as [t [[]|]]; by destruct s.
Qed.
Lemma nf_sink_start n f : keeps (next_from n) (sink_start_send f : SM unit).
Proof. intros s Hs. unfold sink_start_send. destruct (fr_start_send _ _) as [t []]; by destruct s. Qed.
Lemma nf_poll_complete n : keeps (next_from n) (poll_complete : SM bool).
Proof. intros s Hs. unfold poll_complete. destruct (fr_poll_flush _) as [t [[]|]]; by destruct s. Qed.
Hint Resolve nf_sink_ready nf_sink_start nf_poll_complete : keeps.

Lemma nf_send_all_loop n k : keeps (next_from n) (send_all_loop k : SM bool).
Proof. induction k; cbn [send_all_loop]; keeps_walk. Qed.
Hint Resolve nf_send_all_loop : keeps.

Lemma nf_go_away n code : keeps (next_from n) (send_go_away_with_code code : SM unit).
Proof. unfold send_go_away_with_code, send_frame, send_all, push_write. keeps_walk. Qed.
Lemma nf_send_frame n f : keeps (next_from n) (send_frame f : SM unit).
Proof. unfold send_frame, send_all, push_write. keeps_walk. Qed.
Hint Resolve nf_go_away nf_send_frame : keeps.

Lemma nf_create_stream n o : keeps (next_from n) (create_stream o : M SS Error SH).
Proof.
  unfold create_stream. apply keeps_bind.
  { destruct o; [apply keeps_ret|]. intros s Hs. unfold mbind, M_bind. cbn [gets].
    destruct (checked_add 32 (ss_next_stream_id s) 2) eqn:E; [|done].
    apply checked_add_Some in E as [-> _]. unfold next_from in *. cbn. lia. }
  intros [id st]. destruct (channel 8) as [fs fr]. keeps_walk.
Qed.
Hint Resolve nf_create_stream : keeps.

Lemma nf_open_stream n : keeps (next_from n) (open_stream : M SS Error SH).
Proof. unfold open_stream. keeps_walk. Qed.
Lemma nf_shutdown n : keeps (next_from n) (shutdown : SM unit).
Proof. unfold shutdown, send_go_away_normal. keeps_walk. Qed.
Hint Resolve nf_open_stream nf_shutdown : keeps.

Lemma nf_distribute_loop n b buf : keeps (next_from n) (distribute_loop b buf : SM unit).
Proof.
  revert b. induction buf as [|f buf IH]; intros b; cbn [distribute_loop];
    unfold accept_syn, deliver_frame, push_write, push_read; keeps_walk.
Qed.
Hint Resolve nf_distribute_loop : keeps.

Lemma nf_poll_loop n k w : keeps (next_from n) (poll_loop k w : SM (Poll (option SH))).
Proof.
  revert w. induction k as [|k IH]; intros w; cbn [poll_loop];
    unfold flush, control_poll, sess_recv_frames, recv_events, handle_event, sess_handle_frame,
      handle_stream_message, handle_ping, handle_go_away, send_ping, distribute_to_substream,
      send_all, send_go_away_normal, reply, push_read; keeps_walk.
Qed.

Lemma nf_step n s s' : sess_step s s' → next_from n s → next_from n s'.
Proof.
  intros Hst. destruct Hst.
  - assert (keeps (next_from n) (sess_poll_next now : SM (Poll (option SH)))) as HK; [|apply HK].
    unfold sess_poll_next, poll_keepalive, keep_alive, send_ping. pose proof nf_poll_loop. keeps_walk.
  - apply nf_open_stream.
  - apply nf_shutdown.
  - apply nf_go_away.
  - by destruct s.
Qed.

(** ** Distribution to the streams *)

Definition for_id (id : Z) (l : list Frame) : list Frame := filter (λ f, f_stream_id f = id) l.

Lemma for_id_app id l k : for_id id (l ++ k) = for_id id l ++ for_id id k.
Proof. apply filter_app. Qed.

Lemma for_id_single id f : for_id id [f] = if decide (f_stream_id f = id) then [f] else [].
Proof. unfold for_id. rewrite filter_cons, filter_nil. by destruct (decide _). Qed.

Lemma send_all_shape (s : SS) :
  ∃ t w, (send_all (IOE := IOE) s).1 = put_framed t (put_write_pending w s).
Proof.
  destruct (is_dead s) eqn:Hd.
  - destruct (send_all_dead s Hd) as (t & -> & _). eauto.
  - destruct (send_all_spec s Hd) as (t & w & -> & _). eauto.
Qed.

Lemma send_frame_shape f (s : SS) :
  ∃ t w, (send_frame (IOE := IOE) f s).1 = put_framed t (put_write_pending w s).
Proof.
  unfold send_frame, mbind, M_bind, push_write. cbn [modify].
  set (s1 := put_write_pending _ s). destruct (send_all_shape s1) as (t & w & He).
  exists t, w. destruct (send_all s1) as [s2 [b|e|]]; cbn in *; by subst.
Qed.

(** What one turn does for the stream [id]; [b] are the blocked streams. *)
Definition turn_ok (id : Z) (s s' : SS) (b b' : gset Z) (fs : list Frame) : Prop :=
  (id ∉ b → for_id id (ss_read_pending s) = []) →
  (id ∉ b' → for_id id (ss_read_pending s') = []) ∧
  (ss_streams s !! id = None → ss_streams s' !! id = None) ∧
  (∀ x x', ss_streams s !! id = Some x → ss_streams s' !! id = Some x' →
     bs_sent x' ++ for_id id (ss_read_pending s') =
     bs_sent x ++ for_id id (ss_read_pending s) ++ for_id id fs).

Lemma turn_same id (s s' : SS) b fs :
  ss_streams s' !! id = ss_streams s !! id → ss_read_pending s' = ss_read_pending s →
  for_id id fs = [] → turn_ok id s s' b b fs.
Proof.
  intros Hs Hr Hf. unfold turn_ok. rewrite Hs, Hr, Hf. intros Hb.
  split; [done|]. split; [done|]. intros x x' -> [= <-]. by rewrite app_nil_r.
Qed.

Lemma turn_trans id s1 s2 s3 b1 b2 b3 l k :
  turn_ok id s1 s2 b1 b2 l → turn_ok id s2 s3 b2 b3 k → turn_ok id s1 s3 b1 b3 (l ++ k).
Proof.
  intros H1 H2 Hb. destruct (H1 Hb) as (A1 & A2 & A3). destruct (H2 A1) as (B1 & B2 & B3).
  split; [done|]. split; [auto|]. intros x x' Hx Hx'.
  destruct (ss_streams s2 !! id) as [y|] eqn:Hy; [|rewrite (B2 eq_refl) in Hx'; done].
  rewrite (B3 y x' eq_refl Hx'), for_id_app.
  rewrite app_assoc, (A3 x y Hx eq_refl). by rewrite <- !app_assoc.
Qed.

(** A frame queued again because its stream is blocked. *)
Lemma turn_push id (s : SS) b b' f st :
  (id ∉ b' → f_stream_id f ≠ id ∧ id ∉ b) →
  st !! id = ss_streams s !! id ∨ (∃ x x', ss_streams s !! id = Some x ∧ st !! id = Some x' ∧ bs_sent x' = bs_sent x) →
  turn_ok id s (put_read_pending (ss_read_pending s ++ [f]) (put_streams st s)) b b' [f].
Proof.
  intros Hb' Hst Hb. ss_simpl. rewrite for_id_app. split; [|split].
  - intros Hn. destruct (Hb' Hn) as [Hf Hnb]. rewrite (Hb Hnb), for_id_single. by rewrite decide_False.
  - intros Hn. destruct Hst as [->|(x & x' & Hx & _)]; congruence.
  - intros x x' Hx Hx'. destruct Hst as [Hst|(y & y' & Hy & Hy' & Hs)]; simplify_eq.
    + rewrite Hst in Hx'. by simplify_eq.
    + by rewrite Hs.
Qed.

Lemma deliver_frame_spec b f (s : SS) id :
  f_stream_id f ∉ b →
  ∃ s' b', (deliver_frame b f : SM (gset Z)) s = (s', ROk b') ∧ turn_ok id s s' b b' [f] ∧
  ss_local_go_away s' = ss_local_go_away s.
Proof.
  intros Hfb. unfold deliver_frame, mbind, M_bind. cbn [gets].
  set (fid := f_stream_id f) in *.
  assert (id ≠ fid → for_id id [f] = []) as Hne
    by (intros; rewrite for_id_single, decide_False; naive_solver).
  destruct (ss_streams s !! fid) as [x|] eqn:Hx.
  2:{ eexists _, _. split; [reflexivity|]. split; [|done]. destruct (decide (id = fid)) as [->|Hi].
      - intros Hb. split; [done|]. split; [done|]. intros; congruence.
      - by apply turn_same; auto. }
  assert (∀ s', ss_streams s' = delete fid (ss_streams s) → ss_read_pending s' = ss_read_pending s →
    turn_ok id s s' b b [f]) as Hdel.
  { intros s' H1 H2. destruct (decide (id = fid)) as [->|Hi].
    - unfold turn_ok. rewrite H1, H2, lookup_delete_eq. done.
    - apply turn_same; auto. by rewrite H1, lookup_delete_ne. }
  pose proof (bs_ready_sent x) as Hrs.
  destruct (bs_poll_ready x) as [x1 p] eqn:Ep. cbn [fst] in Hrs. cbn [modify].
  assert (∀ x2, bs_sent x2 = bs_sent x →
    turn_ok id s (put_read_pending (ss_read_pending s ++ [f])
      (put_streams (<[fid:=x2]> (ss_streams s)) s)) b ({[fid]} ∪ b) [f]) as Hpush.
  { intros x2 Hx2. apply turn_push; [set_solver|]. destruct (decide (id = fid)) as [->|Hi].
    - right. exists x, x2. by rewrite lookup_insert_eq.
    - left. by rewrite lookup_insert_ne. }
  destruct p as [[]|].
  - destruct (bs_try_send x1 f) as [x2 r] eqn:Et. cbn [modify].
    destruct r as [|back|]; (eexists _, _; split; [reflexivity|]; split; [|by destruct s]).
    + apply bs_try_ok in Et. destruct (decide (id = fid)) as [->|Hi].
      * intros Hb. ss_simpl. rewrite (Hb Hfb), for_id_single, decide_True by done. split; [done|].
        split; [congruence|]. intros y y' Hy. rewrite lookup_insert_eq. intros [= <-]. simplify_eq.
        by rewrite Et, Hrs, app_nil_r.
      * apply turn_same; auto. cbn. by rewrite lookup_insert_ne.
    + apply bs_try_full in Et as [-> Et]. refine (Hpush x2 _). congruence.
    + by apply Hdel.
  - eexists _, _. split; [reflexivity|]. split; [by apply Hdel|by destruct s].
  - eexists _, _. split; [reflexivity|]. split; [by apply Hpush|by destruct s].
Qed.

Lemma accept_syn_spec fid (s s' : SS) go :
  sess_inv s → is_u32 fid → (accept_syn fid : SM bool) s = (s', ROk go) →
  if go then ss_read_pending s' = ss_read_pending s ∧
             ∀ id, id ≠ fid → ss_streams s' !! id = ss_streams s !! id
  else ss_local_go_away s' = true.
Proof.
  intros Hs Hid. destruct (ss_local_go_away s) eqn:Hl.
  { unfold accept_syn, mbind, M_bind. cbn [gets]. rewrite Hl.
    destruct (send_frame_shape (new_window_update (Flags_from Rst) fid 0) s) as (t & w & He).
    destruct (send_frame _ s) as [s1 [|e|]]; [|done..]. cbn in He. subst s1. intros [= <- <-]. done. }
  destruct ((Z.of_nat (size (ss_streams s)) <? max_stream_count (ss_config s)) &&
    (len (ss_pending_streams s) <? accept_backlog (ss_config s))) eqn:Hroom.
  - destruct (accept_room s fid Hs Hid Hl Hroom) as [[_ ->]|(_ & ec' & h & _ & ->)].
    + unfold send_go_away_with_code, mbind, M_bind. cbn [modify].
      destruct (send_frame _ _) as [s1 [|e|]]; [|done..]. cbn. by intros [= <- <-].
    + intros [= <- <-]. split; [done|]. intros id Hne. cbn. by rewrite lookup_insert_ne.
  - unfold accept_syn, mbind, M_bind. cbn [gets]. rewrite Hl. cbn [gets]. rewrite Hroom.
    by intros [= <- <-].
Qed.

Lemma distribute_loop_spec id buf b (s s' : SS) :
  sess_inv s → Forall frame_in buf →
  Forall (λ f, f_stream_id f = id → Flags_contains (f_flags f) Syn = false) buf →
  (distribute_loop b buf : SM unit) s = (s', ROk tt) → ss_local_go_away s' = false →
  ∃ b', turn_ok id s s' b b' buf.
Proof.
  revert b s. induction buf as [|f buf IH]; intros b s Hs Hin Hsyn Hrun Hend; cbn [distribute_loop] in Hrun.
  { injection Hrun as <-. exists b. by apply turn_same. }
  apply Forall_cons in Hin as [Hf Hin], Hsyn as [Hsf Hsyn].
  case_bool_decide as Hb.
  - assert (sess_inv (put_read_pending (ss_read_pending s ++ [f]) s)) as Hs1
      by by apply (ssafe_push_read f Hf s).
    destruct (IH b _ Hs1 Hin Hsyn Hrun Hend) as (b' & Ht). exists b'.
    eapply (turn_trans _ _ _ _ _ b _ [f]); [|exact Ht].
    pose proof (turn_push id s b b f (ss_streams s)) as Hp. destruct s. apply Hp; [set_solver|by left].
  - unfold mbind at 1, M_bind at 1 in Hrun.
    set (c := if Flags_contains _ _ then _ else _ : SM bool) in Hrun.
    assert (is_u32 (f_stream_id f)) as Hu by apply Hf.
    assert (∀ s1 go, c s = (s1, ROk go) → sess_inv s1 ∧
      if go then turn_ok id s s1 b b [] else ss_local_go_away s1 = true) as Hc.
    { intros s1 go E. unfold c in E. destruct (Flags_contains _ _) eqn:Hfs.
      - pose proof (ssafe_accept_syn _ Hu s Hs) as [_ Hs1]. rewrite E in Hs1. split; [done|].
        apply accept_syn_spec in E; auto. destruct go; [|done]. destruct E as [E1 E2].
        apply turn_same; auto. apply E2. naive_solver.
      - injection E as <- <-. split; [done|]. by apply turn_same. }
    destruct (c s) as [s1 [go|e|]] eqn:E; [|done..]. destruct (Hc s1 go eq_refl) as [Hs1 Ht].
    destruct go; [|injection Hrun as <-; congruence].
    unfold mbind, M_bind in Hrun. destruct (deliver_frame_spec b f s1 id Hb) as (s2 & b2 & E2 & Ht2 & _).
    pose proof (ssafe_deliver_frame b f Hf s1 Hs1) as [_ Hs2]. rewrite E2 in Hrun, Hs2.
    destruct (IH b2 s2 Hs2 Hin Hsyn Hrun Hend) as (b' & Ht3). exists b'.
    apply (turn_trans id s s1 s' b b b' [] (f :: buf)); [done|].
    by apply (turn_trans id s1 s2 s' b b2 b' [f] buf).
Qed.

(** ** The properties *)

(** [send_all] terminates and keeps order: the frames accepted by the transport followed
    by those still pending are what they were before; nothing is reordered or duplicated,
    only the frame on which the transport failed may be lost, and [false] means that nothing
    is pending any more. *)
Theorem send_all_in_order (s : SS) :
  is_dead s = false → send_post s (send_all s).
Proof. apply send_all_spec. Qed.

(** C10: no run of a session panics: whatever the owner, the peer and the environment do, in
    every reachable session no operation reaches an [unreachable!], an [assert!] or an
    arithmetic overflow, and the invariant holds (next identifier a [u32] of the right
    parity, accept backlog respected). *)
Theorem session_never_panics t ec cr cfg ty (s0 s : SS) now :
  Session_new t ec cr cfg ty = Some s0 → max_stream_window_size cfg < 2 ^ 32 →
  rtc sess_step s0 s →
  sess_inv s ∧ (sess_poll_next (IOE := IOE) now s).2 ≠ RPanic ∧ (open_stream s).2 ≠ RPanic ∧
  (shutdown (IOE := IOE) s).2 ≠ RPanic.
Proof.
  intros Hn Hm Hr. assert (sess_inv s) as Hs by eauto using sess_steps_inv, Session_new_inv.
  split; [exact Hs|].
  split_and!; [apply ssafe_poll_next|apply ssafe_open_stream|apply ssafe_shutdown]; exact Hs.
Qed.

(** C9: frames reach each stream in order and none is lost: when a distribution completes
    without going away, then for every stream that stays registered and whose buffered
    frames carry no SYN, what was put into its channel followed by what is still buffered
    for it is what it was before, in order. *)
Theorem distribute_in_order id (s s' : SS) x x' :
  sess_inv s →
  Forall (λ f, f_stream_id f = id → Flags_contains (f_flags f) Syn = false) (ss_read_pending s) →
  (distribute_to_substream : SM unit) s = (s', ROk tt) → ss_local_go_away s' = false →
  ss_streams s !! id = Some x → ss_streams s' !! id = Some x' →
  bs_sent x' ++ for_id id (ss_read_pending s') = bs_sent x ++ for_id id (ss_read_pending s).
Proof.
  intros Hs Hsyn Hrun Hend Hx Hx'. unfold distribute_to_substream, mbind, M_bind in Hrun.
  cbn [gets modify] in Hrun. pose proof Hs as (H1 & H2 & H3 & H4 & H5).
  destruct (distribute_loop_spec id (ss_read_pending s) ∅ (put_read_pending [] s) s') as (b' & Ht); auto.
  { unfold sess_inv. ss_simpl. split; [done|]. split_and!; auto. }
  destruct (Ht ltac:(done)) as (_ & _ & H). by apply (H x x').
Qed.

(** Streams opened by this side get fresh identifiers: any later opening, whatever
    happens in between, gets a larger one, and all have the parity of the side (odd for a
    client). *)
Theorem stream_ids_fresh (s s1 s2 s3 : SS) h1 h2 :
  sess_inv s → open_stream s = (s1, ROk h1) → rtc sess_step s1 s2 →
  open_stream s2 = (s3, ROk h2) →
  s_id h1 < s_id h2 ∧ Z.odd (s_id h1) = bool_decide (ss_ty s = Client) ∧ is_u32 (s_id h1).
Proof.
  intros Hs H1 Hr H2. pose proof (ssafe_open_stream s Hs) as [_ Hs1]. rewrite H1 in Hs1. cbn in Hs1.
  assert (∀ (a b : SS) h, sess_inv a → open_stream a = (b, ROk h) →
    s_id h = ss_next_stream_id a ∧ ss_next_stream_id b = ss_next_stream_id a + 2) as Hop.
  { intros a b h Ha. unfold open_stream, mbind, M_bind. cbn [gets].
    destruct (is_dead a); [done|]. cbn [gets]. destruct (ss_remote_go_away a); [done|].
    destruct (create_stream_run a None Ha ltac:(done)) as (ec & _ & ->).
    case_bool_decide; [done|]. destruct (decide _); [done|]. by intros [= <- <-]. }
  destruct (Hop _ _ _ Hs H1) as [E1 E2]. destruct (Hop _ _ _ (sess_steps_inv _ _ Hr Hs1) H2) as [E3 _].
  assert (next_from (ss_next_stream_id s1) s2) as Hn.
  { assert (next_from (ss_next_stream_id s1) s1) as H0 by (unfold next_from; lia).
    clear -Hr H0. revert H0. generalize (ss_next_stream_id s1). intros n H0.
    induction Hr; eauto using nf_step. }
  unfold next_from in Hn. destruct Hs as (_ & Hu & Ho & _). rewrite E1, E3. split; [lia|done].
Qed.

(** The outcomes of opening a stream: refused when the session is dead or the peer went
    away, when the identifiers are exhausted (nothing changes then) or taken; otherwise the
    stream is registered, starts with a full receive window and its SYN, which opens the
    window to its maximum, is queued as the next event. *)
Theorem open_stream_outcomes (s : SS) :
  sess_inv s →
  let id := ss_next_stream_id s in
  let mx := max_stream_window_size (ss_config s) in
  let '(s', r) := open_stream s in
  if is_dead s then s' = s ∧ r = RErr SessionShutdown else
  if ss_remote_go_away s then s' = s ∧ r = RErr RemoteGoAway else
  if 2 ^ 32 <=? id + 2 then s' = s ∧ r = RErr StreamsExhausted else
  match ss_streams s !! id with
  | Some _ => s' = put_next_stream_id (id + 2) s ∧ r = RErr DuplicateStream
  | None => ∃ h, r = ROk h ∧ s_id h = id ∧ s_state h = SynSent ∧ s_recv_window h = mx ∧
      ss_streams s' = <[id := (channel 8).1]> (ss_streams s) ∧ ss_next_stream_id s' = id + 2 ∧
      recv_queue (ss_events s') = recv_queue (ss_events s) ++
        [EvFrame (new_window_update (Flags_from Syn) id (mx - INITIAL_STREAM_WINDOW))]
  end.
Proof.
  intros Hs id mx. unfold open_stream, mbind, M_bind. cbn [gets].
  destruct (is_dead s); [done|]. cbn [gets]. destruct (ss_remote_go_away s); [done|].
  destruct (create_stream_run s None Hs ltac:(done)) as (ec & Hq & ->). cbn [default] in *.
  fold id mx in Hq |- *. destruct (2 ^ 32 <=? id + 2) eqn:E.
  { rewrite bool_decide_eq_true_2; [done|]. split; [done|]. lia. }
  rewrite bool_decide_eq_false_2 by (intros []; lia).
  destruct (ss_streams s !! id) eqn:Hl; [rewrite decide_True by eauto; done|].
  rewrite decide_False by (intros [? [=]]). eexists. by split_and!.
Qed.

(** A SYN that arrives while the session has no room (stream limit or accept backlog)
    creates no stream: an ACK|RST is queued for the peer and nothing else changes. *)
Theorem syn_refused_when_full id (s : SS) :
  ss_local_go_away s = false →
  max_stream_count (ss_config s) <= Z.of_nat (size (ss_streams s)) ∨
  accept_backlog (ss_config s) <= len (ss_pending_streams s) →
  (accept_syn id : SM bool) s =
    (put_write_pending (ss_write_pending s ++
       [new_window_update (Flags_add (Flags_from Ack) Rst) id 0]) s, ROk true).
Proof.
  intros Hl Hfull. unfold accept_syn, mbind, M_bind. cbn [gets]. rewrite Hl. cbn [gets].
  replace (_ && _) with false; [done|]. symmetry. apply andb_false_iff.
  destruct Hfull; [left|right]; apply Z.ltb_ge; lia.
Qed.

(** The peer's go-away ends the session: what was pending is discarded, a go-away is sent
    back unless one was sent before, and from then on the session is dead and every poll
    ends it. *)
Theorem go_away_ends_session f (s s' : SS) now :
  ss_eof s = false → (handle_go_away f : SM unit) s = (s', ROk tt) →
  is_dead s' = true ∧ (sess_poll_next now : SM (Poll (option SH))) s' = (s', ROk (Ready None)) ∧
  out s' = fr_sent (ss_framed s) ++
    (if ss_local_go_away s then [] else [new_go_away Normal]).
Proof.
  intros He Hrun.
  assert (is_dead s' = true ∧ out s' = fr_sent (ss_framed s) ++
    (if ss_local_go_away s then [] else [new_go_away Normal])) as [Hd Ho].
  2:{ split; [done|]. split; [|done]. unfold sess_poll_next, mbind, M_bind. cbn [gets]. by rewrite Hd. }
  assert ((modify (put_remote_go_away true) ;; modify (put_write_pending []) ;;
    l ← gets ss_local_go_away; if l : bool then mret tt else send_go_away_normal : SM unit) s
    = (s', ROk tt)) as Hc by (unfold handle_go_away in Hrun; by destruct (GoAwayCode_from _)).
  unfold mbind, M_bind in Hc. cbn [modify gets] in Hc.
  set (s1 := put_write_pending [] (put_remote_go_away true s)) in Hc.
  change (ss_local_go_away s1) with (ss_local_go_away s) in Hc.
  destruct (ss_local_go_away s) eqn:Hl.
  - injection Hc as <-. unfold is_dead, out. cbn. by rewrite Hl.
  - unfold send_go_away_normal, send_go_away_with_code, send_frame, push_write, mbind, M_bind in Hc.
    cbn [modify] in Hc. set (s2 := put_write_pending _ _) in Hc.
    assert (is_dead s2 = false) as Hd2 by (unfold is_dead; cbn; by rewrite Hl, He).
    destruct (send_all_spec s2 Hd2) as (t & w & H1 & H2).
    destruct (send_all s2) as [s3 [b|e|]]; [|done..]. cbn in H1, H2. subst s3.
    injection Hc as <-. destruct H2 as [H2 _]. split; [done|].
    unfold out in *. cbn in *. by rewrite H2.
Qed.

(** Pings: a ping is answered with an acknowledgement of the same value; an
    acknowledgement clears its ping and all smaller ones, and no other; a keep-alive fails
    exactly when an outstanding ping is older than the timeout. *)
Theorem pings_answered_and_cleared f (s : SS) now :
  is_dead s = false →
  (Flags_contains (f_flags f) Syn = true → ∀ s', (handle_ping f : SM unit) s = (s', ROk tt) →
     out s' = out s ++ [new_ping (Flags_from Ack) (f_length f)]) ∧
  (Flags_contains (f_flags f) Syn = false → Flags_contains (f_flags f) Ack = true →
     ∃ s', (handle_ping f : SM unit) s = (s', ROk tt) ∧
     ∀ k, ss_pings s' !! k = if decide (f_length f < k) then ss_pings s !! k else None) ∧
  ((keep_alive now now : SM unit) s = (s, RErr STimedOut) ↔
     ∃ k at_, ss_pings s !! k = Some at_ ∧ TIMEOUT < now - at_).
Proof.
  intros Hd. split; [|split].
  - intros Hf s'. unfold handle_ping. rewrite Hf.
    unfold send_ping, send_frame, push_write, mbind, M_bind. cbn [modify].
    set (s2 := put_write_pending _ s). destruct (send_all_spec s2 Hd) as (t & w & H1 & H2).
    destruct (send_all s2) as [s3 [b|e|]]; [|done..]. cbn in H1, H2. subst s3.
    intros [= <-]. destruct H2 as [H2 _]. unfold out in *. cbn in *. by rewrite H2, app_assoc.
  - intros Hs Ha. unfold handle_ping. rewrite Hs, Ha. eexists. split; [reflexivity|].
    intros k. cbn. destruct (decide (f_length f < k)) as [Hk|Hk].
    + destruct (ss_pings s !! k) as [at_|] eqn:Hp.
      * apply map_lookup_filter_Some. rewrite lookup_delete_ne by lia. cbn. split; [done|lia].
      * apply map_lookup_filter_None. left. rewrite lookup_delete_ne by lia. done.
    + apply map_lookup_filter_None. destruct (decide (k = f_length f)) as [->|Hne].
      * left. by rewrite lookup_delete_eq.
      * right. intros at_ _. cbn. lia.
  - unfold keep_alive, mbind, M_bind. cbn [gets].
    destruct (existsb _ _) eqn:E.
    + split; [|done]. intros _. apply existsb_exists in E as ([k at_] & Hin & Ht).
      exists k, at_. cbn in Ht. split; [|unfold TIMEOUT in *; lia].
      apply elem_of_map_to_list. by apply list_elem_of_In.
    + split.
      * intros Hx. exfalso. unfold send_ping, send_frame, push_write, mbind, M_bind in Hx. cbn [modify gets] in Hx.
        set (s2 := put_write_pending _ _) in Hx. destruct (send_all_spec s2 Hd) as (t & w & H1 & H2).
        destruct (send_all s2) as [s3 [b|e|]]; cbn in H1, H2; [done| |done].
        injection Hx as Hx1 Hx2. apply (f_equal ss_ping_id) in Hx1. subst s3. cbn -[wrapping_add] in Hx1.
        unfold wrapping_add in Hx1. pose proof (Z.mod_pos_bound (ss_ping_id s + 1) (2 ^ 32)) as Hb.
        destruct (decide (ss_ping_id s + 1 < 2 ^ 32)) as [Hc|Hc].
        -- rewrite Z.mod_small in Hx1; lia.
        -- assert (ss_ping_id s + 1 = 2 ^ 32) as Hc' by lia. rewrite Hc', Z.mod_same in Hx1; lia.
      * intros (k & at_ & Hk & Ht). exfalso. apply not_true_iff_false in E. apply E.
        apply existsb_exists. exists (k, at_). split.
        -- apply list_elem_of_In. by apply elem_of_map_to_list.
        -- cbn. unfold TIMEOUT in *. lia.
Qed.

End Proofs.

(** ** Reference transport and channels *)

(** A transport in memory: [mf_full] makes the sink busy until a flush, [mf_stuck] keeps the
    flush pending. *)
Record MemFramed := mkMemFramed {
  mf_sent : list Frame; mf_input : list Frame; mf_full : bool; mf_stuck : bool }.

#[export] Instance frame_in_dec f : Decision (frame_in f).
Proof.
  unfold frame_in, header_wf, body_ok. destruct (f_ty f), (f_body f); apply _.
Defined.

#[export] Instance MemFramed_ops : Framed MemFramed unit := {
  fr_poll_ready t := (t, if mf_full t then Pending else Ready (inr tt));
  fr_start_send t f := (mkMemFramed (mf_sent t ++ [f]) (mf_input t) (mf_full t) (mf_stuck t), inr tt);
  fr_poll_flush t :=
    if mf_stuck t then (t, Pending)
    else (mkMemFramed (mf_sent t) (mf_input t) false false, Ready (inr tt));
  fr_poll_next t :=
    match mf_input t with
    | f :: q =>
        if decide (frame_in f)
        then (mkMemFramed (mf_sent t) q (mf_full t) (mf_stuck t), Ready (Some (inr f)))
        else (mkMemFramed (mf_sent t) q (mf_full t) (mf_stuck t), Ready (Some (inl tt)))
    | [] => (t, Pending)
    end;
  fr_sent := mf_sent;
}.

#[export] Instance MemFramed_laws : FramedLaws MemFramed unit.
Proof.
  split; cbn.
  - done.
  - intros t. by destruct (mf_stuck t).
  - intros t. destruct (mf_input t); [done|]. by destruct (decide _).
  - by intros t t' f [= <-].
  - done.
  - intros t t'. destruct (mf_stuck t); [done|]. by intros [= <-].
  - intros t t' f. destruct (mf_input t); [done|]. destruct (decide _); [|done].
    by intros [= _ <-].
Qed.

(** A queue with both ends held: the events and the commands of a session. *)
Record LiveQueue (A : Type) := mkLiveQueue { lq_log : list A; lq_queue : list A }.
Arguments mkLiveQueue {A} _ _.
Arguments lq_log {A} _.
Arguments lq_queue {A} _.

#[export] Instance LiveQueue_send A : UnboundedSender (LiveQueue A) A := {
  unbounded_send c a := (mkLiveQueue (lq_log c ++ [a]) (lq_queue c ++ [a]), true);
  us_is_closed _ := false;
  us_sent := lq_log;
}.
#[export] Instance LiveQueue_recv A : Receiver (LiveQueue A) A := {
  recv_poll_next c :=
    match lq_queue c with
    | a :: q => (mkLiveQueue (lq_log c) q, Ready (Some a))
    | [] => (c, Pending)
    end;
  recv_is_terminated _ := false;
  recv_queue := lq_queue;
}.
#[export] Instance LiveQueue_send_laws A : UnboundedSenderLaws (LiveQueue A) A.
Proof. split; [|done]. intros [l q] a _. eexists. split_and!; [reflexivity|done..]. Qed.
#[export] Instance LiveQueue_recv_laws A : ReceiverLaws (LiveQueue A) A.
Proof. split; intros [l [|a q]] r'; cbn; intros; by simplify_eq. Qed.
#[export] Instance LiveQueue_live A : LiveReceiver (LiveQueue A) A.
Proof. intros [l [|a q]] r'; by cbn. Qed.
#[export] Instance LiveQueue_event_laws A : EventChannelLaws (LiveQueue A) A.
Proof. split; [done|]. by intros [l q] c' a [= <-]. Qed.

#[export] Instance SlotChannel : NewChannel (SlotSender Frame) (QueueReceiver Frame) :=
  λ n, (mkSlotSender [] (Z.to_nat n) false, mkQueueReceiver [] false false).
#[export] Instance SlotChannel_laws :
  NewChannelLaws (SlotSender Frame) (QueueReceiver Frame) Frame.
Proof. by split. Qed.

(** A timer that never fires. *)
#[export] Instance NoTimer : Timer unit := { interval _ := tt; tm_poll_next t := (t, Pending) }.

Abbreviation DemoSession := (Session MemFramed (LiveQueue StreamEvent) (SlotSender Frame)
  (QueueReceiver Frame) (LiveQueue Command) unit).

Definition demo_session (ty : SessionType) : DemoSession :=
  mkSession (mkMemFramed [] [] false false) false false false
    (match ty with Client => 1 | Server => 2 end) ty Config_default ∅ 0 ∅ [] [] []
    (mkLiveQueue [] []) (mkLiveQueue [] []) (Some tt) [] 0.

Lemma demo_session_new ty :
  Session_new (mkMemFramed [] [] false false) (mkLiveQueue [] []) (mkLiveQueue [] [])
    Config_default ty = Some (demo_session ty).
Proof. done. Qed.

Lemma demo_session_inv ty : sess_inv (demo_session ty).
Proof. by eapply Session_new_inv; [apply demo_session_new|]. Qed.

(** A session with the streams 3 and 5 and buffered frames for them. *)
Definition demo_streams (go_away : bool) (rp : list Frame) : DemoSession :=
  put_local_go_away go_away (put_read_pending rp (put_streams
    (<[3 := mkSlotSender [] 1 false]> (<[5 := mkSlotSender [] 4 false]> ∅)) (demo_session Server))).

Definition demo_frames : list Frame :=
  [new_data 0 3 [byte_of 1]; new_data 0 5 [byte_of 2]; new_data 0 3 [byte_of 3];
   new_data 0 5 [byte_of 4]; new_data 0 3 [byte_of 5]].

Lemma demo_streams_inv g rp : Forall frame_in rp → sess_inv (demo_streams g rp).
Proof. intros Hf. destruct (demo_session_inv Server) as (H1 & H2 & H3 & H4 & _). done. Qed.

Lemma demo_frames_in : Forall frame_in demo_frames.
Proof. apply (bool_decide_unpack _). vm_compute. done. Qed.

(** ** Witnesses *)

Definition busy_session : DemoSession :=
  put_framed (mkMemFramed [] [] true false) (put_write_pending demo_frames (demo_session Client)).

Lemma send_all_in_order_witness :
  send_post busy_session (send_all busy_session) ∧
  (send_all (IOE := unit) busy_session).2 = ROk false.
Proof. split; [by apply send_all_in_order | vm_compute; done]. Defined.

Lemma session_never_panics_witness :
  (sess_poll_next (IOE := unit) 7 (open_stream (demo_session Client)).1).2 ≠ RPanic.
Proof.
  apply (session_never_panics (mkMemFramed [] [] false false) (mkLiveQueue [] []) (mkLiveQueue [] [])
    Config_default Client (demo_session Client)); [apply demo_session_new|done|].
  apply rtc_once, st_open.
Defined.

Lemma distribute_in_order_witness :
  let s := demo_streams false demo_frames in
  let '(s', r) := distribute_to_substream (IOE := unit) s in
  let x' := mkSlotSender [new_data 0 3 [byte_of 1]] 0 false in
  ss_streams s' !! 3 = Some x' ∧
  bs_sent x' ++ for_id 3 (ss_read_pending s') =
    bs_sent (mkSlotSender [] 1 false) ++ for_id 3 (ss_read_pending s).
Proof.
  intros s. destruct (distribute_to_substream (IOE := unit) s) as [s' r] eqn:E.
  assert (ss_streams s' !! 3 = Some (mkSlotSender [new_data 0 3 [byte_of 1]] 0 false) ∧
    r = ROk tt ∧ ss_local_go_away s' = false) as (H1 & H2 & H3).
  { vm_compute in E. injection E as <- <-. vm_compute. done. }
  intros x'. split; [done|].
  apply (distribute_in_order (IOE := unit) 3 s s' (mkSlotSender [] 1 false) x').
  - apply demo_streams_inv, demo_frames_in.
  - apply (bool_decide_unpack _). vm_compute. done.
  - by rewrite <- H2.
  - done.
  - vm_compute. done.
  - done.
Defined.

Lemma stream_ids_fresh_witness :
  let '(s1, r1) := open_stream (demo_session Client) in
  let '(s2, r2) := open_stream s1 in
  match r1, r2 with ROk h1, ROk h2 => s_id h1 < s_id h2 | _, _ => False end.
Proof.
  destruct (open_stream (demo_session Client)) as [s1 r1] eqn:E1.
  destruct (open_stream s1) as [s2 r2] eqn:E2.
  assert (∃ h1, r1 = ROk h1) as (h1 & ->) by (vm_compute in E1; injection E1 as <- <-; eauto).
  assert (∃ h2, r2 = ROk h2) as (h2 & ->)
    by (vm_compute in E1; injection E1 as <- <-; vm_compute in E2; injection E2 as <- <-; eauto).
  eapply (stream_ids_fresh (demo_session Client) s1 s1 s2 h1 h2);
    [apply demo_session_inv|exact E1|apply rtc_refl|exact E2].
Defined.

Lemma open_stream_outcomes_witness :
  let '(s', r) := open_stream (demo_session Server) in
  ∃ h, r = ROk h ∧ s_id h = 2.
Proof.
  pose proof (open_stream_outcomes (demo_session Server) (demo_session_inv Server)) as H.
  destruct (open_stream (demo_session Server)) as [s' r].
  destruct H as (h & H1 & H2 & _). by exists h.
Defined.

Definition full_session : DemoSession :=
  mkSession (mkMemFramed [] [] false false) false false false 2 Server
    (mkConfig 0 true 1000 1000 10 INITIAL_STREAM_WINDOW) ∅ 0 ∅ [] [] []
    (mkLiveQueue [] []) (mkLiveQueue [] []) None [] 0.

Lemma syn_refused_when_full_witness :
  (accept_syn (IOE := unit) 7 full_session).2 = ROk true.
Proof. rewrite (syn_refused_when_full 7 full_session eq_refl); [done|]. right. done. Defined.

Lemma go_away_ends_session_witness :
  let s' := (handle_go_away (IOE := unit) (new_go_away Normal) (demo_session Client)).1 in
  is_dead s' = true.
Proof.
  intros s'. apply (go_away_ends_session (IOE := unit) (new_go_away Normal) (demo_session Client) s' 0);
    [done|vm_compute; done].
Defined.

Lemma pings_answered_and_cleared_witness :
  let s := put_pings (<[4 := 10]> (<[9 := 20]> ∅)) (demo_session Client) in
  ∃ s', (handle_ping (IOE := unit) (new_ping (Flags_from Ack) 4)) s = (s', ROk tt) ∧
  ∀ k, ss_pings s' !! k = if decide (4 < k) then ss_pings s !! k else None.
Proof.
  intros s. apply (pings_answered_and_cleared (IOE := unit) (new_ping (Flags_from Ack) 4) s 0); done.
Defined.

(** While the session is going away, a SYN in the buffer makes the distribution stop: the
    frames behind it are dropped, also those of other, established streams. *)
Theorem distribute_drops_frames :
  let syn := new_window_update (Flags_from Syn) 7 0 in
  let s := demo_streams true (syn :: demo_frames) in
  let '(s', r) := distribute_to_substream (IOE := unit) s in
  r = ROk tt ∧ ss_read_pending s' = [] ∧ ss_streams s' = ss_streams s.
Proof. vm_compute. done. Qed.
