(* ===== verification/YamuxControl.v ===== *)
(** * Controls of a yamux session ([tentacle/yamux/src/control.rs])

    The calls of the clones of a control, the commands they send and the answers of the session
    (YamuxSession.v): every call that opens a stream gets a stream of its own or an error, and a call
    waits only while a live session has its command in the queue. *)

From Stdlib Require Import ZArith Lia Bool.
From stdpp Require Import base list gmap relations.
From S2P Require Import Prelude Channels YamuxFrame YamuxStream YamuxStreamProofs YamuxSession YamuxSessionProofs.

Open Scope Z_scope.

(** ** Calls *)

Inductive Call := CallOpen | CallClose.

#[export] Instance Call_eq_dec : EqDecision Call.
Proof. solve_decision. Defined.

Definition command (c : Call) (tx : nat) : Command := match c with CallOpen => OpenStream tx | CallClose => Shutdown tx end.
Definition command_tx (c : Command) : nat := match c with OpenStream tx | Shutdown tx => tx end.
Definition command_call (c : Command) : Call := match c with OpenStream _ => CallOpen | Shutdown _ => CallClose end.

Lemma command_parts (cmd : Command) : command (command_call cmd) (command_tx cmd) = cmd.
Proof. by destruct cmd. Qed.

Section Control.
Context {IOE FT EC FS FR CR TM : Type}.
Context `{F : Framed FT IOE} `{US : UnboundedSender EC StreamEvent} `{RE : Receiver EC StreamEvent}.
Context `{BS : BoundedSender FS Frame} `{RC : Receiver FR Frame} `{NC : NewChannel FS FR}.
Context `{RCmd : Receiver CR Command} `{T : Timer TM}.

Abbreviation SH := (StreamHandle EC FR).
Abbreviation SS := (Session FT EC FS FR CR TM).
Abbreviation SM := (M SS (SessErr IOE)).

(** What a call returns. *)
Inductive Outcome := OpenResult (r : Error + SH) | CloseDone.

(** Where a call awaits: the command is being sent, or the one-shot receiver. *)
Inductive CallState := Sending (c : Call) | Waiting (c : Call) | Returned (c : Call) (o : Outcome).

Definition call_of (st : CallState) : Call := match st with Sending c | Waiting c | Returned c _ => c end.

(** A call up to its first [await]: [close] returns at once when the channel is closed. *)
Definition call_start (closed : bool) (c : Call) : CallState :=
  match c with
  | CallOpen => Sending CallOpen
  | CallClose => if closed then Returned CallClose CloseDone else Sending CallClose
  end.

(** After [send]: [open_stream] fails with it, [close] ignores its result. [send] also waits until the
    channel is flushed, which changes neither the command nor the result. *)
Definition call_sent (c : Call) (ok : bool) : CallState :=
  match c, ok with
  | CallOpen, false => Returned CallOpen (OpenResult (inl SessionShutdown))
  | _, _ => Waiting c
  end.

(** After [rx.await]; [None] for the receiver is that its sender was dropped. The result is [None] for
    an answer of the wrong type, which the types of the one-shot channels exclude. *)
Definition call_replied (c : Call) (r : option (Reply SH)) : option CallState :=
  match c, r with
  | CallOpen, Some (RepOpen x) => Some (Returned CallOpen (OpenResult x))
  | CallOpen, None => Some (Returned CallOpen (OpenResult (inl SessionShutdown)))
  | CallClose, Some RepShutdown | CallClose, None => Some (Returned CallClose CloseDone)
  | _, _ => None
  end.

(** ** Controls and their session *)

(** [cs_log] is ghost: the commands the channel accepted. *)
Record control_sys := mkControlSys {
  cs_session : SS;
  cs_gone : bool;
  cs_calls : list CallState;
  cs_log : list Command;
}.

Definition queued (s : SS) : list Command := recv_queue (ss_control_receiver s).

(** The one-shot channel of the call [tx]: its sender travels with the command, and is dropped with the
    queue of a session that is gone. *)
Definition oneshot_poll (x : control_sys) (tx : nat) : Poll (option (Reply SH)) :=
  match list_find (λ p, p.1 = tx) (ss_replies (cs_session x)) with
  | Some (_, p) => Ready (Some p.2)
  | None =>
      if negb (cs_gone x) && existsb (λ cmd, Nat.eqb (command_tx cmd) tx) (queued (cs_session x)) then Pending
      else Ready None
  end.

(** The calls advance, the session is polled or used by its owner, the transport, the timer and the
    streams move, and the session is dropped. *)
Inductive control_step : control_sys → control_sys → Prop :=
| cs_call s gone calls log c : control_step (mkControlSys s gone calls log)
    (mkControlSys s gone (calls ++ [call_start gone c]) log)
| cs_accepted s calls log tx c cr : calls !! tx = Some (Sending c) →
    recv_queue cr = queued s ++ [command c tx] → control_step (mkControlSys s false calls log)
    (mkControlSys (put_control_receiver cr s) false (<[tx := call_sent c true]> calls) (log ++ [command c tx]))
| cs_refused s calls log tx c : calls !! tx = Some (Sending c) →
    control_step (mkControlSys s true calls log) (mkControlSys s true (<[tx := call_sent c false]> calls) log)
| cs_replied s gone calls log tx c r st : calls !! tx = Some (Waiting c) →
    oneshot_poll (mkControlSys s gone calls log) tx = Ready r → call_replied c r = Some st →
    control_step (mkControlSys s gone calls log) (mkControlSys s gone (<[tx := st]> calls) log)
| cs_poll s calls log now : control_step (mkControlSys s false calls log)
    (mkControlSys (sess_poll_next (IOE := IOE) now s).1 false calls log)
| cs_open s calls log : control_step (mkControlSys s false calls log) (mkControlSys (open_stream s).1 false calls log)
| cs_shutdown s calls log : control_step (mkControlSys s false calls log)
    (mkControlSys (shutdown (IOE := IOE) s).1 false calls log)
| cs_env s calls log t ec st tm : dom st = dom (ss_streams s) → control_step (mkControlSys s false calls log)
    (mkControlSys (put_framed t (put_events ec (put_streams st (put_keepalive tm s)))) false calls log)
| cs_drop s calls log : control_step (mkControlSys s false calls log) (mkControlSys s true calls log).

(** ** What the session answers *)

(** The answers to the commands that were taken, in order; only the answer of a shutdown can be
    missing, when the go-away could not be written. *)
Inductive answered : list Command → list (nat * Reply SH) → Prop :=
| an_nil : answered [] []
| an_open l rs tx x : answered l rs → answered (l ++ [OpenStream tx]) (rs ++ [(tx, RepOpen x)])
| an_shutdown l rs tx : answered l rs → answered (l ++ [Shutdown tx]) (rs ++ [(tx, RepShutdown)])
| an_failed l rs tx : answered l rs → answered (l ++ [Shutdown tx]) rs.

Definition reply_stream (p : nat * Reply SH) : option Z :=
  match p.2 with RepOpen (inr h) => Some (s_id h) | _ => None end.

(** The identifiers of the streams that were handed out, below the next one. *)
Definition ids_below (n : Z) (rs : list (nat * Reply SH)) : Prop :=
  NoDup (omap reply_stream rs) ∧ Forall (λ i, i < n) (omap reply_stream rs).

(** [log] are the commands so far, and [old] answers that were given. *)
Definition served (log : list Command) (old : list (nat * Reply SH)) (s : SS) : Prop :=
  sess_inv s ∧ old ⊆ ss_replies s ∧ ids_below (ss_next_stream_id s) (ss_replies s) ∧
  ∃ taken, log = taken ++ queued s ∧ answered taken (ss_replies s).

Context `{FL : !FramedLaws FT IOE} `{USL : !UnboundedSenderLaws EC StreamEvent}.
Context `{REL : !ReceiverLaws EC StreamEvent} `{ECL : !EventChannelLaws EC StreamEvent}.
Context `{BSL : !BoundedSenderLaws FS Frame} `{RCL : !ReceiverLaws FR Frame}.
Context `{NCL : !NewChannelLaws FS FR Frame} `{CRL : !ReceiverLaws CR Command}.
Context `{EL : !LiveReceiver EC StreamEvent} `{CL : !LiveReceiver CR Command}.

(** ** What does not concern the commands *)

Definition aside (cr : CR) (rs : list (nat * Reply SH)) (w : nat) (n : Z) (s : SS) : Prop :=
  ss_control_receiver s = cr ∧ ss_replies s = rs ∧ ss_wakes s = w ∧ n <= ss_next_stream_id s.

Lemma as_modify {E} cr rs w n (f : SS → SS) :
  (∀ s, ss_control_receiver (f s) = ss_control_receiver s ∧ ss_replies (f s) = ss_replies s ∧
    ss_wakes (f s) = ss_wakes s ∧ ss_next_stream_id (f s) = ss_next_stream_id s) →
  keeps (aside cr rs w n) (modify f : M SS E unit).
Proof. intros Hf. apply keeps_modify. intros s. unfold aside. by destruct (Hf s) as (->&->&->&->). Qed.

Hint Extern 1 (keeps (aside _ _ _ _) (modify _)) => apply as_modify; by intros [] : keeps.

Section Aside.
Context (cr : CR) (rs : list (nat * Reply SH)) (w : nat) (n : Z).

Lemma as_sink_ready : keeps (aside cr rs w n) (sink_poll_ready : SM (Poll unit)).
Proof. intros s Hs. unfold sink_poll_ready. destruct (fr_poll_ready _) as [t [[]|]]; by destruct s. Qed.
Lemma as_sink_start f : keeps (aside cr rs w n) (sink_start_send f : SM unit).
Proof. intros s Hs. unfold sink_start_send. destruct (fr_start_send _ _) as [t []]; by destruct s. Qed.
Lemma as_poll_complete : keeps (aside cr rs w n) (poll_complete : SM bool).
Proof. intros s Hs. unfold poll_complete. destruct (fr_poll_flush _) as [t [[]|]]; by destruct s. Qed.
Hint Resolve as_sink_ready as_sink_start as_poll_complete : keeps.

Lemma as_send_all_loop k : keeps (aside cr rs w n) (send_all_loop k : SM bool).
Proof. induction k; cbn [send_all_loop]; keeps_walk. Qed.
Hint Resolve as_send_all_loop : keeps.

Lemma as_go_away code : keeps (aside cr rs w n) (send_go_away_with_code code : SM unit).
Proof. unfold send_go_away_with_code, send_frame, send_all, push_write. keeps_walk. Qed.
Lemma as_send_frame f : keeps (aside cr rs w n) (send_frame f : SM unit).
Proof. unfold send_frame, send_all, push_write. keeps_walk. Qed.
Hint Resolve as_go_away as_send_frame : keeps.

Lemma as_create_stream o : keeps (aside cr rs w n) (create_stream o : M SS Error SH).
Proof.
  unfold create_stream. apply keeps_bind.
  { destruct o; [apply keeps_ret|]. intros s Hs. unfold mbind, M_bind. cbn [gets].
    destruct (checked_add 32 (ss_next_stream_id s) 2) eqn:E; [|done].
    apply checked_add_Some in E as [-> _]. unfold aside in *. cbn. naive_solver lia. }
  intros [id st]. destruct (channel 8) as [fs fr]. keeps_walk.
Qed.
Hint Resolve as_create_stream : keeps.

Lemma as_open_stream : keeps (aside cr rs w n) (open_stream : M SS Error SH).
Proof. unfold open_stream. keeps_walk. Qed.
Lemma as_shutdown : keeps (aside cr rs w n) (shutdown : SM unit).
Proof. unfold shutdown, send_go_away_normal. keeps_walk. Qed.

Lemma as_distribute_loop b buf : keeps (aside cr rs w n) (distribute_loop b buf : SM unit).
Proof.
  revert b. induction buf as [|f buf IH]; intros b; cbn [distribute_loop];
    unfold accept_syn, deliver_frame, push_write, push_read; keeps_walk.
Qed.
Hint Resolve as_open_stream as_shutdown as_distribute_loop : keeps.

Lemma as_flush : keeps (aside cr rs w n) (flush : SM unit).
Proof. unfold flush, distribute_to_substream, send_all. keeps_walk. Qed.
Lemma as_recv_frames : keeps (aside cr rs w n) (sess_recv_frames : SM bool).
Proof.
  unfold sess_recv_frames, sess_handle_frame, handle_stream_message, handle_ping, handle_go_away, send_ping,
    distribute_to_substream, send_go_away_normal, push_read. keeps_walk.
Qed.
Lemma as_recv_events : keeps (aside cr rs w n) (recv_events : SM bool).
Proof. unfold recv_events, handle_event. keeps_walk. Qed.
Lemma as_keepalive now : keeps (aside cr rs w n) (poll_keepalive now : SM unit).
Proof. unfold poll_keepalive, keep_alive, send_ping. keeps_walk. Qed.

End Aside.

(** ** The session serves its commands *)

Lemma ids_below_mono n m rs : n <= m → ids_below n rs → ids_below m rs.
Proof. intros Hn [H1 H2]. split; [done|]. eapply Forall_impl; [exact H2|]. cbn. lia. Qed.

(** A method that neither panics nor concerns the commands. *)
Lemma served_aside {E A} log old (c : M SS E A) : safe sess_inv c → (∀ cr rs w n, keeps (aside cr rs w n) c) → keeps (served log old) c.
Proof.
  intros Hs Ha s (HI&Ho&Hb&taken&Hl&Han). destruct (Hs s HI) as [_ HI'].
  destruct (Ha (ss_control_receiver s) (ss_replies s) (ss_wakes s) (ss_next_stream_id s) s) as (E1&E2&_&E3); [by split_and!|].
  split; [done|]. rewrite E2. split; [done|]. split; [by eapply ids_below_mono|]. exists taken. unfold queued. by rewrite E1.
Qed.

Lemma open_stream_id (a b : SS) h : sess_inv a → open_stream a = (b, ROk h) →
  s_id h = ss_next_stream_id a ∧ ss_next_stream_id b = ss_next_stream_id a + 2.
Proof.
  intros Ha. unfold open_stream, mbind, M_bind. cbn [gets].
  destruct (is_dead a); [done|]. cbn [gets]. destruct (ss_remote_go_away a); [done|].
  destruct (create_stream_run a None Ha ltac:(done)) as (ec & _ & ->).
  case_bool_decide; [done|]. destruct (decide _); [done|]. by intros [= <- <-].
Qed.

Lemma ids_below_other n rs tx r : reply_stream (tx, r) = None → ids_below n rs → ids_below n (rs ++ [(tx, r)]).
Proof. intros Hr [H1 H2]. unfold ids_below. rewrite omap_app. cbn. rewrite Hr. cbn. by rewrite app_nil_r. Qed.

Lemma ids_below_open n m rs tx h : ids_below n rs → s_id h = n → n < m → ids_below m (rs ++ [(tx, RepOpen (inr h))]).
Proof.
  intros [H1 H2] Hi Hm. unfold ids_below. rewrite omap_app. cbn. rewrite Hi. split.
  - apply NoDup_app. split_and!; [done| |apply NoDup_singleton]. intros i Hin Hj%list_elem_of_singleton. subst i.
    rewrite Forall_forall in H2. specialize (H2 _ Hin). lia.
  - apply Forall_app. split; [|by constructor]. eapply Forall_impl; [exact H2|]. cbn. lia.
Qed.

Lemma served_control_poll log old : keeps (served log old) (control_poll : SM bool).
Proof.
  intros s (HI&Ho&Hb&taken&Hl&Han). pose proof (ssafe_control_poll s HI) as [HP HI']. split; [done|]. clear HI'.
  revert HP. unfold control_poll. unfold mbind, M_bind. cbn [gets].
  destruct (recv_poll_next (ss_control_receiver s)) as [cr' p] eqn:Er. cbn [modify].
  set (s1 := put_control_receiver cr' s).
  assert (sess_inv s1) as HI1 by (by destruct s).
  assert (∀ s2 : SS, aside cr' (ss_replies s) (ss_wakes s) (ss_next_stream_id s) s2 →
    ss_replies s2 = ss_replies s ∧ queued s2 = recv_queue cr' ∧ ids_below (ss_next_stream_id s2) (ss_replies s)) as HA.
  { intros s2 (A1&A2&_&A3). unfold queued. rewrite A1. split_and!; [done..|]. by eapply ids_below_mono. }
  assert (aside cr' (ss_replies s) (ss_wakes s) (ss_next_stream_id s) s1) as A1 by (by destruct s).
  unfold queued in Hl. destruct p as [[[tx|tx]|]|].
  - apply recv_some in Er. rewrite Er in Hl. unfold catch.
    pose proof (as_open_stream _ _ _ _ _ A1) as A2. pose proof (ssafe_open_stream s1 HI1) as [HO _].
    destruct (open_stream s1) as [s2 [h|e|]] eqn:Eo; [| |done]; unfold reply; cbn; ss_simpl;
      destruct (HA s2 A2) as (E1&E2&E3); intros _; rewrite E1.
    + destruct (open_stream_id _ _ _ HI1 Eo) as [I1 I2]. split; [by apply list_subseteq_app_l|]. split.
      { cbn in I1. eapply (ids_below_open (ss_next_stream_id s)); [done|by destruct s|]. rewrite I2. unfold s1; ss_simpl. lia. }
      exists (taken ++ [OpenStream tx]). split; [|by constructor]. change (queued _) with (queued s2). by rewrite E2, Hl, <- app_assoc.
    + split; [by apply list_subseteq_app_l|]. split; [by apply ids_below_other|]. exists (taken ++ [OpenStream tx]). split; [|by constructor].
      change (queued _) with (queued s2). by rewrite E2, Hl, <- app_assoc.
  - apply recv_some in Er. rewrite Er in Hl.
    pose proof (as_shutdown _ _ _ _ _ A1) as A2.
    destruct (shutdown s1) as [s2 [u|e|]] eqn:Eo; [| |done]; unfold reply; cbn; ss_simpl;
      destruct (HA s2 A2) as (E1&E2&E3); intros _; rewrite E1.
    + split; [by apply list_subseteq_app_l|]. split; [by apply ids_below_other|]. exists (taken ++ [Shutdown tx]). split; [|by constructor].
      change (queued _) with (queued s2). by rewrite E2, Hl, <- app_assoc.
    + split; [done|]. split; [done|]. exists (taken ++ [Shutdown tx]). split; [|by constructor]. by rewrite E2, Hl, <- app_assoc.
  - done.
  - apply recv_pending in Er as [Er1 Er2]. intros _. destruct (HA s1 A1) as (E1&E2&E3). cbn.
    change (ss_replies _) with (ss_replies s). split; [done|]. split; [done|]. exists taken. split; [|done]. by rewrite E2, Er2, <- Er1.
Qed.

Lemma served_pop log old (s : SS) h rest : ss_pending_streams s = h :: rest → served log old s → served log old (put_pending_streams rest s).
Proof.
  intros Hp ((H1&H2&H3&H4&H5)&Hr). split; [|exact Hr]. rewrite Hp, len_cons in H4. pose proof (len_nonneg rest).
  split; [exact H1|split; [exact H2|split; [exact H3|split; [|exact H5]]]].
  change (len rest <= Z.max 0 (accept_backlog (ss_config s))). lia.
Qed.

Lemma served_wakes log old (f : SS → nat) : keeps (served log old) (modify (λ s, put_wakes (f s) s) : SM unit).
Proof. by apply keeps_modify. Qed.

Lemma served_flush log old : keeps (served log old) (flush : SM unit).
Proof. apply served_aside; [apply ssafe_flush|intros; apply as_flush]. Qed.
Lemma served_poll_complete log old : keeps (served log old) (poll_complete : SM bool).
Proof. apply served_aside; [apply ssafe_poll_complete|intros; apply as_poll_complete]. Qed.
Lemma served_recv_frames log old : keeps (served log old) (sess_recv_frames : SM bool).
Proof. apply served_aside; [apply ssafe_sess_recv_frames|intros; apply as_recv_frames]. Qed.
Lemma served_recv_events log old : keeps (served log old) (recv_events : SM bool).
Proof. apply served_aside; [apply ssafe_recv_events|intros; apply as_recv_events]. Qed.
Lemma served_keepalive log old now : keeps (served log old) (poll_keepalive now : SM unit).
Proof. apply served_aside; [apply ssafe_poll_keepalive|intros; apply as_keepalive]. Qed.
Hint Resolve served_control_poll served_wakes served_flush served_poll_complete served_recv_frames served_recv_events
  served_keepalive : keeps.

Lemma served_poll_loop log old k need : keeps (served log old) (poll_loop k need : SM (Poll (option SH))).
Proof.
  revert need. induction k as [|k IH]; intros need; cbn [poll_loop]; [keeps_walk|].
  apply keeps_bind; [apply keeps_gets|intros []]; [apply keeps_ret|].
  apply keeps_bind; [eauto with keeps|intros _]. apply keeps_bind; [eauto with keeps|intros _].
  apply keeps_gets_bind. intros s Hs. destruct (ss_pending_streams s) as [|h rest] eqn:Hp; [|by eapply served_pop].
  assert (keeps (served log old) (p1 ← control_poll; p2 ← sess_recv_frames; p3 ← recv_events;
    if p1 && p2 && p3 then mret Pending else poll_loop k true : SM (Poll (option SH)))) as HK by keeps_walk.
  by apply HK.
Qed.

Lemma served_poll log old now : keeps (served log old) (sess_poll_next now : SM (Poll (option SH))).
Proof. unfold sess_poll_next. pose proof served_poll_loop. keeps_walk. Qed.

(** ** The commands of a poll that sleeps *)

Lemma aside_run {E A} (c : M SS E A) s s' r : (∀ cr rs w n, keeps (aside cr rs w n) c) → c s = (s', r) →
  ss_wakes s' = ss_wakes s ∧ queued s' = queued s.
Proof.
  intros Ha E1. destruct (Ha (ss_control_receiver s) (ss_replies s) (ss_wakes s) (ss_next_stream_id s) s) as (A1&_&A3&_); [by split_and!|].
  rewrite E1 in A1, A3. cbn in A1, A3. unfold queued. by rewrite A1.
Qed.

Lemma control_poll_drains (s s' : SS) b : (control_poll : SM bool) s = (s', ROk b) →
  ss_wakes s' = ss_wakes s ∧ (b = true → queued s' = []).
Proof.
  unfold control_poll. unfold mbind, M_bind. cbn [gets].
  destruct (recv_poll_next (ss_control_receiver s)) as [cr' p] eqn:Er. cbn [modify].
  destruct p as [[[tx|tx]|]|]; [| |done|].
  - unfold catch. destruct (open_stream _) as [s2 [h|e|]] eqn:Eo; [..|done];
      apply aside_run in Eo as [E1 _]; try (intros; apply as_open_stream); by intros [= <- <-].
  - destruct (shutdown _) as [s2 [h|e|]] eqn:Eo; [|done..].
    apply aside_run in Eo as [E1 _]; try (intros; apply as_shutdown); by intros [= <- <-].
  - apply recv_pending in Er as [_ Er]. by intros [= <- <-].
Qed.

Lemma poll_loop_drains k need (s s' : SS) : (k = O → need = true) →
  (poll_loop k need : SM (Poll (option SH))) s = (s', ROk Pending) →
  (ss_wakes s <= ss_wakes s')%nat ∧ (ss_wakes s' = ss_wakes s → queued s' = []).
Proof.
  revert need s. induction k as [|k IH]; intros need s Hn; cbn [poll_loop].
  { rewrite Hn by done. intros [= <-]. ss_simpl. split; [|intros]; lia. }
  intros (sa&dead&[= <- <-]&H)%bind_ok. destruct (is_dead s); [done|].
  apply bind_ok in H as (s1&[]&H1&H). apply aside_run in H1 as [W1 _]; [|intros; apply as_flush].
  apply bind_ok in H as (s2&b2&H2&H). apply aside_run in H2 as [W2 _]; [|intros; apply as_poll_complete].
  apply bind_ok in H as (sb&pend&[= <- <-]&H). destruct (ss_pending_streams s2); [|done].
  apply bind_ok in H as (s3&p1&H3&H). apply control_poll_drains in H3 as [W3 Q3].
  apply bind_ok in H as (s4&p2&H4&H). apply aside_run in H4 as [W4 Q4]; [|intros; apply as_recv_frames].
  apply bind_ok in H as (s5&p3&H5&H). apply aside_run in H5 as [W5 Q5]; [|intros; apply as_recv_events].
  destruct (p1 && p2 && p3) eqn:Ep.
  - injection H as <-. apply andb_true_iff in Ep as [[-> _]%andb_true_iff _]. split; [lia|]. intros _. by rewrite Q5, Q4, Q3.
  - apply IH in H as [W6 Q6]; [|done]. split; [lia|]. intros HW. apply Q6. lia.
Qed.

(** ** The calls *)

(** What the calls of a system of controls satisfy, beside what the session does. *)
Record calls_ok (x : control_sys) : Prop := {
  co_served : served (cs_log x) [] (cs_session x);
  co_once : NoDup (command_tx <$> cs_log x);
  co_log : ∀ cmd, cmd ∈ cs_log x → ∃ st, cs_calls x !! command_tx cmd = Some st ∧ call_of st = command_call cmd ∧
    st ≠ Sending (call_of st);
  co_waiting : ∀ tx c, cs_calls x !! tx = Some (Waiting c) → command c tx ∈ cs_log x ∨ (c = CallClose ∧ cs_gone x = true);
  co_open : ∀ tx c h, cs_calls x !! tx = Some (Returned c (OpenResult (inr h))) →
    c = CallOpen ∧ (tx, RepOpen (inr h)) ∈ ss_replies (cs_session x);
  co_error : ∀ tx c e, cs_calls x !! tx = Some (Returned c (OpenResult (inl e))) →
    c = CallOpen ∧ ((tx, RepOpen (inl e)) ∈ ss_replies (cs_session x) ∨ (e = SessionShutdown ∧ cs_gone x = true));
}.

(** Every answer is to a command, and every command that was taken is answered, but for a shutdown. *)
Lemma answered_sound l rs tx r : answered l rs → (tx, r) ∈ rs →
  match r with RepOpen _ => OpenStream tx ∈ l | RepShutdown => Shutdown tx ∈ l end.
Proof.
  induction 1 as [|l rs t x _ IH|l rs t _ IH|l rs t _ IH]; intros Hin; [by apply elem_of_nil in Hin|..].
  - apply elem_of_app in Hin as [Hin|[= -> ->]%list_elem_of_singleton]; [|set_solver]. specialize (IH Hin). destruct r; set_solver.
  - apply elem_of_app in Hin as [Hin|[= -> ->]%list_elem_of_singleton]; [|set_solver]. specialize (IH Hin). destruct r; set_solver.
  - specialize (IH Hin). destruct r; set_solver.
Qed.

Lemma answered_open l rs tx : answered l rs → OpenStream tx ∈ l → ∃ x, (tx, RepOpen x) ∈ rs.
Proof.
  induction 1 as [|l rs t x _ IH|l rs t _ IH|l rs t _ IH]; intros Hin; [by apply elem_of_nil in Hin|..];
    apply elem_of_app in Hin as [Hin|Heq%list_elem_of_singleton]; try (destruct (IH Hin) as [y Hy]; exists y; set_solver);
    simplify_eq. exists x. set_solver.
Qed.

Lemma oneshot_cases x tx :
  match oneshot_poll x tx with
  | Ready (Some r) => (tx, r) ∈ ss_replies (cs_session x)
  | Ready None => (∀ r, (tx, r) ∉ ss_replies (cs_session x)) ∧
      (cs_gone x = true ∨ ∀ cmd, cmd ∈ queued (cs_session x) → command_tx cmd ≠ tx)
  | Pending => cs_gone x = false ∧ ∃ cmd, cmd ∈ queued (cs_session x) ∧ command_tx cmd = tx
  end.
Proof.
  unfold oneshot_poll. destruct (list_find _ _) as [[i [t r]]|] eqn:Ef.
  - apply list_find_Some in Ef as (Hl&Hp&_). cbn in *. subst t. by eapply list_elem_of_lookup_2.
  - apply list_find_None in Ef. rewrite Forall_forall in Ef. destruct (negb (cs_gone x) && _) eqn:Eb.
    + apply andb_true_iff in Eb as [Eg Eq%existsb_exists]. split; [by destruct (cs_gone x)|].
      destruct Eq as (cmd&Hin&He). exists cmd. split; [by apply list_elem_of_In|by apply Nat.eqb_eq].
    + split; [intros r Hr; by apply (Ef _ Hr)|]. destruct (cs_gone x); [by left|]. right. intros cmd Hin He.
      cbn in Eb. apply not_true_iff_false in Eb. apply Eb, existsb_exists. exists cmd.
      split; [by apply list_elem_of_In|by apply Nat.eqb_eq].
Qed.

(** A call that opens a stream is left without an answer only when the session is gone. *)
Lemma unanswered x tx : calls_ok x → cs_calls x !! tx = Some (Waiting CallOpen) → oneshot_poll x tx = Ready None → cs_gone x = true.
Proof.
  intros HC Hw Ho. pose proof (oneshot_cases x tx) as HO. rewrite Ho in HO. destruct HO as [Hr [Hg|Hq]]; [done|].
  destruct (co_waiting _ HC _ _ Hw) as [Hin|[? _]]; [|done].
  destruct (co_served _ HC) as (_&_&_&taken&Hl&Ha). rewrite Hl in Hin. apply elem_of_app in Hin as [Hin|Hin].
  - destruct (answered_open _ _ _ Ha Hin) as [y Hy]. by apply Hr in Hy.
  - by apply Hq in Hin.
Qed.

Lemma calls_session s s' calls log : (∀ old, served log old s → served log old s') →
  calls_ok (mkControlSys s false calls log) → calls_ok (mkControlSys s' false calls log).
Proof.
  intros Hk [(HI&_&Hb&Ht) H2 H3 H4 H5 H6]. cbn in *.
  destruct (Hk (ss_replies s)) as (HI'&Hsub&Hb'&Ht'); [by split_and!|]. split; cbn; try done.
  - split_and!; [done| |done|done]. apply list_subseteq_nil.
  - intros tx c h Hc. destruct (H5 _ _ _ Hc). split; [done|]. by apply Hsub.
  - intros tx c e Hc. destruct (H6 _ _ _ Hc) as [-> [Hin|Hg]]; (split; [done|]); [left; by apply Hsub|by right].
Qed.

Lemma calls_accepted s calls log tx c cr : calls !! tx = Some (Sending c) → recv_queue cr = queued s ++ [command c tx] →
  calls_ok (mkControlSys s false calls log) →
  calls_ok (mkControlSys (put_control_receiver cr s) false (<[tx := call_sent c true]> calls) (log ++ [command c tx])).
Proof.
  intros Hs Hq [(HI&_&Hb&taken&Hl&Ha) H2 H3 H4 H5 H6]. cbn in *.
  assert (∀ cmd, cmd ∈ log → command_tx cmd ≠ tx) as Hnew.
  { intros cmd Hin <-. destruct (H3 _ Hin) as (st&Hst&_&Hn). rewrite Hs in Hst. injection Hst as <-. done. }
  assert (call_sent c true = Waiting c) as Hc by (by destruct c). rewrite Hc.
  split; cbn.
  - split_and!; [by destruct s|apply list_subseteq_nil|done|]. exists taken. split; [|done].
    unfold queued in *. ss_simpl. by rewrite Hq, Hl, app_assoc.
  - rewrite fmap_app. apply NoDup_app. split_and!; [done| |apply NoDup_singleton].
    intros t (cmd&->&Hin)%list_elem_of_fmap Ht%list_elem_of_singleton. apply (Hnew _ Hin). by destruct c.
  - intros cmd [Hin|Hcmd%list_elem_of_singleton]%elem_of_app.
    + destruct (H3 _ Hin) as (st&Hst&Hr). exists st. rewrite list_lookup_insert_ne; [done|]. intros He. by apply (Hnew _ Hin).
    + subst cmd. exists (Waiting c). destruct c; cbn; rewrite list_lookup_insert_eq by (by eapply lookup_lt_Some); done.
  - intros t d Ht. destruct (decide (t = tx)) as [->|Hne].
    + rewrite list_lookup_insert_eq in Ht by (by eapply lookup_lt_Some). injection Ht as <-. left. set_solver.
    + rewrite list_lookup_insert_ne in Ht by done. destruct (H4 _ _ Ht) as [Hin|?]; [left; set_solver|by right].
  - intros t d h Ht. apply list_lookup_insert_Some in Ht as [(_&?&_)|[_ Ht]]; [done|by eapply H5].
  - intros t d e Ht. apply list_lookup_insert_Some in Ht as [(_&?&_)|[_ Ht]]; [done|by eapply H6].
Qed.

(** A call returns, or goes on to wait for an answer that will not come. *)
Lemma calls_advance s gone calls log tx st st' : calls !! tx = Some st → call_of st' = call_of st →
  st' ≠ Sending (call_of st) →
  (∀ c, st' = Waiting c → c = CallClose ∧ gone = true) →
  (∀ c h, st' = Returned c (OpenResult (inr h)) → c = CallOpen ∧ (tx, RepOpen (inr h)) ∈ ss_replies s) →
  (∀ c e, st' = Returned c (OpenResult (inl e)) →
    c = CallOpen ∧ ((tx, RepOpen (inl e)) ∈ ss_replies s ∨ (e = SessionShutdown ∧ gone = true))) →
  calls_ok (mkControlSys s gone calls log) → calls_ok (mkControlSys s gone (<[tx := st']> calls) log).
Proof.
  intros Hs Hc Hn Hw Ho He [H1 H2 H3 H4 H5 H6]. cbn in *. split; cbn; [done|done| | | |].
  - intros cmd Hin. destruct (H3 _ Hin) as (st2&Hst2&Hr&Hs2). destruct (decide (command_tx cmd = tx)) as [<-|Hne].
    + exists st'. rewrite list_lookup_insert_eq by (by eapply lookup_lt_Some). split_and!; [done| |by rewrite Hc].
      rewrite Hst2 in Hs. injection Hs as <-. congruence.
    + exists st2. by rewrite list_lookup_insert_ne.
  - intros t d Ht. apply list_lookup_insert_Some in Ht as [(_&?&_)|[_ Ht]]; [right; by apply Hw|by apply H4].
  - intros t d h Ht. apply list_lookup_insert_Some in Ht as [(->&?&_)|[_ Ht]]; [by apply Ho|by eapply H5].
  - intros t d e Ht. apply list_lookup_insert_Some in Ht as [(->&?&_)|[_ Ht]]; [by apply He|by eapply H6].
Qed.

Lemma calls_new s gone calls log c :
  calls_ok (mkControlSys s gone calls log) → calls_ok (mkControlSys s gone (calls ++ [call_start gone c]) log).
Proof.
  intros [H1 H2 H3 H4 H5 H6]. cbn in *.
  assert (call_start gone c = Sending c ∨ call_start gone c = Returned c CloseDone) as Hst by (destruct c, gone; auto).
  split; cbn; [done|done| | | |].
  - intros cmd Hin. destruct (H3 _ Hin) as (st&Hl&Hr). exists st. by rewrite (lookup_app_l_Some _ _ _ _ Hl).
  - intros t d [Ht|[_ Ht]]%lookup_app_Some; [by apply H4|]. apply list_lookup_singleton_Some in Ht as [_ Ht].
    destruct Hst; congruence.
  - intros t d h [Ht|[_ Ht]]%lookup_app_Some; [by eapply H5|]. apply list_lookup_singleton_Some in Ht as [_ Ht].
    destruct Hst; congruence.
  - intros t d e [Ht|[_ Ht]]%lookup_app_Some; [by eapply H6|]. apply list_lookup_singleton_Some in Ht as [_ Ht].
    destruct Hst; congruence.
Qed.

Lemma calls_replied s gone calls log tx c r st : calls !! tx = Some (Waiting c) →
  oneshot_poll (mkControlSys s gone calls log) tx = Ready r → call_replied c r = Some st →
  calls_ok (mkControlSys s gone calls log) → calls_ok (mkControlSys s gone (<[tx := st]> calls) log).
Proof.
  intros Hs Ho Hr HC. pose proof (oneshot_cases (mkControlSys s gone calls log) tx) as HO. rewrite Ho in HO. cbn in HO.
  assert (call_of st = c ∧ ∃ o, st = Returned c o) as [Hc [o Ho']].
  { destruct c, r as [[]|]; cbn in Hr; simplify_eq; eauto. }
  eapply calls_advance; [done|done|by subst st|by subst st| | |done].
  - intros d h ->. destruct c, r as [[[]|]|]; cbn in Hr; simplify_eq. done.
  - intros d e ->. destruct c, r as [[[]|]|]; cbn in Hr; simplify_eq; (split; [done|]); [by left|].
    right. split; [done|]. by apply (unanswered _ _ HC Hs).
Qed.

Lemma control_step_ok x y : control_step x y → calls_ok x → calls_ok y.
Proof.
  intros [s gone calls log c|s calls log tx c cr Hs Hq|s calls log tx c Hs|s gone calls log tx c r st Hs Ho Hr
    |s calls log now|s calls log|s calls log|s calls log t ec st tm Hd|s calls log].
  - apply calls_new.
  - by apply calls_accepted.
  - destruct c; (eapply calls_advance; [done..| | |]); cbn; naive_solver.
  - by eapply calls_replied.
  - apply calls_session. intros old. apply served_poll.
  - apply calls_session. intros old. apply (served_aside log old (open_stream : M SS Error SH)); [apply ssafe_open_stream|intros; apply as_open_stream].
  - apply calls_session. intros old. apply (served_aside log old (shutdown : SM unit)); [apply ssafe_shutdown|intros; apply as_shutdown].
  - apply calls_session. intros old (HI&Ho&Hb&Ht). split_and!; [|done..]. by destruct s.
  - intros [H1 H2 H3 H4 H5 H6]. split; cbn in *; try done.
    + intros t c Ht. destruct (H4 _ _ Ht) as [?|[? ?]]; [by left|done].
    + intros t c e Ht. destruct (H6 _ _ _ Ht) as [? [?|[? ?]]]; [auto|done].
Qed.

(** Two answers with the same stream are one answer. *)
Lemma same_stream n rs t1 t2 h1 h2 : ids_below n rs → (t1, RepOpen (inr h1)) ∈ rs → (t2, RepOpen (inr h2)) ∈ rs →
  s_id h1 = s_id h2 → t1 = t2.
Proof.
  intros [Hn _] H1 H2 Hid. induction rs as [|p rs IH]; [by apply elem_of_nil in H1|]. cbn in Hn.
  assert (∀ t h, (t, RepOpen (inr h)) ∈ rs → s_id h ∈ omap reply_stream rs) as HE.
  { intros t h Hin. apply list_elem_of_omap. by exists (t, RepOpen (inr h)). }
  destruct (reply_stream p) as [i|] eqn:Ep.
  - apply NoDup_cons in Hn as [Hi Hn].
    apply elem_of_cons in H1 as [<-|H1], H2 as [E2|H2]; [by simplify_eq| | |by apply IH].
    + injection Ep as <-. destruct Hi. rewrite Hid. by eapply HE.
    + subst p. injection Ep as <-. destruct Hi. rewrite <- Hid. by eapply HE.
  - apply elem_of_cons in H1 as [<-|H1]; [done|]. apply elem_of_cons in H2 as [<-|H2]; [done|]. by apply IH.
Qed.

(** A session that was just made, with no calls yet. *)
Definition control_start (s : SS) : control_sys := mkControlSys s false [] [].

Lemma control_start_ok t ec cr cfg ty (s : SS) : Session_new t ec cr cfg ty = Some s →
  max_stream_window_size cfg < 2 ^ 32 → recv_queue cr = [] → calls_ok (control_start s).
Proof.
  intros Hnew Hm Hq. pose proof (Session_new_inv _ _ _ _ _ _ Hnew Hm) as HI.
  unfold Session_new in Hnew. revert Hnew. case_bool_decide; [|done]. intros [= Hs].
  split; cbn; [|constructor|by intros cmd Hc%elem_of_nil|done..].
  split_and!; [done|apply list_subseteq_nil|by rewrite <- Hs; split; constructor|].
  exists []. rewrite <- Hs. unfold queued. cbn. rewrite Hq. split; [done|constructor].
Qed.

(** C26: however the calls of the clones of a control interleave with the work of the session: a call
    that opens a stream and succeeds returns the stream the session opened for its own command, no two
    calls get the same stream, and one that fails returns the error of the session, or that it is shut down
    when it is gone. A call waits only while its command is in the queue of a live session; otherwise its
    answer is there and has the type it expects, and only a [close] may find its sender dropped
    while the session lives. *)
Theorem control_calls_answered t ec cr cfg ty (s : SS) (x : control_sys) :
  Session_new t ec cr cfg ty = Some s → max_stream_window_size cfg < 2 ^ 32 → recv_queue cr = [] →
  rtc control_step (control_start s) x →
  (∀ tx c h, cs_calls x !! tx = Some (Returned c (OpenResult (inr h))) → (tx, RepOpen (inr h)) ∈ ss_replies (cs_session x)) ∧
  (∀ t1 t2 c1 c2 h1 h2, cs_calls x !! t1 = Some (Returned c1 (OpenResult (inr h1))) →
    cs_calls x !! t2 = Some (Returned c2 (OpenResult (inr h2))) → t1 ≠ t2 → s_id h1 ≠ s_id h2) ∧
  (∀ tx c e, cs_calls x !! tx = Some (Returned c (OpenResult (inl e))) →
    (tx, RepOpen (inl e)) ∈ ss_replies (cs_session x) ∨ (e = SessionShutdown ∧ cs_gone x = true)) ∧
  (∀ tx c, cs_calls x !! tx = Some (Waiting c) →
    match oneshot_poll x tx with
    | Pending => cs_gone x = false ∧ command c tx ∈ queued (cs_session x)
    | Ready r => is_Some (call_replied c r) ∧ (r = None → c = CallClose ∨ cs_gone x = true)
    end).
Proof.
  intros Hnew Hm Hq HR. pose proof (control_start_ok _ _ _ _ _ _ Hnew Hm Hq) as HC.
  assert (calls_ok x) as HX by (clear -HR HC FL USL REL ECL BSL RCL NCL CRL EL CL; induction HR; eauto using control_step_ok).
  pose proof HX as [(_&_&Hids&taken&Hl&Ha) H2 H3 H4 H5 H6]. split_and!.
  - intros tx c h Ht. by apply (H5 _ _ _ Ht).
  - intros t1 t2 c1 c2 h1 h2 E1 E2 Hne He. apply Hne. eapply same_stream; [exact Hids| | |exact He]; [by eapply H5|by eapply H5].
  - intros tx c e Ht. by apply (H6 _ _ _ Ht).
  - intros tx c Ht. pose proof (oneshot_cases x tx) as HO.
    assert (∀ cmd, cmd ∈ cs_log x → command_tx cmd = tx → cmd = command c tx) as Hcmd.
    { intros cmd Hin <-. destruct (H3 _ Hin) as (st&Hst&Hc&_). rewrite Ht in Hst. injection Hst as <-. cbn in Hc. subst c.
      by rewrite command_parts. }
    destruct (oneshot_poll x tx) as [[r|]|] eqn:Eo.
    + split; [|done]. pose proof (answered_sound _ _ _ _ Ha HO) as Hin.
      destruct r as [y|]; (assert (Hlog : _ ∈ cs_log x) by (rewrite Hl; apply elem_of_app; left; exact Hin));
        specialize (Hcmd _ Hlog eq_refl); destruct c; cbn in *; by simplify_eq.
    + split; [by destruct c|]. intros _. destruct c; [right|by left]. by eapply unanswered.
    + destruct HO as [Hg (cmd&Hin&He)]. split; [done|]. rewrite <- (Hcmd cmd); [done| |done]. rewrite Hl. set_solver.
Qed.

(** A poll of the session that returns without having woken its own task has taken every command
    that was queued, so a waiting call is answered without another event. *)
Theorem poll_drains_commands (s s' : SS) now : (sess_poll_next now : SM (Poll (option SH))) s = (s', ROk Pending) →
  ss_wakes s' = ss_wakes s → queued s' = [].
Proof.
  unfold sess_poll_next. intros (sa&dead&[= <- <-]&H)%bind_ok HW. destruct (is_dead s); [done|].
  apply bind_ok in H as (s1&[]&H1&H). apply aside_run in H1 as [W1 _]; [|intros; apply as_keepalive].
  apply poll_loop_drains in H as [_ HQ]; [|done]. apply HQ. lia.
Qed.

End Control.

(** ** A run: a call opens a stream *)

Definition asked : DemoSession := put_control_receiver (mkLiveQueue [] [OpenStream 0]) (demo_session Client).
Definition served_demo : DemoSession := (sess_poll_next (IOE := unit) 0 asked).1.
Definition demo_waiting := mkControlSys served_demo false [Waiting CallOpen] [OpenStream 0].
Definition demo_answer : CallState :=
  match oneshot_poll demo_waiting 0 with
  | Ready r => default (Waiting CallOpen) (call_replied CallOpen r)
  | Pending => Waiting CallOpen
  end.
Definition demo_returned := mkControlSys served_demo false [demo_answer] [OpenStream 0].

Example demo_returns_stream :
  match demo_answer with Returned CallOpen (OpenResult (inr h)) => s_id h = 1 ∧ s_state h = SynSent | _ => False end.
Proof. by vm_compute. Qed.

Lemma control_calls_answered_witness :
  (∀ tx c h, cs_calls demo_returned !! tx = Some (Returned c (OpenResult (inr h))) →
    (tx, RepOpen (inr h)) ∈ ss_replies (cs_session demo_returned)) ∧ is_Some (cs_calls demo_returned !! 0%nat).
Proof.
  split; [|by eexists].
  apply (control_calls_answered (IOE := unit) (mkMemFramed [] [] false false) (mkLiveQueue [] []) (mkLiveQueue [] [])
    Config_default Client (demo_session Client)); [apply demo_session_new|done|done|].
  eapply rtc_l; [apply (cs_call (demo_session Client) false [] [] CallOpen)|].
  eapply rtc_l; [apply (cs_accepted (demo_session Client) [Sending CallOpen] [] 0 CallOpen (mkLiveQueue [] [OpenStream 0])); done|].
  eapply rtc_l; [apply (cs_poll asked [Waiting CallOpen] [OpenStream 0] 0)|].
  eapply rtc_l; [|apply rtc_refl].
  eapply (cs_replied served_demo false [Waiting CallOpen] [OpenStream 0] 0 CallOpen); [done|by vm_compute|by vm_compute].
Defined.

Lemma poll_drains_commands_witness : queued asked = [OpenStream 0] ∧ queued served_demo = [].
Proof. split; [done|]. by apply (poll_drains_commands (IOE := unit) asked served_demo 0); vm_compute. Defined.
