(* ===== verification/Multiaddr.v ===== *)
(** * Multiaddresses ([tentacle/multiaddr/src/protocol.rs], [lib.rs], [error.rs])

    The binary and the textual form of a [Multiaddr] and the operations on it. The
    [unsigned_varint] and [bs58] crates and the textual form of IPv6 addresses are
    interfaces; decimal numbers and IPv4 addresses are modelled. A [str]
    is the list of its bytes. *)

From Stdlib Require Import ZArith Lia Bool.
From Stdlib Require Import Strings.String.
From stdpp Require Import base list.
From S2P Require Import Prelude Text.

Open Scope Z_scope.

(** ** Interfaces *)

(** [bs58] and the textual IPv6 addresses of the standard library. *)
Class TextCodecs := {
  bs58_encode : bytes → bytes;
  bs58_decode : bytes → option bytes;
  ip6_to_string : list Z → bytes;
  ip6_from_str : bytes → option (list Z);
}.

Definition slash : byte := byte_of 47.

Definition ip6_wf (segs : list Z) : Prop := length segs = 8%nat ∧ Forall is_u16 segs.

Class TextCodecsLaws `{T : TextCodecs} : Prop := {
  bs58_roundtrip : ∀ b, bs58_decode (bs58_encode b) = Some b;
  bs58_no_slash : ∀ b, slash ∉ bs58_encode b;
  ip6_roundtrip : ∀ s, ip6_wf s → ip6_from_str (ip6_to_string s) = Some s;
  ip6_no_slash : ∀ s, slash ∉ ip6_to_string s;
}.

(** ** Data *)

Inductive MaError :=
| DataLessThanLen | InvalidMultiaddr | InvalidProtocolString | InvalidUvar | ParsingError
| UnknownHash | UnknownProtocolId (id : Z) | UnknownProtocolString.

Definition DNS4 : Z := 0x36.
Definition DNS6 : Z := 0x37.
Definition IP4 : Z := 0x04.
Definition IP6 : Z := 0x29.
Definition P2P : Z := 0x01a5.
Definition TCP : Z := 0x06.
Definition TLS : Z := 0x01c0.
Definition WS : Z := 0x01dd.
Definition WSS : Z := 0x01de.
Definition MEMORY : Z := 0x0309.
Definition SHA256_CODE : Z := 0x12.
Definition SHA256_SIZE : Z := 32.

Inductive Protocol :=
| Dns4 (s : bytes)
| Dns6 (s : bytes)
| Ip4 (a b c d : byte)
| Ip6 (segs : list Z)
| P2p (b : bytes)
| Tcp (port : Z)
| Tls (s : bytes)
| Ws
| Wss
| Memory (port : Z).

(** ** The standard library: decimal numbers, IPv4 addresses *)

(** Decimal digits, as [Display] writes them. *)
Definition digit (d : Z) : byte := byte_of (48 + d).
Definition digit_val (b : byte) : option Z :=
  if in_range 48 57 b then Some (byte_val b - 48) else None.

Fixpoint dec_fuel (fuel : nat) (z : Z) : bytes :=
  match fuel with
  | O => []
  | S f => if z <? 10 then [digit z] else dec_fuel f (z / 10) ++ [digit (z mod 10)]
  end.

(** Twenty digits hold a [u64]. *)
Definition dec (z : Z) : bytes := dec_fuel 20 z.

Fixpoint parse_digits (w : Z) (acc : Z) (l : bytes) : option Z :=
  match l with
  | [] => Some acc
  | b :: r =>
      match digit_val b with
      | None => None
      | Some d =>
          let n := 10 * acc + d in
          if n <? 2 ^ w then parse_digits w n r else None
      end
  end.

(** [parse::<u16>()] and the like: an optional [+], then at least one digit. *)
Definition parse_uint (w : Z) (s : bytes) : option Z :=
  match s with
  | [] => None
  | b :: r =>
      if bool_decide (b = byte_of 43) then
        if is_empty r then None else parse_digits w 0 r
      else parse_digits w 0 s
  end.

Definition dot : byte := byte_of 46.

(** A number of an IPv4 address: one to three digits, no leading zero, at most 255. *)
Definition ip4_part (s : bytes) : option byte :=
  if (len s =? 0) || (3 <? len s) then None
  else if (1 <? len s) && bool_decide (head s = Some (byte_of 48)) then None
  else byte_of <$> parse_digits 8 0 s.

Definition ip4_from_str (s : bytes) : option (byte * byte * byte * byte) :=
  match split_on dot s with
  | [a; b; c; d] =>
      match ip4_part a, ip4_part b, ip4_part c, ip4_part d with
      | Some a, Some b, Some c, Some d => Some (a, b, c, d)
      | _, _, _, _ => None
      end
  | _ => None
  end.

Definition ip4_to_string (a b c d : byte) : bytes :=
  dec (byte_val a) ++ dot :: dec (byte_val b) ++ dot :: dec (byte_val c) ++ dot :: dec (byte_val d).

Section Multiaddr.
Context `{V : Varint} `{T : TextCodecs}.

(** ** The binary form *)

Definition uvar (w : Z) (input : bytes) : MaError + (Z * bytes) :=
  match vi_decode w input with Some r => inr r | None => inl InvalidUvar end.

Definition split_header (n : Z) (input : bytes) : MaError + (bytes * bytes) :=
  if len input <? n then inl DataLessThanLen
  else inr (take (Z.to_nat n) input, drop (Z.to_nat n) input).

Definition check_p2p (data : bytes) : MaError + unit :=
  match uvar 16 data with
  | inl e => inl e
  | inr (code, bytes) =>
      if negb (code =? SHA256_CODE) then inl UnknownHash
      else if negb (len bytes =? SHA256_SIZE + 1) then inl UnknownHash
      else if negb (byte_val (default (byte_of 0) (head bytes)) =? SHA256_SIZE) then inl UnknownHash
      else inr tt
  end.

Fixpoint get_u16s (n : nat) (l : bytes) : list Z :=
  match n with
  | O => []
  | S m => be_val (take 2 l) :: get_u16s m (drop 2 l)
  end.

(** The length-prefixed payload of the string and hash components. *)
Definition from_payload (k : bytes → MaError + Protocol) (input : bytes) : MaError + (Protocol * bytes) :=
  match uvar 64 input with
  | inl e => inl e
  | inr (n, input) =>
      match split_header n input with
      | inl e => inl e
      | inr (data, rest) =>
          match k data with inl e => inl e | inr p => inr (p, rest) end
      end
  end.

Definition from_fixed (n : Z) (k : bytes → Protocol) (input : bytes) : MaError + (Protocol * bytes) :=
  match split_header n input with
  | inl e => inl e
  | inr (data, rest) => inr (k data, rest)
  end.

Definition from_utf8 (k : bytes → Protocol) (data : bytes) : MaError + Protocol :=
  if utf8_ok data then inr (k data) else inl ParsingError.

Definition byte_at (l : bytes) (i : nat) : byte := default (byte_of 0) (l !! i).

Definition from_bytes (input : bytes) : MaError + (Protocol * bytes) :=
  match uvar 32 input with
  | inl e => inl e
  | inr (id, input) =>
      if id =? DNS4 then from_payload (from_utf8 Dns4) input
      else if id =? DNS6 then from_payload (from_utf8 Dns6) input
      else if id =? IP4 then
        from_fixed 4 (λ d, Ip4 (byte_at d 0) (byte_at d 1) (byte_at d 2) (byte_at d 3)) input
      else if id =? IP6 then from_fixed 16 (λ d, Ip6 (get_u16s 8 d)) input
      else if id =? TLS then from_payload (from_utf8 Tls) input
      else if id =? P2P then
        from_payload (λ d, match check_p2p d with inl e => inl e | inr _ => inr (P2p d) end) input
      else if id =? TCP then from_fixed 2 (λ d, Tcp (be_val d)) input
      else if id =? WS then inr (Ws, input)
      else if id =? WSS then inr (Wss, input)
      else if id =? MEMORY then from_fixed 8 (λ d, Memory (be_val d)) input
      else inl (UnknownProtocolId id)
  end.

Definition put_payload (b : bytes) : bytes := vi_encode 64 (len b) ++ b.

Definition write_to_bytes (p : Protocol) : bytes :=
  match p with
  | Dns4 s => vi_encode 32 DNS4 ++ put_payload s
  | Dns6 s => vi_encode 32 DNS6 ++ put_payload s
  | Ip4 a b c d => vi_encode 32 IP4 ++ [a; b; c; d]
  | Ip6 segs => vi_encode 32 IP6 ++ concat (map (be_bytes 2) segs)
  | Tcp port => vi_encode 32 TCP ++ be_bytes 2 port
  | Tls s => vi_encode 32 TLS ++ put_payload s
  | P2p b => vi_encode 32 P2P ++ put_payload b
  | Ws => vi_encode 32 WS
  | Wss => vi_encode 32 WSS
  | Memory port => vi_encode 32 MEMORY ++ be_bytes 8 port
  end.

(** ** [Multiaddr]: the bytes of its components

    The loops over the components take the length of the bytes as fuel; every turn consumes
    at least one byte. *)

Definition Multiaddr := bytes.

Definition push (m : Multiaddr) (p : Protocol) : Multiaddr := m ++ write_to_bytes p.

Definition from_iter (ps : list Protocol) : Multiaddr := concat (map write_to_bytes ps).

(** [Iter::next]; [RPanic] is its [expect]. *)
Definition iter_next (data : bytes) : option (res MaError Protocol * bytes) :=
  if is_empty data then None else
  match from_bytes data with
  | inr (p, next) => Some (ROk p, next)
  | inl _ => Some (RPanic, data)
  end.

Fixpoint collect_fuel (fuel : nat) (data : bytes) : res MaError (list Protocol) :=
  match fuel with
  | O => if is_empty data then ROk [] else RPanic
  | S f =>
      match iter_next data with
      | None => ROk []
      | Some (ROk p, next) =>
          match collect_fuel f next with
          | ROk ps => ROk (p :: ps)
          | r => r
          end
      | Some (_, _) => RPanic
      end
  end.

(** [m.iter().collect()] *)
Definition iter (m : Multiaddr) : res MaError (list Protocol) := collect_fuel (length m) m.

(** The loop of [pop]: the last component and the slice it starts at. *)
Fixpoint pop_loop (fuel : nat) (slice : bytes) : res MaError (Protocol * bytes) :=
  match fuel with
  | O => RPanic
  | S f =>
      match from_bytes slice with
      | inl _ => RPanic
      | inr (p, s) => if is_empty s then ROk (p, slice) else pop_loop f s
      end
  end.

Definition pop (m : Multiaddr) : res MaError (option Protocol * Multiaddr) :=
  if is_empty m then ROk (None, m) else
  match pop_loop (length m) m with
  | ROk (p, slice) => ROk (Some p, take (length m - length slice)%nat m)
  | RErr e => RErr e
  | RPanic => RPanic
  end.

(** The loop of [replace] over the enumerated components: the written address and whether
    the component was replaced; [None] is its early return. *)
Fixpoint replace_loop (i at_ : nat) (by_ : Protocol → option Protocol) (ps : list Protocol)
    (address : bytes) (replaced : bool) : option (bytes * bool) :=
  match ps with
  | [] => Some (address, replaced)
  | p :: ps' =>
      if bool_decide (i = at_) then
        match by_ p with
        | Some q => replace_loop (S i) at_ by_ ps' (address ++ write_to_bytes q) true
        | None => None
        end
      else replace_loop (S i) at_ by_ ps' (address ++ write_to_bytes p) replaced
  end.

Definition replace (m : Multiaddr) (at_ : nat) (by_ : Protocol → option Protocol)
    : res MaError (option Multiaddr) :=
  match iter m with
  | ROk ps =>
      match replace_loop 0 at_ by_ ps [] false with
      | Some (address, true) => ROk (Some address)
      | _ => ROk None
      end
  | RErr e => RErr e
  | RPanic => RPanic
  end.

(** [TryFrom<Bytes>]. *)
Fixpoint try_loop (fuel : nat) (slice : bytes) : res MaError unit :=
  if is_empty slice then ROk tt else
  match fuel with
  | O => RPanic
  | S f => match from_bytes slice with inl e => RErr e | inr (_, s) => try_loop f s end
  end.

Definition try_from (v : bytes) : res MaError Multiaddr :=
  match try_loop (length v) v with
  | ROk _ => ROk v
  | RErr e => RErr e
  | RPanic => RPanic
  end.

(** ** The textual form *)

Definition proto_to_string (p : Protocol) : bytes :=
  match p with
  | Dns4 s => str "/dns4/" ++ s
  | Dns6 s => str "/dns6/" ++ s
  | Ip4 a b c d => str "/ip4/" ++ ip4_to_string a b c d
  | Ip6 segs => str "/ip6/" ++ ip6_to_string segs
  | P2p b => str "/p2p/" ++ bs58_encode b
  | Tcp port => str "/tcp/" ++ dec port
  | Tls s => str "/tls/" ++ s
  | Ws => str "/ws"
  | Wss => str "/wss"
  | Memory port => str "/memory/" ++ dec port
  end.

Definition to_string (m : Multiaddr) : res MaError bytes :=
  match iter m with
  | ROk ps => ROk (concat (map proto_to_string ps))
  | RErr e => RErr e
  | RPanic => RPanic
  end.

(** The argument after the name of a component. *)
Definition with_arg (parts : list bytes) (k : bytes → MaError + Protocol)
    : MaError + (Protocol * list bytes) :=
  match parts with
  | [] => inl InvalidProtocolString
  | s :: rest => match k s with inl e => inl e | inr p => inr (p, rest) end
  end.

Definition or_parsing {A B} (o : option A) (k : A → MaError + B) : MaError + B :=
  match o with Some a => k a | None => inl ParsingError end.

Definition from_str_peek (parts : list bytes) : MaError + (Protocol * list bytes) :=
  match parts with
  | [] => inl InvalidProtocolString
  | name :: rest =>
      if bool_decide (name = str "dns4") then with_arg rest (λ s, inr (Dns4 s))
      else if bool_decide (name = str "dns6") then with_arg rest (λ s, inr (Dns6 s))
      else if bool_decide (name = str "ip4") then
        with_arg rest (λ s, or_parsing (ip4_from_str s) (λ '(a, b, c, d), inr (Ip4 a b c d)))
      else if bool_decide (name = str "ip6") then
        with_arg rest (λ s, or_parsing (ip6_from_str s) (λ segs, inr (Ip6 segs)))
      else if bool_decide (name = str "tls") then with_arg rest (λ s, inr (Tls s))
      else if bool_decide (name = str "p2p") then
        with_arg rest (λ s, or_parsing (bs58_decode s) (λ d,
          match check_p2p d with inl e => inl e | inr _ => inr (P2p d) end))
      else if bool_decide (name = str "tcp") then
        with_arg rest (λ s, or_parsing (parse_uint 16 s) (λ n, inr (Tcp n)))
      else if bool_decide (name = str "ws") then inr (Ws, rest)
      else if bool_decide (name = str "wss") then inr (Wss, rest)
      else if bool_decide (name = str "memory") then
        with_arg rest (λ s, or_parsing (parse_uint 64 s) (λ n, inr (Memory n)))
      else inl UnknownProtocolString
  end.

(** The loop of [from_str]; every turn takes at least one part. *)
Fixpoint from_str_loop (fuel : nat) (parts : list bytes) (writer : bytes) : res MaError Multiaddr :=
  match parts with
  | [] => ROk writer
  | _ =>
      match fuel with
      | O => RPanic
      | S f =>
          match from_str_peek parts with
          | inl e => RErr e
          | inr (p, rest) => from_str_loop f rest (writer ++ write_to_bytes p)
          end
      end
  end.

Definition from_str (input : bytes) : res MaError Multiaddr :=
  match split_on slash input with
  | [] :: parts => from_str_loop (length parts) parts []
  | _ => RErr InvalidMultiaddr
  end.

(** ** Well-formed components: what the types and the checks guarantee *)

Definition name_ok (s : bytes) : Prop := utf8_ok s = true ∧ is_u64 (len s).

Definition proto_wf (p : Protocol) : Prop :=
  match p with
  | Dns4 s | Dns6 s | Tls s => name_ok s
  | Ip4 _ _ _ _ | Ws | Wss => True
  | Ip6 segs => ip6_wf segs
  | P2p b => check_p2p b = inr tt ∧ is_u64 (len b)
  | Tcp port => is_u16 port
  | Memory port => is_u64 port
  end.

End Multiaddr.
