(* ===== verification/MultiaddrProofs.v ===== *)
(** * Properties of multiaddresses

    Both forms are read back to what was written; a checked address never makes an operation
    panic; the operations act on the list of components as documented. *)

From Stdlib Require Import ZArith Lia Bool.
From Stdlib Require Import Strings.String.
From stdpp Require Import base list sets.
From S2P Require Import Prelude Text Multiaddr.

Open Scope Z_scope.

(** ** Decimal numbers and splitting *)

Lemma digit_val_digit d : 0 <= d < 10 → digit_val (digit d) = Some d.
Proof.
  intros Hd. unfold digit_val, digit, in_range. rewrite byte_val_of, Z.mod_small by lia.
  replace (48 <=? 48 + d) with true by lia. replace (48 + d <=? 57) with true by lia.
  cbn [andb]. f_equal. lia.
Qed.

Lemma parse_digits_snoc w l d n acc :
  parse_digits w acc l = Some n → 0 <= d < 10 → 10 * n + d < 2 ^ w →
  parse_digits w acc (l ++ [digit d]) = Some (10 * n + d).
Proof.
  revert acc. induction l as [|b l IH]; intros acc; cbn -[digit digit_val Z.mul].
  - intros [= ->] Hd Hb. rewrite digit_val_digit by done. by replace (_ <? _) with true by lia.
  - destruct (digit_val b) as [x|]; [|done]. destruct (_ <? _); [|done]. apply IH.
Qed.

Lemma parse_dec_fuel w fuel z :
  0 <= z < 10 ^ Z.of_nat fuel → z < 2 ^ w → (0 < fuel)%nat →
  parse_digits w 0 (dec_fuel fuel z) = Some z.
Proof.
  revert z. induction fuel as [|fuel IH]; intros z Hz Hw Hf; [lia|].
  cbn [dec_fuel]. destruct (z <? 10) eqn:E.
  - apply (parse_digits_snoc w [] z 0 0); [done|lia|lia].
  - pose proof (Z.div_mod z 10 ltac:(lia)) as Hdm. pose proof (Z.mod_pos_bound z 10 ltac:(lia)).
    assert (10 ^ Z.of_nat (S fuel) = 10 * 10 ^ Z.of_nat fuel) as Hp
      by (rewrite Nat2Z.inj_succ, Z.pow_succ_r by lia; done).
    rewrite (parse_digits_snoc w _ (z mod 10) (z / 10) 0); [f_equal; lia| |lia|lia].
    apply IH; [split; [apply Z.div_pos; lia|apply Z.div_lt_upper_bound; lia]|lia|].
    destruct fuel; [cbn in Hz; lia|lia].
Qed.

(** The digits only. *)
Lemma dec_fuel_digits fuel z : 0 <= z → Forall (λ b, 48 <= byte_val b <= 57) (dec_fuel fuel z).
Proof.
  assert (∀ d, 0 <= d < 10 → 48 <= byte_val (digit d) <= 57) as Hd.
  { intros d H. unfold digit. rewrite byte_val_of, Z.mod_small; lia. }
  revert z. induction fuel as [|fuel IH]; intros z Hz; cbn [dec_fuel]; [constructor|].
  destruct (z <? 10) eqn:E; [constructor; [apply Hd; lia|constructor]|].
  apply Forall_app. split; [apply IH, Z.div_pos; lia|].
  constructor; [apply Hd, Z.mod_pos_bound; lia|constructor].
Qed.

Lemma not_digit b l c :
  Forall (λ b, 48 <= byte_val b <= 57) l → b = byte_of c → 0 <= c < 48 → b ∉ l.
Proof.
  intros Hl -> Hc Hin. rewrite Forall_forall in Hl. specialize (Hl _ Hin).
  rewrite byte_val_of, Z.mod_small in Hl; lia.
Qed.

Lemma dec_fuel_nonempty f z : dec_fuel (S f) z ≠ [].
Proof. cbn [dec_fuel]. destruct (z <? 10); [done|]. intros E. by apply app_eq_nil in E as [_ E]. Qed.

Lemma parse_uint_dec w z : in_width w z → w <= 64 → parse_uint w (dec z) = Some z.
Proof.
  intros [H1 H2] Hw.
  assert (0 <= z < 10 ^ Z.of_nat 20) as Hz.
  { split; [done|]. eapply Z.lt_le_trans; [exact H2|].
    transitivity (2 ^ 64); [apply Z.pow_le_mono_r; lia|apply Z.leb_le; vm_compute; reflexivity]. }
  pose proof (parse_dec_fuel w 20 z Hz H2 ltac:(lia)) as Hp.
  pose proof (not_digit (byte_of 43) _ 43 (dec_fuel_digits 20 z H1) eq_refl ltac:(lia)) as Hn.
  unfold parse_uint. change (dec z) with (dec_fuel 20 z). destruct (dec_fuel 20 z) as [|b r] eqn:E.
  - by apply dec_fuel_nonempty in E.
  - rewrite bool_decide_eq_false_2; [done|]. intros ->. apply Hn. left.
Qed.

Lemma ip4_part_dec b : ip4_part (dec (byte_val b)) = Some b.
Proof. by destruct b. Qed.

Lemma dec_no_dot b : dot ∉ dec (byte_val b).
Proof.
  eapply not_digit; [apply dec_fuel_digits, byte_val_range|reflexivity|lia].
Qed.

Lemma ip4_from_to a b c d : ip4_from_str (ip4_to_string a b c d) = Some (a, b, c, d).
Proof.
  unfold ip4_from_str, ip4_to_string.
  rewrite !split_on_app by apply dec_no_dot. rewrite split_on_none by apply dec_no_dot.
  by rewrite !ip4_part_dec.
Qed.

Lemma ip4_no_slash a b c d : slash ∉ ip4_to_string a b c d.
Proof.
  assert (∀ x, slash ∉ dec (byte_val x)) as Hd.
  { intros x. eapply not_digit; [apply dec_fuel_digits, byte_val_range|reflexivity|lia]. }
  unfold ip4_to_string. assert (slash ≠ dot) by done.
  rewrite !elem_of_app, !elem_of_cons, !elem_of_app, !elem_of_cons, !elem_of_app, !elem_of_cons.
  pose proof (Hd a). pose proof (Hd b). pose proof (Hd c). pose proof (Hd d). naive_solver.
Qed.

Section Proofs.
Context `{VL : VarintLaws} `{TL : TextCodecsLaws}.

(** ** The binary form of one component *)

Lemma uvar_encode w n rest : w <= 64 → in_width w n → uvar w (vi_encode w n ++ rest) = inr (n, rest).
Proof. intros Hw Hn. unfold uvar. by rewrite vi_roundtrip. Qed.

Lemma split_header_app d rest : split_header (len d) (d ++ rest) = inr (d, rest).
Proof.
  unfold split_header. rewrite len_app. pose proof (len_nonneg rest).
  replace (_ <? _) with false by lia. unfold len. rewrite Nat2Z.id.
  by rewrite take_app_length, drop_app_length.
Qed.

Lemma from_payload_put k b rest p :
  is_u64 (len b) → k b = inr p → from_payload k (put_payload b ++ rest) = inr (p, rest).
Proof.
  intros Hb Hk. unfold from_payload, put_payload. rewrite <- app_assoc, uvar_encode by (lia || done).
  by rewrite split_header_app, Hk.
Qed.

Lemma from_fixed_app n k d rest : len d = n → from_fixed n k (d ++ rest) = inr (k d, rest).
Proof. intros <-. unfold from_fixed. by rewrite split_header_app. Qed.

Lemma get_u16s_concat segs rest :
  Forall is_u16 segs → get_u16s (length segs) (concat (map (be_bytes 2) segs) ++ rest) = segs.
Proof.
  induction 1 as [|x segs Hx Hs IH]; [done|]. cbn [length get_u16s map concat].
  rewrite <- app_assoc, take_app_length', drop_app_length' by (by rewrite be_bytes_length).
  by rewrite be_val_be_bytes_id, IH.
Qed.

Lemma concat_be_len segs : len (concat (map (be_bytes 2) segs)) = 2 * len segs.
Proof.
  induction segs as [|x segs IH]; [done|]. cbn [map concat].
  rewrite len_app, be_bytes_len, len_cons, IH. lia.
Qed.

Lemma from_bytes_write_lem p rest :
  proto_wf p → from_bytes (write_to_bytes p ++ rest) = inr (p, rest).
Proof.
  intros Hw. unfold from_bytes. destruct p; cbn [write_to_bytes proto_wf] in *;
    rewrite <- ?app_assoc; rewrite uvar_encode by (lia || done); cbn [Z.eqb Pos.eqb DNS4 DNS6 IP4 IP6 TLS P2P TCP WS WSS MEMORY].
  - destruct Hw as [H1 H2]. apply from_payload_put; [done|]. unfold from_utf8. by rewrite H1.
  - destruct Hw as [H1 H2]. apply from_payload_put; [done|]. unfold from_utf8. by rewrite H1.
  - by rewrite (from_fixed_app 4).
  - destruct Hw as [H1 H2]. rewrite from_fixed_app; [|rewrite concat_be_len; unfold len; by rewrite H1].
    pose proof (get_u16s_concat segs [] H2) as Hg. rewrite app_nil_r, H1 in Hg. by rewrite Hg.
  - destruct Hw as [H1 H2]. apply from_payload_put; [done|]. by rewrite H1.
  - rewrite from_fixed_app by apply be_bytes_len. by rewrite be_val_be_bytes_id.
  - destruct Hw as [H1 H2]. apply from_payload_put; [done|]. unfold from_utf8. by rewrite H1.
  - done.
  - done.
  - rewrite from_fixed_app by apply be_bytes_len. by rewrite be_val_be_bytes_id.
Qed.

(** A parser that reads a prefix and does not look at what follows. *)
Definition reads {A} (f : bytes → MaError + (A * bytes)) : Prop :=
  ∀ b a r, f b = inr (a, r) → ∃ d, b = d ++ r ∧ ∀ r', f (d ++ r') = inr (a, r').

Lemma split_header_reads n : 0 <= n → reads (split_header n).
Proof.
  intros Hn b a r H. unfold split_header in H. destruct (_ <? _) eqn:E; [done|]. injection H as <- <-.
  exists (take (Z.to_nat n) b). rewrite take_drop. split; [done|]. intros r'.
  pose proof (split_header_app (take (Z.to_nat n) b) r') as Hs.
  by rewrite len_take in Hs by lia.
Qed.

Lemma split_header_len n b d r : 0 <= n → split_header n b = inr (d, r) → len d = n.
Proof.
  intros Hn H. unfold split_header in H. destruct (_ <? _) eqn:E; [done|]. injection H as <- <-.
  apply len_take. lia.
Qed.

Lemma from_fixed_reads n k : 0 <= n → reads (from_fixed n k).
Proof.
  intros Hn b a r H. unfold from_fixed in H. destruct (split_header n b) as [|[d r1]] eqn:E; [done|].
  injection H as <- <-. apply split_header_reads in E as (d' & -> & E'); [|done].
  exists d'. split; [done|]. intros r'. unfold from_fixed. by rewrite E'.
Qed.

Lemma uvar_reads w b n r : uvar w b = inr (n, r) →
  in_width w n ∧ ∃ d, b = d ++ r ∧ d ≠ [] ∧ ∀ r', uvar w (d ++ r') = inr (n, r').
Proof.
  unfold uvar. destruct (vi_decode w b) as [[]|] eqn:E; [|done]. intros [= -> ->].
  apply vi_prefix in E as (Hw & d & -> & Hd & E'). split; [done|].
  exists d. split_and!; auto. intros r'. by rewrite E'.
Qed.

Lemma from_payload_reads k : reads (from_payload k).
Proof.
  intros b a r H. unfold from_payload in H. destruct (uvar 64 b) as [|[n b1]] eqn:E; [done|].
  apply uvar_reads in E as ([Hn _] & d1 & -> & _ & E1).
  destruct (split_header n b1) as [|[x r1]] eqn:E2; [done|].
  apply split_header_reads in E2 as (d2 & -> & E2); [|done].
  destruct (k x) as [|p] eqn:Ek; [done|]. injection H as <- <-.
  exists (d1 ++ d2). rewrite app_assoc. split; [done|]. intros r'. unfold from_payload.
  by rewrite <- app_assoc, E1, E2, Ek.
Qed.

(** What [from_bytes] does after the protocol identifier. *)
Definition from_body (id : Z) (input : bytes) : MaError + (Protocol * bytes) :=
  if id =? DNS4 then from_payload (from_utf8 Dns4) input
  else if id =? DNS6 then from_payload (from_utf8 Dns6) input
  else if id =? IP4 then
    from_fixed 4 (λ d, Ip4 (byte_at d 0) (byte_at d 1) (byte_at d 2) (byte_at d 3)) input
  else if id =? IP6 then from_fixed 16 (λ d, Ip6 (get_u16s 8 d)) input
  else if id =? TLS then from_payload (from_utf8 Tls) input
  else if id =? P2P then
    from_payload (λ d, match check_p2p d with inl e => inl e | inr _ => inr (P2p d) end) input
  else if id =? TCP then from_fixed 2 (λ d, Tcp (be_val d)) input
  else if id =? WS then inr (Ws, input)
  else if id =? WSS then inr (Wss, input)
  else if id =? MEMORY then from_fixed 8 (λ d, Memory (be_val d)) input
  else inl (UnknownProtocolId id).

Lemma from_bytes_body b :
  from_bytes b = match uvar 32 b with inl e => inl e | inr (id, r) => from_body id r end.
Proof. done. Qed.

Lemma from_body_reads id : reads (from_body id).
Proof.
  unfold reads, from_body.
  repeat match goal with |- context [if ?c then _ else _] => destruct c end;
    first [apply from_payload_reads | apply from_fixed_reads; lia | idtac].
  1,2: intros b a r [= <- <-]; by exists [].
  done.
Qed.

(** [from_bytes] reads a non-empty prefix. *)
Lemma from_bytes_reads b p r : from_bytes b = inr (p, r) →
  ∃ d, b = d ++ r ∧ d ≠ [] ∧ ∀ r', from_bytes (d ++ r') = inr (p, r').
Proof.
  rewrite from_bytes_body. destruct (uvar 32 b) as [|[id b1]] eqn:E; [done|]. intros H.
  apply uvar_reads in E as (_ & d1 & -> & Hd & E1). apply from_body_reads in H as (d2 & -> & E2).
  exists (d1 ++ d2). rewrite app_assoc. split_and!; [done|by destruct d1|].
  intros r'. rewrite from_bytes_body, <- app_assoc, E1. apply E2.
Qed.

Lemma get_u16s_wf n l : Forall is_u16 (get_u16s n l).
Proof.
  revert l. induction n as [|n IH]; intros l; cbn; [constructor|]. constructor; [|apply IH].
  pose proof (be_val_range (take 2 l)) as [H1 H2]. split; [done|].
  eapply Z.lt_le_trans; [exact H2|]. apply Z.pow_le_mono_r; [lia|].
  unfold len. rewrite length_take. lia.
Qed.

Lemma from_payload_wf k b p r (Q : Protocol → Prop) :
  (∀ d x, k d = inr x → is_u64 (len d) → Q x) → from_payload k b = inr (p, r) → Q p.
Proof.
  intros Hk H. unfold from_payload in H. destruct (uvar 64 b) as [|[n b1]] eqn:E; [done|].
  apply uvar_reads in E as (Hn & _). destruct (split_header n b1) as [|[x r1]] eqn:E2; [done|].
  apply split_header_len in E2; [|apply Hn]. destruct (k x) as [|q] eqn:Ek; [done|].
  injection H as -> ->. eapply Hk; [exact Ek|]. by rewrite E2.
Qed.

Lemma from_fixed_wf n k b p r (Q : Protocol → Prop) :
  0 <= n → (∀ d, len d = n → Q (k d)) → from_fixed n k b = inr (p, r) → Q p.
Proof.
  intros Hn Hk H. unfold from_fixed in H. destruct (split_header n b) as [|[d r1]] eqn:E; [done|].
  apply split_header_len in E; [|done]. injection H as <- <-. by apply Hk.
Qed.

Lemma from_bytes_wf b p r : from_bytes b = inr (p, r) → proto_wf p.
Proof.
  rewrite from_bytes_body. destruct (uvar 32 b) as [|[id b1]] eqn:E; [done|]. clear E.
  assert (∀ c, (∀ s, name_ok s → proto_wf (c s)) → ∀ d x, from_utf8 c d = inr x → is_u64 (len d) → proto_wf x) as Hu.
  { intros c Hc d x. unfold from_utf8. destruct (utf8_ok d) eqn:Hd; [|done]. intros [= <-] Hl. by apply Hc. }
  assert (∀ n l, len l = n → in_width (8 * n) (be_val l)) as Hb by (intros n l <-; apply be_val_range).
  unfold from_body.
  repeat match goal with |- context [if ?c then _ else _] => destruct c end;
    try (apply from_payload_wf, Hu; by intros); try (by intros [= <- <-]); try done;
    try (apply from_fixed_wf; [lia|]; intros d Hd; try done).
  - split; [done|]. apply get_u16s_wf.
  - apply from_payload_wf. intros d x. destruct (check_p2p d) as [|[]] eqn:Hc; [done|].
    intros [= <-] Hl. done.
  - apply (Hb 2 d Hd).
  - apply (Hb 8 d Hd).
Qed.

(** ** Addresses as lists of components *)

Inductive parses : bytes → list Protocol → Prop :=
| parses_nil : parses [] []
| parses_cons b p r ps : from_bytes b = inr (p, r) → parses r ps → parses b (p :: ps).

Lemma from_bytes_shorter b p r : from_bytes b = inr (p, r) → (length r < length b)%nat.
Proof.
  intros H. apply from_bytes_reads in H as (d & -> & Hd & _). rewrite length_app.
  destruct d; [done|cbn; lia].
Qed.

Lemma parses_nonempty b p ps : parses b (p :: ps) → is_empty b = false.
Proof.
  inversion 1 as [|? ? r ? Hb]; subst. apply from_bytes_shorter in Hb.
  by destruct b; [cbn in Hb; lia|].
Qed.

Lemma parses_collect fuel b ps :
  parses b ps → (length b <= fuel)%nat → collect_fuel fuel b = ROk ps.
Proof.
  intros Hp. revert fuel. induction Hp as [|b p r ps Hb Hp IH]; intros fuel Hf.
  - by destruct fuel.
  - pose proof (from_bytes_shorter _ _ _ Hb). pose proof (parses_nonempty b p ps (parses_cons _ _ _ _ Hb Hp)) as He.
    destruct fuel as [|fuel]; [destruct b; [done|cbn in *; lia]|].
    cbn [collect_fuel]. unfold iter_next. rewrite He, Hb, IH by lia. done.
Qed.

Lemma parses_iter b ps : parses b ps → iter b = ROk ps.
Proof. intros. by apply parses_collect. Qed.

Lemma parses_app a b ps qs : parses a ps → parses b qs → parses (a ++ b) (ps ++ qs).
Proof.
  intros Ha Hb. induction Ha as [|a p r ps Hp Ha IH]; [done|]. cbn.
  apply from_bytes_reads in Hp as (d & -> & _ & Hd). rewrite <- app_assoc.
  eapply parses_cons; [apply Hd|apply IH].
Qed.

Lemma parses_write p : proto_wf p → parses (write_to_bytes p) [p].
Proof.
  intros Hp. pose proof (from_bytes_write_lem p [] Hp) as H. rewrite app_nil_r in H.
  eapply parses_cons; [exact H|constructor].
Qed.

Lemma parses_from_iter ps : Forall proto_wf ps → parses (from_iter ps) ps.
Proof.
  induction 1 as [|p ps Hp Hs IH]; [constructor|].
  apply (parses_app (write_to_bytes p) (from_iter ps) [p] ps); auto using parses_write.
Qed.

Lemma parses_wf b ps : parses b ps → Forall proto_wf ps.
Proof. induction 1; constructor; eauto using from_bytes_wf. Qed.

Lemma parses_split b ps qs : parses b (ps ++ qs) → ∃ x y, b = x ++ y ∧ parses x ps ∧ parses y qs.
Proof.
  revert b. induction ps as [|p ps IH]; intros b H.
  - exists [], b. split_and!; [done|constructor|done].
  - inversion H as [|? ? r ? Hb Hr]; subst. apply IH in Hr as (x & y & -> & Hx & Hy).
    apply from_bytes_reads in Hb as (d & -> & _ & Hd). exists (d ++ x), y.
    rewrite app_assoc. split_and!; [done| |done]. eapply parses_cons; [apply Hd|done].
Qed.

(** The loops that only check or look for the last component. *)
Lemma try_loop_spec fuel b :
  (length b <= fuel)%nat →
  match try_loop fuel b with
  | ROk _ => ∃ ps, parses b ps
  | RErr e => ∃ d r, b = d ++ r ∧ from_bytes r = inl e
  | RPanic => False
  end.
Proof.
  revert b. induction fuel as [|fuel IH]; intros b Hf.
  - destruct b; [|cbn in Hf; lia]. cbn. exists []. constructor.
  - cbn [try_loop]. destruct (is_empty b) eqn:He; [destruct b; [exists []; constructor|done]|].
    destruct (from_bytes b) as [e|[p r]] eqn:Hb; [by exists [], b|].
    pose proof (from_bytes_shorter _ _ _ Hb). specialize (IH r ltac:(lia)).
    destruct (try_loop fuel r) as [u|e|]; [| |done].
    + destruct IH as (ps & IH). exists (p :: ps). by eapply parses_cons.
    + destruct IH as (d & r2 & -> & Hr). apply from_bytes_reads in Hb as (d0 & -> & _).
      exists (d0 ++ d), r2. by rewrite app_assoc.
Qed.

Lemma pop_loop_spec fuel b ps p y :
  parses b ps → parses y [p] → (length (b ++ y) <= fuel)%nat →
  pop_loop fuel (b ++ y) = ROk (p, y).
Proof.
  intros Hb Hy. revert fuel. induction Hb as [|b q r ps Hq Hb IH]; intros fuel Hf; cbn [app].
  - inversion Hy as [|? ? r ? Hp Hr]; subst. inversion Hr; subst.
    pose proof (from_bytes_shorter _ _ _ Hp). destruct fuel; [cbn in *; lia|].
    cbn [pop_loop]. by rewrite Hp.
  - pose proof (from_bytes_shorter _ _ _ Hq) as Hl.
    pose proof (parses_nonempty _ _ _ Hy) as Hye.
    apply from_bytes_reads in Hq as (d & -> & Hd & Hq). rewrite length_app in Hl. rewrite !length_app in Hf.
    destruct fuel as [|fuel]; [lia|]. cbn [pop_loop]. rewrite <- app_assoc, Hq.
    destruct (is_empty (r ++ y)) eqn:He; [destruct r, y; done|].
    apply IH. rewrite length_app. lia.
Qed.

Lemma pop_spec m ps p :
  parses m (ps ++ [p]) → ∃ m', pop m = ROk (Some p, m') ∧ parses m' ps.
Proof.
  intros H. pose proof H as H0. apply parses_split in H as (x & y & -> & Hx & Hy).
  exists x. split; [|done]. unfold pop. pose proof (parses_nonempty _ _ _ Hy) as Hye.
  destruct (is_empty (x ++ y)) eqn:He; [destruct x, y; done|].
  rewrite (pop_loop_spec _ x ps p y Hx Hy) by done.
  rewrite length_app. replace (length x + length y - length y)%nat with (length x) by lia.
  by rewrite take_app_length.
Qed.

Lemma replace_loop_spec i at_ f ps acc :
  replace_loop i at_ f ps acc false =
  if decide (i <= at_)%nat then
    match ps !! (at_ - i)%nat with
    | None => Some (acc ++ from_iter ps, false)
    | Some p =>
        match f p with
        | None => None
        | Some q => Some (acc ++ from_iter (<[(at_ - i)%nat := q]> ps), true)
        end
    end
  else Some (acc ++ from_iter ps, false).
Proof.
  assert (∀ ps i acc b, (at_ < i)%nat → replace_loop i at_ f ps acc b = Some (acc ++ from_iter ps, b)) as Hpast.
  { clear. induction ps as [|p ps IH]; intros i acc b Hi; cbn [replace_loop].
    - unfold from_iter. cbn. by rewrite app_nil_r.
    - rewrite bool_decide_eq_false_2 by lia. rewrite IH by lia. unfold from_iter. cbn.
      by rewrite app_assoc. }
  destruct (decide (i <= at_)%nat) as [Hi|Hi]; [|apply Hpast; lia].
  revert i acc Hi. induction ps as [|p ps IH]; intros i acc Hi; cbn [replace_loop].
  { rewrite lookup_nil. unfold from_iter. cbn. by rewrite app_nil_r. }
  case_bool_decide as He.
  - subst i. rewrite Nat.sub_diag. cbn [lookup list_lookup]. destruct (f p) as [q|]; [|done].
    rewrite Hpast by lia. unfold from_iter. cbn. by rewrite app_assoc.
  - rewrite IH by lia. replace (at_ - i)%nat with (S (at_ - S i))%nat by lia. cbn [lookup list_lookup].
    change (list_lookup (at_ - S i)%nat ps) with (ps !! (at_ - S i)%nat).
    destruct (ps !! (at_ - S i)%nat) as [x|]; [destruct (f x) as [q|]; [|done]|];
      unfold from_iter; cbn [map concat insert list_insert]; by rewrite app_assoc.
Qed.

(** ** The textual form *)

(** Components whose text can be read back: names contain no separator. *)
Definition text_ok (p : Protocol) : Prop :=
  proto_wf p ∧ match p with Dns4 s | Dns6 s | Tls s => slash ∉ s | _ => True end.

(** The parts of the text of a component. *)
Definition parts_of (p : Protocol) : list bytes :=
  match p with
  | Dns4 s => [str "dns4"; s]
  | Dns6 s => [str "dns6"; s]
  | Ip4 a b c d => [str "ip4"; ip4_to_string a b c d]
  | Ip6 segs => [str "ip6"; ip6_to_string segs]
  | P2p b => [str "p2p"; bs58_encode b]
  | Tcp port => [str "tcp"; dec port]
  | Tls s => [str "tls"; s]
  | Ws => [str "ws"]
  | Wss => [str "wss"]
  | Memory port => [str "memory"; dec port]
  end.

Lemma proto_to_string_parts p : proto_to_string p = concat (map (cons slash) (parts_of p)).
Proof. destruct p; cbn [proto_to_string parts_of map concat]; rewrite ?app_nil_r; done. Qed.

Lemma dec_no_slash z : 0 <= z → slash ∉ dec z.
Proof. intros Hz. eapply not_digit; [by apply dec_fuel_digits|reflexivity|lia]. Qed.

Lemma parts_no_slash p : text_ok p → Forall (λ x, slash ∉ x) (parts_of p).
Proof.
  assert (∀ s, bool_decide (slash ∈ str s) = false → slash ∉ str s) as Hn
    by (intros s; by rewrite bool_decide_eq_false).
  intros [Hw Ht]. destruct p; cbn [parts_of]; repeat constructor;
    first [apply Hn; reflexivity | exact Ht | apply ip4_no_slash | apply ip6_no_slash
          | apply bs58_no_slash | apply dec_no_slash; apply Hw].
Qed.

Lemma from_str_peek_parts p rest :
  text_ok p → from_str_peek (parts_of p ++ rest) = inr (p, rest).
Proof.
  intros [Hw Ht]. destruct p; cbn [parts_of app from_str_peek with_arg proto_wf] in *;
    repeat (first [rewrite (bool_decide_eq_true_2 _ eq_refl) | rewrite bool_decide_eq_false_2 by done]);
    cbn [with_arg]; try done.
  - by rewrite ip4_from_to.
  - by rewrite ip6_roundtrip.
  - rewrite bs58_roundtrip. destruct Hw as [H1 H2]. cbn. by rewrite H1.
  - by rewrite parse_uint_dec.
  - by rewrite parse_uint_dec.
Qed.

Lemma from_str_loop_parts ps writer fuel :
  Forall text_ok ps → (length (concat (map parts_of ps)) <= fuel)%nat →
  from_str_loop fuel (concat (map parts_of ps)) writer = ROk (writer ++ from_iter ps).
Proof.
  intros Hps. revert fuel writer. induction Hps as [|p ps Hp Hps IH]; intros fuel writer Hf.
  - cbn. destruct fuel; unfold from_iter; cbn; by rewrite app_nil_r.
  - cbn [map concat] in *. rewrite length_app in Hf.
    assert (∃ x xs, parts_of p = x :: xs) as (x & xs & Hx) by (destruct p; cbn; eauto).
    destruct fuel as [|fuel]; [rewrite Hx in Hf; cbn in Hf; lia|].
    assert (∀ rest, from_str_loop (S fuel) (parts_of p ++ rest) writer =
      from_str_loop fuel rest (writer ++ write_to_bytes p)) as Hstep.
    { intros rest. pose proof (from_str_peek_parts p rest Hp) as Hs.
      rewrite Hx in *. cbn [app from_str_loop] in *. by rewrite Hs. }
    rewrite Hstep, IH by (rewrite Hx in Hf; cbn in Hf; lia).
    unfold from_iter. cbn. by rewrite app_assoc.
Qed.

Lemma to_string_parts ps :
  concat (map proto_to_string ps) = concat (map (cons slash) (concat (map parts_of ps))).
Proof.
  induction ps as [|p ps IH]; [done|]. cbn [map concat].
  by rewrite IH, proto_to_string_parts, map_app, concat_app.
Qed.

Lemma iter_parses m ps : iter m = ROk ps → parses m ps.
Proof.
  unfold iter. generalize (length m) as fuel. intros fuel. revert m ps.
  induction fuel as [|fuel IH]; intros m ps; cbn [collect_fuel].
  - destruct m; [|done]. intros [= <-]. constructor.
  - unfold iter_next. destruct m as [|b m]; [intros [= <-]; constructor|]. cbn [is_empty].
    destruct (from_bytes (b :: m)) as [e|[p r]] eqn:Hb; [done|].
    destruct (collect_fuel fuel r) as [qs|e|] eqn:Hc; [|done..]. intros [= <-].
    eapply parses_cons; [exact Hb|by apply IH].
Qed.

(** ** The properties *)

(** The binary form of a component is read back: from the bytes of a well-formed component
    followed by anything, [from_bytes] returns the component and exactly what followed. *)
Theorem protocol_roundtrip p rest :
  proto_wf p → from_bytes (write_to_bytes p ++ rest) = inr (p, rest).
Proof. apply from_bytes_write_lem. Qed.

(** Checking untrusted bytes: [try_from] never panics; when it accepts, the address is the
    bytes, all its components are well formed, and iterating, printing and popping do not
    panic; when it refuses, some suffix of the bytes fails with that error. *)
Theorem try_from_checks v :
  match try_from v with
  | ROk m => m = v ∧ ∃ ps, iter m = ROk ps ∧ Forall proto_wf ps ∧
      to_string m = ROk (concat (map proto_to_string ps)) ∧
      (∃ m', pop m = ROk (last ps, m') ∧ iter m' = ROk (removelast ps))
  | RErr e => ∃ d r, v = d ++ r ∧ from_bytes r = inl e
  | RPanic => False
  end.
Proof.
  unfold try_from. pose proof (try_loop_spec (length v) v ltac:(lia)) as H.
  destruct (try_loop (length v) v) as [u|e|]; [|done..].
  destruct H as (ps & H). split; [done|]. exists ps. pose proof (parses_iter _ _ H) as Hi.
  split_and!; [done|by eapply parses_wf|unfold to_string; by rewrite Hi|].
  destruct ps as [|p qs _] using rev_ind.
  - inversion H; subst. exists []. done.
  - destruct (pop_spec _ _ _ H) as (m' & -> & Hm'). exists m'.
    by rewrite last_snoc, removelast_last, (parses_iter _ _ Hm').
Qed.

(** The operations act on the components: pushing appends one, popping takes back exactly
    the pushed one and restores the address, and a collected list of components iterates as
    that list. *)
Theorem push_pop_iter m ps p qs :
  iter m = ROk ps → proto_wf p → Forall proto_wf qs →
  iter (push m p) = ROk (ps ++ [p]) ∧ pop (push m p) = ROk (Some p, m) ∧
  iter (from_iter qs) = ROk qs.
Proof.
  intros Hm Hp Hqs. apply iter_parses in Hm. pose proof (parses_write p Hp) as Hw. split_and!.
  - by apply parses_iter, parses_app.
  - unfold pop, push. pose proof (parses_nonempty _ _ _ Hw) as He.
    destruct (is_empty (m ++ write_to_bytes p)) eqn:E; [destruct m; cbn in E; congruence|].
    rewrite (pop_loop_spec _ m ps p (write_to_bytes p) Hm Hw) by done.
    rewrite length_app, Nat.add_sub. by rewrite take_app_length.
  - by apply parses_iter, parses_from_iter.
Qed.

(** Replacing a component, as documented: [None] when the position is out of bounds or the
    function gives no replacement, otherwise the address with that component updated. *)
Theorem replace_component m ps at_ f :
  iter m = ROk ps →
  replace m at_ f = ROk (
    match ps !! at_ with
    | Some p => match f p with Some q => Some (from_iter (<[at_ := q]> ps)) | None => None end
    | None => None
    end).
Proof.
  intros Hm. unfold replace. rewrite Hm, replace_loop_spec. rewrite decide_True by lia.
  rewrite Nat.sub_0_r. destruct (ps !! at_) as [p|]; [|done]. by destruct (f p).
Qed.

(** C33: the textual form of an address is read back, for addresses made of well-formed components
    whose names ([dns4], [dns6] and [tls]) hold no '/': the address prints to a text that parses
    to the same address. (A name with a '/', which the binary form accepts, is not read back:
    [slash_name_not_read_back].) *)
Theorem text_roundtrip ps :
  Forall text_ok ps →
  ∃ s, to_string (from_iter ps) = ROk s ∧ from_str s = ROk (from_iter ps).
Proof.
  intros Hps. assert (Forall proto_wf ps) as Hw by (eapply Forall_impl; [exact Hps|by intros p [? _]]).
  exists (concat (map proto_to_string ps)). split.
  - unfold to_string. by rewrite (parses_iter _ _ (parses_from_iter ps Hw)).
  - rewrite to_string_parts. unfold from_str. rewrite split_on_join.
    + by rewrite from_str_loop_parts.
    + clear Hw. induction Hps as [|p ps Hp Hps IH]; [constructor|]. cbn [map concat].
      apply Forall_app. split; [by apply parts_no_slash|done].
Qed.

End Proofs.

(** ** Reference codecs *)

(** Little-endian groups of seven bits. *)
Fixpoint leb_encode (fuel : nat) (n : Z) : bytes :=
  match fuel with
  | O => []
  | S f => if n <? 128 then [byte_of n] else byte_of (128 + n mod 128) :: leb_encode f (n / 128)
  end.

Fixpoint leb_decode (l : bytes) : option (Z * bytes) :=
  match l with
  | [] => None
  | b :: r =>
      if byte_val b <? 128 then Some (byte_val b, r)
      else match leb_decode r with
           | Some (n, r') => Some (byte_val b - 128 + 128 * n, r')
           | None => None
           end
  end.

#[export] Instance LebVarint : Varint := {
  vi_encode _ n := leb_encode 10 n;
  vi_decode w b :=
    match leb_decode b with
    | Some (n, r) => if decide (in_width w n) then Some (n, r) else None
    | None => None
    end;
}.

Lemma leb_roundtrip fuel n rest :
  0 <= n < 128 ^ Z.of_nat fuel → (0 < fuel)%nat →
  leb_decode (leb_encode fuel n ++ rest) = Some (n, rest).
Proof.
  revert n. induction fuel as [|fuel IH]; intros n Hn Hf; [lia|]. cbn [leb_encode].
  destruct (n <? 128) eqn:E.
  - cbn. rewrite byte_val_of, Z.mod_small by lia. by rewrite E.
  - pose proof (Z.mod_pos_bound n 128 ltac:(lia)). cbn [app leb_decode].
    rewrite byte_val_of, (Z.mod_small (128 + _)) by lia.
    replace (_ <? 128) with false by lia.
    assert (128 ^ Z.of_nat (S fuel) = 128 * 128 ^ Z.of_nat fuel) as Hp
      by (rewrite Nat2Z.inj_succ, Z.pow_succ_r by lia; done).
    pose proof (Z.div_mod n 128 ltac:(lia)).
    rewrite IH.
    + do 2 f_equal. lia.
    + split; [apply Z.div_pos; lia|apply Z.div_lt_upper_bound; lia].
    + destruct fuel; [cbn in Hn; lia|lia].
Qed.

Lemma leb_prefix b n r : leb_decode b = Some (n, r) →
  ∃ d, b = d ++ r ∧ d ≠ [] ∧ ∀ r', leb_decode (d ++ r') = Some (n, r').
Proof.
  revert n r. induction b as [|x b IH]; intros n r; cbn [leb_decode]; [done|].
  destruct (byte_val x <? 128) eqn:E.
  - intros [= <- <-]. exists [x]. split_and!; auto. intros r'. cbn. by rewrite E.
  - destruct (leb_decode b) as [[m r1]|] eqn:Eb; [|done]. intros [= <- <-].
    destruct (IH m r1 eq_refl) as (d & -> & Hd & Hl). exists (x :: d). split_and!; auto.
    intros r'. cbn [app leb_decode]. by rewrite E, Hl.
Qed.

#[export] Instance LebVarint_laws : VarintLaws.
Proof.
  split.
  - intros w n rest Hw Hn. cbn [vi_decode vi_encode LebVarint]. rewrite leb_roundtrip.
    + by rewrite decide_True.
    + destruct Hn as [H1 H2]. split; [done|]. eapply Z.lt_le_trans; [exact H2|].
      transitivity (2 ^ 64); [apply Z.pow_le_mono_r; lia|apply Z.leb_le; vm_compute; reflexivity].
    + lia.
  - intros w b n r. cbn [vi_decode LebVarint]. destruct (leb_decode b) as [[m r1]|] eqn:E; [|done].
    destruct (decide (in_width w m)) as [Hm|]; [|done]. intros [= <- <-]. split; [done|].
    apply leb_prefix in E as (d & -> & Hd & Hl). exists d. split_and!; auto.
    intros r'. by rewrite Hl, decide_True.
Qed.

(** Two letters per byte. *)
Definition nib (b : byte) : bytes :=
  [byte_of (97 + byte_val b / 16); byte_of (97 + byte_val b mod 16)].

Fixpoint unnib (l : bytes) : option bytes :=
  match l with
  | [] => Some []
  | h :: l :: r =>
      cons (byte_of (16 * (byte_val h - 97) + (byte_val l - 97))) <$> unnib r
  | _ => None
  end.

Definition nibs (l : bytes) : bytes := concat (map nib l).

Lemma unnib_nibs l : unnib (nibs l) = Some l.
Proof.
  induction l as [|b l IH]; [done|]. cbn [nibs map concat nib app unnib]. fold (nibs l).
  rewrite IH. cbn. do 2 f_equal. by destruct b.
Qed.

Lemma nibs_no_slash l : slash ∉ nibs l.
Proof.
  induction l as [|b l IH]; [cbn; apply not_elem_of_nil|].
  cbn [nibs map concat nib app]. fold (nibs l). rewrite !not_elem_of_cons.
  split_and!; [by destruct b|by destruct b|done].
Qed.

#[export] Instance LetterCodecs : TextCodecs := {
  bs58_encode := nibs;
  bs58_decode := unnib;
  ip6_to_string segs := nibs (concat (map (be_bytes 2) segs));
  ip6_from_str s := get_u16s 8 <$> unnib s;
}.

#[export] Instance LetterCodecs_laws : TextCodecsLaws.
Proof.
  split; cbn [bs58_encode bs58_decode ip6_to_string ip6_from_str LetterCodecs].
  - apply unnib_nibs.
  - apply nibs_no_slash.
  - intros s [H1 H2]. rewrite unnib_nibs. cbn. f_equal.
    pose proof (get_u16s_concat s [] H2) as H. by rewrite app_nil_r, H1 in H.
  - intros s. apply nibs_no_slash.
Qed.

(** ** Witnesses *)

Definition loopback : list Protocol :=
  [Ip4 (byte_of 127) (byte_of 0) (byte_of 0) (byte_of 1); Tcp 8115; Dns4 (str "ckb.dev");
   P2p (byte_of 0x12 :: byte_of 32 :: repeat (byte_of 5) 32)].

Lemma loopback_ok : Forall text_ok loopback.
Proof.
  assert (slash ∉ str "ckb.dev") by (apply (bool_decide_unpack _); vm_compute; done).
  repeat constructor; try done; vm_compute; intuition discriminate.
Qed.

Lemma loopback_wf : Forall proto_wf loopback.
Proof. eapply Forall_impl; [apply loopback_ok|by intros p [? _]]. Qed.

Lemma protocol_roundtrip_witness :
  from_bytes (write_to_bytes (Tcp 8115) ++ [byte_of 7]) = inr (Tcp 8115, [byte_of 7]).
Proof. by apply protocol_roundtrip. Defined.

Lemma push_pop_iter_witness :
  pop (push (from_iter loopback) (Tcp 80)) = ROk (Some (Tcp 80), from_iter loopback).
Proof.
  apply (push_pop_iter (from_iter loopback) loopback (Tcp 80) []);
    [vm_compute; done|done|constructor].
Defined.

Lemma replace_component_witness :
  replace (from_iter loopback) 1 (λ _, Some (Tcp 80)) =
  ROk (Some (from_iter (<[1%nat := Tcp 80]> loopback))).
Proof.
  rewrite (replace_component (from_iter loopback) loopback); [reflexivity|vm_compute; done].
Defined.

Lemma text_roundtrip_witness :
  ∃ s, to_string (from_iter loopback) = ROk s ∧ from_str s = ROk (from_iter loopback).
Proof. apply text_roundtrip, loopback_ok. Defined.

(** The binary form accepts a name that holds a separator, and its text is another address. *)
Lemma slash_name_not_read_back :
  let m := from_iter [Dns4 (str "a/tcp/80")] in
  try_from m = ROk m ∧ to_string m = ROk (str "/dns4/a/tcp/80") ∧
  from_str (str "/dns4/a/tcp/80") = ROk (from_iter [Dns4 (str "a"); Tcp 80]) ∧
  from_iter [Dns4 (str "a"); Tcp 80] ≠ m.
Proof. vm_compute. split_and!; done. Qed.

Lemma try_from_checks_witness :
  match try_from (from_iter loopback) with
  | ROk m => m = from_iter loopback
  | _ => False
  end.
Proof.
  pose proof (try_from_checks (from_iter loopback)) as H.
  destruct (try_from (from_iter loopback)) as [m|e|] eqn:E; [apply H|vm_compute in E; discriminate|done].
Defined.
