(* ===== verification/QueueMpsc.v ===== *)
(** * The lock-free queue of the channels ([tentacle/tentacle/src/channel/queue.rs])

    A multi-producer single-consumer linked queue. Nodes live in a heap; a push is two atomic
    steps (the swap of the head and the store of the [next] pointer of the previous node), a
    pop reads the pointers as they are. The steps of any number of producers and the consumer
    interleave freely. The queue refines a FIFO list in which a value enters at the swap. *)

From Stdlib Require Import ZArith Lia Bool.
From stdpp Require Import base list gmap.
From S2P Require Import Prelude.

Section Queue.
Context {T : Type}.

(** ** The queue *)

Abbreviation ptr := nat (only parsing).

(** [next] is null for [None]. *)
Record Node := mkNode { n_next : option ptr; n_value : option T }.

Record Queue := mkQueue { q_heap : gmap ptr Node; q_head : ptr; q_tail : ptr }.

Inductive PopResult := PopData (t : T) | PopEmpty | PopInconsistent.

(** [Queue::new]: the stub node is both ends. *)
Definition Queue_new (stub : ptr) : Queue :=
  mkQueue {[ stub := mkNode None None ]} stub stub.

(** The first step of [push]: allocate the node [n] and swap it into [head]; the result is
    the previous head. *)
Definition push_swap (n : ptr) (t : T) (q : Queue) : Queue * ptr :=
  (mkQueue (<[n := mkNode None (Some t)]> (q_heap q)) n (q_tail q), q_head q).

(** The second step: the store to the [next] pointer of the previous head. *)
Definition push_link (prev n : ptr) (q : Queue) : Queue :=
  mkQueue (alter (λ x, mkNode (Some n) (n_value x)) prev (q_heap q)) (q_head q) (q_tail q).

(** [pop]; [None] is a failed assertion or a dangling pointer. The old tail is freed. The loads of
    [next] and of [head] are one step: a producer between them can only move [head] further, so a
    queue that was empty at the first load is then reported as inconsistent instead of empty, and
    no value is affected. *)
Definition pop_node (q : Queue) : option (Queue * PopResult) :=
  match q_heap q !! q_tail q with
  | None => None
  | Some tail_node =>
      match n_next tail_node with
      | Some next =>
          match q_heap q !! next, n_value tail_node with
          | Some next_node, None =>
              match n_value next_node with
              | Some v =>
                  Some (mkQueue (delete (q_tail q) (<[next := mkNode (n_next next_node) None]> (q_heap q)))
                          (q_head q) next, PopData v)
              | None => None
              end
          | _, _ => None
          end
      | None =>
          Some (q, if bool_decide (q_head q = q_tail q) then PopEmpty else PopInconsistent)
      end
  end.

(** [Drop]: the nodes are freed from the tail on; [None] is a dangling pointer. The queue is owned,
    so no node is visited twice and the number of nodes is enough fuel. *)
Fixpoint drop_nodes (fuel : nat) (cur : option ptr) (heap : gmap ptr Node) : option (gmap ptr Node) :=
  match cur, fuel with
  | None, _ => Some heap
  | Some _, O => None
  | Some p, S fuel' =>
      match heap !! p with
      | Some node => drop_nodes fuel' (n_next node) (delete p heap)
      | None => None
      end
  end.
Definition Queue_drop (q : Queue) : option (gmap ptr Node) :=
  drop_nodes (size (q_heap q)) (Some (q_tail q)) (q_heap q).

(** ** Interleavings *)

(** The producers between their two steps, as pairs of the previous head and the new node;
    [sy_in] are the values in the order of the swaps, [sy_out] the popped ones. *)
Record qsys := mkQsys {
  sy_q : Queue; sy_pending : list (ptr * ptr); sy_in : list T; sy_out : list T }.

Inductive q_step : qsys → qsys → Prop :=
| qs_swap q pend ins outs n t :
    q_heap q !! n = None →
    q_step (mkQsys q pend ins outs)
      (mkQsys (push_swap n t q).1 (((push_swap n t q).2, n) :: pend) (ins ++ [t]) outs)
| qs_link q p n pend1 pend2 ins outs :
    q_step (mkQsys q (pend1 ++ (p, n) :: pend2) ins outs)
      (mkQsys (push_link p n q) (pend1 ++ pend2) ins outs)
| qs_pop q q' v pend ins outs :
    pop_node q = Some (q', PopData v) →
    q_step (mkQsys q pend ins outs) (mkQsys q' pend ins (outs ++ [v])).

(** ** The invariant *)

(** The nodes from the tail to the head with the values they carry: consecutive ones are
    linked, or a producer is about to link them. *)
Fixpoint chain (heap : gmap ptr Node) (pend : list (ptr * ptr)) (p : ptr) (l : list (ptr * T)) : Prop :=
  match l with
  | [] => n_next <$> heap !! p = Some None
  | (n, t) :: l' =>
      (n_next <$> heap !! p = Some (Some n) ∧ (p, n) ∉ pend ∨
       n_next <$> heap !! p = Some None ∧ (p, n) ∈ pend) ∧
      n_value <$> heap !! n = Some (Some t) ∧ chain heap pend n l'
  end.

Definition nodes (q : Queue) (l : list (ptr * T)) : list ptr := q_tail q :: l.*1.

Definition q_inv (s : qsys) : Prop :=
  ∃ l, chain (q_heap (sy_q s)) (sy_pending s) (q_tail (sy_q s)) l ∧
    NoDup (nodes (sy_q s) l) ∧
    n_value <$> q_heap (sy_q s) !! q_tail (sy_q s) = Some None ∧
    last (nodes (sy_q s) l) = Some (q_head (sy_q s)) ∧
    NoDup (sy_pending s) ∧
    (∀ p n, (p, n) ∈ sy_pending s → ∃ l1 l2, nodes (sy_q s) l = l1 ++ p :: n :: l2) ∧
    sy_in s = sy_out s ++ l.*2 ∧
    (∀ x, is_Some (q_heap (sy_q s) !! x) → x ∈ nodes (sy_q s) l).

(** Nodes off the chain do not matter. *)
Lemma chain_ext heap heap' pend pend' p l :
  (∀ x, x ∈ p :: l.*1 → n_next <$> heap' !! x = n_next <$> heap !! x) →
  (∀ x, x ∈ l.*1 → n_value <$> heap' !! x = n_value <$> heap !! x) →
  (∀ x y, x ∈ p :: l.*1 → (x, y) ∈ pend' ↔ (x, y) ∈ pend) →
  chain heap pend p l → chain heap' pend' p l.
Proof.
  revert p. induction l as [|[n t] l IH]; intros p Hn Hv Hp; cbn [chain fmap list_fmap fst].
  - rewrite Hn by (cbn; set_solver). done.
  - intros (H1 & H2 & H3). rewrite Hn by (cbn; set_solver). rewrite Hv by (cbn; set_solver).
    rewrite Hp by (cbn; set_solver). split_and!; auto.
    apply IH; auto; [intros x Hx; apply Hn|intros x Hx; apply Hv|intros x y Hx; apply Hp]; cbn in *; set_solver.
Qed.

Lemma q_inv_new stub : q_inv (mkQsys (Queue_new stub) [] [] []).
Proof.
  exists []. cbn. rewrite lookup_singleton_eq. split_and!; try done.
  - apply NoDup_singleton.
  - constructor.
  - intros p n H. by apply elem_of_nil in H.
  - intros x [y Hx]. apply lookup_singleton_Some in Hx as [-> _]. left.
Qed.

(** Appending a node whose producer has not linked it yet. *)
Lemma chain_snoc heap pend p l n t :
  chain heap pend p l → n ∉ p :: l.*1 → heap !! n = None →
  chain (<[n := mkNode None (Some t)]> heap) ((default p (last l.*1), n) :: pend) p (l ++ [(n, t)]).
Proof.
  intros Hc Hn Hfresh. revert p Hc Hn. induction l as [|[m u] l IH]; intros p Hc Hn.
  - cbn in *. assert (n ≠ p) by set_solver. rewrite lookup_insert_ne, lookup_insert_eq by done.
    split_and!; [right; split; [done|set_solver]|done|done].
  - cbn [chain app fmap list_fmap fst] in *. destruct Hc as (H1 & H2 & H3).
    assert (n ≠ p ∧ n ≠ m) as [Hp Hm] by set_solver.
    rewrite !lookup_insert_ne by done. split_and!; [|done|].
    + assert ((p, m) ≠ (default p (last (m :: l.*1)), n)) by congruence.
      destruct H1 as [[? ?]|[? ?]]; [left|right]; set_solver.
    + specialize (IH m H3 ltac:(set_solver)).
      replace (default p (last (m :: l.*1))) with (default m (last l.*1)); [done|].
      by destruct (l.*1) as [|x k] eqn:E; [|cbn; destruct (last (x :: k)) eqn:El; [|apply last_None in El]].
Qed.

Lemma last_cons_default (p : nat) k : last (p :: k) = Some (default p (last k)).
Proof. destruct k as [|x k]; [done|]. cbn. by destruct (last (x :: k)) eqn:E; [|apply last_None in E]. Qed.

Lemma q_inv_swap q pend ins outs n t :
  q_inv (mkQsys q pend ins outs) → q_heap q !! n = None →
  q_inv (mkQsys (push_swap n t q).1 (((push_swap n t q).2, n) :: pend) (ins ++ [t]) outs).
Proof.
  intros (l & Hc & Hnd & Ht & Hl & Hp & Hpend & Hio & Hdom) Hn. cbn in *.
  assert (∀ x, x ∈ q_tail q :: l.*1 → x ≠ n) as Hlive.
  { intros x Hx ->. clear -Hc Ht Hn Hx. apply elem_of_cons in Hx as [Hx|Hx].
    - by rewrite <- Hx, Hn in Ht.
    - clear Ht. revert Hc Hx. generalize (q_tail q). induction l as [|[m u] l IH]; intros p Hc Hx; cbn in *; [set_solver|].
      destruct Hc as (_ & Hv & Hc). apply elem_of_cons in Hx as [<-|Hx]; [by rewrite Hn in Hv|eauto]. }
  exists (l ++ [(n, t)]). unfold nodes in *. cbn. rewrite !fmap_app. cbn [fmap list_fmap fst snd].
  assert (n ∉ q_tail q :: l.*1) as Hnn by (intros H; by apply (Hlive n H)).
  rewrite last_cons_default in Hl. injection Hl as Hl.
  split_and!.
  - rewrite <- Hl. by apply chain_snoc.
  - rewrite app_comm_cons. apply NoDup_app. split_and!; [done| |apply NoDup_singleton]. set_solver.
  - rewrite lookup_insert_ne; [done|]. intros E. apply Hnn. rewrite E. left.
  - by rewrite app_comm_cons, last_snoc.
  - constructor; [|done]. intros Hin. apply Hpend in Hin as (l1 & l2 & E). apply Hnn. rewrite E. set_solver.
  - intros p m Hin. apply elem_of_cons in Hin as [Hin|Hin].
    + injection Hin as -> ->. rewrite app_comm_cons.
      assert (∃ k, q_tail q :: l.*1 = k ++ [q_head q]) as (k & ->); [|by exists k, []; rewrite <- app_assoc].
      apply last_Some. rewrite last_cons_default. by rewrite Hl.
    + apply Hpend in Hin as (l1 & l2 & E). exists l1, (l2 ++ [n]). rewrite app_comm_cons, E.
      by rewrite <- app_assoc.
  - by rewrite Hio, app_assoc.
  - intros x Hx. destruct (decide (x = n)) as [->|Hne]; [set_solver|].
    rewrite lookup_insert_ne in Hx by done. specialize (Hdom x Hx). set_solver.
Qed.

(** The nodes are distinct, so a node has one successor. *)
Lemma successor_unique (l l1 l2 k1 k2 : list nat) p n m :
  NoDup l → l = l1 ++ p :: n :: l2 → l = k1 ++ p :: m :: k2 → n = m.
Proof.
  intros Hnd E1 E2. assert (l !! length l1 = Some p) as H1 by (by rewrite E1, list_lookup_middle).
  assert (l !! length k1 = Some p) as H2 by (by rewrite E2, list_lookup_middle).
  assert (length l1 = length k1) as Hlen by (by eapply NoDup_lookup).
  assert (l !! S (length l1) = Some n) as H3
    by (rewrite E1, lookup_app_r by lia; by replace (S (length l1) - length l1)%nat with 1%nat by lia).
  assert (l !! S (length k1) = Some m) as H4
    by (rewrite E2, lookup_app_r by lia; by replace (S (length k1) - length k1)%nat with 1%nat by lia).
  rewrite Hlen in H3. congruence.
Qed.

(** Linking in the chain: the link of [p] is the pending one. *)
Lemma chain_link heap pend1 pend2 p n tail l :
  chain heap (pend1 ++ (p, n) :: pend2) tail l → NoDup (tail :: l.*1) →
  NoDup (pend1 ++ (p, n) :: pend2) →
  (∀ x y, (x, y) ∈ pend1 ++ (p, n) :: pend2 → ∃ l1 l2, tail :: l.*1 = l1 ++ x :: y :: l2) →
  chain (alter (λ x, mkNode (Some n) (n_value x)) p heap) (pend1 ++ pend2) tail l.
Proof.
  intros Hc Hnd Hpn Hpos.
  assert ((p, n) ∉ pend1 ++ pend2) as Hnot.
  { rewrite <- (Permutation_middle pend1 pend2 (p, n)) in Hpn. by apply NoDup_cons in Hpn as [? _]. }
  destruct (Hpos p n) as (k1 & k2 & Hk); [set_solver|].
  (* generalise over the position in the chain *)
  assert (∀ l' t', chain heap (pend1 ++ (p, n) :: pend2) t' l' →
    (∃ a, tail :: l.*1 = a ++ t' :: l'.*1) →
    chain (alter (λ x, mkNode (Some n) (n_value x)) p heap) (pend1 ++ pend2) t' l') as Hgen;
    [|apply Hgen; [done|by exists []]].
  clear Hc. induction l' as [|[m u] l' IH]; intros t' Hc (a & Ha).
  - cbn in *. destruct (decide (t' = p)) as [->|Hne]; [|by rewrite lookup_alter_ne by done].
    exfalso. rewrite Hk in Ha. rewrite Hk in Hnd.
    assert (length (k1 ++ p :: n :: k2) = length (a ++ [p])) as Hlen by (by rewrite Ha).
    rewrite Ha in Hnd.
    assert ((a ++ [p]) !! length k1 = Some p) as H1 by (rewrite <- Ha; by rewrite list_lookup_middle).
    assert ((a ++ [p]) !! length a = Some p) as H2 by (by rewrite list_lookup_middle).
    pose proof (NoDup_lookup _ _ _ _ Hnd H1 H2). rewrite !length_app in Hlen. cbn in Hlen. lia.
  - cbn [chain fmap list_fmap fst] in *. destruct Hc as (H1 & H2 & H3).
    split_and!; [|destruct (decide (m = p)) as [->|]; [rewrite lookup_alter_eq; by destruct (heap !! p)|by rewrite lookup_alter_ne]|].
    2:{ apply IH; [done|]. exists (a ++ [t']). by rewrite <- app_assoc. }
    destruct (decide (t' = p)) as [->|Hne].
    + assert (m = n) as -> by (symmetry; eapply (successor_unique (tail :: l.*1)); [done|exact Hk|exact Ha]).
      left. split; [|done]. rewrite lookup_alter_eq.
      by destruct (heap !! p); [|destruct H1 as [[[=] _]|[[=] _]]].
    + rewrite lookup_alter_ne by done. assert ((t', m) ≠ (p, n)) by congruence.
      destruct H1 as [[? ?]|[? ?]]; [left|right]; set_solver.
Qed.

Lemma q_inv_link q p n pend1 pend2 ins outs :
  q_inv (mkQsys q (pend1 ++ (p, n) :: pend2) ins outs) →
  q_inv (mkQsys (push_link p n q) (pend1 ++ pend2) ins outs).
Proof.
  intros (l & Hc & Hnd & Ht & Hl & Hp & Hpend & Hio & Hdom). cbn in *. exists l. unfold nodes in *. cbn.
  split_and!; auto.
  - by apply chain_link.
  - destruct (decide (q_tail q = p)) as [E|]; [|by rewrite lookup_alter_ne].
    rewrite E in *. rewrite lookup_alter_eq. by destruct (q_heap q !! p).
  - rewrite <- (Permutation_middle pend1 pend2 (p, n)) in Hp. by apply NoDup_cons in Hp as [_ ?].
  - intros x y Hxy. apply Hpend. set_solver.
  - intros x Hx. apply Hdom. destruct (decide (x = p)) as [->|]; [|by rewrite lookup_alter_ne in Hx].
    rewrite lookup_alter_eq in Hx. by apply fmap_is_Some in Hx.
Qed.

Lemma q_inv_pop q q' v pend ins outs :
  q_inv (mkQsys q pend ins outs) → pop_node q = Some (q', PopData v) →
  q_inv (mkQsys q' pend ins (outs ++ [v])).
Proof.
  intros (l & Hc & Hnd & Ht & Hl & Hp & Hpend & Hio & Hdom) Hpop. cbn in *. unfold nodes in *.
  unfold pop_node in Hpop. destruct (q_heap q !! q_tail q) as [[nx vl]|] eqn:Htail; [|done].
  cbn in Ht. injection Ht as ->. cbn [n_next n_value] in Hpop. destruct nx as [next|]; [|by case_bool_decide].
  destruct l as [|[m u] l]; cbn [chain] in Hc; [by rewrite Htail in Hc|].
  destruct Hc as (H1 & H2 & H3). rewrite Htail in H1. cbn in H1.
  destruct H1 as [[H1 Hnp]|[H1 _]]; [|done]. injection H1 as <-.
  destruct (q_heap q !! next) as [[nx2 vl2]|] eqn:Hnext; [|done]. cbn in H2. injection H2 as ->.
  cbn [n_value n_next] in Hpop. injection Hpop as <- <-.
  cbn [fmap list_fmap fst snd] in *. apply NoDup_cons in Hnd as [Hnt Hnd].
  assert (next ≠ q_tail q) by set_solver.
  exists l. unfold nodes. cbn. split_and!; auto.
  - eapply (chain_ext (q_heap q)); [| | |exact H3].
    + intros x Hx. rewrite lookup_delete_ne by set_solver.
      destruct (decide (x = next)) as [->|]; [by rewrite lookup_insert_eq, Hnext|by rewrite lookup_insert_ne].
    + intros x Hx. rewrite lookup_delete_ne by set_solver. rewrite lookup_insert_ne; [done|].
      apply NoDup_cons in Hnd as [? _]. set_solver.
    + done.
  - by rewrite lookup_delete_ne, lookup_insert_eq by done.
  - intros x y Hxy. destruct (Hpend x y Hxy) as ([|z l1] & l2 & E).
    + cbn in E. injection E as E1 E2 _. by rewrite <- E1, <- E2 in Hxy.
    + cbn in E. injection E as _ E. by exists l1, l2.
  - by rewrite Hio, <- app_assoc.
  - intros x Hx. destruct (decide (x = q_tail q)) as [->|Hne]; [by rewrite lookup_delete_eq in Hx; apply is_Some_None in Hx|].
    rewrite lookup_delete_ne in Hx by done. destruct (decide (x = next)) as [->|Hn]; [left|].
    rewrite lookup_insert_ne in Hx by done. apply Hdom in Hx. set_solver.
Qed.

Lemma q_inv_steps s s' : rtc q_step s s' → q_inv s → q_inv s'.
Proof.
  induction 1 as [|s1 s2 s3 Hst _ IH]; [done|]. intros Hi. apply IH. destruct Hst.
  - by apply q_inv_swap.
  - by apply q_inv_link.
  - by eapply q_inv_pop.
Qed.

(** Without producers the nodes are linked up to the head, and freeing them leaves nothing. *)
Lemma drop_chain fuel heap p l :
  chain heap [] p l → NoDup (p :: l.*1) → (∀ x, is_Some (heap !! x) → x ∈ p :: l.*1) →
  (S (length l) <= fuel)%nat → drop_nodes fuel (Some p) heap = Some ∅.
Proof.
  revert p heap fuel. induction l as [|[n t] l IH]; intros p heap [|fuel] Hc Hnd Hdom Hf; cbn in Hf; try lia; cbn in *.
  - destruct (heap !! p) as [x|] eqn:Hx; [|done]. cbn in Hc. injection Hc as ->.
    assert (delete p heap = ∅) as ->; [|by destruct fuel]. apply map_empty. intros x'.
    destruct (decide (x' = p)) as [->|Hne]; [apply lookup_delete_eq|]. rewrite lookup_delete_ne by done.
    apply eq_None_not_Some. intros H. apply Hdom in H. set_solver.
  - destruct Hc as ([[H1 _]|[_ H1]] & H2 & H3); [|by apply elem_of_nil in H1].
    destruct (heap !! p) as [x|] eqn:Hx; [|done]. cbn in H1. injection H1 as ->.
    apply NoDup_cons in Hnd as [Hp Hnd]. apply IH; [|done| |cbn; lia].
    + eapply (chain_ext heap); [| | |exact H3]; intros; try done; rewrite lookup_delete_ne; try done; set_solver.
    + intros y Hy. destruct (decide (y = p)) as [->|Hne]; [by rewrite lookup_delete_eq in Hy; apply is_Some_None in Hy|].
      rewrite lookup_delete_ne in Hy by done. apply Hdom in Hy. set_solver.
Qed.

Lemma chain_size heap pend p l : chain heap pend p l → NoDup (p :: l.*1) → (S (length l) <= size heap)%nat.
Proof.
  intros Hc Hnd. assert (∀ x, x ∈ p :: l.*1 → is_Some (heap !! x)) as Hd.
  { clear Hnd. revert p Hc. induction l as [|[n t] l IH]; intros p Hc x Hx; cbn in *.
    - apply list_elem_of_singleton in Hx as ->. by destruct (heap !! p).
    - destruct Hc as (H1 & H2 & H3). apply elem_of_cons in Hx as [->|Hx]; [|by apply (IH n)].
      destruct (heap !! p); [done|]. by destruct H1 as [[[=] _]|[[=] _]]. }
  rewrite <- size_dom. replace (S (length l)) with (size (list_to_set (p :: l.*1) : gset nat)).
  - apply subseteq_size. intros x Hx. apply elem_of_dom. apply Hd. by apply elem_of_list_to_set in Hx.
  - rewrite size_list_to_set by done. cbn. by rewrite length_fmap.
Qed.

(** C6: the queue refines a FIFO list. In every interleaving of any number of producers and
    the consumer, the popped values are a prefix of the values in the order of the producers'
    swaps; [pop] never touches freed memory or fails an assertion, it returns the oldest
    value that was not popped, reports [Empty] exactly when there is none, and
    [Inconsistent] only while a producer stands between its two steps. Dropping the queue, when no
    producer is at work, frees every node exactly once. *)
Theorem queue_refines_fifo stub s :
  rtc q_step (mkQsys (Queue_new stub) [] [] []) s →
  ∃ rest, sy_in s = sy_out s ++ rest ∧
  match pop_node (sy_q s) with
  | None => False
  | Some (_, PopData v) => head rest = Some v
  | Some (q', PopEmpty) => rest = [] ∧ q' = sy_q s
  | Some (q', PopInconsistent) => rest ≠ [] ∧ sy_pending s ≠ [] ∧ q' = sy_q s
  end ∧
  (sy_pending s = [] → Queue_drop (sy_q s) = Some ∅).
Proof.
  intros Hr. pose proof (q_inv_steps _ _ Hr (q_inv_new stub)) as (l & Hc & Hnd & Ht & Hl & Hp & Hpend & Hio & Hdom).
  exists l.*2. split; [done|]. unfold nodes in *. destruct s as [q pend ins outs]. cbn in *. split.
  2: { intros ->. eapply drop_chain; [done..|]. by eapply chain_size. }
  unfold pop_node.
  destruct (q_heap q !! q_tail q) as [[nx vl]|] eqn:Htail; [|done].
  cbn in Ht. injection Ht as ->. cbn [n_next n_value].
  destruct l as [|[m u] l]; cbn [chain fmap list_fmap fst snd] in *; rewrite Htail in Hc; cbn in Hc.
  - injection Hc as ->. injection Hl as ->. by rewrite bool_decide_eq_true_2.
  - destruct Hc as (H1 & H2 & H3). destruct H1 as [[H1 Hnp]|[H1 Hin]]; injection H1 as ->.
    + destruct (q_heap q !! m) as [[nx2 vl2]|] eqn:Hnext; [|done]. cbn in H2. by injection H2 as ->.
    + rewrite bool_decide_eq_false_2; [split_and!; [done| |done]; intros ->; by apply elem_of_nil in Hin|].
      intros E. apply NoDup_cons in Hnd as [Hnt _]. apply Hnt. rewrite E in Hl.
      change (last (m :: l.*1) = Some (q_tail q)) in Hl.
      apply last_Some in Hl as (k & ->). set_solver.
Qed.

End Queue.

(** A run: two producers swap, the second links first, then the first does. *)
Definition demo_q : Queue :=
  push_link 0 1 (push_link 1 2 (push_swap 2 8%Z (push_swap 1 7%Z (Queue_new 0)).1).1).

Lemma queue_refines_fifo_witness :
  ∃ rest, [7%Z; 8%Z] = [] ++ rest ∧
  match pop_node demo_q with
  | None => False
  | Some (_, PopData v) => head rest = Some v
  | Some (q', PopEmpty) => rest = [] ∧ q' = demo_q
  | Some (q', PopInconsistent) => rest ≠ [] ∧ [] ≠ ([] : list (nat * nat)) ∧ q' = demo_q
  end ∧ (([] : list (nat * nat)) = [] → Queue_drop demo_q = Some ∅).
Proof.
  apply (queue_refines_fifo 0 (mkQsys demo_q [] [7%Z; 8%Z] [])).
  eapply rtc_l; [apply (qs_swap _ _ _ _ 1 7%Z); done|].
  eapply rtc_l; [apply (qs_swap _ _ _ _ 2 8%Z); done|].
  eapply rtc_l; [apply (qs_link _ 1 2 [] [(0%nat, 1%nat)])|].
  apply rtc_once, (qs_link _ 0 1 [] []).
Defined.
