(* ===== verification/PriorityChannel.v ===== *)
(** * The priority channel ([tentacle/tentacle/src/channel/mod.rs], [bound.rs])

    The bounded multi-producer channel with two priorities. Its shared state is a record, every
    atomic access of the code is one step, and the steps of the senders and of the receiver
    interleave freely. The queues are the lists that [QueueMpsc] shows the linked queues to
    be; the receiver's [AtomicWaker] is a slot with its documented [register] and [wake]. *)

From Stdlib Require Import ZArith Lia Bool.
From stdpp Require Import base list gmap.
From S2P Require Import Prelude.

Open Scope Z_scope.

(** ** The encoded state ([mod.rs]) *)

Definition USIZE_MAX : Z := 2 ^ 64 - 1.
Definition OPEN_MASK : Z := USIZE_MAX - Z.shiftr USIZE_MAX 1.
Definition INIT_STATE : Z := OPEN_MASK.
Definition MAX_CAPACITY : Z := Z.lxor USIZE_MAX OPEN_MASK.
Definition MAX_BUFFER : Z := Z.shiftr MAX_CAPACITY 1.

Record State := mkState { is_open : bool; num_messages : Z }.

Definition State_is_closed (s : State) : bool := negb (is_open s) && (num_messages s =? 0).

Definition decode_state (num : Z) : State :=
  mkState (Z.land num OPEN_MASK =? OPEN_MASK) (Z.land num MAX_CAPACITY).

Definition encode_state (s : State) : Z :=
  if is_open s then Z.lor (num_messages s) OPEN_MASK else num_messages s.

Inductive Priority := High | Normal.

#[export] Instance Priority_eq_dec : EqDecision Priority.
Proof. solve_decision. Defined.

(** ** The shared state ([bound.rs]) *)

Section Channel.
Context {A : Type}.

(** A message, tagged with the sender it came from (the tag is ghost). *)
Abbreviation msg := (nat * A)%type (only parsing).

Record BoundedInner := mkInner {
  bi_buffer : Z;
  bi_state : Z;
  bi_message_queue : list msg;
  bi_quick_message_queue : list msg;
  bi_parked_queue : list nat;
  bi_num_senders : Z;
  bi_recv_task : option nat;
}.

Definition max_senders (c : BoundedInner) : Z := MAX_CAPACITY - bi_buffer c.

Definition put_state (v : Z) (c : BoundedInner) : BoundedInner :=
  mkInner (bi_buffer c) v (bi_message_queue c) (bi_quick_message_queue c) (bi_parked_queue c)
    (bi_num_senders c) (bi_recv_task c).
Definition put_message_queue (v : list msg) (c : BoundedInner) : BoundedInner :=
  mkInner (bi_buffer c) (bi_state c) v (bi_quick_message_queue c) (bi_parked_queue c)
    (bi_num_senders c) (bi_recv_task c).
Definition put_quick_message_queue (v : list msg) (c : BoundedInner) : BoundedInner :=
  mkInner (bi_buffer c) (bi_state c) (bi_message_queue c) v (bi_parked_queue c)
    (bi_num_senders c) (bi_recv_task c).
Definition put_parked_queue (v : list nat) (c : BoundedInner) : BoundedInner :=
  mkInner (bi_buffer c) (bi_state c) (bi_message_queue c) (bi_quick_message_queue c) v
    (bi_num_senders c) (bi_recv_task c).
Definition put_num_senders (v : Z) (c : BoundedInner) : BoundedInner :=
  mkInner (bi_buffer c) (bi_state c) (bi_message_queue c) (bi_quick_message_queue c)
    (bi_parked_queue c) v (bi_recv_task c).
Definition put_recv_task (v : option nat) (c : BoundedInner) : BoundedInner :=
  mkInner (bi_buffer c) (bi_state c) (bi_message_queue c) (bi_quick_message_queue c)
    (bi_parked_queue c) (bi_num_senders c) v.

Definition set_closed (c : BoundedInner) : BoundedInner :=
  if is_open (decode_state (bi_state c))
  then put_state (Z.land (bi_state c) MAX_CAPACITY) c else c.

(** [inc_num_messages]: the successful turn of its compare-and-exchange loop. [None] when the
    channel is closed, [RPanic] its [assert!]. *)
Definition inc_num_messages (c : BoundedInner) : res unit (option (BoundedInner * Z)) :=
  let state := decode_state (bi_state c) in
  if negb (is_open state) then ROk None
  else if num_messages state <? MAX_CAPACITY then
    let state' := mkState true (num_messages state + 1) in
    ROk (Some (put_state (encode_state state') c, num_messages state'))
  else RPanic.

(** [fetch_sub(1)] wraps around. *)
Definition dec_num_messages (c : BoundedInner) : BoundedInner :=
  put_state ((bi_state c - 1) mod 2 ^ 64) c.

Definition queue_push (pr : Priority) (m : msg) (c : BoundedInner) : BoundedInner :=
  match pr with
  | High => put_quick_message_queue (bi_quick_message_queue c ++ [m]) c
  | Normal => put_message_queue (bi_message_queue c ++ [m]) c
  end.

(** ** Senders *)

(** [SenderTask], shared between a sender and the parked queue. *)
Record SenderTask := mkTask { t_task : option nat; t_is_parked : bool }.

Definition SenderTask_new : SenderTask := mkTask None false.

(** The new task, and the waker that is woken. *)
Definition notify (t : SenderTask) : SenderTask * option nat := (mkTask None false, t_task t).

(** Where a sender stands in [try_send], [close_channel] and [drop]; the flag of the last two
    tells whether the sender was dropped. *)
Inductive spc :=
| SIdle
| SInc (pr : Priority) (m : A)         (* unparked, before inc_num_messages *)
| SParkLock (pr : Priority) (m : A)    (* in park, before the lock *)
| SParkPush (pr : Priority) (m : A)    (* before the handle goes into the parked queue *)
| SParkCheck (pr : Priority) (m : A)   (* before maybe_parked is stored *)
| SPush (pr : Priority) (m : A)        (* before the message is pushed *)
| SWake                                (* before recv_task.wake() *)
| SClose (dropped : bool)              (* in close_channel, before set_closed *)
| SCloseWake (dropped : bool)          (* before recv_task.wake() *)
| SGone.

Record Sender := mkSender { s_task : SenderTask; s_maybe_parked : bool; s_pc : spc }.

Definition Sender_new : Sender := mkSender SenderTask_new false SIdle.

Definition put_pc (pc : spc) (s : Sender) : Sender := mkSender (s_task s) (s_maybe_parked s) pc.

Definition poll_unparked (cx : option nat) (s : Sender) : Sender * Poll unit :=
  if s_maybe_parked s then
    if t_is_parked (s_task s) then
      (mkSender (mkTask cx true) true (s_pc s), Pending)
    else (mkSender (s_task s) false (s_pc s), Ready tt)
  else (s, Ready tt).

Inductive SendErrorKind := Full | Disconnected.

(** [poll_ready]; [Ready (inl _)] is its error. *)
Definition poll_ready (c : BoundedInner) (cx : nat) (s : Sender)
    : Sender * Poll (SendErrorKind + unit) :=
  if negb (is_open (decode_state (bi_state c))) then (s, Ready (inl Disconnected))
  else match poll_unparked (Some cx) s with
       | (s', Ready _) => (s', Ready (inr tt))
       | (s', Pending) => (s', Pending)
       end.

(** [try_send] up to [do_send_b]: an error leaves the sender where it is. *)
Definition try_send (pr : Priority) (m : A) (s : Sender) : Sender * option SendErrorKind :=
  match poll_unparked None s with
  | (s', Pending) => (s', Some Full)
  | (s', Ready _) => (put_pc (SInc pr m) s', None)
  end.

(** [do_send_b]: count the message and decide whether the sender parks. *)
Definition do_send_b (pr : Priority) (m : A) (s : Sender) (c : BoundedInner)
    : res unit (Sender * BoundedInner * option SendErrorKind) :=
  match inc_num_messages c with
  | ROk (Some (c', num)) =>
      let park_self := bi_buffer c <? num in
      ROk (put_pc (if park_self then SParkLock pr m else SPush pr m) s, c', None)
  | ROk None => ROk (put_pc SIdle s, c, Some Disconnected)
  | RErr e => RErr e
  | RPanic => RPanic
  end.

(** The three steps of [park]. *)
Definition park_lock (pr : Priority) (m : A) (s : Sender) : Sender :=
  mkSender (mkTask None true) (s_maybe_parked s) (SParkPush pr m).
Definition park_push (i : nat) (c : BoundedInner) : BoundedInner :=
  put_parked_queue (bi_parked_queue c ++ [i]) c.
Definition park_check (pr : Priority) (m : A) (c : BoundedInner) (s : Sender) : Sender :=
  mkSender (s_task s) (is_open (decode_state (bi_state c))) (SPush pr m).

(** [Clone]; [None] is its panic. *)
Definition clone_sender (c : BoundedInner) : option (BoundedInner * Sender) :=
  if bi_num_senders c =? max_senders c then None
  else Some (put_num_senders (bi_num_senders c + 1) c, Sender_new).

(** [Drop]: the last sender goes on to close the channel. *)
Definition drop_sender (s : Sender) (c : BoundedInner) : Sender * BoundedInner :=
  (put_pc (if bi_num_senders c =? 1 then SClose true else SGone) s,
   put_num_senders (bi_num_senders c - 1) c).

(** ** The receiver *)

(** Who called [next_message]: [poll_next] before and after it registered the waker, [try_next],
    or the loop of [drop]. *)
Inductive caller := First | Second | TryNext | Draining.

#[export] Instance caller_eq_dec : EqDecision caller.
Proof. solve_decision. Defined.

(** Where the receiver stands in [poll_next], [try_next], [close] and [drop]. *)
Inductive rpc :=
| RIdle
| RQuick (k : caller)                             (* before the pop of the quick queue *)
| RNormal (k : caller)                            (* before the pop of the message queue *)
| RLoad (k : caller)                              (* both were empty, before the state is loaded *)
| RRegister                                       (* before the waker is registered *)
| RParked                                         (* returned Pending *)
| RUnpark (k : caller) (pr : Priority) (m : msg)  (* popped, before unpark_one *)
| RDec (k : caller) (pr : Priority) (m : msg)     (* before dec_num_messages *)
| RClosing (dropped : bool)                       (* in close, before the next parked handle is popped *)
| RDropLoad                                       (* in drop, before the state is loaded again *)
| RDone.                                          (* returned None, or dropped *)

(** [channel(buffer)]; [None] is its [assert!]. *)
Definition channel_inner (buffer : Z) : option BoundedInner :=
  if buffer <? MAX_BUFFER then Some (mkInner buffer INIT_STATE [] [] [] 1 None) else None.

(** ** Interleavings *)

(** [cs_accepted]: the messages counted by [inc_num_messages], [cs_received]: those returned,
    [cs_dropped]: those the dropped receiver took out; all are ghost. *)
Record csys := mkSys {
  cs_inner : BoundedInner;
  cs_senders : list Sender;
  cs_rpc : rpc;
  cs_accepted : list (Priority * msg);
  cs_received : list (Priority * msg);
  cs_dropped : list (Priority * msg);
}.

Definition with_sender (i : nat) (s : Sender) (y : csys) : csys :=
  mkSys (cs_inner y) (<[i := s]> (cs_senders y)) (cs_rpc y) (cs_accepted y) (cs_received y) (cs_dropped y).
Definition with_inner (c : BoundedInner) (y : csys) : csys :=
  mkSys c (cs_senders y) (cs_rpc y) (cs_accepted y) (cs_received y) (cs_dropped y).
Definition with_rpc (r : rpc) (y : csys) : csys :=
  mkSys (cs_inner y) (cs_senders y) r (cs_accepted y) (cs_received y) (cs_dropped y).

(** [unpark_one] and the loop of [close]: the oldest parked handle is notified. *)
Definition unpark_one (y : csys) : csys :=
  match bi_parked_queue (cs_inner y) with
  | [] => y
  | i :: q =>
      let y' := with_inner (put_parked_queue q (cs_inner y)) y in
      match cs_senders y !! i with
      | Some s => with_sender i (mkSender (notify (s_task s)).1 (s_maybe_parked s) (s_pc s)) y'
      | None => y'
      end
  end.

(** A step of the sender [i] that stands at [s]. A handle makes one call at a time, as
    one that is owned by one task does; the operations take a shared reference, so calls through
    one handle from several threads at once are not covered. Concurrent senders are clones. *)
Inductive send_step (i : nat) (s : Sender) (y : csys) : csys → Prop :=
| ss_try pr m : s_pc s = SIdle → send_step i s y (with_sender i (try_send pr m s).1 y)
| ss_ready cx : s_pc s = SIdle → send_step i s y (with_sender i (poll_ready (cs_inner y) cx s).1 y)
| ss_inc pr m s' c' e : s_pc s = SInc pr m →
    do_send_b pr m s (cs_inner y) = ROk (s', c', e) →
    send_step i s y (mkSys c' (<[i := s']> (cs_senders y)) (cs_rpc y)
      (cs_accepted y ++ match e with None => [(pr, (i, m))] | Some _ => [] end) (cs_received y) (cs_dropped y))
| ss_park_lock pr m : s_pc s = SParkLock pr m → send_step i s y (with_sender i (park_lock pr m s) y)
| ss_park_push pr m : s_pc s = SParkPush pr m →
    send_step i s y (with_sender i (put_pc (SParkCheck pr m) s) (with_inner (park_push i (cs_inner y)) y))
| ss_park_check pr m : s_pc s = SParkCheck pr m →
    send_step i s y (with_sender i (park_check pr m (cs_inner y) s) y)
| ss_push pr m : s_pc s = SPush pr m →
    send_step i s y (with_sender i (put_pc SWake s) (with_inner (queue_push pr (i, m) (cs_inner y)) y))
| ss_wake : s_pc s = SWake →
    send_step i s y (with_sender i (put_pc SIdle s) (with_inner (put_recv_task None (cs_inner y)) y))
| ss_clone c' s' : s_pc s = SIdle → clone_sender (cs_inner y) = Some (c', s') →
    send_step i s y (mkSys c' (cs_senders y ++ [s']) (cs_rpc y) (cs_accepted y) (cs_received y) (cs_dropped y))
| ss_drop : s_pc s = SIdle →
    send_step i s y (with_sender i (drop_sender s (cs_inner y)).1
      (with_inner (drop_sender s (cs_inner y)).2 y))
| ss_close_channel : s_pc s = SIdle → send_step i s y (with_sender i (put_pc (SClose false) s) y)
| ss_close d : s_pc s = SClose d →
    send_step i s y (with_sender i (put_pc (SCloseWake d) s) (with_inner (set_closed (cs_inner y)) y))
| ss_close_wake d : s_pc s = SCloseWake d →
    send_step i s y (with_sender i (put_pc (if d then SGone else SIdle) s) (with_inner (put_recv_task None (cs_inner y)) y)).

(** What the caller of [next_message] does when it found nothing. *)
Definition after_empty (k : caller) (closed : bool) : rpc :=
  if closed then RDone
  else match k with First => RRegister | Second => RParked | TryNext => RIdle | Draining => RDropLoad end.

(** What the caller does with the message it got. *)
Definition after_message (k : caller) : rpc :=
  match k with Draining => RQuick Draining | _ => RIdle end.

(** The loop of [drop] loads the state once more before it spins. *)
Definition drop_loaded (closed : bool) : rpc := if closed then RDone else RQuick Draining.

Inductive recv_step (y : csys) : csys → Prop :=
| rs_poll : cs_rpc y = RIdle ∨ cs_rpc y = RParked → recv_step y (with_rpc (RQuick First) y)
| rs_try : cs_rpc y = RIdle ∨ cs_rpc y = RParked → recv_step y (with_rpc (RQuick TryNext) y)
| rs_quick k : cs_rpc y = RQuick k →
    recv_step y (match bi_quick_message_queue (cs_inner y) with
      | m :: q => with_rpc (RUnpark k High m) (with_inner (put_quick_message_queue q (cs_inner y)) y)
      | [] => with_rpc (RNormal k) y
      end)
| rs_normal k : cs_rpc y = RNormal k →
    recv_step y (match bi_message_queue (cs_inner y) with
      | m :: q => with_rpc (RUnpark k Normal m) (with_inner (put_message_queue q (cs_inner y)) y)
      | [] => with_rpc (RLoad k) y
      end)
| rs_load k : cs_rpc y = RLoad k →
    recv_step y (with_rpc (after_empty k (State_is_closed (decode_state (bi_state (cs_inner y))))) y)
| rs_register w : cs_rpc y = RRegister →
    recv_step y (with_rpc (RQuick Second) (with_inner (put_recv_task (Some w) (cs_inner y)) y))
| rs_unpark k pr m : cs_rpc y = RUnpark k pr m → recv_step y (with_rpc (RDec k pr m) (unpark_one y))
| rs_dec k pr m : cs_rpc y = RDec k pr m →
    recv_step y (mkSys (dec_num_messages (cs_inner y)) (cs_senders y) (after_message k) (cs_accepted y)
      (cs_received y ++ (if decide (k = Draining) then [] else [(pr, m)]))
      (cs_dropped y ++ (if decide (k = Draining) then [(pr, m)] else [])))
| rs_close d : cs_rpc y = RIdle ∨ cs_rpc y = RParked →
    recv_step y (with_rpc (RClosing d) (with_inner (set_closed (cs_inner y)) y))
| rs_closing d : cs_rpc y = RClosing d →
    recv_step y (match bi_parked_queue (cs_inner y) with
      | [] => with_rpc (if d then RQuick Draining else RIdle) y
      | _ => unpark_one y
      end)
| rs_drop_load : cs_rpc y = RDropLoad →
    recv_step y (with_rpc (drop_loaded (State_is_closed (decode_state (bi_state (cs_inner y))))) y).

Inductive c_step : csys → csys → Prop :=
| c_send y y' i s : cs_senders y !! i = Some s → send_step i s y y' → c_step y y'
| c_recv y y' : recv_step y y' → c_step y y'.

Definition chan_start (c : BoundedInner) : csys := mkSys c [Sender_new] RIdle [] [] [].

End Channel.
