(* ===== verification/PriorityChannelProofs.v ===== *)
(** * Properties of the priority channel

    In every interleaving: messages of a sender and priority arrive in order and none is lost,
    the end of the stream is reported only when everything accepted was received, the number
    of messages stays within the documented capacity, and no wake-up of the receiver is lost. *)

From Stdlib Require Import ZArith Lia Bool.
From stdpp Require Import base list gmap.
From S2P Require Import Prelude PriorityChannel.

Open Scope Z_scope.

(** ** The encoding of the state *)

Lemma OPEN_MASK_val : OPEN_MASK = 2 ^ 63.
Proof. done. Qed.
Lemma MAX_CAPACITY_val : MAX_CAPACITY = 2 ^ 63 - 1.
Proof. done. Qed.

Definition cap (n : Z) : Prop := 0 <= n <= MAX_CAPACITY.

Lemma cap_bits n : cap n → Z.testbit n 63 = false.
Proof.
  unfold cap. rewrite MAX_CAPACITY_val. intros H. destruct (decide (n = 0)) as [->|]; [done|].
  apply Z.bits_above_log2; [lia|]. apply Z.log2_lt_pow2; lia.
Qed.

Lemma encode_val o n : cap n → encode_state (mkState o n) = n + (if o then 2 ^ 63 else 0).
Proof.
  intros Hn. unfold encode_state. cbn. destruct o; [|lia]. rewrite OPEN_MASK_val.
  rewrite <- Z.lxor_lor, Z.add_nocarry_lxor; [done|..]; rewrite Z.land_comm;
    apply Z.bits_inj'; intros k Hk; rewrite Z.land_spec, Z.bits_0, Z.pow2_bits_eqb by lia;
    destruct (63 =? k) eqn:E; [apply Z.eqb_eq in E as <-; by rewrite cap_bits|done
                              |apply Z.eqb_eq in E as <-; by rewrite cap_bits|done].
Qed.

Lemma decode_encode_state o n : cap n → decode_state (encode_state (mkState o n)) = mkState o n.
Proof.
  intros Hn. pose proof (cap_bits n Hn) as Hb. unfold decode_state, encode_state. cbn [is_open num_messages].
  change MAX_CAPACITY with (Z.ones 63). rewrite OPEN_MASK_val.
  assert (Z.land n (Z.ones 63) = n) as H1.
  { rewrite Z.land_ones by lia. apply Z.mod_small. unfold cap in Hn. rewrite MAX_CAPACITY_val in Hn. lia. }
  assert (Z.land n (2 ^ 63) = 0) as H2.
  { apply Z.bits_inj'. intros k Hk. rewrite Z.land_spec, Z.bits_0, Z.pow2_bits_eqb by lia.
    destruct (63 =? k) eqn:E; [apply Z.eqb_eq in E as <-; by rewrite Hb|apply andb_false_r]. }
  destruct o.
  - rewrite !Z.land_lor_distr_l, H1, H2. f_equal. change (Z.land (2 ^ 63) (Z.ones 63)) with 0.
    apply Z.lor_0_r.
  - by rewrite H1, H2.
Qed.

Section Proofs.
Context {A : Type}.
Abbreviation inner := (BoundedInner (A := A)).
Abbreviation sys := (csys (A := A)).
Abbreviation sender := (Sender (A := A)).

#[local] Arguments decode_state : simpl never.
#[local] Arguments encode_state : simpl never.
#[local] Arguments set_closed : simpl never.

(** ** The invariant of the counter *)

Definition pc_msg (i : nat) (pc : spc (A := A)) : list (Priority * (nat * A)) :=
  match pc with
  | SParkLock pr m | SParkPush pr m | SParkCheck pr m | SPush pr m => [(pr, (i, m))]
  | _ => []
  end.

Definition rpc_msg (r : rpc (A := A)) : list (Priority * (nat * A)) :=
  match r with RUnpark _ pr m | RDec _ pr m => [(pr, m)] | _ => [] end.

Definition total (f : spc (A := A) → Z) (l : list sender) : Z := foldr (λ s a, f (s_pc s) + a) 0 l.

Definition in_flight (pc : spc (A := A)) : Z :=
  match pc with SParkLock _ _ | SParkPush _ _ | SParkCheck _ _ | SPush _ _ => 1 | _ => 0 end.

#[local] Arguments total : simpl never.

Lemma total_cons f s l : total f (s :: l) = f (s_pc s) + total f l.
Proof. done. Qed.

Lemma total_insert f l i s s' :
  l !! i = Some s → total f (<[i := s']> l) = total f l - f (s_pc s) + f (s_pc s').
Proof.
  revert i. induction l as [|x l IH]; intros i Hi; [done|]. destruct i as [|i].
  - injection Hi as ->. change (<[0%nat := s']> (s :: l)) with (s' :: l). rewrite !total_cons. lia.
  - change (<[S i := s']> (x :: l)) with (x :: <[i := s']> l). rewrite !total_cons, (IH i Hi). lia.
Qed.

Lemma total_snoc f l s : total f (l ++ [s]) = total f l + f (s_pc s).
Proof. induction l as [|x l IH]; [unfold total; cbn; lia|]. cbn [app]. rewrite !total_cons, IH. lia. Qed.

(** Computes the counts of the two sides. *)
Ltac count :=
  cbn [in_flight rpc_msg after_message s_pc put_pc Sender_new]; rewrite ?len_app, ?len_cons; cbn [in_flight];
  try change (len []) with 0; try lia.

(** The sender that was notified stands where it stood. *)
Lemma total_same_pc f l i s s' :
  l !! i = Some s → s_pc s' = s_pc s → total f (<[i := s']> l) = total f l.
Proof. intros Hi Hp. rewrite (total_insert f l i s s' Hi), Hp. lia. Qed.

Lemma total_nonneg f l : (∀ pc, 0 <= f pc) → 0 <= total f l.
Proof. intros Hf. induction l as [|x l IH]; [done|]. rewrite total_cons. pose proof (Hf (s_pc x)). lia. Qed.

Definition messages (y : sys) : Z :=
  len (bi_quick_message_queue (cs_inner y)) + len (bi_message_queue (cs_inner y))
  + total in_flight (cs_senders y) + len (rpc_msg (cs_rpc y)).

(** The state word holds the open flag and exactly the number of messages under way. *)
Definition count_inv (y : sys) : Prop :=
  ∃ o, cap (messages y) ∧ bi_state (cs_inner y) = encode_state (mkState o (messages y)).

Lemma count_open y : count_inv y →
  decode_state (bi_state (cs_inner y)) =
    mkState (is_open (decode_state (bi_state (cs_inner y)))) (messages y).
Proof. intros (o & Hc & ->). by rewrite decode_encode_state. Qed.

Lemma count_frame (y y' : sys) :
  bi_state (cs_inner y') = bi_state (cs_inner y) → messages y' = messages y →
  count_inv y → count_inv y'.
Proof. intros H1 H2 (o & Hc & He). exists o. by rewrite H1, H2. Qed.

Lemma set_closed_state (c : inner) o n :
  cap n → bi_state c = encode_state (mkState o n) →
  bi_state (set_closed c) = encode_state (mkState false n).
Proof.
  intros Hn Hs. unfold set_closed. rewrite Hs, decode_encode_state by done. cbn [is_open].
  destruct o; [|done]. change (num_messages (decode_state (encode_state (mkState true n))) = n).
  by rewrite decode_encode_state.
Qed.

Lemma set_closed_other (c : inner) :
  bi_quick_message_queue (set_closed c) = bi_quick_message_queue c ∧
  bi_message_queue (set_closed c) = bi_message_queue c ∧
  bi_parked_queue (set_closed c) = bi_parked_queue c ∧
  bi_buffer (set_closed c) = bi_buffer c ∧ bi_recv_task (set_closed c) = bi_recv_task c ∧
  bi_num_senders (set_closed c) = bi_num_senders c.
Proof. unfold set_closed. by destruct (is_open _). Qed.

Lemma messages_sender (y : sys) i s s' c :
  cs_senders y !! i = Some s →
  messages (with_sender i s' (with_inner c y)) =
  len (bi_quick_message_queue c) + len (bi_message_queue c)
  + (total in_flight (cs_senders y) - in_flight (s_pc s) + in_flight (s_pc s'))
  + len (rpc_msg (cs_rpc y)).
Proof. intros Hi. unfold messages. cbn. by rewrite (total_insert _ _ _ _ _ Hi). Qed.

Lemma poll_unparked_pc cx (s : sender) : s_pc (poll_unparked cx s).1 = s_pc s.
Proof. unfold poll_unparked. destruct (s_maybe_parked s); [|done]. by destruct (t_is_parked _). Qed.

Lemma poll_ready_pc (c : inner) cx (s : sender) : s_pc (poll_ready c cx s).1 = s_pc s.
Proof.
  unfold poll_ready. destruct (negb _); [done|]. pose proof (poll_unparked_pc (Some cx) s) as H.
  by destruct (poll_unparked (Some cx) s) as [? []].
Qed.

Lemma try_send_pc pr m (s : sender) :
  s_pc s = SIdle → s_pc (try_send pr m s).1 = SIdle ∨ s_pc (try_send pr m s).1 = SInc pr m.
Proof.
  intros Hs. unfold try_send. pose proof (poll_unparked_pc None s) as H.
  destruct (poll_unparked None s) as [? []]; cbn in *; rewrite ?H; auto.
Qed.

(** What counting a message does. *)
Lemma do_send_b_spec pr m (s s' : sender) (y : sys) c' e :
  count_inv y → do_send_b pr m s (cs_inner y) = ROk (s', c', e) →
  let o := is_open (decode_state (bi_state (cs_inner y))) in
  s_task s' = s_task s ∧ s_maybe_parked s' = s_maybe_parked s ∧
  match e with
  | None => o = true ∧ messages y < MAX_CAPACITY ∧
      c' = put_state (encode_state (mkState true (messages y + 1))) (cs_inner y) ∧
      s_pc s' = if bi_buffer (cs_inner y) <? messages y + 1 then SParkLock pr m else SPush pr m
  | Some _ => o = false ∧ c' = cs_inner y ∧ s_pc s' = SIdle
  end.
Proof.
  intros Hc. pose proof (count_open y Hc) as Ho. unfold do_send_b, inc_num_messages. rewrite Ho.
  cbn [is_open num_messages]. destruct (is_open (decode_state (bi_state (cs_inner y)))); cbn [negb].
  - destruct (messages y <? MAX_CAPACITY) eqn:E; [|done]. intros [= <- <- <-]. split_and!; auto. lia.
  - by intros [= <- <- <-].
Qed.

Lemma count_send i s y y' : cs_senders y !! i = Some s → send_step i s y y' → count_inv y → count_inv y'.
Proof.
  intros Hi Hst Hc. pose proof Hc as (o & Hcap & He).
  assert (∀ s', in_flight (s_pc s') = in_flight (s_pc s) → ∀ c, bi_state c = bi_state (cs_inner y) →
    bi_quick_message_queue c = bi_quick_message_queue (cs_inner y) →
    bi_message_queue c = bi_message_queue (cs_inner y) →
    count_inv (with_sender i s' (with_inner c y))) as Hsame.
  { intros s' Hf c H1 H2 H3. apply (count_frame y); [done| |done].
    rewrite (messages_sender y i s s' c Hi), H2, H3. unfold messages. lia. }
  assert (y = with_inner (cs_inner y) y) as Hy by (by destruct y).
  destruct Hst as [pr m Hp|cx Hp|pr m s' c' e Hp Hd|pr m Hp|pr m Hp|pr m Hp|pr m Hp|Hp|c' s' Hp Hcl|Hp|Hp|d Hp|d Hp].
  - rewrite Hy. apply Hsame; try done. destruct (try_send_pc pr m s Hp) as [-> | ->]; by rewrite Hp.
  - rewrite Hy at 2. apply Hsame; try done. by rewrite poll_ready_pc.
  - pose proof (do_send_b_spec _ _ _ _ _ _ _ Hc Hd) as (_ & _ & Hx). destruct e as [e|].
    + destruct Hx as (_ & -> & Hpc). apply (count_frame y); [done| |done]. unfold messages. cbn.
      rewrite (total_insert _ _ _ _ _ Hi), Hp, Hpc. count.
    + destruct Hx as (_ & Hlt & -> & Hpc). exists true.
      match goal with |- cap (messages ?y1) ∧ _ => assert (messages y1 = messages y + 1) as -> end.
      { unfold messages. cbn. rewrite (total_insert _ _ _ _ _ Hi), Hp, Hpc. destruct (_ <? _); count. }
      split; [unfold cap in *; lia|done].
  - rewrite Hy. apply Hsame; try done. by rewrite Hp.
  - apply Hsame; try done. by rewrite Hp.
  - rewrite Hy at 2. apply Hsame; try done. by rewrite Hp.
  - apply (count_frame y); [by destruct pr| |done]. rewrite (messages_sender y i s _ _ Hi), Hp.
    unfold messages. destruct pr; cbn [queue_push put_quick_message_queue put_message_queue
      bi_quick_message_queue bi_message_queue]; count.
  - apply Hsame; try done. by rewrite Hp.
  - unfold clone_sender in Hcl. destruct (_ =? _); [done|]. injection Hcl as <- <-.
    apply (count_frame y); [done| |done]. unfold messages. cbn. rewrite total_snoc. count.
  - apply Hsame; try done. cbn [drop_sender fst put_pc s_pc]. rewrite Hp. by destruct (_ =? _).
  - rewrite Hy. apply Hsame; try done. by rewrite Hp.
  - exists false. destruct (set_closed_other (cs_inner y)) as (H1 & H2 & _).
    rewrite (messages_sender y i s _ _ Hi), H1, H2, Hp.
    replace (_ + _ + _ + _) with (messages y) by (unfold messages; count).
    split; [done|]. by eapply set_closed_state.
  - apply Hsame; try done. rewrite Hp. by destruct d.
Qed.

Lemma unpark_one_other (y : sys) :
  bi_state (cs_inner (unpark_one y)) = bi_state (cs_inner y) ∧
  bi_quick_message_queue (cs_inner (unpark_one y)) = bi_quick_message_queue (cs_inner y) ∧
  bi_message_queue (cs_inner (unpark_one y)) = bi_message_queue (cs_inner y) ∧
  bi_buffer (cs_inner (unpark_one y)) = bi_buffer (cs_inner y) ∧
  bi_recv_task (cs_inner (unpark_one y)) = bi_recv_task (cs_inner y) ∧
  cs_rpc (unpark_one y) = cs_rpc y ∧ cs_accepted (unpark_one y) = cs_accepted y ∧
  cs_received (unpark_one y) = cs_received y ∧ cs_dropped (unpark_one y) = cs_dropped y ∧
  bi_parked_queue (cs_inner (unpark_one y)) = tail (bi_parked_queue (cs_inner y)).
Proof.
  unfold unpark_one. destruct (bi_parked_queue (cs_inner y)) as [|i q] eqn:E; [by rewrite E|].
  by destruct (cs_senders y !! i).
Qed.

Lemma unpark_one_total f (y : sys) : total f (cs_senders (unpark_one y)) = total f (cs_senders y).
Proof.
  unfold unpark_one. destruct (bi_parked_queue (cs_inner y)) as [|i q]; [done|].
  destruct (cs_senders y !! i) as [s|] eqn:E; [|done]. cbn. by apply (total_same_pc f _ _ s).
Qed.

Lemma messages_unpark y : messages (unpark_one y) = messages y.
Proof.
  unfold messages. rewrite unpark_one_total.
  by destruct (unpark_one_other y) as (_ & -> & -> & _ & _ & -> & _).
Qed.

Lemma count_recv y y' : recv_step y y' → count_inv y → count_inv y'.
Proof.
  intros Hst Hc. pose proof Hc as (o & Hcap & He).
  destruct Hst as [Hr|Hr|k Hr|k Hr|k Hr|w Hr|k pr m Hr|k pr m Hr|d Hr|d Hr|Hr].
  - apply (count_frame y); [done| |done]. unfold messages. cbn. by destruct Hr as [-> | ->].
  - apply (count_frame y); [done| |done]. unfold messages. cbn. by destruct Hr as [-> | ->].
  - destruct (bi_quick_message_queue (cs_inner y)) as [|m q] eqn:Eq; apply (count_frame y); try done;
      unfold messages; cbn; rewrite Hr, ?Eq; count.
  - destruct (bi_message_queue (cs_inner y)) as [|m q] eqn:Eq; apply (count_frame y); try done;
      unfold messages; cbn; rewrite Hr, ?Eq; count.
  - apply (count_frame y); [done| |done]. unfold messages. cbn. rewrite Hr. unfold after_empty.
    by destruct (State_is_closed _), k.
  - apply (count_frame y); [done| |done]. unfold messages. cbn. by rewrite Hr.
  - destruct (unpark_one_other y) as (H1 & H2 & H3 & _). apply (count_frame y); [done| |done].
    unfold messages. cbn. rewrite unpark_one_total, H2, H3, Hr. done.
  - exists o. match goal with |- cap (messages ?y1) ∧ _ => assert (messages y1 = messages y - 1) as -> end.
    { unfold messages. cbn. rewrite Hr. destruct k; count. }
    assert (0 < messages y) as Hpos.
    { unfold messages. rewrite Hr. pose proof (len_nonneg (bi_quick_message_queue (cs_inner y))).
      pose proof (len_nonneg (bi_message_queue (cs_inner y))).
      pose proof (total_nonneg in_flight (cs_senders y) ltac:(by intros [])). count. }
    assert (cap (messages y - 1)) as Hc1 by (unfold cap in *; lia). split; [done|]. cbn.
    rewrite He, !encode_val by done. unfold cap in Hcap. rewrite MAX_CAPACITY_val in Hcap.
    rewrite Z.mod_small; destruct o; lia.
  - exists false. destruct (set_closed_other (cs_inner y)) as (H1 & H2 & _).
    match goal with |- cap (messages ?y1) ∧ _ => assert (messages y1 = messages y) as -> end.
    { unfold messages. cbn. rewrite H1, H2. by destruct Hr as [-> | ->]. }
    split; [done|]. by eapply set_closed_state.
  - destruct (bi_parked_queue (cs_inner y)) eqn:E.
    + apply (count_frame y); [done| |done]. unfold messages. cbn. rewrite Hr. by destruct d.
    + apply (count_frame y); [|apply messages_unpark|done]. by destruct (unpark_one_other y) as (-> & _).
  - apply (count_frame y); [done| |done]. unfold messages. cbn. rewrite Hr. by destruct (State_is_closed _).
Qed.

Lemma count_step y y' : c_step y y' → count_inv y → count_inv y'.
Proof. destruct 1; eauto using count_send, count_recv. Qed.

(** ** Order and delivery *)

Definition sel (i : nat) (pr : Priority) (l : list (Priority * (nat * A))) : list (Priority * (nat * A)) :=
  filter (λ x, x.1 = pr ∧ x.2.1 = i) l.

#[local] Arguments sel : simpl never.

Lemma sel_app i pr l k : sel i pr (l ++ k) = sel i pr l ++ sel i pr k.
Proof. apply filter_app. Qed.

Lemma sel_other i pr pr' j m : pr' ≠ pr ∨ j ≠ i → sel i pr [(pr', (j, m))] = [].
Proof. intros H. unfold sel. rewrite filter_cons_False; [done|]. cbn. naive_solver. Qed.

Lemma sel_cons i pr x l : sel i pr (x :: l) = sel i pr [x] ++ sel i pr l.
Proof. apply (sel_app i pr [x] l). Qed.

Definition queue_of (pr : Priority) (c : inner) : list (Priority * (nat * A)) :=
  map (pair pr) (match pr with High => bi_quick_message_queue c | Normal => bi_message_queue c end).

(** The message a sender has counted and not yet pushed. *)
Definition held (i : nat) (l : list sender) : list (Priority * (nat * A)) :=
  match l !! i with Some s => pc_msg i (s_pc s) | None => [] end.

#[local] Arguments held : simpl never.
#[local] Arguments queue_of : simpl never.

(** What was received, what the receiver holds, what is queued and what the sender holds are,
    in this order, what was accepted from the sender at the priority. *)
Definition fifo_inv (y : sys) : Prop := ∀ i pr,
  sel i pr (cs_accepted y) =
  sel i pr (cs_received y ++ cs_dropped y ++ rpc_msg (cs_rpc y) ++ queue_of pr (cs_inner y)) ++
  sel i pr (held i (cs_senders y)).

Lemma held_insert i j (s s' : sender) l :
  l !! j = Some s → held i (<[j := s']> l) = if decide (i = j) then pc_msg i (s_pc s') else held i l.
Proof.
  intros Hj. unfold held. destruct (decide (i = j)) as [->|Hne].
  - rewrite list_lookup_insert_eq; [done|]. by eapply lookup_lt_Some.
  - by rewrite list_lookup_insert_ne by done.
Qed.

Lemma held_same i j (s s' : sender) l :
  l !! j = Some s → pc_msg j (s_pc s') = pc_msg j (s_pc s) → held i (<[j := s']> l) = held i l.
Proof.
  intros Hj He. rewrite (held_insert i j s s' l Hj). destruct (decide (i = j)) as [->|]; [|done].
  unfold held. by rewrite Hj.
Qed.

Lemma fifo_frame (y y' : sys) :
  cs_accepted y' = cs_accepted y → cs_received y' = cs_received y → cs_dropped y' = cs_dropped y →
  rpc_msg (cs_rpc y') = rpc_msg (cs_rpc y) →
  bi_quick_message_queue (cs_inner y') = bi_quick_message_queue (cs_inner y) →
  bi_message_queue (cs_inner y') = bi_message_queue (cs_inner y) →
  (∀ i, held i (cs_senders y') = held i (cs_senders y)) → fifo_inv y → fifo_inv y'.
Proof.
  intros H1 H2 H7 H3 H4 H5 H6 Hf i pr. specialize (Hf i pr). unfold queue_of in *.
  by rewrite H1, H2, H3, H4, H5, H6, H7.
Qed.

Lemma fifo_send j s y y' :
  cs_senders y !! j = Some s → send_step j s y y' → count_inv y → fifo_inv y → fifo_inv y'.
Proof.
  intros Hj Hst Hc Hf.
  assert (∀ s' c, pc_msg j (s_pc s') = pc_msg j (s_pc s) →
    bi_quick_message_queue c = bi_quick_message_queue (cs_inner y) →
    bi_message_queue c = bi_message_queue (cs_inner y) →
    fifo_inv (with_sender j s' (with_inner c y))) as Hsame.
  { intros s' c Hp H1 H2. apply (fifo_frame y); auto. intros i. cbn. by eapply held_same. }
  assert (y = with_inner (cs_inner y) y) as Hy by (by destruct y).
  destruct Hst as [pr m Hp|cx Hp|pr m s' c' e Hp Hd|pr m Hp|pr m Hp|pr m Hp|pr m Hp|Hp|c' s' Hp Hcl|Hp|Hp|d Hp|d Hp].
  - rewrite Hy. apply Hsame; try done. destruct (try_send_pc pr m s Hp) as [-> | ->]; by rewrite Hp.
  - rewrite Hy at 2. apply Hsame; try done. by rewrite poll_ready_pc.
  - pose proof (do_send_b_spec _ _ _ _ _ _ _ Hc Hd) as (_ & _ & Hx). destruct e as [e|].
    + destruct Hx as (_ & -> & Hpc). apply (fifo_frame y); auto; cbn; [by rewrite app_nil_r|].
      intros i. eapply held_same; [done|]. by rewrite Hpc, Hp.
    + destruct Hx as (_ & _ & -> & Hpc). intros i pr'. specialize (Hf i pr'). cbn.
      rewrite sel_app, Hf, (held_insert i j s s' _ Hj), <- app_assoc. unfold queue_of. cbn.
      assert (pc_msg j (s_pc s') = [(pr, (j, m))]) as Hm by (rewrite Hpc; by destruct (_ <? _)).
      f_equal. destruct (decide (i = j)) as [->|Hne].
      * unfold held. by rewrite Hj, Hp, Hm.
      * rewrite (sel_other i pr' pr j m) by auto. by rewrite app_nil_r.
  - rewrite Hy. apply Hsame; try done. by rewrite Hp.
  - apply Hsame; try done. by rewrite Hp.
  - rewrite Hy at 2. apply Hsame; try done. by rewrite Hp.
  - intros i pr'. specialize (Hf i pr'). cbn. rewrite Hf, (held_insert i j s _ _ Hj).
    assert (queue_of pr' (queue_push pr (j, m) (cs_inner y)) =
      queue_of pr' (cs_inner y) ++ (if decide (pr' = pr) then [(pr, (j, m))] else [])) as ->.
    { unfold queue_of. destruct pr, pr'; cbn; rewrite ?map_app, ?app_nil_r; done. }
    rewrite !sel_app, <- !app_assoc. do 3 f_equal. destruct (decide (i = j)) as [->|Hne].
    + unfold held. rewrite Hj, Hp. cbn [pc_msg put_pc s_pc]. destruct (decide (pr' = pr)) as [->|Hn].
      * by rewrite app_nil_r.
      * by rewrite sel_other by auto.
    + destruct (decide (pr' = pr)) as [->|Hn]; [|done]. by rewrite (sel_other i pr pr j m) by auto.
  - apply Hsame; try done. by rewrite Hp.
  - unfold clone_sender in Hcl. destruct (_ =? _); [done|]. injection Hcl as <- <-.
    apply (fifo_frame y); auto. intros i. unfold held. cbn.
    destruct (decide (i < length (cs_senders y))%nat) as [Hl|Hl].
    + by rewrite lookup_app_l by done.
    + rewrite lookup_app_r by lia. rewrite (lookup_ge_None_2 (cs_senders y) i) by lia.
      by destruct (i - length (cs_senders y))%nat as [|[]].
  - apply Hsame; try done. cbn [drop_sender fst put_pc s_pc]. rewrite Hp. by destruct (_ =? _).
  - rewrite Hy. apply Hsame; try done. by rewrite Hp.
  - destruct (set_closed_other (cs_inner y)) as (H1 & H2 & _). apply Hsame; auto. by rewrite Hp.
  - apply Hsame; try done. rewrite Hp. by destruct d.
Qed.

Lemma held_unpark i y : held i (cs_senders (unpark_one y)) = held i (cs_senders y).
Proof.
  unfold unpark_one. destruct (bi_parked_queue (cs_inner y)) as [|j q]; [done|].
  destruct (cs_senders y !! j) as [s|] eqn:E; [|done]. cbn. by eapply held_same.
Qed.

(** Only a receiver that is being dropped throws messages away. *)
Definition draining (r : rpc (A := A)) : bool :=
  match r with
  | RQuick Draining | RNormal Draining | RLoad Draining | RUnpark Draining _ _ | RDec Draining _ _ | RDropLoad | RDone => true
  | _ => false
  end.

Definition drop_inv (y : sys) : Prop := draining (cs_rpc y) = false → cs_dropped y = [].

Lemma drop_recv y y' : recv_step y y' → drop_inv y → drop_inv y'.
Proof.
  unfold drop_inv. intros Hst Hd.
  destruct Hst as [Hr|Hr|k Hr|k Hr|k Hr|w Hr|k pr m Hr|k pr m Hr|d Hr|d Hr|Hr];
    try (destruct Hr as [Hr|Hr]); rewrite Hr in Hd; cbn in Hd |- *; auto.
  - destruct (bi_quick_message_queue (cs_inner y)); cbn; by destruct k.
  - destruct (bi_message_queue (cs_inner y)); cbn; by destruct k.
  - unfold after_empty. destruct (State_is_closed _); cbn; [done|]. by destruct k.
  - destruct (unpark_one_other y) as (_ & _ & _ & _ & _ & _ & _ & _ & -> & _). by destruct k.
  - destruct k; cbn; rewrite ?app_nil_r; auto; discriminate.
  - destruct (bi_parked_queue (cs_inner y)); cbn; [by destruct d|]. intros _.
    destruct (unpark_one_other y) as (_ & _ & _ & _ & _ & _ & _ & _ & -> & _). auto.
  - destruct (State_is_closed _); done.
Qed.

Lemma drop_send i s y y' : send_step i s y y' → drop_inv y → drop_inv y'.
Proof. by destruct 1. Qed.

Lemma fifo_recv y y' : recv_step y y' → drop_inv y → fifo_inv y → fifo_inv y'.
Proof.
  intros Hst Hdr Hf. assert (∀ k pr m, cs_rpc y = RDec k pr m → k ≠ Draining → cs_dropped y = []) as Hdrop.
  { intros k pr m Hr Hk. apply Hdr. rewrite Hr. by destruct k. }
  assert (∀ r, rpc_msg r = rpc_msg (cs_rpc y) → fifo_inv (with_rpc r y)) as Hsame
    by (intros r Hr; by apply (fifo_frame y)).
  destruct Hst as [Hr|Hr|k Hr|k Hr|k Hr|w Hr|k pr m Hr|k pr m Hr|d Hr|d Hr|Hr].
  - apply Hsame. by destruct Hr as [-> | ->].
  - apply Hsame. by destruct Hr as [-> | ->].
  - destruct (bi_quick_message_queue (cs_inner y)) as [|m q] eqn:Eq; [apply Hsame; by rewrite Hr|].
    intros i pr. specialize (Hf i pr). rewrite Hr in Hf. cbn in Hf |- *. rewrite Hf. f_equal.
    rewrite !sel_app. f_equal. f_equal. unfold queue_of. destruct pr; cbn; rewrite ?Eq; cbn; [done|].
    rewrite sel_cons. destruct m as [j m]. by rewrite sel_other by auto.
  - destruct (bi_message_queue (cs_inner y)) as [|m q] eqn:Eq; [apply Hsame; by rewrite Hr|].
    intros i pr. specialize (Hf i pr). rewrite Hr in Hf. cbn in Hf |- *. rewrite Hf. f_equal.
    rewrite !sel_app. f_equal. f_equal. unfold queue_of. destruct pr; cbn; rewrite ?Eq; cbn; [|done].
    rewrite sel_cons. destruct m as [j m]. by rewrite sel_other by auto.
  - apply Hsame. rewrite Hr. unfold after_empty. by destruct (State_is_closed _), k.
  - apply (fifo_frame y); auto. by rewrite Hr.
  - destruct (unpark_one_other y) as (_ & H2 & H3 & _ & _ & _ & H4 & H5 & H7 & _).
    apply (fifo_frame y); auto; [by rewrite Hr|intros i; apply (held_unpark i)].
  - intros i pr'. specialize (Hf i pr'). rewrite Hr in Hf. cbn in Hf |- *. rewrite Hf.
    unfold queue_of. cbn. f_equal. destruct (decide (k = Draining)) as [->|Hk]; cbn; rewrite ?app_nil_r, <- ?app_assoc; [done|].
    rewrite (Hdrop k pr m Hr Hk). by destruct k.
  - destruct (set_closed_other (cs_inner y)) as (H1 & H2 & _). apply (fifo_frame y); auto. by destruct Hr as [-> | ->].
  - destruct (bi_parked_queue (cs_inner y)) eqn:E; [apply Hsame; rewrite Hr; by destruct d|].
    destruct (unpark_one_other y) as (_ & H2 & H3 & _ & _ & H6 & H4 & H5 & H7 & _).
    apply (fifo_frame y); auto; [by rewrite H6|intros i; apply (held_unpark i)].
  - apply Hsame. rewrite Hr. by destruct (State_is_closed _).
Qed.

(** ** Capacity *)

Definition closed (y : sys) : bool := negb (is_open (decode_state (bi_state (cs_inner y)))).

(** A sender that decided to park and has not queued its handle yet. *)
Definition parking (pc : spc (A := A)) : Z :=
  match pc with SParkLock _ _ | SParkPush _ _ => 1 | _ => 0 end.

(** A sender whose handle is queued cannot count another message while the channel is open. *)
Definition parked_ok (cl : bool) (s : sender) : Prop :=
  t_is_parked (s_task s) = true ∧
  match s_pc s with
  | SParkLock _ _ | SParkPush _ _ => False
  | SParkCheck _ _ => True
  | SInc _ _ => cl = true
  | _ => s_maybe_parked s = true ∨ cl = true
  end.

Definition push_ok (s : sender) : Prop :=
  match s_pc s with SParkPush _ _ => t_is_parked (s_task s) = true | _ => True end.

(** Messages not yet handed to the receiver's caller whose slot is not given back. *)
Definition load (y : sys) : Z :=
  messages y - match cs_rpc y with RDec _ _ _ => 1 | _ => 0 end.

Definition parked_inv (y : sys) : Prop :=
  0 <= bi_buffer (cs_inner y) ∧ NoDup (bi_parked_queue (cs_inner y)) ∧
  (∀ i, i ∈ bi_parked_queue (cs_inner y) →
     ∃ s, cs_senders y !! i = Some s ∧ parked_ok (closed y) s) ∧
  (∀ i s, cs_senders y !! i = Some s → push_ok s).

Definition load_inv (y : sys) : Prop :=
  (closed y = false →
     load y <= bi_buffer (cs_inner y) + len (bi_parked_queue (cs_inner y))
               + total parking (cs_senders y)) ∧
  load y <= bi_buffer (cs_inner y) + len (cs_senders y) ∧
  ((∃ d, cs_rpc y = RClosing d) → closed y = true).

(** Distinct positions of weight zero, and weights of at most one. *)
Lemma weight_count (w : list Z) P :
  NoDup P → Forall (λ x, x <= 1) w → (∀ i, i ∈ P → w !! i = Some 0) →
  len P + foldr Z.add 0 w <= len w.
Proof.
  intros Hnd. revert w. induction Hnd as [|i P Hi Hnd IH]; intros w Hw HP.
  { change (len []) with 0. induction Hw as [|x w Hx Hw IHw]; [done|].
    rewrite len_cons. cbn [foldr]. specialize (IHw ltac:(intros i Hi; by apply elem_of_nil in Hi)). lia. }
  rewrite len_cons. specialize (HP i ltac:(left)) as Hwi.
  specialize (IH (<[i := 1]> w)).
  assert (∀ (v : list Z) j, v !! j = Some 0 → foldr Z.add 0 (<[j := 1]> v) = foldr Z.add 0 v + 1) as Hsum.
  { clear. induction v as [|x v IH]; intros j Hj; [done|]. destruct j as [|j].
    - injection Hj as ->. cbn. lia.
    - change (<[S j := 1]> (x :: v)) with (x :: <[j := 1]> v). cbn [foldr]. rewrite (IH j Hj). lia. }
  rewrite (Hsum w i Hwi) in IH. unfold len in *. rewrite length_insert in IH.
  assert (Z.of_nat (length P) + (foldr Z.add 0 w + 1) ≤ Z.of_nat (length w)); [|lia].
  apply IH.
  - by apply Forall_insert.
  - intros j Hj. rewrite list_lookup_insert_ne; [apply HP; by right|]. by intros ->.
Qed.

Lemma parked_count (l : list sender) P :
  NoDup P → (∀ i, i ∈ P → ∃ s, l !! i = Some s ∧ parking (s_pc s) = 0) →
  len P + total parking l <= len l.
Proof.
  intros Hnd HP.
  assert (total parking l = foldr Z.add 0 (map (λ s : sender, parking (s_pc s)) l)) as ->.
  { clear. induction l as [|s l IH]; [done|]. rewrite total_cons, IH. done. }
  replace (len l) with (len (map (λ s : sender, parking (s_pc s)) l)) by (unfold len; by rewrite length_map).
  apply weight_count; [done| |].
  - apply Forall_map, Forall_true. intros s. by destruct (s_pc s).
  - intros i Hi. destruct (HP i Hi) as (s & Hs & Hp). rewrite list_lookup_fmap, Hs. cbn. by rewrite Hp.
Qed.

Lemma parked_inv_count y : parked_inv y →
  len (bi_parked_queue (cs_inner y)) + total parking (cs_senders y) <= len (cs_senders y).
Proof.
  intros (_ & Hnd & Hp & _). apply parked_count; [done|]. intros i Hi.
  destruct (Hp i Hi) as (s & Hs & _ & Hpc). exists s. split; [done|]. by destruct (s_pc s).
Qed.

(** A step of the sender [j] that keeps the parked queue and the open flag. *)
Lemma parked_sender y j s s' c :
  cs_senders y !! j = Some s →
  bi_parked_queue c = bi_parked_queue (cs_inner y) → bi_buffer c = bi_buffer (cs_inner y) →
  (closed y = true → is_open (decode_state (bi_state c)) = false) →
  (j ∈ bi_parked_queue (cs_inner y) → parked_ok (closed y) s → parked_ok (negb (is_open (decode_state (bi_state c)))) s') →
  (push_ok s → push_ok s') →
  parked_inv y → parked_inv (with_sender j s' (with_inner c y)).
Proof.
  intros Hj Hq Hb Hcl Hs' Hps (H0 & Hnd & Hp & Hps0). unfold parked_inv. cbn. rewrite Hq, Hb.
  split_and!; auto.
  - intros i Hi. destruct (Hp i Hi) as (x & Hx & Hok). destruct (decide (i = j)) as [->|Hne].
    + exists s'. rewrite list_lookup_insert_eq by (by eapply lookup_lt_Some). split; [done|].
      simplify_eq. by apply Hs'.
    + exists x. rewrite list_lookup_insert_ne by done. split; [done|].
      destruct Hok as [Ht Hok]. split; [done|]. unfold closed in *. cbn.
      destruct (s_pc x); try done; destruct (is_open (decode_state (bi_state (cs_inner y)))); cbn in *;
        try (by rewrite Hcl); try tauto; try discriminate; destruct Hok; auto; discriminate.
  - intros i x Hx. destruct (decide (i = j)) as [->|Hne].
    + rewrite list_lookup_insert_eq in Hx by (by eapply lookup_lt_Some). injection Hx as <-. eauto.
    + rewrite list_lookup_insert_ne in Hx by done. eauto.
Qed.

Lemma parked_ok_poll cl cx (s : sender) :
  parked_ok cl s → s_pc s = SIdle → parked_ok cl (poll_unparked cx s).1.
Proof.
  intros [Ht Hok] Hpc. rewrite Hpc in Hok. unfold poll_unparked. rewrite Ht.
  destruct (s_maybe_parked s) eqn:Hm; (split; [done|]); cbn; rewrite Hpc; [auto|]. destruct Hok; [done|auto].
Qed.

Lemma parked_send j s y y' :
  cs_senders y !! j = Some s → send_step j s y y' → count_inv y → parked_inv y → parked_inv y'.
Proof.
  intros Hj Hst Hc Hi. assert (y = with_inner (cs_inner y) y) as Hy by (by destruct y).
  pose proof Hi as (H0 & Hnd & Hp0 & Hps).
  assert (∀ s', (parked_ok (closed y) s → parked_ok (closed y) s') → (push_ok s → push_ok s') →
    parked_inv (with_sender j s' y)) as Hsame.
  { intros s' Hok Hpk. rewrite Hy. eapply parked_sender; eauto. by intros; apply negb_true_iff. }
  destruct Hst as [pr m Hp|cx Hp|pr m s' c' e Hp Hd|pr m Hp|pr m Hp|pr m Hp|pr m Hp|Hp|c' s' Hp Hcl|Hp|Hp|d Hp|d Hp].
  - apply Hsame; unfold try_send; pose proof (poll_unparked_pc None s) as Hpc.
    + intros Hok. pose proof (parked_ok_poll (closed y) None s Hok Hp) as Hok'.
      destruct (poll_unparked None s) as [s1 []] eqn:E; [|exact Hok'].
      destruct Hok as [Ht Hok]. rewrite Hp in Hok. unfold poll_unparked in E. rewrite Ht in E.
      destruct (s_maybe_parked s) eqn:Hm; [done|]. injection E as <-. split; [done|].
      cbn. by destruct Hok.
    + intros _. unfold push_ok. destruct (poll_unparked None s) as [s1 []]; cbn in *; [done|].
      by rewrite Hpc, Hp.
  - apply Hsame.
    + intros Hok. unfold poll_ready. destruct (negb _); [done|].
      pose proof (parked_ok_poll (closed y) (Some cx) s Hok Hp). by destruct (poll_unparked (Some cx) s) as [s1 []].
    + intros _. unfold push_ok. by rewrite poll_ready_pc, Hp.
  - pose proof (do_send_b_spec _ _ _ _ _ _ _ Hc Hd) as (Ht & Hm & Hx).
    apply (parked_sender y j s s' c'); auto; destruct e as [e|].
    + by destruct Hx as (_ & -> & _).
    + by destruct Hx as (_ & _ & -> & _).
    + by destruct Hx as (_ & -> & _).
    + by destruct Hx as (_ & _ & -> & _).
    + destruct Hx as (Ho & -> & _). done.
    + destruct Hx as (Ho & _). unfold closed. by rewrite Ho.
    + destruct Hx as (Ho & -> & Hpc). intros _ [Hk Hok]. split; [congruence|]. rewrite Hpc, Ho. by right.
    + destruct Hx as (Ho & _). intros _ [Hk Hok]. rewrite Hp in Hok. unfold closed in Hok. by rewrite Ho in Hok.
    + destruct Hx as (_ & _ & Hpc). unfold push_ok. by rewrite Hpc.
    + destruct Hx as (_ & _ & _ & Hpc). unfold push_ok. rewrite Hpc. by destruct (_ <? _).
  - apply Hsame.
    + intros [_ Hok]. by rewrite Hp in Hok.
    + done.
  - assert (t_is_parked (s_task s) = true) as Ht by (specialize (Hps j s Hj); unfold push_ok in Hps; by rewrite Hp in Hps).
    assert (j ∉ bi_parked_queue (cs_inner y)) as Hn.
    { intros Hin. destruct (Hp0 j Hin) as (x & Hx & _ & Hok). simplify_eq. by rewrite Hp in Hok. }
    unfold parked_inv. cbn. split_and!; auto.
    + apply NoDup_app. split_and!; [done| |apply NoDup_singleton]. set_solver.
    + intros i Hin. apply elem_of_app in Hin as [Hin|Hin%list_elem_of_singleton].
      * destruct (Hp0 i Hin) as (x & Hx & Hok). exists x. by rewrite list_lookup_insert_ne by (by intros ->).
      * subst i. eexists. rewrite list_lookup_insert_eq by (by eapply lookup_lt_Some). done.
    + intros i x Hx. destruct (decide (i = j)) as [->|Hne].
      * rewrite list_lookup_insert_eq in Hx by (by eapply lookup_lt_Some). by injection Hx as <-.
      * rewrite list_lookup_insert_ne in Hx by done. eauto.
  - apply Hsame; [|done]. intros [Ht _]. split; [done|].
    cbn [park_check s_pc s_maybe_parked]. unfold closed. destruct (is_open _); auto.
  - apply (parked_sender y j s); auto; try (by destruct pr); try done.
    + intros Hcl. apply negb_true_iff in Hcl. by destruct pr.
    + intros _ [Ht Hok]. rewrite Hp in Hok. split; [done|]. cbn. destruct pr; exact Hok.
  - apply (parked_sender y j s); auto; try done.
    + intros Hcl. by apply negb_true_iff in Hcl.
    + intros _ [Ht Hok]. rewrite Hp in Hok. split; [done|]. exact Hok.
  - unfold clone_sender in Hcl. destruct (_ =? _); [done|]. injection Hcl as <- <-.
    unfold parked_inv. cbn. split_and!; auto.
    + intros i Hin. destruct (Hp0 i Hin) as (x & Hx & Hok). exists x. split; [|done].
      by apply lookup_app_l_Some.
    + intros i x Hx. apply lookup_app_Some in Hx as [Hx|[_ Hx]]; [eauto|].
      by destruct (i - length (cs_senders y))%nat as [|[]]; [injection Hx as <-|..].
  - apply (parked_sender y j s); auto; try done.
    + intros Hcl. by apply negb_true_iff in Hcl.
    + intros _ [Ht Hok]. rewrite Hp in Hok. split; [done|]. cbn. by destruct (_ =? 1).
    + intros _. unfold push_ok. cbn. by destruct (_ =? 1).
  - apply Hsame; [|done]. intros [Ht Hok]. rewrite Hp in Hok. by split.
  - destruct (set_closed_other (cs_inner y)) as (_ & _ & H3 & H4 & _). destruct Hc as (o & Hcap & He).
    pose proof (set_closed_state _ _ _ Hcap He) as Hs. 
    apply (parked_sender y j s); auto; try done.
    + intros _. by rewrite Hs, decode_encode_state.
    + intros _ [Ht Hok]. split; [done|]. rewrite Hs, decode_encode_state by done. by right.
  - apply (parked_sender y j s); auto; try done; try (by destruct d).
    + intros Hcl. by apply negb_true_iff in Hcl.
    + intros _ [Ht Hok]. rewrite Hp in Hok. split; [done|]. destruct d; exact Hok.
Qed.

Lemma parked_unpark y : parked_inv y → parked_inv (unpark_one y).
Proof.
  intros (H0 & Hnd & Hp & Hps). destruct (unpark_one_other y) as (Hst & _ & _ & Hb & _ & _ & _ & _ & _ & Hq).
  unfold parked_inv, closed. rewrite Hst, Hb, Hq. unfold unpark_one.
  destruct (bi_parked_queue (cs_inner y)) as [|i q] eqn:E; [done|]. cbn [tail].
  apply NoDup_cons in Hnd as [Hi Hnd]. destruct (Hp i ltac:(left)) as (s & Hs & Hok). rewrite Hs.
  split_and!; auto.
  - intros k Hk. destruct (Hp k ltac:(by right)) as (x & Hx & Hx'). exists x. cbn.
    by rewrite list_lookup_insert_ne by (by intros ->).
  - intros k x Hx. cbn in Hx. destruct (decide (k = i)) as [->|Hne].
    + rewrite list_lookup_insert_eq in Hx by (by eapply lookup_lt_Some). injection Hx as <-.
      destruct Hok as [_ Hok]. unfold push_ok. cbn. by destruct (s_pc s).
    + rewrite list_lookup_insert_ne in Hx by done. eauto.
Qed.

Lemma parked_shared_frame y y' :
  bi_parked_queue (cs_inner y') = bi_parked_queue (cs_inner y) → cs_senders y' = cs_senders y →
  bi_buffer (cs_inner y') = bi_buffer (cs_inner y) → (closed y = true → closed y' = true) →
  parked_inv y → parked_inv y'.
Proof.
  intros H1 H2 H3 H4 (H0 & Hnd & Hp & Hps). unfold parked_inv. rewrite H1, H2, H3. split_and!; auto.
  intros i Hi. destruct (Hp i Hi) as (s & Hs & Ht & Hok). exists s. split; [done|]. split; [done|].
  destruct (closed y); [rewrite H4 by done; by destruct (s_pc s); auto|].
  destruct (s_pc s); try done; destruct Hok; auto; discriminate.
Qed.

Lemma closed_val y o : cap (messages y) → bi_state (cs_inner y) = encode_state (mkState o (messages y)) →
  closed y = negb o.
Proof. intros Hn He. unfold closed. by rewrite He, decode_encode_state. Qed.

(** Receiver steps never open the channel. *)
Lemma recv_closed y y' : recv_step y y' → count_inv y → count_inv y' → closed y = true → closed y' = true.
Proof.
  intros Hst Hc Hc' Hcl. pose proof Hc as (o & Hcap & He).
  destruct Hst as [Hr|Hr|k Hr|k Hr|k Hr|w Hr|k pr m Hr|k pr m Hr|d Hr|d Hr|Hr]; try exact Hcl.
  - by destruct (bi_quick_message_queue (cs_inner y)).
  - by destruct (bi_message_queue (cs_inner y)).
  - unfold closed. cbn. destruct (unpark_one_other y) as (-> & _). exact Hcl.
  - rewrite (closed_val y o Hcap He) in Hcl. destruct o; [done|].
    destruct Hc' as (o' & Hcap' & He'). rewrite (closed_val _ o' Hcap' He'). destruct o'; [|done].
    exfalso. rewrite encode_val in He' by done. cbn in He'. rewrite He, encode_val in He' by done.
    unfold cap in *. rewrite MAX_CAPACITY_val in *.
    match type of Hcap' with 0 <= messages ?y1 <= _ => assert (messages y1 = messages y - 1) as Hm end.
    { unfold messages. cbn. rewrite Hr. destruct k; count. }
    rewrite Hm in *. rewrite Z.mod_small in He'; lia.
  - unfold closed. cbn. by rewrite (set_closed_state _ _ _ Hcap He), decode_encode_state.
  - destruct (bi_parked_queue (cs_inner y)); [exact Hcl|]. unfold closed.
    by destruct (unpark_one_other y) as (-> & _).
Qed.

Lemma parked_recv y y' :
  recv_step y y' → count_inv y → count_inv y' → parked_inv y → parked_inv y'.
Proof.
  intros Hst Hc Hc' Hi. pose proof (recv_closed y y' Hst Hc Hc') as Hcl.
  destruct Hst as [Hr|Hr|k Hr|k Hr|k Hr|w Hr|k pr m Hr|k pr m Hr|d Hr|d Hr|Hr];
    try (by apply (parked_shared_frame y)).
  - destruct (bi_quick_message_queue (cs_inner y)); by apply (parked_shared_frame y).
  - destruct (bi_message_queue (cs_inner y)); by apply (parked_shared_frame y).
  - apply (parked_shared_frame (unpark_one y)); auto using parked_unpark.
  - destruct (set_closed_other (cs_inner y)) as (_ & _ & H3 & H4 & _). by apply (parked_shared_frame y).
  - destruct (bi_parked_queue (cs_inner y)); [by apply (parked_shared_frame y)|by apply parked_unpark].
Qed.

(** What a sender's step changes of the load. *)
Lemma messages_send j s y y' :
  cs_senders y !! j = Some s → send_step j s y y' → count_inv y →
  messages y' + total parking (cs_senders y) + len (bi_parked_queue (cs_inner y)) <=
  messages y + total parking (cs_senders y') + len (bi_parked_queue (cs_inner y')) ∨
  (messages y' = messages y + 1 ∧ messages y' <= bi_buffer (cs_inner y)).
Proof.
  intros Hj Hst Hc. assert (y = with_inner (cs_inner y) y) as Hy by (by destruct y).
  assert (∀ s' c, in_flight (s_pc s') = in_flight (s_pc s) → parking (s_pc s') = parking (s_pc s) →
    bi_quick_message_queue c = bi_quick_message_queue (cs_inner y) →
    bi_message_queue c = bi_message_queue (cs_inner y) → bi_parked_queue c = bi_parked_queue (cs_inner y) →
    let y' := with_sender j s' (with_inner c y) in
    messages y' + total parking (cs_senders y) + len (bi_parked_queue (cs_inner y)) <=
    messages y + total parking (cs_senders y') + len (bi_parked_queue (cs_inner y'))) as Hsame.
  { intros s' c H1 H2 H3 H4 H5. cbn zeta. rewrite (messages_sender y j s s' c Hj), H3, H4, H1. cbn.
    rewrite (total_insert parking _ _ _ _ Hj), H2, H5. unfold messages. lia. }
  destruct Hst as [pr m Hp|cx Hp|pr m s' c' e Hp Hd|pr m Hp|pr m Hp|pr m Hp|pr m Hp|Hp|c' s' Hp Hcl|Hp|Hp|d Hp|d Hp].
  - left. apply (Hsame _ (cs_inner y)); try done; by destruct (try_send_pc pr m s Hp) as [-> | ->]; rewrite Hp.
  - left. apply (Hsame _ (cs_inner y)); try done; by rewrite poll_ready_pc.
  - pose proof (do_send_b_spec _ _ _ _ _ _ _ Hc Hd) as (_ & _ & Hx). unfold messages. cbn.
    rewrite !(total_insert _ _ _ _ _ Hj), Hp. destruct e as [e|].
    + destruct Hx as (_ & -> & ->). left. count. cbn [parking]. lia.
    + destruct Hx as (_ & _ & -> & ->). unfold messages. destruct (_ <? _) eqn:E; cbn in E |- *; [left; lia|].
      right. apply Z.ltb_ge in E. lia.
  - left. apply (Hsame _ (cs_inner y)); try done; by rewrite Hp.
  - left. rewrite (messages_sender y j s _ _ Hj). cbn. rewrite (total_insert parking _ _ _ _ Hj), len_app, len_cons, Hp.
    change (len []) with 0. unfold messages. cbn. lia.
  - left. apply (Hsame _ (cs_inner y)); try done; by rewrite Hp.
  - left. rewrite (messages_sender y j s _ _ Hj). cbn. rewrite (total_insert parking _ _ _ _ Hj), Hp.
    unfold messages. destruct pr; cbn; count; cbn [parking]; lia.
  - left. apply Hsame; try done; by rewrite Hp.
  - unfold clone_sender in Hcl. destruct (_ =? _); [done|]. injection Hcl as <- <-. left.
    unfold messages. cbn. rewrite !total_snoc. cbn. lia.
  - left. apply Hsame; try done; cbn [drop_sender fst put_pc s_pc]; rewrite Hp; by destruct (_ =? _).
  - left. apply (Hsame _ (cs_inner y)); try done; by rewrite Hp.
  - left. destruct (set_closed_other (cs_inner y)) as (H1 & H2 & H3 & _). apply Hsame; auto; by rewrite Hp.
  - left. apply Hsame; try done; rewrite Hp; by destruct d.
Qed.

Lemma send_frame_rest j s y y' :
  cs_senders y !! j = Some s → send_step j s y y' → count_inv y →
  cs_rpc y' = cs_rpc y ∧ bi_buffer (cs_inner y') = bi_buffer (cs_inner y) ∧
  len (cs_senders y) <= len (cs_senders y') ∧ (closed y = true → closed y' = true ∧ messages y' = messages y).
Proof.
  intros Hj Hst Hc. pose proof Hc as (o & Hcap & He).
  assert (∀ s', len (<[j := s']> (cs_senders y)) = len (cs_senders y)) as Hlen
    by (intros; unfold len; by rewrite length_insert).
  assert (∀ s' c, in_flight (s_pc s') = in_flight (s_pc s) →
    bi_quick_message_queue c = bi_quick_message_queue (cs_inner y) →
    bi_message_queue c = bi_message_queue (cs_inner y) →
    messages (with_sender j s' (with_inner c y)) = messages y) as Hm.
  { intros s' c H1 H2 H3. rewrite (messages_sender y j s s' c Hj), H1, H2, H3. unfold messages. lia. }
  destruct Hst as [pr m Hp|cx Hp|pr m s' c' e Hp Hd|pr m Hp|pr m Hp|pr m Hp|pr m Hp|Hp|c' s' Hp Hcl|Hp|Hp|d Hp|d Hp];
    try (cbn [with_sender with_inner cs_senders cs_rpc cs_inner]; rewrite Hlen; split_and!; [done|done|lia|];
         intros Hcl; split; [exact Hcl|]).
  - apply (Hm _ (cs_inner y)); try done. destruct (try_send_pc pr m s Hp) as [-> | ->]; by rewrite Hp.
  - apply (Hm _ (cs_inner y)); try done. by rewrite poll_ready_pc.
  - pose proof (do_send_b_spec _ _ _ _ _ _ _ Hc Hd) as (_ & _ & Hx). cbn [cs_rpc cs_inner cs_senders].
    rewrite Hlen. split; [done|]. split; [destruct e; [by destruct Hx as (_ & -> & _)|by destruct Hx as (_ & _ & -> & _)]|].
    split; [lia|]. intros Hcl. destruct e as [e|].
    + destruct Hx as (_ & -> & Hpc). split; [exact Hcl|]. apply (Hm _ (cs_inner y)); try done. by rewrite Hp, Hpc.
    + destruct Hx as (Ho & _). unfold closed in Hcl. by rewrite Ho in Hcl.
  - apply (Hm _ (cs_inner y)); try done. by rewrite Hp.
  - apply Hm; try done. by rewrite Hp.
  - apply (Hm _ (cs_inner y)); try done. by rewrite Hp.
  - cbn [with_sender with_inner cs_senders cs_rpc cs_inner]; rewrite Hlen. split; [done|].
    split; [by destruct pr|]. split; [lia|]. intros Hcl. split; [by destruct pr|].
    rewrite (messages_sender y j s _ _ Hj), Hp. unfold messages. destruct pr; cbn; count.
  - apply Hm; try done. by rewrite Hp.
  - unfold clone_sender in Hcl. destruct (_ =? _); [done|]. injection Hcl as <- <-. cbn.
    split_and!; [done|done|rewrite len_app; count|]. intros Hcl. split; [exact Hcl|].
    unfold messages. cbn. rewrite total_snoc. count.
  - apply Hm; try done. cbn [drop_sender fst put_pc s_pc]. rewrite Hp. by destruct (_ =? _).
  - apply (Hm _ (cs_inner y)); try done. by rewrite Hp.
  - destruct (set_closed_other (cs_inner y)) as (H1 & H2 & _ & H4 & _).
    cbn [with_sender with_inner cs_senders cs_rpc cs_inner]; rewrite Hlen. split; [done|]. split; [done|].
    split; [lia|]. intros _. split.
    + unfold closed. cbn. by rewrite (set_closed_state _ _ _ Hcap He), decode_encode_state.
    + apply Hm; auto. by rewrite Hp.
  - apply Hm; try done. rewrite Hp. by destruct d.
Qed.

Lemma load_send j s y y' :
  cs_senders y !! j = Some s → send_step j s y y' → count_inv y → parked_inv y → parked_inv y' →
  load_inv y → load_inv y'.
Proof.
  intros Hj Hst Hc Hi Hi' (HK & HQ & HC). destruct (send_frame_rest _ _ _ _ Hj Hst Hc) as (Hr & Hb & Hl & Hcl).
  pose proof (messages_send _ _ _ _ Hj Hst Hc) as Hm. pose proof (parked_inv_count _ Hi').
  pose proof (total_nonneg parking (cs_senders y') ltac:(by intros [])).
  pose proof (len_nonneg (bi_parked_queue (cs_inner y'))). destruct Hi as (Hbuf & _).
  pose proof (len_nonneg (cs_senders y')).
  unfold load_inv, load in *. rewrite Hr, Hb.
  destruct (closed y) eqn:E.
  - destruct (Hcl eq_refl) as (-> & ->). split; [done|]. split; [|done]. destruct (cs_rpc y); lia.
  - specialize (HK eq_refl). split; [intros _; destruct (cs_rpc y); lia|].
    split; [destruct (cs_rpc y); lia|]. intros Hx. by specialize (HC Hx).
Qed.

Lemma unpark_one_len (y : sys) : len (cs_senders (unpark_one y)) = len (cs_senders y).
Proof.
  unfold unpark_one, len. destruct (bi_parked_queue _) as [|i q]; [done|].
  destruct (cs_senders y !! i); [|done]. cbn. by rewrite length_insert.
Qed.

Lemma load_recv y y' :
  recv_step y y' → count_inv y → count_inv y' → load_inv y → load_inv y'.
Proof.
  intros Hst Hc Hc' (HK & HQ & HC). pose proof (recv_closed y y' Hst Hc Hc') as Hcl.
  assert (∀ y1, (∀ d, cs_rpc y1 ≠ RClosing d) → load y1 <= load y → bi_buffer (cs_inner y1) = bi_buffer (cs_inner y) →
    len (bi_parked_queue (cs_inner y1)) = len (bi_parked_queue (cs_inner y)) →
    cs_senders y1 = cs_senders y → (closed y = true → closed y1 = true) → load_inv y1) as Hsame.
  { intros y1 H0 H1 H2 H3 H4 H5. unfold load_inv. rewrite H2, H3, H4. split; [|split; [lia|by intros [d ?%H0]]].
    intros H6. destruct (closed y); [by rewrite H5 in H6|]. specialize (HK eq_refl). lia. }
  destruct Hst as [Hr|Hr|k Hr|k Hr|k Hr|w Hr|k pr m Hr|k pr m Hr|d Hr|d Hr|Hr].
  - apply Hsame; auto; try done. unfold load, messages. cbn. by destruct Hr as [-> | ->].
  - apply Hsame; auto; try done. unfold load, messages. cbn. by destruct Hr as [-> | ->].
  - destruct (bi_quick_message_queue (cs_inner y)) eqn:Eq; apply Hsame; auto; try done; unfold load, messages; cbn;
      rewrite Hr, ?Eq; count.
  - destruct (bi_message_queue (cs_inner y)) eqn:Eq; apply Hsame; auto; try done; unfold load, messages; cbn;
      rewrite Hr, ?Eq; count.
  - apply Hsame; auto; [unfold after_empty; cbn; by destruct (State_is_closed _), k|].
    unfold load, messages, after_empty. cbn. rewrite Hr. by destruct (State_is_closed _), k.
  - apply Hsame; auto; try done. unfold load, messages. cbn. by rewrite Hr.
  - destruct (unpark_one_other y) as (Hs & H2 & H3 & H4 & _ & _ & _ & _ & _ & H5).
    assert (load (with_rpc (RDec k pr m) (unpark_one y)) = load y - 1) as Hl.
    { unfold load, messages. cbn. rewrite unpark_one_total, H2, H3, Hr. count. }
    unfold load_inv. rewrite Hl. cbn [cs_inner cs_senders cs_rpc with_rpc]. rewrite H4, H5, unpark_one_total.
    rewrite unpark_one_len. split; [|split; [lia|by intros [? ?]]].
    unfold closed in *. cbn [cs_inner with_rpc]. rewrite Hs. intros Ho. specialize (HK Ho).
    destruct (bi_parked_queue (cs_inner y)); cbn [tail]; [lia|]. rewrite len_cons in HK. lia.
  - apply Hsame; auto; [cbn; by destruct k|]. unfold load, messages. cbn. rewrite Hr. destruct k; count.
  - destruct (set_closed_other (cs_inner y)) as (H1 & H2 & H3 & H4 & _). destruct Hc as (o & Hcap & He).
    assert (closed (with_rpc (RClosing d) (with_inner (set_closed (cs_inner y)) y)) = true) as Hcl'
      by (unfold closed; cbn; by rewrite (set_closed_state _ _ _ Hcap He), decode_encode_state).
    unfold load_inv. rewrite Hcl'. split; [done|]. split; [|done]. cbn. rewrite H4.
    replace (load _) with (load y); [done|]. unfold load, messages. cbn. rewrite H1, H2. by destruct Hr as [-> | ->].
  - destruct (bi_parked_queue (cs_inner y)) as [|i q] eqn:E.
    + apply Hsame; auto; try done; [by destruct d|..|cbn; by rewrite E]. unfold load, messages. cbn. rewrite Hr. by destruct d.
    + destruct (unpark_one_other y) as (Hs & H2 & H3 & H4 & _ & H6 & _ & _ & _ & H5).
      assert (closed (unpark_one y) = true) as Hcl' by (unfold closed; rewrite Hs; apply HC; eauto).
      unfold load_inv. rewrite Hcl', H4, unpark_one_len. split; [done|]. split; [|done].
      unfold load in *. by rewrite messages_unpark, H6.
  - apply Hsame; auto; unfold load, messages; cbn; rewrite ?Hr; by destruct (State_is_closed _).
Qed.

(** ** Wake-ups of the receiver *)

Definition has_pc (p : spc (A := A)) (l : list sender) : Prop := ∃ i s, l !! i = Some s ∧ s_pc s = p.

(** A sender is about to wake the receiver after it closed the channel. *)
Definition closing_wake (l : list sender) : Prop := ∃ d, has_pc (SCloseWake d) l.

Definition queues_empty (y : sys) : Prop :=
  bi_quick_message_queue (cs_inner y) = [] ∧ bi_message_queue (cs_inner y) = [].

(** Once the waker is registered, whatever the receiver did not see is followed by a wake. *)
Definition wake_inv (y : sys) : Prop :=
  bi_recv_task (cs_inner y) ≠ None →
  match cs_rpc y with
  | RNormal Second => bi_quick_message_queue (cs_inner y) = [] ∨ has_pc SWake (cs_senders y)
  | RLoad Second => queues_empty y ∨ has_pc SWake (cs_senders y)
  | RParked =>
      (queues_empty y ∨ has_pc SWake (cs_senders y)) ∧
      (closed y = true ∧ messages y = 0 → closing_wake (cs_senders y))
  | _ => True
  end.

Lemma has_pc_insert p j (s s' : sender) l :
  l !! j = Some s → s_pc s ≠ p → has_pc p l → has_pc p (<[j := s']> l).
Proof.
  intros Hj Hs (i & x & Hi & Hx). exists i, x. split; [|done].
  rewrite list_lookup_insert_ne; [done|]. intros ->. congruence.
Qed.

Lemma has_pc_new p j (s s' : sender) l : l !! j = Some s → s_pc s' = p → has_pc p (<[j := s']> l).
Proof.
  intros Hj Hs. exists j, s'. split; [|done]. apply list_lookup_insert_eq. by eapply lookup_lt_Some.
Qed.

Lemma closing_wake_insert j (s s' : sender) l :
  l !! j = Some s → (∀ d, s_pc s ≠ SCloseWake d) → closing_wake l → closing_wake (<[j := s']> l).
Proof. intros Hj Hs [d Hd]. exists d. by eapply has_pc_insert. Qed.

(** Steps that keep the queues, the state word, the waker and the wakes to come. *)
Lemma wake_frame (y y' : sys) :
  bi_state (cs_inner y') = bi_state (cs_inner y) → cs_rpc y' = cs_rpc y →
  bi_recv_task (cs_inner y') = bi_recv_task (cs_inner y) →
  bi_quick_message_queue (cs_inner y') = bi_quick_message_queue (cs_inner y) →
  bi_message_queue (cs_inner y') = bi_message_queue (cs_inner y) →
  (has_pc SWake (cs_senders y) → has_pc SWake (cs_senders y')) →
  (closing_wake (cs_senders y) → closing_wake (cs_senders y')) →
  messages y' = messages y → wake_inv y → wake_inv y'.
Proof.
  intros H1 H2 H3 H4 H5 H6 H7 H8. unfold wake_inv, queues_empty, closed. rewrite H1, H2, H3, H4, H5, H8.
  intros H Hw. specialize (H Hw). destruct (cs_rpc y) as [|[]|[]|[]| | | | | | |]; naive_solver.
Qed.

Lemma wake_send j s y y' :
  cs_senders y !! j = Some s → send_step j s y y' → count_inv y → count_inv y' →
  wake_inv y → wake_inv y'.
Proof.
  intros Hj Hst Hc Hc' Hw. destruct (send_frame_rest _ _ _ _ Hj Hst Hc) as (Hr & _).
  assert (∀ z : sys, bi_state (cs_inner z) = bi_state (cs_inner y) → count_inv z → messages z = messages y) as Hmsg.
  { intros z Hz Hcz. pose proof (count_open z Hcz) as E1. pose proof (count_open y Hc) as E2.
    rewrite Hz, E2 in E1. by injection E1. }
  assert (∀ s' c, s_pc s ≠ SWake → (∀ d, s_pc s ≠ SCloseWake d) → bi_state c = bi_state (cs_inner y) →
    bi_recv_task c = bi_recv_task (cs_inner y) →
    bi_quick_message_queue c = bi_quick_message_queue (cs_inner y) →
    bi_message_queue c = bi_message_queue (cs_inner y) →
    count_inv (with_sender j s' (with_inner c y)) →
    wake_inv (with_sender j s' (with_inner c y))) as Hsame.
  { intros s' c P1 P2 E1 E2 E3 E4 Hcz. apply (wake_frame y); auto; [intros; by eapply has_pc_insert|].
    intros. by eapply closing_wake_insert. }
  destruct Hst as [pr m Hp|cx Hp|pr m s' c' e Hp Hd|pr m Hp|pr m Hp|pr m Hp|pr m Hp|Hp|c' s' Hp Hcl|Hp|Hp|d Hp|d Hp].
  - apply (Hsame _ (cs_inner y)); auto; by rewrite Hp.
  - apply (Hsame _ (cs_inner y)); auto; by rewrite Hp.
  - pose proof (do_send_b_spec _ _ _ _ _ _ _ Hc Hd) as (_ & _ & Hx).
    assert (has_pc SWake (cs_senders y) → has_pc SWake (<[j := s']> (cs_senders y))) as Hpc
      by (apply (has_pc_insert _ j s); [done|by rewrite Hp]).
    assert (closing_wake (cs_senders y) → closing_wake (<[j := s']> (cs_senders y))) as Hpc2
      by (apply (closing_wake_insert j s); [done|by rewrite Hp]).
    destruct e as [e|].
    + destruct Hx as (_ & -> & _). apply (wake_frame y); auto.
    + destruct Hx as (_ & _ & -> & _). unfold wake_inv, queues_empty in *. cbn in *. intros Hn. specialize (Hw Hn).
      destruct (cs_rpc y) as [|[]|[]|[]| | | | | | |] eqn:Er; auto; try (destruct Hw; auto; fail).
      destruct Hw as [Hw _]. split; [destruct Hw; auto|]. intros [Hcl _]. exfalso.
      unfold closed in Hcl. cbn in Hcl. destruct Hc' as (o' & Hcap' & He'). cbn in He'.
      pose proof (count_open y Hc) as E2.
      rewrite decode_encode_state in Hcl; [done|].
      match type of Hcap' with cap (messages ?z) => assert (messages z = messages y + 1) as <-; [|done] end.
      pose proof (do_send_b_spec _ _ _ _ _ _ _ Hc Hd) as (_ & _ & _ & _ & _ & Hpc').
      unfold messages. cbn. rewrite (total_insert _ _ _ _ _ Hj), Hp, Hpc', Er. destruct (_ <? _); count.
  - apply (Hsame _ (cs_inner y)); auto; by rewrite Hp.
  - apply Hsame; auto; by rewrite Hp.
  - apply (Hsame _ (cs_inner y)); auto; by rewrite Hp.
  - assert (has_pc SWake (<[j := put_pc SWake s]> (cs_senders y))) as Hnew by (by eapply has_pc_new).
    unfold wake_inv in *. cbn in *. intros Hn.
    assert (bi_recv_task (cs_inner y) ≠ None) as Hn' by (by destruct pr). specialize (Hw Hn').
    destruct (cs_rpc y) as [|[]|[]|[]| | | | | | |]; auto. split; [by right|].
    intros [Hcl Hm]. apply (closing_wake_insert j s); [done|by rewrite Hp|]. apply Hw. split; [by destruct pr|].
    rewrite <- Hm. symmetry. apply Hmsg; [by destruct pr|done].
  - by intros Hn.
  - unfold clone_sender in Hcl. destruct (_ =? _); [done|]. injection Hcl as <- <-.
    assert (∀ p, has_pc p (cs_senders y) → has_pc p (cs_senders y ++ [Sender_new])).
    { intros p (i & x & Hi & Hx). exists i, x. split; [by apply lookup_app_l_Some|done]. }
    apply (wake_frame y); auto. intros [d Hd]. exists d. auto.
  - apply Hsame; auto; by rewrite Hp.
  - apply (Hsame _ (cs_inner y)); auto; by rewrite Hp.
  - assert (closing_wake (<[j := put_pc (SCloseWake d) s]> (cs_senders y))) as Hnew by (exists d; by eapply has_pc_new).
    destruct (set_closed_other (cs_inner y)) as (H1 & H2 & _ & _ & H5 & _).
    unfold wake_inv, queues_empty in *. cbn in *. rewrite H1, H2, H5. intros Hn. specialize (Hw Hn).
    assert (has_pc SWake (cs_senders y) → has_pc SWake (<[j := put_pc (SCloseWake d) s]> (cs_senders y))) as Hp'
      by (apply (has_pc_insert _ j s); [done|by rewrite Hp]).
    destruct (cs_rpc y) as [|[]|[]|[]| | | | | | |]; auto; try (destruct Hw; auto; fail).
    destruct Hw as [Hw _]. split; [destruct Hw; auto|done].
  - by intros Hn.
Qed.

Lemma wake_recv y y' : recv_step y y' → count_inv y → wake_inv y → wake_inv y'.
Proof.
  intros Hst Hc Hw. destruct Hst as [Hr|Hr|k Hr|k Hr|k Hr|w Hr|k pr m Hr|k pr m Hr|d Hr|d Hr|Hr].
  - by intros _.
  - by intros _.
  - destruct (bi_quick_message_queue (cs_inner y)) as [|m q] eqn:Eq; [|by intros _].
    intros _. cbn. destruct k; [done|by left|done..].
  - destruct (bi_message_queue (cs_inner y)) as [|m q] eqn:Eq; [|by intros _].
    intros Hn. cbn in *. destruct k; [done| |done..]. unfold wake_inv in Hw. rewrite Hr in Hw.
    destruct (Hw Hn) as [H|H]; [by left|by right].
  - intros Hn. cbn in Hn |- *. unfold wake_inv in Hw. rewrite Hr in Hw. unfold after_empty.
    destruct (State_is_closed _) eqn:Ec; [done|]. destruct k; [done| |done..]. split; [exact (Hw Hn)|].
    intros [Hcl Hm]. exfalso. pose proof (count_open y Hc) as E. rewrite E in Ec. unfold State_is_closed in Ec.
    cbn in Ec. unfold closed in Hcl. cbn in Hcl. unfold messages in Hm. cbn in Hm. 
    rewrite Hcl in Ec. replace (messages y) with 0 in Ec by (unfold messages; by rewrite Hr).
    done.
  - by intros _.
  - by intros _.
  - by destruct k; intros _.
  - by intros _.
  - destruct (bi_parked_queue (cs_inner y)); [by destruct d; intros _|]. intros _.
    destruct (unpark_one_other y) as (_ & _ & _ & _ & _ & -> & _). by rewrite Hr.
  - destruct (State_is_closed _); by intros _.
Qed.

(** ** All together *)

Definition chan_inv (y : sys) : Prop :=
  count_inv y ∧ fifo_inv y ∧ parked_inv y ∧ load_inv y ∧ wake_inv y ∧ drop_inv y.

Lemma chan_step_inv y y' : c_step y y' → chan_inv y → chan_inv y'.
Proof.
  intros Hst (Hc & Hf & Hp & Hl & Hw & Hd). pose proof (count_step _ _ Hst Hc) as Hc'.
  destruct Hst as [y y' i s Hi Hst|y y' Hst].
  - pose proof (parked_send _ _ _ _ Hi Hst Hc Hp) as Hp'.
    split_and!; [done|by eapply fifo_send|apply Hp'..|by eapply load_send|by eapply wake_send|by eapply drop_send].
  - pose proof (parked_recv _ _ Hst Hc Hc' Hp) as Hp'.
    split_and!; [done|by eapply fifo_recv|apply Hp'..|by eapply load_recv|by eapply wake_recv|by eapply drop_recv].
Qed.

Lemma chan_steps_inv y y' : rtc c_step y y' → chan_inv y → chan_inv y'.
Proof. induction 1; eauto using chan_step_inv. Qed.

Lemma start_inv buffer : 0 <= buffer → chan_inv (chan_start (mkInner buffer INIT_STATE [] [] [] 1 None)).
Proof.
  intros Hb. split; [|split; [|split; [|split; [|split]]]].
  - exists true. split; [done|]. by vm_compute.
  - intros i pr. cbn. unfold held. by destruct i as [|[]], pr.
  - split_and!; cbn; auto; [constructor|intros i Hi; by apply elem_of_nil in Hi|].
    intros i s. by destruct i as [|[]]; [intros [= <-]|..].
  - unfold load_inv. change (load _) with 0. cbn. rewrite len_cons. change (len []) with 0.
    change (total parking [Sender_new]) with 0. split; [lia|]. split; [lia|by intros [? ?]].
  - by intros Hn.
  - done.
Qed.

Lemma chan_start_inv buffer c :
  channel_inner buffer = Some c → 0 <= buffer → chan_inv (chan_start c).
Proof. unfold channel_inner. destruct (_ <? _); [|done]. intros [= <-]. apply start_inv. Qed.

(** A sender that holds a message is counted. *)
Lemma total_zero l i s : total in_flight l = 0 → l !! i = Some s → in_flight (s_pc s) = 0.
Proof.
  revert i. induction l as [|x l IH]; intros i Ht Hs; [done|]. rewrite total_cons in Ht.
  pose proof (total_nonneg in_flight l ltac:(by intros [])).
  assert (0 <= in_flight (s_pc x)) by (by destruct (s_pc x)).
  destruct i as [|i]; [injection Hs as ->; lia|]. apply (IH i); [lia|done].
Qed.

(** When the channel is closed and counts no message, everything accepted was taken out. *)
Lemma closed_all_taken y i pr :
  count_inv y → fifo_inv y → rpc_msg (cs_rpc y) = [] →
  State_is_closed (decode_state (bi_state (cs_inner y))) = true →
  sel i pr (cs_accepted y) = sel i pr (cs_received y ++ cs_dropped y).
Proof.
  intros Hcnt Hf Hr E. rewrite (count_open y Hcnt) in E. unfold State_is_closed in E. cbn in E.
  apply andb_prop in E as [_ E]. apply Z.eqb_eq in E. unfold messages in E. rewrite Hr in E.
  pose proof (len_nonneg (bi_quick_message_queue (cs_inner y))).
  pose proof (len_nonneg (bi_message_queue (cs_inner y))).
  pose proof (total_nonneg in_flight (cs_senders y) ltac:(by intros [])).
  change (len []) with 0 in E.
  assert (bi_quick_message_queue (cs_inner y) = [] ∧ bi_message_queue (cs_inner y) = []) as [E1 E2]
    by (split; apply len_zero; lia).
  assert (held i (cs_senders y) = []) as E3.
  { unfold held. destruct (cs_senders y !! i) as [s|] eqn:Hs; [|done].
    assert (in_flight (s_pc s) = 0) as Hz by (eapply total_zero; [|done]; lia). by destruct (s_pc s). }
  rewrite (Hf i pr), E3, Hr. unfold queue_of. rewrite E1, E2, app_nil_r. by destruct pr; cbn; rewrite app_nil_r.
Qed.

(** The end of the stream, or of the drop, is reached in a closed channel that counts nothing. *)
Lemma done_closed y y' : recv_step y y' → cs_rpc y' = RDone →
  State_is_closed (decode_state (bi_state (cs_inner y))) = true ∧ rpc_msg (cs_rpc y) = [] ∧
  cs_accepted y' = cs_accepted y ∧ cs_received y' = cs_received y ∧ cs_dropped y' = cs_dropped y.
Proof.
  intros Hst Hd. destruct Hst as [Hr|Hr|k Hr|k Hr|k Hr|w Hr|k pr m Hr|k pr m Hr|d Hr|d Hr|Hr]; cbn in Hd; try discriminate Hd.
  - by destruct (bi_quick_message_queue (cs_inner y)).
  - by destruct (bi_message_queue (cs_inner y)).
  - unfold after_empty in Hd. rewrite Hr. destruct (State_is_closed _); [done|by destruct k].
  - by destruct k.
  - destruct (bi_parked_queue (cs_inner y)); [by destruct d|].
    destruct (unpark_one_other y) as (_ & _ & _ & _ & _ & E & _). rewrite E, Hr in Hd. done.
  - rewrite Hr. by destruct (State_is_closed _).
Qed.

(** ** The properties *)

(** C5: in every interleaving of the senders and the receiver, for each sender and priority the
    messages received so far, followed by those a dropped receiver threw away, the one in the
    receiver's hands, the queued ones and the one the sender still holds, are exactly the accepted
    ones in the order they were accepted; nothing is thrown away unless the receiver is dropped;
    and when the receiver reports the end of the stream, or its drop returns, nothing accepted is
    left in the channel. *)
Theorem channel_delivers_in_order buffer c y :
  channel_inner buffer = Some c → 0 <= buffer → rtc c_step (chan_start c) y →
  fifo_inv y ∧ drop_inv y ∧
  (∀ y', recv_step y y' → cs_rpc y' = RDone →
     ∀ i pr, sel i pr (cs_accepted y') = sel i pr (cs_received y' ++ cs_dropped y')).
Proof.
  intros Hc Hb Hr. destruct (chan_steps_inv _ _ Hr (chan_start_inv _ _ Hc Hb)) as (Hcnt & Hf & _ & _ & _ & Hd).
  split_and!; [done..|]. intros y' Hst Hdone i pr.
  destruct (done_closed _ _ Hst Hdone) as (E & Hm & -> & -> & ->). by apply closed_all_taken.
Qed.

(** C34: the channel holds at most its buffer and one message per sender ever created: in every
    interleaving this bounds the messages queued or about to be queued; and while that sum is
    below the maximum, counting a message never trips its assertion. *)
Theorem channel_capacity buffer c y :
  channel_inner buffer = Some c → 0 <= buffer → rtc c_step (chan_start c) y →
  messages y - len (rpc_msg (cs_rpc y)) <= bi_buffer (cs_inner y) + len (cs_senders y) ∧
  (bi_buffer (cs_inner y) + len (cs_senders y) + 1 < MAX_CAPACITY →
   inc_num_messages (cs_inner y) ≠ RPanic).
Proof.
  intros Hc Hb Hr. destruct (chan_steps_inv _ _ Hr (chan_start_inv _ _ Hc Hb)) as (Hcnt & _ & _ & Hl & _).
  destruct Hl as (_ & HQ & _). unfold load in HQ.
  assert (0 <= len (rpc_msg (cs_rpc y)) <= 1 ∧ match cs_rpc y with RDec _ _ _ => len (rpc_msg (cs_rpc y)) = 1 | _ => True end) as [H1 H2]
    by (by destruct (cs_rpc y)).
  split; [destruct (cs_rpc y); lia|]. intros Hm. unfold inc_num_messages. rewrite (count_open y Hcnt).
  cbn [is_open num_messages]. destruct (negb _); [done|].
  replace (messages y <? MAX_CAPACITY) with true; [done|]. symmetry. apply Z.ltb_lt.
  destruct (cs_rpc y); lia.
Qed.

(** C31: no wake-up of the receiver is lost: when it returned [Pending] and its waker was not
    used since, then there is nothing to receive and the stream has not ended, unless a sender
    is about to wake it. *)
Theorem receiver_wakeup buffer c y :
  channel_inner buffer = Some c → 0 <= buffer → rtc c_step (chan_start c) y →
  cs_rpc y = RParked → bi_recv_task (cs_inner y) ≠ None →
  (queues_empty y ∨ has_pc SWake (cs_senders y)) ∧
  (State_is_closed (decode_state (bi_state (cs_inner y))) = true → closing_wake (cs_senders y)).
Proof.
  intros Hc Hb Hr Hp Hn.
  destruct (chan_steps_inv _ _ Hr (chan_start_inv _ _ Hc Hb)) as (Hcnt & _ & _ & _ & Hw & _).
  unfold wake_inv in Hw. rewrite Hp in Hw. destruct (Hw Hn) as [H1 H2]. split; [done|].
  intros E. apply H2. rewrite (count_open y Hcnt) in E. unfold State_is_closed in E. cbn in E.
  apply andb_prop in E as [E1 E2]. apply Z.eqb_eq in E2. done.
Qed.

End Proofs.

(** ** A run: a sender sends and is dropped, the receiver drains the channel *)

Definition demo_inner : BoundedInner (A := Z) := mkInner 0 INIT_STATE [] [] [] 1 None.

(** The states along the run. *)
Definition demo_at (st : Z) (q : list (nat * Z)) (parked : list nat) (ns : Z) (s : Sender) (r : rpc)
    (received : list (Priority * (nat * Z))) : csys :=
  mkSys (mkInner 0 st q [] parked ns None) [s] r [(Normal, (0%nat, 5))] received [].

Definition demo_parked : Sender (A := Z) := mkSender (mkTask None true) true SIdle.

Lemma demo_sent :
  rtc c_step (chan_start demo_inner)
    (demo_at (OPEN_MASK + 1) [(0%nat, 5)] [0%nat] 1 demo_parked RIdle []).
Proof.
  eapply rtc_l; [eapply (c_send _ _ 0%nat); [reflexivity|apply (ss_try _ _ _ Normal 5); reflexivity]|].
  eapply rtc_l; [eapply (c_send _ _ 0%nat); [reflexivity|eapply (ss_inc _ _ _ Normal 5); reflexivity]|].
  eapply rtc_l; [eapply (c_send _ _ 0%nat); [reflexivity|apply (ss_park_lock _ _ _ Normal 5); reflexivity]|].
  eapply rtc_l; [eapply (c_send _ _ 0%nat); [reflexivity|apply (ss_park_push _ _ _ Normal 5); reflexivity]|].
  eapply rtc_l; [eapply (c_send _ _ 0%nat); [reflexivity|apply (ss_park_check _ _ _ Normal 5); reflexivity]|].
  eapply rtc_l; [eapply (c_send _ _ 0%nat); [reflexivity|apply (ss_push _ _ _ Normal 5); reflexivity]|].
  eapply rtc_l; [eapply (c_send _ _ 0%nat); [reflexivity|apply ss_wake; reflexivity]|].
  vm_compute. apply rtc_refl.
Qed.

Definition demo_done : csys := demo_at 0 [] [] 0 (mkSender (mkTask None false) true SGone) (RLoad First)
  [(Normal, (0%nat, 5))].

Lemma demo_drained : rtc c_step (chan_start demo_inner) demo_done.
Proof.
  etransitivity; [apply demo_sent|].
  eapply rtc_l; [eapply (c_send _ _ 0%nat); [reflexivity|apply ss_drop; reflexivity]|].
  eapply rtc_l; [eapply (c_send _ _ 0%nat); [reflexivity|apply ss_close; reflexivity]|].
  eapply rtc_l; [eapply (c_send _ _ 0%nat); [reflexivity|apply ss_close_wake; reflexivity]|].
  eapply rtc_l; [apply c_recv, rs_poll; by left|].
  eapply rtc_l; [eapply c_recv, rs_quick; reflexivity|].
  eapply rtc_l; [eapply c_recv, rs_normal; reflexivity|].
  eapply rtc_l; [eapply c_recv, rs_unpark; reflexivity|].
  eapply rtc_l; [eapply c_recv, rs_dec; reflexivity|].
  eapply rtc_l; [apply c_recv, rs_poll; by left|].
  eapply rtc_l; [eapply c_recv, rs_quick; reflexivity|].
  eapply rtc_l; [eapply c_recv, rs_normal; reflexivity|].
  vm_compute. apply rtc_refl.
Qed.

Lemma channel_delivers_in_order_witness :
  let y' := with_rpc RDone demo_done in
  sel 0 Normal (cs_accepted y') = sel 0 Normal (cs_received y' ++ cs_dropped y').
Proof.
  intros y'. destruct (channel_delivers_in_order 0 demo_inner demo_done eq_refl ltac:(lia) demo_drained) as (_ & _ & H).
  apply (H y'); [|reflexivity]. pose proof (rs_load demo_done First eq_refl) as Hs. exact Hs.
Defined.

Lemma channel_capacity_witness :
  let y := demo_at (OPEN_MASK + 1) [(0%nat, 5)] [0%nat] 1 demo_parked RIdle [] in
  messages y - len (rpc_msg (cs_rpc y)) <= bi_buffer (cs_inner y) + len (cs_senders y).
Proof. intros y. apply (channel_capacity 0 demo_inner y eq_refl ltac:(lia) demo_sent). Defined.

(** The receiver polls first and parks. *)
Definition demo_waiting : csys (A := Z) :=
  mkSys (mkInner 0 INIT_STATE [] [] [] 1 (Some 3%nat)) [Sender_new] RParked [] [] [].

Lemma demo_waits : rtc c_step (chan_start demo_inner) demo_waiting.
Proof.
  eapply rtc_l; [apply c_recv, rs_poll; by left|].
  eapply rtc_l; [eapply c_recv, rs_quick; reflexivity|].
  eapply rtc_l; [eapply c_recv, rs_normal; reflexivity|].
  eapply rtc_l; [eapply c_recv, rs_load; reflexivity|].
  eapply rtc_l; [eapply c_recv, (rs_register _ 3%nat); reflexivity|].
  eapply rtc_l; [eapply c_recv, rs_quick; reflexivity|].
  eapply rtc_l; [eapply c_recv, rs_normal; reflexivity|].
  eapply rtc_l; [eapply c_recv, rs_load; reflexivity|].
  vm_compute. apply rtc_refl.
Qed.

Lemma receiver_wakeup_witness :
  queues_empty demo_waiting ∨ has_pc SWake (cs_senders demo_waiting).
Proof. apply (receiver_wakeup 0 demo_inner demo_waiting eq_refl ltac:(lia) demo_waits); done. Defined.
