(* ===== verification/UnboundedChannel.v ===== *)
(** * The unbounded priority channel ([tentacle/tentacle/src/channel/unbound.rs])

    The channel without a buffer limit: a sender never parks. Its shared state and the steps of its
    senders and its receiver are translated like those of [PriorityChannel]. The channel refines the
    bounded one: each of its steps is matched by steps of a bounded channel whose buffer holds every
    number of messages the state word can count. What is proved of the bounded channel in every
    interleaving therefore holds here. *)

From Stdlib Require Import ZArith Lia Bool.
From stdpp Require Import base list gmap.
From S2P Require Import Prelude PriorityChannel PriorityChannelProofs.

Open Scope Z_scope.

Section Unbounded.
Context {A : Type}.
Abbreviation msg := (nat * A)%type (only parsing).

Record UnboundedInner := mkUnbounded {
  ui_state : Z;
  ui_message_queue : list msg;
  ui_quick_message_queue : list msg;
  ui_num_senders : Z;
  ui_recv_task : option nat;
}.

Definition ui_put_state (v : Z) (c : UnboundedInner) : UnboundedInner :=
  mkUnbounded v (ui_message_queue c) (ui_quick_message_queue c) (ui_num_senders c) (ui_recv_task c).
Definition ui_put_message_queue (v : list msg) (c : UnboundedInner) : UnboundedInner :=
  mkUnbounded (ui_state c) v (ui_quick_message_queue c) (ui_num_senders c) (ui_recv_task c).
Definition ui_put_quick_message_queue (v : list msg) (c : UnboundedInner) : UnboundedInner :=
  mkUnbounded (ui_state c) (ui_message_queue c) v (ui_num_senders c) (ui_recv_task c).
Definition ui_put_num_senders (v : Z) (c : UnboundedInner) : UnboundedInner :=
  mkUnbounded (ui_state c) (ui_message_queue c) (ui_quick_message_queue c) v (ui_recv_task c).
Definition ui_put_recv_task (v : option nat) (c : UnboundedInner) : UnboundedInner :=
  mkUnbounded (ui_state c) (ui_message_queue c) (ui_quick_message_queue c) (ui_num_senders c) v.

Definition unbounded : UnboundedInner := mkUnbounded INIT_STATE [] [] 1 None.

Definition ui_set_closed (c : UnboundedInner) : UnboundedInner :=
  if negb (is_open (decode_state (ui_state c))) then c
  else ui_put_state (Z.land (ui_state c) MAX_CAPACITY) c.

(** ** Senders *)

(** The answer is always ready. *)
Definition poll_ready_nb (c : UnboundedInner) : Poll (SendErrorKind + unit) :=
  if is_open (decode_state (ui_state c)) then Ready (inr tt) else Ready (inl Disconnected).

Definition ui_is_closed (c : UnboundedInner) : bool := negb (is_open (decode_state (ui_state c))).

(** [UnboundedSender::len]; [None] is the disconnected sender. *)
Definition ui_len (c : option UnboundedInner) : option Z :=
  match c with
  | Some c => let state := decode_state (ui_state c) in
              if is_open state then Some (num_messages state) else None
  | None => None
  end.

(** The successful turn of the compare-and-exchange loop; [RPanic] is its [assert!]. *)
Definition ui_inc_num_messages (c : UnboundedInner) : res unit (option (UnboundedInner * Z)) :=
  let state := decode_state (ui_state c) in
  if negb (is_open state) then ROk None
  else if num_messages state <? MAX_CAPACITY then
    let state' := mkState (is_open state) (num_messages state + 1) in
    ROk (Some (ui_put_state (encode_state state') c, num_messages state'))
  else RPanic.

Definition ui_queue_push (pr : Priority) (m : msg) (c : UnboundedInner) : UnboundedInner :=
  match pr with
  | High => ui_put_quick_message_queue (ui_quick_message_queue c ++ [m]) c
  | Normal => ui_put_message_queue (ui_message_queue c ++ [m]) c
  end.

(** Where a sender stands in [do_send_nb], [close_channel] and [drop]. *)
Inductive usend :=
| UIdle
| UInc (pr : Priority) (m : A)       (* before inc_num_messages *)
| UPush (pr : Priority) (m : A)      (* before the message is pushed *)
| UWake                              (* before recv_task.wake() *)
| UClose (dropped : bool)            (* in close_channel, before set_closed *)
| UCloseWake (dropped : bool)        (* before recv_task.wake() *)
| UGone.

(** [do_send_nb] up to the push. *)
Definition do_send_nb (pr : Priority) (m : A) (c : UnboundedInner)
    : res unit (usend * UnboundedInner * option SendErrorKind) :=
  match ui_inc_num_messages c with
  | ROk (Some (c', _)) => ROk (UPush pr m, c', None)
  | ROk None => ROk (UIdle, c, Some Disconnected)
  | RErr e => RErr e
  | RPanic => RPanic
  end.

(** [Clone]; [None] is its panic. *)
Definition ui_clone (c : UnboundedInner) : option UnboundedInner :=
  if ui_num_senders c =? MAX_BUFFER then None
  else Some (ui_put_num_senders (ui_num_senders c + 1) c).

(** [Drop]: the last sender goes on to close the channel. *)
Definition ui_drop (c : UnboundedInner) : usend * UnboundedInner :=
  (if ui_num_senders c =? 1 then UClose true else UGone, ui_put_num_senders (ui_num_senders c - 1) c).

(** ** The receiver *)

Inductive urecv :=
| URIdle
| URQuick (k : caller)                            (* before the pop of the quick queue *)
| URNormal (k : caller)                           (* before the pop of the message queue *)
| URLoad (k : caller)                             (* both were empty, before the state is loaded *)
| URRegister                                      (* before the waker is registered *)
| URParked                                        (* returned Pending *)
| URDec (k : caller) (pr : Priority) (m : msg)    (* popped, before dec_num_messages *)
| URDropLoad                                      (* in drop, before the state is loaded again *)
| URDone.                                         (* returned None, or dropped *)

Definition ui_dec_num_messages (c : UnboundedInner) : UnboundedInner :=
  ui_put_state ((ui_state c - 1) mod 2 ^ 64) c.

(** What the caller of [next_message] does when it found nothing, and with a message. *)
Definition ur_after_empty (k : caller) (closed : bool) : urecv :=
  if closed then URDone
  else match k with First => URRegister | Second => URParked | TryNext => URIdle | Draining => URDropLoad end.
Definition ur_after_message (k : caller) : urecv :=
  match k with Draining => URQuick Draining | _ => URIdle end.

(** The loop of [drop] loads the state once more before it spins. *)
Definition ur_drop_loaded (closed : bool) : urecv := if closed then URDone else URQuick Draining.

(** ** Interleavings *)

Record usys := mkUsys {
  us_inner : UnboundedInner;
  us_senders : list usend;
  us_recv : urecv;
  us_accepted : list (Priority * msg);
  us_received : list (Priority * msg);
  us_dropped : list (Priority * msg);
}.

Definition us_with_sender (i : nat) (s : usend) (y : usys) : usys :=
  mkUsys (us_inner y) (<[i := s]> (us_senders y)) (us_recv y) (us_accepted y) (us_received y) (us_dropped y).
Definition us_with_inner (c : UnboundedInner) (y : usys) : usys :=
  mkUsys c (us_senders y) (us_recv y) (us_accepted y) (us_received y) (us_dropped y).
Definition us_with_recv (r : urecv) (y : usys) : usys :=
  mkUsys (us_inner y) (us_senders y) r (us_accepted y) (us_received y) (us_dropped y).

(** A step of the sender [i] that stands at [s]. *)
Inductive usend_step (i : nat) (s : usend) (y : usys) : usys → Prop :=
| us_send pr m : s = UIdle → usend_step i s y (us_with_sender i (UInc pr m) y)
| us_inc pr m s' c' e : s = UInc pr m → do_send_nb pr m (us_inner y) = ROk (s', c', e) →
    usend_step i s y (mkUsys c' (<[i := s']> (us_senders y)) (us_recv y)
      (us_accepted y ++ match e with None => [(pr, (i, m))] | Some _ => [] end) (us_received y) (us_dropped y))
| us_push pr m : s = UPush pr m →
    usend_step i s y (us_with_sender i UWake (us_with_inner (ui_queue_push pr (i, m) (us_inner y)) y))
| us_wake : s = UWake →
    usend_step i s y (us_with_sender i UIdle (us_with_inner (ui_put_recv_task None (us_inner y)) y))
| us_clone c' : s = UIdle → ui_clone (us_inner y) = Some c' →
    usend_step i s y (mkUsys c' (us_senders y ++ [UIdle]) (us_recv y) (us_accepted y) (us_received y) (us_dropped y))
| us_drop : s = UIdle →
    usend_step i s y (us_with_sender i (ui_drop (us_inner y)).1 (us_with_inner (ui_drop (us_inner y)).2 y))
| us_close_channel : s = UIdle → usend_step i s y (us_with_sender i (UClose false) y)
| us_close d : s = UClose d →
    usend_step i s y (us_with_sender i (UCloseWake d) (us_with_inner (ui_set_closed (us_inner y)) y))
| us_close_wake d : s = UCloseWake d →
    usend_step i s y (us_with_sender i (if d then UGone else UIdle)
      (us_with_inner (ui_put_recv_task None (us_inner y)) y)).

Inductive urecv_step (y : usys) : usys → Prop :=
| ur_poll : us_recv y = URIdle ∨ us_recv y = URParked → urecv_step y (us_with_recv (URQuick First) y)
| ur_try : us_recv y = URIdle ∨ us_recv y = URParked → urecv_step y (us_with_recv (URQuick TryNext) y)
| ur_quick k : us_recv y = URQuick k →
    urecv_step y (match ui_quick_message_queue (us_inner y) with
      | m :: q => us_with_recv (URDec k High m) (us_with_inner (ui_put_quick_message_queue q (us_inner y)) y)
      | [] => us_with_recv (URNormal k) y
      end)
| ur_normal k : us_recv y = URNormal k →
    urecv_step y (match ui_message_queue (us_inner y) with
      | m :: q => us_with_recv (URDec k Normal m) (us_with_inner (ui_put_message_queue q (us_inner y)) y)
      | [] => us_with_recv (URLoad k) y
      end)
| ur_load k : us_recv y = URLoad k →
    urecv_step y (us_with_recv (ur_after_empty k (State_is_closed (decode_state (ui_state (us_inner y))))) y)
| ur_register w : us_recv y = URRegister →
    urecv_step y (us_with_recv (URQuick Second) (us_with_inner (ui_put_recv_task (Some w) (us_inner y)) y))
| ur_dec k pr m : us_recv y = URDec k pr m →
    urecv_step y (mkUsys (ui_dec_num_messages (us_inner y)) (us_senders y) (ur_after_message k) (us_accepted y)
      (us_received y ++ (if decide (k = Draining) then [] else [(pr, m)]))
      (us_dropped y ++ (if decide (k = Draining) then [(pr, m)] else [])))
| ur_close : us_recv y = URIdle ∨ us_recv y = URParked →
    urecv_step y (us_with_recv URIdle (us_with_inner (ui_set_closed (us_inner y)) y))
| ur_drop : us_recv y = URIdle ∨ us_recv y = URParked →
    urecv_step y (us_with_recv (URQuick Draining) (us_with_inner (ui_set_closed (us_inner y)) y))
| ur_drop_load : us_recv y = URDropLoad →
    urecv_step y (us_with_recv (ur_drop_loaded (State_is_closed (decode_state (ui_state (us_inner y))))) y).

Inductive u_step : usys → usys → Prop :=
| u_send y y' i s : us_senders y !! i = Some s → usend_step i s y y' → u_step y y'
| u_recv y y' : urecv_step y y' → u_step y y'.

Definition unbounded_start : usys := mkUsys unbounded [UIdle] URIdle [] [] [].

(** ** The bounded channel it refines *)

#[local] Arguments decode_state : simpl never.
#[local] Arguments encode_state : simpl never.

Definition as_inner (c : UnboundedInner) : BoundedInner (A := A) :=
  mkInner MAX_CAPACITY (ui_state c) (ui_message_queue c) (ui_quick_message_queue c) [] (ui_num_senders c)
    (ui_recv_task c).

Definition as_pc (s : usend) : spc (A := A) :=
  match s with
  | UIdle => SIdle
  | UInc pr m => SInc pr m
  | UPush pr m => SPush pr m
  | UWake => SWake
  | UClose d => SClose d
  | UCloseWake d => SCloseWake d
  | UGone => SGone
  end.

Definition as_sender (s : usend) : Sender (A := A) := mkSender SenderTask_new false (as_pc s).

Definition as_rpc (r : urecv) : rpc (A := A) :=
  match r with
  | URIdle => RIdle
  | URQuick k => RQuick k
  | URNormal k => RNormal k
  | URLoad k => RLoad k
  | URRegister => RRegister
  | URParked => RParked
  | URDec k pr m => RDec k pr m
  | URDropLoad => RDropLoad
  | URDone => RDone
  end.

Definition as_bounded (y : usys) : csys (A := A) :=
  mkSys (as_inner (us_inner y)) (as_sender <$> us_senders y) (as_rpc (us_recv y)) (us_accepted y)
    (us_received y) (us_dropped y).

Lemma as_set_closed c : set_closed (as_inner c) = as_inner (ui_set_closed c).
Proof. unfold set_closed, ui_set_closed. cbn. by destruct (is_open (decode_state (ui_state c))). Qed.

Lemma as_queue_push pr m c : queue_push pr m (as_inner c) = as_inner (ui_queue_push pr m c).
Proof. by destruct pr. Qed.

(** A sender of the unbounded channel never parks. *)
Lemma as_do_send pr m c s' c' e :
  do_send_nb pr m c = ROk (s', c', e) →
  do_send_b pr m (as_sender (UInc pr m)) (as_inner c) = ROk (as_sender s', as_inner c', e).
Proof.
  unfold do_send_nb, ui_inc_num_messages, do_send_b, inc_num_messages. cbn [bi_state as_inner].
  destruct (decode_state (ui_state c)) as [o n]. cbn. destruct o; cbn; [|by intros [= <- <- <-]].
  destruct (n <? MAX_CAPACITY) eqn:E; [|done]. intros [= <- <- <-].
  replace (MAX_CAPACITY <? n + 1) with false; [done|]. symmetry. apply Z.ltb_ge. lia.
Qed.

(** ** The number of senders *)

Definition u_alive (s : usend) : Z :=
  match s with UClose true | UCloseWake true | UGone => 0 | _ => 1 end.

Definition alive (l : list usend) : Z := foldr (λ s a, u_alive s + a) 0 l.
#[local] Arguments alive : simpl never.

Lemma alive_cons s l : alive (s :: l) = u_alive s + alive l.
Proof. done. Qed.

Lemma u_alive_nonneg s : 0 <= u_alive s.
Proof. by destruct s as [| | | |[]|[]|]. Qed.

Lemma alive_nonneg l : 0 <= alive l.
Proof. induction l as [|s l IH]; [done|]. rewrite alive_cons. pose proof (u_alive_nonneg s). lia. Qed.

Lemma alive_insert l i s s' : l !! i = Some s → alive (<[i := s']> l) = alive l - u_alive s + u_alive s'.
Proof.
  revert i. induction l as [|x l IH]; intros i Hi; [done|]. destruct i as [|i].
  - injection Hi as ->. change (<[0%nat := s']> (s :: l)) with (s' :: l). rewrite !alive_cons. lia.
  - change (<[S i := s']> (x :: l)) with (x :: <[i := s']> l). rewrite !alive_cons, (IH i Hi). lia.
Qed.

Lemma alive_snoc l s : alive (l ++ [s]) = alive l + u_alive s.
Proof. induction l as [|x l IH]; [cbn; unfold alive; cbn; lia|]. cbn [app]. rewrite !alive_cons, IH. lia. Qed.

Lemma alive_le l i s : l !! i = Some s → u_alive s <= alive l.
Proof.
  revert i. induction l as [|x l IH]; intros i Hi; [done|]. rewrite alive_cons. destruct i as [|i].
  - injection Hi as ->. pose proof (alive_nonneg l). lia.
  - pose proof (IH i Hi). pose proof (u_alive_nonneg x). lia.
Qed.

(** The counter is the number of senders that were not dropped; when it is zero, the channel is
    closed or the sender dropped last is about to close it. *)
Definition senders_inv (y : usys) : Prop :=
  ui_num_senders (us_inner y) = alive (us_senders y) ∧
  (alive (us_senders y) = 0 → UClose true ∈ us_senders y ∨ ui_is_closed (us_inner y) = true).

(** ** The simulation *)

Abbreviation bounded_steps := (rtc (c_step (A := A))) (only parsing).

Lemma as_senders_insert i s (l : list usend) : as_sender <$> <[i := s]> l = <[i := as_sender s]> (as_sender <$> l).
Proof. apply list_fmap_insert. Qed.

Lemma sim_send i s y y' :
  us_senders y !! i = Some s → senders_inv y → usend_step i s y y' → c_step (as_bounded y) (as_bounded y').
Proof.
  intros Hi [Hn _] Hst.
  assert ((as_sender <$> us_senders y) !! i = Some (as_sender s)) as Hs by (by rewrite list_lookup_fmap, Hi).
  assert (∀ z, send_step i (as_sender s) (as_bounded y) z → c_step (as_bounded y) z) as Hc
    by (intros z Hz; by eapply (c_send _ _ i)).
  destruct Hst as [pr m ->|pr m s' c' e -> Hd|pr m ->| -> |c' -> Hcl| -> | -> |d -> |d ->];
    unfold as_bounded at 2; cbn [us_with_sender us_with_inner us_inner us_senders us_recv us_accepted us_received us_dropped];
    rewrite ?as_senders_insert, ?fmap_app; apply Hc.
  - exact (ss_try i (as_sender UIdle) (as_bounded y) pr m eq_refl).
  - exact (ss_inc i (as_sender (UInc pr m)) (as_bounded y) pr m _ _ e eq_refl (as_do_send _ _ _ _ _ _ Hd)).
  - rewrite <- as_queue_push. exact (ss_push i (as_sender (UPush pr m)) (as_bounded y) pr m eq_refl).
  - exact (ss_wake i (as_sender UWake) (as_bounded y) eq_refl).
  - unfold ui_clone in Hcl. destruct (_ =? _); [done|]. injection Hcl as <-.
    apply (ss_clone i (as_sender UIdle) (as_bounded y) _ Sender_new); [done|]. unfold clone_sender, max_senders. cbn.
    pose proof (alive_le _ _ _ Hi) as Hle. cbn in Hle. rewrite Z.sub_diag.
    replace (ui_num_senders (us_inner y) =? 0) with false; [done|]. symmetry. apply Z.eqb_neq. lia.
  - pose proof (ss_drop i (as_sender UIdle) (as_bounded y) eq_refl) as Hx. unfold drop_sender in Hx. cbn in Hx.
    unfold ui_drop. by destruct (ui_num_senders (us_inner y) =? 1).
  - exact (ss_close_channel i (as_sender UIdle) (as_bounded y) eq_refl).
  - rewrite <- as_set_closed. exact (ss_close i (as_sender (UClose d)) (as_bounded y) d eq_refl).
  - pose proof (ss_close_wake i (as_sender (UCloseWake d)) (as_bounded y) d eq_refl) as Hx. by destruct d.
Qed.

Lemma sim_recv y y' : urecv_step y y' → bounded_steps (as_bounded y) (as_bounded y').
Proof.
  intros Hst. assert (∀ z, recv_step (as_bounded y) z → bounded_steps (as_bounded y) z) as Hc
    by (intros z Hz; by apply rtc_once, c_recv).
  destruct Hst as [Hr|Hr|k Hr|k Hr|k Hr|w Hr|k pr m Hr|Hr|Hr|Hr].
  - apply Hc, (rs_poll (as_bounded y)). destruct Hr as [Hr|Hr]; cbn; rewrite Hr; auto.
  - apply Hc, (rs_try (as_bounded y)). destruct Hr as [Hr|Hr]; cbn; rewrite Hr; auto.
  - pose proof (rs_quick (as_bounded y) k) as Hx. cbn in Hx. rewrite Hr in Hx. specialize (Hx eq_refl).
    destruct (ui_quick_message_queue (us_inner y)) as [|m q]; [by apply Hc|].
    etransitivity; [by apply Hc|]. apply rtc_once, c_recv. by eapply rs_unpark.
  - pose proof (rs_normal (as_bounded y) k) as Hx. cbn in Hx. rewrite Hr in Hx. specialize (Hx eq_refl).
    destruct (ui_message_queue (us_inner y)) as [|m q]; [by apply Hc|].
    etransitivity; [by apply Hc|]. apply rtc_once, c_recv. by eapply rs_unpark.
  - pose proof (rs_load (as_bounded y) k) as Hx. cbn in Hx. rewrite Hr in Hx. specialize (Hx eq_refl).
    apply Hc. unfold after_empty in Hx. unfold as_bounded, ur_after_empty. cbn. by destruct (State_is_closed _), k.
  - apply Hc. pose proof (rs_register (as_bounded y) w) as Hx. cbn in Hx. rewrite Hr in Hx. by apply Hx.
  - apply Hc. pose proof (rs_dec (as_bounded y) k pr m) as Hx. cbn in Hx. rewrite Hr in Hx. specialize (Hx eq_refl).
    by destruct k.
  - pose proof (rs_close (as_bounded y) false) as Hx. cbn in Hx. rewrite as_set_closed in Hx.
    etransitivity; [apply Hc, Hx; destruct Hr as [-> | ->]; auto|].
    apply rtc_once, c_recv.
    exact (rs_closing (with_rpc (RClosing false) (with_inner (as_inner (ui_set_closed (us_inner y))) (as_bounded y))) false eq_refl).
  - pose proof (rs_close (as_bounded y) true) as Hx. cbn in Hx. rewrite as_set_closed in Hx.
    etransitivity; [apply Hc, Hx; destruct Hr as [-> | ->]; auto|].
    apply rtc_once, c_recv.
    exact (rs_closing (with_rpc (RClosing true) (with_inner (as_inner (ui_set_closed (us_inner y))) (as_bounded y))) true eq_refl).
  - pose proof (rs_drop_load (as_bounded y)) as Hx. cbn in Hx. rewrite Hr in Hx. specialize (Hx eq_refl).
    apply Hc. unfold as_bounded. cbn. by destruct (State_is_closed _).
Qed.

Lemma chan_closed_mono (x x' : csys (A := A)) :
  bounded_steps x x' → chan_inv x → closed x = true → closed x' = true.
Proof.
  induction 1 as [|x x1 x' Hst _ IH]; [done|]. intros Hx Hcl. pose proof (chan_step_inv _ _ Hst Hx) as Hx1.
  apply IH; [done|]. destruct Hst as [x x1 i s Hi Hst|x x1 Hst].
  - destruct (send_frame_rest _ _ _ _ Hi Hst (proj1 Hx)) as (_ & _ & _ & Hm). by apply Hm.
  - eapply recv_closed; [done|apply Hx|apply Hx1|done].
Qed.

Lemma close_closes y : chan_inv (as_bounded y) → ui_is_closed (ui_set_closed (us_inner y)) = true.
Proof.
  intros [(o & Hcap & He) _]. pose proof (set_closed_state _ _ _ Hcap He) as Hs. cbn in Hs.
  rewrite as_set_closed in Hs. unfold ui_is_closed. cbn in Hs. rewrite Hs. by rewrite decode_encode_state.
Qed.

Lemma senders_send i s y y' :
  us_senders y !! i = Some s → usend_step i s y y' → chan_inv (as_bounded y) → senders_inv y → senders_inv y'.
Proof.
  intros Hi Hst Hch [Hn Hz].
  assert (∀ s' c, u_alive s = 1 → u_alive s' = 1 → ui_num_senders c = ui_num_senders (us_inner y) →
    ∀ r a b d, senders_inv (mkUsys c (<[i := s']> (us_senders y)) r a b d)) as Hsame.
  { intros s' c H1 H2 H3 r a b d. unfold senders_inv. cbn.
    assert (<[i := s']> (us_senders y) !! i = Some s') as Hi' by (apply list_lookup_insert_eq; by eapply lookup_lt_Some).
    pose proof (alive_le _ _ _ Hi'). rewrite (alive_insert _ _ _ _ Hi) in *. split; lia. }
  destruct Hst as [pr m ->|pr m s' c' e -> Hd|pr m ->| -> |c' -> Hcl| -> | -> |d -> |d ->];
    try (by apply Hsame).
  - unfold do_send_nb, ui_inc_num_messages in Hd. destruct (negb _); [injection Hd as <- <- <-; by apply Hsame|].
    destruct (_ <? _); [|done]. injection Hd as <- <- <-. by apply Hsame.
  - apply Hsame; try done. by destruct pr.
  - unfold ui_clone in Hcl. destruct (_ =? _); [done|]. injection Hcl as <-. unfold senders_inv. cbn.
    rewrite alive_snoc. cbn. pose proof (alive_nonneg (us_senders y)). split; lia.
  - unfold senders_inv. cbn. destruct (ui_num_senders (us_inner y) =? 1) eqn:E; rewrite (alive_insert _ _ _ _ Hi); cbn.
    + split; [lia|]. intros _. left. apply list_elem_of_lookup. exists i. apply list_lookup_insert_eq. by eapply lookup_lt_Some.
    + apply Z.eqb_neq in E. split; lia.
  - destruct d; [|apply Hsame; try done; unfold ui_set_closed; by destruct (negb _)].
    unfold senders_inv. cbn. rewrite (alive_insert _ _ _ _ Hi), (close_closes y Hch). cbn. split; [|by right].
    unfold ui_set_closed. destruct (negb _); cbn; lia.
  - destruct d; [|by apply Hsame]. unfold senders_inv. cbn. rewrite (alive_insert _ _ _ _ Hi). cbn.
    split; [lia|]. intros H0. destruct (Hz ltac:(lia)) as [[j Hj]%list_elem_of_lookup|H]; [left|by right].
    apply list_elem_of_lookup. exists j. rewrite list_lookup_insert_ne; [done|]. intros ->. congruence.
Qed.

Lemma recv_senders y y' : urecv_step y y' →
  us_senders y' = us_senders y ∧ ui_num_senders (us_inner y') = ui_num_senders (us_inner y).
Proof.
  intros Hst. destruct Hst as [Hr|Hr|k Hr|k Hr|k Hr|w Hr|k pr m Hr|Hr|Hr|Hr]; cbn; try done.
  - by destruct (ui_quick_message_queue _).
  - by destruct (ui_message_queue _).
  - unfold ui_set_closed. by destruct (negb _).
  - unfold ui_set_closed. by destruct (negb _).
Qed.

(** What holds in every interleaving. *)
Definition unbounded_inv (y : usys) : Prop := chan_inv (as_bounded y) ∧ senders_inv y.

Lemma unbounded_step y y' : u_step y y' → unbounded_inv y → unbounded_inv y' ∧ bounded_steps (as_bounded y) (as_bounded y').
Proof.
  intros Hst [Hc Hs]. destruct Hst as [y y' i s Hi Hst|y y' Hst].
  - pose proof (sim_send _ _ _ _ Hi Hs Hst) as Hx. split; [split; [by eapply chan_step_inv|by eapply senders_send]|by apply rtc_once].
  - pose proof (sim_recv _ _ Hst) as Hx. destruct (recv_senders _ _ Hst) as [E1 E2].
    split; [split; [by eapply chan_steps_inv|]|done]. destruct Hs as [Hn Hz]. unfold senders_inv. rewrite E1, E2.
    split; [done|]. intros H0. destruct (Hz H0) as [H|H]; [by left|right].
    exact (chan_closed_mono _ _ Hx Hc H).
Qed.

Lemma unbounded_steps_inv y y' :
  rtc u_step y y' → unbounded_inv y → unbounded_inv y' ∧ bounded_steps (as_bounded y) (as_bounded y').
Proof.
  induction 1 as [|y y1 y' Hst _ IH]; [done|]. intros Hy. destruct (unbounded_step _ _ Hst Hy) as [Hy1 Hs1].
  destruct (IH Hy1) as [Hy' Hs]. split; [done|]. by etransitivity.
Qed.

Lemma unbounded_start_inv : unbounded_inv unbounded_start.
Proof. split; [by apply (start_inv MAX_CAPACITY)|]. by split. Qed.

(** ** The properties *)

Definition u_hand (r : urecv) : list (Priority * msg) := match r with URDec _ pr m => [(pr, m)] | _ => [] end.

Definition u_queue (pr : Priority) (c : UnboundedInner) : list (Priority * msg) :=
  map (pair pr) (match pr with High => ui_quick_message_queue c | Normal => ui_message_queue c end).

Definition u_held (i : nat) (l : list usend) : list (Priority * msg) :=
  match l !! i with Some (UPush pr m) => [(pr, (i, m))] | _ => [] end.

(** What was received, thrown away by a dropped receiver, is in the receiver's hands, queued or in
    the sender's hands is, in this order, what was accepted from the sender at the priority. *)
Definition u_fifo (y : usys) : Prop := ∀ i pr,
  sel i pr (us_accepted y) =
  sel i pr (us_received y ++ us_dropped y ++ u_hand (us_recv y) ++ u_queue pr (us_inner y)) ++
  sel i pr (u_held i (us_senders y)).

Lemma as_fifo y : fifo_inv (as_bounded y) → u_fifo y.
Proof.
  intros Hf i pr. specialize (Hf i pr). cbn in Hf.
  replace (rpc_msg (as_rpc (us_recv y))) with (u_hand (us_recv y)) in Hf by (by destruct (us_recv y)).
  replace (held i (as_sender <$> us_senders y)) with (u_held i (us_senders y)) in Hf; [exact Hf|].
  unfold held, u_held. rewrite list_lookup_fmap. by destruct (us_senders y !! i) as [[]|].
Qed.

Lemma as_has_pc p (s : usend) l :
  (∀ x, as_pc x = p → x = s) → has_pc p (as_sender <$> l) → s ∈ l.
Proof.
  intros Hp (i & x & Hi & Hx). apply list_lookup_fmap_Some in Hi as (u & -> & Hu). cbn in Hx.
  rewrite <- (Hp u Hx). apply list_elem_of_lookup. eauto.
Qed.

(** C36: in every interleaving the unbounded channel goes through states of a bounded channel whose
    buffer holds any number of messages the state word counts; so the messages of a sender and a
    priority arrive in order and none is lost. Sending never waits and fails only on a closed
    channel, the counter of the senders is the number of those not dropped, and when all are dropped
    the channel is closed or the last of them is about to close it. *)
Theorem unbounded_refines_bounded y :
  rtc u_step unbounded_start y →
  rtc c_step (chan_start (mkInner MAX_CAPACITY INIT_STATE [] [] [] 1 None)) (as_bounded y) ∧
  u_fifo y ∧
  (∀ y', urecv_step y y' → us_recv y' = URDone →
     ∀ i pr, sel i pr (us_accepted y') = sel i pr (us_received y' ++ us_dropped y')) ∧
  (ui_is_closed (us_inner y) = false → poll_ready_nb (us_inner y) = Ready (inr tt) ∧
     ∀ pr m s c e, do_send_nb pr m (us_inner y) = ROk (s, c, e) → e = None) ∧
  ui_num_senders (us_inner y) = alive (us_senders y) ∧
  (alive (us_senders y) = 0 → UClose true ∈ us_senders y ∨ ui_is_closed (us_inner y) = true).
Proof.
  intros Hr. destruct (unbounded_steps_inv _ _ Hr unbounded_start_inv) as [Hinv Hb]. destruct Hinv as [Hc [Hn Hz]].
  pose proof Hc as (Hcnt & Hf & _). split_and!; [exact Hb|by apply as_fifo| | |done..].
  - intros y' Hst Hd i pr. pose proof (chan_steps_inv _ _ (sim_recv _ _ Hst) Hc) as (Hcnt' & Hf' & _).
    apply (closed_all_taken (as_bounded y') i pr Hcnt' Hf'); cbn; [by rewrite Hd|].
    destruct Hst as [Hx|Hx|k Hx|k Hx|k Hx|w Hx|k pr' m Hx|Hx|Hx|Hx]; cbn in Hd |- *; try discriminate Hd.
    + by destruct (ui_quick_message_queue (us_inner y)).
    + by destruct (ui_message_queue (us_inner y)).
    + unfold ur_after_empty in Hd. destruct (State_is_closed _); [done|by destruct k].
    + by destruct k.
    + by destruct (State_is_closed _).
  - unfold ui_is_closed, poll_ready_nb, do_send_nb, ui_inc_num_messages. intros Ho.
    destruct (is_open (decode_state (ui_state (us_inner y)))); [|done]. split; [done|]. cbn.
    intros pr m s c e. destruct (_ <? _); [|done]. by intros [= <- <- <-].
Qed.

(** No wake-up of the receiver of an unbounded channel is lost: when it returned [Pending] and its
    waker was not used since, there is nothing to receive and the stream has not ended, unless a
    sender is about to wake it. *)
Theorem unbounded_wakeup y :
  rtc u_step unbounded_start y → us_recv y = URParked → ui_recv_task (us_inner y) ≠ None →
  (ui_quick_message_queue (us_inner y) = [] ∧ ui_message_queue (us_inner y) = [] ∨ UWake ∈ us_senders y) ∧
  (State_is_closed (decode_state (ui_state (us_inner y))) = true → ∃ d, UCloseWake d ∈ us_senders y).
Proof.
  intros Hr Hp Hn. destruct (unbounded_steps_inv _ _ Hr unbounded_start_inv) as [[Hc _] _].
  destruct Hc as (Hcnt & _ & _ & _ & Hw & _). unfold wake_inv in Hw. cbn in Hw. rewrite Hp in Hw.
  destruct (Hw Hn) as [H1 H2]. split.
  - destruct H1 as [H1|H1]; [by left|right]. apply (as_has_pc SWake); [by intros []|done].
  - intros E. destruct H2 as [d Hd].
    + pose proof (count_open _ Hcnt) as Ho. cbn in Ho. rewrite Ho in E. unfold State_is_closed in E. cbn in E.
      apply andb_prop in E as [E1 E2]. apply Z.eqb_eq in E2. done.
    + exists d. apply (as_has_pc (SCloseWake d)); [intros [] [=]; by subst|done].
Qed.

End Unbounded.

(** ** A run: a message is sent, the sender is dropped, the receiver drains the channel *)

Definition unbounded_sent : usys (A := Z) :=
  mkUsys (mkUnbounded (OPEN_MASK + 1) [(0%nat, 7)] [] 1 None) [UIdle] URIdle [(Normal, (0%nat, 7))] [] [].

Lemma unbounded_sends : rtc u_step unbounded_start unbounded_sent.
Proof.
  eapply rtc_l; [eapply (u_send _ _ 0%nat); [reflexivity|apply (us_send _ _ _ Normal 7); reflexivity]|].
  eapply rtc_l; [eapply (u_send _ _ 0%nat); [reflexivity|eapply (us_inc _ _ _ Normal 7); reflexivity]|].
  eapply rtc_l; [eapply (u_send _ _ 0%nat); [reflexivity|apply (us_push _ _ _ Normal 7); reflexivity]|].
  eapply rtc_l; [eapply (u_send _ _ 0%nat); [reflexivity|apply us_wake; reflexivity]|].
  vm_compute. apply rtc_refl.
Qed.

Definition unbounded_drained : usys (A := Z) :=
  mkUsys (mkUnbounded 0 [] [] 0 None) [UGone] (URLoad First) [(Normal, (0%nat, 7))] [(Normal, (0%nat, 7))] [].

Lemma unbounded_drains : rtc u_step unbounded_start unbounded_drained.
Proof.
  etransitivity; [apply unbounded_sends|].
  eapply rtc_l; [eapply (u_send _ _ 0%nat); [reflexivity|apply us_drop; reflexivity]|].
  eapply rtc_l; [eapply (u_send _ _ 0%nat); [reflexivity|apply (us_close _ _ _ true); reflexivity]|].
  eapply rtc_l; [eapply (u_send _ _ 0%nat); [reflexivity|apply (us_close_wake _ _ _ true); reflexivity]|].
  eapply rtc_l; [apply u_recv, ur_poll; by left|].
  eapply rtc_l; [eapply u_recv, ur_quick; reflexivity|].
  eapply rtc_l; [eapply u_recv, ur_normal; reflexivity|].
  eapply rtc_l; [eapply u_recv, ur_dec; reflexivity|].
  eapply rtc_l; [apply u_recv, ur_poll; by left|].
  eapply rtc_l; [eapply u_recv, ur_quick; reflexivity|].
  eapply rtc_l; [eapply u_recv, ur_normal; reflexivity|].
  vm_compute. apply rtc_refl.
Qed.

Lemma unbounded_refines_bounded_witness :
  let y' := us_with_recv URDone unbounded_drained in
  sel 0 Normal (us_accepted y') = sel 0 Normal (us_received y' ++ us_dropped y').
Proof.
  intros y'. destruct (unbounded_refines_bounded unbounded_drained unbounded_drains) as (_ & _ & H & _).
  apply (H y'); [|reflexivity]. exact (ur_load unbounded_drained First eq_refl).
Defined.

Definition unbounded_waiting : usys (A := Z) :=
  mkUsys (mkUnbounded INIT_STATE [] [] 1 (Some 3%nat)) [UIdle] URParked [] [] [].

Lemma unbounded_waits : rtc u_step unbounded_start unbounded_waiting.
Proof.
  eapply rtc_l; [apply u_recv, ur_poll; by left|].
  eapply rtc_l; [eapply u_recv, ur_quick; reflexivity|].
  eapply rtc_l; [eapply u_recv, ur_normal; reflexivity|].
  eapply rtc_l; [eapply u_recv, ur_load; reflexivity|].
  eapply rtc_l; [eapply u_recv, (ur_register _ 3%nat); reflexivity|].
  eapply rtc_l; [eapply u_recv, ur_quick; reflexivity|].
  eapply rtc_l; [eapply u_recv, ur_normal; reflexivity|].
  eapply rtc_l; [eapply u_recv, ur_load; reflexivity|].
  vm_compute. apply rtc_refl.
Qed.

Lemma unbounded_wakeup_witness :
  ui_quick_message_queue (us_inner unbounded_waiting) = [] ∧ ui_message_queue (us_inner unbounded_waiting) = [] ∨
  UWake ∈ us_senders unbounded_waiting.
Proof. apply (unbounded_wakeup unbounded_waiting unbounded_waits); done. Defined.
