(* ===== verification/Buffers.v ===== *)
(** * Send buffers ([tentacle/tentacle/src/buffer.rs])

    [Buffer] and [PriorityBuffer]: queues in front of a bounded channel. Flushing keeps the
    order, sends everything at high priority before anything at normal priority, and stops
    without loss when the channel is full. *)

From Stdlib Require Import ZArith Lia Bool.
From stdpp Require Import base list gmap.
From S2P Require Import Prelude Channels.

Open Scope Z_scope.

(** The sender of the priority channel: two ways to send, with a ghost view of each. *)
Class PrioritySender (T A : Type) := {
  ps_poll_ready : T → T * Poll bool;
  ps_try_send : T → A → T * TrySend A;
  ps_try_quick_send : T → A → T * TrySend A;
  ps_normal : T → list A;
  ps_quick : T → list A;
}.
#[global] Hint Mode PrioritySender ! - : typeclass_instances.

(** Each way only touches its own queue; a refused message is given back. *)
Class PrioritySenderLaws (T A : Type) `{PS : PrioritySender T A} : Prop := {
  ps_ready_view : ∀ s : T, ps_normal (ps_poll_ready s).1 = ps_normal s ∧
    ps_quick (ps_poll_ready s).1 = ps_quick s;
  ps_try_view : ∀ (s s' : T) (a : A) r, ps_try_send s a = (s', r) →
    ps_quick s' = ps_quick s ∧
    match r with SendOk => ps_normal s' = ps_normal s ++ [a]
               | SendFull b => b = a ∧ ps_normal s' = ps_normal s
               | SendDisconnected => ps_normal s' = ps_normal s end;
  ps_quick_view : ∀ (s s' : T) (a : A) r, ps_try_quick_send s a = (s', r) →
    ps_normal s' = ps_normal s ∧
    match r with SendOk => ps_quick s' = ps_quick s ++ [a]
               | SendFull b => b = a ∧ ps_quick s' = ps_quick s
               | SendDisconnected => ps_quick s' = ps_quick s end;
}.

Inductive SendResult := SrOk | SrPending | SrDisconnect.

Section Buffers.
Context {T A : Type}.

(** ** The loop shared by both buffers

    [pop_front], [poll_ready], then the send; a message that was not taken goes back to the
    front. The result is the sender, the buffer and why the loop stopped. *)
Fixpoint send_loop (ready : T → T * Poll bool) (send : T → A → T * TrySend A) (s : T) (buf : list A)
    : T * list A * SendResult :=
  match buf with
  | [] => (s, [], SrOk)
  | event :: rest =>
      match ready s with
      | (s1, Ready true) =>
          match send s1 event with
          | (s2, SendOk) => send_loop ready send s2 rest
          | (s2, SendFull e) => (s2, e :: rest, SrPending)
          | (s2, SendDisconnected) => (s2, rest, SrDisconnect)
          end
      | (s1, Pending) => (s1, event :: rest, SrPending)
      | (s1, Ready false) => (s1, rest, SrDisconnect)
      end
  end.

(** ** [Buffer] *)

Record Buffer := mkBuffer { b_sender : T; b_buffer : list A }.

Definition Buffer_new (s : T) : Buffer := mkBuffer s [].
Definition push (item : A) (b : Buffer) : Buffer := mkBuffer (b_sender b) (b_buffer b ++ [item]).
Definition Buffer_clear (b : Buffer) : Buffer := mkBuffer (b_sender b) [].
Definition Buffer_take (b : Buffer) : Buffer * (T * list A) :=
  (mkBuffer (b_sender b) [], (b_sender b, b_buffer b)).

Definition Buffer_try_send `{BoundedSender T A} (b : Buffer) : Buffer * SendResult :=
  match send_loop bs_poll_ready bs_try_send (b_sender b) (b_buffer b) with
  | (s, buf, SrDisconnect) => (Buffer_clear (mkBuffer s buf), SrDisconnect)
  | (s, buf, r) => (mkBuffer s buf, r)
  end.

(** ** [PriorityBuffer] *)

Record PriorityBuffer := mkPriorityBuffer {
  pb_sender : T; pb_high : list A; pb_normal : list A }.

Definition PriorityBuffer_new (s : T) : PriorityBuffer := mkPriorityBuffer s [] [].
Definition push_high (item : A) (b : PriorityBuffer) : PriorityBuffer :=
  mkPriorityBuffer (pb_sender b) (pb_high b ++ [item]) (pb_normal b).
Definition push_normal (item : A) (b : PriorityBuffer) : PriorityBuffer :=
  mkPriorityBuffer (pb_sender b) (pb_high b) (pb_normal b ++ [item]).
Definition pb_len (b : PriorityBuffer) : Z := len (pb_high b) + len (pb_normal b).
Definition pb_is_empty (b : PriorityBuffer) : bool := is_empty (pb_high b) && is_empty (pb_normal b).
Definition pb_clear (b : PriorityBuffer) : PriorityBuffer := mkPriorityBuffer (pb_sender b) [] [].

Definition PriorityBuffer_try_send `{PrioritySender T A} (b : PriorityBuffer)
    : PriorityBuffer * SendResult :=
  match send_loop ps_poll_ready ps_try_quick_send (pb_sender b) (pb_high b) with
  | (s, high, SrDisconnect) => (pb_clear (mkPriorityBuffer s high (pb_normal b)), SrDisconnect)
  | (s, high, SrPending) => (mkPriorityBuffer s high (pb_normal b), SrPending)
  | (s, high, SrOk) =>
      match send_loop ps_poll_ready ps_try_send s (pb_normal b) with
      | (s', normal, SrDisconnect) => (pb_clear (mkPriorityBuffer s' high normal), SrDisconnect)
      | (s', normal, r) => (mkPriorityBuffer s' high normal, r)
      end
  end.

(** ** The loop keeps order *)

Lemma send_loop_spec ready send (view : T → list A) (other : T → list A) s buf :
  (∀ s, view (ready s).1 = view s ∧ other (ready s).1 = other s) →
  (∀ s s' a r, send s a = (s', r) → other s' = other s ∧
     match r with SendOk => view s' = view s ++ [a] | SendFull b => b = a ∧ view s' = view s
                | SendDisconnected => view s' = view s end) →
  let '(s', buf', r) := send_loop ready send s buf in
  other s' = other s ∧
  match r with
  | SrOk => view s' = view s ++ buf ∧ buf' = []
  | SrPending => view s' ++ buf' = view s ++ buf ∧ buf' ≠ []
  | SrDisconnect => ∃ x, view s' ++ x :: buf' = view s ++ buf
  end.
Proof.
  intros Hr Hs. revert s. induction buf as [|e rest IH]; intros s; cbn [send_loop].
  - by rewrite app_nil_r.
  - destruct (Hr s) as [R1 R2]. destruct (ready s) as [s1 [[]|]]; cbn [fst] in R1, R2.
    + destruct (send s1 e) as [s2 r] eqn:E. apply Hs in E as [E1 E2]. destruct r as [|b|].
      * specialize (IH s2). destruct (send_loop ready send s2 rest) as [[s3 buf'] r].
        destruct IH as [I1 I2]. split; [congruence|].
        replace (view s ++ e :: rest) with (view s2 ++ rest); [done|]. by rewrite E2, R1, <- app_assoc.
      * destruct E2 as [-> E2]. split; [congruence|]. split; [congruence|done].
      * split; [congruence|]. exists e. congruence.
    + split; [done|]. exists e. congruence.
    + split; [done|]. split; [congruence|done].
Qed.

(** The part of the loop that was sent, when only what is in order matters. *)
Lemma send_loop_split ready send (view : T → list A) (other : T → list A) s buf s' buf' r :
  (∀ s, view (ready s).1 = view s ∧ other (ready s).1 = other s) →
  (∀ s s' a r, send s a = (s', r) → other s' = other s ∧
     match r with SendOk => view s' = view s ++ [a] | SendFull b => b = a ∧ view s' = view s
                | SendDisconnected => view s' = view s end) →
  send_loop ready send s buf = (s', buf', r) →
  other s' = other s ∧ ∃ taken rest, view s' = view s ++ taken ∧ buf = taken ++ rest ∧
    (buf' = rest ∨ r = SrDisconnect).
Proof.
  intros Hr Hs. revert s. induction buf as [|e buf IH]; intros s; cbn [send_loop].
  - intros [= <- <- <-]. split; [done|]. exists [], []. rewrite app_nil_r. auto.
  - destruct (Hr s) as [R1 R2]. destruct (ready s) as [s1 [[]|]]; cbn in R1, R2.
    + destruct (send s1 e) as [s2 [|x|]] eqn:E; apply Hs in E as [E1 E2].
      * intros H. apply IH in H as (O & t & rest & -> & -> & H). split; [congruence|].
        exists (e :: t), rest. rewrite E2, R1, <- app_assoc. auto.
      * destruct E2 as [-> E2]. intros [= <- <- <-]. split; [congruence|]. exists [], (e :: buf).
        rewrite app_nil_r. split_and!; auto. congruence.
      * intros [= <- <- <-]. split; [congruence|]. exists [], (e :: buf). rewrite app_nil_r.
        split_and!; auto. congruence.
    + intros [= <- <- <-]. split; [done|]. exists [], (e :: buf). rewrite app_nil_r. auto.
    + intros [= <- <- <-]. split; [done|]. exists [], (e :: buf). rewrite app_nil_r. auto.
Qed.

(** At each priority a flush sends a prefix of the buffer; the rest stays or is dropped. *)
Lemma PriorityBuffer_try_send_split `{PSL : PrioritySenderLaws T A} (b b' : PriorityBuffer) r :
  PriorityBuffer_try_send b = (b', r) →
  (∃ taken rest, ps_quick (pb_sender b') = ps_quick (pb_sender b) ++ taken ∧ pb_high b = taken ++ rest ∧
     (pb_high b' = rest ∨ pb_high b' = [] ∧ r = SrDisconnect)) ∧
  (∃ taken rest, ps_normal (pb_sender b') = ps_normal (pb_sender b) ++ taken ∧ pb_normal b = taken ++ rest ∧
     (pb_normal b' = rest ∨ pb_normal b' = [] ∧ r = SrDisconnect)).
Proof.
  unfold PriorityBuffer_try_send.
  destruct (send_loop ps_poll_ready ps_try_quick_send _ _) as [[s1 high] r1] eqn:E1.
  apply (send_loop_split _ _ ps_quick ps_normal) in E1 as (O1 & t1 & rest1 & V1 & B1 & C1);
    [|intros z; by destruct (ps_ready_view z)|apply ps_quick_view].
  assert (∃ taken rest, ps_normal s1 = ps_normal (pb_sender b) ++ taken ∧ pb_normal b = taken ++ rest ∧
    (pb_normal b = rest ∨ rest = pb_normal b)) by (exists [], (pb_normal b); rewrite app_nil_r; auto).
  destruct r1; [|intros [= <- <-]|intros [= <- <-]]; cbn.
  - destruct (send_loop ps_poll_ready ps_try_send _ _) as [[s2 normal] r2] eqn:E2.
    apply (send_loop_split _ _ ps_normal ps_quick) in E2 as (O2 & t2 & rest2 & V2 & B2 & C2);
      [|intros z; by destruct (ps_ready_view z)|apply ps_try_view].
    destruct r2; intros [= <- <-]; cbn; rewrite O2, <- O1; split;
      [exists t1, rest1|exists t2, rest2|exists t1, rest1|exists t2, rest2|exists t1, rest1|exists t2, rest2];
      split_and!; auto; naive_solver.
  - split; [exists t1, rest1|exists [], (pb_normal b)]; rewrite ?app_nil_r; naive_solver.
  - split; [exists t1, rest1|exists [], (pb_normal b)]; rewrite ?app_nil_r; naive_solver.
Qed.

(** A flush sends a prefix of the buffer; the rest stays or is dropped. *)
Lemma Buffer_try_send_split `{BSL : BoundedSenderLaws T A} (b b' : Buffer) r : Buffer_try_send b = (b', r) →
  ∃ taken rest, bs_sent (b_sender b') = bs_sent (b_sender b) ++ taken ∧ b_buffer b = taken ++ rest ∧
  (b_buffer b' = rest ∨ b_buffer b' = [] ∧ r = SrDisconnect).
Proof.
  unfold Buffer_try_send. destruct (send_loop _ _ _ _) as [[s' buf'] r'] eqn:E.
  apply (send_loop_split _ _ bs_sent (λ _, [])) in E as (_ & t & rest & H1 & H2 & H3).
  - destruct r'; intros [= <- <-]; exists t, rest; cbn; naive_solver.
  - intros z. split; [apply bs_ready_sent|done].
  - intros z z' a [|x|] E'; (split; [done|]);
      [by apply bs_try_ok|by eapply bs_try_full|by eapply bs_try_disc].
Qed.

(** Flushing a [Buffer] sends its messages in order: all of them on [Ok], a prefix with the
    rest still buffered on [Pending], and on a disconnect the buffer is emptied. *)
Theorem Buffer_try_send_in_order `{BSL : BoundedSenderLaws T A} (b : Buffer) :
  let '(b', r) := Buffer_try_send b in
  match r with
  | SrOk => bs_sent (b_sender b') = bs_sent (b_sender b) ++ b_buffer b ∧ b_buffer b' = []
  | SrPending => bs_sent (b_sender b') ++ b_buffer b' = bs_sent (b_sender b) ++ b_buffer b ∧
      b_buffer b' ≠ []
  | SrDisconnect => b_buffer b' = [] ∧ ∃ lost, lost ≠ [] ∧
      bs_sent (b_sender b') ++ lost = bs_sent (b_sender b) ++ b_buffer b
  end.
Proof.
  unfold Buffer_try_send.
  pose proof (send_loop_spec bs_poll_ready bs_try_send bs_sent (λ _, []) (b_sender b) (b_buffer b)) as H.
  destruct (send_loop _ _ _ _) as [[s' buf'] r]. destruct H as [_ H].
  - intros z. split; [apply bs_ready_sent|done].
  - intros z z' a r'. destruct r' as [|x|]; intros E; (split; [done|]).
    + by apply bs_try_ok.
    + by eapply bs_try_full.
    + by eapply bs_try_disc.
  - destruct r; cbn; auto. destruct H as (x & H). split; [done|]. by exists (x :: buf').
Qed.

(** Flushing a [PriorityBuffer] keeps the order at each priority and lets no normal message
    pass a buffered high one: normal messages are sent only after all high ones are gone; on
    [Pending] nothing is lost, on a disconnect both buffers are emptied. *)
Theorem PriorityBuffer_try_send_in_order `{PSL : PrioritySenderLaws T A} (b : PriorityBuffer) :
  let '(b', r) := PriorityBuffer_try_send b in
  let s := pb_sender b in let s' := pb_sender b' in
  match r with
  | SrOk => ps_quick s' = ps_quick s ++ pb_high b ∧ ps_normal s' = ps_normal s ++ pb_normal b ∧
      pb_is_empty b' = true
  | SrPending =>
      ps_quick s' ++ pb_high b' = ps_quick s ++ pb_high b ∧
      ps_normal s' ++ pb_normal b' = ps_normal s ++ pb_normal b ∧ 0 < pb_len b' ∧
      (pb_high b' ≠ [] → ps_normal s' = ps_normal s)
  | SrDisconnect => pb_is_empty b' = true
  end.
Proof.
  unfold PriorityBuffer_try_send.
  pose proof (send_loop_spec ps_poll_ready ps_try_quick_send ps_quick ps_normal (pb_sender b) (pb_high b)) as H.
  destruct (send_loop ps_poll_ready ps_try_quick_send _ _) as [[s1 high] r]. destruct H as [Hn Hq].
  { intros z. destruct (ps_ready_view z). done. }
  { intros z z' a r'. apply ps_quick_view. }
  destruct r; [|cbn|done].
  - destruct Hq as [Hq ->].
    pose proof (send_loop_spec ps_poll_ready ps_try_send ps_normal ps_quick s1 (pb_normal b)) as H.
    destruct (send_loop ps_poll_ready ps_try_send _ _) as [[s2 normal] r]. destruct H as [Hq2 Hn2].
    { intros z. destruct (ps_ready_view z). done. }
    { intros z z' a r'. apply ps_try_view. }
    destruct r; cbn; rewrite ?Hq2, ?Hq.
    + destruct Hn2 as [Hn2 ->]. by rewrite Hn2, Hn.
    + destruct Hn2 as [Hn2 He]. rewrite app_nil_r, Hn2, Hn. split_and!; auto; [|done].
      unfold pb_len. cbn. destruct normal; [done|]. rewrite len_cons. pose proof (len_nonneg normal).
      change (len []) with 0. lia.
    + done.
  - destruct Hq as [Hq He]. rewrite Hn. split_and!; auto. unfold pb_len. cbn. destruct high; [done|].
    rewrite len_cons. pose proof (len_nonneg high). pose proof (len_nonneg (pb_normal b)). lia.
Qed.

End Buffers.

(** ** A priority sender with a number of free slots *)

Record SlotPriority (A : Type) := mkSlotPriority {
  sp_quick : list A; sp_normal : list A; sp_free : nat }.
Arguments mkSlotPriority {A} _ _ _.
Arguments sp_quick {A} _.
Arguments sp_normal {A} _.
Arguments sp_free {A} _.

#[export] Instance SlotPriority_ops A : PrioritySender (SlotPriority A) A := {
  ps_poll_ready s := (s, match sp_free s with O => Pending | S _ => Ready true end);
  ps_try_send s a :=
    match sp_free s with
    | O => (s, SendFull a)
    | S n => (mkSlotPriority (sp_quick s) (sp_normal s ++ [a]) n, SendOk)
    end;
  ps_try_quick_send s a :=
    match sp_free s with
    | O => (s, SendFull a)
    | S n => (mkSlotPriority (sp_quick s ++ [a]) (sp_normal s) n, SendOk)
    end;
  ps_normal := sp_normal;
  ps_quick := sp_quick;
}.

#[export] Instance SlotPriority_laws A : PrioritySenderLaws (SlotPriority A) A.
Proof.
  split; [done|..]; intros [q m n] s' a r; cbn; destruct n; intros [= <- <-]; done.
Qed.

Lemma Buffer_try_send_in_order_witness :
  let b := mkBuffer (mkSlotSender [] 2 false) [1; 2; 3] in
  let '(b', r) := Buffer_try_send b in
  match r with
  | SrPending => bs_sent (b_sender b') ++ b_buffer b' = bs_sent (b_sender b) ++ b_buffer b
  | _ => False
  end.
Proof.
  intros b. pose proof (Buffer_try_send_in_order b) as H.
  destruct (Buffer_try_send b) as [b' r] eqn:E. vm_compute in E. injection E as <- <-. apply H.
Defined.

Lemma PriorityBuffer_try_send_in_order_witness :
  let b := mkPriorityBuffer (mkSlotPriority [] [] 3) [1; 2] [3; 4] in
  let '(b', r) := PriorityBuffer_try_send b in
  match r with
  | SrPending => ps_normal (pb_sender b') ++ pb_normal b' = [3; 4]
  | _ => False
  end.
Proof.
  intros b. pose proof (PriorityBuffer_try_send_in_order b) as H.
  destruct (PriorityBuffer_try_send b) as [b' r] eqn:E. vm_compute in E. injection E as <- <-. apply H.
Defined.
