(* ===== verification/Molecule.v ===== *)
(** * The molecule layouts ([handshake/handshake_mol.rs], [protocol_select/protocol_select_mol.rs])

    Readers and builders generated from the schemas: byte vectors, vectors of byte vectors,
    tables, and the union of public keys. Verification of hostile bytes is modelled with its
    slicing, which panics out of range. The number format of the [molecule] crate is an
    interface. *)

From Stdlib Require Import ZArith Lia Bool.
From stdpp Require Import base list.
From S2P Require Import Prelude.

Open Scope Z_scope.

(** [molecule::pack_number], [molecule::unpack_number]: 32-bit numbers in four bytes. *)
Class MolNumber := {
  pack_number : Z → bytes;
  unpack_number : bytes → Z;
}.

Class MolNumberLaws `{MN : MolNumber} : Prop := {
  pack_length : ∀ n, length (pack_number n) = 4%nat;
  unpack_pack : ∀ n rest, is_u32 n → unpack_number (pack_number n ++ rest) = n;
  unpack_first : ∀ l, unpack_number (take 4 l) = unpack_number l;
  unpack_u32 : ∀ l, is_u32 (unpack_number l);
}.

Definition NUMBER_SIZE : Z := 4.

(** [VerificationError] *)
Inductive MolError :=
| HeaderIsBroken | TotalSizeNotMatch | UnknownItem | OffsetsNotMatch | FieldCountNotMatch.

(** [slice[a..b]], which panics out of range. *)
Definition sub (l : bytes) (a b : Z) : res MolError bytes :=
  if bool_decide (0 <= a <= b ∧ b <= len l)
  then ROk (take (Z.to_nat (b - a)) (drop (Z.to_nat a) l)) else RPanic.

(** [offsets.windows(2).any(|i| i[0] > i[1])] *)
Fixpoint descends (l : list Z) : bool :=
  match l with
  | a :: ((b :: _) as rest) => (b <? a) || descends rest
  | _ => false
  end.

Section Molecule.
Context `{MN : MolNumber}.

(** A number read at a position of the slice. *)
Definition number_at (slice : bytes) (k : Z) : res MolError Z :=
  r ← sub slice k (len slice);
  if len r <? NUMBER_SIZE then RPanic else ROk (unpack_number r).

(** [.chunks_exact(NUMBER_SIZE).map(unpack_number)] *)
Fixpoint numbers (n : nat) (l : bytes) : list Z :=
  match n with
  | O => []
  | S m => unpack_number (take 4 l) :: numbers m (drop 4 l)
  end.

(** ** Vectors of bytes *)

Definition fixvec_verify (slice : bytes) : res MolError unit :=
  let slice_len := len slice in
  if slice_len <? NUMBER_SIZE then RErr HeaderIsBroken else
  let item_count := unpack_number slice in
  if item_count =? 0 then
    if negb (slice_len =? NUMBER_SIZE) then RErr TotalSizeNotMatch else ROk tt
  else
    let total_size := NUMBER_SIZE + 1 * item_count in
    if negb (slice_len =? total_size) then RErr TotalSizeNotMatch else ROk tt.

Definition raw_data (slice : bytes) : res MolError bytes := sub slice NUMBER_SIZE (len slice).

Definition fixvec_write (items : bytes) : bytes := pack_number (cast 32 (len items)) ++ items.

(** ** Tables and vectors of vectors *)

(** The offsets of the fields and the checks on them, from the header. *)
Definition read_offsets (slice : bytes) (offset_first total_size : Z) : res MolError (list Z) :=
  h ← sub slice NUMBER_SIZE offset_first;
  let offsets := numbers (length h / 4) h ++ [total_size] in
  if descends offsets then RErr OffsetsNotMatch else ROk offsets.

Fixpoint verify_fields (fields : list (bytes → res MolError unit)) (offsets : list Z)
    (slice : bytes) : res MolError unit :=
  match fields with
  | [] => ROk tt
  | f :: fs =>
      match offsets with
      | a :: ((b :: _) as rest) => s ← sub slice a b; _ ← f s; verify_fields fs rest slice
      | _ => RPanic
      end
  end.

Definition table_verify (fields : list (bytes → res MolError unit)) (compatible : bool)
    (slice : bytes) : res MolError unit :=
  let slice_len := len slice in
  let FIELD_COUNT := len fields in
  if slice_len <? NUMBER_SIZE then RErr HeaderIsBroken else
  let total_size := unpack_number slice in
  if negb (slice_len =? total_size) then RErr TotalSizeNotMatch else
  if (slice_len =? NUMBER_SIZE) && (FIELD_COUNT =? 0) then ROk tt else
  if slice_len <? NUMBER_SIZE * 2 then RErr HeaderIsBroken else
  offset_first ← number_at slice NUMBER_SIZE;
  if negb (offset_first mod NUMBER_SIZE =? 0) || (offset_first <? NUMBER_SIZE * 2)
  then RErr OffsetsNotMatch else
  if slice_len <? offset_first then RErr HeaderIsBroken else
  let field_count := offset_first / NUMBER_SIZE - 1 in
  if field_count <? FIELD_COUNT then RErr FieldCountNotMatch else
  if negb compatible && (FIELD_COUNT <? field_count) then RErr FieldCountNotMatch else
  offsets ← read_offsets slice offset_first total_size;
  verify_fields fields offsets slice.

Definition field_count (slice : bytes) : res MolError Z :=
  total_size ← number_at slice 0;
  if total_size =? NUMBER_SIZE then ROk 0
  else
    first ← number_at slice NUMBER_SIZE;
    match checked_sub (first / 4) 1 with Some n => ROk n | None => RPanic end.

(** The accessor of field [i] of a table of [count] fields. *)
Definition table_field (count i : Z) (slice : bytes) : res MolError bytes :=
  start ← number_at slice (NUMBER_SIZE * (1 + i));
  if i <? count - 1 then
    end_ ← number_at slice (NUMBER_SIZE * (2 + i)); sub slice start end_
  else
    fc ← field_count slice;
    if negb (count =? fc) then
      end_ ← number_at slice (NUMBER_SIZE * (2 + i)); sub slice start end_
    else sub slice start (len slice).

Definition dynvec_verify (item : bytes → res MolError unit) (slice : bytes) : res MolError unit :=
  let slice_len := len slice in
  if slice_len <? NUMBER_SIZE then RErr HeaderIsBroken else
  let total_size := unpack_number slice in
  if negb (slice_len =? total_size) then RErr TotalSizeNotMatch else
  if slice_len =? NUMBER_SIZE then ROk tt else
  if slice_len <? NUMBER_SIZE * 2 then RErr TotalSizeNotMatch else
  offset_first ← number_at slice NUMBER_SIZE;
  if negb (offset_first mod NUMBER_SIZE =? 0) || (offset_first <? NUMBER_SIZE * 2)
  then RErr OffsetsNotMatch else
  if slice_len <? offset_first then RErr HeaderIsBroken else
  offsets ← read_offsets slice offset_first total_size;
  verify_fields (replicate (length offsets - 1) item) offsets slice.

Definition get_unchecked (idx : Z) (slice : bytes) : res MolError bytes :=
  let start_idx := NUMBER_SIZE * (1 + idx) in
  start ← number_at slice start_idx;
  n ← field_count slice;
  if idx =? n - 1 then sub slice start (len slice)
  else end_ ← number_at slice (start_idx + NUMBER_SIZE); sub slice start end_.

(** [for item in reader.iter()], reading the raw data of each. *)
Fixpoint dynvec_items (idx : Z) (n : nat) (slice : bytes) : res MolError (list bytes) :=
  match n with
  | O => ROk []
  | S m =>
      item ← get_unchecked idx slice; raw ← raw_data item;
      rest ← dynvec_items (idx + 1) m slice; ROk (raw :: rest)
  end.

Definition dynvec_iter (slice : bytes) : res MolError (list bytes) :=
  n ← field_count slice; dynvec_items 0 (Z.to_nat n) slice.

(** The offsets the builders write: each field starts where the one before it ends. *)
Fixpoint offsets_from (start : Z) (fields : list bytes) : list Z :=
  match fields with
  | [] => []
  | f :: fs => start :: offsets_from (start + len f) fs
  end.

Definition table_write (fields : list bytes) : bytes :=
  let header := NUMBER_SIZE * (len fields + 1) in
  let total_size := header + len (concat fields) in
  pack_number (cast 32 total_size)
  ++ concat (map (λ o, pack_number (cast 32 o)) (offsets_from header fields)) ++ concat fields.

Definition dynvec_write (items : list bytes) : bytes :=
  if is_empty items then pack_number NUMBER_SIZE else table_write items.

(** ** The union of public keys *)

Definition PublicKey_verify (slice : bytes) : res MolError unit :=
  let slice_len := len slice in
  if slice_len <? NUMBER_SIZE then RErr HeaderIsBroken else
  let item_id := unpack_number slice in
  inner_slice ← sub slice NUMBER_SIZE slice_len;
  if item_id =? 0 then fixvec_verify inner_slice else RErr UnknownItem.

Definition to_enum (slice : bytes) : res MolError bytes :=
  inner ← sub slice NUMBER_SIZE (len slice);
  item_id ← number_at slice 0;
  if item_id =? 0 then ROk inner else RPanic.

Definition PublicKey_write (inner : bytes) : bytes := pack_number 0 ++ inner.

End Molecule.
