(* ===== verification/MoleculeProofs.v ===== *)
(** * Tables and vectors read back what was written, and hostile bytes cause no panic

    [tbl slice fs] says what a slice that passes the header checks holds: the fields [fs], one
    after the other behind the header. Builders produce such slices, verification establishes
    it for any bytes, and the accessors are characterised on them. *)

From Stdlib Require Import ZArith Lia Bool.
From stdpp Require Import base list.
From S2P Require Import Prelude Molecule.

Open Scope Z_scope.

#[local] Arguments len : simpl never.
#[local] Arguments sub : simpl never.
#[local] Arguments number_at : simpl never.

Lemma sub_ok l a b : 0 <= a <= b → b <= len l →
  sub l a b = ROk (take (Z.to_nat (b - a)) (drop (Z.to_nat a) l)).
Proof. intros. unfold sub. by rewrite bool_decide_eq_true_2. Qed.

Lemma sub_from l a : 0 <= a <= len l → sub l a (len l) = ROk (drop (Z.to_nat a) l).
Proof.
  intros. rewrite sub_ok by lia. rewrite take_ge; [done|]. rewrite length_drop. unfold len in *. lia.
Qed.

Lemma sub_app a b c : sub (a ++ b ++ c) (len a) (len a + len b) = ROk b.
Proof.
  pose proof (len_nonneg a). pose proof (len_nonneg b). pose proof (len_nonneg c).
  rewrite sub_ok by (rewrite ?len_app; lia).
  replace (len a + len b - len a) with (len b) by lia.
  unfold len. by rewrite !Nat2Z.id, drop_app_length, take_app_length.
Qed.

Section Molecule.
Context `{ML : MolNumberLaws}.

Lemma number_at_ok l k : 0 <= k → k + 4 <= len l →
  number_at l k = ROk (unpack_number (drop (Z.to_nat k) l)).
Proof.
  intros. unfold number_at. rewrite sub_from by lia. cbn.
  replace (len _ <? NUMBER_SIZE) with false; [done|].
  rewrite len_drop by lia. unfold NUMBER_SIZE. lia.
Qed.

Lemma number_at_app a n b k :
  is_u32 n → k = len a → number_at (a ++ pack_number n ++ b) k = ROk n.
Proof.
  intros Hn ->. pose proof (len_nonneg a). pose proof (len_nonneg b).
  assert (len (pack_number n) = 4) by (unfold len; by rewrite pack_length).
  rewrite number_at_ok by (rewrite ?len_app; lia).
  unfold len. by rewrite Nat2Z.id, drop_app_length, unpack_pack.
Qed.

(** ** The offsets *)

Lemma offsets_from_length s fs : length (offsets_from s fs) = length fs.
Proof. revert s. induction fs; intros; cbn; auto. Qed.

Lemma offsets_from_lookup s fs i :
  (i < length fs)%nat → offsets_from s fs !! i = Some (s + len (concat (take i fs))).
Proof.
  revert s i. induction fs as [|f fs IH]; intros s [|i] Hi; cbn in *; try lia.
  - change (len []) with 0. f_equal. lia.
  - rewrite IH by lia. rewrite len_app. f_equal. lia.
Qed.

Definition header_len (fs : list bytes) : Z := NUMBER_SIZE * (1 + len fs).

(** Where field [i] starts; for [i] the number of fields, the end of the slice. *)
Definition off (fs : list bytes) (i : nat) : Z := header_len fs + len (concat (take i fs)).

Definition tbl (slice : bytes) (fs : list bytes) : Prop :=
  fs ≠ [] ∧ len slice = header_len fs + len (concat fs) ∧
  drop (Z.to_nat (header_len fs)) slice = concat fs ∧
  unpack_number slice = len slice ∧
  ∀ i, (i < length fs)%nat → number_at slice (NUMBER_SIZE * (1 + Z.of_nat i)) = ROk (off fs i).

Lemma concat_take_S (fs : list bytes) i f :
  fs !! i = Some f → concat (take (S i) fs) = concat (take i fs) ++ f.
Proof. intros H. rewrite (take_S_r _ _ f) by done. rewrite concat_app. cbn. by rewrite app_nil_r. Qed.

Lemma concat_split (fs : list bytes) i : concat fs = concat (take i fs) ++ concat (drop i fs).
Proof. by rewrite <- concat_app, take_drop. Qed.

Lemma off_le slice fs i : tbl slice fs → header_len fs <= off fs i <= len slice.
Proof.
  intros (_ & Hl & _). rewrite Hl, (concat_split fs i), len_app. unfold off.
  pose proof (len_nonneg (concat (take i fs))).
  pose proof (len_nonneg (concat (drop i fs))). lia.
Qed.

Lemma off_last slice fs : tbl slice fs → off fs (length fs) = len slice.
Proof. intros (_ & Hl & _). unfold off. by rewrite take_ge by lia. Qed.

Lemma off_step fs i f : fs !! i = Some f → off fs (S i) = off fs i + len f.
Proof. intros H. unfold off. rewrite (concat_take_S _ _ f H), len_app. lia. Qed.

Lemma tbl_sub slice fs i f :
  tbl slice fs → fs !! i = Some f → sub slice (off fs i) (off fs (S i)) = ROk f.
Proof.
  intros Ht Hf. pose proof (off_le slice fs i Ht) as H1. pose proof (off_le slice fs (S i) Ht) as H2.
  pose proof (off_step _ _ _ Hf) as Hs. pose proof (len_nonneg f).
  assert (0 <= header_len fs) by (unfold header_len, NUMBER_SIZE; pose proof (len_nonneg fs); lia).
  rewrite sub_ok by lia. f_equal.
  replace (Z.to_nat (off fs i)) with (Z.to_nat (header_len fs) + length (concat (take i fs)))%nat
    by (unfold off, len; lia).
  rewrite <- drop_drop. destruct Ht as (_ & _ & -> & _).
  rewrite (concat_split fs i) at 1. rewrite drop_app_length.
  rewrite (drop_S _ f) by done. cbn [concat].
  replace (Z.to_nat _) with (length f) by (unfold len in *; lia). apply take_app_length.
Qed.

Lemma header_ge fs : fs ≠ [] → 8 <= header_len fs.
Proof.
  destruct fs; [done|]. intros _. unfold header_len, NUMBER_SIZE. rewrite len_cons.
  pose proof (len_nonneg fs). lia.
Qed.

Lemma tbl_first slice fs : tbl slice fs → number_at slice NUMBER_SIZE = ROk (header_len fs).
Proof.
  intros (Hn & _ & _ & _ & Ho). destruct fs as [|f fs]; [done|].
  change NUMBER_SIZE with (NUMBER_SIZE * (1 + Z.of_nat 0)).
  rewrite Ho by (cbn; lia). unfold off. cbn [take concat]. change (len []) with 0. f_equal; lia.
Qed.

Lemma tbl_field_count slice fs : tbl slice fs → field_count slice = ROk (len fs).
Proof.
  intros Ht. pose proof (tbl_first _ _ Ht) as Hf. destruct Ht as (Hn & Hl & _ & Hu & _).
  pose proof (header_ge _ Hn). pose proof (len_nonneg (concat fs)).
  unfold field_count. rewrite (number_at_ok slice 0) by lia. cbn. rewrite drop_0, Hu.
  replace (_ =? NUMBER_SIZE) with false by (unfold NUMBER_SIZE; lia). rewrite Hf. cbn.
  unfold header_len, NUMBER_SIZE. rewrite Z.mul_comm, Z.div_mul by lia.
  rewrite checked_sub_ok by (pose proof (len_nonneg fs); lia). f_equal. lia.
Qed.

(** ** The builders *)

Lemma packed_len os : len (concat (map (λ o, pack_number (cast 32 o)) os)) = NUMBER_SIZE * len os.
Proof.
  induction os as [|o os IH]; [done|]. cbn [map concat]. rewrite len_app, IH, len_cons.
  replace (len (pack_number _)) with 4 by (unfold len; by rewrite pack_length).
  unfold NUMBER_SIZE. lia.
Qed.

Lemma write_tbl fs :
  fs ≠ [] → header_len fs + len (concat fs) < 2 ^ 32 → tbl (table_write fs) fs.
Proof.
  intros Hn Hb. pose proof (header_ge _ Hn).
  unfold table_write.
  replace (NUMBER_SIZE * (len fs + 1)) with (header_len fs) by (unfold header_len; lia).
  set (os := offsets_from (header_len fs) fs). set (hd := concat (map _ os)).
  assert (len hd = NUMBER_SIZE * len fs) as Hh.
  { unfold hd. rewrite packed_len. unfold os, len. by rewrite offsets_from_length. }
  pose proof (len_nonneg (concat fs)) as Hp.
  rewrite cast_id by (unfold in_width; lia).
  assert (len (pack_number (header_len fs + len (concat fs))) = 4)
    by (unfold len; by rewrite pack_length).
  assert (len (pack_number (header_len fs + len (concat fs)) ++ hd ++ concat fs)
    = header_len fs + len (concat fs)) as Hl.
  { rewrite !len_app. unfold header_len, NUMBER_SIZE in *. lia. }
  split_and!; [done|done| | |].
  - rewrite app_assoc. apply drop_app_length'. unfold header_len, NUMBER_SIZE, len in *.
    rewrite length_app. lia.
  - rewrite Hl. apply unpack_pack. unfold in_width; lia.
  - intros i Hi. pose proof (offsets_from_lookup (header_len fs) fs i Hi) as Ho. fold os (off fs i) in Ho.
    pose proof (take_drop_middle _ _ _ Ho) as Hs.
    assert (off fs i <= header_len fs + len (concat fs)).
    { unfold off. rewrite (concat_split fs i), len_app.
      pose proof (len_nonneg (concat (drop i fs))). lia. }
    assert (0 <= off fs i) by (unfold off; pose proof (len_nonneg (concat (take i fs))); lia).
    unfold hd. rewrite <- Hs, map_app, concat_app. cbn [map concat].
    rewrite cast_id by (unfold in_width; lia). rewrite <- !app_assoc, app_assoc.
    apply number_at_app; [unfold in_width; lia|]. rewrite len_app, packed_len.
    assert (len (take i os) = Z.of_nat i) as ->.
    { unfold len, os. rewrite length_take, offsets_from_length. lia. }
    unfold NUMBER_SIZE. lia.
Qed.

(** ** The accessors *)

Lemma tbl_field slice fs z i f count :
  tbl slice fs → fs !! i = Some f → z = Z.of_nat i → z < count <= len fs →
  table_field count z slice = ROk f.
Proof.
  intros Ht Hf -> Hc. pose proof (lookup_lt_Some _ _ _ Hf) as Hi. unfold table_field.
  assert (number_at slice (NUMBER_SIZE * (1 + Z.of_nat i)) = ROk (off fs i)) as ->
    by (destruct Ht as (_ & _ & _ & _ & Ho); by apply Ho).
  assert (Z.of_nat i + 1 < len fs →
    number_at slice (NUMBER_SIZE * (2 + Z.of_nat i)) = ROk (off fs (S i))) as Hnext.
  { intros Hlt. destruct Ht as (_ & _ & _ & _ & Ho). rewrite <- Ho by (unfold len in Hlt; lia).
    f_equal. lia. }
  cbn. destruct (Z.ltb_spec (Z.of_nat i) (count - 1)).
  - rewrite Hnext by lia. cbn. by apply tbl_sub.
  - rewrite (tbl_field_count _ _ Ht). cbn. destruct (Z.eqb_spec count (len fs)); cbn.
    + rewrite <- (off_last _ _ Ht). replace (length fs) with (S i) by (unfold len in *; lia).
      by apply tbl_sub.
    + rewrite Hnext by lia. cbn. by apply tbl_sub.
Qed.

Lemma tbl_get slice fs i f :
  tbl slice fs → fs !! i = Some f → get_unchecked (Z.of_nat i) slice = ROk f.
Proof.
  intros Ht Hf. pose proof (lookup_lt_Some _ _ _ Hf) as Hi. unfold get_unchecked.
  assert (number_at slice (NUMBER_SIZE * (1 + Z.of_nat i)) = ROk (off fs i)) as ->
    by (destruct Ht as (_ & _ & _ & _ & Ho); by apply Ho).
  cbn. rewrite (tbl_field_count _ _ Ht). cbn. destruct (Z.eqb_spec (Z.of_nat i) (len fs - 1)).
  - rewrite <- (off_last _ _ Ht). replace (length fs) with (S i) by (unfold len in *; lia).
    by apply tbl_sub.
  - replace (NUMBER_SIZE * (1 + Z.of_nat i) + NUMBER_SIZE) with (NUMBER_SIZE * (1 + Z.of_nat (S i)))
      by (unfold NUMBER_SIZE; lia).
    assert (number_at slice (NUMBER_SIZE * (1 + Z.of_nat (S i))) = ROk (off fs (S i))) as ->
      by (destruct Ht as (_ & _ & _ & _ & Ho); apply Ho; unfold len in *; lia).
    by apply tbl_sub.
Qed.

(** ** Verification *)

(** The verification of the fields, field by field. *)
Fixpoint check_all (fields : list (bytes → res MolError unit)) (fs : list bytes) : res MolError unit :=
  match fields, fs with
  | [], _ => ROk tt
  | v :: fields, f :: fs => _ ← v f; check_all fields fs
  | _ :: _, [] => RPanic
  end.

Definition off_list (slice : bytes) (fs : list bytes) : list Z :=
  offsets_from (header_len fs) fs ++ [len slice].

Lemma off_list_lookup slice fs i :
  tbl slice fs → (i <= length fs)%nat → off_list slice fs !! i = Some (off fs i).
Proof.
  intros Ht Hi. unfold off_list. destruct (decide (i < length fs)%nat).
  - rewrite lookup_app_l by (by rewrite offsets_from_length). by apply offsets_from_lookup.
  - replace i with (length (offsets_from (header_len fs) fs)) by (rewrite offsets_from_length; lia).
    rewrite list_lookup_middle by done. rewrite offsets_from_length. by rewrite (off_last slice).
Qed.

Lemma verify_fields_tbl slice fs fields k :
  tbl slice fs → (length fields + k <= length fs)%nat →
  verify_fields fields (drop k (off_list slice fs)) slice = check_all fields (drop k fs).
Proof.
  intros Ht. revert k. induction fields as [|v fields IH]; intros k Hk; [done|].
  cbn [length] in Hk. destruct (lookup_lt_is_Some_2 fs k ltac:(lia)) as [f Hf].
  pose proof (off_list_lookup slice fs k Ht ltac:(lia)) as H1.
  pose proof (off_list_lookup slice fs (S k) Ht ltac:(lia)) as H2.
  rewrite (drop_S _ _ _ H1), (drop_S _ _ _ Hf). cbn [verify_fields check_all].
  rewrite (drop_S _ _ _ H2). rewrite (tbl_sub _ _ _ _ Ht Hf). cbn.
  destruct (v f); cbn; [|done..]. rewrite <- (drop_S _ _ _ H2). apply IH. lia.
Qed.

Lemma numbers_length n l : length (numbers n l) = n.
Proof. revert l. induction n; intros; cbn; auto. Qed.

Lemma numbers_lookup n l i :
  (i < n)%nat → numbers n l !! i = Some (unpack_number (drop (4 * i) l)).
Proof.
  revert l i. induction n as [|n IH]; intros l [|i] Hi; cbn [numbers lookup list_lookup]; try lia.
  - rewrite unpack_first. by rewrite drop_0.
  - rewrite IH by lia. rewrite drop_drop. do 3 f_equal. lia.
Qed.

(** The pieces of the slice between consecutive offsets. *)
Fixpoint pieces (os : list Z) (slice : bytes) : list bytes :=
  match os with
  | a :: ((b :: _) as rest) => take (Z.to_nat (b - a)) (drop (Z.to_nat a) slice) :: pieces rest slice
  | _ => []
  end.

Lemma pieces_spec os slice a :
  0 <= a → descends (a :: os ++ [len slice]) = false →
  a <= len slice ∧ length (pieces (a :: os ++ [len slice]) slice) = S (length os) ∧
  concat (pieces (a :: os ++ [len slice]) slice) = drop (Z.to_nat a) slice ∧
  offsets_from a (pieces (a :: os ++ [len slice]) slice) = a :: os.
Proof.
  revert a. induction os as [|b os IH]; intros a Ha Hd.
  - cbn in Hd |- *. apply orb_false_iff in Hd as [Hd _]. rewrite app_nil_r.
    split_and!; [lia|done| |done].
    apply take_ge. rewrite length_drop. unfold len in *. lia.
  - cbn [app] in Hd |- *. cbn [descends] in Hd. apply orb_false_iff in Hd as [Hab Hd].
    destruct (IH b ltac:(lia) Hd) as (I1 & I2 & I3 & I4).
    change (pieces (a :: b :: os ++ [len slice]) slice) with
      (take (Z.to_nat (b - a)) (drop (Z.to_nat a) slice) :: pieces (b :: os ++ [len slice]) slice).
    cbn [length concat offsets_from]. rewrite I3.
    split_and!; [lia|by rewrite I2| |].
    + replace (drop (Z.to_nat b) slice) with (drop (Z.to_nat (b - a)) (drop (Z.to_nat a) slice))
        by (rewrite drop_drop; f_equal; lia).
      apply take_drop.
    + replace (a + len _) with b; [by rewrite I4|].
      rewrite len_take; [lia|]. rewrite len_drop by lia. lia.
Qed.

Lemma header_numbers slice first k i :
  first = 4 * (1 + Z.of_nat k) → first <= len slice → (i < k)%nat →
  ∃ h, sub slice NUMBER_SIZE first = ROk h ∧ (length h / 4)%nat = k ∧
    numbers k h !! i = Some (unpack_number (drop (4 * (1 + i)) slice)).
Proof.
  intros Hf Hl Hi. unfold NUMBER_SIZE. eexists. split; [apply sub_ok; lia|]. split.
  - rewrite length_take, length_drop. unfold len in Hl.
    replace (_ `min` _)%nat with (k * 4)%nat by lia. by rewrite Nat.div_mul.
  - rewrite numbers_lookup by lia. f_equal. rewrite skipn_firstn_comm.
    rewrite <- unpack_first, take_take, <- (unpack_first (drop _ slice)), drop_drop.
    do 2 f_equal; [|f_equal]; lia.
Qed.

Lemma read_offsets_cases slice first :
  number_at slice NUMBER_SIZE = ROk first → first mod NUMBER_SIZE = 0 → 8 <= first <= len slice →
  unpack_number slice = len slice →
  (∃ e, read_offsets slice first (len slice) = RErr e) ∨
  ∃ fs, tbl slice fs ∧ header_len fs = first ∧
    read_offsets slice first (len slice) = ROk (off_list slice fs).
Proof.
  intros Hn Hm Hb Hu. unfold NUMBER_SIZE in Hm.
  rewrite number_at_ok in Hn by (unfold NUMBER_SIZE; lia). injection Hn as Hn.
  assert (∃ k, first = 4 * (1 + Z.of_nat (S k))) as [k Hk].
  { exists (Z.to_nat (first / 4 - 2)). pose proof (Z.div_mod first 4). lia. }
  pose proof (λ i, header_numbers slice first (S k) i Hk ltac:(lia)) as Hh.
  destruct (Hh 0%nat ltac:(lia)) as (h & Hs & Hc & _).
  assert (∀ i, (i < S k)%nat →
    numbers (S k) h !! i = Some (unpack_number (drop (4 * (1 + i)) slice))) as Hnum.
  { intros i Hi. destruct (Hh i Hi) as (h' & Hs' & _ & ?). by rewrite Hs in Hs'; injection Hs' as <-. }
  clear Hh. unfold read_offsets. rewrite Hs. cbn [mbind res_bind]. rewrite Hc.
  pose proof (numbers_length (S k) h) as Hlen. pose proof (Hnum 0%nat ltac:(lia)) as H0.
  destruct (numbers (S k) h) as [|a os]; [done|]. cbn in H0. injection H0 as H0.
  assert (a = first) as -> by (rewrite H0, <- Hn; done).
  destruct (descends _) eqn:Hd; [left; by eexists|right]. cbn [app] in Hd.
  pose proof (pieces_spec os slice first ltac:(lia) Hd) as (P1 & P2 & P3 & P4).
  set (fs := pieces (first :: os ++ [len slice]) slice) in *. cbn [length] in Hlen.
  assert (header_len fs = first) as Hfs.
  { unfold header_len, NUMBER_SIZE, len. rewrite P2. lia. }
  exists fs. split_and!; [|done|by unfold off_list; rewrite Hfs, P4].
  split_and!.
  - intros E. by rewrite E in P2.
  - rewrite P3, len_drop, Hfs by lia. lia.
  - by rewrite Hfs.
  - done.
  - intros i Hi. rewrite number_at_ok by (unfold NUMBER_SIZE; rewrite ?P2 in Hi; lia). f_equal.
    specialize (Hnum i ltac:(lia)). pose proof (offsets_from_lookup first fs i Hi) as Ho.
    rewrite P4, Hnum in Ho. injection Ho as Ho. unfold off. rewrite Hfs, <- Ho. do 2 f_equal.
    unfold NUMBER_SIZE. lia.
Qed.

(** A table either fails verification in its header, or holds fields and is verified field by
    field. *)
Lemma table_verify_cases fields compatible slice :
  fields ≠ [] →
  (∃ e, table_verify fields compatible slice = RErr e) ∨
  ∃ fs, tbl slice fs ∧ len fields <= len fs ∧
    table_verify fields compatible slice = check_all fields fs.
Proof.
  intros Hne. unfold table_verify.
  destruct (Z.ltb_spec (len slice) NUMBER_SIZE) as [|H4]; [left; by eexists|].
  destruct (Z.eqb_spec (len slice) (unpack_number slice)) as [Hu|]; [cbn [negb]|left; by eexists].
  replace (len fields =? 0) with false.
  2:{ destruct fields; [done|]. rewrite len_cons. pose proof (len_nonneg fields). lia. }
  rewrite andb_false_r.
  destruct (Z.ltb_spec (len slice) (NUMBER_SIZE * 2)) as [|H8]; [left; by eexists|].
  destruct (number_at slice NUMBER_SIZE) as [first|e|] eqn:Hn;
    [cbn [mbind res_bind]|left; by eexists|
     rewrite number_at_ok in Hn by (unfold NUMBER_SIZE in *; lia); done].
  destruct (Z.eqb_spec (first mod NUMBER_SIZE) 0) as [Hm|]; [cbn [negb orb]|left; by eexists].
  destruct (Z.ltb_spec first (NUMBER_SIZE * 2)); [left; by eexists|].
  destruct (Z.ltb_spec (len slice) first); [left; by eexists|].
  destruct (Z.ltb_spec (first / NUMBER_SIZE - 1) (len fields)) as [|Hc]; [left; by eexists|].
  destruct (negb compatible && _); [left; by eexists|].
  rewrite <- Hu. destruct (read_offsets_cases slice first) as [[e ->]|(fs & Ht & Hh & ->)];
    [done..|unfold NUMBER_SIZE in *; lia|done|left; by eexists|right].
  exists fs. assert (len fields <= len fs).
  { rewrite <- Hh in Hc. unfold header_len, NUMBER_SIZE in Hc.
    rewrite Z.mul_comm, Z.div_mul in Hc; lia. }
  split_and!; [done..|]. apply (verify_fields_tbl slice fs fields 0 Ht).
  unfold len in *. lia.
Qed.

Lemma dynvec_verify_cases item slice :
  (∃ e, dynvec_verify item slice = RErr e) ∨
  (len slice = NUMBER_SIZE ∧ unpack_number slice = NUMBER_SIZE ∧ dynvec_verify item slice = ROk tt) ∨
  ∃ fs, tbl slice fs ∧ dynvec_verify item slice = check_all (replicate (length fs) item) fs.
Proof.
  unfold dynvec_verify.
  destruct (Z.ltb_spec (len slice) NUMBER_SIZE) as [|H4]; [left; by eexists|].
  destruct (Z.eqb_spec (len slice) (unpack_number slice)) as [Hu|]; [cbn [negb]|left; by eexists].
  destruct (Z.eqb_spec (len slice) NUMBER_SIZE); [right; left; split_and!; congruence|].
  destruct (Z.ltb_spec (len slice) (NUMBER_SIZE * 2)) as [|H8]; [left; by eexists|].
  destruct (number_at slice NUMBER_SIZE) as [first|e|] eqn:Hn;
    [cbn [mbind res_bind]|left; by eexists|
     rewrite number_at_ok in Hn by (unfold NUMBER_SIZE in *; lia); done].
  destruct (Z.eqb_spec (first mod NUMBER_SIZE) 0) as [Hm|]; [cbn [negb orb]|left; by eexists].
  destruct (Z.ltb_spec first (NUMBER_SIZE * 2)); [left; by eexists|].
  destruct (Z.ltb_spec (len slice) first); [left; by eexists|].
  rewrite <- Hu. destruct (read_offsets_cases slice first) as [[e ->]|(fs & Ht & Hh & ->)];
    [done..|unfold NUMBER_SIZE in *; lia|done|left; by eexists|right; right].
  exists fs. split; [done|]. cbn [mbind res_bind].
  replace (length (off_list slice fs) - 1)%nat with (length fs)
    by (unfold off_list; rewrite length_app, offsets_from_length; cbn; lia).
  apply (verify_fields_tbl slice fs _ 0 Ht). rewrite length_replicate. lia.
Qed.

(** ** Slices that hold fields are verified field by field *)

Lemma descends_cons a b l : descends (a :: b :: l) = (b <? a) || descends (b :: l).
Proof. done. Qed.

Lemma descends_offsets a fs : descends (offsets_from a fs ++ [a + len (concat fs)]) = false.
Proof.
  revert a. induction fs as [|f fs IH]; intros a; [done|]. cbn [offsets_from concat].
  specialize (IH (a + len f)). rewrite len_app, Z.add_assoc. pose proof (len_nonneg f).
  destruct fs as [|g fs].
  - cbn. change (len []) with 0. rewrite orb_false_r. lia.
  - cbn [offsets_from app] in IH |- *. rewrite descends_cons, IH, orb_false_r. lia.
Qed.

Lemma tbl_read_offsets slice fs :
  tbl slice fs → read_offsets slice (header_len fs) (len slice) = ROk (off_list slice fs).
Proof.
  intros Ht. destruct (Ht) as (Hne & Hl & _ & _ & Ho).
  assert (∃ k, length fs = S k) as [k Hk] by (destruct fs; [done|by eexists]).
  assert (header_len fs = 4 * (1 + Z.of_nat (S k))) as Hh
    by (unfold header_len, NUMBER_SIZE, len; rewrite Hk; done).
  pose proof (len_nonneg (concat fs)).
  pose proof (λ i, header_numbers slice _ (S k) i Hh ltac:(lia)) as Hn.
  destruct (Hn 0%nat ltac:(lia)) as (h & Hs & Hc & _).
  unfold read_offsets. rewrite Hs. cbn [mbind res_bind]. rewrite Hc.
  replace (numbers (S k) h) with (offsets_from (header_len fs) fs).
  - fold (off_list slice fs). unfold off_list at 1. by rewrite Hl, descends_offsets.
  - apply (list_eq_same_length _ _ (S k)); [by rewrite numbers_length|by rewrite offsets_from_length|].
    intros i x y Hi Hx Hy. destruct (Hn i Hi) as (h' & Hs' & _ & Hy').
    rewrite Hs in Hs'. injection Hs' as <-. rewrite Hy in Hy'. injection Hy' as ->.
    rewrite offsets_from_lookup in Hx by lia. injection Hx as <-.
    specialize (Ho i ltac:(lia)). rewrite number_at_ok in Ho by (unfold NUMBER_SIZE; lia).
    injection Ho as Ho. unfold off in Ho. rewrite <- Ho. do 2 f_equal. unfold NUMBER_SIZE. lia.
Qed.

Lemma tbl_header slice fs :
  tbl slice fs → 8 <= header_len fs <= len slice ∧ header_len fs mod NUMBER_SIZE = 0.
Proof.
  intros (Hne & Hl & _). pose proof (header_ge _ Hne). pose proof (len_nonneg (concat fs)).
  split; [lia|]. unfold header_len. rewrite Z.mul_comm. by apply Z.mod_mul.
Qed.

Lemma tbl_table_verify slice fs fields :
  tbl slice fs → len fields <= len fs → table_verify fields true slice = check_all fields fs.
Proof.
  intros Ht Hf. destruct (tbl_header _ _ Ht) as [Hh Hm]. pose proof (tbl_first _ _ Ht) as Hn.
  unfold table_verify. assert (unpack_number slice = len slice) as -> by apply Ht.
  replace (len slice <? NUMBER_SIZE) with false by (unfold NUMBER_SIZE; lia).
  replace (len slice <? NUMBER_SIZE * 2) with false by (unfold NUMBER_SIZE; lia).
  rewrite Z.eqb_refl. cbn [negb]. replace (len slice =? NUMBER_SIZE) with false by (unfold NUMBER_SIZE; lia).
  cbn [andb]. rewrite Hn. cbn [mbind res_bind]. rewrite Hm. cbn [Z.eqb negb orb].
  replace (header_len fs <? NUMBER_SIZE * 2) with false by (unfold NUMBER_SIZE; lia).
  replace (len slice <? header_len fs) with false by lia.
  replace (header_len fs / NUMBER_SIZE - 1 <? len fields) with false.
  2:{ unfold header_len. rewrite Z.mul_comm, Z.div_mul by done. lia. }
  rewrite (tbl_read_offsets _ _ Ht). cbn. apply (verify_fields_tbl slice fs fields 0 Ht).
  unfold len in *. lia.
Qed.

Lemma tbl_dynvec_verify slice fs item :
  tbl slice fs → dynvec_verify item slice = check_all (replicate (length fs) item) fs.
Proof.
  intros Ht. destruct (tbl_header _ _ Ht) as [Hh Hm]. pose proof (tbl_first _ _ Ht) as Hn.
  unfold dynvec_verify. assert (unpack_number slice = len slice) as -> by apply Ht.
  replace (len slice <? NUMBER_SIZE) with false by (unfold NUMBER_SIZE; lia).
  replace (len slice <? NUMBER_SIZE * 2) with false by (unfold NUMBER_SIZE; lia).
  rewrite Z.eqb_refl. cbn [negb]. replace (len slice =? NUMBER_SIZE) with false by (unfold NUMBER_SIZE; lia).
  rewrite Hn. cbn [mbind res_bind]. rewrite Hm. cbn [Z.eqb negb orb].
  replace (header_len fs <? NUMBER_SIZE * 2) with false by (unfold NUMBER_SIZE; lia).
  replace (len slice <? header_len fs) with false by lia.
  rewrite (tbl_read_offsets _ _ Ht). cbn [mbind res_bind].
  replace (length (off_list slice fs) - 1)%nat with (length fs)
    by (unfold off_list; rewrite length_app, offsets_from_length; cbn; lia).
  apply (verify_fields_tbl slice fs _ 0 Ht). rewrite length_replicate. lia.
Qed.

(** ** Byte vectors *)

Lemma fixvec_written b : is_u32 (len b) →
  fixvec_verify (fixvec_write b) = ROk tt ∧ raw_data (fixvec_write b) = ROk b.
Proof.
  intros Hb. unfold fixvec_write. rewrite cast_id by done.
  assert (len (pack_number (len b)) = 4) as Hp by (unfold len at 1; by rewrite pack_length).
  pose proof (len_nonneg b). split.
  - unfold fixvec_verify. rewrite len_app, unpack_pack, Hp by done. unfold NUMBER_SIZE.
    replace (_ <? 4) with false by lia. destruct (Z.eqb_spec (len b) 0) as [->|]; [done|].
    by replace (4 + len b =? 4 + 1 * len b) with true by lia.
  - unfold raw_data. rewrite sub_from by (rewrite len_app; unfold NUMBER_SIZE; lia).
    f_equal. apply drop_app_length'. by rewrite pack_length.
Qed.

Lemma fixvec_never_panics s : fixvec_verify s ≠ RPanic.
Proof. unfold fixvec_verify. by repeat case_match. Qed.

Lemma fixvec_raw s : fixvec_verify s = ROk tt → ∃ b, raw_data s = ROk b.
Proof.
  unfold fixvec_verify. destruct (Z.ltb_spec (len s) NUMBER_SIZE); [done|]. intros _.
  eexists. apply sub_from. unfold NUMBER_SIZE in *. lia.
Qed.

(** ** Iteration over a vector of byte vectors *)

Lemma check_all_forall item fs k :
  check_all (replicate k item) fs = ROk tt → (length fs <= k)%nat → ∀ f, f ∈ fs → item f = ROk tt.
Proof.
  revert k. induction fs as [|g fs IH]; intros k Hc Hk f Hf; [by apply elem_of_nil in Hf|].
  destruct k as [|k]; cbn in *; [lia|]. destruct (item g) as [[]| |] eqn:E; [|done..].
  apply elem_of_cons in Hf as [->|Hf]; [done|]. eapply IH; [done|lia|done].
Qed.

Lemma check_all_safe fields fs :
  (length fields <= length fs)%nat → (∀ v s, v ∈ fields → v s ≠ RPanic) → check_all fields fs ≠ RPanic.
Proof.
  revert fs. induction fields as [|v fields IH]; intros [|f fs] Hl Hv; cbn in *; [done|done|lia|].
  destruct (v f) as [[]| |] eqn:E; [|done|].
  - apply IH; [lia|]. intros w s Hw. apply Hv. by apply elem_of_cons; right.
  - exfalso. apply (Hv v f); [by apply elem_of_cons; left|done].
Qed.

Lemma tbl_items slice fs raws n k :
  tbl slice fs → (k + n = length fs)%nat → mapM raw_data (drop k fs) = ROk raws →
  dynvec_items (Z.of_nat k) n slice = ROk raws.
Proof.
  intros Ht. revert k raws. induction n as [|n IH]; intros k raws Hn Hr.
  - rewrite drop_ge in Hr by lia. exact Hr.
  - destruct (lookup_lt_is_Some_2 fs k ltac:(lia)) as [f Hf].
    rewrite (drop_S _ _ _ Hf) in Hr. cbn [dynvec_items]. rewrite (tbl_get _ _ _ _ Ht Hf).
    cbn in Hr |- *. destruct (raw_data f) as [b| |]; cbn in *; [|done..].
    destruct (mapM raw_data (drop (S k) fs)) as [bs| |] eqn:E; cbn in Hr; [|done..].
    replace (Z.of_nat k + 1) with (Z.of_nat (S k)) by lia. by rewrite (IH (S k) bs ltac:(lia) E).
Qed.

End Molecule.
