(* ===== verification/Messages.v ===== *)
(** * Messages of the handshake and of the protocol selection

    [Propose], [Exchange] and [PublicKey] ([secio/src/handshake/handshake_struct.rs]) and
    [ProtocolInfo] ([tentacle/src/protocol_select/mod.rs]) with their molecule encodings.
    Decoding gives [ROk None] where the code returns [None]. *)

From Stdlib Require Import ZArith Lia Bool.
From Stdlib Require Import Strings.String.
From stdpp Require Import base list.
From S2P Require Import Prelude Text Molecule MoleculeProofs.

Open Scope Z_scope.

Record Propose := mkPropose {
  pr_rand : bytes; pr_pubkey : bytes; pr_exchange : bytes; pr_ciphers : bytes; pr_hashes : bytes }.

Record Exchange := mkExchange { ex_epubkey : bytes; ex_signature : bytes }.

Inductive PublicKey := Secp256k1 (key : bytes).

Definition inner (k : PublicKey) : bytes := match k with Secp256k1 b => b end.

Record ProtocolInfo := mkProtocolInfo { pi_name : bytes; pi_support_versions : list bytes }.

#[export] Instance PublicKey_eq_dec : EqDecision PublicKey.
Proof. solve_decision. Defined.

(** [from_compatible_slice(data).ok()?]: a slice that does not verify ends in [None]. *)
Definition verified {A} (v : res MolError unit) (k : res MolError (option A)) : res MolError (option A) :=
  match v with
  | ROk _ => k
  | RErr _ => ROk None
  | RPanic => RPanic
  end.

(** [String::from_utf8(data).ok()?] *)
Definition utf8_or_none {A} (data : bytes) (k : res MolError (option A)) : res MolError (option A) :=
  if utf8_ok data then k else ROk None.

Section Messages.
Context `{MN : MolNumber}.

Definition field_raw (count i : Z) (data : bytes) : res MolError bytes :=
  f ← table_field count i data; raw_data f.

Definition Propose_encode (p : Propose) : bytes :=
  table_write (map fixvec_write [pr_rand p; pr_pubkey p; pr_exchange p; pr_ciphers p; pr_hashes p]).

Definition Propose_decode (data : bytes) : res MolError (option Propose) :=
  verified (table_verify (replicate 5 fixvec_verify) true data) (
    rand ← field_raw 5 0 data;
    pubkey ← field_raw 5 1 data;
    exchange ← field_raw 5 2 data;
    utf8_or_none exchange (
      ciphers ← field_raw 5 3 data;
      utf8_or_none ciphers (
        hashes ← field_raw 5 4 data;
        utf8_or_none hashes (ROk (Some (mkPropose rand pubkey exchange ciphers hashes)))))).

Definition Exchange_encode (e : Exchange) : bytes :=
  table_write (map fixvec_write [ex_epubkey e; ex_signature e]).

Definition Exchange_decode (data : bytes) : res MolError (option Exchange) :=
  verified (table_verify (replicate 2 fixvec_verify) true data) (
    epubkey ← field_raw 2 0 data;
    signature ← field_raw 2 1 data;
    ROk (Some (mkExchange epubkey signature))).

Definition PublicKey_encode (k : PublicKey) : bytes := PublicKey_write (fixvec_write (inner k)).

Definition PublicKey_decode (data : bytes) : res MolError (option PublicKey) :=
  verified (PublicKey_verify data) (
    reader ← to_enum data; key ← raw_data reader; ROk (Some (Secp256k1 key))).

Definition ProtocolInfo_encode (p : ProtocolInfo) : bytes :=
  table_write [fixvec_write (pi_name p); dynvec_write (map fixvec_write (pi_support_versions p))].

Definition ProtocolInfo_decode (data : bytes) : res MolError (option ProtocolInfo) :=
  verified (table_verify [fixvec_verify; dynvec_verify fixvec_verify] true data) (
    versions ← table_field 2 1 data;
    supports ← dynvec_iter versions;
    if forallb utf8_ok supports then
      name ← field_raw 2 0 data;
      utf8_or_none name (ROk (Some (mkProtocolInfo name supports)))
    else ROk None).

End Messages.

(** Messages whose strings are strings and whose encoding is within 4 GiB. *)
Definition Propose_wf (p : Propose) : Prop :=
  utf8_ok (pr_exchange p) = true ∧ utf8_ok (pr_ciphers p) = true ∧ utf8_ok (pr_hashes p) = true ∧
  44 + len (pr_rand p) + len (pr_pubkey p) + len (pr_exchange p) + len (pr_ciphers p)
  + len (pr_hashes p) < 2 ^ 32.

Definition Exchange_wf (e : Exchange) : Prop := 20 + len (ex_epubkey e) + len (ex_signature e) < 2 ^ 32.

Definition PublicKey_wf (k : PublicKey) : Prop := is_u32 (len (inner k)).

Definition ProtocolInfo_wf (p : ProtocolInfo) : Prop :=
  utf8_ok (pi_name p) = true ∧ Forall (λ v, utf8_ok v = true) (pi_support_versions p) ∧
  20 + len (pi_name p) + 8 * len (pi_support_versions p) + len (concat (pi_support_versions p)) < 2 ^ 32.

Lemma check_prefix item n fs i f :
  check_all (replicate n item) fs = ROk tt → fs !! i = Some f → (i < n)%nat → item f = ROk tt.
Proof.
  revert n i. induction fs as [|g fs IH]; intros n i Hc Hf Hi; [done|].
  destruct n as [|n]; [lia|]. cbn in Hc. destruct (item g) as [[]| |] eqn:E; [|done..].
  destruct i as [|i]; [by injection Hf as <-|]. eapply (IH n i); [done..|lia].
Qed.

(** ** Encoding and decoding *)

Section Proofs.
Context `{ML : MolNumberLaws}.

#[local] Arguments len : simpl never.
#[local] Arguments raw_data : simpl never.
#[local] Arguments fixvec_verify : simpl never.
#[local] Arguments dynvec_verify : simpl never.
#[local] Arguments fixvec_write : simpl never.
#[local] Arguments table_field : simpl never.

Lemma fixvec_write_len b : len (fixvec_write b) = 4 + len b.
Proof. unfold fixvec_write. rewrite len_app. unfold len at 1. by rewrite pack_length. Qed.

Lemma concat_fixvec_len bs : len (concat (map fixvec_write bs)) = 4 * len bs + len (concat bs).
Proof.
  induction bs as [|b bs IH]; [done|]. cbn [map concat]. rewrite !len_app, IH, fixvec_write_len, len_cons.
  lia.
Qed.

Lemma check_fixvecs bs : Forall (λ b, is_u32 (len b)) bs →
  check_all (replicate (length bs) fixvec_verify) (map fixvec_write bs) = ROk tt.
Proof.
  induction 1 as [|b bs Hb Hbs IH]; [done|]. cbn.
  by destruct (fixvec_written b Hb) as [-> _].
Qed.

Lemma map_not_nil {A B} (f : A → B) (l : list A) : l ≠ [] → map f l ≠ [].
Proof. by destruct l. Qed.

(** A table of byte vectors, as [Propose] and [Exchange] are. *)
Lemma byte_table_tbl bs : bs ≠ [] → 4 + 8 * len bs + len (concat bs) < 2 ^ 32 →
  tbl (table_write (map fixvec_write bs)) (map fixvec_write bs) ∧ Forall (λ b, is_u32 (len b)) bs.
Proof.
  intros Hn Hb. split.
  - apply write_tbl; [by apply map_not_nil|]. rewrite concat_fixvec_len.
    unfold header_len, NUMBER_SIZE. unfold len at 1. rewrite length_map. fold (len bs). lia.
  - apply Forall_forall. intros b Hin. apply list_elem_of_lookup in Hin as [i Hi].
    rewrite <- (take_drop_middle _ _ _ Hi), concat_app, len_app in Hb. cbn [concat] in Hb.
    rewrite len_app in Hb. pose proof (len_nonneg (concat (take i bs))).
    pose proof (len_nonneg (concat (drop (S i) bs))). pose proof (len_nonneg b).
    rewrite len_app in Hb. unfold in_width.
    pose proof (len_nonneg (take i bs)). pose proof (len_nonneg (b :: drop (S i) bs)). lia.
Qed.

Lemma field_raw_tbl slice fs z i count b :
  tbl slice fs → fs !! i = Some (fixvec_write b) → is_u32 (len b) → z = Z.of_nat i →
  z < count <= len fs → field_raw count z slice = ROk b.
Proof.
  intros Ht Hi Hb Hz Hc. unfold field_raw. rewrite (tbl_field _ _ _ _ _ _ Ht Hi Hz Hc). cbn.
  by destruct (fixvec_written b Hb) as [_ ->].
Qed.

Lemma byte_field slice fs bs :
  tbl slice fs → Forall (λ b, is_u32 (len b)) bs → ∀ count i (n : nat) b,
  fs = map fixvec_write bs → i = Z.of_nat n → bs !! n = Some b → len bs = count →
  field_raw count i slice = ROk b.
Proof.
  intros Ht Hu count i n b -> -> Hb Hc. eapply field_raw_tbl; [done| | |done|].
  - by rewrite list_lookup_fmap, Hb.
  - rewrite Forall_lookup in Hu. by apply (Hu n).
  - apply lookup_lt_Some in Hb. unfold len in *. rewrite length_map. lia.
Qed.

Lemma Propose_roundtrip p : Propose_wf p → Propose_decode (Propose_encode p) = ROk (Some p).
Proof.
  destruct p as [a b c d e]. intros (Hc & Hd & He & Hl). cbn in *.
  unfold Propose_encode, Propose_decode. cbn [pr_rand pr_pubkey pr_exchange pr_ciphers pr_hashes].
  destruct (byte_table_tbl [a; b; c; d; e]) as [Ht Hu]; [done| |].
  { cbn [concat]. rewrite !len_app, !len_cons. change (@len byte []) with 0.
    change (@len bytes []) with 0. lia. }
  rewrite (tbl_table_verify _ _ _ Ht) by done.
  pose proof (check_fixvecs _ Hu) as Hcheck. cbn [length] in Hcheck. rewrite Hcheck. cbn [verified].
  rewrite !(byte_field _ _ _ Ht Hu 5 0 0 a), !(byte_field _ _ _ Ht Hu 5 1 1 b),
    !(byte_field _ _ _ Ht Hu 5 2 2 c), !(byte_field _ _ _ Ht Hu 5 3 3 d),
    !(byte_field _ _ _ Ht Hu 5 4 4 e) by done.
  cbn. unfold utf8_or_none. by rewrite Hc, Hd, He.
Qed.

Lemma Exchange_roundtrip e : Exchange_wf e → Exchange_decode (Exchange_encode e) = ROk (Some e).
Proof.
  destruct e as [a b]. unfold Exchange_wf. cbn. intros Hl.
  unfold Exchange_encode, Exchange_decode. cbn [ex_epubkey ex_signature].
  destruct (byte_table_tbl [a; b]) as [Ht Hu]; [done| |].
  { cbn [concat]. rewrite !len_app, !len_cons. change (@len byte []) with 0.
    change (@len bytes []) with 0. lia. }
  rewrite (tbl_table_verify _ _ _ Ht) by done.
  pose proof (check_fixvecs _ Hu) as Hcheck. cbn [length] in Hcheck. rewrite Hcheck. cbn [verified].
  by rewrite !(byte_field _ _ _ Ht Hu 2 0 0 a), !(byte_field _ _ _ Ht Hu 2 1 1 b).
Qed.

Lemma PublicKey_roundtrip k : PublicKey_wf k → PublicKey_decode (PublicKey_encode k) = ROk (Some k).
Proof.
  destruct k as [b]. unfold PublicKey_wf. cbn. intros Hb.
  destruct (fixvec_written b Hb) as [Hv Hr].
  unfold PublicKey_encode, PublicKey_decode, PublicKey_verify, PublicKey_write, to_enum. cbn [inner].
  assert (len (pack_number 0) = 4) as Hp by (unfold len; by rewrite pack_length).
  pose proof (len_nonneg (fixvec_write b)).
  rewrite (sub_from _ NUMBER_SIZE) by (rewrite len_app; unfold NUMBER_SIZE; lia).
  replace (drop (Z.to_nat NUMBER_SIZE) _) with (fixvec_write b)
    by (symmetry; apply drop_app_length'; by rewrite pack_length).
  pose proof (number_at_app [] 0 (fixvec_write b) 0 ltac:(done) eq_refl) as Hid.
  cbn [app] in Hid. rewrite Hid, unpack_pack by done. cbn.
  replace (_ <? NUMBER_SIZE) with false by (rewrite len_app; unfold NUMBER_SIZE; lia).
  rewrite Hv. cbn. by rewrite Hr.
Qed.

Lemma mapM_raw bs : Forall (λ b, is_u32 (len b)) bs → mapM raw_data (map fixvec_write bs) = ROk bs.
Proof.
  induction 1 as [|b bs Hb Hbs IH]; [done|]. cbn.
  destruct (fixvec_written b Hb) as [_ ->]. cbn. by rewrite IH.
Qed.

Lemma dynvec_written bs : 4 + 8 * len bs + len (concat bs) < 2 ^ 32 →
  dynvec_verify fixvec_verify (dynvec_write (map fixvec_write bs)) = ROk tt ∧
  dynvec_iter (dynvec_write (map fixvec_write bs)) = ROk bs ∧
  len (dynvec_write (map fixvec_write bs)) = 4 + 8 * len bs + len (concat bs).
Proof.
  intros Hb. destruct bs as [|b0 bs0].
  - cbn. assert (len (pack_number NUMBER_SIZE) = 4) as Hp by (unfold len; by rewrite pack_length).
    assert (unpack_number (pack_number NUMBER_SIZE) = 4) as Hu
      by (rewrite <- (app_nil_r (pack_number _)); by apply unpack_pack).
    split_and!; [| |done].
    + unfold dynvec_verify. by rewrite Hp, Hu.
    + unfold dynvec_iter, field_count. rewrite (number_at_ok _ 0) by lia. cbn. by rewrite drop_0, Hu.
  - set (bs := b0 :: bs0) in *.
    destruct (byte_table_tbl bs) as [Ht Hu]; [done..|].
    replace (dynvec_write (map fixvec_write bs)) with (table_write (map fixvec_write bs)) by done.
    split_and!.
    + rewrite (tbl_dynvec_verify _ _ _ Ht), length_map. by apply check_fixvecs.
    + unfold dynvec_iter. rewrite (tbl_field_count _ _ Ht). cbn [mbind res_bind].
      eapply (tbl_items _ _ _ _ 0 Ht); [unfold len; lia|]. by apply mapM_raw.
    + destruct Ht as (_ & -> & _). rewrite concat_fixvec_len. unfold header_len, NUMBER_SIZE.
      unfold len at 1. rewrite length_map. fold (len bs). lia.
Qed.

Lemma ProtocolInfo_roundtrip p :
  ProtocolInfo_wf p → ProtocolInfo_decode (ProtocolInfo_encode p) = ROk (Some p).
Proof.
  destruct p as [name vs]. intros (Hn & Hv & Hl). cbn in *.
  pose proof (len_nonneg name). pose proof (len_nonneg vs). pose proof (len_nonneg (concat vs)).
  destruct (dynvec_written vs ltac:(lia)) as (D1 & D2 & D3).
  assert (is_u32 (len name)) as Hname by (unfold in_width; lia).
  destruct (fixvec_written name Hname) as [F1 F2].
  unfold ProtocolInfo_encode, ProtocolInfo_decode. cbn [pi_name pi_support_versions].
  set (fs := [fixvec_write name; dynvec_write (map fixvec_write vs)]).
  assert (tbl (table_write fs) fs) as Ht.
  { apply write_tbl; [done|]. unfold fs. cbn [concat]. rewrite !len_app, fixvec_write_len, D3.
    change (header_len _) with 12. change (@len byte []) with 0. lia. }
  rewrite (tbl_table_verify _ _ _ Ht) by done. cbn [check_all fs]. rewrite F1. cbn [mbind res_bind].
  rewrite D1. cbn [mbind res_bind verified].
  rewrite (tbl_field _ _ 1 1 _ 2 Ht eq_refl) by done. cbn [mbind res_bind]. rewrite D2. cbn [mbind res_bind].
  assert (forallb utf8_ok vs = true) as ->.
  { apply forallb_forall. intros v Hin. rewrite Forall_forall in Hv. apply Hv. by apply list_elem_of_In. }
  rewrite (field_raw_tbl _ _ 0 0 2 name Ht eq_refl Hname) by done. cbn.
  unfold utf8_or_none. by rewrite Hn.
Qed.

(** ** Decoding any bytes *)

Lemma verified_total {A} v (k : res MolError (option A)) :
  v ≠ RPanic → (v = ROk tt → ∃ o, k = ROk o) → ∃ o, verified v k = ROk o.
Proof. destruct v as [[]|e|]; intros H1 H2; cbn; [auto|by eexists|done]. Qed.

(** The fields of a verified table of byte vectors can be read. *)
Lemma byte_table_fields n slice :
  let v := table_verify (replicate (S n) fixvec_verify) true slice in
  v ≠ RPanic ∧
  (v = ROk tt → ∀ i, 0 <= i < Z.of_nat (S n) → ∃ b, field_raw (Z.of_nat (S n)) i slice = ROk b).
Proof.
  intros v. destruct (table_verify_cases (replicate (S n) fixvec_verify) true slice)
    as [[e He]|(fs & Ht & Hl & He)]; [done|by subst v; rewrite He|].
  unfold len in Hl. rewrite length_replicate in Hl. subst v. rewrite He. split.
  - apply check_all_safe; [rewrite length_replicate; lia|]. intros w s Hw.
    apply elem_of_replicate in Hw as [-> _]. apply fixvec_never_panics.
  - intros Hc i Hi. destruct (lookup_lt_is_Some_2 fs (Z.to_nat i) ltac:(lia)) as [f Hf].
    unfold field_raw. rewrite (tbl_field _ _ i _ _ _ Ht Hf) by (unfold len; lia). apply fixvec_raw.
    eapply check_prefix; [exact Hc|done|lia].
Qed.

Lemma mapM_raw_total fs : (∀ f, f ∈ fs → fixvec_verify f = ROk tt) → ∃ bs, mapM raw_data fs = ROk bs.
Proof.
  induction fs as [|f fs IH]; intros Hf; [by eexists|].
  destruct (fixvec_raw f) as [b Hb]; [apply Hf; by apply elem_of_cons; left|].
  destruct IH as [bs Hbs]; [intros g Hg; apply Hf; by apply elem_of_cons; right|].
  exists (b :: bs). cbn. by rewrite Hb; cbn; rewrite Hbs.
Qed.

Lemma dynvec_total slice :
  dynvec_verify fixvec_verify slice ≠ RPanic ∧
  (dynvec_verify fixvec_verify slice = ROk tt → ∃ bs, dynvec_iter slice = ROk bs).
Proof.
  destruct (dynvec_verify_cases fixvec_verify slice) as [[e ->]|[(Hl & Hu & ->)|(fs & Ht & ->)]];
    [done| |].
  - split; [done|]. intros _. exists []. unfold dynvec_iter, field_count.
    rewrite (number_at_ok _ 0) by (rewrite ?Hl; unfold NUMBER_SIZE; lia). cbn. by rewrite drop_0, Hu.
  - split.
    + apply check_all_safe; [by rewrite length_replicate|]. intros v s Hv.
      apply elem_of_replicate in Hv as [-> _]. apply fixvec_never_panics.
    + intros Hc. destruct (mapM_raw_total fs) as [bs Hbs].
      { intros f Hf. by eapply check_all_forall. }
      exists bs. unfold dynvec_iter. rewrite (tbl_field_count _ _ Ht). cbn [mbind res_bind].
      eapply (tbl_items _ _ _ _ 0 Ht); [unfold len; lia|done].
Qed.

Lemma ProtocolInfo_decode_total data : ∃ o, ProtocolInfo_decode data = ROk o.
Proof.
  unfold ProtocolInfo_decode.
  destruct (table_verify_cases [fixvec_verify; dynvec_verify fixvec_verify] true data)
    as [[e ->]|(fs & Ht & Hl & ->)]; [done|by eexists|].
  destruct fs as [|f0 [|f1 fs]]; [by destruct Ht|unfold len in Hl; cbn in Hl; lia|].
  cbn [check_all]. destruct (fixvec_verify f0) as [[]|e|] eqn:E0;
    [|by eexists|by apply fixvec_never_panics in E0]. cbn [mbind res_bind].
  destruct (dynvec_total f1) as [D1 D2].
  destruct (dynvec_verify fixvec_verify f1) as [[]|e|]; [|by eexists|done]. cbn [mbind res_bind].
  destruct (D2 eq_refl) as [bs Hbs]. destruct (fixvec_raw f0 E0) as [name Hname]. unfold verified.
  assert (2 <= len (f0 :: f1 :: fs)) by (rewrite !len_cons; pose proof (len_nonneg fs); lia).
  rewrite (tbl_field _ _ 1 1 f1 2 Ht eq_refl eq_refl) by lia. cbn [mbind res_bind]. rewrite Hbs.
  cbn [mbind res_bind]. destruct (forallb _ _); [|by eexists]. unfold field_raw.
  rewrite (tbl_field _ _ 0 0 f0 2 Ht eq_refl eq_refl) by lia. cbn [mbind res_bind]. rewrite Hname.
  cbn. unfold utf8_or_none. destruct_if; by eexists.
Qed.

Lemma PublicKey_decode_total data : ∃ o, PublicKey_decode data = ROk o.
Proof.
  unfold PublicKey_decode, PublicKey_verify, to_enum.
  destruct (Z.ltb_spec (len data) NUMBER_SIZE) as [|Hl]; [by eexists|].
  rewrite sub_from by (unfold NUMBER_SIZE in *; lia). cbn [mbind res_bind].
  rewrite (number_at_ok _ 0) by (unfold NUMBER_SIZE in *; lia).
  cbn [mbind res_bind]. change (Z.to_nat 0) with 0%nat. rewrite drop_0.
  destruct (unpack_number data =? 0); [|by eexists].
  apply verified_total; [apply fixvec_never_panics|]. intros Hv.
  destruct (fixvec_raw _ Hv) as [b Hb]. cbn [mbind res_bind]. rewrite Hb. by eexists.
Qed.

Lemma Propose_decode_total data : ∃ o, Propose_decode data = ROk o.
Proof.
  destruct (byte_table_fields 4 data) as [H1 H2]. apply verified_total; [exact H1|].
  intros Hv. specialize (H2 Hv). change (Z.of_nat 5) with 5 in H2.
  destruct (H2 0 ltac:(lia)) as [? ->], (H2 1 ltac:(lia)) as [? ->], (H2 2 ltac:(lia)) as [? ->],
    (H2 3 ltac:(lia)) as [? ->], (H2 4 ltac:(lia)) as [? ->]. cbn. unfold utf8_or_none.
  repeat destruct_if; by eexists.
Qed.

Lemma Exchange_decode_total data : ∃ o, Exchange_decode data = ROk o.
Proof.
  destruct (byte_table_fields 1 data) as [H1 H2]. apply verified_total; [exact H1|].
  intros Hv. specialize (H2 Hv). change (Z.of_nat 2) with 2 in H2.
  destruct (H2 0 ltac:(lia)) as [? ->], (H2 1 ltac:(lia)) as [? ->]. by eexists.
Qed.

(** What the builders encode, the readers decode: proposals, exchanges, public keys and
    protocol proposals of less than 4 GiB survive the round trip. *)
Theorem messages_roundtrip p e k i :
  Propose_wf p → Exchange_wf e → PublicKey_wf k → ProtocolInfo_wf i →
  Propose_decode (Propose_encode p) = ROk (Some p) ∧
  Exchange_decode (Exchange_encode e) = ROk (Some e) ∧
  PublicKey_decode (PublicKey_encode k) = ROk (Some k) ∧
  ProtocolInfo_decode (ProtocolInfo_encode i) = ROk (Some i).
Proof.
  auto using Propose_roundtrip, Exchange_roundtrip, PublicKey_roundtrip, ProtocolInfo_roundtrip.
Qed.

(** Decoding never panics, whatever bytes the peer sends: the offsets verification accepts
    are in range for all the slicing of the accessors. *)
Theorem messages_decode_total data :
  (∃ o, Propose_decode data = ROk o) ∧ (∃ o, Exchange_decode data = ROk o) ∧
  (∃ o, PublicKey_decode data = ROk o) ∧ (∃ o, ProtocolInfo_decode data = ROk o).
Proof.
  auto using Propose_decode_total, Exchange_decode_total, PublicKey_decode_total,
    ProtocolInfo_decode_total.
Qed.

End Proofs.

(** ** Little-endian numbers, as the crate writes them *)

#[export] Instance mol_le : MolNumber := {
  pack_number n := rev (be_bytes 4 n);
  unpack_number l := be_val (rev (take 4 l));
}.

#[export] Instance mol_le_laws : MolNumberLaws.
Proof.
  split; cbn [pack_number unpack_number mol_le].
  - intros n. by rewrite length_rev, be_bytes_length.
  - intros n rest Hn. rewrite take_app_length' by (by rewrite length_rev, be_bytes_length).
    rewrite rev_involutive. by apply be_val_be_bytes_id.
  - intros l. by rewrite take_take.
  - intros l. pose proof (be_val_range (rev (take 4 l))) as H. unfold in_width in *.
    split; [lia|]. eapply Z.lt_le_trans; [apply H|]. apply Z.pow_le_mono_r; [lia|].
    unfold len. rewrite length_rev, length_take. lia.
Qed.

Lemma messages_roundtrip_witness :
  let p := mkPropose (str "0123456789abcdef") (str "key") (str "P-256") (str "AES-128-GCM") (str "SHA256") in
  let e := mkExchange (str "ephemeral") (str "signature") in
  let k := Secp256k1 (str "key") in
  let i := mkProtocolInfo (str "ping") [str "1.0.0"; str "1.1.0"] in
  Propose_decode (Propose_encode p) = ROk (Some p) ∧
  Exchange_decode (Exchange_encode e) = ROk (Some e) ∧
  PublicKey_decode (PublicKey_encode k) = ROk (Some k) ∧
  ProtocolInfo_decode (ProtocolInfo_encode i) = ROk (Some i).
Proof.
  intros p e k i. apply (messages_roundtrip p e k i).
  - repeat split; vm_compute; done.
  - vm_compute; done.
  - split; vm_compute; done.
  - split_and!; [vm_compute; done|repeat constructor; vm_compute; done|vm_compute; done].
Defined.

Lemma messages_decode_total_witness :
  (∃ o, Propose_decode (str "junk") = ROk o) ∧ (∃ o, Exchange_decode (str "junk") = ROk o) ∧
  (∃ o, PublicKey_decode (str "junk") = ROk o) ∧ (∃ o, ProtocolInfo_decode (str "junk") = ROk o).
Proof. exact (messages_decode_total (str "junk")). Defined.

