(* ===== verification/Wire.v ===== *)
(** * Sockets that carry messages

    [tokio_util]'s [Framed] transport with the length-delimited codec, which the protocol
    selection and the secio handshake use: an interface at the level of its sink and stream,
    the [await]s on it, and a reference socket. *)

From Stdlib Require Import ZArith Lia Bool.
From stdpp Require Import base list.
From S2P Require Import Prelude.

Open Scope Z_scope.

(** [Framed<T, LengthDelimitedCodec>]; [sk_sent] and [sk_incoming] are ghost: the messages it
    accepted, and those it still will yield. *)
Class Socket (T IOE : Type) := {
  sk_poll_ready : T → T * Poll (IOE + unit);
  sk_start_send : T → bytes → T * (IOE + unit);
  sk_poll_flush : T → T * Poll (IOE + unit);
  sk_poll_close : T → T * Poll (IOE + unit);
  sk_poll_next : T → T * Poll (option (IOE + bytes));
  sk_sent : T → list bytes;
  sk_incoming : T → list bytes;
}.
#[global] Hint Mode Socket ! - : typeclass_instances.

(** Only [start_send] adds to what was sent, only [poll_next] takes from what comes in, and it
    takes the first message. *)
Class SocketLaws (T IOE : Type) `{K : Socket T IOE} : Prop := {
  sk_ready_view : ∀ t : T, sk_sent (sk_poll_ready t).1 = sk_sent t ∧
    sk_incoming (sk_poll_ready t).1 = sk_incoming t;
  sk_flush_view : ∀ t : T, sk_sent (sk_poll_flush t).1 = sk_sent t ∧
    sk_incoming (sk_poll_flush t).1 = sk_incoming t;
  sk_start_view : ∀ (t t' : T) m r, sk_start_send t m = (t', r) →
    sk_incoming t' = sk_incoming t ∧
    sk_sent t' = match r with inr _ => sk_sent t ++ [m] | inl _ => sk_sent t end;
  sk_next_view : ∀ (t t' : T) r, sk_poll_next t = (t', r) →
    sk_sent t' = sk_sent t ∧
    match r with
    | Ready (Some (inr m)) => sk_incoming t = m :: sk_incoming t'
    | _ => sk_incoming t' = sk_incoming t
    end;
}.

(** How an [async] function that was polled once without a result stands: it waits, or it
    returned an error. *)
Inductive Halt (E : Type) := Waits | Fails (e : E).
Arguments Waits {E}.
Arguments Fails {E} e.

Section Await.
Context {T IOE E : Type} `{K : Socket T IOE} (io : IOE → E).

(** [f(..).await?] *)
Definition await (p : T → T * Poll (IOE + unit)) : M T (Halt E) unit := λ t,
  match p t with
  | (t', Pending) => (t', RErr Waits)
  | (t', Ready (inl e)) => (t', RErr (Fails (io e)))
  | (t', Ready (inr _)) => (t', ROk tt)
  end.

(** [socket.send(m).await?]: ready, hand over, flush. *)
Definition send (m : bytes) : M T (Halt E) unit :=
  _ ← await sk_poll_ready;
  _ ← await (λ t, let '(t', r) := sk_start_send t m in (t', Ready r));
  await sk_poll_flush.

(** [socket.next().await.transpose()?] *)
Definition next : M T (Halt E) (option bytes) := λ t,
  match sk_poll_next t with
  | (t', Pending) => (t', RErr Waits)
  | (t', Ready None) => (t', ROk None)
  | (t', Ready (Some (inl e))) => (t', RErr (Fails (io e)))
  | (t', Ready (Some (inr m))) => (t', ROk (Some m))
  end.

End Await.

Section AwaitLaws.
Context {T IOE E : Type} `{SL : SocketLaws T IOE} (io : IOE → E).

Lemma send_view m (t t' : T) r : send io m t = (t', r) →
  sk_incoming t' = sk_incoming t ∧ (r = ROk tt → sk_sent t' = sk_sent t ++ [m]) ∧ r ≠ RPanic.
Proof.
  unfold send, await, mbind, M_bind. destruct (sk_ready_view t) as [R1 R2].
  destruct (sk_poll_ready t) as [t1 [[e|[]]|]]; cbn in R1, R2;
    [by intros [= <- <-]| |by intros [= <- <-]].
  destruct (sk_start_send t1 m) as [t2 r2] eqn:E2. apply sk_start_view in E2 as [S1 S2].
  destruct r2 as [e|[]]; [intros [= <- <-]; split_and!; [congruence|done|done]|].
  destruct (sk_flush_view t2) as [F1 F2].
  destruct (sk_poll_flush t2) as [t3 [[e|[]]|]]; cbn in F1, F2; intros [= <- <-]; split_and!;
    try done; try congruence.
Qed.

Lemma next_view (t t' : T) r : next io t = (t', r) →
  sk_sent t' = sk_sent t ∧
  (match r with ROk (Some m) => sk_incoming t = m :: sk_incoming t' | _ => sk_incoming t' = sk_incoming t end)
  ∧ r ≠ RPanic.
Proof.
  unfold next. destruct (sk_poll_next t) as [t1 p] eqn:E1. apply sk_next_view in E1 as [N1 N2].
  destruct p as [[[e|m]|]|]; intros [= <- <-]; done.
Qed.

End AwaitLaws.

(** ** A socket between two queues: always ready, ends or waits behind the incoming messages *)

Record Pipe := mkPipe { pp_sent : list bytes; pp_incoming : list bytes; pp_ended : bool }.

#[export] Instance Pipe_socket : Socket Pipe Empty_set := {
  sk_poll_ready t := (t, Ready (inr tt));
  sk_start_send t m := (mkPipe (pp_sent t ++ [m]) (pp_incoming t) (pp_ended t), inr tt);
  sk_poll_flush t := (t, Ready (inr tt));
  sk_poll_close t := (t, Ready (inr tt));
  sk_poll_next t :=
    match pp_incoming t with
    | m :: ms => (mkPipe (pp_sent t) ms (pp_ended t), Ready (Some (inr m)))
    | [] => (t, if pp_ended t then Ready None else Pending)
    end;
  sk_sent := pp_sent;
  sk_incoming := pp_incoming;
}.

#[export] Instance Pipe_laws : SocketLaws Pipe Empty_set.
Proof.
  split; [done|done| |].
  - intros t t' m r [= <- <-]. done.
  - intros [s [|m ms] [] ] t' r; cbn; intros [= <- <-]; done.
Qed.

Lemma pipe_send {E} (io : Empty_set → E) m s i b :
  send io m (mkPipe s i b) = (mkPipe (s ++ [m]) i b, ROk tt).
Proof. done. Qed.

Lemma pipe_next {E} (io : Empty_set → E) m s i b :
  next io (mkPipe s (m :: i) b) = (mkPipe s i b, ROk (Some m)).
Proof. done. Qed.
