(* ===== verification/Select.v ===== *)
(** * Protocol selection ([tentacle/src/protocol_select/mod.rs])

    [select_version], and the two sides of the negotiation of a protocol version on a fresh
    substream. *)

From Stdlib Require Import ZArith Lia Bool.
From Stdlib Require Import Strings.String.
From stdpp Require Import base list gmap sorting.
From S2P Require Import Prelude Text Molecule MoleculeProofs Messages Wire.

Open Scope Z_scope.

(** ** [Ord] *)

Class Ord (T : Type) := cmp : T → T → comparison.

Class OrdLaws (T : Type) `{O : Ord T} : Prop := {
  cmp_eq : ∀ a b : T, cmp a b = Eq ↔ a = b;
  cmp_opp : ∀ a b : T, cmp b a = CompOpp (cmp a b);
  cmp_trans : ∀ a b c : T, cmp a b ≠ Gt → cmp b c ≠ Gt → cmp a c ≠ Gt;
}.

(** [a <= b] *)
Definition ole {T} `{Ord T} (a b : T) : Prop := cmp a b ≠ Gt.

#[export] Instance bytes_ord : Ord bytes := bytes_cmp.

(** ** The highest common version *)

Section Version.
Context {T : Type} `{O : Ord T}.

(** The loop over the two reversed iterators. *)
Fixpoint select_loop (local : list T) : list T → option T :=
  match local with
  | [] => λ _, None
  | l :: local' =>
      fix go (remote : list T) : option T :=
        match remote with
        | [] => None
        | r :: remote' =>
            match cmp l r with
            | Lt => go remote'
            | Gt => select_loop local' remote
            | Eq => Some l
            end
        end
  end.

Definition select_version (local remote : list T) : option T :=
  select_loop (rev local) (rev remote).

End Version.

(** ** The negotiation *)

Inductive SelectError (IOE : Type) := SelIo (e : IOE) | SelInvalidData | SelUnexpectedEof.
Arguments SelIo {IOE} e.
Arguments SelInvalidData {IOE}.
Arguments SelUnexpectedEof {IOE}.

Abbreviation SelectFn := (list bytes → list bytes → option bytes).

Section Negotiation.
Context `{MN : MolNumber} {T IOE : Type} `{K : Socket T IOE}.

(** [ProtocolInfo::decode(&info).ok_or_else(..)?], or the end of the stream. *)
Definition remote_info (raw : option bytes) : M T (Halt (SelectError IOE)) ProtocolInfo :=
  match raw with
  | Some info =>
      match ProtocolInfo_decode info with
      | ROk (Some i) => mret i
      | ROk None | RErr _ => throw (Fails SelInvalidData)
      | RPanic => panic
      end
  | None => throw (Fails SelUnexpectedEof)
  end.

Definition client_select (proto_info : ProtocolInfo)
    : M T (Halt (SelectError IOE)) (bytes * option bytes) :=
  _ ← send SelIo (ProtocolInfo_encode proto_info);
  raw ← next SelIo;
  info ← remote_info raw;
  mret (pi_name info, last (pi_support_versions info)).

(** The version the server answers with: none for a protocol it does not know. *)
Definition choose (proto_infos : gmap bytes (ProtocolInfo * option SelectFn)) (info : ProtocolInfo)
    : option bytes :=
  match proto_infos !! pi_name info with
  | Some (local_info, Some f) => f (pi_support_versions local_info) (pi_support_versions info)
  | Some (local_info, None) =>
      select_version (pi_support_versions local_info) (pi_support_versions info)
  | None => None
  end.

Definition server_select (proto_infos : gmap bytes (ProtocolInfo * option SelectFn))
    : M T (Halt (SelectError IOE)) (bytes * option bytes) :=
  raw ← next SelIo;
  info ← remote_info raw;
  let version := choose proto_infos info in
  _ ← send SelIo (ProtocolInfo_encode (mkProtocolInfo (pi_name info) (option_list version)));
  mret (pi_name info, version).

End Negotiation.

#[export] Instance bytes_ord_laws : OrdLaws bytes.
Proof. split; [apply bytes_cmp_eq|apply bytes_cmp_opp|apply bytes_cmp_trans]. Qed.

(** ** [select_version] *)

Section VersionProofs.
Context {T : Type} `{OL : OrdLaws T}.

Lemma ole_refl (a : T) : ole a a.
Proof. unfold ole. by rewrite (proj2 (cmp_eq a a)). Qed.

Lemma gt_ole (a b : T) : cmp a b = Gt → ole b a.
Proof. unfold ole. rewrite (cmp_opp a b). by intros ->. Qed.

Lemma ole_antisym (a b : T) : ole a b → ole b a → a = b.
Proof.
  unfold ole. rewrite (cmp_opp a b). intros H1 H2. apply cmp_eq. by destruct (cmp a b).
Qed.

(** On descending lists the loop finds the greatest common element. *)
Lemma select_loop_spec (local remote : list T) :
  StronglySorted (flip ole) local → StronglySorted (flip ole) remote →
  match select_loop local remote with
  | Some v => v ∈ local ∧ v ∈ remote ∧ ∀ w, w ∈ local → w ∈ remote → ole w v
  | None => ∀ w, w ∈ local → w ∉ remote
  end.
Proof.
  intros Hl. revert remote. induction Hl as [|l local Hl IHl Hlt]; intros remote Hr.
  { intros w Hw. by apply elem_of_nil in Hw. }
  induction Hr as [|r remote Hr IHr Hrt]; [intros w _; apply not_elem_of_nil|].
  cbn [select_loop]. rewrite Forall_forall in Hlt, Hrt. destruct (cmp l r) eqn:E.
  - apply cmp_eq in E as <-. split_and!; [by left..|]. intros w _ Hw.
    apply elem_of_cons in Hw as [->|Hw]; [apply ole_refl|by apply Hrt].
  - assert (∀ w, w ∈ l :: local → w ≠ r) as Hne.
    { intros w Hw ->. assert (ole r l) as Hrl.
      { apply elem_of_cons in Hw as [->|Hw]; [apply ole_refl|by apply Hlt]. }
      unfold ole in Hrl. rewrite (cmp_opp l r), E in Hrl. done. }
    change (match select_loop (l :: local) remote with
      | Some v => v ∈ l :: local ∧ v ∈ r :: remote ∧ ∀ w, w ∈ l :: local → w ∈ r :: remote → ole w v
      | None => ∀ w, w ∈ l :: local → w ∉ r :: remote end).
    destruct (select_loop (l :: local) remote) as [v|].
    + destruct IHr as (I1 & I2 & I3). split_and!; [done|by right|]. intros w Hw Hwr.
      apply elem_of_cons in Hwr as [->|]; [by destruct (Hne r)|by apply I3].
    + intros w Hw Hwr. apply elem_of_cons in Hwr as [->|]; [by destruct (Hne r)|by apply (IHr w)].
  - specialize (IHl (r :: remote) ltac:(constructor; [done|by apply Forall_forall])).
    assert (∀ w, w ∈ r :: remote → w ≠ l) as Hne.
    { intros w Hw ->. assert (ole l r) as Hlr.
      { apply elem_of_cons in Hw as [->|Hw]; [apply ole_refl|by apply Hrt]. }
      unfold ole in Hlr. by rewrite E in Hlr. }
    destruct (select_loop local (r :: remote)) as [v|].
    + destruct IHl as (I1 & I2 & I3). split_and!; [by right|done|]. intros w Hw Hwr.
      apply elem_of_cons in Hw as [->|]; [by destruct (Hne l)|by apply I3].
    + intros w Hw Hwr. apply elem_of_cons in Hw as [->|Hw]; [by destruct (Hne l)|by apply (IHl w)].
Qed.

Lemma StronglySorted_rev (l : list T) : StronglySorted ole l → StronglySorted (flip ole) (rev l).
Proof.
  induction 1 as [|a l Hl IH Ha]; [constructor|]. cbn.
  apply StronglySorted_app_2; [|done|repeat constructor].
  intros x y Hx Hy. apply list_elem_of_singleton in Hy as ->. rewrite Forall_forall in Ha.
  apply Ha. apply list_elem_of_In. apply list_elem_of_In in Hx. by apply in_rev.
Qed.

Lemma select_loop_in (local remote : list T) v :
  select_loop local remote = Some v → v ∈ local ∧ v ∈ remote.
Proof.
  revert remote. induction local as [|l local IHl]; intros remote; [done|].
  induction remote as [|r remote IHr]; [done|]. intros Hs.
  cbn [select_loop] in Hs. destruct (cmp l r) eqn:E.
  - injection Hs as <-. apply cmp_eq in E as <-. split; by left.
  - destruct (IHr Hs). split; [done|by right].
  - destruct (IHl _ Hs). split; [by right|done].
Qed.

Lemma select_version_in (local remote : list T) v :
  select_version local remote = Some v → v ∈ local ∧ v ∈ remote.
Proof.
  intros Hs. apply select_loop_in in Hs. rewrite !list_elem_of_In, <- !in_rev in Hs.
  by rewrite !list_elem_of_In.
Qed.

(** What it means to be the version to use. *)
Definition best_common (local remote : list T) (o : option T) : Prop :=
  match o with
  | Some v => v ∈ local ∧ v ∈ remote ∧ ∀ w, w ∈ local → w ∈ remote → ole w v
  | None => ∀ w, w ∈ local → w ∉ remote
  end.

Lemma select_version_best (local remote : list T) :
  StronglySorted ole local → StronglySorted ole remote →
  best_common local remote (select_version local remote).
Proof.
  intros Hl Hr. unfold select_version, best_common.
  pose proof (select_loop_spec (rev local) (rev remote) (StronglySorted_rev _ Hl) (StronglySorted_rev _ Hr)) as H.
  assert (∀ (l : list T) w, w ∈ rev l ↔ w ∈ l) as Hin
    by (intros l w; rewrite !list_elem_of_In; symmetry; apply in_rev).
  destruct (select_loop _ _) as [v|]; setoid_rewrite Hin in H; exact H.
Qed.

(** On sorted version lists [select_version] returns the greatest version both sides
    support, and nothing exactly when they share none; on any lists it returns only a version
    both sides support. *)
Theorem select_version_correct (local remote : list T) :
  (∀ v, select_version local remote = Some v → v ∈ local ∧ v ∈ remote) ∧
  (StronglySorted ole local → StronglySorted ole remote →
   best_common local remote (select_version local remote)).
Proof. split; [apply select_version_in|apply select_version_best]. Qed.

End VersionProofs.

(** ** Agreement of the two sides *)

Section NegotiationProofs.
Context `{ML : MolNumberLaws}.

Lemma len_in_concat (v : bytes) vs : v ∈ vs → len v <= len (concat vs) ∧ 1 <= len vs.
Proof.
  induction vs as [|w vs IH]; [by intros ?%elem_of_nil|]. cbn [concat]. rewrite len_app, len_cons.
  pose proof (len_nonneg vs). pose proof (len_nonneg (concat vs)). pose proof (len_nonneg w).
  intros [->|Hv]%elem_of_cons; [lia|]. specialize (IH Hv). lia.
Qed.

(** The answer of the server is well-formed if the proposal is. *)
Lemma reply_wf i v : ProtocolInfo_wf i → (∀ w, v = Some w → w ∈ pi_support_versions i) →
  ProtocolInfo_wf (mkProtocolInfo (pi_name i) (option_list v)).
Proof.
  intros (Hn & Hv & Hl) Hw. split; [done|].
  pose proof (len_nonneg (pi_support_versions i)). pose proof (len_nonneg (concat (pi_support_versions i))).
  destruct v as [w|]; cbn [option_list pi_support_versions pi_name].
  - specialize (Hw w eq_refl). rewrite Forall_forall in Hv. pose proof (Hv w Hw).
    destruct (len_in_concat w _ Hw). split; [by repeat constructor|].
    change (concat (option_list (Some w))) with (w ++ []). change (len (option_list (Some w))) with 1.
    rewrite app_nil_r. lia.
  - split; [constructor|]. change (option_list None) with (@nil bytes). cbn [concat]. change (@len bytes []) with 0. change (@len byte []) with 0. lia.
Qed.

Definition picks_offered (infos : gmap bytes (ProtocolInfo * option SelectFn)) (i : ProtocolInfo) : Prop :=
  ∀ l f v, infos !! pi_name i = Some (l, Some f) →
    f (pi_support_versions l) (pi_support_versions i) = Some v → v ∈ pi_support_versions i.

Lemma choose_default (infos : gmap bytes (ProtocolInfo * option SelectFn)) i l : infos !! pi_name i = Some (l, None) →
  choose infos i = select_version (pi_support_versions l) (pi_support_versions i).
Proof. unfold choose. by intros ->. Qed.

Lemma choose_offered infos i w :
  picks_offered infos i → choose infos i = Some w → w ∈ pi_support_versions i.
Proof.
  unfold choose. intros Hp. destruct (infos !! pi_name i) as [[l [f|]]|] eqn:E; [..|done].
  - by apply (Hp l).
  - intros Hs. apply select_version_in in Hs as [_ Hs]. exact Hs.
Qed.

Lemma server_select_run infos i ended :
  ProtocolInfo_wf i →
  server_select infos (mkPipe [] [ProtocolInfo_encode i] ended) =
  (mkPipe [ProtocolInfo_encode (mkProtocolInfo (pi_name i) (option_list (choose infos i)))] [] ended,
   ROk (pi_name i, choose infos i)).
Proof.
  intros Hw. unfold server_select, mbind, M_bind. rewrite pipe_next. unfold remote_info.
  rewrite (ProtocolInfo_roundtrip i Hw). cbn [mret M_ret]. by rewrite pipe_send.
Qed.

Lemma client_select_run i j ended :
  ProtocolInfo_wf j →
  client_select i (mkPipe [] [ProtocolInfo_encode j] ended) =
  (mkPipe [ProtocolInfo_encode i] [] ended, ROk (pi_name j, last (pi_support_versions j))).
Proof.
  intros Hw. unfold client_select, mbind, M_bind. rewrite pipe_send, pipe_next.
  unfold remote_info. by rewrite (ProtocolInfo_roundtrip j Hw).
Qed.

(** C32: the two sides of a negotiation end with the same protocol name and the same version:
    the client gets the message the server answers its proposal with, both complete, and with
    the default selection on sorted lists the version is the greatest both support. *)
Theorem negotiation_agrees (infos : gmap bytes (ProtocolInfo * option SelectFn)) i ended :
  ProtocolInfo_wf i → picks_offered infos i →
  let '(ts, rs) := server_select infos (mkPipe [] [ProtocolInfo_encode i] ended) in
  let '(tc, rc) := client_select i (mkPipe [] (pp_sent ts) ended) in
  pp_sent tc = [ProtocolInfo_encode i] ∧
  rs = ROk (pi_name i, choose infos i) ∧ rc = ROk (pi_name i, choose infos i) ∧
  (∀ l, infos !! pi_name i = Some (l, None) →
    StronglySorted ole (pi_support_versions l) → StronglySorted ole (pi_support_versions i) →
    best_common (pi_support_versions l) (pi_support_versions i) (choose infos i)).
Proof.
  intros Hw Hp. rewrite server_select_run by done. cbn [pp_sent].
  rewrite client_select_run by (apply reply_wf; [done|]; intros w; by apply choose_offered).
  split_and!; [done|done| |].
  - cbn. by destruct (choose infos i).
  - intros l Hl Hs1 Hs2. rewrite (choose_default _ _ l Hl). by apply select_version_best.
Qed.

End NegotiationProofs.

Definition demo_client : ProtocolInfo := mkProtocolInfo (str "ping") [str "1.0.0"; str "1.1.0"; str "2.0.0"].
Definition demo_server : gmap bytes (ProtocolInfo * option SelectFn) :=
  {[ str "ping" := (mkProtocolInfo (str "ping") [str "0.9.0"; str "1.1.0"], None) ]}.

Lemma select_version_correct_witness :
  select_version [str "0.9.0"; str "1.1.0"] [str "1.0.0"; str "1.1.0"; str "2.0.0"] = Some (str "1.1.0") ∧
  (∀ v, select_version [str "0.9.0"; str "1.1.0"] [str "1.0.0"; str "1.1.0"; str "2.0.0"] = Some v →
    v ∈ [str "0.9.0"; str "1.1.0"]).
Proof.
  split; [reflexivity|]. intros v Hv.
  exact (proj1 (proj1 (select_version_correct _ _) v Hv)).
Defined.

Lemma negotiation_agrees_witness :
  let '(ts, rs) := server_select demo_server (mkPipe [] [ProtocolInfo_encode demo_client] false) in
  let '(tc, rc) := client_select demo_client (mkPipe [] (pp_sent ts) false) in
  pp_sent tc = [ProtocolInfo_encode demo_client] ∧
  rs = ROk (pi_name demo_client, choose demo_server demo_client) ∧
  rc = ROk (pi_name demo_client, choose demo_server demo_client) ∧
  (∀ l, demo_server !! pi_name demo_client = Some (l, None) →
    StronglySorted ole (pi_support_versions l) → StronglySorted ole (pi_support_versions demo_client) →
    best_common (pi_support_versions l) (pi_support_versions demo_client) (choose demo_server demo_client)).
Proof.
  apply (negotiation_agrees demo_server demo_client false).
  - split_and!; [vm_compute; done|repeat constructor; vm_compute; done|vm_compute; done].
  - intros l f v H. vm_compute in H. congruence.
Defined.

Example demo_choice : choose demo_server demo_client = Some (str "1.1.0").
Proof. reflexivity. Qed.
