(* ===== verification/SecioAlgorithms.v ===== *)
(** * Algorithms of the secio handshake ([secio/src/support.rs], [crypto/cipher.rs], [error.rs],
    [lib.rs], [dh_compat/mod.rs])

    The algorithm identifiers, the proposition strings made of them, and the choice of a common
    algorithm. *)

From Stdlib Require Import ZArith Lia Bool.
From Stdlib Require Import Strings.String.
From stdpp Require Import base list.
From S2P Require Import Prelude Text.

Open Scope Z_scope.

Inductive KeyAgreement := EcdhP256 | EcdhP384 | X25519.
Inductive CipherType := Aes128Gcm | Aes256Gcm | ChaCha20Poly1305.
Inductive Digest := Sha256 | Sha512.

#[export] Instance KeyAgreement_eq_dec : EqDecision KeyAgreement.
Proof. solve_decision. Defined.
#[export] Instance CipherType_eq_dec : EqDecision CipherType.
Proof. solve_decision. Defined.
#[export] Instance Digest_eq_dec : EqDecision Digest.
Proof. solve_decision. Defined.

Definition key_size (t : CipherType) : Z :=
  match t with Aes128Gcm => 16 | Aes256Gcm => 32 | ChaCha20Poly1305 => 2 * 16 end.
Definition iv_size (t : CipherType) : Z :=
  match t with Aes128Gcm => 96 / 8 | Aes256Gcm => 96 / 8 | ChaCha20Poly1305 => 96 / 8 end.
Definition tag_size (t : CipherType) : Z :=
  match t with Aes128Gcm => 16 | Aes256Gcm => 16 | ChaCha20Poly1305 => 16 end.

(** [io::Error] is represented by the error of the transport. *)
Inductive SecioError (IOE : Type) :=
| IoError (e : IOE) | UnexpectedEof | BrokenPipe
| Openssl | CryptoError | EphemeralKeyGenerationFailed | SecretGenerationFailed
| NoSupportIntersection | NonceVerificationFailed | FrameTooShort | HmacNotMatching | ConnectSelf
| HandshakeParsingFailure | SignatureVerificationFailed | InvalidMessage | InvalidProposition.
Arguments IoError {IOE} e.
Arguments UnexpectedEof {IOE}.
Arguments BrokenPipe {IOE}.
Arguments Openssl {IOE}.
Arguments CryptoError {IOE}.
Arguments EphemeralKeyGenerationFailed {IOE}.
Arguments SecretGenerationFailed {IOE}.
Arguments NoSupportIntersection {IOE}.
Arguments NonceVerificationFailed {IOE}.
Arguments FrameTooShort {IOE}.
Arguments HmacNotMatching {IOE}.
Arguments ConnectSelf {IOE}.
Arguments HandshakeParsingFailure {IOE}.
Arguments SignatureVerificationFailed {IOE}.
Arguments InvalidMessage {IOE}.
Arguments InvalidProposition {IOE}.

(** ** Names *)

Definition ECDH_P256 : bytes := str "P-256".
Definition ECDH_P384 : bytes := str "P-384".
Definition X25519_NAME : bytes := str "X25519".
Definition AES_128_GCM : bytes := str "AES-128-GCM".
Definition AES_256_GCM : bytes := str "AES-256-GCM".
Definition CHACHA20_POLY1305 : bytes := str "CHACHA20_POLY1305".
Definition SHA_256 : bytes := str "SHA256".
Definition SHA_512 : bytes := str "SHA512".

Definition DEFAULT_AGREEMENTS_PROPOSITION : bytes := str "P-256,P-384,X25519".
Definition DEFAULT_CIPHERS_PROPOSITION : bytes := str "AES-128-GCM,AES-256-GCM,CHACHA20_POLY1305".
Definition DEFAULT_DIGESTS_PROPOSITION : bytes := str "SHA256,SHA512".

Definition comma : byte := byte_of 44.

Definition agreement_name (x : KeyAgreement) : bytes :=
  match x with EcdhP256 => ECDH_P256 | EcdhP384 => ECDH_P384 | X25519 => X25519_NAME end.
Definition cipher_name (c : CipherType) : bytes :=
  match c with
  | Aes128Gcm => AES_128_GCM | Aes256Gcm => AES_256_GCM | ChaCha20Poly1305 => CHACHA20_POLY1305
  end.
Definition digest_name (d : Digest) : bytes :=
  match d with Sha256 => SHA_256 | Sha512 => SHA_512 end.

(** ** Propositions: the names, each followed by a comma, and the last comma removed *)

Definition proposition {A} (name : A → bytes) (xs : list A) : bytes :=
  removelast (fold_left (λ s x, s ++ name x ++ [comma]) xs []).

Definition key_agreements_proposition : list KeyAgreement → bytes := proposition agreement_name.
Definition ciphers_proposition : list CipherType → bytes := proposition cipher_name.
Definition digests_proposition : list Digest → bytes := proposition digest_name.

(** ** The choice *)

(** [for x in a.split(',') { if b.split(',').any(..) { match x { .. => return .., _ => continue } } }];
    [known] is the [match]. *)
Fixpoint select_first {A} (known : bytes → option A) (a b : list bytes) : option A :=
  match a with
  | [] => None
  | x :: a' =>
      if existsb (λ y, bool_decide (x = y)) b then
        match known x with
        | Some c => Some c
        | None => select_first known a' b
        end
      else select_first known a' b
  end.

(** [Less] and [Equal] prefer the order of theirs, [Greater] that of ours. *)
Definition prefer (r : comparison) (ours theirs : bytes) : bytes * bytes :=
  match r with Lt | Eq => (theirs, ours) | Gt => (ours, theirs) end.

Definition select_by {A} (known : bytes → option A) (r : comparison) (ours theirs : bytes) : option A :=
  let '(a, b) := prefer r ours theirs in
  select_first known (split_on comma a) (split_on comma b).

Definition known_agreement (x : bytes) : option KeyAgreement :=
  if bool_decide (x = ECDH_P256) then Some EcdhP256
  else if bool_decide (x = ECDH_P384) then Some EcdhP384
  else if bool_decide (x = X25519_NAME) then Some X25519 else None.

Definition known_cipher (x : bytes) : option CipherType :=
  if bool_decide (x = AES_128_GCM) then Some Aes128Gcm
  else if bool_decide (x = AES_256_GCM) then Some Aes256Gcm
  else if bool_decide (x = CHACHA20_POLY1305) then Some ChaCha20Poly1305 else None.

Definition known_digest (x : bytes) : option Digest :=
  if bool_decide (x = SHA_256) then Some Sha256
  else if bool_decide (x = SHA_512) then Some Sha512 else None.

(** [None] is [Err(SecioError::NoSupportIntersection)]. *)
Definition select_agreement : comparison → bytes → bytes → option KeyAgreement := select_by known_agreement.
Definition select_cipher : comparison → bytes → bytes → option CipherType := select_by known_cipher.
Definition select_digest : comparison → bytes → bytes → option Digest := select_by known_digest.

(** ** Both sides choose the same *)

Lemma select_by_opp {A} (known : bytes → option A) r ours theirs :
  r ≠ Eq → select_by known (CompOpp r) theirs ours = select_by known r ours theirs.
Proof. by destruct r. Qed.

(** A naming scheme: names without commas that [known] inverts. *)
Record naming {A} (name : A → bytes) (known : bytes → option A) : Prop := {
  nm_known : ∀ x, known (name x) = Some x;
  nm_comma : ∀ x, comma ∉ name x;
  nm_empty : known [] = None;
}.

Ltac solve_naming :=
  split; [by intros []| |done]; intros [];
  refine (bool_decide_unpack _ _); vm_compute; exact I.

Lemma agreement_naming : naming agreement_name known_agreement.
Proof. solve_naming. Qed.
Lemma cipher_naming : naming cipher_name known_cipher.
Proof. solve_naming. Qed.
Lemma digest_naming : naming digest_name known_digest.
Proof. solve_naming. Qed.

Section Naming.
Context {A : Type} `{EqDecision A} {name : A → bytes} {known : bytes → option A}.
Context (NM : naming name known).

Lemma proposition_snoc xs x : proposition name (xs ++ [x]) =
  concat (map (λ y, name y ++ [comma]) xs) ++ name x.
Proof.
  unfold proposition.
  assert (∀ l s, fold_left (λ s x, s ++ name x ++ [comma]) l s
    = s ++ concat (map (λ y, name y ++ [comma]) l)) as Hf.
  { induction l as [|y l IH]; intros s; cbn; [by rewrite app_nil_r|]. rewrite IH. by rewrite <- !app_assoc. }
  rewrite Hf, map_app, concat_app. cbn. rewrite app_nil_r, !app_assoc, removelast_app by done.
  cbn. by rewrite app_nil_r.
Qed.

(** Splitting a proposition at the commas gives the names back. *)
Lemma split_proposition xs : xs ≠ [] → split_on comma (proposition name xs) = map name xs.
Proof.
  induction xs as [|x xs _] using rev_ind; [done|]. intros _. rewrite proposition_snoc, map_app. cbn.
  induction xs as [|y xs IH]; cbn.
  - apply split_on_none, NM.
  - rewrite <- !app_assoc. cbn. rewrite split_on_app by apply NM. by rewrite IH.
Qed.

Lemma name_inj x y : name x = name y → x = y.
Proof. intros H. pose proof (nm_known _ _ NM x) as Hx. rewrite H, (nm_known _ _ NM) in Hx. by injection Hx. Qed.

Lemma name_not_empty x : name x ≠ [].
Proof. intros H. pose proof (nm_known _ _ NM x) as Hx. by rewrite H, (nm_empty _ _ NM) in Hx. Qed.

(** What the choice should be: the first algorithm of the preferred list the other side has. *)
Definition first_common (xs ys : list A) : option A := List.find (λ x, bool_decide (x ∈ ys)) xs.

Lemma existsb_name x ys :
  existsb (λ y, bool_decide (name x = y)) (map name ys) = bool_decide (x ∈ ys).
Proof.
  induction ys as [|y ys IH]; [done|]. cbn. rewrite IH. apply eq_true_iff_eq.
  rewrite orb_true_iff, !bool_decide_eq_true, elem_of_cons. split; intros [H|H]; auto.
  - left. by apply name_inj.
  - left. by subst.
Qed.

Lemma select_first_names xs bs ys :
  (∀ x, existsb (λ y, bool_decide (name x = y)) bs = bool_decide (x ∈ ys)) →
  select_first known (map name xs) bs = first_common xs ys.
Proof.
  intros Hb. unfold first_common. induction xs as [|x xs IH]; [done|]. cbn. rewrite Hb.
  case_bool_decide; [by rewrite (nm_known _ _ NM)|done].
Qed.

Lemma select_by_propositions xs ys :
  select_by known Gt (proposition name xs) (proposition name ys) = first_common xs ys ∧
  select_by known Lt (proposition name ys) (proposition name xs) = first_common xs ys.
Proof.
  unfold select_by, prefer. assert (∀ R : Prop, R → R ∧ R) as Hd by done. apply Hd. clear Hd.
  destruct (decide (xs = [])) as [->|Hx].
  { change (proposition name []) with (@nil byte). cbn. rewrite (nm_empty _ _ NM). by destruct_if. }
  rewrite (split_proposition xs Hx). apply select_first_names. intros x.
  destruct (decide (ys = [])) as [->|Hy].
  - change (proposition name []) with (@nil byte). cbn. rewrite bool_decide_eq_false_2; [done|].
    apply name_not_empty.
  - rewrite split_proposition by done. apply existsb_name.
Qed.

End Naming.

(** The two sides of a handshake, whose orderings of the hashes are opposite, choose the
    same algorithm of each kind whatever the propositions are; for propositions made of lists of
    algorithms it is the first of the preferring side's list that the other side has too, and
    none exactly if there is no common one. *)
Theorem algorithms_agree r ours theirs :
  r ≠ Eq →
  (select_agreement (CompOpp r) theirs ours = select_agreement r ours theirs ∧
   select_cipher (CompOpp r) theirs ours = select_cipher r ours theirs ∧
   select_digest (CompOpp r) theirs ours = select_digest r ours theirs) ∧
  (∀ xs ys, select_agreement Gt (key_agreements_proposition xs) (key_agreements_proposition ys)
    = first_common xs ys) ∧
  (∀ xs ys, select_cipher Gt (ciphers_proposition xs) (ciphers_proposition ys) = first_common xs ys) ∧
  (∀ xs ys, select_digest Gt (digests_proposition xs) (digests_proposition ys) = first_common xs ys).
Proof.
  intros Hr. split_and!; try (by apply select_by_opp); intros xs ys.
  - apply (select_by_propositions agreement_naming).
  - apply (select_by_propositions cipher_naming).
  - apply (select_by_propositions digest_naming).
Qed.

Lemma algorithms_agree_witness :
  select_cipher Gt (ciphers_proposition [Aes256Gcm; Aes128Gcm]) DEFAULT_CIPHERS_PROPOSITION = Some Aes256Gcm ∧
  select_cipher Lt DEFAULT_CIPHERS_PROPOSITION (ciphers_proposition [Aes256Gcm; Aes128Gcm]) =
  select_cipher Gt (ciphers_proposition [Aes256Gcm; Aes128Gcm]) DEFAULT_CIPHERS_PROPOSITION.
Proof.
  split; [reflexivity|].
  exact (proj1 (proj2 (proj1 (algorithms_agree Gt (ciphers_proposition [Aes256Gcm; Aes128Gcm])
    DEFAULT_CIPHERS_PROPOSITION ltac:(done))))).
Defined.
