(* ===== verification/SecioCipher.v ===== *)
(** * Stream ciphers of secio ([secio/src/crypto/mod.rs], [openssl_impl.rs], [ring_impl.rs])

    The AEAD primitives of [openssl] and [ring] are an interface; the ciphers built on them,
    which count their messages in the nonce, are modelled. *)

From Stdlib Require Import ZArith Lia Bool.
From stdpp Require Import base list.
From S2P Require Import Prelude Text SecioAlgorithms.

Open Scope Z_scope.

(** ** The nonce *)

(** Little-endian increment; after the largest value comes zero. *)
Fixpoint nonce_advance (nonce : bytes) : bytes :=
  match nonce with
  | [] => []
  | i :: rest =>
      if byte_val i =? 255 then byte_of 0 :: nonce_advance rest else byte_of (byte_val i + 1) :: rest
  end.

Fixpoint le_val (l : bytes) : Z :=
  match l with
  | [] => 0
  | b :: l => byte_val b + 256 * le_val l
  end.

(** ** AEAD *)

(** Sealing gives the ciphertext and the tag; [None] is an error of the library. *)
Class Aead := {
  aead_seal : CipherType → bytes → bytes → bytes → option (bytes * bytes);
  aead_open : CipherType → bytes → bytes → bytes → bytes → option bytes;
}.

(** For keys and nonces of the sizes of the cipher, sealing succeeds with a tag of the size of
    the cipher, and exactly what was sealed opens. *)
Class AeadLaws `{AE : Aead} : Prop := {
  seal_total : ∀ t k n p, len k = key_size t → len n = iv_size t → ∃ c g, aead_seal t k n p = Some (c, g);
  seal_tag : ∀ t k n p c g, aead_seal t k n p = Some (c, g) → len g = tag_size t;
  seal_open : ∀ t k n p c g, aead_seal t k n p = Some (c, g) → aead_open t k n c g = Some p;
  open_seal : ∀ t k n p c g, aead_open t k n c g = Some p → aead_seal t k n p = Some (c, g);
}.

Inductive CryptoMode := Encrypt | Decrypt.

Record OpenSsLCrypt := mkOpenSsl { os_cipher_type : CipherType; os_key : bytes; os_iv : bytes }.

Record RingAeadCipher := mkRing {
  rg_mode : CryptoMode; rg_cipher_type : CipherType; rg_key : bytes; rg_nonce : bytes }.

(** [BoxStreamCipher] *)
Inductive StreamCipher := OpenSsl (c : OpenSsLCrypt) | Ring (c : RingAeadCipher).

Definition zeros (n : Z) : bytes := replicate (Z.to_nat n) (byte_of 0).

Definition OpenSsLCrypt_new (t : CipherType) (key : bytes) : OpenSsLCrypt :=
  mkOpenSsl t key (zeros (iv_size t)).

(** [UnboundKey::new(algorithm, key).unwrap()] panics on a key of another size. *)
Definition RingAeadCipher_new (t : CipherType) (key : bytes) (mode : CryptoMode) : option RingAeadCipher :=
  if len key =? key_size t then Some (mkRing mode t key (zeros (iv_size t))) else None.

(** The builds [new_stream] distinguishes: unix with a recent OpenSSL, other unix, not unix. *)
Inductive Build := UnixOssl110 | UnixOldOssl | NotUnix.

(** [None] is a panic. *)
Definition new_stream (b : Build) (t : CipherType) (key : bytes) (mode : CryptoMode) : option StreamCipher :=
  match b, t with
  | UnixOssl110, _ | UnixOldOssl, (Aes128Gcm | Aes256Gcm) => Some (OpenSsl (OpenSsLCrypt_new t key))
  | UnixOldOssl, ChaCha20Poly1305 | NotUnix, _ => Ring <$> RingAeadCipher_new t key mode
  end.

Section Ciphers.
Context `{AE : Aead}.

Inductive CipherError := TooShort | Library.

Definition openssl_encrypt (input : bytes) : M OpenSsLCrypt CipherError bytes := λ s,
  let s := mkOpenSsl (os_cipher_type s) (os_key s) (nonce_advance (os_iv s)) in
  match aead_seal (os_cipher_type s) (os_key s) (os_iv s) input with
  | Some (output, tag) => (s, ROk (output ++ tag))
  | None => (s, RErr Library)
  end.

(** The nonce advances before the length is checked. *)
Definition openssl_decrypt (input : bytes) : M OpenSsLCrypt CipherError bytes := λ s,
  let s := mkOpenSsl (os_cipher_type s) (os_key s) (nonce_advance (os_iv s)) in
  match checked_sub (len input) (tag_size (os_cipher_type s)) with
  | None => (s, RErr TooShort)
  | Some n =>
      match aead_open (os_cipher_type s) (os_key s) (os_iv s)
              (take (Z.to_nat n) input) (drop (Z.to_nat n) input) with
      | Some p => (s, ROk p)
      | None => (s, RErr Library)
      end
  end.

(** [seal_in_place_append_tag] advances the nonce sequence. *)
Definition ring_encrypt (input : bytes) : M RingAeadCipher CipherError bytes := λ s,
  match rg_mode s with
  | Decrypt => (s, RPanic)
  | Encrypt =>
      let s := mkRing (rg_mode s) (rg_cipher_type s) (rg_key s) (nonce_advance (rg_nonce s)) in
      match aead_seal (rg_cipher_type s) (rg_key s) (rg_nonce s) input with
      | Some (output, tag) => (s, ROk (output ++ tag))
      | None => (s, RErr Library)
      end
  end.

(** Both [decrypt] and [decrypt_in_place]: here the length is checked first. *)
Definition ring_decrypt (input : bytes) : M RingAeadCipher CipherError bytes := λ s,
  match checked_sub (len input) (tag_size (rg_cipher_type s)) with
  | None => (s, RErr TooShort)
  | Some n =>
      match rg_mode s with
      | Encrypt => (s, RPanic)
      | Decrypt =>
          let s := mkRing (rg_mode s) (rg_cipher_type s) (rg_key s) (nonce_advance (rg_nonce s)) in
          match aead_open (rg_cipher_type s) (rg_key s) (rg_nonce s)
                  (take (Z.to_nat n) input) (drop (Z.to_nat n) input) with
          | Some p => (s, ROk p)
          | None => (s, RErr Library)
          end
      end
  end.

Definition encrypt (input : bytes) : M StreamCipher CipherError bytes := λ s,
  match s with
  | OpenSsl c => let '(c, r) := openssl_encrypt input c in (OpenSsl c, r)
  | Ring c => let '(c, r) := ring_encrypt input c in (Ring c, r)
  end.

Definition decrypt (input : bytes) : M StreamCipher CipherError bytes := λ s,
  match s with
  | OpenSsl c => let '(c, r) := openssl_decrypt input c in (OpenSsl c, r)
  | Ring c => let '(c, r) := ring_decrypt input c in (Ring c, r)
  end.

(** [is_in_place] *)
Definition is_in_place (s : StreamCipher) : bool := match s with OpenSsl _ => false | Ring _ => true end.

(** ** The state of a cipher: its type, key, and the number of messages so far *)

(** The nonce of message [n], counted from one: the counter in little-endian order. *)
Fixpoint nonce_of (size : nat) (n : Z) : bytes :=
  match size with
  | O => []
  | S m => byte_of n :: nonce_of m (n / 256)
  end.

Lemma nonce_of_length size n : length (nonce_of size n) = size.
Proof. revert n. induction size; intros; cbn; auto. Qed.

Lemma le_val_nonce_of size n : le_val (nonce_of size n) = n mod 256 ^ Z.of_nat size.
Proof.
  revert n. induction size as [|m IH]; intros n; cbn [nonce_of le_val].
  - by rewrite Z.mod_1_r.
  - rewrite IH, byte_val_of. rewrite Nat2Z.inj_succ, Z.pow_succ_r by lia.
    rewrite Z.rem_mul_r by lia. lia.
Qed.

Lemma nonce_advance_of size n : nonce_advance (nonce_of size n) = nonce_of size (n + 1).
Proof.
  revert n. induction size as [|m IH]; intros n; [done|]. cbn [nonce_of nonce_advance].
  rewrite byte_val_of. pose proof (Z.mod_pos_bound n 256 ltac:(lia)).
  destruct (Z.eqb_spec (n mod 256) 255) as [E|E].
  - rewrite IH. f_equal; [apply byte_val_inj; rewrite !byte_val_of|f_equal];
      Z.to_euclidean_division_equations; lia.
  - f_equal; [apply byte_val_inj; rewrite !byte_val_of|f_equal];
      Z.to_euclidean_division_equations; lia.
Qed.

(** Nonces of different messages differ, until the counter wraps around. *)
Lemma nonce_of_inj size n m :
  0 <= n < 256 ^ Z.of_nat size → 0 <= m < 256 ^ Z.of_nat size → nonce_of size n = nonce_of size m → n = m.
Proof.
  intros Hn Hm H. apply (f_equal le_val) in H. rewrite !le_val_nonce_of, !Z.mod_small in H; done.
Qed.

Lemma nonce_of_0 size : nonce_of size 0 = replicate size (byte_of 0).
Proof. induction size; cbn [nonce_of replicate]; [done|]. change (0 / 256) with 0. by rewrite IHsize. Qed.

(** [cipher_at s t k n mode]: the cipher [s] has processed [n] messages with key [k]. *)
Definition cipher_at (s : StreamCipher) (t : CipherType) (k : bytes) (n : Z) (mode : CryptoMode) : Prop :=
  len k = key_size t ∧
  match s with
  | OpenSsl c => c = mkOpenSsl t k (nonce_of (Z.to_nat (iv_size t)) n)
  | Ring c => c = mkRing mode t k (nonce_of (Z.to_nat (iv_size t)) n)
  end.

(** The frame of message [n]: ciphertext and tag under its nonce. *)
Definition sealed (t : CipherType) (k : bytes) (n : Z) (p f : bytes) : Prop :=
  ∃ c g, aead_seal t k (nonce_of (Z.to_nat (iv_size t)) n) p = Some (c, g) ∧ f = c ++ g.

Lemma nonce_len t n : len (nonce_of (Z.to_nat (iv_size t)) n) = iv_size t.
Proof. unfold len. rewrite nonce_of_length. by destruct t. Qed.

Lemma new_stream_at b t k mode :
  len k = key_size t → ∃ s, new_stream b t k mode = Some s ∧ cipher_at s t k 0 mode.
Proof.
  intros Hk. assert (zeros (iv_size t) = nonce_of (Z.to_nat (iv_size t)) 0) as Hz
    by (by rewrite nonce_of_0).
  assert (RingAeadCipher_new t k mode = Some (mkRing mode t k (zeros (iv_size t)))) as Hr
    by (unfold RingAeadCipher_new; by rewrite Hk, Z.eqb_refl).
  destruct b, t; cbn [new_stream]; rewrite ?Hr; eexists; (split; [done|]); split; try done;
    unfold OpenSsLCrypt_new; by rewrite Hz.
Qed.

Context {AL : AeadLaws}.

Lemma encrypt_at s t k n p : cipher_at s t k n Encrypt →
  ∃ s' f, encrypt p s = (s', ROk f) ∧ sealed t k (n + 1) p f ∧ cipher_at s' t k (n + 1) Encrypt.
Proof.
  intros [Hk Hs]. destruct (seal_total t k (nonce_of (Z.to_nat (iv_size t)) (n + 1)) p Hk) as (c & g & Hc);
    [apply nonce_len|].
  destruct s as [c0|c0]; subst c0; unfold encrypt, openssl_encrypt, ring_encrypt; cbn -[nonce_of];
    rewrite nonce_advance_of, Hc; do 2 eexists; (split; [done|]); (split; [by exists c, g|]); done.
Qed.

(** Decryption accepts exactly the frame of the next message, and never panics. *)
Lemma decrypt_at s t k n f : cipher_at s t k n Decrypt →
  ∃ s' r, decrypt f s = (s', r) ∧ r ≠ RPanic ∧
    (∀ p, r = ROk p → sealed t k (n + 1) p f ∧ cipher_at s' t k (n + 1) Decrypt) ∧
    (∀ p, sealed t k (n + 1) p f → r = ROk p).
Proof.
  intros [Hk Hs]. set (no := nonce_of (Z.to_nat (iv_size t)) (n + 1)).
  assert (∀ p, sealed t k (n + 1) p f → ∃ m, checked_sub (len f) (tag_size t) = Some m ∧
    aead_open t k no (take (Z.to_nat m) f) (drop (Z.to_nat m) f) = Some p) as Hopen.
  { intros p (c & g & Hc & ->). exists (len c). pose proof (seal_tag _ _ _ _ _ _ Hc) as Hg.
    rewrite len_app, Hg. pose proof (len_nonneg c). split.
    - rewrite checked_sub_ok by lia. f_equal. lia.
    - unfold len. rewrite Nat2Z.id, take_app_length, drop_app_length. by apply seal_open in Hc. }
  assert (∀ m p, aead_open t k no (take m f) (drop m f) = Some p → sealed t k (n + 1) p f) as Hseal.
  { intros m p Ho. apply open_seal in Ho. exists (take m f), (drop m f). by rewrite take_drop. }
  destruct s as [c0|c0]; subst c0; unfold decrypt, openssl_decrypt, ring_decrypt; cbn -[nonce_of];
    rewrite ?nonce_advance_of; fold no;
    destruct (checked_sub (len f) (tag_size t)) as [m|];
    try destruct (aead_open t k no (take (Z.to_nat m) f) (drop (Z.to_nat m) f)) as [p|] eqn:E;
    do 2 eexists; (split; [done|]); (split; [done|]); split; intros q Hq;
    try (apply Hopen in Hq as (m' & [= <-] & Hq); congruence); try discriminate;
    try (injection Hq as ->; split; [by eapply Hseal|done]).
Qed.

End Ciphers.

(** The nonces one cipher uses for its messages are pairwise different, for the first
    [2 ^ 96] of them: the counter starts at zero and is advanced before each message. *)
Theorem nonces_distinct t (i j : nat) :
  Z.of_nat i < 2 ^ 96 → Z.of_nat j < 2 ^ 96 →
  Nat.iter i nonce_advance (zeros (iv_size t)) = Nat.iter j nonce_advance (zeros (iv_size t)) → i = j.
Proof.
  assert (∀ n, Nat.iter n nonce_advance (zeros (iv_size t)) = nonce_of 12 (Z.of_nat n)) as Hn.
  { induction n as [|n IH]; cbn [Nat.iter].
    - change 0%nat with (Z.to_nat 0) at 1. rewrite nonce_of_0. by destruct t.
    - change (Nat.iter (S n) nonce_advance (zeros (iv_size t)))
        with (nonce_advance (Nat.iter n nonce_advance (zeros (iv_size t)))).
      rewrite IH, nonce_advance_of. f_equal. lia. }
  rewrite !Hn. intros Hi Hj H. apply nonce_of_inj in H; [lia|..]; change (256 ^ Z.of_nat 12) with (2 ^ 96); lia.
Qed.

Lemma nonces_distinct_witness :
  Nat.iter 300 nonce_advance (zeros (iv_size Aes128Gcm)) ≠ Nat.iter 44 nonce_advance (zeros (iv_size Aes128Gcm)).
Proof.
  intros H. pose proof (nonces_distinct Aes128Gcm 300 44 ltac:(lia) ltac:(lia) H). discriminate.
Defined.
