(* ===== verification/SecioStream.v ===== *)
(** * The encrypted stream ([secio/src/codec/secure_stream.rs])

    [SecureStream]: one frame per write, buffered reads, and the check of the nonce that ends a
    handshake. *)

From Stdlib Require Import ZArith Lia Bool.
From stdpp Require Import base list.
From S2P Require Import Prelude Text Wire SecioAlgorithms SecioCipher.

Open Scope Z_scope.

Inductive RecvBuf := RbVec (b : bytes) | RbByte (b : bytes).

Definition rb_bytes (r : RecvBuf) : bytes := match r with RbVec b | RbByte b => b end.

(** The first [size] bytes are handed out, the rest is kept. *)
Definition drain_to (size : Z) (r : RecvBuf) : RecvBuf * bytes :=
  match r with
  | RbVec b => (RbVec (drop (Z.to_nat size) b), take (Z.to_nat size) b)
  | RbByte b => (RbByte (drop (Z.to_nat size) b), take (Z.to_nat size) b)
  end.

Record SecureStream (T : Type) := mkSecure {
  sc_socket : T;
  sc_decode_cipher : StreamCipher;
  sc_encode_cipher : StreamCipher;
  sc_nonce : bytes;
  sc_recv_buf : RecvBuf;
}.
Arguments mkSecure {T} _ _ _ _ _.
Arguments sc_socket {T} _.
Arguments sc_decode_cipher {T} _.
Arguments sc_encode_cipher {T} _.
Arguments sc_nonce {T} _.
Arguments sc_recv_buf {T} _.

Section Stream.
Context `{AE : Aead} {T IOE : Type} `{K : Socket T IOE}.

Abbreviation S_ := (SecureStream T).
Abbreviation E_ := (SecioError IOE).

Definition put_socket (t : T) (s : S_) : S_ :=
  mkSecure t (sc_decode_cipher s) (sc_encode_cipher s) (sc_nonce s) (sc_recv_buf s).
Definition put_decode (c : StreamCipher) (s : S_) : S_ :=
  mkSecure (sc_socket s) c (sc_encode_cipher s) (sc_nonce s) (sc_recv_buf s).
Definition put_encode (c : StreamCipher) (s : S_) : S_ :=
  mkSecure (sc_socket s) (sc_decode_cipher s) c (sc_nonce s) (sc_recv_buf s).
Definition put_nonce (n : bytes) (s : S_) : S_ :=
  mkSecure (sc_socket s) (sc_decode_cipher s) (sc_encode_cipher s) n (sc_recv_buf s).
Definition put_recv_buf (b : RecvBuf) (s : S_) : S_ :=
  mkSecure (sc_socket s) (sc_decode_cipher s) (sc_encode_cipher s) (sc_nonce s) b.

Definition SecureStream_new (socket : T) (dec enc : StreamCipher) (nonce : bytes) : S_ :=
  mkSecure socket dec enc nonce (if is_in_place dec then RbByte [] else RbVec []).

Definition cipher_error (e : CipherError) : E_ :=
  match e with TooShort => FrameTooShort | Library => CryptoError end.

Definition decode_buffer (frame : bytes) : M S_ E_ RecvBuf := λ s,
  match decrypt frame (sc_decode_cipher s) with
  | (c, ROk p) => (put_decode c s, ROk (if is_in_place (sc_decode_cipher s) then RbByte p else RbVec p))
  | (c, RErr e) => (put_decode c s, RErr (cipher_error e))
  | (c, RPanic) => (put_decode c s, RPanic)
  end.

(** [self.encode_cipher.encrypt(buf).unwrap()] *)
Definition encode_buffer (buf : bytes) : M S_ E_ bytes := λ s,
  match encrypt buf (sc_encode_cipher s) with
  | (c, ROk f) => (put_encode c s, ROk f)
  | (c, _) => (put_encode c s, RPanic)
  end.

(** Copies what fits of the internal buffer. *)
Definition secure_drain (remaining : Z) : M S_ E_ bytes := λ s,
  if is_empty (rb_bytes (sc_recv_buf s)) then (s, ROk []) else
  let n := Z.min remaining (len (rb_bytes (sc_recv_buf s))) in
  let '(r, out) := drain_to n (sc_recv_buf s) in
  (put_recv_buf r s, ROk out).

(** The bytes a read puts into a buffer with room for [remaining]. *)
Definition secure_poll_read (remaining : Z) : M S_ E_ (Poll bytes) :=
  copied ← secure_drain remaining;
  if negb (is_empty copied) then mret (Ready copied) else
  next ← (λ s, let '(t, p) := sk_poll_next (sc_socket s) in (put_socket t s, ROk p));
  match next with
  | Ready (Some (inr t)) =>
      decoded ← decode_buffer t;
      if len (rb_bytes decoded) <=? remaining then mret (Ready (rb_bytes decoded))
      else
        _ ← modify (put_recv_buf decoded);
        out ← secure_drain remaining;
        mret (Ready out)
  | Ready (Some (inl e)) => throw (IoError e)
  | Ready None => throw BrokenPipe
  | Pending => mret Pending
  end.

Definition with_socket (p : T → T * Poll (IOE + unit)) : M S_ E_ (Poll unit) := λ s,
  match p (sc_socket s) with
  | (t, Ready (inl e)) => (put_socket t s, RErr (IoError e))
  | (t, Ready (inr _)) => (put_socket t s, ROk (Ready tt))
  | (t, Pending) => (put_socket t s, ROk Pending)
  end.

Definition secure_poll_write (buf : bytes) : M S_ E_ (Poll Z) :=
  ready ← with_socket sk_poll_ready;
  match ready with
  | Pending => mret Pending
  | Ready _ =>
      frame ← encode_buffer buf;
      _ ← with_socket (λ t, let '(t', r) := sk_start_send t frame in (t', Ready r));
      _ ← with_socket sk_poll_flush;
      mret (Ready (len buf))
  end.

Definition secure_poll_flush : M S_ E_ (Poll unit) := with_socket sk_poll_flush.
Definition secure_poll_shutdown : M S_ E_ (Poll unit) := with_socket sk_poll_close.

(** ** The asynchronous wrappers the handshake uses *)

(** [f(..).await?] of a poll. *)
Definition wait {A} (c : M S_ E_ (Poll A)) : M S_ (Halt E_) A := λ s,
  match c s with
  | (s', ROk (Ready a)) => (s', ROk a)
  | (s', ROk Pending) => (s', RErr Waits)
  | (s', RErr e) => (s', RErr (Fails e))
  | (s', RPanic) => (s', RPanic)
  end.

(** [read_exact]: reads until the buffer is full; a read of nothing is the end of the stream.
    Every turn but the last reads a byte, so the number of bytes bounds the turns. *)
Fixpoint read_exact (fuel : nat) (need : Z) (acc : bytes) : M S_ (Halt E_) bytes :=
  if need <=? 0 then mret acc else
  match fuel with
  | O => throw Waits
  | S fuel =>
      b ← wait (secure_poll_read need);
      if is_empty b then throw (Fails UnexpectedEof)
      else read_exact fuel (need - len b) (acc ++ b)
  end.

(** [write_all]: here a write takes the whole buffer. *)
Fixpoint write_all (fuel : nat) (buf : bytes) : M S_ (Halt E_) unit :=
  if is_empty buf then mret tt else
  match fuel with
  | O => throw Waits
  | S fuel =>
      n ← wait (secure_poll_write buf);
      if n <=? 0 then throw (Fails UnexpectedEof)
      else write_all fuel (drop (Z.to_nat n) buf)
  end.

Definition verify_nonce : M S_ (Halt E_) unit :=
  mine ← gets sc_nonce;
  if is_empty mine then mret tt else
  nonce ← read_exact (length mine) (len mine) [];
  let n := Z.min (len nonce) (len mine) in
  if bool_decide (take (Z.to_nat n) nonce = take (Z.to_nat n) mine)
  then modify (put_nonce (drop (Z.to_nat n) mine))
  else throw (Fails NonceVerificationFailed).

End Stream.
