(* ===== verification/SecioStreamProofs.v ===== *)
(** * The encrypted stream delivers what was written, and nothing else

    One read and one write, against any transport; then a writer and a reader, each on a
    transport of its own that may make it wait and may fail, joined by a network that carries
    the frames in order. *)

From Stdlib Require Import ZArith Lia Bool Relations.
From Stdlib Require Import Strings.String.
From stdpp Require Import base list relations.
From S2P Require Import Prelude Text Wire SecioAlgorithms SecioCipher SecioStream.

Open Scope Z_scope.

#[local] Arguments len : simpl never.
#[local] Arguments encrypt : simpl never.
#[local] Arguments decrypt : simpl never.

Section Stream.
Context `{AL : AeadLaws} {T IOE : Type} `{SL : SocketLaws T IOE}.

Abbreviation S_ := (SecureStream T).

(** The frames [fs] are the messages [ps] sealed with consecutive numbers from [n + 1] on. *)
Fixpoint frames_of (t : CipherType) (k : bytes) (n : Z) (ps fs : list bytes) : Prop :=
  match ps, fs with
  | [], [] => True
  | p :: ps, f :: fs => sealed t k (n + 1) p f ∧ frames_of t k (n + 1) ps fs
  | _, _ => False
  end.

Lemma frames_of_app t k n ps fs qs gs :
  frames_of t k n ps fs → frames_of t k (n + len ps) qs gs → frames_of t k n (ps ++ qs) (fs ++ gs).
Proof.
  revert n fs. induction ps as [|p ps IH]; intros n [|f fs]; cbn; try done.
  - intros _. change (len []) with 0. by rewrite Z.add_0_r.
  - intros [Hf Hfs] Hg. split; [done|]. apply IH; [done|]. rewrite len_cons in Hg.
    by replace (n + 1 + len ps) with (n + (1 + len ps)) by lia.
Qed.

Lemma frames_of_length t k n ps fs : frames_of t k n ps fs → length ps = length fs.
Proof. revert n fs. induction ps; intros n [|f fs]; cbn; try done. intros [_ H]. f_equal. by eapply IHps. Qed.

Lemma drain_run (remaining : Z) (s : S_) : 0 <= remaining →
  ∃ r out, secure_drain (IOE := IOE) remaining s = (put_recv_buf r s, ROk out) ∧
    rb_bytes (sc_recv_buf s) = out ++ rb_bytes r ∧ len out <= remaining ∧
    (0 < remaining → out = [] → rb_bytes (sc_recv_buf s) = []).
Proof.
  intros Hr. unfold secure_drain. destruct s as [so dc ec no rb]. cbn.
  destruct (is_empty (rb_bytes rb)) eqn:Hem.
  { exists rb, []. destruct (rb_bytes rb) eqn:Hb; [|done]. by split_and!. }
  set (n := Z.min remaining (len (rb_bytes rb))).
  assert (∀ out, out = take (Z.to_nat n) (rb_bytes rb) → len out <= remaining ∧
    (0 < remaining → out = [] → rb_bytes rb = [])) as Ho.
  { intros out ->. pose proof (len_nonneg (rb_bytes rb)). split.
    - rewrite len_take by lia. lia.
    - intros Hp Hn. apply (f_equal len) in Hn. rewrite len_take in Hn by lia.
      apply len_zero. change (len []) with 0 in Hn. lia. }
  destruct rb as [b|b]; cbn [drain_to rb_bytes] in *;
    eexists _, _; (split; [done|]); cbn; rewrite take_drop; (split; [done|]); by apply Ho.
Qed.

(** ** One read *)

(** The reader has opened [n] messages, and the frames coming in are the messages [ps]. *)
Definition reads (s : S_) (t : CipherType) (k : bytes) (n : Z) (ps : list bytes) : Prop :=
  cipher_at (sc_decode_cipher s) t k n Decrypt ∧ frames_of t k n ps (sk_incoming (sc_socket s)).

(** What is to be read yet. *)
Definition unread (s : S_) (ps : list bytes) : bytes := rb_bytes (sc_recv_buf s) ++ concat ps.

Definition same_writer (s s' : S_) : Prop :=
  sc_encode_cipher s' = sc_encode_cipher s ∧ sc_nonce s' = sc_nonce s ∧
  sk_sent (sc_socket s') = sk_sent (sc_socket s).

(** A read has room, or nothing is buffered (a read without room while bytes are buffered loses
    them: [empty_read_loses_data]). *)
Definition has_room (remaining : Z) (s : S_) : Prop :=
  0 <= remaining ∧ (0 < remaining ∨ rb_bytes (sc_recv_buf s) = []).

Lemma read_spec (remaining : Z) (s : S_) t k n ps : has_room remaining s → reads s t k n ps →
  ∃ s' r n' ps', secure_poll_read remaining s = (s', r) ∧ reads s' t k n' ps' ∧ same_writer s s' ∧
    n' + len ps' = n + len ps ∧
    match r with
    | ROk (Ready b) => unread s ps = b ++ unread s' ps' ∧ len b <= remaining ∧
        (0 < remaining → b = [] → rb_bytes (sc_recv_buf s) = [] ∧ ∃ tl, ps = [] :: tl)
    | ROk Pending => unread s ps = unread s' ps'
    | RErr e => unread s ps = unread s' ps' ∧ (e = BrokenPipe ∨ ∃ io, e = IoError io)
    | RPanic => False
    end.
Proof.
  intros [Hr0 Hroom] [Hc Hf]. unfold secure_poll_read, mbind, M_bind.
  destruct (drain_run remaining s Hr0) as (rb & out & -> & Hb & Hl & He).
  assert (out = [] → rb_bytes (sc_recv_buf s) = []) as He0 by (destruct Hroom; auto). clear He Hroom.
  destruct s as [so dc ec no rb0]. unfold put_recv_buf in *.
  cbn [sc_socket sc_decode_cipher sc_encode_cipher sc_nonce sc_recv_buf] in *.
  destruct (is_empty out) eqn:Heo; cbn [negb].
  2:{ do 4 eexists. split; [done|]. split; [by split|]. split; [done|]. split; [done|]. unfold unread. cbn.
      rewrite Hb, <- app_assoc. split_and!; [done..|]. by destruct out. }
  destruct out; [|done]. specialize (He0 eq_refl) as He. rewrite Hb in He. cbn in He, Hb.
  cbn [sc_socket]. destruct (sk_poll_next so) as [so' p] eqn:Ep. apply sk_next_view in Ep as [N1 N2].
  destruct p as [[[io|f]|]|].
  - do 4 eexists. split; [done|]. split; [split; [done|]; cbn; by rewrite N2|]. split; [done|].
    split; [done|].
    unfold unread. cbn. rewrite Hb. eauto.
  - rewrite N2 in Hf. destruct ps as [|q ps]; [done|]. destruct Hf as [Hq Hf].
    destruct (decrypt_at dc t k n f Hc) as (dc' & r & Hd & _ & D1 & D2). rewrite (D2 q Hq) in Hd.
    unfold decode_buffer. cbn [sc_decode_cipher put_socket]. rewrite Hd.
    destruct (D1 q (D2 q Hq)) as [_ Hc'].
    set (rq := if is_in_place dc then RbByte q else RbVec q).
    assert (rb_bytes rq = q) as Hrq by (unfold rq; by destruct (is_in_place dc)). rewrite Hrq.
    destruct (Z.leb_spec (len q) remaining) as [Hq1|Hq1].
    + exists (put_decode dc' (mkSecure so' dc ec no rb)), (ROk (Ready q)), (n + 1), ps.
      split; [done|]. split; [by split|]. split; [done|]. rewrite len_cons. split; [lia|].
      unfold unread. cbn. rewrite Hb, He.
      split_and!; [done|lia|]. intros _ ->. eauto.
    + unfold modify, mret, M_ret, put_decode, put_recv_buf, put_socket.
      cbn [sc_socket sc_decode_cipher sc_encode_cipher sc_nonce sc_recv_buf].
      destruct (drain_run remaining (mkSecure so' dc' ec no rq) ltac:(lia)) as (rb' & out & -> & Hb' & Hl' & He').
      cbn in Hb', He'. rewrite Hrq in Hb', He'.
      exists (mkSecure so' dc' ec no rb'), (ROk (Ready out)), (n + 1), ps.
      split; [done|]. split; [by split|]. split; [done|]. rewrite len_cons. split; [lia|].
      unfold unread. cbn. rewrite Hb, He, Hb'. cbn. rewrite <- app_assoc. split_and!; [done|done|]. intros Hout.
      intros Hnil. specialize (He' Hout Hnil). rewrite He' in Hq1. change (len []) with 0 in Hq1. lia.
  - do 4 eexists. split; [done|]. split; [split; [done|]; cbn; by rewrite N2|]. split; [done|].
    split; [done|].
    unfold unread. cbn. rewrite Hb. auto.
  - do 4 eexists. split; [done|]. split; [split; [done|]; cbn; by rewrite N2|]. split; [done|].
    split; [done|].
    unfold unread. cbn. by rewrite Hb.
Qed.

(** Any read that returns: it was served from the buffer and took nothing from the transport, or
    it opened the next frame. *)
Lemma read_cases (remaining : Z) (s s' : S_) t k n b :
  0 <= remaining → cipher_at (sc_decode_cipher s) t k n Decrypt →
  secure_poll_read remaining s = (s', ROk (Ready b)) →
  (b ≠ [] ∧ rb_bytes (sc_recv_buf s) = b ++ rb_bytes (sc_recv_buf s') ∧
   sk_incoming (sc_socket s') = sk_incoming (sc_socket s) ∧ sc_decode_cipher s' = sc_decode_cipher s) ∨
  (∃ f q, sk_incoming (sc_socket s) = f :: sk_incoming (sc_socket s') ∧ sealed t k (n + 1) q f ∧
   cipher_at (sc_decode_cipher s') t k (n + 1) Decrypt ∧
   if bool_decide (rb_bytes (sc_recv_buf s) = []) then q = b ++ rb_bytes (sc_recv_buf s')
   else remaining = 0 ∧ b = [] ∧
     rb_bytes (sc_recv_buf s') = if is_empty q then rb_bytes (sc_recv_buf s) else q).
Proof.
  intros Hr Hc. unfold secure_poll_read, mbind, M_bind.
  destruct (drain_run remaining s Hr) as (rb & out & -> & Ho & Hl & He).
  destruct out as [|x out]; cbn [is_empty negb]; [|intros [= <- <-]; left; by split_and!].
  cbn in Ho. intros H. right. revert H. cbn [put_recv_buf sc_socket].
  destruct (sk_poll_next (sc_socket s)) as [so p] eqn:Ep. apply sk_next_view in Ep as [_ N2].
  destruct p as [[[io|f]|]|]; try discriminate.
  unfold decode_buffer. destruct (decrypt_at (sc_decode_cipher s) t k n f Hc) as (dc & r & Hdec & _ & D1 & _).
  cbn [put_socket put_recv_buf sc_decode_cipher]. rewrite Hdec.
  destruct r as [q|e|]; [|discriminate..]. destruct (D1 q eq_refl) as [Hs Hc'].
  set (rq := if is_in_place (sc_decode_cipher s) then RbByte q else RbVec q).
  assert (rb_bytes rq = q) as Hrq by (unfold rq; by destruct (is_in_place _)). rewrite Hrq.
  destruct (Z.leb_spec (len q) remaining) as [Hq|Hq].
  - intros [= <- <-]. exists f, q. split_and!; [done..|]. cbn. case_bool_decide as Hb.
    + rewrite <- Ho, Hb. by rewrite app_nil_r.
    + assert (remaining = 0) as -> by (destruct (decide (0 < remaining)); [by destruct Hb; apply He|lia]).
      assert (q = []) as -> by (apply len_zero; pose proof (len_nonneg q); lia). by rewrite Ho.
  - unfold modify, mret, M_ret.
    match goal with |- context [secure_drain remaining ?x] =>
      destruct (drain_run remaining x Hr) as (rb' & out & -> & Hb' & Hl' & _) end.
    cbn in Hb'. rewrite Hrq in Hb'. intros [= <- <-]. exists f, q. split_and!; [done..|]. cbn.
    case_bool_decide as Hb; [done|].
    assert (remaining = 0) as -> by (destruct (decide (0 < remaining)); [by destruct Hb; apply He|lia]).
    assert (out = []) as -> by (apply len_zero; pose proof (len_nonneg out); lia).
    split_and!; [done..|]. cbn in Hb'. rewrite <- Hb'. destruct q; [done|]. done.
Qed.

(** Any read that returns data, whatever the transport delivers: it opened the frames [fs], none
    or one, as the next messages [ps]. *)
Lemma read_any (remaining : Z) (s s' : S_) t k n b :
  0 < remaining → cipher_at (sc_decode_cipher s) t k n Decrypt →
  secure_poll_read remaining s = (s', ROk (Ready b)) →
  ∃ ps fs, frames_of t k n ps fs ∧ sk_incoming (sc_socket s) = fs ++ sk_incoming (sc_socket s') ∧
    rb_bytes (sc_recv_buf s) ++ concat ps = b ++ rb_bytes (sc_recv_buf s') ∧
    cipher_at (sc_decode_cipher s') t k (n + len ps) Decrypt.
Proof.
  intros Hr Hc Hread.
  destruct (read_cases _ _ _ _ _ _ _ (Z.lt_le_incl _ _ Hr) Hc Hread)
    as [(_ & Ho & Hi & Hd)|(f & q & Hi & Hs & Hc' & Hq)].
  - exists [], []. cbn. rewrite app_nil_r, Ho, Hi, Hd. change (len []) with 0. by rewrite Z.add_0_r.
  - case_bool_decide as Hb; [|by destruct Hq as (-> & _)]. subst q.
    exists [b ++ rb_bytes (sc_recv_buf s')], [f]. rewrite Hb. cbn. by rewrite app_nil_r.
Qed.

Lemma read_exact_opens fuel need acc (s s' : S_) t k n out :
  cipher_at (sc_decode_cipher s) t k n Decrypt →
  read_exact fuel need acc s = (s', ROk out) →
  ∃ ps fs, frames_of t k n ps fs ∧ sk_incoming (sc_socket s) = fs ++ sk_incoming (sc_socket s') ∧
    acc ++ rb_bytes (sc_recv_buf s) ++ concat ps = out ++ rb_bytes (sc_recv_buf s').
Proof.
  revert need acc s n. induction fuel as [|fuel IH]; intros need acc s n Hc; cbn [read_exact];
    (destruct (Z.leb_spec need 0); [intros [= <- <-]; exists [], []; cbn; by rewrite app_nil_r|]);
    [discriminate|].
  intros (s1 & b & Hb & Hrest)%bind_ok. unfold wait in Hb.
  destruct (secure_poll_read need s) as [s2 [[b'|]| |]] eqn:E; try discriminate. injection Hb as -> ->.
  destruct (is_empty b); [discriminate|].
  destruct (read_any need s s1 t k n b ltac:(lia) Hc E) as (ps & fs & Hf & Hi & Hp & Hc').
  destruct (IH _ _ _ _ Hc' Hrest) as (ps' & fs' & Hf' & Hi' & Hp').
  exists (ps ++ ps'), (fs ++ fs'). split_and!.
  - by apply frames_of_app.
  - by rewrite Hi, Hi', app_assoc.
  - rewrite concat_app, (app_assoc (rb_bytes _)), Hp. rewrite <- Hp'. by rewrite <- !app_assoc.
Qed.

Lemma read_len (remaining : Z) (s s' : S_) b :
  0 <= remaining → secure_poll_read remaining s = (s', ROk (Ready b)) → len b <= remaining.
Proof.
  intros Hr. unfold secure_poll_read, mbind, M_bind.
  destruct (drain_run remaining s Hr) as (rb & out & -> & _ & Hl & _).
  destruct (is_empty out); cbn [negb]; [|by intros [= <- <-]].
  destruct (sk_poll_next _) as [so p]. destruct p as [[[io|f]|]|]; try discriminate.
  destruct (decode_buffer f _) as [s2 [d| |]]; try discriminate.
  destruct (Z.leb_spec (len (rb_bytes d)) remaining) as [Hd|Hd]; [by intros [= <- <-]|].
  unfold modify, mret, M_ret.
  match goal with |- context [secure_drain remaining ?x] =>
    destruct (drain_run remaining x Hr) as (rb' & out' & -> & _ & Hl' & _) end.
  by intros [= <- <-].
Qed.

Lemma read_exact_len fuel need acc (s s' : S_) out :
  0 <= need → read_exact fuel need acc s = (s', ROk out) → len out = len acc + need.
Proof.
  revert need acc s. induction fuel as [|fuel IH]; intros need acc s Hn; cbn [read_exact];
    (destruct (Z.leb_spec need 0); [intros [= <- <-]; lia|]); [discriminate|].
  intros (s1 & b & Hb & Hrest)%bind_ok. destruct (is_empty b); [discriminate|]. unfold wait in Hb.
  destruct (secure_poll_read need s) as [s2 [[b'|]| |]] eqn:E; try discriminate. injection Hb as -> ->.
  apply read_len in E; [|lia]. apply IH in Hrest; [|lia]. rewrite len_app in Hrest. lia.
Qed.

(** ** One write *)

Lemma write_spec (s : S_) t k n buf : cipher_at (sc_encode_cipher s) t k n Encrypt →
  ∃ s' r, secure_poll_write buf s = (s', r) ∧
    sc_decode_cipher s' = sc_decode_cipher s ∧ sc_recv_buf s' = sc_recv_buf s ∧ sc_nonce s' = sc_nonce s ∧
    sk_incoming (sc_socket s') = sk_incoming (sc_socket s) ∧
    match r with
    | ROk (Ready m) => m = len buf ∧ cipher_at (sc_encode_cipher s') t k (n + 1) Encrypt ∧
        ∃ f, sealed t k (n + 1) buf f ∧ sk_sent (sc_socket s') = sk_sent (sc_socket s) ++ [f]
    | ROk Pending => sc_encode_cipher s' = sc_encode_cipher s ∧
        sk_sent (sc_socket s') = sk_sent (sc_socket s)
    | RErr e => (∃ io, e = IoError io) ∧ (sk_sent (sc_socket s') = sk_sent (sc_socket s) ∨
        ∃ f, sealed t k (n + 1) buf f ∧ sk_sent (sc_socket s') = sk_sent (sc_socket s) ++ [f])
    | RPanic => False
    end.
Proof.
  intros Hc. destruct s as [so dc ec no rb]. cbn in Hc.
  unfold secure_poll_write, with_socket, mbind, M_bind, encode_buffer, put_socket, put_encode.
  cbn [sc_socket sc_decode_cipher sc_encode_cipher sc_nonce sc_recv_buf].
  destruct (sk_ready_view so) as [R1 R2]. destruct (sk_poll_ready so) as [so1 [[io|[]]|]]; cbn in R1, R2.
  - do 2 eexists. split; [done|]. cbn. split_and!; eauto.
  - cbn [sc_socket sc_decode_cipher sc_encode_cipher sc_nonce sc_recv_buf].
    destruct (encrypt_at ec t k n buf Hc) as (ec' & f & -> & Hf & Hc').
    cbn [sc_socket sc_decode_cipher sc_encode_cipher sc_nonce sc_recv_buf].
    destruct (sk_start_send so1 f) as [so2 r2] eqn:E2. apply sk_start_view in E2 as [S1 S2].
    destruct r2 as [io|[]].
    + do 2 eexists. split; [done|]. cbn. rewrite S1, R2, S2, R1. split_and!; eauto.
    + cbn [sc_socket sc_decode_cipher sc_encode_cipher sc_nonce sc_recv_buf].
      destruct (sk_flush_view so2) as [F1 F2].
      destruct (sk_poll_flush so2) as [so3 [[io|[]]|]]; cbn in F1, F2;
        do 2 eexists; (split; [done|]); cbn; rewrite ?F1, ?F2, ?S1, ?S2, ?R1, ?R2; split_and!; eauto.
  - do 2 eexists. split; [done|]. cbn. split_and!; eauto.
Qed.

End Stream.

(** ** Over a pipe *)

Section OnPipe.
Context `{AL : AeadLaws}.

(** Over a pipe, a write sends exactly the sealed frame, and a read with enough room returns
    the next message. *)
Lemma sealed_unique t k n p f g : sealed t k n p f → sealed t k n p g → f = g.
Proof. intros (c & h & Hc & ->) (c' & h' & Hc' & ->). congruence. Qed.

Lemma pipe_write (s : SecureStream Pipe) t k n buf f :
  cipher_at (sc_encode_cipher s) t k n Encrypt → sealed t k (n + 1) buf f →
  ∃ enc, cipher_at enc t k (n + 1) Encrypt ∧ secure_poll_write buf s =
    (mkSecure (mkPipe (pp_sent (sc_socket s) ++ [f]) (pp_incoming (sc_socket s)) (pp_ended (sc_socket s)))
      (sc_decode_cipher s) enc (sc_nonce s) (sc_recv_buf s), ROk (Ready (len buf))).
Proof.
  intros Hc Hf. destruct (encrypt_at _ t k n buf Hc) as (enc & g & He & Hg & Hc').
  rewrite (sealed_unique _ _ _ _ _ _ Hf Hg). exists enc. split; [done|].
  destruct s as [so dc ec no rb]. cbn in He.
  unfold secure_poll_write, with_socket, mbind, M_bind, encode_buffer, put_socket, put_encode. cbn. by rewrite He.
Qed.

Lemma pipe_read (s : SecureStream Pipe) t k n remaining p f fs :
  cipher_at (sc_decode_cipher s) t k n Decrypt → rb_bytes (sc_recv_buf s) = [] →
  pp_incoming (sc_socket s) = f :: fs → sealed t k (n + 1) p f → len p <= remaining →
  ∃ dec, cipher_at dec t k (n + 1) Decrypt ∧ secure_poll_read remaining s =
    (mkSecure (mkPipe (pp_sent (sc_socket s)) fs (pp_ended (sc_socket s)))
      dec (sc_encode_cipher s) (sc_nonce s) (sc_recv_buf s), ROk (Ready p)).
Proof.
  intros Hc Hb Hi Hf Hl. destruct (decrypt_at _ t k n f Hc) as (dec & r & Hd & _ & D1 & D2).
  pose proof (D2 p Hf) as ->. destruct (D1 p eq_refl) as [_ Hc']. exists dec. split; [done|].
  destruct s as [[sent inc ended] dc ec no rb]. cbn in *. subst inc.
  unfold secure_poll_read, secure_drain, decode_buffer, mbind, M_bind. cbn. rewrite Hb. cbn. rewrite Hd.
  assert (rb_bytes (if is_in_place dc then RbByte p else RbVec p) = p) as ->
    by (by destruct (is_in_place dc)).
  replace (len p <=? remaining) with true by lia. done.
Qed.

End OnPipe.

(** ** A writer and a reader *)

Section Link.
Context `{AL : AeadLaws} {T T' IOE : Type} `{SL : SocketLaws T IOE} `{SL' : SocketLaws T' IOE}.

(** The two ends, on transports of their own; how many of the writer's frames have arrived at
    the reader; what the writer has taken, whether a write has failed, and what was read. *)
Record link := mkLink {
  lk_w : SecureStream T; lk_r : SecureStream T'; lk_moved : nat;
  lk_written : bytes; lk_failed : bool; lk_read : bytes }.

(** What a write takes: nothing when it waits, the bytes it reports when it completes; a write
    that fails has taken its bytes when its frame was handed to the transport all the same (it
    was the flush that failed). *)
Definition taken (w w' : SecureStream T) (buf : bytes) (r : res (SecioError IOE) (Poll Z)) : bytes :=
  match r with
  | ROk (Ready n) => take (Z.to_nat n) buf
  | RErr _ => if bool_decide (sk_sent (sc_socket w') = sk_sent (sc_socket w)) then [] else buf
  | _ => []
  end.

Definition failed (r : res (SecioError IOE) (Poll Z)) : bool :=
  match r with ROk _ => false | _ => true end.

Definition got (r : res (SecioError IOE) (Poll bytes)) : bytes :=
  match r with ROk (Ready b) => b | _ => [] end.

(** Writes and reads with any outcome, as long as no write has failed before; the network moving
    the oldest frame; and whatever else happens to the two ends: their transports change, or the
    opposite direction is used (the writer reads, the reader writes, flushes and shuts down). *)
Inductive link_step : link → link → Prop :=
| link_write w w' r m a b buf o :
    secure_poll_write buf w = (w', o) →
    link_step (mkLink w r m a false b) (mkLink w' r m (a ++ taken w w' buf o) (failed o) b)
| link_move w r m a x b f t :
    sk_sent (sc_socket w) !! m = Some f → sk_incoming t = sk_incoming (sc_socket r) ++ [f] →
    link_step (mkLink w r m a x b) (mkLink w (put_socket t r) (S m) a x b)
| link_read w r r' m a x b remaining o :
    has_room remaining r → secure_poll_read remaining r = (r', o) →
    link_step (mkLink w r m a x b) (mkLink w r' m a x (b ++ got o))
| link_other w w' r r' m a x b :
    sc_encode_cipher w' = sc_encode_cipher w → sk_sent (sc_socket w') = sk_sent (sc_socket w) →
    sc_decode_cipher r' = sc_decode_cipher r → sc_recv_buf r' = sc_recv_buf r →
    sk_incoming (sc_socket r') = sk_incoming (sc_socket r) →
    link_step (mkLink w r m a x b) (mkLink w' r' m a x b).

(** What [link_other] stands for: the calls of the opposite direction. *)
Lemma other_read w w' (r : SecureStream T') m a x b remaining o t k n ps :
  has_room remaining w → reads w t k n ps → secure_poll_read remaining w = (w', o) →
  link_step (mkLink w r m a x b) (mkLink w' r m a x b).
Proof.
  intros Hh Hr Hp. destruct (read_spec remaining w t k n ps Hh Hr) as (w1 & o1 & n' & ps' & H1 & _ & (E1 & _ & E2) & _).
  rewrite Hp in H1. injection H1 as <- <-. by apply link_other.
Qed.

Lemma other_write (w : SecureStream T) r r' m a x b buf o t k n :
  cipher_at (sc_encode_cipher r) t k n Encrypt → secure_poll_write buf r = (r', o) →
  link_step (mkLink w r m a x b) (mkLink w r' m a x b).
Proof.
  intros Hc Hp. destruct (write_spec r t k n buf Hc) as (r1 & o1 & H1 & E1 & E2 & _ & E3 & _).
  rewrite Hp in H1. injection H1 as <- <-. by apply link_other.
Qed.

Definition link_inv (t : CipherType) (k : bytes) (l : link) : Prop :=
  ∃ n ps qs,
    (lk_failed l = false → cipher_at (sc_encode_cipher (lk_w l)) t k (n + len ps + len qs) Encrypt) ∧
    reads (lk_r l) t k n ps ∧ (lk_moved l <= length (sk_sent (sc_socket (lk_w l))))%nat ∧
    frames_of t k (n + len ps) qs (drop (lk_moved l) (sk_sent (sc_socket (lk_w l)))) ∧
    lk_written l = lk_read l ++ unread (lk_r l) ps ++ concat qs.

Lemma link_write_inv t k w w' r m a b buf o : secure_poll_write buf w = (w', o) →
  link_inv t k (mkLink w r m a false b) →
  link_inv t k (mkLink w' r m (a ++ taken w w' buf o) (failed o) b).
Proof.
  intros Hs (n & ps & qs & Hc & Hr & Hm & Hf & Hw). cbn in *. specialize (Hc eq_refl).
  destruct (write_spec w t k _ buf Hc) as (w1 & o1 & H1 & _ & _ & _ & _ & H2). rewrite Hs in H1.
  injection H1 as <- <-.
  assert (∀ f, sealed t k (n + len ps + len qs + 1) buf f →
    sk_sent (sc_socket w') = sk_sent (sc_socket w) ++ [f] →
    (failed o = false → cipher_at (sc_encode_cipher w') t k (n + len ps + len qs + 1) Encrypt) →
    link_inv t k (mkLink w' r m (a ++ buf) (failed o) b)) as Hgo.
  { intros f Hf' Hsent Hc'. exists n, ps, (qs ++ [buf]). cbn. rewrite len_app, len_cons. change (len []) with 0.
    rewrite Hsent, length_app, drop_app_le by done. split_and!; [|done|cbn; lia| |].
    - by replace (n + len ps + (len qs + (1 + 0))) with (n + len ps + len qs + 1) by lia.
    - apply frames_of_app; [done|]. by cbn.
    - rewrite Hw, concat_app. cbn. by rewrite app_nil_r, <- !app_assoc. }
  assert (sk_sent (sc_socket w') = sk_sent (sc_socket w) →
    (failed o = false → sc_encode_cipher w' = sc_encode_cipher w) →
    link_inv t k (mkLink w' r m (a ++ []) (failed o) b)) as Hno.
  { intros Hsent Hc'. exists n, ps, qs. cbn. rewrite Hsent, app_nil_r. split_and!; [|done..].
    intros H0. by rewrite Hc'. }
  destruct o as [[z|]|e|]; cbn [taken failed] in *; [..|done].
  - destruct H2 as (-> & Hc' & f & Hf' & Hsent). unfold len. rewrite Nat2Z.id, firstn_all. by apply (Hgo f).
  - destruct H2 as [H2 H3]. by apply Hno.
  - destruct H2 as [_ [Hsent|(f & Hf' & Hsent)]]; case_bool_decide as Hd; [by apply Hno|done| |by apply (Hgo f)].
    rewrite Hsent in Hd. apply (f_equal length) in Hd. rewrite length_app in Hd. cbn in Hd. lia.
Qed.

Lemma link_step_inv t k l l' : link_step l l' → link_inv t k l → link_inv t k l'.
Proof.
  intros Hs. destruct Hs as [w w' r m a b buf o Hs|w r m a x b f so Hs Hi|w r r' m a x b rem o Hrem Hs|
    w w' r r' m a x b H1 H2 H3 H4 H5]; [by apply link_write_inv|..]; intros (n & ps & qs & Hc & Hr & Hm & Hf & Hw); cbn in *.
  - rewrite (drop_S _ _ _ Hs) in Hf. destruct qs as [|q qs]; [done|]. destruct Hf as [Hq Hf].
    exists n, (ps ++ [q]), qs. cbn. rewrite len_app, len_cons. rewrite len_cons in Hc. change (len []) with 0.
    replace (n + (len ps + (1 + 0))) with (n + len ps + 1) by lia. split_and!; [|split| |done|].
    + by replace (n + len ps + 1 + len qs) with (n + len ps + (1 + len qs)) by lia.
    + apply Hr.
    + cbn. rewrite Hi. apply frames_of_app; [apply Hr|]. by cbn.
    + apply lookup_lt_Some in Hs. lia.
    + rewrite Hw. unfold unread. cbn. rewrite concat_app. cbn. by rewrite app_nil_r, <- !app_assoc.
  - destruct (read_spec rem r t k n ps Hrem Hr) as (r1 & o1 & n' & ps' & H1 & Hr' & _ & Hn & H2).
    rewrite Hs in H1. injection H1 as <- <-. exists n', ps', qs. cbn. rewrite Hn. split_and!; [done..|].
    rewrite Hw. rewrite <- app_assoc. f_equal. rewrite app_assoc. f_equal.
    destruct o as [[z|]|e|]; cbn; [by destruct H2|done|by destruct H2|done].
  - exists n, ps, qs. unfold reads, unread. cbn. rewrite H1, H2, H3, H4, H5. done.
Qed.

Lemma link_steps_inv t k l l' : rtc link_step l l' → link_inv t k l → link_inv t k l'.
Proof. induction 1; eauto using link_step_inv. Qed.

(** Two ends whose ciphers have processed the same number of messages, with nothing under way;
    what the writer's transport has sent before ([m] frames) has been taken by the reader. *)
Definition link_start (t : CipherType) (k : bytes) (n : Z) (l : link) : Prop :=
  cipher_at (sc_encode_cipher (lk_w l)) t k n Encrypt ∧ cipher_at (sc_decode_cipher (lk_r l)) t k n Decrypt ∧
  lk_moved l = length (sk_sent (sc_socket (lk_w l))) ∧ sk_incoming (sc_socket (lk_r l)) = [] ∧
  rb_bytes (sc_recv_buf (lk_r l)) = [] ∧ lk_written l = [] ∧ lk_failed l = false ∧ lk_read l = [].

Lemma link_start_inv t k n l : link_start t k n l → link_inv t k l.
Proof.
  intros (Hw & Hr & Hm & Hi & Hb & Ha & _ & Hrd). exists n, [], []. unfold reads, unread. rewrite Hm, drop_all.
  rewrite Hi, Hb, Ha, Hrd. change (len []) with 0. rewrite !Z.add_0_r. by split_and!.
Qed.

(** C3: what is read from an encrypted stream is, in order, what was written to the other end.
    Each end is on any transport that keeps the socket laws, which may make any call wait or
    fail; the frames handed to the writer's transport arrive in order at the reader's. The two
    restrictions on the users of the stream: nothing is written after a write has failed, and no
    read is made without room while bytes are buffered. Then the bytes read are always a prefix
    of the bytes written; they are all of them once nothing is under way; and a read that has
    room never panics and fails only with an error of the transport, never because of the
    cryptography. *)
Theorem secure_stream_in_order t k n l0 l :
  link_start t k n l0 → rtc link_step l0 l →
  lk_read l `prefix_of` lk_written l ∧
  (lk_moved l = length (sk_sent (sc_socket (lk_w l))) → sk_incoming (sc_socket (lk_r l)) = [] →
   rb_bytes (sc_recv_buf (lk_r l)) = [] → lk_read l = lk_written l) ∧
  (∀ remaining, has_room remaining (lk_r l) → ∃ r' o, secure_poll_read remaining (lk_r l) = (r', o) ∧
    match o with
    | ROk (Ready b) => lk_read l ++ b `prefix_of` lk_written l
    | ROk Pending => True
    | RErr e => e = BrokenPipe ∨ ∃ io, e = IoError io
    | RPanic => False
    end).
Proof.
  intros Hst Hs. apply link_start_inv in Hst.
  destruct (link_steps_inv _ _ _ _ Hs Hst) as (m & ps & qs & Hc & Hr & Hm & Hf & Hw).
  rewrite Hw. split_and!.
  - by apply prefix_app_r.
  - intros H1 H2 H3. rewrite H1, drop_all in Hf. destruct Hr as [_ Hr]. rewrite H2 in Hr.
    destruct ps, qs; try done. unfold unread. rewrite H3. cbn. by rewrite app_nil_r.
  - intros rem Hrem. destruct (read_spec rem (lk_r l) t k m ps Hrem Hr) as (r1 & o & n' & ps' & H1 & _ & _ & _ & H2).
    exists r1, o. split; [done|]. destruct o as [[b|]|e|]; [|done|by destruct H2|done].
    destruct H2 as [-> _]. rewrite <- !app_assoc. apply prefix_app, prefix_app_r. done.
Qed.

(** C30: a read accepts nothing but the next frame of the peer. Whatever the transport delivers
    and whatever room the read has, a read that returns [b] either is served from the buffer, and
    then [b] is the first of what was buffered and no frame was taken, or took exactly one frame,
    which is the sealing, under the session key and the number of the next message, of one
    message. When nothing was buffered, this message is exactly [b] and what is kept for the
    next reads. When something was buffered, the read had no room: it returns nothing, and the
    message, unless empty, replaces what was buffered. *)
Theorem only_sealed_frames_read (s s' : SecureStream T) t k n remaining b :
  0 <= remaining → cipher_at (sc_decode_cipher s) t k n Decrypt →
  secure_poll_read remaining s = (s', ROk (Ready b)) →
  (b ≠ [] ∧ rb_bytes (sc_recv_buf s) = b ++ rb_bytes (sc_recv_buf s') ∧
   sk_incoming (sc_socket s') = sk_incoming (sc_socket s) ∧ sc_decode_cipher s' = sc_decode_cipher s) ∨
  (∃ f q, sk_incoming (sc_socket s) = f :: sk_incoming (sc_socket s') ∧ sealed t k (n + 1) q f ∧
   cipher_at (sc_decode_cipher s') t k (n + 1) Decrypt ∧
   if bool_decide (rb_bytes (sc_recv_buf s) = []) then q = b ++ rb_bytes (sc_recv_buf s')
   else remaining = 0 ∧ b = [] ∧
     rb_bytes (sc_recv_buf s') = if is_empty q then rb_bytes (sc_recv_buf s) else q).
Proof. apply read_cases. Qed.

End Link.

(** ** A transparent cipher with a constant tag, for concrete runs *)

#[export] Instance demo_aead : Aead := {
  aead_seal t k n p :=
    if bool_decide (len k = key_size t ∧ len n = iv_size t) then Some (p, zeros (tag_size t)) else None;
  aead_open t k n c g :=
    if bool_decide ((len k = key_size t ∧ len n = iv_size t) ∧ g = zeros (tag_size t)) then Some c else None;
}.

#[export] Instance demo_aead_laws : AeadLaws.
Proof.
  split; cbn; intros t k n p.
  - intros Hk Hn. rewrite bool_decide_eq_true_2 by done. eauto.
  - intros c g. case_bool_decide; [|done]. intros [= <- <-]. by destruct t.
  - intros c g. case_bool_decide; [|done]. intros [= <- <-]. by rewrite bool_decide_eq_true_2.
  - intros c g. case_bool_decide as H; [|done]. destruct H as [H ->]. intros [= <-].
    by rewrite bool_decide_eq_true_2.
Qed.

Definition demo_key : bytes := zeros 16.
Definition demo_end : SecureStream Pipe :=
  let c := OpenSsl (OpenSsLCrypt_new Aes128Gcm demo_key) in SecureStream_new (mkPipe [] [] false) c c [].

(** Write "hello", move the frame, read up to three bytes. *)
Definition demo_start : link (T := Pipe) (T' := Pipe) := mkLink demo_end demo_end 0 [] false [].

Definition demo_link : link (T := Pipe) (T' := Pipe) :=
  let w := (secure_poll_write (str "hello") demo_end).1 in
  let r := put_socket (mkPipe [] (pp_sent (sc_socket w)) false) demo_end in
  mkLink w (secure_poll_read 3 r).1 1 (str "hello") false (str "hel").

Lemma demo_link_steps : rtc link_step demo_start demo_link.
Proof.
  eapply rtc_l; [eapply (link_write _ _ _ _ _ _ (str "hello")); vm_compute; reflexivity|].
  eapply rtc_l; [eapply (link_move _ _ _ _ _ _ _ (mkPipe [] (pp_sent (sc_socket (secure_poll_write (str "hello") demo_end).1)) false));
    vm_compute; reflexivity|].
  eapply rtc_l; [eapply (link_read _ _ _ _ _ _ _ 3); [by split; [|left]|vm_compute; reflexivity]|].
  apply (eq_ind _ (λ l, rtc link_step l demo_link) (rtc_refl _ demo_link)). vm_compute. reflexivity.
Qed.

Lemma secure_stream_in_order_witness :
  lk_read demo_link `prefix_of` lk_written demo_link.
Proof.
  exact (proj1 (secure_stream_in_order Aes128Gcm demo_key 0 demo_start demo_link
    ltac:(split_and!; done) demo_link_steps)).
Defined.

Lemma only_sealed_frames_read_witness :
  let s := put_socket (mkPipe [] [str "hello" ++ zeros 16] false) demo_end in
  ∃ f q, sk_incoming (sc_socket s) = f :: sk_incoming (sc_socket (secure_poll_read 9 s).1) ∧
    sealed Aes128Gcm demo_key (0 + 1) q f ∧
    q = str "hello" ++ rb_bytes (sc_recv_buf (secure_poll_read 9 s).1).
Proof.
  intros s. destruct (only_sealed_frames_read s (secure_poll_read 9 s).1 Aes128Gcm demo_key 0 9 (str "hello"))
    as [(_ & H & _)|(f & q & H1 & H2 & _ & H3)]; [lia|split; done|vm_compute; reflexivity| |].
  - exfalso. discriminate H.
  - exists f, q. split; [exact H1|]. split; [exact H2|]. exact H3.
Defined.

(** A read into a buffer without room, while data is buffered, takes the next frame from the
    transport and overwrites the buffered data: the bytes "lo" are never delivered. *)
Theorem empty_read_loses_data :
  let s := put_socket (mkPipe [] [str "world" ++ zeros 16] false) (lk_r demo_link) in
  rb_bytes (sc_recv_buf s) = str "lo" ∧
  rb_bytes (sc_recv_buf (secure_poll_read 0 s).1) = str "world" ∧
  (secure_poll_read 0 s).2 = ROk (Ready []).
Proof. vm_compute. done. Qed.
