(* ===== verification/SecioHandshake.v ===== *)
(** * The secio handshake ([secio/src/handshake/])

    [Config] ([mod.rs]), the context that is filled step by step ([handshake_context.rs]) and the
    procedure ([procedure.rs]): exchange of proposals, choice of the algorithms, exchange of
    signed ephemeral keys, derivation of the two session keys, and the check of the nonces over
    the encrypted stream. Hashes, signatures, key agreement and HMAC are an interface; random
    values are arguments. *)

From Stdlib Require Import ZArith Lia Bool.
From Stdlib Require Import Strings.String.
From stdpp Require Import base list.
From S2P Require Import Prelude Text Molecule Messages Wire SecioAlgorithms SecioCipher SecioStream.

Open Scope Z_scope.

(** ** Cryptographic primitives ([sha256_compat], [secp256k1_compat], [dh_compat], [hmac_compat]) *)

Class Primitives := {
  SecretKey : Type; Signature : Type; Message : Type; CurvePoint : Type;
  EphemeralPrivateKey : Type; Random : Type;
  sha256 : bytes → bytes;
  from_secret_key : SecretKey → CurvePoint;
  serialize_pubkey : CurvePoint → bytes;
  pubkey_from_slice : bytes → option CurvePoint;
  message_from_slice : bytes → option Message;
  sign : Message → SecretKey → Signature;
  verify : Message → Signature → CurvePoint → bool;
  signature_to_vec : Signature → bytes;
  signature_from_der : bytes → option Signature;
  generate_agreement : KeyAgreement → Random → option (EphemeralPrivateKey * bytes);
  agree : KeyAgreement → EphemeralPrivateKey → bytes → option bytes;
  hmac_sign : Digest → bytes → bytes → bytes;
}.

Class PrimitivesLaws `{PR : Primitives} : Prop := {
  (** A hash is a message; keys and signatures are read back from their encodings, which are
      short. *)
  sha256_message : ∀ d, message_from_slice (sha256 d) ≠ None;
  pubkey_roundtrip : ∀ p, pubkey_from_slice (serialize_pubkey p) = Some p;
  pubkey_short : ∀ p, len (serialize_pubkey p) <= 65;
  signature_roundtrip : ∀ s, signature_from_der (signature_to_vec s) = Some s;
  signature_short : ∀ s, len (signature_to_vec s) <= 72;
  sign_verify : ∀ m k, verify m (sign m k) (from_secret_key k) = true;
  (** Both sides of a key agreement compute the same secret. *)
  agree_same : ∀ a r1 r2 s1 p1 s2 p2,
    generate_agreement a r1 = Some (s1, p1) → generate_agreement a r2 = Some (s2, p2) →
    ∃ z, agree a s1 p2 = Some z ∧ agree a s2 p1 = Some z;
  ephemeral_short : ∀ a r s p, generate_agreement a r = Some (s, p) → len p <= 133;
  hmac_nonempty : ∀ d k m, hmac_sign d k m ≠ [];
}.

Section Handshake.
Context `{PR : Primitives} `{AE : Aead} `{MN : MolNumber}.

(** ** The context *)

Record Config := mkConfig {
  cf_key : SecretKey;
  cf_agreements_proposal : option bytes;
  cf_ciphers_proposal : option bytes;
  cf_digests_proposal : option bytes;
}.

Definition Config_new (key : SecretKey) : Config := mkConfig key None None None.
Definition key_agreements (xs : list KeyAgreement) (c : Config) : Config :=
  mkConfig (cf_key c) (Some (key_agreements_proposition xs)) (cf_ciphers_proposal c) (cf_digests_proposal c).
Definition ciphers (xs : list CipherType) (c : Config) : Config :=
  mkConfig (cf_key c) (cf_agreements_proposal c) (Some (ciphers_proposition xs)) (cf_digests_proposal c).
Definition digests (xs : list Digest) (c : Config) : Config :=
  mkConfig (cf_key c) (cf_agreements_proposal c) (cf_ciphers_proposal c) (Some (digests_proposition xs)).

Definition agreements_of (c : Config) : bytes := default DEFAULT_AGREEMENTS_PROPOSITION (cf_agreements_proposal c).
Definition ciphers_of (c : Config) : bytes := default DEFAULT_CIPHERS_PROPOSITION (cf_ciphers_proposal c).
Definition digests_of (c : Config) : bytes := default DEFAULT_DIGESTS_PROPOSITION (cf_digests_proposal c).

(** [SecioKeyPair::public_key] *)
Definition public_key (k : SecretKey) : PublicKey := Secp256k1 (serialize_pubkey (from_secret_key k)).

Record Local := mkLocal { lo_nonce : bytes; lo_public_key : bytes; lo_proposition_bytes : bytes }.

Record Remote := mkRemote {
  re_local : Local;
  re_proposition_bytes : bytes;
  re_public_key : PublicKey;
  re_nonce : bytes;
  re_hashes_ordering : comparison;
  re_chosen_exchange : KeyAgreement;
  re_chosen_cipher : CipherType;
  re_chosen_hash : Digest;
}.

Definition with_local (config : Config) (nonce : bytes) : Local :=
  let public_key := public_key (cf_key config) in
  let proposition := mkPropose nonce (PublicKey_encode public_key)
    (agreements_of config) (ciphers_of config) (digests_of config) in
  mkLocal nonce (inner public_key) (Propose_encode proposition).

(** [match X::decode(..) { Some(x) => x, None => return Err(HandshakeParsingFailure) }] *)
Definition parsed {IOE A} (d : res MolError (option A)) : res (SecioError IOE) A :=
  match d with
  | ROk (Some a) => ROk a
  | ROk None | RErr _ => RErr HandshakeParsingFailure
  | RPanic => RPanic
  end.

Definition or_fail {IOE A} (e : SecioError IOE) (o : option A) : res (SecioError IOE) A :=
  match o with Some a => ROk a | None => RErr e end.

Definition with_remote {IOE} (config : Config) (state : Local) (remote_bytes : bytes)
    : res (SecioError IOE) Remote :=
  propose ← parsed (Propose_decode remote_bytes);
  let nonce := pr_rand propose in
  public_key ← parsed (PublicKey_decode (pr_pubkey propose));
  if bool_decide (inner public_key = lo_public_key state) then RErr ConnectSelf else
  let oh1 := sha256 (inner public_key ++ lo_nonce state) in
  let oh2 := sha256 (lo_public_key state ++ nonce) in
  let hashes_ordering := bytes_cmp oh1 oh2 in
  chosen_exchange ← or_fail NoSupportIntersection
    (select_agreement hashes_ordering (agreements_of config) (pr_exchange propose));
  chosen_cipher ← or_fail NoSupportIntersection
    (select_cipher hashes_ordering (ciphers_of config) (pr_ciphers propose));
  chosen_hash ← or_fail NoSupportIntersection
    (select_digest hashes_ordering (digests_of config) (pr_hashes propose));
  ROk (mkRemote state remote_bytes public_key nonce hashes_ordering chosen_exchange chosen_cipher chosen_hash).

(** ** Key derivation *)

Definition SEED : bytes := str "key expansion".

(** The loop of [stretch_key]; [out] is what was written of [result]. Every turn writes at least
    a byte, so the length of [result] bounds the turns. *)
Fixpoint stretch_loop (fuel : nat) (d : Digest) (key a out : bytes) (n : Z) : option bytes :=
  if n <=? len out then Some out else
  match fuel with
  | O => None
  | S fuel =>
      let b := hmac_sign d key (a ++ SEED) in
      let todo := Z.min (len b) (n - len out) in
      stretch_loop fuel d key (hmac_sign d key a) (out ++ take (Z.to_nat todo) b) n
  end.

Definition stretch_key (d : Digest) (key : bytes) (n : Z) : option bytes :=
  stretch_loop (Z.to_nat n) d key (hmac_sign d key SEED) [] n.

(** [split_at] panics beyond the end. *)
Definition split_at (k : Z) (l : bytes) : option (bytes * bytes) :=
  if bool_decide (0 <= k <= len l) then Some (take (Z.to_nat k) l, drop (Z.to_nat k) l) else None.

Definition generate_stream_cipher_and_hmac (b : Build) (t : CipherType) (mode : CryptoMode)
    (info : bytes) (ksize isize : Z) : option StreamCipher :=
  '(_, rest) ← split_at isize info;
  '(cipher_key, _) ← split_at ksize rest;
  new_stream b t cipher_key mode.

(** ** The procedure *)

Section Procedure.
Context {T IOE : Type} `{K : Socket T IOE}.

Abbreviation E_ := (SecioError IOE).

(** [x?] inside the procedure. *)
Definition lift {A} (r : res E_ A) : M T (Halt E_) A := λ t,
  match r with
  | ROk a => (t, ROk a)
  | RErr e => (t, RErr (Fails e))
  | RPanic => (t, RPanic)
  end.

(** [match socket.next().await { Some(p) => p?, None => return Err(eof) }] *)
Definition receive : M T (Halt E_) bytes :=
  m ← next IoError;
  match m with
  | Some p => mret p
  | None => throw (Fails UnexpectedEof)
  end.

(** The exchange message: the ephemeral key and a signature of both proposals and this key. *)
Definition make_exchange (config : Config) (re : Remote) (tmp_pub_key : bytes) : res E_ Exchange :=
  let data_to_sign := lo_proposition_bytes (re_local re) ++ re_proposition_bytes re ++ tmp_pub_key in
  message ← or_fail InvalidMessage (message_from_slice (sha256 data_to_sign));
  ROk (mkExchange tmp_pub_key (signature_to_vec (sign message (cf_key config)))).

Definition verify_exchange (re : Remote) (ex : Exchange) : res E_ unit :=
  let data_to_verify := re_proposition_bytes re ++ lo_proposition_bytes (re_local re) ++ ex_epubkey ex in
  message ← or_fail InvalidMessage (message_from_slice (sha256 data_to_verify));
  match signature_from_der (ex_signature ex), pubkey_from_slice (inner (re_public_key re)) with
  | Some signature, Some remote_public_key =>
      if verify message signature remote_public_key then ROk tt else RErr SignatureVerificationFailed
  | _, _ => RErr SignatureVerificationFailed
  end.

(** The two halves of the stretched key, ours first. *)
Definition split_keys (re : Remote) (longer_key : bytes) : res E_ (bytes * bytes) :=
  match split_at (len longer_key / 2) longer_key with
  | None => RPanic
  | Some (first_half, second_half) =>
      match re_hashes_ordering re with
      | Eq => RErr InvalidProposition
      | Lt => ROk (second_half, first_half)
      | Gt => ROk (first_half, second_half)
      end
  end.

Definition unwrap {A} (o : option A) : res E_ A := match o with Some a => ROk a | None => RPanic end.

(** The encode and the decode cipher from the shared secret. *)
Definition make_ciphers (b : Build) (re : Remote) (key_material : bytes) : res E_ (StreamCipher * StreamCipher) :=
  let chosen_cipher := re_chosen_cipher re in
  let cipher_key_size := key_size chosen_cipher in
  let isize := iv_size chosen_cipher in
  longer_key ← unwrap (stretch_key (re_chosen_hash re) key_material (2 * (isize + cipher_key_size + 20)));
  '(local_infos, remote_infos) ← split_keys re longer_key;
  encode_cipher ← unwrap (generate_stream_cipher_and_hmac b chosen_cipher Encrypt local_infos cipher_key_size isize);
  decode_cipher ← unwrap (generate_stream_cipher_and_hmac b chosen_cipher Decrypt remote_infos cipher_key_size isize);
  ROk (encode_cipher, decode_cipher).

(** The end of the handshake: their nonce is sent back over the encrypted stream, and ours is
    expected. *)
Definition check_nonces (re : Remote) : M (SecureStream T) (Halt E_) unit :=
  _ ← write_all (length (re_nonce re)) (re_nonce re);
  _ ← wait secure_poll_flush;
  verify_nonce.

Definition with_stream (s : T → SecureStream T) (c : M (SecureStream T) (Halt E_) unit)
    : M T (Halt E_) (SecureStream T) := λ t,
  match c (s t) with
  | (s', ROk _) => (sc_socket s', ROk s')
  | (s', RErr e) => (sc_socket s', RErr e)
  | (s', RPanic) => (sc_socket s', RPanic)
  end.

Definition handshake (b : Build) (config : Config) (nonce : bytes) (rand : Random)
    : M T (Halt E_) (SecureStream T * PublicKey * bytes) :=
  let local_context := with_local config nonce in
  _ ← send IoError (lo_proposition_bytes local_context);
  p ← receive;
  re ← lift (with_remote config local_context p);
  '(tmp_priv_key, tmp_pub_key) ←
    lift (or_fail EphemeralKeyGenerationFailed (generate_agreement (re_chosen_exchange re) rand));
  exchanges ← lift (make_exchange config re tmp_pub_key);
  _ ← send IoError (Exchange_encode exchanges);
  raw_exchanges ← receive;
  remote_exchanges ← lift (parsed (Exchange_decode raw_exchanges));
  _ ← lift (verify_exchange re remote_exchanges);
  key_material ← lift (or_fail SecretGenerationFailed
    (agree (re_chosen_exchange re) tmp_priv_key (ex_epubkey remote_exchanges)));
  '(encode_cipher, decode_cipher) ← lift (make_ciphers b re key_material);
  secure_stream ← with_stream
    (λ socket, SecureStream_new socket decode_cipher encode_cipher (lo_nonce (re_local re)))
    (check_nonces re);
  mret (secure_stream, re_public_key re, tmp_pub_key).

End Procedure.

End Handshake.
