(* ===== verification/SecioHandshakeProofs.v ===== *)
(** * Correctness of the secio handshake

    Two honest parties complete it with the same algorithms and complementary keys; a party that
    completes it has checked the signature of the peer over both proposals and its ephemeral key,
    and got its own nonce back. *)

From Stdlib Require Import ZArith Lia Bool.
From Stdlib Require Import Strings.String.
From stdpp Require Import base list.
From S2P Require Import Prelude Text Molecule MoleculeProofs Messages Wire SecioAlgorithms SecioCipher.
From S2P Require Import SecioStream SecioStreamProofs SecioHandshake.

Open Scope Z_scope.

#[local] Arguments len : simpl never.

Section Proofs.
Context `{PL : PrimitivesLaws} `{AL : AeadLaws} `{ML : MolNumberLaws}.

(** ** Key derivation *)

Lemma stretch_loop_total fuel d key a out n :
  len out <= n → n - len out <= Z.of_nat fuel →
  ∃ o, stretch_loop fuel d key a out n = Some o ∧ len o = n.
Proof.
  revert a out. induction fuel as [|fuel IH]; intros a out Hl Hf; cbn [stretch_loop];
    destruct (Z.leb_spec n (len out)); [exists out; split; [done|lia]|lia|exists out; split; [done|lia]|].
  set (b := hmac_sign d key (a ++ SEED)). assert (0 < len b).
  { pose proof (hmac_nonempty d key (a ++ SEED)) as Hb. fold b in Hb. destruct b as [|x b]; [done|].
    rewrite len_cons. pose proof (len_nonneg b). lia. }
  pose proof (len_nonneg out). apply IH; rewrite len_app, len_take by lia; lia.
Qed.

Lemma stretch_key_total d key n : 0 <= n → ∃ o, stretch_key d key n = Some o ∧ len o = n.
Proof. intros Hn. apply stretch_loop_total; change (len []) with 0; lia. Qed.

(** The session key of one direction: the key part of the first or the second half. *)
Definition session_key (t : CipherType) (d : Digest) (secret : bytes) (first : bool) : bytes :=
  let n := iv_size t + key_size t + 20 in
  let long := default [] (stretch_key d secret (2 * n)) in
  let half := if first then take (Z.to_nat n) long else drop (Z.to_nat n) long in
  take (Z.to_nat (key_size t)) (drop (Z.to_nat (iv_size t)) half).

(** The side with the greater hash encrypts with the first half. *)
Definition is_first (r : comparison) : bool := match r with Gt => true | _ => false end.

Lemma generate_at b t mode info :
  len info = iv_size t + key_size t + 20 →
  ∃ s, generate_stream_cipher_and_hmac b t mode info (key_size t) (iv_size t) = Some s ∧
    cipher_at s t (take (Z.to_nat (key_size t)) (drop (Z.to_nat (iv_size t)) info)) 0 mode.
Proof.
  intros Hl. assert (0 <= iv_size t ∧ 0 <= key_size t) as [Hi Hk] by (by destruct t).
  unfold generate_stream_cipher_and_hmac, split_at.
  rewrite bool_decide_eq_true_2 by lia. cbn [mbind option_bind].
  rewrite bool_decide_eq_true_2 by (rewrite len_drop by lia; lia). cbn [mbind option_bind].
  apply new_stream_at. apply len_take. rewrite len_drop by lia. lia.
Qed.

Lemma make_ciphers_spec {IOE} b re z :
  let t := re_chosen_cipher re in let d := re_chosen_hash re in
  let r := re_hashes_ordering re in
  r ≠ Eq →
  ∃ enc dec, make_ciphers (IOE := IOE) b re z = ROk (enc, dec) ∧
    cipher_at enc t (session_key t d z (is_first r)) 0 Encrypt ∧
    cipher_at dec t (session_key t d z (negb (is_first r))) 0 Decrypt.
Proof.
  intros t d r Hr. unfold make_ciphers. fold t d.
  assert (0 <= iv_size t ∧ 0 <= key_size t) as [Hi Hk] by (by destruct t).
  set (n := iv_size t + key_size t + 20).
  destruct (stretch_key_total d z (2 * n) ltac:(lia)) as (l & Hs & Hl). rewrite Hs. cbn [mbind res_bind unwrap].
  unfold split_keys, split_at. rewrite Hl. replace (2 * n / 2) with n by (rewrite Z.mul_comm, Z.div_mul; lia).
  rewrite bool_decide_eq_true_2 by lia. fold r.
  destruct (generate_at b t Encrypt (take (Z.to_nat n) l)) as (e1 & E1 & E1'); [apply len_take; lia|].
  destruct (generate_at b t Decrypt (take (Z.to_nat n) l)) as (d1 & D1 & D1'); [apply len_take; lia|].
  destruct (generate_at b t Encrypt (drop (Z.to_nat n) l)) as (e2 & E2 & E2'); [rewrite len_drop; lia|].
  destruct (generate_at b t Decrypt (drop (Z.to_nat n) l)) as (d2 & D2 & D2'); [rewrite len_drop; lia|].
  unfold session_key. fold n. rewrite Hs. cbn [default].
  destruct r; [done|..]; cbn [mbind res_bind is_first negb].
  - rewrite E2. cbn. rewrite D1. cbn. eauto.
  - rewrite E1. cbn. rewrite D2. cbn. eauto.
Qed.

(** ** The proposals *)

Definition config_wf (c : Config) : Prop :=
  utf8_ok (agreements_of c) = true ∧ utf8_ok (ciphers_of c) = true ∧ utf8_ok (digests_of c) = true ∧
  len (agreements_of c) + len (ciphers_of c) + len (digests_of c) < 2 ^ 31.

Definition pubkey_bytes (c : Config) : bytes := inner (public_key (cf_key c)).

Definition propose_of (c : Config) (nonce : bytes) : Propose :=
  mkPropose nonce (PublicKey_encode (public_key (cf_key c))) (agreements_of c) (ciphers_of c) (digests_of c).

Lemma pubkey_wf c : PublicKey_wf (public_key (cf_key c)).
Proof.
  unfold PublicKey_wf, public_key. cbn. pose proof (pubkey_short (from_secret_key (cf_key c))).
  pose proof (len_nonneg (serialize_pubkey (from_secret_key (cf_key c)))). unfold in_width. lia.
Qed.

Lemma propose_wf c nonce : config_wf c → len nonce = 16 → Propose_wf (propose_of c nonce).
Proof.
  intros (H1 & H2 & H3 & Hl) Hn. split_and!; [done..|]. cbn.
  unfold PublicKey_encode, PublicKey_write. rewrite len_app, fixvec_write_len. cbn [inner public_key].
  pose proof (pubkey_short (from_secret_key (cf_key c))).
  assert (len (pack_number 0) = 4) by (unfold len; by rewrite pack_length). lia.
Qed.

(** The ordering each side computes, from its own key and nonce and those of the other. *)
Definition ordering (mine theirs : bytes) (my_nonce their_nonce : bytes) : comparison :=
  bytes_cmp (sha256 (theirs ++ my_nonce)) (sha256 (mine ++ their_nonce)).

Lemma ordering_opp a b na nb : ordering b a nb na = CompOpp (ordering a b na nb).
Proof. apply bytes_cmp_opp. Qed.

(** The parameters of a session between two parties, from the point of view of the first. *)
Record session := mkSession { se_order : comparison; se_exchange : KeyAgreement; se_cipher : CipherType; se_hash : Digest }.

Definition remote_of (c c' : Config) (n n' : bytes) (s : session) : Remote :=
  mkRemote (with_local c n) (lo_proposition_bytes (with_local c' n')) (public_key (cf_key c')) n'
    (se_order s) (se_exchange s) (se_cipher s) (se_hash s).

Definition chooses (c c' : Config) (n n' : bytes) (s : session) : Prop :=
  se_order s = ordering (pubkey_bytes c) (pubkey_bytes c') n n' ∧ se_order s ≠ Eq ∧
  select_agreement (se_order s) (agreements_of c) (agreements_of c') = Some (se_exchange s) ∧
  select_cipher (se_order s) (ciphers_of c) (ciphers_of c') = Some (se_cipher s) ∧
  select_digest (se_order s) (digests_of c) (digests_of c') = Some (se_hash s).

Definition opposite (s : session) : session :=
  mkSession (CompOpp (se_order s)) (se_exchange s) (se_cipher s) (se_hash s).

Lemma chooses_opposite c c' n n' s : chooses c c' n n' s → chooses c' c n' n (opposite s).
Proof.
  intros (Ho & Hne & H1 & H2 & H3). unfold chooses, opposite. cbn.
  unfold select_agreement, select_cipher, select_digest in *. rewrite !select_by_opp by done.
  split_and!; [by rewrite ordering_opp, Ho| |done..]. by destruct (se_order s).
Qed.

Lemma with_remote_honest {IOE} c c' n n' s :
  config_wf c' → len n' = 16 → pubkey_bytes c' ≠ pubkey_bytes c → chooses c c' n n' s →
  with_remote (IOE := IOE) c (with_local c n) (lo_proposition_bytes (with_local c' n'))
  = ROk (remote_of c c' n n' s).
Proof.
  intros Hw Hn Hne (Ho & _ & H1 & H2 & H3). unfold with_remote.
  change (lo_proposition_bytes (with_local c' n')) with (Propose_encode (propose_of c' n')).
  rewrite (Propose_roundtrip _ (propose_wf c' n' Hw Hn)). cbn [mbind res_bind parsed].
  change (pr_pubkey (propose_of c' n')) with (PublicKey_encode (public_key (cf_key c'))).
  rewrite (PublicKey_roundtrip _ (pubkey_wf c')). cbn [mbind res_bind parsed].
  change (inner (public_key (cf_key c'))) with (pubkey_bytes c').
  change (lo_public_key (with_local c n)) with (pubkey_bytes c).
  change (lo_nonce (with_local c n)) with n. change (pr_rand (propose_of c' n')) with n'.
  rewrite bool_decide_eq_false_2 by done. fold (ordering (pubkey_bytes c) (pubkey_bytes c') n n').
  rewrite <- Ho. cbn [propose_of pr_exchange pr_ciphers pr_hashes].
  rewrite H1. cbn [mbind res_bind or_fail]. rewrite H2. cbn [mbind res_bind or_fail].
  rewrite H3. reflexivity.
Qed.

(** ** The exchange *)

Definition signed_data (c c' : Config) (n n' pub : bytes) : bytes :=
  lo_proposition_bytes (with_local c n) ++ lo_proposition_bytes (with_local c' n') ++ pub.

Definition exchange_of (c c' : Config) (n n' pub : bytes) : Exchange :=
  mkExchange pub
    (match message_from_slice (sha256 (signed_data c c' n n' pub)) with
     | Some m => signature_to_vec (sign m (cf_key c))
     | None => []
     end).

Lemma make_exchange_honest {IOE} c c' n n' s pub :
  make_exchange (IOE := IOE) c (remote_of c c' n n' s) pub = ROk (exchange_of c c' n n' pub).
Proof.
  unfold make_exchange, exchange_of. change (_ ++ _ ++ pub) with (signed_data c c' n n' pub).
  pose proof (sha256_message (signed_data c c' n n' pub)). by destruct (message_from_slice _).
Qed.

Lemma verify_exchange_honest {IOE} c c' n n' s pub :
  verify_exchange (IOE := IOE) (remote_of c c' n n' s) (exchange_of c' c n' n pub) = ROk tt.
Proof.
  unfold verify_exchange, exchange_of. cbn [ex_epubkey ex_signature].
  change (_ ++ _ ++ pub) with (signed_data c' c n' n pub).
  pose proof (sha256_message (signed_data c' c n' n pub)). destruct (message_from_slice _) as [m|]; [|done].
  cbn. by rewrite signature_roundtrip, pubkey_roundtrip, sign_verify.
Qed.

Lemma exchange_wf c c' n n' a r s pub :
  generate_agreement a r = Some (s, pub) → Exchange_wf (exchange_of c c' n n' pub).
Proof.
  intros Hg%ephemeral_short. unfold Exchange_wf, exchange_of. cbn [ex_epubkey ex_signature].
  destruct (message_from_slice _) as [m|]; [pose proof (signature_short (sign m (cf_key c)))|];
    change (len []) with 0; lia.
Qed.

(** ** The nonces over the encrypted stream *)

Lemma check_nonces_honest c c' n n' se (st : SecureStream Pipe) t k1 k2 f g :
  n ≠ [] → n' ≠ [] → sc_nonce st = n → rb_bytes (sc_recv_buf st) = [] →
  pp_incoming (sc_socket st) = [g] →
  cipher_at (sc_encode_cipher st) t k1 0 Encrypt → cipher_at (sc_decode_cipher st) t k2 0 Decrypt →
  sealed t k1 1 n' f → sealed t k2 1 n g →
  ∃ st', check_nonces (remote_of c c' n n' se) st = (st', ROk tt) ∧
    sc_socket st' = mkPipe (pp_sent (sc_socket st) ++ [f]) [] (pp_ended (sc_socket st)) ∧
    rb_bytes (sc_recv_buf st') = [] ∧ sc_nonce st' = [] ∧
    cipher_at (sc_encode_cipher st') t k1 1 Encrypt ∧ cipher_at (sc_decode_cipher st') t k2 1 Decrypt.
Proof.
  intros Hn Hn' Hno Hb Hi Hc1 Hc2 Hf Hg. unfold check_nonces. cbn [re_nonce remote_of].
  destruct (pipe_write st t k1 0 n' f Hc1 Hf) as (enc & Hc1' & Hw).
  assert (write_all (length n') n' st = (mkSecure (mkPipe (pp_sent (sc_socket st) ++ [f])
    (pp_incoming (sc_socket st)) (pp_ended (sc_socket st))) (sc_decode_cipher st) enc (sc_nonce st)
    (sc_recv_buf st), ROk tt)) as Hwa.
  { destruct n' as [|x n']; [done|]. cbn [length write_all is_empty]. erewrite bind_run; [|unfold wait; by rewrite Hw].
    replace (len (x :: n') <=? 0) with false by (rewrite len_cons; pose proof (len_nonneg n'); lia).
    unfold len. rewrite Nat2Z.id, drop_all. by destruct (length n'). }
  rewrite (bind_run _ _ _ _ _ Hwa). erewrite bind_run; [|reflexivity].
  set (st1 := mkSecure _ _ _ _ _).
  destruct (pipe_read st1 t k2 0 (len n) n g []) as (dec & Hc2' & Hr); [done..|].
  unfold verify_nonce. rewrite (bind_run _ _ st1 st1 n) by (unfold gets; by rewrite <- Hno).
  destruct n as [|x n]; [done|]. cbn [is_empty].
  assert (read_exact (length (x :: n)) (len (x :: n)) [] st1 = ((secure_poll_read (len (x :: n)) st1).1, ROk (x :: n))) as Hre.
  { cbn [length read_exact].
    replace (len (x :: n) <=? 0) with false by (rewrite len_cons; pose proof (len_nonneg n); lia).
    erewrite bind_run; [|unfold wait; by rewrite Hr]. cbn [is_empty app].
    replace (len (x :: n) - len (x :: n)) with 0 by lia. rewrite Hr. by destruct (length n). }
  rewrite (bind_run _ _ _ _ _ Hre). rewrite Z.min_id, bool_decide_eq_true_2 by done.
  rewrite Hr. unfold modify. eexists. split; [reflexivity|]. cbn [put_nonce fst sc_socket sc_recv_buf sc_nonce
    sc_encode_cipher sc_decode_cipher st1 pp_sent pp_ended]. split_and!; try done.
  unfold len. by rewrite Nat2Z.id, drop_all.
Qed.

(** ** One side of an honest run *)

Definition prop_bytes (c : Config) (n : bytes) : bytes := lo_proposition_bytes (with_local c n).

(** What a side holds at the end: the ciphers after one message in each direction, nothing
    buffered. *)
Definition ready_stream (st : SecureStream Pipe) (t : CipherType) (enc_key dec_key : bytes) : Prop :=
  cipher_at (sc_encode_cipher st) t enc_key 1 Encrypt ∧ cipher_at (sc_decode_cipher st) t dec_key 1 Decrypt ∧
  rb_bytes (sc_recv_buf st) = [] ∧ sc_nonce st = [] ∧ pp_incoming (sc_socket st) = [].

Lemma handshake_side b c c' n n' s rnd priv pub pub' z f g :
  config_wf c' → len n = 16 → len n' = 16 → pubkey_bytes c' ≠ pubkey_bytes c → chooses c c' n n' s →
  generate_agreement (se_exchange s) rnd = Some (priv, pub) → agree (se_exchange s) priv pub' = Some z →
  Exchange_wf (exchange_of c' c n' n pub') →
  let t := se_cipher s in
  let k1 := session_key t (se_hash s) z (is_first (se_order s)) in
  let k2 := session_key t (se_hash s) z (negb (is_first (se_order s))) in
  sealed t k1 1 n' f → sealed t k2 1 n g →
  ∃ st, handshake b c n rnd
      (mkPipe [] [prop_bytes c' n'; Exchange_encode (exchange_of c' c n' n pub'); g] false) =
    (mkPipe [prop_bytes c n; Exchange_encode (exchange_of c c' n n' pub); f] [] false,
     ROk (st, public_key (cf_key c'), pub)) ∧ ready_stream st t k1 k2.
Proof.
  intros Hw Hn Hn' Hne Hch Hg Ha He t k1 k2 Hf Hg'. unfold handshake.
  rewrite (bind_run _ _ _ _ _ (pipe_send _ _ _ _ _)). cbn [app].
  erewrite bind_run; [|unfold receive; by erewrite bind_run; [|apply pipe_next]].
  erewrite bind_run; [|unfold prop_bytes; by rewrite (with_remote_honest c c' n n' s)].
  cbn [re_chosen_exchange remote_of]. erewrite bind_run; [|by rewrite Hg]. cbn beta iota.
  erewrite bind_run; [|by rewrite make_exchange_honest].
  rewrite (bind_run _ _ _ _ _ (pipe_send _ _ _ _ _)). cbn [app].
  erewrite bind_run; [|unfold receive; by erewrite bind_run; [|apply pipe_next]].
  erewrite bind_run; [|by rewrite (Exchange_roundtrip _ He)].
  erewrite bind_run; [|by rewrite verify_exchange_honest].
  erewrite bind_run; [|change (ex_epubkey (exchange_of c' c n' n pub')) with pub'; by rewrite Ha].
  destruct (make_ciphers_spec (IOE := Empty_set) b (remote_of c c' n n' s) z) as (enc & dec & Hm & Hc1 & Hc2);
    [apply Hch|].
  erewrite bind_run; [|by rewrite Hm]. cbn beta iota.
  change (lo_nonce (re_local (remote_of c c' n n' s))) with n.
  set (p0 := mkPipe _ _ _). set (st0 := SecureStream_new p0 dec enc n).
  destruct (check_nonces_honest c c' n n' s st0 t k1 k2 f g) as (st' & Hr & Hso & Hb & Hno & Hc1' & Hc2');
    try done; try (by intros ->).
  { unfold st0, SecureStream_new. cbn. by destruct (is_in_place dec). }
  erewrite bind_run; [|unfold with_stream; fold st0; by rewrite Hr].
  exists st'. rewrite Hso. cbn. split; [done|]. split_and!; try done. by rewrite Hso.
Qed.

(** ** Both sides *)

(** Two parties that can talk: different keys, well-formed configurations with an algorithm of
    each kind in common, nonces of 16 bytes, hashes that differ, and key generation that
    succeeds. *)
Record honest_pair (ca cb : Config) (na nb : bytes) (ra rb : Random) (s : session) (puba pubb : bytes) : Prop := {
  hp_wfa : config_wf ca;
  hp_wfb : config_wf cb;
  hp_na : len na = 16;
  hp_nb : len nb = 16;
  hp_keys : pubkey_bytes ca ≠ pubkey_bytes cb;
  hp_chooses : chooses ca cb na nb s;
  hp_gena : snd <$> generate_agreement (se_exchange s) ra = Some puba;
  hp_genb : snd <$> generate_agreement (se_exchange s) rb = Some pubb;
}.

(** C1: two honest parties complete the handshake, each on the messages the other one sends;
    each learns the long-term key of the other, and the resulting streams fit together: the key
    one side encrypts with is the key the other side decrypts with, in both directions, for the
    same cipher, and both have counted one message in each direction. *)
Theorem handshake_agrees b ca cb na nb ra rb s puba pubb :
  honest_pair ca cb na nb ra rb s puba pubb →
  ∃ a3 b3 sta stb kab kba,
    let a12 := [prop_bytes ca na; Exchange_encode (exchange_of ca cb na nb puba)] in
    let b12 := [prop_bytes cb nb; Exchange_encode (exchange_of cb ca nb na pubb)] in
    handshake b ca na ra (mkPipe [] (b12 ++ [b3]) false) =
      (mkPipe (a12 ++ [a3]) [] false, ROk (sta, public_key (cf_key cb), puba)) ∧
    handshake b cb nb rb (mkPipe [] (a12 ++ [a3]) false) =
      (mkPipe (b12 ++ [b3]) [] false, ROk (stb, public_key (cf_key ca), pubb)) ∧
    ready_stream sta (se_cipher s) kab kba ∧ ready_stream stb (se_cipher s) kba kab.
Proof.
  intros [Hwa Hwb Hna Hnb Hk Hch Hga Hgb].
  destruct (generate_agreement (se_exchange s) ra) as [[pa pua]|] eqn:Ea; [|done]. injection Hga as <-.
  destruct (generate_agreement (se_exchange s) rb) as [[pb pub]|] eqn:Eb; [|done]. injection Hgb as <-.
  destruct (agree_same _ _ _ _ _ _ _ Ea Eb) as (z & Za & Zb). cbn [snd].
  set (t := se_cipher s). set (kab := session_key t (se_hash s) z (is_first (se_order s))).
  set (kba := session_key t (se_hash s) z (negb (is_first (se_order s)))).
  destruct (make_ciphers_spec (IOE := Empty_set) b (remote_of ca cb na nb s) z) as (enc & dec & _ & Hc1 & Hc2);
    [apply Hch|].
  destruct (encrypt_at enc t kab 0 nb Hc1) as (_ & a3 & _ & Ha3 & _).
  assert (∃ b3, sealed t kba 1 na b3) as [b3 Hb3].
  { destruct (seal_total t kba (nonce_of (Z.to_nat (iv_size t)) 1) na) as (x & y & Hxy);
      [apply Hc2|apply nonce_len|]. exists (x ++ y), x, y. done. }
  pose proof (chooses_opposite _ _ _ _ _ Hch) as Hch'.
  assert (is_first (CompOpp (se_order s)) = negb (is_first (se_order s))) as Hfirst.
  { destruct Hch as (_ & Hne & _). by destruct (se_order s). }
  destruct (handshake_side b ca cb na nb s ra pa pua pub z a3 b3) as (sta & Hsa & Hra);
    try done; [by eapply exchange_wf|].
  destruct (handshake_side b cb ca nb na (opposite s) rb pb pub pua z b3 a3) as (stb & Hsb & Hrb);
    try done; [by eapply exchange_wf|cbn [opposite se_order se_hash se_cipher]; by rewrite Hfirst, ?negb_involutive..| ].
  cbn [opposite se_order se_hash se_cipher] in Hrb. rewrite Hfirst, negb_involutive in Hrb.
  exists a3, b3, sta, stb, kab, kba. done.
Qed.

(** ** Against any peer *)

Section Any.
Context {T IOE : Type} `{SL : SocketLaws T IOE}.

Lemma receive_view (t t' : T) m :
  receive t = (t', ROk m) → sk_incoming t = m :: sk_incoming t'.
Proof.
  intros (t1 & [p|] & Hn & Hp)%bind_ok; [|discriminate].
  injection Hp as -> ->. by apply next_view in Hn as (_ & ? & _).
Qed.

Lemma lift_ok {A} (r : res (SecioError IOE) A) (t t' : T) a : lift r t = (t', ROk a) → r = ROk a ∧ t' = t.
Proof. unfold lift. destruct r; [|discriminate..]. intros [= <- <-]. done. Qed.

Lemma parsed_ok {A} d (a : A) : parsed (IOE := IOE) d = ROk a → d = ROk (Some a).
Proof. destruct d as [[x|]| |]; [|discriminate..]. by intros [= ->]. Qed.

Lemma or_fail_ok {A} e o (a : A) : or_fail (IOE := IOE) e o = ROk a → o = Some a.
Proof. destruct o; [|discriminate]. by intros [= ->]. Qed.

Lemma with_remote_ok c l m re :
  with_remote (IOE := IOE) c l m = ROk re →
  ∃ prop, Propose_decode m = ROk (Some prop) ∧ PublicKey_decode (pr_pubkey prop) = ROk (Some (re_public_key re)) ∧
    inner (re_public_key re) ≠ lo_public_key l ∧ re_local re = l ∧ re_proposition_bytes re = m ∧
    re_nonce re = pr_rand prop ∧
    select_agreement (re_hashes_ordering re) (agreements_of c) (pr_exchange prop) = Some (re_chosen_exchange re) ∧
    select_cipher (re_hashes_ordering re) (ciphers_of c) (pr_ciphers prop) = Some (re_chosen_cipher re) ∧
    select_digest (re_hashes_ordering re) (digests_of c) (pr_hashes prop) = Some (re_chosen_hash re).
Proof.
  unfold with_remote. intros (prop & Hp%parsed_ok & H)%res_bind_ok.
  apply res_bind_ok in H as (pk & Hk%parsed_ok & H). case_bool_decide as Hne; [discriminate|].
  apply res_bind_ok in H as (x1 & H1%or_fail_ok & H). apply res_bind_ok in H as (x2 & H2%or_fail_ok & H).
  apply res_bind_ok in H as (x3 & H3%or_fail_ok & H). injection H as <-. cbn. eauto 15.
Qed.

Lemma verify_exchange_ok re ex :
  verify_exchange (IOE := IOE) re ex = ROk tt →
  ∃ msg sig point,
    message_from_slice (sha256 (re_proposition_bytes re ++ lo_proposition_bytes (re_local re) ++ ex_epubkey ex)) = Some msg ∧
    signature_from_der (ex_signature ex) = Some sig ∧ pubkey_from_slice (inner (re_public_key re)) = Some point ∧
    verify msg sig point = true.
Proof.
  unfold verify_exchange. intros (msg & Hm%or_fail_ok & H)%res_bind_ok.
  destruct (signature_from_der _) as [sig|]; [|discriminate].
  destruct (pubkey_from_slice _) as [point|]; [|discriminate].
  destruct (verify msg sig point) eqn:E; [|discriminate]. eauto 10.
Qed.

Lemma make_ciphers_order b re z r : make_ciphers (IOE := IOE) b re z = ROk r → re_hashes_ordering re ≠ Eq.
Proof.
  unfold make_ciphers, split_keys. intros (l & _ & H)%res_bind_ok. apply res_bind_ok in H as ([x y] & H & _).
  destruct (split_at _ _) as [[h1 h2]|]; [|discriminate]. by destruct (re_hashes_ordering re).
Qed.

Lemma write_all_keeps fuel buf (s s' : SecureStream T) t k n :
  cipher_at (sc_encode_cipher s) t k n Encrypt → write_all fuel buf s = (s', ROk tt) →
  sc_decode_cipher s' = sc_decode_cipher s ∧ sc_recv_buf s' = sc_recv_buf s ∧ sc_nonce s' = sc_nonce s ∧
  sk_incoming (sc_socket s') = sk_incoming (sc_socket s).
Proof.
  revert buf s n. induction fuel as [|fuel IH]; intros buf s n Hc; cbn [write_all];
    (destruct (is_empty buf); [by intros [= <-]|]); [discriminate|].
  intros (s1 & m & Hw & Hrest)%bind_ok. unfold wait in Hw.
  destruct (write_spec s t k n buf Hc) as (s2 & r & Hw' & W1 & W2 & W3 & W4 & W5). rewrite Hw' in Hw.
  destruct r as [[m'|]| |]; try discriminate. injection Hw as <- <-. destruct W5 as (_ & Hc' & _).
  destruct (m' <=? 0); [discriminate|].
  destruct (IH _ _ _ Hc' Hrest) as (I1 & I2 & I3 & I4). rewrite I1, I2, I3, I4. done.
Qed.

Lemma check_nonces_ok re (s s' : SecureStream T) t k1 k2 n :
  cipher_at (sc_encode_cipher s) t k1 0 Encrypt → cipher_at (sc_decode_cipher s) t k2 0 Decrypt →
  rb_bytes (sc_recv_buf s) = [] → sc_nonce s = n → n ≠ [] →
  check_nonces re s = (s', ROk tt) →
  ∃ ps fs, frames_of t k2 0 ps fs ∧ sk_incoming (sc_socket s) = fs ++ sk_incoming (sc_socket s') ∧
    concat ps = n ++ rb_bytes (sc_recv_buf s').
Proof.
  intros Hc1 Hc2 Hb Hn Hne (s1 & [] & Hw & H)%bind_ok.
  destruct (write_all_keeps _ _ _ _ _ _ _ Hc1 Hw) as (W1 & W2 & W3 & W4).
  apply bind_ok in H as (s2 & [] & Hf & H).
  assert (sc_decode_cipher s2 = sc_decode_cipher s1 ∧ sc_recv_buf s2 = sc_recv_buf s1 ∧
    sc_nonce s2 = sc_nonce s1 ∧ sk_incoming (sc_socket s2) = sk_incoming (sc_socket s1)) as (F1 & F2 & F3 & F4).
  { unfold wait, secure_poll_flush, with_socket in Hf. destruct (sk_flush_view (sc_socket s1)) as [_ V].
    destruct (sk_poll_flush (sc_socket s1)) as [so [[e|[]]|]]; try discriminate.
    injection Hf as <-. done. }
  unfold verify_nonce in H. apply bind_ok in H as (s3 & mine & Hg & H). injection Hg as <- <-.
  rewrite F3, W3, Hn in H. destruct (is_empty n) eqn:Hem; [by destruct n|].
  apply bind_ok in H as (s4 & out & Hr & H).
  rewrite <- W1, <- F1 in Hc2. rewrite <- W4, <- F4.
  pose proof (read_exact_len _ _ _ _ _ _ (len_nonneg n) Hr) as Hlen. change (len []) with 0 in Hlen. pose proof (len_nonneg n).
  destruct (read_exact_opens _ _ _ _ _ _ _ _ _ Hc2 Hr) as (ps & fs & Hfs & Hi & Hp).
  replace (Z.min (len out) (len n)) with (len n) in H by lia.
  case_bool_decide as Heq; [|discriminate]. injection H as <-.
  assert (out = n) as ->.
  { unfold len in *. rewrite Nat2Z.id, firstn_all in Heq. rewrite take_ge in Heq by lia. done. }
  exists ps, fs. split_and!; [done|done|]. cbn. rewrite F2, W2, Hb in Hp. exact Hp.
Qed.

(** C7: a side that completes the handshake, over any transport and against any peer, received a
    proposal with the key it reports, which is not its own; received an exchange whose signature
    verifies under that key over the proposal received, the proposal it sent itself and the
    ephemeral key of the peer; chose algorithms from both proposals; and was sent its own nonce
    back, sealed with the key derived from the agreement with that ephemeral key. *)
Theorem handshake_authenticates b c n rnd (t t' : T) st pk epub :
  n ≠ [] → handshake b c n rnd t = (t', ROk (st, pk, epub)) →
  ∃ m1 m2 rest prop ex msg sig point r x ci d priv z ps fs,
    sk_incoming t = m1 :: m2 :: rest ∧
    Propose_decode m1 = ROk (Some prop) ∧ PublicKey_decode (pr_pubkey prop) = ROk (Some pk) ∧
    inner pk ≠ pubkey_bytes c ∧
    Exchange_decode m2 = ROk (Some ex) ∧
    message_from_slice (sha256 (m1 ++ prop_bytes c n ++ ex_epubkey ex)) = Some msg ∧
    signature_from_der (ex_signature ex) = Some sig ∧ pubkey_from_slice (inner pk) = Some point ∧
    verify msg sig point = true ∧
    select_agreement r (agreements_of c) (pr_exchange prop) = Some x ∧
    select_cipher r (ciphers_of c) (pr_ciphers prop) = Some ci ∧
    select_digest r (digests_of c) (pr_hashes prop) = Some d ∧ r ≠ Eq ∧
    generate_agreement x rnd = Some (priv, epub) ∧ agree x priv (ex_epubkey ex) = Some z ∧
    frames_of ci (session_key ci d z (negb (is_first r))) 0 ps fs ∧ rest = fs ++ sk_incoming t' ∧
    concat ps = n ++ rb_bytes (sc_recv_buf st).
Proof.
  intros Hne. unfold handshake. intros (t1 & [] & Hs1 & H)%bind_ok.
  apply bind_ok in H as (t2 & m1 & Hm1%receive_view & H). apply send_view in Hs1 as (I1 & _ & _).
  apply bind_ok in H as (t3 & re & [Hre ->]%lift_ok & H).
  apply bind_ok in H as (t4 & [priv pub] & [Hgen%or_fail_ok ->]%lift_ok & H).
  apply bind_ok in H as (t5 & myex & [_ ->]%lift_ok & H).
  apply bind_ok in H as (t6 & [] & Hs2 & H). apply send_view in Hs2 as (I2 & _ & _).
  apply bind_ok in H as (t7 & m2 & Hm2%receive_view & H).
  apply bind_ok in H as (t8 & ex & [Hex%parsed_ok ->]%lift_ok & H).
  apply bind_ok in H as (t9 & [] & [Hv ->]%lift_ok & H).
  apply bind_ok in H as (t10 & z & [Hz%or_fail_ok ->]%lift_ok & H).
  apply bind_ok in H as (t11 & [enc dec] & [Hmc ->]%lift_ok & H).
  apply bind_ok in H as (t12 & st' & Hws & H). injection H as -> -> <- <-.
  apply with_remote_ok in Hre as (prop & P1 & P2 & P3 & P4 & P5 & P6 & P7 & P8 & P9).
  apply verify_exchange_ok in Hv as (msg & sig & point & V1 & V2 & V3 & V4). rewrite P4, P5 in V1.
  pose proof (make_ciphers_order _ _ _ _ Hmc) as Hor.
  destruct (make_ciphers_spec (IOE := IOE) b re z Hor) as (enc' & dec' & Hmc' & C1 & C2).
  rewrite Hmc in Hmc'. injection Hmc' as <- <-.
  unfold with_stream in Hws. rewrite P4 in Hws. change (lo_nonce (with_local c n)) with n in Hws.
  destruct (check_nonces re _) as [st'' [[]| |]] eqn:Hcn; try discriminate. injection Hws as <- <-.
  apply (check_nonces_ok _ (SecureStream_new t7 dec enc n) _ _ _ _ n C1 C2) in Hcn
    as (ps & fs & F1 & F2 & F3); [|by unfold SecureStream_new; destruct (is_in_place dec)|done|done].
  exists m1, m2, (fs ++ sk_incoming (sc_socket st'')), prop, ex, msg, sig, point, (re_hashes_ordering re),
    (re_chosen_exchange re), (re_chosen_cipher re), (re_chosen_hash re), priv, z, ps, fs.
  assert (sk_incoming t = m1 :: m2 :: fs ++ sk_incoming (sc_socket st'')) as Hin.
  { cbn in F2. by rewrite <- F2, <- Hm2, I2, <- Hm1, I1. }
  split_and!; done.
Qed.

End Any.

End Proofs.

(** ** Transparent primitives, for concrete runs *)

#[export] Instance demo_primitives : Primitives := {
  SecretKey := byte; Signature := byte; Message := bytes; CurvePoint := byte;
  EphemeralPrivateKey := byte; Random := byte;
  sha256 d := d;
  from_secret_key k := k;
  serialize_pubkey p := [p];
  pubkey_from_slice l := match l with [p] => Some p | _ => None end;
  message_from_slice d := Some d;
  sign m k := k;
  verify m s p := bool_decide (s = p);
  signature_to_vec s := [s];
  signature_from_der l := match l with [s] => Some s | _ => None end;
  generate_agreement a r := Some (r, [r]);
  agree a s p := match p with [q] => Some [byte_of (byte_val s + byte_val q)] | _ => None end;
  hmac_sign d k m := byte_of 1 :: k;
}.

#[export] Instance demo_primitives_laws : PrimitivesLaws.
Proof.
  split; cbn; try done.
  - intros m k. by rewrite bool_decide_eq_true_2.
  - intros a r1 r2 s1 p1 s2 p2 [= <- <-] [= <- <-]. eexists. split; [done|].
    by rewrite Z.add_comm.
  - by intros a r s p [= <- <-].
Qed.

Definition alice : Config := Config_new (byte_of 1).
Definition bob : Config := Config_new (byte_of 2).
Definition alice_nonce : bytes := replicate 16 (byte_of 7).
Definition bob_nonce : bytes := replicate 16 (byte_of 9).
Definition demo_session : session := mkSession Gt EcdhP256 Aes128Gcm Sha256.

Lemma demo_pair : honest_pair alice bob alice_nonce bob_nonce (byte_of 3) (byte_of 4) demo_session [byte_of 3] [byte_of 4].
Proof. split; (repeat split; vm_compute; done). Qed.

Lemma handshake_agrees_witness :
  ∃ a3 b3 sta stb kab kba,
    let a12 := [prop_bytes alice alice_nonce; Exchange_encode (exchange_of alice bob alice_nonce bob_nonce [byte_of 3])] in
    let b12 := [prop_bytes bob bob_nonce; Exchange_encode (exchange_of bob alice bob_nonce alice_nonce [byte_of 4])] in
    handshake UnixOldOssl alice alice_nonce (byte_of 3) (mkPipe [] (b12 ++ [b3]) false) =
      (mkPipe (a12 ++ [a3]) [] false, ROk (sta, public_key (cf_key bob), [byte_of 3])) ∧
    handshake UnixOldOssl bob bob_nonce (byte_of 4) (mkPipe [] (a12 ++ [a3]) false) =
      (mkPipe (b12 ++ [b3]) [] false, ROk (stb, public_key (cf_key alice), [byte_of 4])) ∧
    ready_stream sta (se_cipher demo_session) kab kba ∧ ready_stream stb (se_cipher demo_session) kba kab.
Proof.
  exact (handshake_agrees UnixOldOssl alice bob alice_nonce bob_nonce (byte_of 3) (byte_of 4) demo_session
    [byte_of 3] [byte_of 4] demo_pair).
Defined.

(** Bob's third message to Alice: her nonce, sealed with the transparent cipher. *)
Definition demo_script : Pipe :=
  mkPipe [] [prop_bytes bob bob_nonce; Exchange_encode (exchange_of bob alice bob_nonce alice_nonce [byte_of 4]);
    alice_nonce ++ zeros 16] false.

Lemma handshake_authenticates_witness :
  ∃ m1 m2 rest prop ex msg sig point,
    sk_incoming demo_script = m1 :: m2 :: rest ∧ Propose_decode m1 = ROk (Some prop) ∧
    Exchange_decode m2 = ROk (Some ex) ∧
    message_from_slice (sha256 (m1 ++ prop_bytes alice alice_nonce ++ ex_epubkey ex)) = Some msg ∧
    signature_from_der (ex_signature ex) = Some sig ∧ verify msg sig point = true.
Proof.
  destruct (handshake UnixOldOssl alice alice_nonce (byte_of 3) demo_script) as [t' r] eqn:E.
  assert (r = (handshake UnixOldOssl alice alice_nonce (byte_of 3) demo_script).2) as Hr by (by rewrite E).
  vm_compute in Hr. subst r.
  assert (alice_nonce ≠ []) as Hne by done.
  destruct (handshake_authenticates UnixOldOssl alice alice_nonce (byte_of 3) demo_script t' _ _ _ Hne E) as
    (m1 & m2 & rest & prop & ex & msg & sig & point & ? & ? & ? & ? & ? & ? & ? & ? & H).
  destruct H as (H1 & H2 & _ & _ & H3 & H4 & H5 & _ & H6 & _).
  exists m1, m2, rest, prop, ex, msg, sig, point.
  split_and!; [exact H1|exact H2|exact H3|exact H4|exact H5|exact H6].
Defined.
