(* ===== verification/PeerId.v ===== *)
(** * Peer identifiers ([tentacle/secio/src/peer_id.rs])

    The multihash of a public key, and the checks on one that is read. *)

From Stdlib Require Import ZArith Lia Bool.
From stdpp Require Import base list.
From S2P Require Import Prelude Text Messages SecioHandshake.

Open Scope Z_scope.

Section PeerId.
Context `{PR : Primitives} `{V : Varint}.

Definition PEER_SHA256_CODE : Z := 0x12.
Definition PEER_SHA256_SIZE : Z := 32.

Inductive PeerIdError := PeEmpty | PeInvalidData | PeNotSupportHashCode | PeWrongLength.

(** The code of the hash, its size, the hash. *)
Definition from_seed (seed : bytes) : bytes :=
  vi_encode 16 PEER_SHA256_CODE ++ [byte_of PEER_SHA256_SIZE] ++ sha256 seed.

Definition from_public_key (k : PublicKey) : bytes := from_seed (inner k).

Definition peer_from_bytes (data : bytes) : PeerIdError + bytes :=
  if is_empty data then inl PeEmpty else
  match vi_decode 16 data with
  | None => inl PeInvalidData
  | Some (code, rest) =>
      if negb (code =? PEER_SHA256_CODE) then inl PeNotSupportHashCode else
      if negb (len rest =? PEER_SHA256_SIZE + 1) then inl PeWrongLength else
      match rest with
      | b :: _ => if byte_val b =? PEER_SHA256_SIZE then inr data else inl PeInvalidData
      | [] => inl PeInvalidData
      end
  end.

(** [digest]: [expect] panics on an identifier without a code. *)
Definition digest (id : bytes) : option bytes :=
  '(_, rest) ← vi_decode 16 id;
  match rest with _ :: d => Some d | [] => None end.

Definition is_public_key (id : bytes) (k : PublicKey) : bool := bool_decide (from_public_key k = id).

Lemma from_seed_checked `{VL : !VarintLaws} seed :
  len (sha256 seed) = 32 → peer_from_bytes (from_seed seed) = inr (from_seed seed) ∧
  digest (from_seed seed) = Some (sha256 seed).
Proof.
  intros Hl. unfold peer_from_bytes, digest, from_seed.
  rewrite vi_roundtrip by (lia || done). cbn [mbind option_bind app].
  split; [|done]. destruct (is_empty _) eqn:E.
  - destruct (vi_encode 16 PEER_SHA256_CODE); discriminate.
  - cbn. rewrite len_cons, Hl. done.
Qed.

End PeerId.
