(* ===== verification/Tentacle.v ===== *)
(** * Shared data of sessions, substreams and the service ([tentacle/tentacle/src])

    The session context ([context.rs]), the configuration ([service/config.rs]), the session
    type ([service/helper.rs]), the errors ([error.rs]) and the events the parts of the framework
    exchange ([session.rs], [substream.rs], [protocol_handle_stream.rs], [service/event.rs]), and
    the interface of the receiving end of a priority channel. *)

From Stdlib Require Import ZArith Lia Bool.
From stdpp Require Import base list gmap.
From S2P Require Import Prelude YamuxFrame YamuxSession Multiaddr Messages PriorityChannel.

Open Scope Z_scope.

(** ** Errors *)

(** [std::io::ErrorKind], as far as the program tells the kinds apart. *)
Inductive ErrorKind :=
| KBrokenPipe | KConnectionAborted | KConnectionReset | KNotConnected | KUnexpectedEof
| KInvalidData | KAddrNotAvailable | KConnectionRefused | KTimedOut | KOther.

#[export] Instance ErrorKind_eq_dec : EqDecision ErrorKind.
Proof. solve_decision. Defined.

(** The kinds that mean that the connection is gone. *)
Definition is_connection_error (k : ErrorKind) : bool :=
  match k with
  | KBrokenPipe | KConnectionAborted | KConnectionReset | KNotConnected | KUnexpectedEof => true
  | _ => false
  end.

Inductive TransportErrorKind :=
| TeIo (e : ErrorKind) | TeNotSupported (a : Multiaddr) | TeDnsResolverError (a : Multiaddr) (e : ErrorKind)
| TeTlsError (msg : bytes).

Inductive ProtocolHandleErrorKind := AbnormallyClosed (session : option Z).

(** [HandshakeErrorKind]; what the handshake failed with is not looked at. *)
Inductive HandshakeErrorKind := HeTimeout | HeSecioError.

Inductive DialerErrorKind :=
| DeIoError (e : ErrorKind) | DePeerIdNotMatch | DeRepeatedConnection (id : Z)
| DeHandshakeError (e : HandshakeErrorKind) | DeTransportError (e : TransportErrorKind).

Inductive ListenErrorKind :=
| LeIoError (e : ErrorKind) | LeRepeatedConnection (id : Z) | LeTransportError (e : TransportErrorKind).

(** ** The type of a session *)

Inductive SessionType := Outbound | Inbound.

#[export] Instance TSessionType_eq_dec : EqDecision SessionType.
Proof. solve_decision. Defined.

Definition is_outbound (ty : SessionType) : bool :=
  match ty with Outbound => true | Inbound => false end.
Definition is_inbound (ty : SessionType) : bool := negb (is_outbound ty).

Definition of_yamux (ty : YamuxSession.SessionType) : SessionType :=
  match ty with YamuxSession.Client => Outbound | YamuxSession.Server => Inbound end.
Definition to_yamux (ty : SessionType) : YamuxSession.SessionType :=
  match ty with Outbound => YamuxSession.Client | Inbound => YamuxSession.Server end.

(** ** Configuration *)

Definition MAX_BUF_SIZE : Z := 24 * 1024 * 1024.

Record SessionConfig := mkSessionConfig {
  yamux_config : YamuxFrame.Config;
  send_buffer_size : Z;
  recv_buffer_size : Z;
  channel_size : Z;
}.

Definition SessionConfig_default : SessionConfig :=
  mkSessionConfig Config_default MAX_BUF_SIZE MAX_BUF_SIZE 128.

(** Division by zero panics. *)
Definition checked_div (a b : Z) : option Z := if b =? 0 then None else Some (a / b).

Definition recv_event_size (c : SessionConfig) : option Z :=
  q ← checked_div (recv_buffer_size c) (max_stream_window_size (yamux_config c)); Some (q + 1).
Definition send_event_size (c : SessionConfig) : option Z :=
  q ← checked_div (send_buffer_size c) (max_stream_window_size (yamux_config c)); Some (q + 1).

(** ** The context of a session

    [closed] and [pending_data_size] are atomics behind an [Arc], shared by the service, the session
    and its substreams. *)
Record SessionContext := mkSessionContext {
  sc_id : Z;
  sc_address : Multiaddr;
  sc_ty : SessionType;
  sc_remote_pubkey : option PublicKey;
  sc_closed : bool;
  sc_pending_data_size : Z;
}.

Definition SessionContext_new (id : Z) (address : Multiaddr) (ty : SessionType)
    (remote_pubkey : option PublicKey) : SessionContext :=
  mkSessionContext id address ty remote_pubkey false 0.

Definition put_closed (v : bool) (c : SessionContext) : SessionContext :=
  mkSessionContext (sc_id c) (sc_address c) (sc_ty c) (sc_remote_pubkey c) v (sc_pending_data_size c).
Definition put_pending_data_size (v : Z) (c : SessionContext) : SessionContext :=
  mkSessionContext (sc_id c) (sc_address c) (sc_ty c) (sc_remote_pubkey c) (sc_closed c) v.

(** [fetch_add] and [fetch_sub] wrap around. *)
Definition incr_pending_data_size (n : Z) (c : SessionContext) : SessionContext :=
  put_pending_data_size ((sc_pending_data_size c + n) mod 2 ^ 64) c.
Definition decr_pending_data_size (n : Z) (c : SessionContext) : SessionContext :=
  put_pending_data_size ((sc_pending_data_size c - n) mod 2 ^ 64) c.

(** ** Events

    An [Arc<SessionContext>] inside an event is the identifier of the session. *)

Inductive ServiceProtocolEvent :=
| SvInit
| SvConnected (session : Z) (version : bytes)
| SvDisconnected (id : Z)
| SvReceived (id : Z) (data : bytes)
| SvSetNotify (interval token : Z)
| SvRemoveNotify (token : Z)
| SvNotify (token : Z)
| SvUpdate (listen_addrs : list Multiaddr).

Inductive SessionProtocolEvent :=
| SeOpened (version : bytes)
| SeClosed
| SeDisconnected
| SeReceived (data : bytes)
| SeNotify (token : Z)
| SeSetNotify (interval token : Z)
| SeRemoveNotify (token : Z)
| SeUpdate (listen_addrs : list Multiaddr).

(** [F] is the type of a framed stream after the selection of a protocol. *)
Inductive ProtocolEvent (F : Type) :=
| PeOpen (proto_name : bytes) (substream : F) (version : bytes)
| PeClose (id proto_id : Z)
| PeMessage (data : bytes)
| PeSelectError (proto_name : option bytes)
| PeError (proto_id : Z) (error : ErrorKind)
| PeTimeoutCheck.
Arguments PeOpen {F}.
Arguments PeClose {F}.
Arguments PeMessage {F}.
Arguments PeSelectError {F}.
Arguments PeError {F}.
Arguments PeTimeoutCheck {F}.

(** ** The receiving end of a priority channel ([channel/bound.rs])

    [pr_close] is [Receiver::close]; the queues are ghost. *)
Class PriorityReceiver (R A : Type) := {
  pr_poll_next : R → R * Poll (option (Priority * A));
  pr_close : R → R;
  pr_queue : Priority → R → list A;
}.
#[global] Hint Mode PriorityReceiver ! - : typeclass_instances.

(** The oldest message at high priority first, then the oldest at normal priority; closing keeps
    what is queued. *)
Class PriorityReceiverLaws (R A : Type) `{PRC : PriorityReceiver R A} : Prop := {
  pr_next_view : ∀ (r r' : R) p, pr_poll_next r = (r', p) →
    match p with
    | Ready (Some (High, a)) =>
        pr_queue High r = a :: pr_queue High r' ∧ pr_queue Normal r' = pr_queue Normal r
    | Ready (Some (Normal, a)) => pr_queue High r = [] ∧ pr_queue High r' = [] ∧
        pr_queue Normal r = a :: pr_queue Normal r'
    | Ready None | Pending => ∀ pr, pr_queue pr r = [] ∧ pr_queue pr r' = []
    end;
  pr_close_view : ∀ (r : R) pr, pr_queue pr (pr_close r) = pr_queue pr r;
}.

(** A receiver on two queues. *)
Record TwoQueues (A : Type) := mkTwoQueues { tq_high : list A; tq_normal : list A; tq_closed : bool }.
Arguments mkTwoQueues {A} _ _ _.
Arguments tq_high {A} _.
Arguments tq_normal {A} _.
Arguments tq_closed {A} _.

#[export] Instance TwoQueues_ops A : PriorityReceiver (TwoQueues A) A := {
  pr_poll_next r :=
    match tq_high r, tq_normal r with
    | a :: h, n => (mkTwoQueues h n (tq_closed r), Ready (Some (High, a)))
    | [], a :: n => (mkTwoQueues [] n (tq_closed r), Ready (Some (Normal, a)))
    | [], [] => (r, if tq_closed r then Ready None else Pending)
    end;
  pr_close r := mkTwoQueues (tq_high r) (tq_normal r) true;
  pr_queue p r := match p with High => tq_high r | Normal => tq_normal r end;
}.

#[export] Instance TwoQueues_laws A : PriorityReceiverLaws (TwoQueues A) A.
Proof.
  split.
  - intros [[|h hs] [|n ns] []] r' p; cbn; intros [= <- <-]; try (intros []); done.
  - by intros r [].
Qed.

(** ** A sound bound on what may be buffered *)

Lemma event_size_pos c : 0 < max_stream_window_size (yamux_config c) →
  0 <= send_buffer_size c → 0 <= recv_buffer_size c →
  (∃ n, send_event_size c = Some n ∧ 0 < n) ∧ (∃ n, recv_event_size c = Some n ∧ 0 < n).
Proof.
  intros Hw Hs Hr. unfold send_event_size, recv_event_size, checked_div.
  destruct (Z.eqb_spec (max_stream_window_size (yamux_config c)) 0) as [E|E]; [lia|].
  pose proof (Z.div_pos _ _ Hs Hw). pose proof (Z.div_pos _ _ Hr Hw).
  split; eexists; (split; [reflexivity|lia]).
Qed.
