(* ===== verification/ChannelEnds.v ===== *)
(** * The ends of the bounded channel as its clients see them ([tentacle/tentacle/src/channel/bound.rs])

    The buffers, substreams and sessions are proved against the interfaces [PrioritySender] and
    [PriorityReceiver]. Here the two ends of the bounded channel are given as whole calls, composed of
    the atomic steps of [PriorityChannel] without a step of another task between them, and shown to
    satisfy the interfaces; a call is a run of the steps of the channel, so what holds in every
    interleaving holds of calls too. *)

From Stdlib Require Import ZArith Lia Bool.
From stdpp Require Import base list gmap.
From S2P Require Import Prelude Channels PriorityChannel PriorityChannelProofs Buffers Tentacle.

Open Scope Z_scope.

Section Ends.
Context {A : Type}.
Abbreviation sys := (csys (A := A)).
Abbreviation sender := (Sender (A := A)).

#[local] Arguments decode_state : simpl never.
#[local] Arguments encode_state : simpl never.
#[local] Arguments set_closed : simpl never.
#[local] Arguments sel : simpl never.
#[local] Arguments queue_of : simpl never.

(** ** The receiver *)

(** A popped message: [unpark_one], [dec_num_messages], and the return. *)
Definition finish_message (k : caller) (pr : Priority) (m : nat * A) (y : sys) : sys :=
  let y1 := unpark_one y in
  mkSys (dec_num_messages (cs_inner y1)) (cs_senders y1) (after_message k) (cs_accepted y1)
    (cs_received y1 ++ (if decide (k = Draining) then [] else [(pr, m)]))
    (cs_dropped y1 ++ (if decide (k = Draining) then [(pr, m)] else [])).

Definition next_message (k : caller) (y : sys) : sys * Poll (option (Priority * A)) :=
  match bi_quick_message_queue (cs_inner y) with
  | m :: q =>
      (finish_message k High m (with_inner (put_quick_message_queue q (cs_inner y)) y), Ready (Some (High, m.2)))
  | [] =>
      match bi_message_queue (cs_inner y) with
      | m :: q =>
          (finish_message k Normal m (with_inner (put_message_queue q (cs_inner y)) y), Ready (Some (Normal, m.2)))
      | [] =>
          let closed := State_is_closed (decode_state (bi_state (cs_inner y))) in
          (with_rpc (after_empty k closed) y, if closed then Ready None else Pending)
      end
  end.

(** [poll_next] with the waker [w]. *)
Definition receiver_poll_next (w : nat) (y : sys) : sys * Poll (option (Priority * A)) :=
  match next_message First y with
  | (y1, Ready msg) => (y1, Ready msg)
  | (y1, Pending) => next_message Second (with_inner (put_recv_task (Some w) (cs_inner y1)) y1)
  end.

(** [try_next]; [Pending] is its error. *)
Definition receiver_try_next (y : sys) : sys * Poll (option (Priority * A)) := next_message TryNext y.

(** The loop of [close] pops a parked handle per turn. *)
Fixpoint unpark_all (fuel : nat) (y : sys) : sys :=
  match fuel with
  | O => y
  | S fuel' => match bi_parked_queue (cs_inner y) with [] => y | _ => unpark_all fuel' (unpark_one y) end
  end.
Definition receiver_close (y : sys) : sys :=
  let y1 := with_inner (set_closed (cs_inner y)) y in
  with_rpc RIdle (unpark_all (length (bi_parked_queue (cs_inner y1))) y1).

(** ** A sender *)

(** [park] when the channel is over its buffer. *)
Definition sender_park (i : nat) (pr : Priority) (m : A) (s : sender) (c : BoundedInner) : sender * BoundedInner :=
  match s_pc s with
  | SParkLock _ _ => let c' := park_push i c in (park_check pr m c' (put_pc (SParkCheck pr m) (park_lock pr m s)), c')
  | _ => (s, c)
  end.

(** [try_send] and [try_quick_send] of the sender [i]. The assertion of [inc_num_messages], which
    [channel_capacity] excludes, is given as a full channel. *)
Definition sender_try_send (pr : Priority) (x : nat * sys) (m : A) : (nat * sys) * TrySend A :=
  let '(i, y) := x in
  match cs_senders y !! i with
  | None => (x, SendDisconnected)
  | Some s =>
      match try_send pr m s with
      | (s1, Some _) => ((i, with_sender i s1 y), SendFull m)
      | (s1, None) =>
          match do_send_b pr m s1 (cs_inner y) with
          | ROk (s2, c2, Some _) => ((i, with_sender i s2 y), SendDisconnected)
          | ROk (s2, c2, None) =>
              let '(s3, c3) := sender_park i pr m s2 c2 in
              ((i, mkSys (put_recv_task None (queue_push pr (i, m) c3)) (<[i := put_pc SIdle s3]> (cs_senders y)) (cs_rpc y)
                     (cs_accepted y ++ [(pr, (i, m))]) (cs_received y) (cs_dropped y)), SendOk)
          | _ => (x, SendFull m)
          end
      end
  end.

(** [poll_ready] with the waker [w]; [Ready false] is its error. *)
Definition sender_poll_ready (w : nat) (x : nat * sys) : (nat * sys) * Poll bool :=
  let '(i, y) := x in
  match cs_senders y !! i with
  | None => (x, Ready false)
  | Some s =>
      let '(s', p) := poll_ready (cs_inner y) w s in
      ((i, with_sender i s' y), match p with Ready (inr _) => Ready true | Ready (inl _) => Ready false | Pending => Pending end)
  end.

(** ** Calls are runs of the channel *)

Abbreviation runs := (rtc (c_step (A := A))) (only parsing).

Lemma recv_run (y y' : sys) : recv_step y y' → runs y y'.
Proof. intros H. by apply rtc_once, c_recv. Qed.

Lemma unpark_rpc r (y : sys) : unpark_one (with_rpc r y) = with_rpc r (unpark_one y).
Proof.
  unfold unpark_one. cbn. destruct (bi_parked_queue (cs_inner y)) as [|i q]; [done|]. by destruct (cs_senders y !! i).
Qed.

Lemma finish_runs k pr m (y : sys) : runs (with_rpc (RUnpark k pr m) y) (finish_message k pr m y).
Proof.
  eapply rtc_l; [apply c_recv; by eapply rs_unpark|]. rewrite unpark_rpc. apply recv_run.
  exact (rs_dec (with_rpc (RDec k pr m) (unpark_one y)) k pr m eq_refl).
Qed.

Lemma next_message_runs k y : cs_rpc y = RQuick k → runs y (next_message k y).1.
Proof.
  intros Hr. pose proof (recv_run _ _ (rs_quick y k Hr)) as H1. unfold next_message.
  destruct (bi_quick_message_queue (cs_inner y)) as [|m q] eqn:Eq; cbn [fst]; (etransitivity; [exact H1|]).
  - pose proof (recv_run _ _ (rs_normal (with_rpc (RNormal k) y) k eq_refl)) as H2. cbn [with_rpc cs_inner] in H2.
    destruct (bi_message_queue (cs_inner y)) as [|m q]; cbn [fst]; (etransitivity; [exact H2|]).
    + apply recv_run. exact (rs_load (with_rpc (RLoad k) y) k eq_refl).
    + exact (finish_runs k Normal m (with_inner (put_message_queue q (cs_inner y)) y)).
  - exact (finish_runs k High m (with_inner (put_quick_message_queue q (cs_inner y)) y)).
Qed.

(** What is received does not depend on where the receiver stood. *)
Lemma next_message_rpc k r (y : sys) : next_message k (with_rpc r y) = next_message k y.
Proof.
  unfold next_message. cbn. destruct (bi_quick_message_queue (cs_inner y)) as [|m q].
  - destruct (bi_message_queue (cs_inner y)) as [|m q]; [done|].
    change (with_inner _ (with_rpc r y)) with (with_rpc r (with_inner (put_message_queue q (cs_inner y)) y)).
    unfold finish_message. by rewrite unpark_rpc.
  - change (with_inner _ (with_rpc r y)) with (with_rpc r (with_inner (put_quick_message_queue q (cs_inner y)) y)).
    unfold finish_message. by rewrite unpark_rpc.
Qed.

Definition idle (y : sys) : Prop := cs_rpc y = RIdle ∨ cs_rpc y = RParked.

Lemma poll_next_runs w y : idle y → runs y (receiver_poll_next w y).1.
Proof.
  intros Hi. eapply rtc_l; [by apply c_recv, rs_poll|].
  pose proof (next_message_runs First (with_rpc (RQuick First) y) eq_refl) as H1. rewrite next_message_rpc in H1.
  unfold receiver_poll_next. destruct (next_message First y) as [y1 p] eqn:E. destruct p as [msg|]; [exact H1|].
  assert (cs_rpc y1 = RRegister) as Hr.
  { unfold next_message in E. destruct (bi_quick_message_queue _); [|done]. destruct (bi_message_queue _); [|done].
    cbn in E. destruct (State_is_closed _); [done|]. by injection E as <-. }
  etransitivity; [exact H1|]. eapply rtc_l; [apply c_recv; by apply (rs_register _ w)|].
  pose proof (next_message_runs Second (with_rpc (RQuick Second) (with_inner (put_recv_task (Some w) (cs_inner y1)) y1)) eq_refl) as H2.
  by rewrite next_message_rpc in H2.
Qed.

Lemma try_next_runs y : idle y → runs y (receiver_try_next y).1.
Proof.
  intros Hi. eapply rtc_l; [by apply c_recv, rs_try|].
  pose proof (next_message_runs TryNext (with_rpc (RQuick TryNext) y) eq_refl) as H1. by rewrite next_message_rpc in H1.
Qed.

Lemma unpark_all_runs d fuel y : (length (bi_parked_queue (cs_inner y)) <= fuel)%nat →
  runs (with_rpc (RClosing d) y) (with_rpc (if d then RQuick Draining else RIdle) (unpark_all fuel y)).
Proof.
  revert y. induction fuel as [|fuel IH]; intros y Hf.
  - destruct (bi_parked_queue (cs_inner y)) eqn:E; [|cbn in Hf; lia].
    pose proof (rs_closing (with_rpc (RClosing d) y) d eq_refl) as Hx. cbn in Hx. rewrite E in Hx. by apply recv_run.
  - cbn. pose proof (rs_closing (with_rpc (RClosing d) y) d eq_refl) as Hx. cbn in Hx.
    destruct (bi_parked_queue (cs_inner y)) as [|i q] eqn:E; [by apply recv_run|].
    rewrite unpark_rpc in Hx. eapply rtc_l; [apply c_recv; exact Hx|]. apply IH.
    destruct (unpark_one_other y) as (_ & _ & _ & _ & _ & _ & _ & _ & _ & ->). rewrite E. cbn in *. lia.
Qed.

Lemma close_runs y : idle y → runs y (receiver_close y).
Proof.
  intros Hi. eapply rtc_l; [by apply c_recv, (rs_close _ false)|].
  exact (unpark_all_runs false _ (with_inner (set_closed (cs_inner y)) y) ltac:(done)).
Qed.

(** The channel [y] with the sender [i] at [s]. *)
Definition at_sender (i : nat) (y : sys) (c : BoundedInner) (s : sender) (acc : list (Priority * (nat * A))) : sys :=
  mkSys c (<[i := s]> (cs_senders y)) (cs_rpc y) acc (cs_received y) (cs_dropped y).

Lemma at_with i y c s acc c' s' : with_sender i s' (with_inner c' (at_sender i y c s acc)) = at_sender i y c' s' acc.
Proof. unfold with_sender, with_inner, at_sender. cbn. by rewrite list_insert_insert_eq. Qed.
Lemma at_with_sender i y c s acc s' : with_sender i s' (at_sender i y c s acc) = at_sender i y c s' acc.
Proof. exact (at_with i y c s acc c s'). Qed.

Lemma at_step i y c s acc z : is_Some (cs_senders y !! i) →
  send_step i s (at_sender i y c s acc) z → runs (at_sender i y c s acc) z.
Proof.
  intros [x Hx] H. apply rtc_once, (c_send _ _ i s); [|done]. cbn. apply list_lookup_insert_eq. by eapply lookup_lt_Some.
Qed.

Lemma park_runs i y pr m c s acc : is_Some (cs_senders y !! i) →
  s_pc s = SParkLock pr m ∨ s_pc s = SPush pr m →
  runs (at_sender i y c s acc) (at_sender i y (sender_park i pr m s c).2 (sender_park i pr m s c).1 acc) ∧
  s_pc (sender_park i pr m s c).1 = SPush pr m.
Proof.
  intros Hi [Hp|Hp]; unfold sender_park; rewrite Hp; cbn [fst snd]; [|done]. split; [|done].
  etransitivity; [apply (at_step i y c s acc _ Hi); by eapply ss_park_lock|]. rewrite at_with_sender.
  etransitivity; [apply (at_step i y c _ acc _ Hi); by eapply ss_park_push|]. rewrite at_with.
  etransitivity; [apply (at_step i y _ _ acc _ Hi); by eapply ss_park_check|]. by rewrite at_with_sender.
Qed.

Lemma try_send_runs i y s pr m :
  cs_senders y !! i = Some s → s_pc s = SIdle → runs y (sender_try_send pr (i, y) m).1.2.
Proof.
  intros Hs Hp. unfold sender_try_send. rewrite Hs. pose proof (ss_try i s y pr m Hp) as H1.
  assert (∀ z, send_step i s y z → runs y z) as Hy by (intros z Hz; by apply rtc_once, (c_send _ _ i s)).
  destruct (try_send pr m s) as [s1 [e|]] eqn:E; cbn [fst snd] in *; [by apply Hy|].
  assert (is_Some (cs_senders y !! i)) as Hi by (by exists s).
  assert (s_pc s1 = SInc pr m) as Hp1 by (unfold try_send in E; destruct (poll_unparked None s) as [s' []]; by simplify_eq).
  change (with_sender i s1 y) with (at_sender i y (cs_inner y) s1 (cs_accepted y)) in H1.
  destruct (do_send_b pr m s1 (cs_inner y)) as [[[s2 c2] e]| |] eqn:Ed; [|apply rtc_refl..].
  pose proof (ss_inc i s1 (at_sender i y (cs_inner y) s1 (cs_accepted y)) pr m s2 c2 e Hp1 Ed) as H2.
  apply (at_step i y _ _ _ _ Hi) in H2. cbn in H2. rewrite list_insert_insert_eq in H2.
  assert (∀ z, runs (at_sender i y c2 s2 (cs_accepted y ++ match e with None => [(pr, (i, m))] | Some _ => [] end)) z → runs y z) as Hz
    by (intros z Hz; etransitivity; [by apply Hy|]; by etransitivity).
  clear H1 H2. unfold do_send_b in Ed. destruct (inc_num_messages (cs_inner y)) as [[[c' n]|]| |] eqn:Ei; simplify_eq.
  - destruct (park_runs i y pr m c2 (put_pc (if bi_buffer (cs_inner y) <? n then SParkLock pr m else SPush pr m) s1)
      (cs_accepted y ++ [(pr, (i, m))]) Hi) as [H3 H4]; [cbn; destruct (_ <? _); auto|].
    destruct (sender_park i pr m _ c2) as [s3 c3]. cbn [fst snd] in *. apply Hz. etransitivity; [exact H3|].
    etransitivity; [apply (at_step i y c3 s3 _ _ Hi); by eapply ss_push|]. rewrite at_with.
    etransitivity; [apply (at_step i y _ _ _ _ Hi); by eapply ss_wake|]. rewrite at_with. apply rtc_refl.
  - cbn [fst snd]. rewrite app_nil_r in Hz. apply Hz, rtc_refl.
Qed.

Lemma poll_ready_runs w i y s : cs_senders y !! i = Some s → s_pc s = SIdle → runs y (sender_poll_ready w (i, y)).1.2.
Proof.
  intros Hs Hp. unfold sender_poll_ready. rewrite Hs. pose proof (ss_ready i s y w Hp) as H.
  destruct (poll_ready (cs_inner y) w s) as [s' p]. by apply rtc_once, (c_send _ _ i s).
Qed.

(** ** The interfaces *)

(** What the sender [i] sent at a priority. *)
Definition sent_by (pr : Priority) (x : nat * sys) : list A := (λ z, z.2.2) <$> sel x.1 pr (cs_accepted x.2).

#[export] Instance channel_sender (w : nat) : PrioritySender (nat * sys) A := {
  ps_poll_ready := sender_poll_ready w;
  ps_try_send := sender_try_send Normal;
  ps_try_quick_send := sender_try_send High;
  ps_normal := sent_by Normal;
  ps_quick := sent_by High;
}.

(** A receiver that has seen the end has given its channel up; polled again it panics, which its
    clients, all fused, do not do. *)
#[export] Instance channel_receiver (w : nat) : PriorityReceiver sys A := {
  pr_poll_next y := match cs_rpc y with RDone => (y, Ready None) | _ => receiver_poll_next w y end;
  pr_close y := match cs_rpc y with RDone => y | _ => receiver_close y end;
  pr_queue pr y := match cs_rpc y with RDone => [] | _ => (queue_of pr (cs_inner y)).*2.*2 end;
}.

Lemma sel_same i pr m : sel (A := A) i pr [(pr, (i, m))] = [(pr, (i, m))].
Proof. unfold sel. by rewrite filter_cons_True. Qed.

Lemma try_send_view pr (x x' : nat * sys) m r : sender_try_send pr x m = (x', r) →
  (∀ pr', pr' ≠ pr → sent_by pr' x' = sent_by pr' x) ∧
  match r with SendOk => sent_by pr x' = sent_by pr x ++ [m]
             | SendFull b => b = m ∧ sent_by pr x' = sent_by pr x
             | SendDisconnected => sent_by pr x' = sent_by pr x end.
Proof.
  destruct x as [i y]. unfold sender_try_send. destruct (cs_senders y !! i) as [s|]; [|by intros [= <- <-]].
  destruct (try_send pr m s) as [s1 [e|]]; [by intros [= <- <-]|].
  destruct (do_send_b pr m s1 (cs_inner y)) as [[[s2 c2] [e|]]| |]; try (by intros [= <- <-]).
  destruct (sender_park i pr m s2 c2) as [s3 c3]. intros [= <- <-]. unfold sent_by. cbn. split.
  - intros pr' Hne. by rewrite sel_app, sel_other, app_nil_r by auto.
  - by rewrite sel_app, sel_same, fmap_app.
Qed.

#[export] Instance channel_sender_laws w : PrioritySenderLaws (nat * sys) A (PS := channel_sender w).
Proof.
  split.
  - intros [i y]. cbn. destruct (cs_senders y !! i); [|done]. by destruct (poll_ready _ _ _).
  - intros x x' m r H. cbn in *. apply try_send_view in H as [H1 H2]. split; [by apply H1|done].
  - intros x x' m r H. cbn in *. apply try_send_view in H as [H1 H2]. split; [by apply H1|done].
Qed.

Definition payload (pr : Priority) (y : sys) : list A := (queue_of pr (cs_inner y)).*2.*2.

Lemma finish_payload k pr m (y : sys) pr' : payload pr' (finish_message k pr m y) = payload pr' y ∧
  cs_rpc (finish_message k pr m y) = after_message k.
Proof.
  destruct (unpark_one_other y) as (_ & H2 & H3 & _). unfold payload, queue_of, finish_message. cbn. by rewrite H2, H3.
Qed.

(** What [next_message] returns is the front of the queues. *)
Lemma next_message_view k y y' p : k ≠ Draining → next_message k y = (y', p) →
  match p with
  | Ready (Some (High, a)) => payload High y = a :: payload High y' ∧ payload Normal y' = payload Normal y ∧ cs_rpc y' = RIdle
  | Ready (Some (Normal, a)) => payload High y = [] ∧ payload High y' = [] ∧ payload Normal y = a :: payload Normal y' ∧ cs_rpc y' = RIdle
  | Ready None => (∀ pr, payload pr y = []) ∧ cs_rpc y' = RDone
  | Pending => (∀ pr, payload pr y = []) ∧ cs_inner y' = cs_inner y ∧ cs_rpc y' = after_empty k false
  end.
Proof.
  intros Hk. assert (after_message (A := A) k = RIdle) as Ha by (by destruct k). unfold next_message.
  destruct (bi_quick_message_queue (cs_inner y)) as [|m q] eqn:Eq.
  - assert (payload High y = []) as H0 by (unfold payload, queue_of; by rewrite Eq).
    destruct (bi_message_queue (cs_inner y)) as [|m q] eqn:En.
    + assert (∀ pr, payload pr y = []) as Hn by (intros []; [done|]; unfold payload, queue_of; by rewrite En).
      destruct (State_is_closed _); by intros [= <- <-].
    + intros [= <- <-]. destruct (finish_payload k Normal m (with_inner (put_message_queue q (cs_inner y)) y) High) as [E1 E2].
      destruct (finish_payload k Normal m (with_inner (put_message_queue q (cs_inner y)) y) Normal) as [E3 _].
      rewrite E1, E2, E3, Ha. split_and!; [done|..|done]; [exact H0|]. unfold payload, queue_of. cbn. by rewrite En.
  - intros [= <- <-]. destruct (finish_payload k High m (with_inner (put_quick_message_queue q (cs_inner y)) y) High) as [E1 E2].
    destruct (finish_payload k High m (with_inner (put_quick_message_queue q (cs_inner y)) y) Normal) as [E3 _].
    rewrite E1, E2, E3, Ha. split_and!; [|done..]. unfold payload, queue_of. cbn. by rewrite Eq.
Qed.

(** A whole poll returns the front of the queues, too. *)
Lemma poll_next_view w y y' p : receiver_poll_next w y = (y', p) →
  match p with
  | Ready (Some (High, a)) => payload High y = a :: payload High y' ∧ payload Normal y' = payload Normal y ∧ cs_rpc y' = RIdle
  | Ready (Some (Normal, a)) => payload High y = [] ∧ payload High y' = [] ∧ payload Normal y = a :: payload Normal y' ∧ cs_rpc y' = RIdle
  | Ready None => (∀ pr, payload pr y = []) ∧ cs_rpc y' = RDone
  | Pending => (∀ pr, payload pr y = []) ∧ (∀ pr, payload pr y' = []) ∧ cs_rpc y' = RParked
  end.
Proof.
  unfold receiver_poll_next. destruct (next_message First y) as [y1 p1] eqn:E1. apply next_message_view in E1; [|done].
  destruct p1 as [msg|]; [intros [= <- <-]; exact E1|]. destruct E1 as (Hn & Ei & _). intros E2.
  apply next_message_view in E2; [|done].
  assert (∀ pr, payload pr (with_inner (put_recv_task (Some w) (cs_inner y1)) y1) = payload pr y) as Hp
    by (intros []; unfold payload, queue_of; cbn; by rewrite Ei).
  destruct p as [[[[] a]|]|].
  - rewrite !Hp in E2. by rewrite Hn in E2; destruct E2.
  - rewrite !Hp in E2. by rewrite !Hn in E2; destruct E2 as (_ & _ & ? & _).
  - by destruct E2.
  - destruct E2 as (H1 & H2 & H3). split_and!; [done| |done]. intros pr. rewrite <- (Hn pr), <- (Hp pr). unfold payload. by rewrite H2.
Qed.

Lemma unpark_all_queues fuel y :
  bi_quick_message_queue (cs_inner (unpark_all fuel y)) = bi_quick_message_queue (cs_inner y) ∧
  bi_message_queue (cs_inner (unpark_all fuel y)) = bi_message_queue (cs_inner y).
Proof.
  revert y. induction fuel as [|fuel IH]; intros y; cbn; [done|]. destruct (bi_parked_queue (cs_inner y)); [done|].
  destruct (IH (unpark_one y)) as [-> ->]. by destruct (unpark_one_other y) as (_ & H2 & H3 & _).
Qed.

Lemma close_payload pr y : payload pr (receiver_close y) = payload pr y.
Proof.
  unfold payload, queue_of, receiver_close. cbn. destruct (set_closed_other (cs_inner y)) as (E1 & E2 & _).
  destruct (unpark_all_queues (length (bi_parked_queue (set_closed (cs_inner y)))) (with_inner (set_closed (cs_inner y)) y)) as [-> ->].
  cbn. by rewrite E1, E2.
Qed.

#[export] Instance channel_receiver_laws w : PriorityReceiverLaws sys A (PRC := channel_receiver w).
Proof.
  split.
  - intros y y' p. cbn. assert (cs_rpc y = RDone ∨ cs_rpc y ≠ RDone) as [E|Hnd] by (destruct (cs_rpc y); auto).
    { rewrite E. intros [= <- <-]. rewrite E. by intros []. }
    assert (pr_queue (PriorityReceiver := channel_receiver w) High y = payload High y ∧
            pr_queue (PriorityReceiver := channel_receiver w) Normal y = payload Normal y) as [Eh En]
      by (cbn; by destruct (cs_rpc y)). cbn in Eh, En.
    intros H. assert (receiver_poll_next w y = (y', p)) as Hv by (by destruct (cs_rpc y)).
    apply poll_next_view in Hv. destruct p as [[[[] a]|]|].
    + destruct Hv as (H1 & H2 & H3). rewrite H3, Eh, En. done.
    + destruct Hv as (H1 & H2 & H3 & H4). rewrite H4, Eh, En. done.
    + destruct Hv as (H1 & H2). rewrite H2. intros []; [rewrite Eh|rewrite En]; by split.
    + destruct Hv as (H1 & H2 & H3). rewrite H3. intros []; [rewrite Eh|rewrite En]; (split; [apply H1|apply H2]).
  - intros y pr. cbn. pose proof (close_payload pr y) as H. destruct (cs_rpc y) eqn:E; try exact H. by rewrite E.
Qed.

(** ** A buffer in front of the channel *)

Lemma send_loop_keeps {T} (P : T → Prop) (ready : T → T * Poll bool) (send : T → A → T * TrySend A) s buf :
  (∀ s, P s → P (ready s).1) → (∀ s a, P s → P (send s a).1) → P s → P (send_loop ready send s buf).1.1.
Proof.
  intros Hr Hs. revert s. induction buf as [|a buf IH]; intros s HP; cbn; [done|].
  specialize (Hr s HP). destruct (ready s) as [s1 [[]|]]; cbn in *; try done.
  specialize (Hs s1 a Hr). destruct (send s1 a) as [s2 []]; cbn in *; auto.
Qed.

Lemma buffer_keeps `{PS : PrioritySender T A} (P : T → Prop) (b : PriorityBuffer (T := T) (A := A)) :
  (∀ s, P s → P (ps_poll_ready s).1) → (∀ s a, P s → P (ps_try_send s a).1) → (∀ s a, P s → P (ps_try_quick_send s a).1) →
  P (pb_sender b) → P (pb_sender (PriorityBuffer_try_send b).1).
Proof.
  intros Hr Hs Hq HP. unfold PriorityBuffer_try_send.
  pose proof (send_loop_keeps P ps_poll_ready ps_try_quick_send (pb_sender b) (pb_high b) Hr Hq HP) as H1.
  destruct (send_loop ps_poll_ready ps_try_quick_send _ _) as [[s1 high] []]; cbn in *; try done.
  pose proof (send_loop_keeps P ps_poll_ready ps_try_send s1 (pb_normal b) Hr Hs H1) as H2.
  by destruct (send_loop ps_poll_ready ps_try_send _ _) as [[s2 normal] []].
Qed.

(** The sender [i] of a channel that went through the steps from [start] stands between two calls. *)
Definition ready_end (start : sys) (i : nat) (x : nat * sys) : Prop :=
  x.1 = i ∧ runs start x.2 ∧ ∃ s, cs_senders x.2 !! i = Some s ∧ s_pc s = SIdle.

Lemma ready_end_at start i y c s acc :
  is_Some (cs_senders y !! i) → s_pc s = SIdle → runs start (at_sender i y c s acc) → ready_end start i (i, at_sender i y c s acc).
Proof.
  intros [x Hx] Hs Hr. split_and!; [done..|]. exists s. split; [|done]. cbn. apply list_lookup_insert_eq. by eapply lookup_lt_Some.
Qed.

Lemma ready_try_send start i pr x m : ready_end start i x → ready_end start i (sender_try_send pr x m).1.
Proof.
  destruct x as [j y]. intros (E & Hr & s & Hs & Hp). cbn in E, Hr, Hs. subst j.
  assert (runs start (sender_try_send pr (i, y) m).1.2) as Hrun by (etransitivity; [done|]; by eapply try_send_runs).
  assert (ready_end start i (i, y)) as Hy by (split_and!; [done..|]; eauto).
  assert (is_Some (cs_senders y !! i)) as Hi by (by exists s).
  revert Hrun. unfold sender_try_send. rewrite Hs. pose proof (poll_unparked_pc None s) as Hu. unfold try_send.
  destruct (poll_unparked None s) as [s1 [[]|]]; cbn [fst snd] in *.
  - destruct (do_send_b pr m (put_pc (SInc pr m) s1) (cs_inner y)) as [[[s2 c2] [e|]]| |] eqn:Ed; cbn [fst snd]; try done.
    + apply ready_end_at; [done|]. unfold do_send_b in Ed. destruct (inc_num_messages _) as [[[? ?]|]| |]; by simplify_eq.
    + destruct (sender_park i pr m s2 c2) as [s3 c3]. cbn [fst snd]. by apply ready_end_at.
  - apply ready_end_at; [done|]. by rewrite Hu.
Qed.

Lemma ready_poll_ready start i w x : ready_end start i x → ready_end start i (sender_poll_ready w x).1.
Proof.
  destruct x as [j y]. intros (E & Hr & s & Hs & Hp). cbn in E, Hr, Hs. subst j.
  assert (runs start (sender_poll_ready w (i, y)).1.2) as Hrun by (etransitivity; [done|]; by eapply poll_ready_runs).
  revert Hrun. unfold sender_poll_ready. rewrite Hs. pose proof (poll_ready_pc (cs_inner y) w s) as Hu.
  destruct (poll_ready (cs_inner y) w s) as [s1 p]. cbn [fst snd] in *. apply ready_end_at; [by exists s|]. by rewrite Hu.
Qed.

(** What the sender [i] has put into the channel at a priority: received, thrown away by a dropped
    receiver, in the hands of the receiver, or queued, in the order of the receiver. *)
Definition in_channel (i : nat) (pr : Priority) (y : sys) : list A :=
  (λ z, z.2.2) <$> sel i pr (cs_received y ++ cs_dropped y ++ rpc_msg (cs_rpc y) ++ queue_of pr (cs_inner y)).

Lemma sent_in_channel start i pr x : chan_inv start → ready_end start i x → sent_by pr x = in_channel i pr x.2.
Proof.
  intros Hc (<- & Hr & s & Hs & Hp). destruct (chan_steps_inv _ _ Hr Hc) as (_ & Hf & _).
  unfold sent_by, in_channel. rewrite (Hf x.1 pr). unfold held. rewrite Hs, Hp. cbn. by rewrite app_nil_r.
Qed.

(** Flushing a priority buffer into a bounded channel, in whatever state other senders and the
    receiver have left it, is a run of the channel, and the messages of the buffer follow those its
    sender put there before, in order at each priority: all of them when the flush succeeds, and a
    front of them, with the rest still in the buffer, when the channel is full; the messages are in
    the order in which the receiver gets them. *)
Theorem buffered_channel_in_order w buffer c y i s (b : PriorityBuffer (T := nat * sys) (A := A)) :
  channel_inner buffer = Some c → 0 <= buffer → rtc c_step (chan_start c) y →
  cs_senders y !! i = Some s → s_pc s = SIdle → pb_sender b = (i, y) →
  let '(b', r) := PriorityBuffer_try_send (H := channel_sender w) b in
  let y' := (pb_sender b').2 in
  rtc c_step (chan_start c) y' ∧
  match r with
  | SrOk => in_channel i High y' = in_channel i High y ++ pb_high b ∧
      in_channel i Normal y' = in_channel i Normal y ++ pb_normal b ∧ pb_is_empty b' = true
  | SrPending => in_channel i High y' ++ pb_high b' = in_channel i High y ++ pb_high b ∧
      in_channel i Normal y' ++ pb_normal b' = in_channel i Normal y ++ pb_normal b ∧
      (pb_high b' ≠ [] → in_channel i Normal y' = in_channel i Normal y)
  | SrDisconnect => pb_is_empty b' = true
  end.
Proof.
  intros Hc Hb Hr Hs Hp Eb. pose proof (chan_start_inv _ _ Hc Hb) as Hinv.
  assert (ready_end (chan_start c) i (pb_sender b)) as H0 by (rewrite Eb; split_and!; eauto).
  pose proof (buffer_keeps (PS := channel_sender w) (ready_end (chan_start c) i) b
    (λ x, ready_poll_ready (chan_start c) i w x) (λ x m, ready_try_send (chan_start c) i Normal x m)
    (λ x m, ready_try_send (chan_start c) i High x m) H0) as H1.
  pose proof (PriorityBuffer_try_send_in_order (PS := channel_sender w) b) as H2.
  destruct (PriorityBuffer_try_send b) as [b' r]. cbn in H1, H2. split; [apply H1|].
  rewrite !(sent_in_channel (chan_start c) i _ _ Hinv H0), !(sent_in_channel (chan_start c) i _ _ Hinv H1), Eb in H2.
  cbn [snd] in H2. destruct r; naive_solver.
Qed.

End Ends.

(** A run: a channel without buffer takes one message and parks the sender. *)
Lemma buffered_channel_in_order_witness :
  let b := mkPriorityBuffer (0%nat, chan_start demo_inner) [7] [8] in
  let '(b', r) := PriorityBuffer_try_send (H := channel_sender 3) b in
  match r with
  | SrPending => in_channel 0 High (pb_sender b').2 ++ pb_high b' = [7] ∧
      in_channel 0 Normal (pb_sender b').2 ++ pb_normal b' = [8]
  | _ => False
  end.
Proof.
  intros b. pose proof (buffered_channel_in_order 3 0 demo_inner (chan_start demo_inner) 0 Sender_new b
    eq_refl ltac:(lia) (rtc_refl _ _) eq_refl eq_refl eq_refl) as H.
  destruct (PriorityBuffer_try_send b) as [b' r] eqn:E. vm_compute in E. injection E as <- <-.
  destruct H as (_ & H1 & H2 & _). split; [exact H1|exact H2].
Defined.
