(* ===== verification/ChannelSinks.v ===== *)
(** * Sending as a future ([tentacle/tentacle/src/channel/sink_impl.rs], [bound.rs], [unbound.rs])

    [async_send], [async_quick_send] and [QuickSend] over a sender of a priority channel: polled any
    number of times, with other tasks in between, they send their message exactly once or not at
    all. The sender is the interface [PrioritySender], which the ends of the bounded channel
    satisfy (ChannelEnds.v). *)

From Stdlib Require Import ZArith Lia Bool.
From stdpp Require Import base list relations.
From S2P Require Import Prelude Channels PriorityChannel PriorityChannelProofs Buffers ChannelEnds.

Section Sinks.
Context {T A : Type} `{PS : PrioritySender T A}.

(** ** The sink of a sender *)

(** [Sender::poll_ready]; the error is that the channel is closed. *)
Definition sink_poll_ready (s : T) : T * Poll (SendErrorKind + unit) :=
  match ps_poll_ready s with
  | (s', Ready true) => (s', Ready (inr tt))
  | (s', Ready false) => (s', Ready (inl Disconnected))
  | (s', Pending) => (s', Pending)
  end.

(** [map_err(|e| e.err)]: the message is dropped with the error. *)
Definition send_error (r : TrySend A) : SendErrorKind + unit :=
  match r with SendOk => inr tt | SendFull _ => inl Full | SendDisconnected => inl Disconnected end.

Definition start_send (s : T) (msg : A) : T * (SendErrorKind + unit) :=
  let '(s', r) := ps_try_send s msg in (s', send_error r).
Definition start_quick_send (s : T) (msg : A) : T * (SendErrorKind + unit) :=
  let '(s', r) := ps_try_quick_send s msg in (s', send_error r).
Definition start (pr : Priority) : T → A → T * (SendErrorKind + unit) :=
  match pr with High => start_quick_send | Normal => start_send end.

(** A closed channel counts as flushed. *)
Definition sink_poll_flush (s : T) : T * Poll (SendErrorKind + unit) :=
  match sink_poll_ready s with
  | (s', Ready (inl Disconnected)) => (s', Ready (inr tt))
  | x => x
  end.

(** ** The futures *)

(** [async_send] and [async_quick_send]: the closure of [poll_fn] with the message it keeps; [None] is
    the [unwrap] of a message that is gone. *)
Definition async_poll (pr : Priority) (msg : option A) (s : T) : option (T * option A * Poll (SendErrorKind + unit)) :=
  item ← msg;
  match sink_poll_ready s with
  | (s', Ready (inr _)) => let '(s'', r) := start pr s' item in Some (s'', None, Ready r)
  | (s', Ready (inl e)) => Some (s', None, Ready (inl e))
  | (s', Pending) => Some (s', Some item, Pending)
  end.

Definition async_send_poll := async_poll Normal.
Definition async_quick_send_poll := async_poll High.

(** [QuickSend]: the message that was not sent yet. *)
Definition QuickSend : Type := option A.
Definition QuickSend_new (item : A) : QuickSend := Some item.

Definition flush_part (s : T) : T * QuickSend * Poll (SendErrorKind + unit) :=
  let '(s', r) := sink_poll_flush s in (s', None, r).

Definition quick_send_poll (q : QuickSend) (s : T) : T * QuickSend * Poll (SendErrorKind + unit) :=
  match q with
  | Some item =>
      match sink_poll_ready s with
      | (s', Ready (inr _)) =>
          match start_quick_send s' item with
          | (s'', inr _) => flush_part s''
          | (s'', inl e) => (s'', None, Ready (inl e))
          end
      | (s', Ready (inl e)) => (s', None, Ready (inl e))
      | (s', Pending) => (s', Some item, Pending)
      end
  | None => flush_part s
  end.

(** ** Runs *)

(** Where a future stands: under way with its message or without, or done. *)
Inductive fstate := Running (msg : option A) | Finished (r : SendErrorKind + unit).

(** The future is polled, and between the polls other tasks work on the channel, which leaves alone
    what this sender has sent. *)
Inductive async_step (pr : Priority) : T * fstate → T * fstate → Prop :=
| async_polls s msg s' msg' r : async_poll pr msg s = Some (s', msg', r) →
    async_step pr (s, Running msg) (s', match r with Ready x => Finished x | Pending => Running msg' end)
| async_others s s' f : ps_normal s' = ps_normal s → ps_quick s' = ps_quick s → async_step pr (s, f) (s', f).

Inductive quick_step : T * fstate → T * fstate → Prop :=
| quick_polls s q s' q' r : quick_send_poll q s = (s', q', r) →
    quick_step (s, Running q) (s', match r with Ready x => Finished x | Pending => Running q' end)
| quick_others s s' f : ps_normal s' = ps_normal s → ps_quick s' = ps_quick s → quick_step (s, f) (s', f).

(** What was sent with priority [pr], and with the other. *)
Definition sent_with (pr : Priority) (s : T) : list A := match pr with High => ps_quick s | Normal => ps_normal s end.
Definition other (pr : Priority) : Priority := match pr with High => Normal | Normal => High end.

Context `{PL : !PrioritySenderLaws T A}.

Lemma sink_ready_view s s' p : sink_poll_ready s = (s', p) → ∀ pr, sent_with pr s' = sent_with pr s.
Proof.
  unfold sink_poll_ready. destruct (ps_ready_view s) as [V1 V2]. destruct (ps_poll_ready s) as [s1 [[]|]]; cbn in *;
    intros [= <- <-] []; done.
Qed.

Lemma sink_flush_view s s' p : sink_poll_flush s = (s', p) →
  (∀ pr, sent_with pr s' = sent_with pr s) ∧ (∀ e, p ≠ Ready (inl e)).
Proof.
  unfold sink_poll_flush. destruct (sink_poll_ready s) as [s1 r1] eqn:E. pose proof (sink_ready_view _ _ _ E) as HV.
  unfold sink_poll_ready in E. destruct (ps_poll_ready s) as [s2 [[]|]]; injection E as <- <-; by intros [= <- <-].
Qed.

Lemma start_view pr s s' a r : start pr s a = (s', r) → sent_with (other pr) s' = sent_with (other pr) s ∧
  sent_with pr s' = sent_with pr s ++ match r with inr _ => [a] | inl _ => [] end.
Proof.
  destruct pr; cbn; unfold start_quick_send, start_send.
  - destruct (ps_try_quick_send s a) as [s1 r1] eqn:E. apply ps_quick_view in E as [V1 V2].
    destruct r1; cbn; intros [= <- <-]; cbn; rewrite ?app_nil_r; naive_solver.
  - destruct (ps_try_send s a) as [s1 r1] eqn:E. apply ps_try_view in E as [V1 V2].
    destruct r1; cbn; intros [= <- <-]; cbn; rewrite ?app_nil_r; naive_solver.
Qed.

(** How often the message [a] was sent so far. *)
Definition sent_once (pr : Priority) (s0 : T) (a : A) (x : T * fstate) : Prop :=
  sent_with (other pr) x.1 = sent_with (other pr) s0 ∧
  match x.2 with
  | Running (Some b) => b = a ∧ sent_with pr x.1 = sent_with pr s0
  | Running None => sent_with pr x.1 = sent_with pr s0 ++ [a]
  | Finished (inr _) => sent_with pr x.1 = sent_with pr s0 ++ [a]
  | Finished (inl _) => sent_with pr x.1 = sent_with pr s0
  end.

Lemma others_once pr s0 a s s' f : ps_normal s' = ps_normal s → ps_quick s' = ps_quick s →
  sent_once pr s0 a (s, f) → sent_once pr s0 a (s', f).
Proof.
  intros H1 H2. unfold sent_once. cbn. assert (∀ p, sent_with p s' = sent_with p s) as HV by (by intros []).
  by rewrite !HV.
Qed.

Lemma async_step_once pr s0 a x y : async_step pr x y → sent_once pr s0 a x → sent_once pr s0 a y.
Proof.
  intros [s msg s' msg' r E|s s' f H1 H2]; [|by apply others_once]. intros [I1 I2]; cbn in *.
  unfold async_poll in E. destruct msg as [b|]; cbn in E; [|done]. destruct I2 as [-> I2].
  destruct (sink_poll_ready s) as [s1 p1] eqn:E1. pose proof (sink_ready_view _ _ _ E1) as HV.
  destruct p1 as [[e|[]]|].
  - injection E as <- <- <-. split; cbn; by rewrite HV.
  - destruct (start pr s1 a) as [s2 r2] eqn:E2. injection E as <- <- <-. apply start_view in E2 as [V1 V2].
    rewrite !HV in *. split; cbn; [congruence|]. rewrite V2, I2. destruct r2; [apply app_nil_r|done].
  - injection E as <- <- <-. split; cbn; by rewrite HV.
Qed.

Lemma quick_step_once s0 a x y : quick_step x y → sent_once High s0 a x → sent_once High s0 a y.
Proof.
  intros [s q s' q' r E|s s' f H1 H2]; [|by apply others_once]. intros [I1 I2]; cbn [fst snd] in *.
  assert (∀ s1 sf qf rf, flush_part s1 = (sf, qf, rf) → sent_with Normal s1 = sent_with Normal s0 →
    sent_with High s1 = sent_with High s0 ++ [a] →
    sent_once High s0 a (sf, match rf with Ready x => Finished x | Pending => Running qf end)) as HF.
  { intros s1 sf qf rf. unfold flush_part. destruct (sink_poll_flush s1) as [s2 r2] eqn:Ef. intros [= <- <- <-] J1 J2.
    destruct (sink_flush_view _ _ _ Ef) as [HV HE].
    destruct r2 as [[e|[]]|]; [by destruct (HE e)|..]; split; cbn [fst snd other]; rewrite HV; done. }
  unfold quick_send_poll in E. destruct q as [b|]; [|by eapply HF]. destruct I2 as [-> I2].
  destruct (sink_poll_ready s) as [s1 p1] eqn:E1. pose proof (sink_ready_view _ _ _ E1) as HV.
  destruct p1 as [[e|[]]|]; [injection E as <- <- <-; split; cbn [fst snd]; by rewrite HV| |injection E as <- <- <-; split; cbn [fst snd]; by rewrite HV].
  destruct (start_quick_send s1 a) as [s2 r2] eqn:E2.
  destruct (start_view High s1 s2 a r2 E2) as [V1 V2]. rewrite !HV in *. cbn [other] in *.
  destruct r2 as [e|[]].
  - injection E as <- <- <-. split; cbn [fst snd other]; [congruence|]. by rewrite V2, I2, app_nil_r.
  - eapply HF; [exact E|congruence|]. by rewrite V2, I2.
Qed.

Lemma async_steps_once pr s0 a x y : rtc (async_step pr) x y → sent_once pr s0 a x → x.2 ≠ Running None →
  sent_once pr s0 a y ∧ y.2 ≠ Running None.
Proof.
  induction 1 as [|x x1 y Hs _ IH]; [done|]. intros HI HN. apply IH; [by eapply async_step_once|].
  destruct Hs as [sa msg sa' msg' r E|]; [|done]. unfold async_poll in E. destruct msg as [b|]; cbn in E; [|done].
  destruct (sink_poll_ready sa) as [s1 [[e|[]]|]]; [|destruct (start pr s1 b)|]; by injection E as <- <- <-.
Qed.

(** C25: a message sent with [async_send] or [async_quick_send] is sent once when the future says so and
    not at all when it fails or is dropped before it is done, however often it is polled and
    whatever other tasks do in between; it takes the queue of its priority, and the closure never
    finds its message gone. *)
Theorem async_send_once (pr : Priority) (s0 s : T) (a : A) (f : fstate) :
  rtc (async_step pr) (s0, Running (Some a)) (s, f) →
  sent_with (other pr) s = sent_with (other pr) s0 ∧
  match f with
  | Finished (inr _) => sent_with pr s = sent_with pr s0 ++ [a]
  | Finished (inl _) => sent_with pr s = sent_with pr s0
  | Running msg => msg = Some a ∧ sent_with pr s = sent_with pr s0 ∧ is_Some (async_poll pr msg s)
  end.
Proof.
  intros HR. destruct (async_steps_once pr s0 a _ _ HR) as [[H1 H2] HN]; [done|done|].
  cbn in *. split; [done|]. destruct f as [[b|]|r]; [|done|done]. destruct H2 as [-> H2]. split_and!; [done|done|].
  unfold async_poll. cbn. destruct (sink_poll_ready s) as [s1 [[e|[]]|]]; [by eexists| |by eexists].
  destruct (start pr s1 a). by eexists.
Qed.

(** A message sent with [quick_send] is sent once, into the queue of high priority: not before the
    future has let go of it, not again while it waits for the sink to be flushed, and not at all
    if the future fails; waiting for the flush cannot fail. *)
Theorem quick_send_once (s0 s : T) (a : A) (f : fstate) :
  rtc quick_step (s0, Running (QuickSend_new a)) (s, f) →
  ps_normal s = ps_normal s0 ∧
  match f with
  | Finished (inr _) | Running None => ps_quick s = ps_quick s0 ++ [a]
  | Finished (inl _) => ps_quick s = ps_quick s0
  | Running (Some b) => b = a ∧ ps_quick s = ps_quick s0
  end.
Proof.
  intros HR. assert (sent_once High s0 a (s, f)) as [H1 H2].
  { remember (s0, Running (QuickSend_new a)) as x eqn:Ex. assert (sent_once High s0 a x) as HI by (by subst).
    clear Ex. induction HR as [|x x1 y Hs _ IH]; [done|]. by apply IH, (quick_step_once _ _ x). }
  split; [exact H1|]. by destruct f as [[b|]|[e|[]]].
Qed.

End Sinks.

(** ** A run on the bounded channel: the first message is taken, the sender is parked, and the flush
    waits *)

Definition first_end : nat * csys (A := Z) := (0%nat, chan_start demo_inner).
Definition after_quick : nat * csys (A := Z) := (quick_send_poll (PS := channel_sender 3) (QuickSend_new 7%Z) first_end).1.1.
Definition after_async : nat * csys (A := Z) :=
  default first_end ((λ x, x.1.1) <$> async_poll (PS := channel_sender 3) Normal (Some 7%Z) first_end).

Lemma quick_send_once_witness :
  ps_normal (PrioritySender := channel_sender 3) after_quick = [] ∧ ps_quick (PrioritySender := channel_sender 3) after_quick = [7%Z].
Proof.
  apply (quick_send_once (PS := channel_sender 3) first_end after_quick 7%Z (Running None)).
  eapply rtc_l; [|apply rtc_refl]. exact (quick_polls (PS := channel_sender 3) first_end (QuickSend_new 7%Z) after_quick None Pending eq_refl).
Defined.

Lemma async_send_once_witness :
  sent_with (PS := channel_sender 3) High after_async = [] ∧ sent_with (PS := channel_sender 3) Normal after_async = [7%Z].
Proof.
  apply (async_send_once (PS := channel_sender 3) Normal first_end after_async 7%Z (Finished (inr tt))).
  eapply rtc_l; [|apply rtc_refl]. exact (async_polls (PS := channel_sender 3) Normal first_end (Some 7%Z) after_async None (Ready (inr tt)) eq_refl).
Defined.
