(* ===== verification/Utils.v ===== *)
(** * Addresses: sockets, peers and transports ([tentacle/src/utils.rs], [transports/mod.rs])

    Conversions between multiaddresses and socket addresses, the peer identifier in an address,
    reachable addresses, and the transport an address asks for. *)

From Stdlib Require Import ZArith Lia Bool.
From Stdlib Require Import Strings.String.
From stdpp Require Import base list gmap.
From S2P Require Import Prelude Text Messages SecioHandshake PeerId Multiaddr MultiaddrProofs YamuxFrame Tentacle.

Open Scope Z_scope.

(** [std::net::IpAddr] and [SocketAddr]. *)
Inductive IpAddr := V4 (a b c d : byte) | V6 (segs : list Z).
Record SocketAddr := mkSocketAddr { sa_ip : IpAddr; sa_port : Z }.

(** ** Reachable addresses *)

(** The ranges of [std::net::Ipv4Addr]. *)
Definition ipv4_is_private (a b : Z) : bool :=
  (a =? 10) || ((a =? 172) && (16 <=? b) && (b <=? 31)) || ((a =? 192) && (b =? 168)).
Definition ipv4_is_documentation (a b c : Z) : bool :=
  ((a =? 192) && (b =? 0) && (c =? 2)) || ((a =? 198) && (b =? 51) && (c =? 100))
  || ((a =? 203) && (b =? 0) && (c =? 113)).

Definition seg (segs : list Z) (i : nat) : Z := default 0 (segs !! i).

Definition ipv6_is_multicast (segs : list Z) : bool := Z.land (seg segs 0) 0xff00 =? 0xff00.
Definition ipv6_is_loopback (segs : list Z) : bool := bool_decide (segs = [0; 0; 0; 0; 0; 0; 0; 1]).
Definition ipv6_is_unspecified (segs : list Z) : bool := bool_decide (segs = [0; 0; 0; 0; 0; 0; 0; 0]).

Definition is_reachable (ip : IpAddr) : bool :=
  match ip with
  | V4 a b c d =>
      let '(a, b, c, d) := (byte_val a, byte_val b, byte_val c, byte_val d) in
      negb (ipv4_is_private a b) && negb (a =? 127) && negb ((a =? 169) && (b =? 254))
      && negb ((a =? 255) && (b =? 255) && (c =? 255) && (d =? 255))
      && negb (ipv4_is_documentation a b c)
      && negb ((a =? 0) && (b =? 0) && (c =? 0) && (d =? 0))
  | V6 segs =>
      let scope :=
        if ipv6_is_multicast segs then
          let s := Z.land (seg segs 0) 0x000f in
          if (s =? 1) || (s =? 2) || (s =? 3) || (s =? 4) || (s =? 5) || (s =? 8) then Some false
          else if s =? 14 then Some true else None
        else None in
      match scope with
      | Some true => true
      | None =>
          negb (ipv6_is_multicast segs || ipv6_is_loopback segs
            || (Z.land (seg segs 0) 0xffc0 =? 0xfe80) || (Z.land (seg segs 0) 0xffc0 =? 0xfec0)
            || (Z.land (seg segs 0) 0xfe00 =? 0xfc00) || ipv6_is_unspecified segs
            || ((seg segs 0 =? 0x2001) && (seg segs 1 =? 0xdb8)))
      | Some false => false
      end
  end.

Section Utils.
Context `{V : Varint} `{TC : TextCodecs} `{PR : Primitives}.

(** ** Socket addresses *)

Definition socket_of (proto1 proto2 : Protocol) : option SocketAddr :=
  match proto1, proto2 with
  | Ip4 a b c d, Tcp port => Some (mkSocketAddr (V4 a b c d) port)
  | Ip6 segs, Tcp port => Some (mkSocketAddr (V6 segs) port)
  | _, _ => None
  end.

(** The loop; a turn consumes at least one component. The iterator panics on a component that
    cannot be read. *)
Fixpoint to_socketaddr_loop (fuel : nat) (data : bytes) : res MaError (option SocketAddr) :=
  match fuel with
  | O => if is_empty data then ROk None else RPanic
  | S fuel' =>
      match iter_next data with
      | None => ROk None
      | Some (ROk proto1, next1) =>
          match proto1 with
          | Ip4 _ _ _ _ | Ip6 _ =>
              match iter_next next1 with
              | None => ROk None
              | Some (ROk proto2, next2) =>
                  match socket_of proto1 proto2 with
                  | Some a => ROk (Some a)
                  | None => to_socketaddr_loop fuel' next2
                  end
              | Some (_, _) => RPanic
              end
          | _ => to_socketaddr_loop fuel' next1
          end
      | Some (_, _) => RPanic
      end
  end.

Definition multiaddr_to_socketaddr (addr : Multiaddr) : res MaError (option SocketAddr) :=
  to_socketaddr_loop (length addr) addr.

Definition socketaddr_to_multiaddr (address : SocketAddr) : Multiaddr :=
  let proto := match sa_ip address with V4 a b c d => Ip4 a b c d | V6 segs => Ip6 segs end in
  from_iter [proto; Tcp (sa_port address)].

(** ** Searching an address *)

(** [addr.iter().find_map(f)]: components are read until one is found. *)
Fixpoint find_map_loop {A} (fuel : nat) (f : Protocol → option A) (data : bytes) : res MaError (option A) :=
  match fuel with
  | O => if is_empty data then ROk None else RPanic
  | S fuel' =>
      match iter_next data with
      | None => ROk None
      | Some (ROk proto, next) =>
          match f proto with
          | Some a => ROk (Some a)
          | None => find_map_loop fuel' f next
          end
      | Some (_, _) => RPanic
      end
  end.

Definition find_map {A} (f : Protocol → option A) (addr : Multiaddr) : res MaError (option A) :=
  find_map_loop (length addr) f addr.

Definition extract_peer_id (addr : Multiaddr) : res MaError (option bytes) :=
  find_map (λ proto,
    match proto with
    | P2p raw_bytes => match peer_from_bytes raw_bytes with inr p => Some p | inl _ => None end
    | _ => None
    end) addr.

Inductive TransportType := TtWs | TtWss | TtTcp | TtTls | TtMemory.

Definition find_type (addr : Multiaddr) : res MaError TransportType :=
  o ← find_map (λ proto,
    match proto with
    | Ws => Some TtWs
    | Wss => Some TtWss
    | Tls _ => Some TtTls
    | Memory _ => Some TtMemory
    | _ => None
    end) addr;
  mret (default TtTcp o).

(** ** Transports *)

(** The cargo features [ws] and [tls], whether a TLS configuration is set, and what the single
    transports answer at once. *)
Record MultiTransport := mkMultiTransport {
  mt_ws : bool;
  mt_tls : bool;
  mt_tls_config : bool;
  mt_inner : TransportType → Multiaddr → option TransportErrorKind;
}.

(** [MultiTransport::listen] and [MultiTransport::dial] have the same cases: the error, or [None]
    for a future. *)
Definition multi_transport (t : MultiTransport) (address : Multiaddr)
    : res MaError (option TransportErrorKind) :=
  ty ← find_type address;
  mret match ty with
       | TtTcp => mt_inner t TtTcp address
       | TtWs => if mt_ws t then mt_inner t TtWs address else Some (TeNotSupported address)
       | TtMemory => mt_inner t TtMemory address
       | TtWss => Some (TeNotSupported address)
       | TtTls => if mt_tls t then
                    if mt_tls_config t then mt_inner t TtTls address else Some (TeTlsError (str "tls config is not set"))
                  else Some (TeNotSupported address)
       end.

(** ** Correctness *)

Section Proofs.
Context `{VL : !VarintLaws} `{TCL : !TextCodecsLaws}.

(** The first component for which [f] answers. *)
Definition find_first {A} (f : Protocol → option A) (ps : list Protocol) : option A := head (omap f ps).

Lemma iter_next_parses b p r ps : from_bytes b = inr (p, r) → parses r ps →
  iter_next b = Some (ROk p, r).
Proof.
  intros Hb Hp. unfold iter_next. by rewrite (parses_nonempty b p ps), Hb by (by econstructor).
Qed.

Lemma find_map_parses {A} (f : Protocol → option A) fuel b ps : parses b ps → (length b <= fuel)%nat →
  find_map_loop fuel f b = ROk (find_first f ps).
Proof.
  intros Hp. revert fuel. induction Hp as [|b p r ps Hb Hp IH]; intros fuel Hf; [by destruct fuel|].
  pose proof (from_bytes_shorter _ _ _ Hb). destruct fuel as [|fuel]; [lia|]. cbn [find_map_loop].
  rewrite (iter_next_parses _ _ _ _ Hb Hp). unfold find_first. cbn. destruct (f p); [done|]. apply IH. lia.
Qed.

Lemma find_map_spec {A} (f : Protocol → option A) b ps : parses b ps → find_map f b = ROk (find_first f ps).
Proof. intros. by apply find_map_parses. Qed.

Lemma find_first_app {A} (f : Protocol → option A) ps qs :
  find_first f (ps ++ qs) = match find_first f ps with Some a => Some a | None => find_first f qs end.
Proof. unfold find_first. rewrite omap_app. by destruct (omap f ps). Qed.

Lemma to_socketaddr_total fuel b ps : parses b ps → (length b <= fuel)%nat → ∃ o, to_socketaddr_loop fuel b = ROk o.
Proof.
  revert b ps. induction fuel as [|fuel IH]; intros b ps Hp Hf.
  - destruct b; [by eexists|cbn in Hf; lia].
  - destruct Hp as [|b p r ps Hb Hp]; [by eexists|]. cbn [to_socketaddr_loop]. rewrite (iter_next_parses _ _ _ _ Hb Hp).
    pose proof (from_bytes_shorter _ _ _ Hb). destruct (IH r ps Hp ltac:(lia)) as [o Ho].
    assert (Hip : ∃ o, match iter_next r with
      | None => ROk None
      | Some (ROk proto2, next2) => match socket_of p proto2 with Some a => ROk (Some a) | None => to_socketaddr_loop fuel next2 end
      | Some (_, _) => RPanic end = ROk o).
    { destruct Hp as [|r q r' ps Hq Hp']; [by eexists|]. rewrite (iter_next_parses _ _ _ _ Hq Hp').
      destruct (socket_of p q); [by eexists|]. pose proof (from_bytes_shorter _ _ _ Hq). eapply IH; [exact Hp'|lia]. }
    destruct p; by eauto.
Qed.

Lemma multiaddr_to_socketaddr_total m ps : parses m ps → ∃ o, multiaddr_to_socketaddr m = ROk o.
Proof. intros Hp. by eapply to_socketaddr_total. Qed.

(** The port of a socket address read from components is one of 16 bits. *)
Lemma to_socketaddr_port fuel b ps a : parses b ps → to_socketaddr_loop fuel b = ROk (Some a) → is_u16 (sa_port a).
Proof.
  assert (Hs : ∀ p q x, proto_wf q → socket_of p q = Some x → is_u16 (sa_port x)).
  { intros p q x Hq. destruct p; try done; destruct q; try done; by intros [= <-]. }
  revert b ps. induction fuel as [|fuel IH]; intros b ps Hp; cbn [to_socketaddr_loop]; [by destruct (is_empty b)|].
  destruct Hp as [|b p r ps Hb Hp]; [done|]. rewrite (iter_next_parses _ _ _ _ Hb Hp). pose proof (IH r ps Hp) as IHr.
  assert (Hip : match iter_next r with
      | None => ROk None
      | Some (ROk proto2, next2) => match socket_of p proto2 with Some a => ROk (Some a) | None => to_socketaddr_loop fuel next2 end
      | Some (_, _) => RPanic end = ROk (Some a) → is_u16 (sa_port a)).
  { destruct Hp as [|r q r' ps Hq Hp']; [done|]. rewrite (iter_next_parses _ _ _ _ Hq Hp').
    pose proof (parses_wf _ _ (parses_cons _ _ _ _ Hq Hp')) as Hw. apply Forall_cons_1 in Hw as [Hw _].
    destruct (socket_of p q) eqn:Es; [intros [= <-]; by eapply Hs|by eapply IH]. }
  by destruct p.
Qed.

Definition socketaddr_wf (a : SocketAddr) : Prop :=
  is_u16 (sa_port a) ∧ match sa_ip a with V4 _ _ _ _ => True | V6 segs => ip6_wf segs end.

(** The multiaddress of a socket address, with any components behind it, leads back to that
    socket address. *)
Theorem socketaddr_roundtrip a qs : socketaddr_wf a → Forall proto_wf qs →
  multiaddr_to_socketaddr (socketaddr_to_multiaddr a ++ from_iter qs) = ROk (Some a).
Proof.
  intros [Hp Hi] Hq. unfold multiaddr_to_socketaddr, socketaddr_to_multiaddr.
  set (ip := match sa_ip a with V4 x b c d => Ip4 x b c d | V6 segs => Ip6 segs end).
  assert (Hip : proto_wf ip) by (subst ip; by destruct (sa_ip a)).
  assert (H1 := parses_from_iter [ip; Tcp (sa_port a)] ltac:(constructor; [done|constructor; [done|constructor]])).
  assert (H2 := parses_app _ _ _ _ H1 (parses_from_iter qs Hq)). cbn [app] in H2.
  set (m := from_iter [ip; Tcp (sa_port a)] ++ from_iter qs) in *. clearbody m.
  inversion H2 as [|b p r ps Hb Hr]; subst b p ps. inversion Hr as [|b p r' ps Hb' Hr']; subst b p ps.
  assert (Hlen := from_bytes_shorter _ _ _ Hb). destruct (length m) as [|fuel] eqn:El; [lia|].
  cbn [to_socketaddr_loop]. rewrite (iter_next_parses _ _ _ _ Hb Hr), (iter_next_parses _ _ _ _ Hb' Hr').
  subst ip. destruct a as [[x b c d|segs] port]; done.
Qed.

End Proofs.
End Utils.

Lemma socketaddr_roundtrip_witness :
  let a := mkSocketAddr (V4 (byte_of 127) (byte_of 0) (byte_of 0) (byte_of 1)) 8080 in
  multiaddr_to_socketaddr (socketaddr_to_multiaddr a ++ from_iter [Ws]) = ROk (Some a).
Proof.
  intros a. apply socketaddr_roundtrip; [by vm_compute|]. by repeat constructor.
Defined.
