(* ===== verification/Substream.v ===== *)
(** * Substreams: the streams of the protocols of a session ([tentacle/tentacle/src/substream.rs])

    [Substream] carries the messages of one protocol over a yamux stream: it takes messages from
    the session through a priority channel, hands them to the framed stream, and passes what
    arrives to the handlers of the protocol. The session builds the write part of a split stream
    as a record of the same fields, without protocol senders and with [keep_buffer] set; its
    methods are in [WritePart]. Sends in a spawned task are recorded in [su_spawned]. The atomics
    of the context are read as they stand when the substream is polled: where the source loads
    [closed] twice in one method ([close_proto_stream]), no other task sets it in between. *)

From Stdlib Require Import ZArith Lia Bool.
From stdpp Require Import base list gmap.
From S2P Require Import Prelude Channels PriorityChannel Buffers Wire Tentacle.

Open Scope Z_scope.

(** [AsyncWrite::poll_shutdown] of the stream below the frames; its result is only logged. *)
Class Shutdown (T : Type) := sd_poll_shutdown : T → T.

Class ShutdownLaws (T : Type) `{SD : Shutdown T} `{K : Socket T ErrorKind} : Prop := {
  sd_view : ∀ t : T, sk_sent (sd_poll_shutdown t) = sk_sent t ∧
    sk_incoming (sd_poll_shutdown t) = sk_incoming t;
}.

Section Substream.
(** [T] is the framed stream, [F] the framed stream an [Open] event carries; the other types are
    the ends of the channels. *)
Context {T F ES ER SS PS : Type}.
Abbreviation PE := (ProtocolEvent F) (only parsing).
Context `{K : Socket T ErrorKind} `{SD : Shutdown T}.
Context `{BE : BoundedSender ES PE} `{RE : PriorityReceiver ER PE}.
Context `{BS : BoundedSender SS ServiceProtocolEvent} `{BP : BoundedSender PS SessionProtocolEvent}.

(** A spawned [sender.send_all(events)]. *)
Inductive SpawnedSend :=
| SpEvents (sender : ES) (events : list PE)
| SpService (sender : SS) (events : list ServiceProtocolEvent)
| SpSession (sender : PS) (events : list SessionProtocolEvent).

Record Substream := mkSubstream {
  su_substream : T;
  su_id : Z;
  su_proto_id : Z;
  su_context : SessionContext;
  su_config : SessionConfig;
  su_high_write_buf : list bytes;
  su_write_buf : list bytes;
  su_dead : bool;
  su_keep_buffer : bool;
  su_event_sender : @Buffer ES PE;
  su_event_receiver : ER;
  su_service_proto_sender : option (@Buffer SS ServiceProtocolEvent);
  su_session_proto_sender : option (@Buffer PS SessionProtocolEvent);
  su_before_receive : option (bytes → ErrorKind + bytes);
  su_spawned : list SpawnedSend;
}.

Definition put_substream (v : T) (s : Substream) : Substream :=
  mkSubstream v (su_id s) (su_proto_id s) (su_context s) (su_config s) (su_high_write_buf s)
    (su_write_buf s) (su_dead s) (su_keep_buffer s) (su_event_sender s) (su_event_receiver s)
    (su_service_proto_sender s) (su_session_proto_sender s) (su_before_receive s) (su_spawned s).
Definition put_context (v : SessionContext) (s : Substream) : Substream :=
  mkSubstream (su_substream s) (su_id s) (su_proto_id s) v (su_config s) (su_high_write_buf s)
    (su_write_buf s) (su_dead s) (su_keep_buffer s) (su_event_sender s) (su_event_receiver s)
    (su_service_proto_sender s) (su_session_proto_sender s) (su_before_receive s) (su_spawned s).
Definition put_high_write_buf (v : list bytes) (s : Substream) : Substream :=
  mkSubstream (su_substream s) (su_id s) (su_proto_id s) (su_context s) (su_config s) v
    (su_write_buf s) (su_dead s) (su_keep_buffer s) (su_event_sender s) (su_event_receiver s)
    (su_service_proto_sender s) (su_session_proto_sender s) (su_before_receive s) (su_spawned s).
Definition put_write_buf (v : list bytes) (s : Substream) : Substream :=
  mkSubstream (su_substream s) (su_id s) (su_proto_id s) (su_context s) (su_config s)
    (su_high_write_buf s) v (su_dead s) (su_keep_buffer s) (su_event_sender s) (su_event_receiver s)
    (su_service_proto_sender s) (su_session_proto_sender s) (su_before_receive s) (su_spawned s).
Definition put_dead (v : bool) (s : Substream) : Substream :=
  mkSubstream (su_substream s) (su_id s) (su_proto_id s) (su_context s) (su_config s)
    (su_high_write_buf s) (su_write_buf s) v (su_keep_buffer s) (su_event_sender s)
    (su_event_receiver s) (su_service_proto_sender s) (su_session_proto_sender s)
    (su_before_receive s) (su_spawned s).
Definition put_event_sender (v : @Buffer ES PE) (s : Substream) : Substream :=
  mkSubstream (su_substream s) (su_id s) (su_proto_id s) (su_context s) (su_config s)
    (su_high_write_buf s) (su_write_buf s) (su_dead s) (su_keep_buffer s) v (su_event_receiver s)
    (su_service_proto_sender s) (su_session_proto_sender s) (su_before_receive s) (su_spawned s).
Definition put_event_receiver (v : ER) (s : Substream) : Substream :=
  mkSubstream (su_substream s) (su_id s) (su_proto_id s) (su_context s) (su_config s)
    (su_high_write_buf s) (su_write_buf s) (su_dead s) (su_keep_buffer s) (su_event_sender s) v
    (su_service_proto_sender s) (su_session_proto_sender s) (su_before_receive s) (su_spawned s).
Definition put_service_proto_sender (v : option (@Buffer SS ServiceProtocolEvent)) (s : Substream) : Substream :=
  mkSubstream (su_substream s) (su_id s) (su_proto_id s) (su_context s) (su_config s)
    (su_high_write_buf s) (su_write_buf s) (su_dead s) (su_keep_buffer s) (su_event_sender s)
    (su_event_receiver s) v (su_session_proto_sender s) (su_before_receive s) (su_spawned s).
Definition put_session_proto_sender (v : option (@Buffer PS SessionProtocolEvent)) (s : Substream) : Substream :=
  mkSubstream (su_substream s) (su_id s) (su_proto_id s) (su_context s) (su_config s)
    (su_high_write_buf s) (su_write_buf s) (su_dead s) (su_keep_buffer s) (su_event_sender s)
    (su_event_receiver s) (su_service_proto_sender s) v (su_before_receive s) (su_spawned s).
Definition put_spawned (v : list SpawnedSend) (s : Substream) : Substream :=
  mkSubstream (su_substream s) (su_id s) (su_proto_id s) (su_context s) (su_config s)
    (su_high_write_buf s) (su_write_buf s) (su_dead s) (su_keep_buffer s) (su_event_sender s)
    (su_event_receiver s) (su_service_proto_sender s) (su_session_proto_sender s)
    (su_before_receive s) v.

Abbreviation SM := (M Substream ErrorKind) (only parsing).

(** ** Writing *)

Definition proto_open (version : bytes) : SM unit :=
  svc ← gets su_service_proto_sender;
  cx ← gets su_context;
  (match svc with
   | Some b => modify (put_service_proto_sender (Some (push (SvConnected (sc_id cx) version) b)))
   | None => mret tt
   end) ;;
  ses ← gets su_session_proto_sender;
  match ses with
  | Some b => modify (put_session_proto_sender (Some (push (SeOpened version) b)))
  | None => mret tt
  end.

(** The buffer of a priority. *)
Definition write_bufs (pr : Priority) (s : Substream) : list bytes :=
  match pr with High => su_high_write_buf s | Normal => su_write_buf s end.
Definition put_write_bufs (pr : Priority) (v : list bytes) (s : Substream) : Substream :=
  match pr with High => put_high_write_buf v s | Normal => put_write_buf v s end.

Definition push_front (pr : Priority) (frame : bytes) : SM unit :=
  modify (λ s, put_write_bufs pr (frame :: write_bufs pr s) s).
Definition push_back (pr : Priority) (frame : bytes) : SM unit :=
  modify (λ s, put_write_bufs pr (write_bufs pr s ++ [frame]) s).

(** A poll of the framed stream, its error passed on with [?]. *)
Definition on_stream {A} (p : T → T * Poll (ErrorKind + A)) : SM (Poll A) := λ s,
  match p (su_substream s) with
  | (t, Ready (inl e)) => (put_substream t s, RErr e)
  | (t, Ready (inr a)) => (put_substream t s, ROk (Ready a))
  | (t, Pending) => (put_substream t s, ROk Pending)
  end.

(** Whether there is work left. *)
Definition poll_complete : SM bool :=
  p ← on_stream sk_poll_flush;
  match p with Pending => mret true | Ready _ => mret false end.

Definition send_inner (frame : bytes) (pr : Priority) : SM bool :=
  let data_size := len frame in
  p ← on_stream sk_poll_ready;
  match p with
  | Ready _ =>
      on_stream (λ t, let '(t', r) := sk_start_send t frame in (t', Ready r)) ;;
      modify (λ s, put_context (decr_pending_data_size data_size (su_context s)) s) ;;
      mret false
  | Pending => push_front pr frame ;; poll_complete ;; mret true
  end.

(** One of the two loops of [send_data]; [true] when it returned early. One unit of fuel per
    turn. *)
Fixpoint send_bufs (fuel : nat) (pr : Priority) : SM bool :=
  match fuel with
  | O => panic
  | S fuel' =>
      buf ← gets (write_bufs pr);
      match buf with
      | [] => mret false
      | frame :: rest =>
          modify (put_write_bufs pr rest) ;;
          full ← send_inner frame pr;
          if full : bool then mret true else send_bufs fuel' pr
      end
  end.

Definition send_data : SM unit :=
  high ← gets su_high_write_buf;
  full ← send_bufs (S (length high)) High;
  if full : bool then mret tt else
  normal ← gets su_write_buf;
  full ← send_bufs (S (length normal)) Normal;
  if full : bool then mret tt else
  poll_complete ;; mret tt.

(** ** Events *)

Definition output : SM unit :=
  b ← gets su_event_sender;
  let '(b', r) := Buffer_try_send b in
  modify (put_event_sender b') ;;
  match r with SrDisconnect => modify (put_dead true) | _ => mret tt end.

Definition output_event (event : PE) : SM unit :=
  modify (λ s, put_event_sender (push event (su_event_sender s)) s) ;; output.

Definition spawn_send (t : SpawnedSend) : SM unit := modify (λ s, put_spawned (su_spawned s ++ [t]) s).

Definition close_proto_stream : SM unit :=
  modify (λ s, put_event_receiver (pr_close (su_event_receiver s)) s) ;;
  modify (λ s, put_substream (sd_poll_shutdown (su_substream s)) s) ;;
  keep ← gets su_keep_buffer;
  (if keep : bool then mret tt
   else modify (λ s, put_event_sender (Buffer_clear (su_event_sender s)) s)) ;;
  cx ← gets su_context;
  svc ← gets su_service_proto_sender;
  (match svc with
   | Some b =>
       let '(b', (sender, events)) := Buffer_take b in
       modify (put_service_proto_sender (Some b')) ;;
       spawn_send (SpService sender (events ++ [SvDisconnected (sc_id cx)]))
   | None => mret tt
   end) ;;
  ses ← gets su_session_proto_sender;
  (match ses with
   | Some b =>
       let '(b', (sender, events)) := Buffer_take b in
       modify (put_session_proto_sender (Some b')) ;;
       spawn_send (SpSession sender
         (events ++ [SeClosed] ++ (if sc_closed cx then [SeDisconnected] else [])))
   | None => mret tt
   end) ;;
  if negb (sc_closed cx) then
    b ← gets su_event_sender;
    let '(b', (sender, events)) := Buffer_take b in
    modify (put_event_sender b') ;;
    id ← gets su_id;
    proto_id ← gets su_proto_id;
    spawn_send (SpEvents sender (events ++ [PeClose id proto_id]))
  else output.

Definition error_close (error : ErrorKind) : SM unit :=
  modify (put_dead true) ;;
  if is_connection_error error then mret tt else
  proto_id ← gets su_proto_id;
  modify (λ s, put_event_sender (push (PeError proto_id error) (su_event_sender s)) s) ;;
  close_proto_stream.

Definition handle_proto_event (event : PE) (pr : Priority) : SM unit :=
  match event with
  | PeMessage data =>
      push_back pr data ;;
      r ← catch send_data;
      match r with
      | inl err =>
          proto_id ← gets su_proto_id;
          output_event (PeError proto_id err) ;;
          modify (put_dead true)
      | inr _ => mret tt
      end
  | PeClose _ _ => modify (put_write_buf []) ;; modify (put_dead true)
  | _ => mret tt
  end.

(** ** Reading *)

Definition distribute_to_user_level : SM unit :=
  svc ← gets su_service_proto_sender;
  (match svc with
   | Some b =>
       let '(b', r) := Buffer_try_send b in
       modify (put_service_proto_sender (Some b')) ;;
       match r with SrDisconnect => modify (put_dead true) | _ => mret tt end
   | None => mret tt
   end) ;;
  ses ← gets su_session_proto_sender;
  (match ses with
   | Some b =>
       let '(b', r) := Buffer_try_send b in
       modify (put_session_proto_sender (Some b')) ;;
       match r with SrDisconnect => modify (put_dead true) | _ => mret tt end
   | None => mret tt
   end) ;;
  dead ← gets su_dead;
  if dead : bool then output else mret tt.

Definition recv_event : SM (Poll (option unit)) :=
  dead ← gets su_dead;
  if dead : bool then mret (Ready None) else
  cfg ← gets su_config;
  limit ← or_panic (send_event_size cfg);
  buf ← gets su_write_buf;
  if limit <? len buf then mret Pending else
  r ← gets su_event_receiver;
  let '(r', p) := pr_poll_next r in
  modify (put_event_receiver r') ;;
  match p with
  | Ready (Some (pr, event)) => handle_proto_event event pr ;; mret (Ready (Some tt))
  | Ready None =>
      modify (put_dead true) ;;
      modify (λ s, put_substream (sd_poll_shutdown (su_substream s)) s) ;;
      mret (Ready None)
  | Pending => mret Pending
  end.

(** [map(Buffer::len).unwrap_or_default()] *)
Definition opt_len {B E} (o : option (@Buffer B E)) : Z :=
  match o with Some b => len (b_buffer b) | None => 0 end.

(** Passes a message to both kinds of handlers. *)
Definition push_received (data : bytes) : SM unit :=
  modify (λ s, put_session_proto_sender (push (SeReceived data) <$> su_session_proto_sender s) s) ;;
  modify (λ s, put_service_proto_sender
    (push (SvReceived (sc_id (su_context s)) data) <$> su_service_proto_sender s) s).

Definition recv_frame : SM (Poll (option unit)) :=
  dead ← gets su_dead;
  if dead : bool then mret (Ready None) else
  cfg ← gets su_config;
  limit ← or_panic (recv_event_size cfg);
  svc ← gets su_service_proto_sender;
  ses ← gets su_session_proto_sender;
  if (limit <? opt_len svc) || (limit <? opt_len ses) then mret Pending else
  t ← gets su_substream;
  let '(t', p) := sk_poll_next t in
  modify (put_substream t') ;;
  match p with
  | Ready (Some (inr data)) =>
      f ← gets su_before_receive;
      match match f with Some function => function data | None => inr data end with
      | inr data => push_received data ;; distribute_to_user_level ;; mret (Ready (Some tt))
      | inl err => error_close err ;; mret (Ready None)
      end
  | Ready None => modify (put_dead true) ;; mret (Ready None)
  | Pending => mret Pending
  | Ready (Some (inl err)) => error_close err ;; mret (Ready None)
  end.

(** [map(|buffer| buffer.is_empty()).unwrap_or(true)] *)
Definition opt_empty {B E} (o : option (@Buffer B E)) : bool :=
  match o with Some b => is_empty (b_buffer b) | None => true end.

Definition flush : SM unit :=
  poll_complete ;;
  svc ← gets su_service_proto_sender;
  ses ← gets su_session_proto_sender;
  (if negb (opt_empty svc) || negb (opt_empty ses) then distribute_to_user_level else mret tt) ;;
  s ← gets id;
  if negb (is_empty (b_buffer (su_event_sender s))) || negb (is_empty (su_write_buf s))
     || negb (is_empty (su_high_write_buf s))
  then output ;; send_data
  else mret tt.

Definition is_pending {A} (p : Poll A) : bool := match p with Pending => true | Ready _ => false end.

(** [Stream::poll_next]; [proceed] is the answer of [runtime::poll_proceed]. *)
Definition substream_poll_next (proceed : bool) : SM (Poll (option unit)) :=
  dead ← gets su_dead;
  cx ← gets su_context;
  if dead || sc_closed cx then close_proto_stream ;; mret (Ready None) else
  r ← catch flush;
  match r with
  | inl err => error_close err ;; mret (Ready None)
  | inr _ =>
      if negb proceed then mret Pending else
      p1 ← recv_frame;
      p2 ← recv_event;
      mret (if is_pending p1 && is_pending p2 then Pending else Ready (Some tt))
  end.

Definition Substream_build (id proto_id : Z) (context : SessionContext) (config : SessionConfig)
    (keep_buffer : bool) (event_sender : ES) (event_receiver : ER)
    (service_proto_sender : option (@Buffer SS ServiceProtocolEvent))
    (session_proto_sender : option (@Buffer PS SessionProtocolEvent))
    (before_receive : option (bytes → ErrorKind + bytes)) (substream : T) : Substream :=
  mkSubstream substream id proto_id context config [] [] false keep_buffer (Buffer_new event_sender)
    event_receiver service_proto_sender session_proto_sender before_receive [].

(** ** The write part, as a session builds it *)

Definition WritePart_build (id proto_id : Z) (context : SessionContext) (config : SessionConfig)
    (event_sender : ES) (event_receiver : ER) (substream : T) : Substream :=
  mkSubstream substream id proto_id context config [] [] false true (Buffer_new event_sender)
    event_receiver None None None [].

(** ** The read part *)

Record SubstreamReadPart (CS : Type) := mkReadPart {
  rp_substream : T;
  rp_before_receive : option (bytes → ErrorKind + bytes);
  rp_proto_id : Z;
  rp_stream_id : Z;
  rp_version : bytes;
  rp_close_sender : CS;
}.

Definition read_part_poll_next {CS} (proceed : bool) (rp : SubstreamReadPart CS)
    : SubstreamReadPart CS * Poll (option (ErrorKind + bytes)) :=
  if negb proceed then (rp, Pending) else
  let '(t, p) := sk_poll_next (rp_substream CS rp) in
  let rp' := mkReadPart CS t (rp_before_receive CS rp) (rp_proto_id CS rp) (rp_stream_id CS rp)
               (rp_version CS rp) (rp_close_sender CS rp) in
  (rp', match p with
        | Ready (Some (inr data)) =>
            match rp_before_receive CS rp with
            | Some function => Ready (Some (function data))
            | None => Ready (Some (inr data))
            end
        | p => p
        end).

(** The task its [Drop] spawns: the sender, and the event to send at normal priority. *)
Definition read_part_drop {CS} (rp : SubstreamReadPart CS) : CS * PE :=
  (rp_close_sender CS rp, PeClose (rp_stream_id CS rp) (rp_proto_id CS rp)).

End Substream.
