(* ===== verification/SubstreamProofs.v ===== *)
(** * Properties of substreams

    What a substream hands to its stream is, at each priority, what the session gave it, in
    order; what arrives is passed to the handlers in order; buffers stay bounded; and how a
    substream ends. *)

From Stdlib Require Import ZArith Lia Bool.
From stdpp Require Import base list gmap relations.
From S2P Require Import Prelude Channels PriorityChannel Buffers Wire Tentacle Substream.

Open Scope Z_scope.

Section Proofs.
Context {T F ES ER SS PS : Type}.
Context `{KL : SocketLaws T ErrorKind} `{SDL : !ShutdownLaws T (SD := SD)}.
Context `{BEL : BoundedSenderLaws ES (ProtocolEvent F)} `{REL : PriorityReceiverLaws ER (ProtocolEvent F)}.
Context `{BSL : BoundedSenderLaws SS ServiceProtocolEvent}.
Context `{BPL : BoundedSenderLaws PS SessionProtocolEvent}.

Abbreviation SU := (@Substream T F ES ER SS PS) (only parsing).
Abbreviation SM := (M SU ErrorKind) (only parsing).
Abbreviation PE := (ProtocolEvent F) (only parsing).

(** ** Views *)

(** The frames of one priority in a list, and the messages among events. *)
Definition sel {A} (pr : Priority) (l : list (Priority * A)) : list A :=
  snd <$> filter (λ x, x.1 = pr) l.

Definition messages (l : list PE) : list bytes :=
  omap (λ e, match e with PeMessage d => Some d | _ => None end) l.

Definition sent (s : SU) : list bytes := sk_sent (su_substream s).
Definition incoming (s : SU) : list bytes := sk_incoming (su_substream s).
Definition queue (pr : Priority) (s : SU) : list PE := pr_queue pr (su_event_receiver s).

(** Everything at a priority that was accepted and not yet handed on. *)
Definition waiting (pr : Priority) (s : SU) : list bytes := write_bufs pr s ++ messages (queue pr s).

(** The context after the frames were handed to the stream. *)
Definition spend (out : list (Priority * bytes)) (c : SessionContext) : SessionContext :=
  foldl (λ c m, decr_pending_data_size (len m.2) c) c out.

Lemma select_app {A} pr (l k : list (Priority * A)) : sel pr (l ++ k) = sel pr l ++ sel pr k.
Proof. unfold sel. by rewrite filter_app, fmap_app. Qed.

Definition same_priority (p q : Priority) : bool :=
  match p, q with High, High | Normal, Normal => true | _, _ => false end.

Lemma sel_tag {A} pr pr' (l : list A) : sel pr (pair pr' <$> l) = if same_priority pr' pr then l else [].
Proof.
  unfold sel. induction l as [|x l IH]; [by destruct (same_priority _ _)|].
  rewrite fmap_cons, filter_cons. destruct pr, pr'; case_decide; try done; by rewrite fmap_cons, IH.
Qed.

Lemma sel_one {A} pr pr' (x : A) : sel pr [(pr', x)] = if same_priority pr' pr then [x] else [].
Proof. exact (sel_tag pr pr' [x]). Qed.

Lemma messages_app l k : messages (l ++ k) = messages l ++ messages k.
Proof. unfold messages. apply omap_app. Qed.

Lemma spend_app out out' c : spend (out ++ out') c = spend out' (spend out c).
Proof. unfold spend. apply foldl_app. Qed.

(** ** The parts of the state that never change *)

Definition statics (s s' : SU) : Prop :=
  su_id s' = su_id s ∧ su_proto_id s' = su_proto_id s ∧ su_config s' = su_config s ∧
  su_keep_buffer s' = su_keep_buffer s ∧ su_before_receive s' = su_before_receive s.

#[local] Instance statics_preorder : PreOrder statics.
Proof. split; unfold statics; [intros s; done|]. intros s s1 s2 H1 H2. naive_solver congruence. Qed.

(** ** Steps that leave the data path alone *)

Record quiet (s s' : SU) : Prop := {
  q_sent : sent s' = sent s;
  q_incoming : incoming s' = incoming s;
  q_context : su_context s' = su_context s;
  q_bufs : ∀ pr, write_bufs pr s' = write_bufs pr s;
  q_queue : ∀ pr, queue pr s' = queue pr s;
  q_statics : statics s s';
  q_dead : su_dead s = true → su_dead s' = true;
}.

#[local] Instance quiet_preorder : PreOrder quiet.
Proof.
  split.
  - intros s. by split.
  - intros s s1 s2 [] []. split; try congruence; try (intros; congruence); try (by etrans); auto.
Qed.

(** A method that is quiet, and returns a value. *)
Definition quietly {A} (c : SM A) : Prop := ∀ s, quiet s (c s).1 ∧ ∃ a, (c s).2 = ROk a.

Lemma quietly_bind {A B} (c : SM A) (k : A → SM B) :
  quietly c → (∀ a, quietly (k a)) → quietly (c ≫= k).
Proof.
  intros Hc Hk s. unfold mbind, M_bind. destruct (Hc s) as [Q1 [a Ea]].
  destruct (c s) as [s1 r]. cbn in *. subst r. destruct (Hk a s1) as [Q2 Ha].
  split; [by etrans|done].
Qed.

Lemma quietly_ret {A} (a : A) : quietly (mret a).
Proof. intros s. split; [done|]. by exists a. Qed.

Lemma quietly_gets {A} (f : SU → A) : quietly (gets f).
Proof. intros s. split; [done|]. by exists (f s). Qed.

Lemma quietly_modify f : (∀ s, quiet s (f s)) → quietly (modify f).
Proof. intros H s. split; [apply H|]. by exists tt. Qed.

Lemma quietly_if {A} (b : bool) (c d : SM A) : quietly c → quietly d → quietly (if b then c else d).
Proof. by destruct b. Qed.

#[local] Hint Resolve quietly_ret quietly_gets quietly_if : quiet.
#[local] Hint Extern 2 (quietly (modify _)) =>
  apply quietly_modify; intros ?; split; try done; try (by intros []) : quiet.

Ltac quiet_walk :=
  repeat first
    [ solve [eauto with quiet]
    | apply quietly_bind; [|intros]
    | match goal with
      | |- quietly (match ?x with _ => _ end) => destruct x
      | |- quietly (let '(_, _) := ?x in _) => destruct x
      end ].

Lemma quietly_output : quietly (output : SM unit).
Proof. unfold output. quiet_walk. Qed.

Lemma quietly_distribute : quietly (distribute_to_user_level : SM unit).
Proof. unfold distribute_to_user_level. pose proof quietly_output. quiet_walk. Qed.

Lemma quietly_close : quietly (close_proto_stream : SM unit).
Proof.
  unfold close_proto_stream, spawn_send. pose proof quietly_output. quiet_walk.
  - apply quietly_modify. intros s. split; try done.
    intros pr. apply pr_close_view.
  - apply quietly_modify. intros s. destruct (sd_view (su_substream s)). by split.
Qed.

Lemma quietly_error_close e : quietly (error_close e : SM unit).
Proof. unfold error_close. pose proof quietly_close. quiet_walk. Qed.

(** ** Writing *)

(** The frames [out] were handed to the stream, and only the stream, the pending size and the
    write buffers changed. *)
Record wrote (out : list (Priority * bytes)) (s s' : SU) : Prop := {
  w_sent : sent s' = sent s ++ (snd <$> out);
  w_incoming : incoming s' = incoming s;
  w_context : su_context s' = spend out (su_context s);
  w_receiver : su_event_receiver s' = su_event_receiver s;
  w_events : su_event_sender s' = su_event_sender s;
  w_service : su_service_proto_sender s' = su_service_proto_sender s;
  w_session : su_session_proto_sender s' = su_session_proto_sender s;
  w_spawned : su_spawned s' = su_spawned s;
  w_dead : su_dead s' = su_dead s;
  w_statics : statics s s';
}.

Lemma wrote_refl s : wrote [] s s.
Proof. split; try done. by rewrite app_nil_r. Qed.

Lemma wrote_trans out out' s s1 s2 : wrote out s s1 → wrote out' s1 s2 → wrote (out ++ out') s s2.
Proof.
  intros [] []. split; try congruence; [|by rewrite spend_app; congruence|by etrans].
  rewrite fmap_app, app_assoc. congruence.
Qed.

Lemma wrote_bufs out pr v s s' : wrote out s s' → wrote out s (put_write_bufs pr v s').
Proof. intros []. destruct pr; split; done. Qed.

Lemma wrote_from_bufs out pr v s s' : wrote out (put_write_bufs pr v s) s' → wrote out s s'.
Proof. intros []. destruct pr; split; done. Qed.

Lemma write_bufs_put pr pr' v (s : SU) :
  write_bufs pr' (put_write_bufs pr v s) = if decide (pr = pr') then v else write_bufs pr' s.
Proof. by destruct pr, pr'. Qed.

(** Polls of the stream that send nothing. *)
Lemma on_stream_quiet {A} (p : T → T * Poll (ErrorKind + A)) (s : SU) :
  (∀ t, sk_sent (p t).1 = sk_sent t ∧ sk_incoming (p t).1 = sk_incoming t) →
  wrote [] s (on_stream p s).1 ∧ (on_stream p s).2 ≠ RPanic ∧
  ∀ pr, write_bufs pr (on_stream p s).1 = write_bufs pr s.
Proof.
  intros Hp. destruct (Hp (su_substream s)) as [H1 H2]. unfold on_stream.
  destruct (p (su_substream s)) as [t [[e|a]|]]; cbn in *; (split_and!; [|done|by intros []]);
    split; try done; unfold sent, incoming; cbn; rewrite ?H1, ?H2, ?app_nil_r; done.
Qed.

Lemma stream_flush_spec (s : SU) :
  wrote [] s (poll_complete s).1 ∧ (poll_complete s).2 ≠ RPanic ∧
  ∀ pr, write_bufs pr (poll_complete s).1 = write_bufs pr s.
Proof.
  unfold poll_complete, mbind, M_bind.
  pose proof (on_stream_quiet sk_poll_flush s sk_flush_view) as (H1 & H2 & H3).
  destruct (on_stream sk_poll_flush s) as [s1 [[[]|]|e|]]; cbn in *; done.
Qed.

Lemma start_send_spec frame pr (s : SU) :
  let '(s', r) := on_stream (λ t, let '(t', r) := sk_start_send t frame in (t', Ready r)) s in
  match r with
  | ROk (Ready _) => wrote [(pr, frame)] s (put_context (decr_pending_data_size (len frame) (su_context s')) s')
  | ROk Pending | RPanic => False
  | RErr _ => wrote [] s s'
  end ∧ ∀ pr, write_bufs pr s' = write_bufs pr s.
Proof.
  unfold on_stream. destruct (sk_start_send (su_substream s) frame) as [t r] eqn:E.
  apply sk_start_view in E as [E1 E2]. destruct r as [e|[]]; (split; [|by intros []]);
    split; try done; unfold sent, incoming; cbn; by rewrite ?E1, ?E2, ?app_nil_r.
Qed.

(** A frame that was popped is handed over, goes back to the front, or is lost with an error. *)
Lemma send_inner_spec frame pr (s : SU) :
  let '(s', r) := send_inner frame pr s in
  (∀ pr', pr' ≠ pr → write_bufs pr' s' = write_bufs pr' s) ∧
  match r with
  | ROk false => wrote [(pr, frame)] s s' ∧ write_bufs pr s' = write_bufs pr s
  | ROk true => wrote [] s s' ∧ write_bufs pr s' = frame :: write_bufs pr s
  | RErr _ => wrote [] s s' ∧
      (write_bufs pr s' = write_bufs pr s ∨ write_bufs pr s' = frame :: write_bufs pr s)
  | RPanic => False
  end.
Proof.
  unfold send_inner, mbind, M_bind.
  pose proof (on_stream_quiet sk_poll_ready s sk_ready_view) as (R1 & R2 & R3).
  destruct (on_stream sk_poll_ready s) as [s1 [[[]|]|e|]]; cbn [fst snd] in *; [| | |done].
  - pose proof (start_send_spec frame pr s1) as H.
    destruct (on_stream _ s1) as [s2 [[[]|]|e|]]; cbn; [|naive_solver| |naive_solver].
    + destruct H as [H HB]. split; [|split; [by apply (wrote_trans [] _ s s1)|]]; intros;
        rewrite <- R3, <- HB; [by destruct pr'|by destruct pr].
    + destruct H as [H HB]. split; [intros; by rewrite HB, R3|].
      split; [by apply (wrote_trans [] [] s s1)|]. left. by rewrite HB, R3.
  - cbn. pose proof (stream_flush_spec (put_write_bufs pr (frame :: write_bufs pr s1) s1)) as (C1 & C2 & C3).
    assert (wrote [] s (poll_complete (put_write_bufs pr (frame :: write_bufs pr s1) s1)).1).
    { apply (wrote_trans [] [] s s1); [done|]. by apply wrote_from_bufs in C1. }
    destruct (poll_complete _) as [s2 [b|e|]]; cbn [fst snd mret M_ret] in *; [| |done];
      (split; [intros pr' Hne; rewrite C3, write_bufs_put, decide_False by done; apply R3|]);
      (split; [done|]); [|right]; by rewrite C3, write_bufs_put, decide_True, R3.
  - split; [intros; apply R3|]. split; [done|]. left. apply R3.
Qed.

Lemma send_bufs_spec fuel pr (s : SU) :
  (length (write_bufs pr s) < fuel)%nat →
  let '(s', r) := send_bufs fuel pr s in
  (∀ pr', pr' ≠ pr → write_bufs pr' s' = write_bufs pr' s) ∧
  ∃ fs, wrote (pair pr <$> fs) s s' ∧
  match r with
  | ROk false => fs = write_bufs pr s ∧ write_bufs pr s' = []
  | ROk true => fs ++ write_bufs pr s' = write_bufs pr s ∧ write_bufs pr s' ≠ []
  | RErr _ => ∃ lost, fs ++ lost ++ write_bufs pr s' = write_bufs pr s
  | RPanic => False
  end.
Proof.
  revert s. induction fuel as [|fuel IH]; intros s Hl; [lia|]. cbn [send_bufs].
  unfold mbind at 1, M_bind at 1, gets. destruct (write_bufs pr s) as [|frame rest] eqn:EB.
  { cbn. split; [done|]. exists []. split; [apply wrote_refl|done]. }
  unfold mbind, M_bind. cbn [modify].
  pose proof (send_inner_spec frame pr (put_write_bufs pr rest s)) as H.
  destruct (send_inner frame pr (put_write_bufs pr rest s)) as [s1 r]. destruct H as [Ho H].
  assert (Ho' : ∀ pr', pr' ≠ pr → write_bufs pr' s1 = write_bufs pr' s).
  { intros pr' Hne. rewrite Ho by done. by rewrite write_bufs_put, decide_False. }
  rewrite write_bufs_put, decide_True in H by done.
  destruct r as [[]|e|]; [| | |done].
  - destruct H as [W B]. split; [done|]. exists []. split; [by eapply wrote_from_bufs|]. by rewrite B.
  - destruct H as [W B]. specialize (IH s1). rewrite B in IH. cbn in Hl. specialize (IH ltac:(lia)).
    destruct (send_bufs fuel pr s1) as [s2 r]. destruct IH as [Ho2 (fs & W2 & H)].
    split; [intros; by rewrite Ho2, Ho'|]. exists (frame :: fs).
    split; [by apply (wrote_trans [(pr, frame)] _ s s1); [eapply wrote_from_bufs|]|].
    destruct r as [[]|e|]; [| | |done]; cbn; naive_solver congruence.
  - destruct H as [W B]. split; [done|]. exists []. split; [by eapply wrote_from_bufs|].
    destruct B as [-> | ->]; [exists [frame]|exists []]; done.
Qed.

(** ** What moves through a substream

    From [s] to [s'] the events [tk] were taken from the session, the frames [out] handed to the
    stream and the frames [rc] taken from it; [lost] was dropped from the write buffers. *)
Record moved (lost : Priority → list bytes) (tk : list (Priority * PE)) (out : list (Priority * bytes))
    (rc : list bytes) (s s' : SU) : Prop := {
  m_sent : sent s' = sent s ++ (snd <$> out);
  m_context : su_context s' = spend out (su_context s);
  m_incoming : incoming s = rc ++ incoming s';
  m_queue : ∀ pr, queue pr s = sel pr tk ++ queue pr s';
  m_flow : ∀ pr, sel pr out ++ lost pr ++ write_bufs pr s' = write_bufs pr s ++ messages (sel pr tk);
  m_statics : statics s s';
}.

Definition nothing (pr : Priority) : list bytes := [].

Lemma moved_trans lost tk out rc tk' out' rc' s s1 s2 :
  moved nothing tk out rc s s1 → moved lost tk' out' rc' s1 s2 →
  moved lost (tk ++ tk') (out ++ out') (rc ++ rc') s s2.
Proof.
  intros [] []. split; try (by etrans).
  - rewrite fmap_app, app_assoc. congruence.
  - rewrite spend_app. congruence.
  - rewrite <- app_assoc. congruence.
  - intros pr. rewrite select_app, <- app_assoc. congruence.
  - intros pr. specialize (m_flow0 pr). specialize (m_flow1 pr). cbn in m_flow0.
    rewrite !select_app, messages_app, <- app_assoc, m_flow1, !app_assoc. congruence.
Qed.

Lemma quiet_moved s s' : quiet s s' → moved nothing [] [] [] s s'.
Proof. intros []. split; cbn; rewrite ?app_nil_r; auto. intros pr. by rewrite q_bufs0, app_nil_r. Qed.

Lemma moved_quiet lost tk out rc s s1 s2 : moved lost tk out rc s s1 → quiet s1 s2 → moved lost tk out rc s s2.
Proof.
  intros [] []. split; try congruence; try (by etrans); intros pr; congruence.
Qed.

Lemma wrote_moved lost out s s' : wrote out s s' →
  (∀ pr, sel pr out ++ lost pr ++ write_bufs pr s' = write_bufs pr s) → moved lost [] out [] s s'.
Proof.
  intros [] H. split; try done.
  - intros pr. unfold queue. by rewrite w_receiver0.
  - intros pr. by rewrite H, app_nil_r.
Qed.

(** The two loops: everything at high priority before anything at normal priority. *)
Lemma send_data_spec (s : SU) :
  let '(s', r) := send_data s in
  ∃ lost out, wrote out s s' ∧ moved lost [] out [] s s' ∧
  (write_bufs High s' ≠ [] → sel Normal out = []) ∧
  match r with ROk _ => lost = nothing | RErr _ => True | RPanic => False end.
Proof.
  unfold send_data. unfold mbind at 1, M_bind at 1, gets.
  pose proof (send_bufs_spec (S (length (su_high_write_buf s))) High s ltac:(cbn; lia)) as H.
  unfold mbind at 1, M_bind at 1.
  destruct (send_bufs _ High s) as [s1 r1]. destruct H as [O1 (h & W1 & H1)].
  assert (N1 : su_write_buf s1 = su_write_buf s) by (by apply (O1 Normal)).
  destruct r1 as [[]|e|]; [| | |done].
  - destruct H1 as [E1 _]. exists nothing, (pair High <$> h). split_and!; [done| |by rewrite sel_tag|done].
    apply wrote_moved; [done|]. intros []; rewrite sel_tag; done.
  - destruct H1 as [-> E1]. unfold mbind at 1, M_bind at 1, gets.
    pose proof (send_bufs_spec (S (length (su_write_buf s1))) Normal s1 ltac:(cbn; lia)) as H.
    unfold mbind at 1, M_bind at 1.
    destruct (send_bufs _ Normal s1) as [s2 r2]. destruct H as [O2 (n & W2 & H2)].
    assert (N2 : su_high_write_buf s2 = []) by (by rewrite <- E1; apply (O2 High)).
    pose proof (wrote_trans _ _ _ _ _ W1 W2) as W. cbn in E1, N1, H2.
    destruct r2 as [[]|e|]; [| | |done].
    + destruct H2 as [E2 _]. exists nothing, ((pair High <$> su_high_write_buf s) ++ (pair Normal <$> n)).
      split_and!; [done| |intros X; by destruct X|done]. apply wrote_moved; [done|].
      intros []; rewrite select_app, !sel_tag; cbn; rewrite ?N2, ?app_nil_r; congruence.
    + destruct H2 as [-> E2]. unfold mbind, M_bind.
      pose proof (stream_flush_spec s2) as (C1 & C2 & C3).
      destruct (poll_complete s2) as [s3 r3]. cbn [fst snd] in *.
      pose proof (C3 High) as C3h. pose proof (C3 Normal) as C3n. cbn in C3h, C3n.
      assert (W' := wrote_trans _ _ _ _ _ W C1). rewrite app_nil_r in W'.
      assert (moved nothing [] ((pair High <$> su_high_write_buf s) ++ (pair Normal <$> su_write_buf s1)) [] s s3).
      { apply wrote_moved; [done|].
        intros []; rewrite select_app, !sel_tag; cbn; rewrite ?C3h, ?C3n, ?N2, ?E2, ?app_nil_r; congruence. }
      assert (write_bufs High s3 = []) by (cbn; congruence).
      destruct r3; cbn; [| |done]; (eexists nothing, _; split_and!; [exact W'|done|intros X; by destruct X|done]).
    + destruct H2 as [l E2].
      exists (λ pr, if pr is Normal then l else []), ((pair High <$> su_high_write_buf s) ++ (pair Normal <$> n)).
      split_and!; [done| |intros X; by destruct X|done]. apply wrote_moved; [done|].
      intros []; rewrite select_app, !sel_tag; cbn; rewrite ?N2, ?app_nil_r; congruence.
  - destruct H1 as [l E1].
    exists (λ pr, if pr is High then l else []), (pair High <$> h). split_and!; try done.
    + apply wrote_moved; [done|]. intros []; rewrite sel_tag; cbn; [done|congruence].
    + by rewrite sel_tag.
Qed.

(** ** Taking events from the session *)

Lemma popped pr e r r' (s : SU) : su_event_receiver s = r → pr_poll_next r = (r', Ready (Some (pr, e))) →
  ∀ q, queue q s = sel q [(pr, e)] ++ queue q (put_event_receiver r' s).
Proof.
  intros <- H q. apply pr_next_view in H. rewrite sel_one.
  unfold queue. cbn. destruct pr, q; cbn; naive_solver congruence.
Qed.

Lemma moved_dead lost tk out rc s s1 v : moved lost tk out rc s s1 → moved lost tk out rc s (put_dead v s1).
Proof. intros []. by split. Qed.

Definition same_handlers (s s' : SU) : Prop :=
  su_service_proto_sender s' = su_service_proto_sender s ∧
  su_session_proto_sender s' = su_session_proto_sender s.

#[local] Hint Extern 0 (same_handlers _ _) => (split; reflexivity) : core.

Lemma output_rest (s : SU) :
  same_handlers s (output s).1 ∧ su_spawned (output s).1 = su_spawned s.
Proof.
  unfold output, mbind, M_bind, gets, modify. destruct (Buffer_try_send (su_event_sender s)) as [b []]; done.
Qed.

Lemma output_event_quiet e (s : SU) :
  quiet s (output_event e s).1 ∧ (output_event e s).2 = ROk tt ∧ same_handlers s (output_event e s).1.
Proof.
  unfold output_event, mbind, M_bind, modify.
  destruct (output_rest (put_event_sender (push e (su_event_sender s)) s)) as [R _].
  destruct (quietly_output (put_event_sender (push e (su_event_sender s)) s)) as [Q [[] ->]].
  split_and!; [|done|done]. etrans; [|exact Q]. by split.
Qed.

(** A message goes to the back of its buffer, and the buffers are flushed. *)
Lemma handle_proto_event_spec pr e r' (s : SU) :
  pr_poll_next (su_event_receiver s) = (r', Ready (Some (pr, e))) →
  let '(s', r) := handle_proto_event e pr (put_event_receiver r' s) in
  ∃ lost out, moved lost [(pr, e)] out [] s s' ∧ (lost = nothing ∨ su_dead s' = true) ∧
  (su_dead s = true → su_dead s' = true) ∧ same_handlers s s' ∧ r = ROk tt.
Proof.
  intros H. pose proof (popped _ _ _ _ s eq_refl H) as Hq. set (s1 := put_event_receiver r' s) in *.
  assert (Hno : (∀ d, e ≠ PeMessage d) → moved nothing [(pr, e)] [] [] s s1).
  { intros He. split; try done; [by rewrite app_nil_r|].
    intros q. rewrite sel_one. cbn [sel filter].
    destruct e; try (by destruct pr, q; cbn; rewrite app_nil_r). by destruct (He data). }
  destruct e as [? ? ?|i p|d|?|? ?|]; try (by exists nothing, []; split_and!; auto).
  - exists (λ pr, if pr is Normal then su_write_buf s else []), []. split_and!; [|by right|done|done|done].
    destruct (Hno ltac:(done)). split; try done. intros []; specialize (m_flow0 High) as HH;
      specialize (m_flow0 Normal) as HN; cbn in *; [done|]. rewrite app_nil_r. exact HN.
  - cbn [handle_proto_event]. unfold mbind at 1, M_bind at 1, push_back, modify.
    set (s2 := put_write_bufs pr (write_bufs pr s1 ++ [d]) s1).
    assert (M2 : moved nothing [(pr, PeMessage d)] [] [] s s2).
    { split; [by rewrite app_nil_r; destruct pr|by destruct pr|by destruct pr| | |by destruct pr].
      - intros q. rewrite Hq. unfold s2. by destruct pr.
      - intros q. rewrite sel_one. unfold s2. rewrite write_bufs_put. destruct pr, q; case_decide; cbn; rewrite ?app_nil_r; done. }
    assert (D2 : su_dead s2 = su_dead s) by (by destruct pr).
    unfold mbind at 1, M_bind at 1, catch. pose proof (send_data_spec s2) as S.
    destruct (send_data s2) as [s3 r3]. destruct S as (lost & out & W & M3 & _ & HR).
    assert (M4 := moved_trans _ _ _ _ _ _ _ _ _ _ M2 M3). cbn in M4.
    destruct r3 as [[]|err|]; [| |done].
    + exists lost, out. split_and!; auto; [intros; rewrite (w_dead _ _ _ W); congruence|].
      destruct W. split; [rewrite w_service0|rewrite w_session0]; by destruct pr.
    + unfold mbind, M_bind, gets. destruct (output_event_quiet (PeError (su_proto_id s3) err) s3) as (Q & ER' & [O1 O2]).
      destruct (output_event _ s3) as [s4 r4]. cbn in Q, ER', O1, O2. subst r4. cbn.
      exists lost, out. split_and!; [|by right|done| |done];
        [|destruct W; split; cbn; [rewrite O1, w_service0|rewrite O2, w_session0]; by destruct pr]. by apply moved_dead, (moved_quiet _ _ _ _ _ s3).
Qed.

Lemma recv_event_spec (s : SU) : is_Some (send_event_size (su_config s)) →
  let '(s', r) := recv_event s in
  ∃ lost tk out, moved lost tk out [] s s' ∧ (lost = nothing ∨ su_dead s' = true) ∧
  (su_dead s = true → su_dead s' = true ∧ s' = s) ∧ same_handlers s s' ∧ ∃ p, r = ROk p.
Proof.
  intros [limit Hl]. unfold recv_event. unfold mbind at 1, M_bind at 1, gets.
  assert (Hid : moved nothing [] [] [] s s) by (by apply quiet_moved).
  destruct (su_dead s) eqn:D; [exists nothing, [], []; split_and!; eauto|].
  do 2 (unfold mbind at 1, M_bind at 1). rewrite Hl. cbn [or_panic mret M_ret].
  unfold mbind at 1, M_bind at 1. destruct (limit <? len (su_write_buf s));
    [exists nothing, [], []; split_and!; eauto|].
  unfold mbind at 1, M_bind at 1. destruct (pr_poll_next (su_event_receiver s)) as [r' p] eqn:HP.
  unfold mbind at 1, M_bind at 1, modify. destruct p as [[[pr e]|]|].
  - pose proof (handle_proto_event_spec pr e r' s HP) as H. unfold mbind, M_bind.
    destruct (handle_proto_event e pr _) as [s1 r1]. destruct H as (lost & out & M1 & L1 & D1 & H1 & ->).
    exists lost, [(pr, e)], out. split_and!; eauto; done.
  - apply pr_next_view in HP. exists nothing, [], []. split_and!; eauto; [|done].
    destruct (sd_view (su_substream s)) as [V1 V2].
    split; cbn; rewrite ?app_nil_r; try done; intros []; cbn; rewrite ?app_nil_r; try done;
      unfold queue; cbn; naive_solver congruence.
  - apply pr_next_view in HP. exists nothing, [], []. split_and!; eauto; [|done].
    split; cbn; rewrite ?app_nil_r; try done; intros []; cbn; rewrite ?app_nil_r; try done;
      unfold queue; cbn; naive_solver congruence.
Qed.

(** ** Passing frames to the handlers *)

(** What a handler was sent, and what was meant for it so far. *)
Definition handler_sent {B E} `{BoundedSender B E} (o : option (@Buffer B E)) : list E :=
  match o with Some b => bs_sent (b_sender b) | None => [] end.
Definition handler_total {B E} `{BoundedSender B E} (o : option (@Buffer B E)) : list E :=
  match o with Some b => bs_sent (b_sender b) ++ b_buffer b | None => [] end.

(** The events [new] were added for a handler; only a dead substream loses some. *)
Definition fed {B E} `{BoundedSender B E} (dead : bool) (new : list E) (o o' : option (@Buffer B E)) : Prop :=
  (is_Some o ↔ is_Some o') ∧
  (is_Some o → handler_sent o' `prefix_of` handler_total o ++ new) ∧
  (is_Some o → dead = false → handler_total o' = handler_total o ++ new).

Lemma fed_refl {B E} `{BoundedSender B E} dead (o : option (@Buffer B E)) : fed dead [] o o.
Proof.
  split_and!; [done|intros [b ->]|by intros; rewrite app_nil_r].
  cbn. rewrite app_nil_r. by exists (b_buffer b).
Qed.

Lemma fed_trans {B E} `{BoundedSender B E} d d' new new' (o o1 o2 : option (@Buffer B E)) :
  fed d new o o1 → d = false → fed d' new' o1 o2 → fed d' (new ++ new') o o2.
Proof.
  intros (A1 & A2 & A3) Hd (B1 & B2 & B3). split_and!; [by rewrite A1| |];
    intros Ho; pose proof (proj1 A1 Ho) as Ho1; rewrite app_assoc, <- (A3 Ho Hd); auto.
Qed.

(** What was sent stays sent. *)
Definition kept {B E} `{BoundedSender B E} (o o' : option (@Buffer B E)) : Prop :=
  (is_Some o ↔ is_Some o') ∧ handler_sent o' = handler_sent o.

Lemma fed_kept {B E} `{BoundedSender B E} d new (o o1 o2 : option (@Buffer B E)) :
  fed d new o o1 → kept o1 o2 → fed true new o o2.
Proof. intros (A1 & A2 & A3) [B1 B2]. split_and!; [by rewrite A1|rewrite B2; done|done]. Qed.

Lemma fed_push {B E} `{BoundedSender B E} d e (o : option (@Buffer B E)) : fed d [e] o (push e <$> o).
Proof.
  destruct o as [b|]; [|split; [done|split; by intros []]]. split_and!; [done|intros _|intros _ _].
  - cbn. rewrite <- app_assoc. by apply prefix_app_r.
  - cbn. by rewrite app_assoc.
Qed.

Lemma fed_try_send {B E} `{BoundedSenderLaws B E} (b b' : @Buffer B E) r :
  Buffer_try_send b = (b', r) →
  fed (match r with SrDisconnect => true | _ => false end) [] (Some b) (Some b').
Proof.
  intros Hb. pose proof (Buffer_try_send_in_order b) as H1. rewrite Hb in H1.
  split_and!; [done|intros _|intros _]; cbn; rewrite app_nil_r.
  - destruct r; cbn in H1.
    + by destruct H1 as [-> _].
    + destruct H1 as [<- _]. by apply prefix_app_r.
    + destruct H1 as (_ & lost & _ & <-). by apply prefix_app_r.
  - destruct r; cbn in H1; [destruct H1 as [-> ->]; by rewrite app_nil_r|by destruct H1 as [<- _]|done].
Qed.

Lemma fed_mono {B E} `{BoundedSender B E} d d' new (o o' : option (@Buffer B E)) :
  fed d new o o' → (d' = false → d = false) → fed d' new o o'.
Proof. intros (A1 & A2 & A3) Hd. split_and!; auto. Qed.

(** Both handlers of a substream. *)
Record handed (ds : list bytes) (s s' : SU) : Prop := {
  h_service : fed (su_dead s') (SvReceived (sc_id (su_context s)) <$> ds)
    (su_service_proto_sender s) (su_service_proto_sender s');
  h_session : fed (su_dead s') (SeReceived <$> ds)
    (su_session_proto_sender s) (su_session_proto_sender s');
}.

Lemma handed_refl s : handed [] s s.
Proof. split; apply fed_refl. Qed.

Lemma handed_trans ds ds' s s1 s2 : handed ds s s1 → su_dead s1 = false →
  sc_id (su_context s1) = sc_id (su_context s) → handed ds' s1 s2 → handed (ds ++ ds') s s2.
Proof.
  intros [] Hd Hi []. rewrite Hi in h_service1. split; rewrite fmap_app; by eapply fed_trans.
Qed.

Lemma handed_same s s' : su_service_proto_sender s' = su_service_proto_sender s →
  su_session_proto_sender s' = su_session_proto_sender s → handed [] s s'.
Proof. intros E1 E2. split; rewrite ?E1, ?E2; apply fed_refl. Qed.

Lemma distribute_handed (s : SU) : handed [] s (distribute_to_user_level s).1.
Proof.
  unfold distribute_to_user_level. unfold mbind at 1, M_bind at 1, gets.
  unfold mbind at 1, M_bind at 1.
  match goal with |- context [match ?c s with _ => _ end] => assert (H1 : ∃ s1, c s = (s1, ROk tt) ∧
    su_session_proto_sender s1 = su_session_proto_sender s ∧
    fed (su_dead s1) [] (su_service_proto_sender s) (su_service_proto_sender s1)) end.
  { destruct (su_service_proto_sender s) as [b|] eqn:E1; [|eexists; split_and!; [done|done|rewrite E1; apply fed_refl]].
    destruct (Buffer_try_send b) as [b' r] eqn:B. apply fed_try_send in B. unfold mbind, M_bind, modify.
    destruct r; eexists; (split_and!; [done|done|by eapply fed_mono]). }
  destruct H1 as (s1 & -> & E2 & F1). unfold mbind at 1, M_bind at 1.
  unfold mbind at 1, M_bind at 1.
  match goal with |- context [match ?c s1 with _ => _ end] => assert (H2 : ∃ s2, c s1 = (s2, ROk tt) ∧
    su_service_proto_sender s2 = su_service_proto_sender s1 ∧ (su_dead s2 = false → su_dead s1 = false) ∧
    fed (su_dead s2) [] (su_session_proto_sender s) (su_session_proto_sender s2)) end.
  { rewrite <- E2. destruct (su_session_proto_sender s1) as [b|] eqn:E1;
      [|eexists; split_and!; [done|done|done|rewrite E1; apply fed_refl]].
    destruct (Buffer_try_send b) as [b' r] eqn:B. apply fed_try_send in B. unfold mbind, M_bind, modify.
    destruct r; eexists; (split_and!; [done|done|done|by eapply fed_mono]). }
  destruct H2 as (s2 & -> & E3 & D2 & F2). rewrite <- E3 in F1.
  unfold mbind, M_bind. destruct (su_dead s2) eqn:D.
  - destruct (output_rest s2) as [[R1 R2] _]. destruct (quietly_output s2) as [Q _].
    split; rewrite (q_dead _ _ Q D), ?R1, ?R2; [by eapply fed_mono|done].
  - cbn. split; rewrite D; [|done]. eapply fed_mono; [exact F1|]. auto.
Qed.

(** Closing passes the buffered events on in a task, and takes back nothing that was sent. *)
Definition handlers_kept (s s' : SU) : Prop :=
  kept (su_service_proto_sender s) (su_service_proto_sender s') ∧
  kept (su_session_proto_sender s) (su_session_proto_sender s').

Lemma close_kept (s : SU) : handlers_kept s (close_proto_stream s).1.
Proof.
  assert (H : ∀ {B E} `{BoundedSender B E} (o o' : option (@Buffer B E)),
    o' = (λ b, (Buffer_take b).1) <$> o → kept o o') by (by intros B E ? [b|] o' ->).
  split; apply H; clear; unfold close_proto_stream, spawn_send, mbind, M_bind, gets, modify;
    destruct s as [? ? ? [? ? ? ? [] ?] ? ? ? ? [] ? ? [|] [|] ? ?]; cbn;
    repeat (rewrite ?(proj1 (proj1 (output_rest _))), ?(proj2 (proj1 (output_rest _))); cbn); try done.
Qed.

Lemma error_close_kept e (s : SU) : handlers_kept s (error_close e s).1 ∧ su_dead (error_close e s).1 = true.
Proof.
  unfold error_close, mbind at 1, M_bind at 1, modify.
  destruct (is_connection_error e); [by split|].
  unfold mbind at 1, M_bind at 1, gets. unfold mbind, M_bind.
  set (s1 := put_event_sender _ _). destruct (quietly_close s1) as [Q _].
  split; [exact (close_kept s1)|]. by apply (q_dead _ _ Q).
Qed.

Lemma handed_kept ds s s1 s2 : handed ds s s1 → handlers_kept s1 s2 → su_dead s2 = true → handed ds s s2.
Proof. intros [] [] D. split; rewrite D; by eapply fed_kept. Qed.

Definition before (s : SU) (d : bytes) : option bytes :=
  match su_before_receive s with
  | Some f => match f d with inr x => Some x | inl _ => None end
  | None => Some d
  end.

(** The frames [rc] taken from the stream: [ds] is what [before_receive] made of them; one it
    refused is the last. *)
Definition processed (s : SU) (dead : bool) (rc ds : list bytes) : Prop :=
  ∃ ok bad, rc = ok ++ bad ∧ mapM (before s) ok = Some ds ∧ (bad = [] ∨ dead = true).

Lemma recv_frame_spec (s : SU) : is_Some (recv_event_size (su_config s)) →
  let '(s', r) := recv_frame s in
  ∃ rc ds, moved nothing [] [] rc s s' ∧ handed ds s s' ∧ processed s (su_dead s') rc ds ∧
  (su_dead s = true → s' = s) ∧ ∃ p, r = ROk p.
Proof.
  intros [limit Hl]. unfold recv_frame. unfold mbind at 1, M_bind at 1, gets.
  assert (Hno : ∀ s' : SU, moved nothing [] [] [] s s' → handed [] s s' → (su_dead s = true → s' = s) →
    ∀ p : Poll (option unit), ∃ rc ds, moved nothing [] [] rc s s' ∧ handed ds s s' ∧
    processed s (su_dead s') rc ds ∧ (su_dead s = true → s' = s) ∧
    ∃ p', ROk (E := ErrorKind) p = ROk p').
  { intros. exists [], []. split_and!; eauto. exists [], []. split_and!; auto. }
  assert (Hself := Hno s (quiet_moved _ _ (reflexivity s)) (handed_refl s) (λ _, eq_refl)).
  destruct (su_dead s) eqn:D; [cbn; rewrite D; apply Hself|].
  do 2 (unfold mbind at 1, M_bind at 1). rewrite Hl. cbn [or_panic mret M_ret].
  do 2 (unfold mbind at 1, M_bind at 1). destruct (_ || _); [cbn; rewrite D; apply Hself|].
  unfold mbind at 1, M_bind at 1. destruct (sk_poll_next (su_substream s)) as [t p] eqn:HP.
  pose proof (sk_next_view _ _ _ HP) as [V1 V2]. unfold mbind at 1, M_bind at 1, modify.
  set (s1 := put_substream t s).
  assert (M1 : ∀ rc, incoming s = rc ++ incoming s1 → moved nothing [] [] rc s s1).
  { intros rc Hrc. split; cbn; rewrite ?app_nil_r; try done. intros pr; by rewrite app_nil_r; destruct pr. }
  destruct p as [[[e|data]|]|].
  - unfold mbind, M_bind. destruct (quietly_error_close e s1) as [Q [[] ER']].
    destruct (error_close_kept e s1) as [EH ED]. destruct (error_close e s1) as [s2 r2]; cbn in *. subst r2.
    cbn. rewrite ED. exists [], []. split_and!; [by eapply moved_quiet; [apply M1|]| |..]; eauto; try done;
      [by apply (handed_kept [] s s); [apply handed_refl|..]|]. exists [], []. auto.
  - assert (M2 := M1 [data] V2). unfold mbind at 1, M_bind at 1. cbn [su_before_receive s1 put_substream].
    destruct (match su_before_receive s with Some _ => _ | None => _ end) as [e|d] eqn:EB.
    + unfold mbind, M_bind. destruct (quietly_error_close e s1) as [Q [[] ER']].
      destruct (error_close_kept e s1) as [EH ED]. destruct (error_close e s1) as [s2 r2]; cbn in *. subst r2.
      cbn. rewrite ED. exists [data], []. split_and!; [by eapply moved_quiet| |..]; eauto; try done; [by apply (handed_kept [] s s); [apply handed_refl|..]|].
      exists [], [data]. auto.
    + unfold push_received, mbind, M_bind, modify. set (s2 := put_service_proto_sender _ _).
      assert (H2 : handed [d] s s2).
      { split; cbn; [exact (fed_push (su_dead s2) (SvReceived (sc_id (su_context s)) d) (su_service_proto_sender s))
                    |exact (fed_push (su_dead s2) (SeReceived d) (su_session_proto_sender s))]. }
      assert (Q2 : quiet s1 s2) by (split; try done; by intros []).
      pose proof (distribute_handed s2) as H3. destruct (quietly_distribute s2) as [Q3 [[] E3]].
      destruct (distribute_to_user_level s2) as [s3 r3]. cbn [fst snd] in *. subst r3. cbn.
      exists [data], [d]. split_and!; eauto; try done.
      * eapply moved_quiet; [exact M2|]. by etrans.
      * apply (handed_trans [d] [] s s2); auto.
      * exists [data], []. split_and!; auto. cbn. unfold before.
        destruct (su_before_receive s) as [f|]; [destruct (f data)|]; simplify_eq; done.
  - assert (M2 := M1 [] (eq_sym V2)). apply Hno; [by apply moved_dead|by apply handed_same|done].
  - apply Hno; [by apply M1|by apply handed_same|done].
Qed.

Lemma handed_dead ds s s1 s2 : handed ds s s1 → same_handlers s1 s2 →
  (su_dead s1 = true → su_dead s2 = true) → handed ds s s2.
Proof.
  intros [] [E1 E2] D. split; rewrite ?E1, ?E2; (eapply fed_mono; [done|]);
    intros E; destruct (su_dead s1); [by rewrite D in E|done|by rewrite D in E|done].
Qed.

Lemma flush_spec (s : SU) :
  let '(s', r) := flush s in
  ∃ lost out, moved lost [] out [] s s' ∧ handed [] s s' ∧ (su_dead s = true → su_dead s' = true) ∧
  match r with ROk _ => lost = nothing | RErr _ => True | RPanic => False end.
Proof.
  unfold flush. unfold mbind at 1, M_bind at 1. pose proof (stream_flush_spec s) as (C1 & C2 & C3).
  destruct (poll_complete s) as [s1 r1]. cbn [fst snd] in *.
  assert (M1 : moved nothing [] [] [] s s1) by (by apply wrote_moved).
  assert (H1 : handed [] s s1) by (destruct C1; by apply handed_same).
  assert (D1 : su_dead s1 = su_dead s) by apply C1.
  destruct r1 as [b|e|]; [|exists nothing, []; split_and!; auto; by rewrite D1|done].
  do 2 (unfold mbind at 1, M_bind at 1, gets). unfold mbind at 1, M_bind at 1.
  match goal with |- context [match ?c s1 with _ => _ end] => assert (H2 : ∃ s2, c s1 = (s2, ROk tt) ∧
    quiet s1 s2 ∧ handed [] s1 s2) end.
  { destruct (negb _ || negb _); [|exists s1; split_and!; [done|done|apply handed_refl]].
    destruct (quietly_distribute s1) as [Q [[] E]]. pose proof (distribute_handed s1).
    destruct (distribute_to_user_level s1) as [s2 r2]. cbn in *. subst r2. eauto. }
  destruct H2 as (s2 & -> & Q2 & H2).
  assert (M2 : moved nothing [] [] [] s s2) by (by eapply moved_quiet).
  assert (H12 : handed [] s s2).
  { destruct C1. destruct H2 as [F1 F2]. rewrite w_service0, w_context0 in F1. rewrite w_session0 in F2. by split. }
  assert (D2 : su_dead s = true → su_dead s2 = true) by (intros; apply (q_dead _ _ Q2); congruence).
  unfold mbind at 1, M_bind at 1. cbn [id]. destruct (_ || _ || _); [|by exists nothing, []].
  unfold mbind, M_bind. destruct (quietly_output s2) as [Q3 [[] E3]]. destruct (output_rest s2) as [R3 _].
  destruct (output s2) as [s3 r3]. cbn in Q3, E3, R3. subst r3.
  pose proof (send_data_spec s3) as S. destruct (send_data s3) as [s4 r4].
  destruct S as (lost & out & W & M4 & _ & HR). exists lost, out. split_and!; auto.
  - assert (M3 : moved nothing [] [] [] s s3) by (by eapply moved_quiet).
    exact (moved_trans _ _ _ _ _ _ _ _ _ _ M3 M4).
  - eapply handed_dead; [exact H12| |].
    + destruct W, R3. split; congruence.
    + intros. rewrite (w_dead _ _ _ W). by apply (q_dead _ _ Q3).
  - intros. rewrite (w_dead _ _ _ W). apply (q_dead _ _ Q3); auto.
Qed.

(** ** One poll of an open substream *)

Definition sized (s : SU) : Prop :=
  is_Some (send_event_size (su_config s)) ∧ is_Some (recv_event_size (su_config s)).

Lemma spend_fields out c : sc_id (spend out c) = sc_id c ∧ sc_closed (spend out c) = sc_closed c.
Proof.
  revert c. induction out as [|m out IH]; intros c; [done|].
  change (spend (m :: out) c) with (spend out (decr_pending_data_size (len m.2) c)).
  destruct (IH (decr_pending_data_size (len m.2) c)) as [-> ->]. done.
Qed.

Lemma poll_spec proceed (s : SU) : su_dead s = false → sc_closed (su_context s) = false → sized s →
  let '(s', r) := substream_poll_next proceed s in
  ∃ lost tk out rc ds, moved lost tk out rc s s' ∧ handed ds s s' ∧ processed s (su_dead s') rc ds ∧
  (lost = nothing ∨ su_dead s' = true) ∧ ∃ p, r = ROk p.
Proof.
  intros D C [Hs Hr]. unfold substream_poll_next. do 2 (unfold mbind at 1, M_bind at 1, gets). rewrite D, C.
  cbn [orb]. unfold mbind at 1, M_bind at 1, catch. pose proof (flush_spec s) as HF.
  destruct (flush s) as [s1 r1]. destruct HF as (lost & out & M1 & H1 & D1 & HR).
  assert (P0 : ∀ d, processed s d [] []) by (intros; exists [], []; auto).
  destruct r1 as [[]|e|]; [|clear HR|done].
  - subst lost. destruct (negb proceed); [by exists nothing, [], out, [], []; split_and!; eauto|].
    assert (C1 : su_config s1 = su_config s) by apply M1.
    unfold mbind at 1, M_bind at 1. pose proof (recv_frame_spec s1) as HF. rewrite C1 in HF. specialize (HF Hr).
    destruct (recv_frame s1) as [s2 r2]. destruct HF as (rc & ds & M2 & H2 & P2 & D2 & [p1 ->]).
    assert (C2 : su_config s2 = su_config s) by (rewrite <- C1; apply M2).
    unfold mbind, M_bind. pose proof (recv_event_spec s2) as HF. rewrite C2 in HF. specialize (HF Hs).
    destruct (recv_event s2) as [s3 r3]. destruct HF as (lost & tk & out' & M3 & L3 & D3 & H3 & [p2 ->]). cbn.
    assert (M := moved_trans _ _ _ _ _ _ _ _ _ _ (moved_trans _ _ _ _ _ _ _ _ _ _ M1 M2) M3). cbn in M.
    rewrite !app_nil_r in M.
    assert (B1 : before s1 = before s) by (unfold before; replace (su_before_receive s1) with (su_before_receive s); [done|symmetry; apply M1]).
    exists lost, tk, (out ++ out'), rc, ds. split_and!; eauto.
    + apply (handed_dead ds s s2); [|done|by intros X; destruct (D3 X)].
      destruct (su_dead s1) eqn:E1.
      * pose proof (D2 eq_refl) as ->. destruct P2 as (ok & bad & -> & E2 & _).
        destruct M2. destruct (app_eq_nil ok bad) as [-> ->].
        { apply (app_inv_tail (incoming s1)). by rewrite <- m_incoming0. }
        cbn in E2. injection E2 as <-. exact H1.
      * change ds with ([] ++ ds). apply (handed_trans [] ds s s1); auto.
        rewrite (m_context _ _ _ _ _ _ M1). apply spend_fields.
    + destruct P2 as (ok & bad & E1 & E2 & E3). exists ok, bad. unfold processed. rewrite <- B1. split_and!; auto.
      destruct E3 as [E3|E3]; [by left|right]. by apply D3.
  - unfold mbind, M_bind. destruct (quietly_error_close e s1) as [Q [[] E2]].
    destruct (error_close_kept e s1) as [H2 D2]. destruct (error_close e s1) as [s2 r2]. cbn in *. subst r2.
    cbn. exists lost, [], out, [], []. split_and!; eauto; [by eapply moved_quiet|by eapply handed_kept].
Qed.

(** ** Runs

    Between two polls the session sends events [ar], frames [inc] arrive, the channels to the
    handlers drain, and the atomics of the context change. *)

Definition refreshed {B E} `{BoundedSender B E} (o o' : option (@Buffer B E)) : Prop :=
  match o, o' with
  | Some b, Some b' => b_buffer b' = b_buffer b ∧ bs_sent (b_sender b') = bs_sent (b_sender b)
  | None, None => True
  | _, _ => False
  end.

Record arrives (ar : list (Priority * PE)) (inc : list bytes) (s s' : SU) : Prop := {
  a_queue : ∀ pr, queue pr s' = queue pr s ++ sel pr ar;
  a_incoming : incoming s' = incoming s ++ inc;
  a_sent : sent s' = sent s;
  a_id : sc_id (su_context s') = sc_id (su_context s);
  a_bufs : ∀ pr, write_bufs pr s' = write_bufs pr s;
  a_dead : su_dead s' = su_dead s;
  a_statics : statics s s';
  a_service : refreshed (su_service_proto_sender s) (su_service_proto_sender s');
  a_session : refreshed (su_session_proto_sender s) (su_session_proto_sender s');
  a_events : refreshed (Some (su_event_sender s)) (Some (su_event_sender s'));
  a_spawned : su_spawned s' = su_spawned s;
}.

Inductive sub_run (s0 : SU) : list (Priority * PE) → list bytes → SU → Prop :=
| run_start : sub_run s0 [] [] s0
| run_arrives ar inc ar' inc' s s' : sub_run s0 ar inc s → arrives ar' inc' s s' →
    sub_run s0 (ar ++ ar') (inc ++ inc') s'
| run_poll ar inc s proceed : sub_run s0 ar inc s →
    su_dead s = false → sc_closed (su_context s) = false →
    sub_run s0 ar inc (substream_poll_next proceed s).1.

Lemma fed_refreshed {B E} `{BoundedSender B E} d new (o o1 o2 : option (@Buffer B E)) :
  fed d new o o1 → refreshed o1 o2 → fed d new o o2.
Proof.
  intros (A1 & A2 & A3). destruct o1 as [b1|], o2 as [b2|]; try done. intros [R1 R2].
  split_and!; [by rewrite A1| |]; cbn in *; rewrite ?R1, ?R2; done.
Qed.

Record progress (ar : list (Priority * PE)) (inc : list bytes) (s0 s : SU) : Prop := {
  pg_out : ∃ out lost, sent s = sent s0 ++ (snd <$> out) ∧
    (∀ pr, sel pr out ++ lost pr ++ waiting pr s = waiting pr s0 ++ messages (sel pr ar)) ∧
    (su_dead s = false → lost = nothing);
  pg_in : ∃ ok bad ds, incoming s0 ++ inc = ok ++ bad ++ incoming s ∧ mapM (before s0) ok = Some ds ∧
    (su_dead s = false → bad = []) ∧ handed ds s0 s;
  pg_statics : statics s0 s;
  pg_id : sc_id (su_context s) = sc_id (su_context s0);
}.

Lemma progress_arrives ar inc ar' inc' s0 s s' :
  progress ar inc s0 s → arrives ar' inc' s s' → progress (ar ++ ar') (inc ++ inc') s0 s'.
Proof.
  intros [(out & lost & O1 & O2 & O3) (ok & bad & ds & I1 & I2 & I3 & I4) ST ID] []. split.
  - exists out, lost. rewrite a_sent0, a_dead0. split_and!; auto. intros pr.
    unfold waiting in *. specialize (O2 pr).
    rewrite a_bufs0, a_queue0, select_app, !messages_app, !app_assoc in *. by rewrite O2.
  - exists ok, bad, ds. rewrite a_incoming0, a_dead0. split_and!; auto.
    + by rewrite app_assoc, I1, <- !app_assoc.
    + destruct I4. split; rewrite a_dead0; by eapply fed_refreshed.
  - by etrans.
  - congruence.
Qed.

Lemma progress_poll ar inc proceed s0 s : sized s0 → progress ar inc s0 s → su_dead s = false →
  sc_closed (su_context s) = false → progress ar inc s0 (substream_poll_next proceed s).1.
Proof.
  intros SZ [(out & lost & O1 & O2 & O3) (ok & bad & ds & I1 & I2 & I3 & I4) ST ID] D C.
  rewrite (O3 D) in O2. rewrite (I3 D) in I1.
  pose proof (poll_spec proceed s D C) as P. unfold sized in P.
  replace (su_config s) with (su_config s0) in P by (symmetry; apply ST). specialize (P SZ).
  destruct (substream_poll_next proceed s) as [s' r]. cbn [fst].
  destruct P as (lost' & tk & out' & rc & ds' & [] & H & (ok' & bad' & E1 & E2 & E3) & L & _). split.
  - exists (out ++ out'), lost'. split_and!.
    + by rewrite m_sent0, O1, fmap_app, app_assoc.
    + intros pr. specialize (O2 pr). unfold waiting in *. cbn in O2. rewrite <- O2, select_app, <- !app_assoc.
      f_equal. rewrite m_queue0, messages_app, !app_assoc, <- m_flow0, <- !app_assoc. done.
    + intros D'. destruct L as [L|L]; [done|congruence].
  - exists (ok ++ ok'), bad', (ds ++ ds'). split_and!.
    + rewrite I1, m_incoming0, E1, <- !app_assoc. done.
    + assert (B : before s = before s0) by (unfold before; by replace (su_before_receive s) with (su_before_receive s0) by (symmetry; apply ST)).
      rewrite B in E2. apply mapM_Some in I2, E2. apply mapM_Some. by apply Forall2_app.
    + intros D'. destruct E3 as [E3|E3]; [done|congruence].
    + by apply (handed_trans ds ds' s0 s).
  - by etrans.
  - rewrite m_context0. rewrite (proj1 (spend_fields _ _)). done.
Qed.

Lemma run_progress ar inc s0 s : sized s0 → sub_run s0 ar inc s → progress ar inc s0 s.
Proof.
  intros SZ H. induction H as [|ar inc ar' inc' s s' H IH HA|ar inc s proceed H IH D C].
  - split; [exists [], nothing|exists [], [], []|done|done].
    + split_and!; [by rewrite app_nil_r|intros pr; cbn; by rewrite app_nil_r|done].
    + split_and!; [by rewrite app_nil_r|done|done|apply handed_refl].
  - by eapply progress_arrives.
  - by apply progress_poll.
Qed.

(** C11: what a substream hands to its stream is, at each priority, what the session sent to it,
    in order: the frames handed over, followed by those still buffered and queued, are the
    messages sent. Only a substream that is dead has dropped any. *)
Theorem substream_sends_in_order s0 ar inc s : sized s0 → sub_run s0 ar inc s →
  ∃ out lost, sent s = sent s0 ++ (snd <$> out) ∧
  (∀ pr, sel pr out ++ lost pr ++ waiting pr s = waiting pr s0 ++ messages (sel pr ar)) ∧
  (su_dead s = false → lost = nothing).
Proof. intros SZ H. apply (run_progress _ _ _ _ SZ H). Qed.

(** C12: the frames that arrive go to the handlers of the protocol in order, each after
    [before_receive]: what a handler was sent is a prefix of its share, and what it was sent
    followed by what is buffered is all of it as long as the substream is not dead. *)
Theorem substream_receives_in_order s0 ar inc s : sized s0 → sub_run s0 ar inc s →
  ∃ ok bad ds, incoming s0 ++ inc = ok ++ bad ++ incoming s ∧ mapM (before s0) ok = Some ds ∧
  (su_dead s = false → bad = []) ∧
  fed (su_dead s) (SvReceived (sc_id (su_context s0)) <$> ds)
    (su_service_proto_sender s0) (su_service_proto_sender s) ∧
  fed (su_dead s) (SeReceived <$> ds) (su_session_proto_sender s0) (su_session_proto_sender s).
Proof.
  intros SZ H. destruct (pg_in _ _ _ _ (run_progress _ _ _ _ SZ H)) as (ok & bad & ds & I1 & I2 & I3 & []).
  by exists ok, bad, ds.
Qed.

(** A poll decreases the pending size of the session by exactly the bytes it handed to the
    stream, modulo the width of the counter, and changes nothing else of the context. *)
Theorem poll_accounts_for_sent_bytes proceed s : su_dead s = false → sc_closed (su_context s) = false →
  sized s → is_u64 (sc_pending_data_size (su_context s)) →
  let s' := (substream_poll_next proceed s).1 in
  ∃ new, sent s' = sent s ++ new ∧
  su_context s' = put_pending_data_size
    ((sc_pending_data_size (su_context s) - foldr (λ f n, len f + n) 0 new) mod 2 ^ 64) (su_context s).
Proof.
  intros D C SZ W. pose proof (poll_spec proceed s D C SZ) as P.
  destruct (substream_poll_next proceed s) as [s' r]. cbn.
  destruct P as (lost & tk & out & rc & ds & [] & _). exists (snd <$> out). split; [done|].
  rewrite m_context0. clear -W. revert W. generalize (su_context s) as c. induction out as [|m out IH]; intros c W.
  - cbn. rewrite Z.sub_0_r, Z.mod_small by done. by destruct c.
  - change (spend (m :: out) c) with (spend out (decr_pending_data_size (len m.2) c)).
    rewrite IH; [|apply Z.mod_pos_bound; lia]. destruct c. unfold put_pending_data_size, decr_pending_data_size. cbn. f_equal.
    rewrite Zminus_mod_idemp_l. f_equal; lia.
Qed.

(** ** What the session hears from a substream *)

(** Only errors of its protocol, and the end of itself. *)
Definition own (i p : Z) (e : PE) : Prop := e = PeClose i p ∨ ∃ k, e = PeError p k.

Definition own_task (i p : Z) (t : @SpawnedSend F ES SS PS) : Prop :=
  match t with SpEvents _ es => Forall (own i p) es | _ => True end.

Definition speaks (i p : Z) (base : list PE) (s : SU) : Prop :=
  su_id s = i ∧ su_proto_id s = p ∧ Forall (own i p) (b_buffer (su_event_sender s)) ∧
  (∃ l, bs_sent (b_sender (su_event_sender s)) = base ++ l ∧ Forall (own i p) l) ∧
  Forall (own_task i p) (su_spawned s).

Section Speaks.
Context (i p : Z) (base : list PE).
Abbreviation spk := (speaks i p base).

Lemma speaks_try_send b b' r (s : SU) : Buffer_try_send b = (b', r) → su_event_sender s = b → spk s →
  spk (put_event_sender b' s).
Proof.
  intros H E (E1 & E2 & E3 & (l & E4 & E5) & E6).
  destruct (Buffer_try_send_split _ _ _ H) as (taken & rest & B1 & B2 & B3).
  rewrite E in E3, E4. rewrite B2 in E3. apply Forall_app in E3 as [T1 T2]. split_and!; try done; cbn.
  - by destruct B3 as [-> | [-> _]].
  - exists (l ++ taken). rewrite B1, E4, app_assoc. split; [done|]. by apply Forall_app.
Qed.

Lemma speaks_push e (s : SU) : own i p e → spk s → spk (put_event_sender (push e (su_event_sender s)) s).
Proof.
  intros He (E1 & E2 & E3 & E4 & E6). split_and!; try done. cbn. apply Forall_app; auto.
Qed.

Lemma speaks_output : keeps spk (output : SM unit).
Proof.
  unfold output. apply keeps_gets_bind. intros s Hs. destruct (Buffer_try_send _) as [b' r] eqn:E.
  pose proof (speaks_try_send _ _ _ _ E eq_refl Hs). unfold mbind, M_bind, modify. by destruct r.
Qed.

Lemma speaks_wrote out s s' : wrote out s s' → spk s → spk s'.
Proof.
  intros [] (E1 & E2 & E3 & E4 & E6). destruct w_statics0 as (S1 & S2 & _).
  unfold speaks. rewrite w_events0, w_spawned0. split_and!; congruence || done.
Qed.

Lemma speaks_same (s s' : SU) : su_id s' = su_id s → su_proto_id s' = su_proto_id s →
  su_event_sender s' = su_event_sender s → su_spawned s' = su_spawned s → spk s → spk s'.
Proof. unfold speaks. intros -> -> -> ->. done. Qed.

#[local] Hint Extern 3 (keeps _ (modify _)) => apply keeps_modify; intros ?; by apply speaks_same : keeps.
#[local] Hint Resolve speaks_output : keeps.

Lemma speaks_spawn t : own_task i p t → keeps spk (spawn_send t : SM unit).
Proof.
  intros Ht. apply keeps_modify. intros s (E1 & E2 & E3 & E4 & E6). split_and!; try done. cbn.
  apply Forall_app; auto.
Qed.

Lemma speaks_spawn_service b e : keeps spk (spawn_send (SpService b e) : SM unit).
Proof. by apply speaks_spawn. Qed.
Lemma speaks_spawn_session b e : keeps spk (spawn_send (SpSession b e) : SM unit).
Proof. by apply speaks_spawn. Qed.
#[local] Hint Resolve speaks_spawn_service speaks_spawn_session : keeps.

Lemma speaks_take : keeps spk (b ← gets su_event_sender;
  let '(b', (sender, events)) := Buffer_take b in
  modify (put_event_sender b') ;;
  id ← gets su_id;
  proto_id ← gets su_proto_id;
  spawn_send (SpEvents sender (events ++ [PeClose id proto_id])) : SM unit).
Proof.
  apply keeps_gets_bind. intros s (E1 & E2 & E3 & E4 & E6).
  unfold Buffer_take, mbind, M_bind, modify, gets, spawn_send. cbn. split_and!; try done; cbn.
  apply Forall_app. split; [done|]. apply Forall_singleton. cbn. apply Forall_app. split; [done|].
  apply Forall_singleton. left. congruence.
Qed.

Lemma speaks_clear : keeps spk (modify (λ s, put_event_sender (Buffer_clear (su_event_sender s)) s) : SM unit).
Proof. apply keeps_modify. intros s (E1 & E2 & E3 & E4 & E6). by split_and!. Qed.
#[local] Hint Resolve speaks_take speaks_clear : keeps.

Lemma speaks_close : keeps spk (close_proto_stream : SM unit).
Proof. unfold close_proto_stream. keeps_walk. Qed.
#[local] Hint Resolve speaks_close : keeps.

(** An error of its own, and what follows. *)
Lemma speaks_error {A} e (k : SM A) : keeps spk k → keeps spk (
  proto_id ← gets su_proto_id;
  modify (λ s, put_event_sender (push (PeError proto_id e) (su_event_sender s)) s) ;; k).
Proof.
  intros Hk. apply keeps_gets_bind. intros s Hs. unfold mbind, M_bind, modify. apply Hk.
  apply speaks_push; [|done]. right. exists e. f_equal. apply Hs.
Qed.

Lemma speaks_error_close e : keeps spk (error_close e : SM unit).
Proof.
  unfold error_close. apply keeps_bind; [eauto with keeps|intros _].
  destruct (is_connection_error e); [eauto with keeps|]. apply speaks_error. eauto with keeps.
Qed.
#[local] Hint Resolve speaks_error_close : keeps.

Lemma speaks_send_data : keeps spk (send_data : SM unit).
Proof.
  intros s Hs. pose proof (send_data_spec s) as H. destruct (send_data s) as [s' r].
  destruct H as (lost & out & W & _). by eapply speaks_wrote.
Qed.

#[local] Hint Resolve speaks_send_data : keeps.

Lemma speaks_distribute : keeps spk (distribute_to_user_level : SM unit).
Proof. unfold distribute_to_user_level. keeps_walk. Qed.
#[local] Hint Resolve speaks_distribute : keeps.

Lemma speaks_handle e pr : keeps spk (handle_proto_event e pr : SM unit).
Proof.
  destruct e; cbn [handle_proto_event]; try solve [keeps_walk].
  apply keeps_bind; [apply keeps_modify; intros s; destruct pr; by apply speaks_same|intros _].
  apply keeps_bind; [eauto with keeps|intros [err|u]; [|eauto with keeps]].
  intros s Hs. pose proof (speaks_error err output speaks_output s Hs) as H.
  unfold output_event, mbind, M_bind, gets, modify in *.
  destruct (output (put_event_sender _ s)) as [s1 []]; cbn in *; [by eapply speaks_same; [..|exact H]|done|done].
Qed.
#[local] Hint Resolve speaks_handle : keeps.

Lemma speaks_recv_event : keeps spk (recv_event : SM _).
Proof. unfold recv_event. keeps_walk. Qed.

Lemma speaks_recv_frame : keeps spk (recv_frame : SM _).
Proof. unfold recv_frame, push_received. keeps_walk. Qed.

Lemma speaks_poll_complete : keeps spk (poll_complete : SM bool).
Proof. intros s Hs. pose proof (stream_flush_spec s) as (W & _). by eapply speaks_wrote. Qed.
#[local] Hint Resolve speaks_poll_complete : keeps.

Lemma speaks_flush : keeps spk (flush : SM unit).
Proof. unfold flush. keeps_walk. Qed.

Lemma speaks_poll proceed : keeps spk (substream_poll_next proceed : SM _).
Proof.
  unfold substream_poll_next. pose proof speaks_flush. pose proof speaks_recv_event.
  pose proof speaks_recv_frame. keeps_walk.
Qed.

End Speaks.

(** ** Bounds *)

Definition within (a b c : Z) (s : SU) : Prop :=
  len (su_write_buf s) <= a ∧ opt_len (su_service_proto_sender s) <= b ∧
  opt_len (su_session_proto_sender s) <= c.

Section Within.
Context (a b c : Z) (Hb : 0 <= b) (Hc : 0 <= c).
Abbreviation win := (within a b c).

Lemma within_same (s s' : SU) : su_write_buf s' = su_write_buf s →
  su_service_proto_sender s' = su_service_proto_sender s →
  su_session_proto_sender s' = su_session_proto_sender s → win s → win s'.
Proof. unfold within. by intros -> -> ->. Qed.

#[local] Hint Extern 3 (keeps _ (modify _)) => apply keeps_modify; intros ?; by apply within_same : keeps.

Lemma within_output : keeps win (output : SM unit).
Proof. unfold output. keeps_walk. Qed.
#[local] Hint Resolve within_output : keeps.

Lemma try_send_shorter {B E} `{BoundedSenderLaws B E} (x y : @Buffer B E) r :
  Buffer_try_send x = (y, r) → len (b_buffer y) <= len (b_buffer x).
Proof.
  intros Hx. destruct (Buffer_try_send_split _ _ _ Hx) as (t & rest & _ & -> & [-> | [-> _]]);
    rewrite len_app; pose proof (len_nonneg t); pose proof (len_nonneg rest); [lia|]. rewrite len_nil. lia.
Qed.

Lemma within_distribute : keeps win (distribute_to_user_level : SM unit).
Proof.
  unfold distribute_to_user_level. apply keeps_gets_bind. intros s (H1 & H2 & H3).
  unfold mbind at 1, M_bind at 1.
  match goal with |- context [match ?x s with _ => _ end] => assert (A : ∃ s1, x s = (s1, ROk tt) ∧ win s1) end.
  { destruct (su_service_proto_sender s) as [x|] eqn:E; [|exists s; split; [done|]; unfold within; by rewrite E].
    destruct (Buffer_try_send x) as [y r] eqn:B. apply try_send_shorter in B. unfold mbind, M_bind, modify.
    cbn in H2. destruct r; eexists; (split; [done|]); split_and!; cbn; lia || done. }
  destruct A as (s1 & -> & A). revert s1 A. apply keeps_gets_bind. intros s1 (K1 & K2 & K3).
  unfold mbind at 1, M_bind at 1.
  match goal with |- context [match ?x s1 with _ => _ end] => assert (A : ∃ s2, x s1 = (s2, ROk tt) ∧ win s2) end.
  { destruct (su_session_proto_sender s1) as [x|] eqn:E; [|exists s1; split; [done|]; unfold within; by rewrite E].
    destruct (Buffer_try_send x) as [y r] eqn:B. apply try_send_shorter in B. unfold mbind, M_bind, modify.
    cbn in K3. destruct r; eexists; (split; [done|]); split_and!; cbn; lia || done. }
  destruct A as (s2 & -> & A). revert s2 A. change (keeps win (dead ← gets su_dead;
    if dead : bool then output else mret tt : SM unit)). keeps_walk.
Qed.

Lemma within_moved lost out rc s s' : moved lost [] out rc s s' → same_handlers s s' → win s → win s'.
Proof.
  intros [] [E1 E2] (H1 & H2 & H3). unfold within. rewrite E1, E2. split_and!; [|done|done].
  specialize (m_flow0 Normal). apply (f_equal len) in m_flow0. cbn in m_flow0.
  rewrite !len_app, len_nil in m_flow0. pose proof (len_nonneg (sel Normal out)). pose proof (len_nonneg (lost Normal)). lia.
Qed.

Lemma within_send_data : keeps win (send_data : SM unit).
Proof.
  intros s Hs. pose proof (send_data_spec s) as H. destruct (send_data s) as [s' r].
  destruct H as (lost & out & [] & M & _). by eapply within_moved.
Qed.

Lemma within_poll_complete : keeps win (poll_complete : SM bool).
Proof.
  intros s Hs. pose proof (stream_flush_spec s) as ([] & _ & B). eapply within_same; [apply (B Normal)|done..].
Qed.

Lemma within_close : keeps win (close_proto_stream : SM unit).
Proof.
  intros s (H1 & H2 & H3). destruct (quietly_close s) as [Q _].
  pose proof (q_bufs _ _ Q Normal) as E. cbn in E. split_and!; [by rewrite E| |]; clear Q E; unfold close_proto_stream, spawn_send, mbind, M_bind, gets, modify;
    destruct s as [? ? ? [? ? ? ? [] ?] ? ? ? ? [] ? ? [|] [|] ? ?]; cbn in *;
    repeat (rewrite ?(proj1 (proj1 (output_rest _))), ?(proj2 (proj1 (output_rest _))); cbn); try done;
    rewrite ?len_nil; lia.
Qed.

#[local] Hint Resolve within_distribute within_send_data within_poll_complete within_close : keeps.

Lemma within_error_close e : keeps win (error_close e : SM unit).
Proof. unfold error_close. keeps_walk. Qed.
#[local] Hint Resolve within_error_close : keeps.

Lemma within_flush : keeps win (flush : SM unit).
Proof. unfold flush. keeps_walk. Qed.

End Within.

(** One event is taken at a time, and only while the buffer is not over its limit. *)
Lemma within_recv_event a b c ls (s : SU) : send_event_size (su_config s) = Some ls → ls + 1 <= a →
  0 <= b → 0 <= c → within a b c s → within a b c (recv_event s).1.
Proof.
  intros E Ha Hb Hc W. unfold recv_event. unfold mbind at 1, M_bind at 1, gets. destruct (su_dead s); [done|].
  do 2 (unfold mbind at 1, M_bind at 1). rewrite E. cbn [or_panic mret M_ret]. unfold mbind at 1, M_bind at 1.
  destruct (ls <? len (su_write_buf s)) eqn:L; [done|]. apply Z.ltb_ge in L.
  unfold mbind at 1, M_bind at 1. destruct (pr_poll_next _) as [r' p]. unfold mbind at 1, M_bind at 1, modify.
  destruct p as [[[pr e]|]|]; [|done|done]. destruct W as (W1 & W2 & W3).
  assert (HS : ∀ s' : SU, within a b c s' → within a b c (send_data s').1) by apply within_send_data.
  destruct e; try done; unfold mbind at 1, M_bind at 1; cbn [handle_proto_event].
  - pose proof (len_nonneg (su_write_buf s)). unfold mbind, M_bind, modify. cbn.
    split_and!; cbn; [change (len []) with 0; lia|done|done].
  - unfold mbind, M_bind, push_back, modify, catch. set (s2 := put_write_bufs _ _ _).
    assert (W' : within a b c s2).
    { split_and!; [|by destruct pr|by destruct pr]. destruct pr; cbn; [done|]. rewrite len_app. change (len [data]) with 1. lia. }
    specialize (HS s2 W'). destruct (send_data s2) as [s3 []]; [done| |done]. cbn [gets].
    unfold output_event, mbind, M_bind, modify, gets.
    assert (W3' : within a b c (put_event_sender (push (PeError (su_proto_id s3) e) (su_event_sender s3)) s3)) by done.
    pose proof (within_output a b c _ W3') as HO. destruct (output _) as [s4 []]; done.
Qed.

Lemma within_recv_frame a b c lr (s : SU) : recv_event_size (su_config s) = Some lr → lr + 1 <= b → lr + 1 <= c →
  0 <= b → 0 <= c → within a b c s → within a b c (recv_frame s).1.
Proof.
  intros E Hb' Hc' Hb Hc W. unfold recv_frame. unfold mbind at 1, M_bind at 1, gets. destruct (su_dead s); [done|].
  do 2 (unfold mbind at 1, M_bind at 1). rewrite E. cbn [or_panic mret M_ret]. do 2 (unfold mbind at 1, M_bind at 1).
  destruct (_ || _) eqn:L; [done|]. apply orb_false_iff in L as [L1%Z.ltb_ge L2%Z.ltb_ge].
  unfold mbind at 1, M_bind at 1. destruct (sk_poll_next _) as [t p]. unfold mbind at 1, M_bind at 1, modify.
  assert (HE : ∀ e, within a b c ((error_close e ;; mret (Ready None) : SM (Poll (option unit))) (put_substream t s)).1).
  { intros e. apply keeps_bind; [by apply within_error_close|intros; apply keeps_ret|done]. }
  destruct p as [[[e|data]|]|]; [apply HE| |done|done]. unfold mbind at 1, M_bind at 1. cbn [su_before_receive put_substream].
  destruct (match su_before_receive s with Some _ => _ | None => _ end) as [e|d]; [apply HE|].
  unfold push_received, mbind, M_bind, modify. set (s2 := put_service_proto_sender _ _).
  assert (W2 : within a b c s2).
  { destruct W as (W1 & W2 & W3).
    assert (HP : ∀ {B X} (o : option (@Buffer B X)) x, opt_len (push x <$> o) <= opt_len o + 1).
    { intros B X [o|] x; cbn; [rewrite len_app; change (len [x]) with 1; lia|lia]. }
    split_and!; [done|cbn; etrans; [apply HP|lia]|cbn; etrans; [apply HP|lia]]. }
  pose proof (within_distribute a b c s2 W2) as HD. destruct (distribute_to_user_level s2) as [s3 []]; done.
Qed.

(** The buffers of a substream stay bounded: over any run no more than the configured number of
    messages, plus one, wait in the buffer of normal priority or in front of a handler. *)
Theorem substream_buffers_bounded s0 ar inc s ls lr : send_event_size (su_config s0) = Some ls →
  recv_event_size (su_config s0) = Some lr → 0 <= lr →
  within (ls + 1) (lr + 1) (lr + 1) s0 → sub_run s0 ar inc s → within (ls + 1) (lr + 1) (lr + 1) s.
Proof.
  intros Hs Hr Hlr W0 H. assert (Hp : 0 <= lr + 1) by lia. assert (SZ : sized s0) by (split; eauto).
  induction H as [|ar inc ar' inc' s s' H IH HA|ar inc s proceed H IH D C]; [done| |].
  - destruct IH as (W1 & W2 & W3), HA. assert (∀ {B E} `{BoundedSender B E} (o o' : option (@Buffer B E)),
      refreshed o o' → opt_len o' = opt_len o) as HR by (by intros B E ? [b|] [b'|]; cbn; try done; intros [-> _]).
    pose proof (a_bufs0 Normal) as Bn. cbn in Bn. unfold within. by rewrite Bn, (HR _ _ _ _ _ a_service0), (HR _ _ _ _ _ a_session0).
  - pose proof (pg_statics _ _ _ _ (run_progress _ _ _ _ SZ H)) as ST.
    unfold substream_poll_next. do 2 (unfold mbind at 1, M_bind at 1, gets). rewrite D, C. cbn [orb].
    unfold mbind at 1, M_bind at 1, catch. pose proof (flush_spec s) as HF.
    pose proof (within_flush (ls + 1) (lr + 1) (lr + 1) s IH) as W1.
    destruct (flush s) as [s1 r1]. destruct HF as (lost & out & M1 & _). cbn in W1.
    assert (C1 : su_config s1 = su_config s0) by (transitivity (su_config s); [apply M1|apply ST]).
    destruct r1 as [[]|e|]; [| |done].
    + destruct (negb proceed); [done|]. unfold mbind at 1, M_bind at 1.
      pose proof (recv_frame_spec s1) as HF. pose proof (within_recv_frame _ _ _ lr s1 ltac:(by rewrite C1)
        ltac:(reflexivity) ltac:(reflexivity) Hp Hp W1) as W2.
      rewrite C1 in HF. specialize (HF ltac:(eauto)). destruct (recv_frame s1) as [s2 r2]. cbn in W2.
      destruct HF as (rc & ds & M2 & _ & _ & _ & [p1 ->]).
      assert (C2 : su_config s2 = su_config s0) by (rewrite <- C1; apply M2).
      unfold mbind, M_bind. pose proof (within_recv_event _ _ _ ls s2 ltac:(by rewrite C2)
        ltac:(reflexivity) Hp Hp W2) as W3.
      destruct (recv_event s2) as [s3 []]; done.
    + apply keeps_bind; [|intros; apply keeps_ret|done]. by apply within_error_close.
Qed.

(** How a substream ends: when it is dead, or the session closed, the next poll ends it. The
    handlers get what is buffered for them and then learn of the end; the session gets a [Close]
    with the identifiers of the stream, unless it is closed itself. *)
Theorem substream_end proceed s : su_dead s || sc_closed (su_context s) = true →
  let '(s', r) := substream_poll_next proceed s in
  let cx := su_context s in
  r = ROk (Ready None) ∧ sent s' = sent s ∧
  su_spawned s' = su_spawned s ++
    match su_service_proto_sender s with
    | Some b => [SpService (b_sender b) (b_buffer b ++ [SvDisconnected (sc_id cx)])]
    | None => []
    end ++
    match su_session_proto_sender s with
    | Some b => [SpSession (b_sender b) (b_buffer b ++ SeClosed :: (if sc_closed cx then [SeDisconnected] else []))]
    | None => []
    end ++
    (if sc_closed cx then [] else
      [SpEvents (b_sender (su_event_sender s))
         ((if su_keep_buffer s then b_buffer (su_event_sender s) else []) ++ [PeClose (su_id s) (su_proto_id s)])]).
Proof.
  intros H. unfold substream_poll_next. do 2 (unfold mbind at 1, M_bind at 1, gets). rewrite H.
  destruct (quietly_close s) as [Q [[] ER']]. unfold mbind, M_bind.
  pose proof (eq_refl (close_proto_stream s).1) as E. destruct (close_proto_stream s) as [s' r] eqn:EC.
  cbn in Q, ER', E. subst r. split_and!; [done|apply Q|].
  replace s' with (close_proto_stream s).1 by (by rewrite EC). clear.
  unfold close_proto_stream, spawn_send, mbind, M_bind, gets, modify.
  destruct s as [? ? ? [? ? ? ? [] ?] ? ? ? ? [] [? ?] ? [|] [|] ? ?]; cbn;
    repeat (rewrite ?(proj2 (output_rest _)); cbn); rewrite <- ?app_assoc, ?app_nil_r; done.
Qed.

(** A substream tells the session nothing but errors of its protocol and, with its own
    identifiers, its end; over any run, whether sent, buffered or in a spawned task. *)
Theorem substream_speaks_for_itself s0 ar inc s i p base : speaks i p base s0 → sub_run s0 ar inc s →
  speaks i p base s.
Proof.
  intros H0 H. induction H as [|ar inc ar' inc' s s' H IH HA|ar inc s proceed H IH D C]; [done| |].
  - destruct HA, IH as (E1 & E2 & E3 & E4 & E5), a_events0 as [B1 B2], a_statics0 as (S1 & S2 & _).
    unfold speaks. rewrite B1, B2, a_spawned0. split_and!; congruence || done.
  - by apply speaks_poll.
Qed.

(** A stream that breaks while it is flushed ends the substream without a [Close] to the session
    and without a word to the handlers. *)
Lemma broken_stream_ends_silently proceed (s s1 : SU) k : su_dead s = false → sc_closed (su_context s) = false →
  flush s = (s1, RErr k) → is_connection_error k = true →
  substream_poll_next proceed s = (put_dead true s1, ROk (Ready None)).
Proof.
  intros D C HF HK. unfold substream_poll_next. do 2 (unfold mbind at 1, M_bind at 1, gets). rewrite D, C. cbn [orb].
  unfold mbind at 1, M_bind at 1, catch. rewrite HF. unfold error_close, mbind, M_bind, modify. by rewrite HK.
Qed.

End Proofs.

(** ** A stream for concrete runs: it may fail to flush, and may yield an error before its frames *)

Record TestPipe := mkTestPipe {
  tp_sent : list bytes; tp_incoming : list bytes; tp_flush : option ErrorKind; tp_next : option ErrorKind }.

#[export] Instance TestPipe_socket : Socket TestPipe ErrorKind := {
  sk_poll_ready t := (t, Ready (inr tt));
  sk_start_send t m := (mkTestPipe (tp_sent t ++ [m]) (tp_incoming t) (tp_flush t) (tp_next t), inr tt);
  sk_poll_flush t := (t, Ready (match tp_flush t with Some e => inl e | None => inr tt end));
  sk_poll_close t := (t, Ready (inr tt));
  sk_poll_next t :=
    match tp_next t, tp_incoming t with
    | Some e, _ => (mkTestPipe (tp_sent t) (tp_incoming t) (tp_flush t) None, Ready (Some (inl e)))
    | None, m :: ms => (mkTestPipe (tp_sent t) ms (tp_flush t) None, Ready (Some (inr m)))
    | None, [] => (t, Pending)
    end;
  sk_sent := tp_sent;
  sk_incoming := tp_incoming;
}.

#[export] Instance TestPipe_shutdown : Shutdown TestPipe := λ t, t.

#[export] Instance TestPipe_laws : SocketLaws TestPipe ErrorKind.
Proof.
  split; [done|done| |].
  - intros t t' m r [= <- <-]. done.
  - intros [s [|m ms] f [e|]] t' r; cbn; intros [= <- <-]; done.
Qed.

#[export] Instance TestPipe_shutdown_laws : ShutdownLaws TestPipe.
Proof. by split. Qed.

Abbreviation DemoSubstream := (@Substream TestPipe unit (SlotSender (ProtocolEvent unit))
  (TwoQueues (ProtocolEvent unit)) (SlotSender ServiceProtocolEvent) (SlotSender SessionProtocolEvent)).

Definition demo_context : SessionContext := mkSessionContext 4 [] Outbound None false 10.

Definition demo_stream (high normal : list (ProtocolEvent unit)) (t : TestPipe) : DemoSubstream :=
  Substream_build 0 7 demo_context SessionConfig_default false (mkSlotSender [] 2 false)
    (mkTwoQueues high normal false) (Some (Buffer_new (mkSlotSender [] 5 false)))
    (Some (Buffer_new (mkSlotSender [] 5 false))) None t.

Definition demo_open : DemoSubstream := demo_stream [] [] (mkTestPipe [] [] None None).
Definition demo_a : bytes := [byte_of 1].
Definition demo_b : bytes := [byte_of 2; byte_of 3].
Definition demo_c : bytes := [byte_of 5].
Definition demo_arrivals : list (Priority * ProtocolEvent unit) :=
  [(Normal, PeMessage demo_a); (High, PeMessage demo_b)].
Definition demo_arrived : DemoSubstream :=
  demo_stream [PeMessage demo_b] [PeMessage demo_a] (mkTestPipe [] [demo_c] None None).
Definition demo_polled : DemoSubstream :=
  (substream_poll_next true (substream_poll_next true demo_arrived).1).1.

Lemma demo_polled_run : sub_run demo_open demo_arrivals [demo_c] demo_polled.
Proof.
  unfold demo_polled. apply run_poll; [apply run_poll|reflexivity..].
  - apply (run_arrives demo_open [] [] demo_arrivals [demo_c] demo_open); [constructor|].
    split; try done; by intros [].
  - reflexivity.
  - reflexivity.
Defined.

Lemma demo_sized : sized demo_open.
Proof. split; eexists; reflexivity. Defined.

(** The high frame went first; both handlers have the frame that arrived. *)
Example demo_polled_sent : sent demo_polled = [demo_b; demo_a] ∧
  handler_sent (su_service_proto_sender demo_polled) = [SvReceived 4 demo_c] ∧
  sc_pending_data_size (su_context demo_polled) = 7.
Proof. vm_compute. done. Qed.

Lemma substream_sends_in_order_witness : su_dead demo_polled = false ∧
  ∃ out lost, sent demo_polled = sent demo_open ++ (snd <$> out) ∧
  (∀ pr, sel pr out ++ lost pr ++ waiting pr demo_polled = waiting pr demo_open ++ messages (sel pr demo_arrivals)) ∧
  (su_dead demo_polled = false → lost = nothing).
Proof.
  split; [reflexivity|]. exact (substream_sends_in_order demo_open demo_arrivals [demo_c] demo_polled demo_sized demo_polled_run).
Defined.

Lemma substream_receives_in_order_witness : su_dead demo_polled = false ∧
  ∃ ok bad ds, incoming demo_open ++ [demo_c] = ok ++ bad ++ incoming demo_polled ∧
  mapM (before demo_open) ok = Some ds ∧ (su_dead demo_polled = false → bad = []) ∧
  fed (su_dead demo_polled) (SvReceived (sc_id (su_context demo_open)) <$> ds)
    (su_service_proto_sender demo_open) (su_service_proto_sender demo_polled) ∧
  fed (su_dead demo_polled) (SeReceived <$> ds) (su_session_proto_sender demo_open) (su_session_proto_sender demo_polled).
Proof.
  split; [reflexivity|]. exact (substream_receives_in_order demo_open demo_arrivals [demo_c] demo_polled demo_sized demo_polled_run).
Defined.

Lemma poll_accounts_for_sent_bytes_witness :
  ∃ new, sent (substream_poll_next true demo_arrived).1 = sent demo_arrived ++ new ∧
  su_context (substream_poll_next true demo_arrived).1 = put_pending_data_size
    ((10 - foldr (λ f n, len f + n) 0 new) mod 2 ^ 64) (su_context demo_arrived).
Proof.
  apply (poll_accounts_for_sent_bytes true demo_arrived); [reflexivity|reflexivity|exact demo_sized|split; vm_compute; [discriminate|reflexivity]].
Defined.

Lemma substream_buffers_bounded_witness : within 98 98 98 demo_polled.
Proof.
  apply (substream_buffers_bounded demo_open demo_arrivals [demo_c] demo_polled 97 97);
    [reflexivity|reflexivity|lia| |exact demo_polled_run]. split_and!; vm_compute; discriminate.
Defined.

Definition demo_dead : DemoSubstream := put_dead true demo_arrived.

Lemma substream_end_witness : su_dead demo_dead = true ∧
  let '(s', r) := substream_poll_next true demo_dead in
  r = ROk (Ready None) ∧ sent s' = [] ∧
  su_spawned s' = [] ++ [SpService (mkSlotSender [] 5 false) ([] ++ [SvDisconnected 4])] ++
    [SpSession (mkSlotSender [] 5 false) ([] ++ [SeClosed])] ++
    [SpEvents (mkSlotSender [] 2 false) ([] ++ [PeClose 0 7])].
Proof. split; [reflexivity|]. exact (substream_end true demo_dead eq_refl). Defined.

Lemma substream_speaks_for_itself_witness : speaks 0 7 [] demo_polled.
Proof.
  apply (substream_speaks_for_itself demo_open demo_arrivals [demo_c] demo_polled 0 7 []); [|exact demo_polled_run].
  split_and!; [done|done|constructor|by exists []; split|constructor].
Defined.

(** A codec error ends the substream twice: the handlers are told of the end twice. *)
Example codec_error_closes_twice :
  let s1 := (substream_poll_next true (demo_stream [] [] (mkTestPipe [] [] None (Some KInvalidData)))).1 in
  let s2 := (substream_poll_next true s1).1 in
  (substream_poll_next true s1).2 = ROk (Ready None) ∧
  omap (λ t, match t with SpSession _ es => Some es | _ => None end) (su_spawned s2) = [[SeClosed]; [SeClosed]].
Proof. vm_compute. done. Qed.

(** A stream that breaks under a flush: the substream is gone, and nothing was spawned or sent. *)
Example broken_stream_silent :
  let '(s1, r) := substream_poll_next true (demo_stream [] [] (mkTestPipe [] [] (Some KBrokenPipe) None)) in
  r = ROk (Ready None) ∧ su_spawned s1 = [] ∧ bs_sent (b_sender (su_event_sender s1)) = [] ∧
  b_buffer (su_event_sender s1) = [].
Proof. vm_compute. done. Qed.
