(* ===== verification/WritePart.v ===== *)
(** * The write part of a split protocol stream ([tentacle/tentacle/src/substream.rs], read-write separation)

    A protocol that reads its stream itself leaves the writing side to a [SubstreamWritePart], whose
    methods repeat those of [Substream] but for the reading. This file has them as they are
    written. They do what the methods of a substream without handlers do, so that the lemmas on
    [flush], [recv_event] and [error_close] carry over; from these follows, for whole runs, that a
    write part hands on what the session gave it, in order. *)

From Stdlib Require Import ZArith Lia Bool.
From stdpp Require Import base list gmap.
From S2P Require Import Prelude Channels PriorityChannel Buffers Wire Tentacle Substream SubstreamProofs.

Open Scope Z_scope.

Section WritePart.
Context {T F ES ER SS PS : Type}.
Abbreviation PE := (ProtocolEvent F) (only parsing).
Context `{K : Socket T ErrorKind} `{SD : Shutdown T}.
Context `{BE : BoundedSender ES PE} `{RE : PriorityReceiver ER PE}.
Context `{BS : BoundedSender SS ServiceProtocolEvent} `{BP : BoundedSender PS SessionProtocolEvent}.

(** [wr_spawned]: the sends of a spawned task. *)
Record SubstreamWritePart := mkWritePart {
  wr_substream : T;
  wr_id : Z;
  wr_proto_id : Z;
  wr_dead : bool;
  wr_config : SessionConfig;
  wr_high_write_buf : list bytes;
  wr_write_buf : list bytes;
  wr_event_sender : @Buffer ES PE;
  wr_event_receiver : ER;
  wr_context : SessionContext;
  wr_spawned : list (ES * list PE);
}.

Definition wr_put_substream v (w : SubstreamWritePart) : SubstreamWritePart :=
  mkWritePart v (wr_id w) (wr_proto_id w) (wr_dead w) (wr_config w) (wr_high_write_buf w) (wr_write_buf w)
    (wr_event_sender w) (wr_event_receiver w) (wr_context w) (wr_spawned w).
Definition wr_put_dead v (w : SubstreamWritePart) : SubstreamWritePart :=
  mkWritePart (wr_substream w) (wr_id w) (wr_proto_id w) v (wr_config w) (wr_high_write_buf w) (wr_write_buf w)
    (wr_event_sender w) (wr_event_receiver w) (wr_context w) (wr_spawned w).
Definition wr_put_high_write_buf v (w : SubstreamWritePart) : SubstreamWritePart :=
  mkWritePart (wr_substream w) (wr_id w) (wr_proto_id w) (wr_dead w) (wr_config w) v (wr_write_buf w)
    (wr_event_sender w) (wr_event_receiver w) (wr_context w) (wr_spawned w).
Definition wr_put_write_buf v (w : SubstreamWritePart) : SubstreamWritePart :=
  mkWritePart (wr_substream w) (wr_id w) (wr_proto_id w) (wr_dead w) (wr_config w) (wr_high_write_buf w) v
    (wr_event_sender w) (wr_event_receiver w) (wr_context w) (wr_spawned w).
Definition wr_put_event_sender v (w : SubstreamWritePart) : SubstreamWritePart :=
  mkWritePart (wr_substream w) (wr_id w) (wr_proto_id w) (wr_dead w) (wr_config w) (wr_high_write_buf w) (wr_write_buf w)
    v (wr_event_receiver w) (wr_context w) (wr_spawned w).
Definition wr_put_event_receiver v (w : SubstreamWritePart) : SubstreamWritePart :=
  mkWritePart (wr_substream w) (wr_id w) (wr_proto_id w) (wr_dead w) (wr_config w) (wr_high_write_buf w) (wr_write_buf w)
    (wr_event_sender w) v (wr_context w) (wr_spawned w).
Definition wr_put_context v (w : SubstreamWritePart) : SubstreamWritePart :=
  mkWritePart (wr_substream w) (wr_id w) (wr_proto_id w) (wr_dead w) (wr_config w) (wr_high_write_buf w) (wr_write_buf w)
    (wr_event_sender w) (wr_event_receiver w) v (wr_spawned w).
Definition wr_put_spawned v (w : SubstreamWritePart) : SubstreamWritePart :=
  mkWritePart (wr_substream w) (wr_id w) (wr_proto_id w) (wr_dead w) (wr_config w) (wr_high_write_buf w) (wr_write_buf w)
    (wr_event_sender w) (wr_event_receiver w) (wr_context w) v.

Abbreviation WM := (M SubstreamWritePart ErrorKind) (only parsing).

Definition wr_push_front (pr : Priority) (frame : bytes) : WM unit :=
  match pr with
  | High => modify (λ w, wr_put_high_write_buf (frame :: wr_high_write_buf w) w)
  | Normal => modify (λ w, wr_put_write_buf (frame :: wr_write_buf w) w)
  end.
Definition wr_push_back (pr : Priority) (frame : bytes) : WM unit :=
  match pr with
  | High => modify (λ w, wr_put_high_write_buf (wr_high_write_buf w ++ [frame]) w)
  | Normal => modify (λ w, wr_put_write_buf (wr_write_buf w ++ [frame]) w)
  end.

(** A poll of the framed stream, its error passed on with [?]. *)
Definition wr_on_stream {A} (p : T → T * Poll (ErrorKind + A)) : WM (Poll A) := λ w,
  match p (wr_substream w) with
  | (t, Ready (inl e)) => (wr_put_substream t w, RErr e)
  | (t, Ready (inr a)) => (wr_put_substream t w, ROk (Ready a))
  | (t, Pending) => (wr_put_substream t w, ROk Pending)
  end.

Definition wr_poll_complete : WM bool :=
  p ← wr_on_stream sk_poll_flush;
  match p with Pending => mret true | Ready _ => mret false end.

Definition wr_send_inner (frame : bytes) (pr : Priority) : WM bool :=
  let data_size := len frame in
  p ← wr_on_stream sk_poll_ready;
  match p with
  | Ready _ =>
      wr_on_stream (λ t, let '(t', r) := sk_start_send t frame in (t', Ready r)) ;;
      modify (λ w, wr_put_context (decr_pending_data_size data_size (wr_context w)) w) ;;
      mret false
  | Pending => wr_push_front pr frame ;; wr_poll_complete ;; mret true
  end.

(** The two loops of [send_data]; one unit of fuel per turn. *)
Fixpoint wr_send_high (fuel : nat) : WM bool :=
  match fuel with
  | O => panic
  | S fuel' =>
      buf ← gets wr_high_write_buf;
      match buf with
      | [] => mret false
      | frame :: rest =>
          modify (wr_put_high_write_buf rest) ;;
          full ← wr_send_inner frame High;
          if full : bool then mret true else wr_send_high fuel'
      end
  end.
Fixpoint wr_send_normal (fuel : nat) : WM bool :=
  match fuel with
  | O => panic
  | S fuel' =>
      buf ← gets wr_write_buf;
      match buf with
      | [] => mret false
      | frame :: rest =>
          modify (wr_put_write_buf rest) ;;
          full ← wr_send_inner frame Normal;
          if full : bool then mret true else wr_send_normal fuel'
      end
  end.

Definition wr_send_data : WM unit :=
  high ← gets wr_high_write_buf;
  full ← wr_send_high (S (length high));
  if full : bool then mret tt else
  normal ← gets wr_write_buf;
  full ← wr_send_normal (S (length normal));
  if full : bool then mret tt else
  wr_poll_complete ;; mret tt.

Definition wr_output : WM unit :=
  b ← gets wr_event_sender;
  let '(b', r) := Buffer_try_send b in
  modify (wr_put_event_sender b') ;;
  match r with SrDisconnect => modify (wr_put_dead true) | _ => mret tt end.

Definition wr_output_event (event : PE) : WM unit :=
  modify (λ w, wr_put_event_sender (push event (wr_event_sender w)) w) ;; wr_output.

Definition wr_flush : WM unit :=
  wr_poll_complete ;;
  w ← gets id;
  if negb (is_empty (b_buffer (wr_event_sender w))) || negb (is_empty (wr_write_buf w))
     || negb (is_empty (wr_high_write_buf w))
  then wr_output ;; wr_send_data
  else mret tt.

Definition wr_handle_proto_event (event : PE) (pr : Priority) : WM unit :=
  match event with
  | PeMessage data =>
      wr_push_back pr data ;;
      r ← catch wr_send_data;
      match r with
      | inl err =>
          proto_id ← gets wr_proto_id;
          wr_output_event (PeError proto_id err) ;;
          modify (wr_put_dead true)
      | inr _ => mret tt
      end
  | PeClose _ _ => modify (wr_put_write_buf []) ;; modify (wr_put_dead true)
  | _ => mret tt
  end.

Definition wr_recv_event : WM (Poll (option unit)) :=
  dead ← gets wr_dead;
  if dead : bool then mret (Ready None) else
  cfg ← gets wr_config;
  limit ← or_panic (send_event_size cfg);
  buf ← gets wr_write_buf;
  if limit <? len buf then mret Pending else
  r ← gets wr_event_receiver;
  let '(r', p) := pr_poll_next r in
  modify (wr_put_event_receiver r') ;;
  match p with
  | Ready (Some (pr, event)) => wr_handle_proto_event event pr ;; mret (Ready (Some tt))
  | Ready None =>
      modify (wr_put_dead true) ;;
      modify (λ w, wr_put_substream (sd_poll_shutdown (wr_substream w)) w) ;;
      mret (Ready None)
  | Pending => mret Pending
  end.

Definition wr_close_proto_stream : WM unit :=
  modify (λ w, wr_put_event_receiver (pr_close (wr_event_receiver w)) w) ;;
  modify (λ w, wr_put_substream (sd_poll_shutdown (wr_substream w)) w) ;;
  cx ← gets wr_context;
  if negb (sc_closed cx) then
    b ← gets wr_event_sender;
    let '(b', (sender, events)) := Buffer_take b in
    modify (wr_put_event_sender b') ;;
    id ← gets wr_id;
    proto_id ← gets wr_proto_id;
    modify (λ w, wr_put_spawned (wr_spawned w ++ [(sender, events ++ [PeClose id proto_id])]) w)
  else wr_output.

Definition wr_error_close (error : ErrorKind) : WM unit :=
  modify (wr_put_dead true) ;;
  if is_connection_error error then mret tt else
  proto_id ← gets wr_proto_id;
  modify (λ w, wr_put_event_sender (push (PeError proto_id error) (wr_event_sender w)) w) ;;
  wr_close_proto_stream.

Definition wr_poll_next (proceed : bool) : WM (Poll (option unit)) :=
  dead ← gets wr_dead;
  cx ← gets wr_context;
  if dead || sc_closed cx then wr_close_proto_stream ;; mret (Ready None) else
  r ← catch wr_flush;
  match r with
  | inl err => wr_error_close err ;; mret (Ready None)
  | inr _ =>
      if negb proceed then mret Pending else
      p ← wr_recv_event;
      mret (if is_pending p then Pending else Ready (Some tt))
  end.

Definition wr_build (id proto_id : Z) (context : SessionContext) (config : SessionConfig)
    (event_sender : ES) (event_receiver : ER) (substream : T) : SubstreamWritePart :=
  mkWritePart substream id proto_id false config [] [] (Buffer_new event_sender) event_receiver context [].

(** ** A substream without handlers *)

Abbreviation Sub := (@Substream T F ES ER SS PS) (only parsing).
Abbreviation SM := (M Sub ErrorKind) (only parsing).

Definition as_substream (w : SubstreamWritePart) : Sub :=
  mkSubstream (wr_substream w) (wr_id w) (wr_proto_id w) (wr_context w) (wr_config w) (wr_high_write_buf w)
    (wr_write_buf w) (wr_dead w) true (wr_event_sender w) (wr_event_receiver w) None None None
    ((λ x, SpEvents x.1 x.2) <$> wr_spawned w).

(** A method of the substream does what the method of the write part does. *)
Definition same {A} (c : WM A) (d : SM A) : Prop := ∀ w, d (as_substream w) = (as_substream (c w).1, (c w).2).

Lemma same_bind {A B} (c : WM A) (d : SM A) (k : A → WM B) (l : A → SM B) :
  same c d → (∀ a, same (k a) (l a)) → same (c ≫= k) (d ≫= l).
Proof. intros Hc Hk w. unfold mbind, M_bind. rewrite Hc. destruct (c w) as [w' [a| |]]; cbn; [apply Hk|done..]. Qed.

Lemma same_ret {A} (a : A) : same (mret a) (mret a).
Proof. done. Qed.
Lemma same_panic {A} : same (A := A) panic panic.
Proof. done. Qed.
Lemma same_gets {A} (f : SubstreamWritePart → A) (g : Sub → A) : (∀ w, g (as_substream w) = f w) → same (gets f) (gets g).
Proof. intros H w. unfold gets. by rewrite H. Qed.
Lemma same_modify (f : SubstreamWritePart → SubstreamWritePart) (g : Sub → Sub) :
  (∀ w, g (as_substream w) = as_substream (f w)) → same (modify f) (modify g).
Proof. intros H w. unfold modify. by rewrite H. Qed.
Lemma same_or_panic {A} (o : option A) : same (or_panic o) (or_panic o).
Proof. by destruct o. Qed.
Lemma same_catch {A} (c : WM A) (d : SM A) : same c d → same (catch c) (catch d).
Proof. intros H w. unfold catch. rewrite H. by destruct (c w) as [w' []]. Qed.

(** What a substream without handlers reads is known. *)
Lemma same_read {A B} (g : Sub → A) (a : A) (c : WM B) (l : A → SM B) :
  (∀ w, g (as_substream w) = a) → same c (l a) → same c (gets g ≫= l).
Proof. intros Hg Hc w. unfold mbind, M_bind, gets. rewrite Hg. apply Hc. Qed.

Lemma same_skip {A} (c : WM A) (d : SM A) : same c d → same c ((mret tt : SM unit) ≫= λ _, d).
Proof. done. Qed.

Lemma same_on_stream {A} (p : T → T * Poll (ErrorKind + A)) : same (wr_on_stream p) (on_stream p).
Proof. intros w. unfold wr_on_stream, on_stream. cbn. by destruct (p (wr_substream w)) as [t [[]|]]. Qed.

#[local] Hint Resolve same_ret same_panic same_or_panic same_on_stream same_catch : same.
#[local] Hint Extern 2 (same (gets _) (gets _)) => by apply same_gets : same.
#[local] Hint Extern 2 (same (modify _) (modify _)) => by apply same_modify : same.
Ltac same_walk :=
  repeat first
    [ solve [eauto with same]
    | apply same_bind; [|intros]
    | match goal with |- same (match ?x with _ => _ end) (match ?x with _ => _ end) => destruct x end ].

Lemma same_push_front pr frame : same (wr_push_front pr frame) (push_front pr frame).
Proof. destruct pr; by apply same_modify. Qed.
Lemma same_push_back pr frame : same (wr_push_back pr frame) (push_back pr frame).
Proof. destruct pr; by apply same_modify. Qed.
Lemma same_poll_complete : same wr_poll_complete poll_complete.
Proof. unfold wr_poll_complete, poll_complete. same_walk. Qed.
#[local] Hint Resolve same_push_front same_push_back same_poll_complete : same.

Lemma same_send_inner frame pr : same (wr_send_inner frame pr) (send_inner frame pr).
Proof. unfold wr_send_inner, send_inner. same_walk. Qed.
#[local] Hint Resolve same_send_inner : same.

Lemma same_send_high fuel : same (wr_send_high fuel) (send_bufs fuel High).
Proof. induction fuel as [|fuel IH]; cbn [wr_send_high send_bufs]; same_walk. Qed.
Lemma same_send_normal fuel : same (wr_send_normal fuel) (send_bufs fuel Normal).
Proof. induction fuel as [|fuel IH]; cbn [wr_send_normal send_bufs]; same_walk. Qed.
#[local] Hint Resolve same_send_high same_send_normal : same.

Lemma same_send_data : same wr_send_data send_data.
Proof. unfold wr_send_data, send_data. same_walk. Qed.
Lemma same_output : same wr_output output.
Proof. unfold wr_output, output. same_walk. Qed.
#[local] Hint Resolve same_send_data same_output : same.

Lemma same_output_event e : same (wr_output_event e) (output_event e).
Proof. unfold wr_output_event, output_event. same_walk. Qed.
#[local] Hint Resolve same_output_event : same.

Lemma same_flush : same wr_flush flush.
Proof.
  unfold wr_flush, flush. apply same_bind; [auto with same|]. intros _.
  apply (same_read su_service_proto_sender None); [done|]. apply (same_read su_session_proto_sender None); [done|]. cbn [opt_empty negb orb].
  apply same_skip. intros w. unfold mbind, M_bind, gets. cbn.
  destruct (_ || _); [|done]. by apply (same_bind wr_output output (λ _, wr_send_data) (λ _, send_data)); [auto with same|intros; apply same_send_data].
Qed.

Lemma same_handle_event e pr : same (wr_handle_proto_event e pr) (handle_proto_event e pr).
Proof. destruct e; cbn [wr_handle_proto_event handle_proto_event]; same_walk. Qed.
#[local] Hint Resolve same_flush same_handle_event : same.

Lemma same_recv_event : same wr_recv_event recv_event.
Proof. unfold wr_recv_event, recv_event. same_walk. Qed.

Lemma same_close : same wr_close_proto_stream close_proto_stream.
Proof.
  unfold wr_close_proto_stream, close_proto_stream. apply same_bind; [auto with same|]. intros _. apply same_bind; [auto with same|]. intros _.
  apply (same_read su_keep_buffer true); [done|]. apply same_skip. apply same_bind; [auto with same|]. intros cx.
  apply (same_read su_service_proto_sender None); [done|]. apply same_skip.
  apply (same_read su_session_proto_sender None); [done|]. apply same_skip. same_walk.
  apply same_modify. intros w. unfold as_substream, put_spawned. cbn. by rewrite fmap_app.
Qed.
#[local] Hint Resolve same_recv_event same_close : same.

Lemma same_error_close e : same (wr_error_close e) (error_close e).
Proof. unfold wr_error_close, error_close. same_walk. Qed.
#[local] Hint Resolve same_error_close : same.

(** ** One poll *)

Context `{KL : !SocketLaws T ErrorKind} `{SDL : !ShutdownLaws T}.
Context `{BEL : !BoundedSenderLaws ES PE} `{REL : !PriorityReceiverLaws ER PE}.
Context `{BSL : !BoundedSenderLaws SS ServiceProtocolEvent} `{BPL : !BoundedSenderLaws PS SessionProtocolEvent}.

Lemma same_run {A} (c : WM A) (d : SM A) w w' r : same c d → c w = (w', r) → d (as_substream w) = (as_substream w', r).
Proof. intros H E. by rewrite H, E. Qed.

(** What a poll of an open write part moves: the events [tk] of the session, the frames [out]. *)
Lemma wr_poll_moves proceed w : wr_dead w = false → sc_closed (wr_context w) = false →
  is_Some (send_event_size (wr_config w)) →
  let '(w', r) := wr_poll_next proceed w in
  ∃ lost tk out, moved lost tk out [] (as_substream w) (as_substream w') ∧
  (lost = nothing ∨ wr_dead w' = true) ∧ ∃ p, r = ROk p.
Proof.
  intros D C Hs. unfold wr_poll_next. do 2 (unfold mbind at 1, M_bind at 1, gets). rewrite D, C.
  cbn [orb]. unfold mbind at 1, M_bind at 1, catch. pose proof (flush_spec (as_substream w)) as HF.
  rewrite (same_flush w) in HF. destruct (wr_flush w) as [w1 r1]. cbn [fst snd] in HF.
  destruct HF as (lost & out & M1 & _ & _ & HR). destruct r1 as [[]|e|]; [|clear HR|done].
  - subst lost. destruct (negb proceed); [by exists nothing, [], out; split_and!; eauto|].
    unfold mbind, M_bind. pose proof (recv_event_spec (as_substream w1)) as HE.
    replace (su_config (as_substream w1)) with (wr_config w) in HE by (symmetry; apply M1). specialize (HE Hs).
    rewrite (same_recv_event w1) in HE. destruct (wr_recv_event w1) as [w2 r2]. cbn [fst snd] in HE.
    destruct HE as (lost & tk & out' & M2 & L2 & _ & _ & [p ->]).
    exists lost, tk, (out ++ out'). pose proof (moved_trans _ _ _ _ _ _ _ _ _ _ M1 M2) as M. cbn in M.
    split_and!; [exact M|exact L2|]. eauto.
  - unfold mbind, M_bind. destruct (quietly_error_close e (as_substream w1)) as [Q [[] E2]].
    destruct (error_close_kept e (as_substream w1)) as [_ D2]. rewrite (same_error_close e w1) in Q, E2, D2.
    destruct (wr_error_close e w1) as [w2 r2]. cbn [fst snd] in *. subst r2.
    exists lost, [], out. split_and!; [by eapply moved_quiet|by right|]. eauto.
Qed.

(** A poll of a write part that is dead, or whose session closed, returns. *)
Lemma wr_poll_ends proceed w : wr_dead w || sc_closed (wr_context w) = true →
  (wr_poll_next proceed w).2 = ROk (Ready None).
Proof.
  intros H. unfold wr_poll_next. do 2 (unfold mbind at 1, M_bind at 1, gets). rewrite H. unfold mbind, M_bind.
  destruct (quietly_close (as_substream w)) as [_ [[] E]]. rewrite (same_close w) in E.
  destruct (wr_close_proto_stream w) as [w1 r1]. cbn in E. by subst r1.
Qed.

End WritePart.

(** ** Runs *)

Section Runs.
Context {T F ES ER : Type}.
Abbreviation PE := (ProtocolEvent F) (only parsing).
Abbreviation WP := (@SubstreamWritePart T F ES ER) (only parsing).
Context `{KL : SocketLaws T ErrorKind} `{SDL : !ShutdownLaws T (SD := SD)}.
Context `{BEL : BoundedSenderLaws ES PE} `{REL : PriorityReceiverLaws ER PE}.

Definition wr_bufs (pr : Priority) (w : WP) : list bytes :=
  match pr with High => wr_high_write_buf w | Normal => wr_write_buf w end.

(** Everything at a priority that the session sent and that is not yet handed to the stream. *)
Definition wr_waiting (pr : Priority) (w : WP) : list bytes :=
  wr_bufs pr w ++ messages (pr_queue pr (wr_event_receiver w)).

(** Between two polls the session sends the events [ar]; the context and the channel to the
    session change, and the stream below, but for what was sent on it. *)
Record wr_arrives (ar : list (Priority * PE)) (w w' : WP) : Prop := {
  wa_queue : ∀ pr, pr_queue pr (wr_event_receiver w') = pr_queue pr (wr_event_receiver w) ++ sel pr ar;
  wa_sent : sk_sent (wr_substream w') = sk_sent (wr_substream w);
  wa_bufs : ∀ pr, wr_bufs pr w' = wr_bufs pr w;
  wa_dead : wr_dead w' = wr_dead w;
  wa_config : wr_config w' = wr_config w;
}.

(** The write part is polled until it is found dead or its session closed. *)
Inductive wr_run (w0 : WP) : list (Priority * PE) → WP → Prop :=
| wr_run_start : wr_run w0 [] w0
| wr_run_arrives ar ar' w w' : wr_run w0 ar w → wr_arrives ar' w w' → wr_run w0 (ar ++ ar') w'
| wr_run_poll ar w proceed : wr_run w0 ar w → wr_dead w = false → sc_closed (wr_context w) = false →
    wr_run w0 ar (wr_poll_next proceed w).1.

Definition wr_progress (ar : list (Priority * PE)) (w0 w : WP) : Prop :=
  wr_config w = wr_config w0 ∧
  ∃ out lost, sk_sent (wr_substream w) = sk_sent (wr_substream w0) ++ (snd <$> out) ∧
    (∀ pr, sel pr out ++ lost pr ++ wr_waiting pr w = wr_waiting pr w0 ++ messages (sel pr ar)) ∧
    (wr_dead w = false → lost = nothing).

(** The substream whose methods a write part repeats; no handler ever gets anything. *)
Abbreviation sub := (as_substream (SS := SlotSender ServiceProtocolEvent) (PS := SlotSender SessionProtocolEvent)).

Lemma wr_progress_poll ar proceed w0 w : is_Some (send_event_size (wr_config w0)) →
  wr_progress ar w0 w → wr_dead w = false → sc_closed (wr_context w) = false →
  wr_progress ar w0 (wr_poll_next proceed w).1.
Proof.
  intros Hs [HC (out & lost & O1 & O2 & O3)] D C. rewrite (O3 D) in O2. rewrite <- HC in Hs.
  pose proof (wr_poll_moves (SS := SlotSender ServiceProtocolEvent) (PS := SlotSender SessionProtocolEvent)
    proceed w D C Hs) as P.
  destruct (wr_poll_next proceed w) as [w' r]. cbn [fst].
  destruct P as (lost' & tk & out' & [] & L & _). split; [rewrite <- HC; apply m_statics|].
  exists (out ++ out'), lost'. split_and!.
  - rewrite fmap_app, app_assoc, <- O1. apply m_sent.
  - intros pr. specialize (O2 pr). unfold wr_waiting in *. cbn in O2. rewrite <- O2, select_app, <- !app_assoc. f_equal.
    specialize (m_queue pr). specialize (m_flow pr). unfold queue in m_queue. cbn in m_queue.
    change (write_bufs pr (sub w)) with (wr_bufs pr w) in m_flow. change (write_bufs pr (sub w')) with (wr_bufs pr w') in m_flow.
    rewrite m_queue, messages_app, !app_assoc, <- m_flow, <- !app_assoc. done.
  - intros D'. destruct L as [L|L]; [done|congruence].
Qed.

Lemma wr_run_progress ar w0 w : is_Some (send_event_size (wr_config w0)) → wr_run w0 ar w → wr_progress ar w0 w.
Proof.
  intros Hs. induction 1 as [|ar ar' w w' _ [IC (out & lost & O1 & O2 & O3)] []|ar w proceed _ IH D C].
  - split; [done|]. exists [], nothing. split_and!; [by rewrite app_nil_r|intros pr; cbn; by rewrite app_nil_r|done].
  - split; [congruence|]. exists out, lost. rewrite wa_sent0, wa_dead0. split_and!; auto. intros pr.
    unfold wr_waiting in *. specialize (O2 pr).
    rewrite wa_bufs0, wa_queue0, select_app, !messages_app, !app_assoc in *. by rewrite O2.
  - by apply wr_progress_poll.
Qed.

(** C39: what the write part of a split stream hands to its stream is, at each priority, what the
    session sent to it, in order: in every run the frames handed over, followed by those still
    buffered and queued, are the messages sent. Only a write part that is dead has dropped any;
    and whatever its state, the next poll returns without a panic. The stream may wait and fail at
    every call. *)
Theorem write_part_sends_in_order ar (w0 w : WP) : is_Some (send_event_size (wr_config w0)) → wr_run w0 ar w →
  (∃ out lost, sk_sent (wr_substream w) = sk_sent (wr_substream w0) ++ (snd <$> out) ∧
     (∀ pr, sel pr out ++ lost pr ++ wr_waiting pr w = wr_waiting pr w0 ++ messages (sel pr ar)) ∧
     (wr_dead w = false → lost = nothing)) ∧
  ∀ proceed, ∃ p, (wr_poll_next proceed w).2 = ROk p.
Proof.
  intros Hs HR. destruct (wr_run_progress ar w0 w Hs HR) as [HC HP]. split; [exact HP|]. intros proceed.
  destruct (wr_dead w || sc_closed (wr_context w)) eqn:E.
  - exists (Ready None). by apply (wr_poll_ends (SS := SlotSender ServiceProtocolEvent) (PS := SlotSender SessionProtocolEvent)).
  - apply orb_false_iff in E as [D C]. rewrite <- HC in Hs.
    pose proof (wr_poll_moves (SS := SlotSender ServiceProtocolEvent) (PS := SlotSender SessionProtocolEvent)
      proceed w D C Hs) as P.
    destruct (wr_poll_next proceed w) as [w' r]. by destruct P as (_ & _ & _ & _ & _ & P).
Qed.

End Runs.

(** Two messages of different priorities: the high one is handed over first. *)
Definition demo_part (high normal : list (ProtocolEvent unit)) :
    @SubstreamWritePart TestPipe unit (SlotSender (ProtocolEvent unit)) (TwoQueues (ProtocolEvent unit)) :=
  wr_build 0 7 demo_context SessionConfig_default (mkSlotSender [] 2 false) (mkTwoQueues high normal false)
    (mkTestPipe [] [] None None).
Definition demo_part_polled := (wr_poll_next true (wr_poll_next true (demo_part [PeMessage demo_b] [PeMessage demo_a])).1).1.

Lemma write_part_sends_in_order_witness :
  sk_sent (wr_substream demo_part_polled) = [demo_b; demo_a] ∧
  ∃ out lost, sk_sent (wr_substream demo_part_polled) = [] ++ (snd <$> out) ∧
    (∀ pr, sel pr out ++ lost pr ++ wr_waiting pr demo_part_polled = [] ++ messages (sel pr demo_arrivals)) ∧
    (wr_dead demo_part_polled = false → lost = nothing).
Proof.
  split; [by vm_compute|].
  destruct (write_part_sends_in_order demo_arrivals (demo_part [] []) demo_part_polled) as [(out & lost & H1 & H2 & H3) _].
  - eexists. reflexivity.
  - unfold demo_part_polled. apply wr_run_poll; [apply wr_run_poll|reflexivity..]; [|reflexivity|reflexivity].
    apply (wr_run_arrives _ [] demo_arrivals (demo_part [] [])); [constructor|]. split; try done; by intros [].
  - exists out, lost. split; [exact H1|]. split; [|exact H3]. intros pr. rewrite (H2 pr). by destruct pr.
Defined.
