(* ===== verification/Session.v ===== *)
(** * Sessions ([tentacle/tentacle/src/session.rs])

    A [Session] runs over one connection: it opens the streams of the protocols, keeps a priority
    buffer in front of each, routes the messages of the service to them, and reports to the
    service what happens. Spawned tasks are recorded in [se_tasks] in the order they are spawned;
    the session context is the shared one, as it stands when the session is polled. A hash map
    that is iterated with an order that matters takes that order as an argument. *)

From Stdlib Require Import ZArith Lia Bool.
From stdpp Require Import base list gmap.
From S2P Require Import Prelude Channels PriorityChannel Messages Multiaddr Buffers Wire Select Tentacle Substream.

Open Scope Z_scope.

(** ** Data *)

Inductive SessionState := RemoteClose | LocalClose | NormalState | Abnormal.

#[export] Instance SessionState_eq_dec : EqDecision SessionState.
Proof. solve_decision. Defined.

Definition is_local_close (s : SessionState) : bool :=
  match s with LocalClose => true | _ => false end.
Definition is_normal (s : SessionState) : bool :=
  match s with NormalState => true | _ => false end.

(** [H] is the handle of a connection, [St] a yamux stream, [Inc] the incoming connections of a
    listener. *)
Inductive SessionEvent (H St Inc : Type) :=
| SessionClose (id : Z)
| ListenStart (listen_address : Multiaddr) (incoming : Inc)
| HandshakeSuccess (handle : H) (public_key : option PublicKey) (address : Multiaddr)
    (ty : SessionType) (listen_address : option Multiaddr)
| HandshakeError (address : Multiaddr) (ty : SessionType) (error : HandshakeErrorKind)
| DialError (address : Multiaddr) (error : TransportErrorKind)
| ListenError (address : Multiaddr) (error : TransportErrorKind)
| ProtocolMessage (proto_id : Z) (data : bytes)
| ProtocolOpen (proto_id : Z)
| ProtocolClose (proto_id : Z)
| StreamStart (stream : St)
| ChangeState (id : Z) (state : SessionState) (error : option ErrorKind)
| ProtocolSelectError (id : Z) (proto_name : option bytes)
| SessionTimeout (id : Z)
| ProtocolError (id proto_id : Z) (error : ErrorKind)
| MuxerError (id : Z) (error : ErrorKind)
| ProtocolHandleError (error : ProtocolHandleErrorKind) (proto_id : Z).
Arguments SessionClose {H St Inc}.
Arguments ListenStart {H St Inc}.
Arguments HandshakeSuccess {H St Inc}.
Arguments HandshakeError {H St Inc}.
Arguments DialError {H St Inc}.
Arguments ListenError {H St Inc}.
Arguments ProtocolMessage {H St Inc}.
Arguments ProtocolOpen {H St Inc}.
Arguments ProtocolClose {H St Inc}.
Arguments StreamStart {H St Inc}.
Arguments ChangeState {H St Inc}.
Arguments ProtocolSelectError {H St Inc}.
Arguments SessionTimeout {H St Inc}.
Arguments ProtocolError {H St Inc}.
Arguments MuxerError {H St Inc}.
Arguments ProtocolHandleError {H St Inc}.

(** [Meta]; [select_version] and [before_receive] are the values their factories give, [spawn]
    is whether the protocol has one, and the codec is in [Reframe]. *)
Record Meta := mkMeta {
  m_id : Z;
  m_name : Z → bytes;
  m_support_versions : list bytes;
  m_select_version : option SelectFn;
  m_before_receive : option (bytes → ErrorKind + bytes);
  m_spawn : bool;
}.

(** ** What the session uses of the runtime and the libraries *)

(** [priority_mpsc::channel]: the two ends of a new, empty channel. *)
Class NewChannel (Q QR : Type) := new_channel : Z → Q * QR.

(** [Receiver::close] of [futures::channel::mpsc]: what is queued can still be received. *)
Class CloseReceiver (R : Type) := rc_close : R → R.

Class CloseReceiverLaws (R A : Type) `{RC : Receiver R A} `{CR : CloseReceiver R} : Prop := {
  rc_close_queue : ∀ r : R, recv_queue (rc_close r) = recv_queue r;
}.

(** The selected stream with the codec of the protocol, with what was buffered kept, as a whole
    or as a half for reading and one for writing. *)
Class Reframe (F T : Type) := {
  rf_frame : Meta → F → T;
  rf_split : Meta → F → T * T;
}.

(** [JoinHandle] of the runtime. *)
Class JoinHandle (J : Type) := jh_poll : J → J * Poll unit.

#[export] Instance QueueReceiver_close A : CloseReceiver (QueueReceiver A) :=
  λ r, mkQueueReceiver (qr_queue r) true (qr_terminated r).
#[export] Instance QueueReceiver_close_laws A : CloseReceiverLaws (QueueReceiver A) A.
Proof. by split. Qed.

(** The result of a selection, [None] after the timeout, as an event for the session. *)
Definition select_event {F} (r : option (ErrorKind + (F * bytes * option bytes))) : ProtocolEvent F :=
  match r with
  | Some (inr (handle, name, Some version)) => PeOpen name handle version
  | Some (inr (_, name, None)) => PeSelectError (Some name)
  | Some (inl _) | None => PeSelectError None
  end.

Section Session.
Context {T F Hd St Inc ES ER Q QR SS PS VS VR J : Type}.
Abbreviation PE := (ProtocolEvent F) (only parsing).
Abbreviation SE := (SessionEvent Hd St Inc) (only parsing).
Context `{NC : NewChannel Q QR} `{RFr : Reframe F T} `{JH : JoinHandle J}.
Context `{PQ : PrioritySender Q PE} `{RC : Receiver ER PE} `{CR : CloseReceiver ER}.
Context `{BV : BoundedSender VS SE} `{RV : PriorityReceiver VR SE}.

(** The spawned tasks. [TkOpenSelect] asks the yamux control for a stream and runs
    [client_select] on it, [TkServerSelect] runs [server_select]; both end in [select_event], sent
    to the session. *)
Inductive SessionTask :=
| TkTimeoutCheck
| TkInnerSocket (id : Z)
| TkOpenSelect (info : ProtocolInfo)
| TkServerSelect (stream : St) (infos : gmap bytes (ProtocolInfo * option SelectFn))
| TkSubstream (substream : @Substream T F ES QR SS PS)
| TkWritePart (part : @Substream T F ES QR SS PS)
| TkUserSpawn (context : SessionContext) (part : @SubstreamReadPart T Q)
| TkSendService (sender : VS) (events : list SE)
| TkControlClose.

Record Session := mkSession {
  se_protocol_configs_by_name : gmap bytes Meta;
  se_protocol_configs_by_id : gmap Z Meta;
  se_config : SessionConfig;
  se_keep_buffer : bool;
  se_state : SessionState;
  se_context : SessionContext;
  se_next_stream : Z;
  se_substreams : gmap Z (@PriorityBuffer Q PE);
  se_proto_streams : gmap Z Z;
  se_proto_event_sender : ES;
  se_proto_event_receiver : ER;
  se_service_sender : @Buffer VS SE;
  se_service_receiver : VR;
  se_service_proto_senders : gmap Z (@Buffer SS ServiceProtocolEvent);
  se_session_proto_senders : gmap Z (@Buffer PS SessionProtocolEvent);
  se_wait_handle : list (bool * J);
  se_tasks : list SessionTask;
}.
Definition se_put_state (v : SessionState) (s : Session) : Session :=
  mkSession (se_protocol_configs_by_name s) (se_protocol_configs_by_id s) (se_config s)
    (se_keep_buffer s) v (se_context s) (se_next_stream s) (se_substreams s) (se_proto_streams s)
    (se_proto_event_sender s) (se_proto_event_receiver s) (se_service_sender s)
    (se_service_receiver s) (se_service_proto_senders s) (se_session_proto_senders s)
    (se_wait_handle s) (se_tasks s).
Definition se_put_context (v : SessionContext) (s : Session) : Session :=
  mkSession (se_protocol_configs_by_name s) (se_protocol_configs_by_id s) (se_config s)
    (se_keep_buffer s) (se_state s) v (se_next_stream s) (se_substreams s) (se_proto_streams s)
    (se_proto_event_sender s) (se_proto_event_receiver s) (se_service_sender s)
    (se_service_receiver s) (se_service_proto_senders s) (se_session_proto_senders s)
    (se_wait_handle s) (se_tasks s).
Definition se_put_next_stream (v : Z) (s : Session) : Session :=
  mkSession (se_protocol_configs_by_name s) (se_protocol_configs_by_id s) (se_config s)
    (se_keep_buffer s) (se_state s) (se_context s) v (se_substreams s) (se_proto_streams s)
    (se_proto_event_sender s) (se_proto_event_receiver s) (se_service_sender s)
    (se_service_receiver s) (se_service_proto_senders s) (se_session_proto_senders s)
    (se_wait_handle s) (se_tasks s).
Definition se_put_substreams (v : gmap Z (@PriorityBuffer Q PE)) (s : Session) : Session :=
  mkSession (se_protocol_configs_by_name s) (se_protocol_configs_by_id s) (se_config s)
    (se_keep_buffer s) (se_state s) (se_context s) (se_next_stream s) v (se_proto_streams s)
    (se_proto_event_sender s) (se_proto_event_receiver s) (se_service_sender s)
    (se_service_receiver s) (se_service_proto_senders s) (se_session_proto_senders s)
    (se_wait_handle s) (se_tasks s).
Definition se_put_proto_streams (v : gmap Z Z) (s : Session) : Session :=
  mkSession (se_protocol_configs_by_name s) (se_protocol_configs_by_id s) (se_config s)
    (se_keep_buffer s) (se_state s) (se_context s) (se_next_stream s) (se_substreams s) v
    (se_proto_event_sender s) (se_proto_event_receiver s) (se_service_sender s)
    (se_service_receiver s) (se_service_proto_senders s) (se_session_proto_senders s)
    (se_wait_handle s) (se_tasks s).
Definition se_put_proto_event_receiver (v : ER) (s : Session) : Session :=
  mkSession (se_protocol_configs_by_name s) (se_protocol_configs_by_id s) (se_config s)
    (se_keep_buffer s) (se_state s) (se_context s) (se_next_stream s) (se_substreams s)
    (se_proto_streams s) (se_proto_event_sender s) v (se_service_sender s) (se_service_receiver s)
    (se_service_proto_senders s) (se_session_proto_senders s) (se_wait_handle s) (se_tasks s).
Definition se_put_service_sender (v : @Buffer VS SE) (s : Session) : Session :=
  mkSession (se_protocol_configs_by_name s) (se_protocol_configs_by_id s) (se_config s)
    (se_keep_buffer s) (se_state s) (se_context s) (se_next_stream s) (se_substreams s)
    (se_proto_streams s) (se_proto_event_sender s) (se_proto_event_receiver s) v
    (se_service_receiver s) (se_service_proto_senders s) (se_session_proto_senders s)
    (se_wait_handle s) (se_tasks s).
Definition se_put_service_receiver (v : VR) (s : Session) : Session :=
  mkSession (se_protocol_configs_by_name s) (se_protocol_configs_by_id s) (se_config s)
    (se_keep_buffer s) (se_state s) (se_context s) (se_next_stream s) (se_substreams s)
    (se_proto_streams s) (se_proto_event_sender s) (se_proto_event_receiver s)
    (se_service_sender s) v (se_service_proto_senders s) (se_session_proto_senders s)
    (se_wait_handle s) (se_tasks s).
Definition se_put_wait_handle (v : list (bool * J)) (s : Session) : Session :=
  mkSession (se_protocol_configs_by_name s) (se_protocol_configs_by_id s) (se_config s)
    (se_keep_buffer s) (se_state s) (se_context s) (se_next_stream s) (se_substreams s)
    (se_proto_streams s) (se_proto_event_sender s) (se_proto_event_receiver s)
    (se_service_sender s) (se_service_receiver s) (se_service_proto_senders s)
    (se_session_proto_senders s) v (se_tasks s).
Definition se_put_tasks (v : list SessionTask) (s : Session) : Session :=
  mkSession (se_protocol_configs_by_name s) (se_protocol_configs_by_id s) (se_config s)
    (se_keep_buffer s) (se_state s) (se_context s) (se_next_stream s) (se_substreams s)
    (se_proto_streams s) (se_proto_event_sender s) (se_proto_event_receiver s)
    (se_service_sender s) (se_service_receiver s) (se_service_proto_senders s)
    (se_session_proto_senders s) (se_wait_handle s) v.
Abbreviation SM := (M Session Empty_set) (only parsing).

Definition spawn (t : SessionTask) : SM unit := modify (λ s, se_put_tasks (se_tasks s ++ [t]) s).

(** [Session::new] from a [SessionMeta]. *)
Definition Session_new (service_sender : VS) (service_receiver : VR)
    (by_name : gmap bytes Meta) (by_id : gmap Z Meta) (config : SessionConfig) (keep_buffer : bool)
    (context : SessionContext) (proto_event_sender : ES) (proto_event_receiver : ER)
    (service_proto_senders : gmap Z (@Buffer SS ServiceProtocolEvent))
    (session_proto_senders : gmap Z (@Buffer PS SessionProtocolEvent))
    (session_proto_handles : list (bool * J)) : Session :=
  mkSession by_name by_id config keep_buffer NormalState context 0 ∅ ∅ proto_event_sender
    proto_event_receiver (Buffer_new service_sender) service_receiver service_proto_senders
    session_proto_senders session_proto_handles [TkTimeoutCheck; TkInnerSocket (sc_id context)].

(** Indexing with an unknown name panics. *)
Definition open_proto_stream (proto_name : bytes) : SM unit :=
  by_name ← gets se_protocol_configs_by_name;
  meta ← or_panic (by_name !! proto_name);
  spawn (TkOpenSelect (mkProtocolInfo proto_name (m_support_versions meta))).

(** ** Events to the service *)

Definition se_output : SM unit :=
  b ← gets se_service_sender;
  let '(b', r) := Buffer_try_send b in
  modify (se_put_service_sender b') ;;
  match r with
  | SrDisconnect =>
      modify (λ s, se_put_service_sender (Buffer_clear (se_service_sender s)) s) ;;
      modify (se_put_state Abnormal)
  | _ => mret tt
  end.

Definition event_output (event : SE) : SM unit :=
  modify (λ s, se_put_service_sender (push event (se_service_sender s)) s) ;; se_output.

(** ** Substreams *)

(** Over the buffers in the order [ord]; the loop ends at the first that is pending. *)
Fixpoint distribute_loop (ord : list Z) : SM unit :=
  match ord with
  | [] => mret tt
  | id :: rest =>
      substreams ← gets se_substreams;
      match substreams !! id with
      | None => distribute_loop rest
      | Some buffer =>
          if pb_is_empty buffer then distribute_loop rest else
          let '(buffer', r) := PriorityBuffer_try_send buffer in
          modify (se_put_substreams (<[id := buffer']> substreams)) ;;
          match r with
          | SrPending =>
              cx ← gets se_context;
              cfg ← gets se_config;
              if send_buffer_size cfg <? sc_pending_data_size cx then
                modify (se_put_state Abnormal) ;;
                modify (se_put_substreams (<[id := pb_clear buffer']> substreams)) ;;
                event_output (ChangeState (sc_id cx) Abnormal None)
              else mret tt
          | _ => distribute_loop rest
          end
      end
  end.

Definition distribute_to_substream (ord : list Z) : SM unit := distribute_loop ord.

Definition proto_metas (by_name : gmap bytes Meta) : gmap bytes (ProtocolInfo * option SelectFn) :=
  list_to_map ((λ proto_meta : Meta,
      let name := m_name proto_meta (m_id proto_meta) in
      (name, (mkProtocolInfo name (m_support_versions proto_meta), m_select_version proto_meta)))
    <$> (map_to_list by_name).*2).

Definition handle_substream (substream : St) : SM unit :=
  by_name ← gets se_protocol_configs_by_name;
  spawn (TkServerSelect substream (proto_metas by_name)).

(** The rest of [open_protocol] for a protocol that is not open. *)
Definition start_protocol (proto : Meta) (version : bytes) (substream : F) : SM unit :=
  s ← gets id;
  let proto_id := m_id proto in
  let '(to_proto_sender, to_proto_receiver) := new_channel (channel_size (se_config s)) in
  let next := se_next_stream s in
  modify (se_put_substreams (<[next := PriorityBuffer_new to_proto_sender]> (se_substreams s))) ;;
  modify (se_put_proto_streams (<[proto_id := next]> (se_proto_streams s))) ;;
  (if m_spawn proto then
     let '(read, write) := rf_split proto substream in
     spawn (TkWritePart (WritePart_build next proto_id (se_context s) (se_config s)
       (se_proto_event_sender s) to_proto_receiver write)) ;;
     spawn (TkUserSpawn (se_context s)
       (mkReadPart Q read (m_before_receive proto) proto_id next version to_proto_sender))
   else
     let proto_stream := Substream_build next proto_id (se_context s) (se_config s)
       (se_keep_buffer s) (se_proto_event_sender s) to_proto_receiver
       (se_service_proto_senders s !! proto_id) (se_session_proto_senders s !! proto_id)
       (m_before_receive proto) (rf_frame proto substream) in
     spawn (TkSubstream (proto_open version proto_stream).1)) ;;
  next' ← or_panic (checked_add 64 next 1);
  modify (se_put_next_stream next').

Definition open_protocol (name version : bytes) (substream : F) : SM unit :=
  s ← gets id;
  match se_protocol_configs_by_name s !! name with
  | None =>
      modify (se_put_state Abnormal) ;;
      event_output (ProtocolSelectError (sc_id (se_context s)) None)
  | Some proto =>
      match se_proto_streams s !! m_id proto with
      | Some _ => mret tt
      | None => start_protocol proto version substream
      end
  end.

Definition handle_stream_event (event : PE) : SM unit :=
  cx ← gets se_context;
  substreams ← gets se_substreams;
  match event with
  | PeOpen proto_name substream version => open_protocol proto_name version substream
  | PeClose id proto_id =>
      match substreams !! id with
      | Some _ =>
          modify (se_put_substreams (delete id substreams)) ;;
          modify (λ s, se_put_proto_streams (delete proto_id (se_proto_streams s)) s)
      | None => mret tt
      end
  | PeMessage _ => panic
  | PeSelectError proto_name => event_output (ProtocolSelectError (sc_id cx) proto_name)
  | PeError proto_id error => event_output (ProtocolError (sc_id cx) proto_id error)
  | PeTimeoutCheck =>
      if decide (substreams = ∅) then
        event_output (SessionTimeout (sc_id cx)) ;; modify (se_put_state LocalClose)
      else mret tt
  end.

(** ** Closing *)

Definition clean : SM unit :=
  modify (se_put_substreams ∅) ;;
  modify (λ s, se_put_service_receiver (pr_close (se_service_receiver s)) s) ;;
  modify (λ s, se_put_proto_event_receiver (rc_close (se_proto_event_receiver s)) s) ;;
  spawn TkControlClose.

Definition close_session : SM unit :=
  modify (λ s, se_put_context (put_closed true (se_context s)) s) ;;
  b ← gets se_service_sender;
  cx ← gets se_context;
  let '(b', (sender, events)) := Buffer_take b in
  modify (se_put_service_sender b') ;;
  spawn (TkSendService sender (events ++ [SessionClose (sc_id cx)])) ;;
  clean.

(** [push_high] of an event and [try_send], whose result is ignored. *)
Definition push_close (event : PE) (buffer : @PriorityBuffer Q PE) : @PriorityBuffer Q PE :=
  (PriorityBuffer_try_send (push_high event buffer)).1.

Definition close_all_proto : SM unit :=
  cx ← gets se_context;
  if sc_closed cx then close_session else
  modify (λ s, se_put_substreams
    (map_imap (λ pid buffer, Some (push_close (PeClose pid 0) buffer)) (se_substreams s)) s) ;;
  modify (λ s, se_put_context (put_closed true (se_context s)) s).

(** ** Events from the service *)

Definition push_priority (pr : Priority) (event : PE) (buffer : @PriorityBuffer Q PE)
    : @PriorityBuffer Q PE :=
  match pr with High => push_high event buffer | Normal => push_normal event buffer end.

(** Runs [f] on the buffer of a protocol, when it is open. *)
Definition on_buffer (proto_id : Z) (f : Z → @PriorityBuffer Q PE → @PriorityBuffer Q PE) : SM unit :=
  s ← gets id;
  match se_proto_streams s !! proto_id with
  | Some stream_id =>
      match se_substreams s !! stream_id with
      | Some buffer => modify (se_put_substreams (<[stream_id := f stream_id buffer]> (se_substreams s)))
      | None => mret tt
      end
  | None => mret tt
  end.

Definition se_handle_session_event (event : SE) (pr : Priority) : SM unit :=
  s ← gets id;
  match event with
  | ProtocolMessage proto_id data =>
      on_buffer proto_id (λ _ buffer,
        (PriorityBuffer_try_send (push_priority pr (PeMessage data) buffer)).1)
  | SessionClose _ =>
      if decide (se_substreams s = ∅) then close_session else
      modify (se_put_state LocalClose) ;; close_all_proto
  | ProtocolOpen proto_id =>
      match se_proto_streams s !! proto_id with
      | Some _ => mret tt
      | None =>
          match se_protocol_configs_by_id s !! proto_id with
          | Some meta => open_proto_stream (m_name meta (m_id meta))
          | None => mret tt
          end
      end
  | ProtocolClose proto_id =>
      on_buffer proto_id (λ stream_id buffer, push_close (PeClose stream_id proto_id) buffer)
  | StreamStart stream => handle_substream stream
  | ChangeState id state error =>
      if decide (se_state s = NormalState) then
        modify (se_put_state state) ;;
        match error with
        | Some err =>
            (if se_keep_buffer s then mret tt
             else modify (λ s, se_put_service_sender (Buffer_clear (se_service_sender s)) s)) ;;
            event_output (MuxerError id err)
        | None => mret tt
        end
      else mret tt
  | _ => mret tt
  end.

(** ** Polling *)

Definition recv_substreams : SM (Poll (option unit)) :=
  r ← gets se_proto_event_receiver;
  let '(r', p) := recv_poll_next r in
  modify (se_put_proto_event_receiver r') ;;
  match p with
  | Ready (Some event) =>
      state ← gets se_state;
      if is_local_close state then mret (Ready None)
      else handle_stream_event event ;; mret (Ready (Some tt))
  | Ready None => modify (se_put_state LocalClose) ;; mret (Ready None)
  | Pending => mret Pending
  end.

Definition recv_service : SM (Poll (option unit)) :=
  r ← gets se_service_receiver;
  let '(r', p) := pr_poll_next r in
  modify (se_put_service_receiver r') ;;
  match p with
  | Ready (Some (pr, event)) =>
      state ← gets se_state;
      if negb (is_normal state) then mret (Ready None)
      else se_handle_session_event event pr ;; mret (Ready (Some tt))
  | Ready None => modify (se_put_state LocalClose) ;; clean ;; mret (Ready None)
  | Pending => mret Pending
  end.

(** Signals every handle that still has a sender, and polls each once. *)
Definition wait_handle_poll : SM (Poll (option unit)) :=
  handles ← gets se_wait_handle;
  let waiting := omap (λ '(_, handle),
    match jh_poll handle with
    | (handle', Pending) => Some (false, handle')
    | (_, Ready _) => None
    end) handles in
  modify (se_put_wait_handle waiting) ;;
  mret (if is_empty waiting then Ready None else Pending).

Definition se_flush (ord : list Z) : SM unit :=
  distribute_to_substream ord ;;
  b ← gets se_service_sender;
  if is_empty (b_buffer b) then mret tt else se_output.

(** The end of [poll_next]. *)
Definition check_state (pending : bool) : SM (Poll (option unit)) :=
  let default := if pending then Pending else Ready (Some tt) in
  s ← gets id;
  match se_state s with
  | LocalClose | Abnormal =>
      modify (se_put_proto_streams ∅) ;; close_session ;; wait_handle_poll
  | RemoteClose =>
      if decide (se_proto_streams s = ∅) then close_session ;; wait_handle_poll
      else close_all_proto ;; mret default
  | NormalState => mret default
  end.

(** [Stream::poll_next]; [proceed] is the answer of [runtime::poll_proceed], [ord] the order in
    which the substreams are iterated. *)
Definition session_poll_next (ord : list Z) (proceed : bool) : SM (Poll (option unit)) :=
  state ← gets se_state;
  if is_local_close state then mret (Ready None) else
  se_flush ord ;;
  if negb proceed then mret Pending else
  p1 ← recv_substreams;
  p2 ← recv_service;
  check_state (is_pending p1 && is_pending p2).

End Session.

(** ** The socket of the session

    What the task that polls the yamux session sends to the session, and whether it goes on. *)
Definition inner_socket_event {Hd St Inc} (id : Z) (p : option (ErrorKind + St))
    : SessionEvent Hd St Inc * bool :=
  match p with
  | Some (inr stream) => (StreamStart stream, true)
  | None => (ChangeState id RemoteClose None, false)
  | Some (inl err) =>
      (if is_connection_error err then ChangeState id RemoteClose None
       else ChangeState id Abnormal (Some err), false)
  end.
