(* ===== verification/SessionProofs.v ===== *)
(** * Properties of sessions

    The two maps of a session stay consistent and a poll never panics, messages reach the stream
    of their protocol in order, and how a session ends. *)

From Stdlib Require Import ZArith Lia Bool.
From Stdlib Require Import Strings.String.
From stdpp Require Import base list gmap relations.
From S2P Require Import Prelude Text Channels PriorityChannel Messages Multiaddr Buffers Wire Select Tentacle Substream SubstreamProofs Session.

Open Scope Z_scope.

Section Proofs.
Context {T F Hd St Inc ES ER Q QR SS PS VS VR J : Type}.
Context `{NC : NewChannel Q QR} `{RFr : Reframe F T} `{JH : JoinHandle J}.
Context `{PQL : PrioritySenderLaws Q (ProtocolEvent F)} `{RCL : ReceiverLaws ER (ProtocolEvent F)}.
Context `{CRL : !CloseReceiverLaws ER (ProtocolEvent F) (CR := CR)}.
Context `{BVL : BoundedSenderLaws VS (SessionEvent Hd St Inc)}.
Context `{RVL : PriorityReceiverLaws VR (SessionEvent Hd St Inc)}.

Abbreviation SS' := (@Session T F Hd St Inc ES ER Q QR SS PS VS VR J) (only parsing).
Abbreviation SM := (M SS' Empty_set) (only parsing).
Abbreviation PE := (ProtocolEvent F) (only parsing).
Abbreviation SE := (SessionEvent Hd St Inc) (only parsing).

(** ** Views *)

(** The streams that were opened, as recorded by the tasks that run them. *)
Definition task_stream (t : @SessionTask T F Hd St Inc ES Q QR SS PS VS) : option (Z * Z) :=
  match t with
  | TkSubstream sub | TkWritePart sub => Some (su_id sub, su_proto_id sub)
  | _ => None
  end.
Definition opened (s : SS') : list (Z * Z) := omap task_stream (se_tasks s).

(** The report of the end of the session, behind the events that were buffered. *)
Definition reported (s : SS') : Prop :=
  ∃ sender events, TkSendService sender (events ++ [SessionClose (sc_id (se_context s))]) ∈ se_tasks s.

(** What substreams and selections send to the session. *)
Definition event_ok (o : list (Z * Z)) (e : PE) : Prop :=
  match e with
  | PeMessage _ => False
  | PeClose i p => (i, p) ∈ o
  | _ => True
  end.

(** ** The invariant *)

Record based (s : SS') : Prop := {
  co_names : ∀ p m, se_protocol_configs_by_id s !! p = Some m →
    is_Some (se_protocol_configs_by_name s !! m_name m (m_id m));
  co_next : 0 <= se_next_stream s;
  co_fresh : ∀ i p, (i, p) ∈ opened s → 0 <= i < se_next_stream s;
  co_unique : ∀ i p q, (i, p) ∈ opened s → (i, q) ∈ opened s → p = q;
  co_proto : ∀ p i, se_proto_streams s !! p = Some i → (i, p) ∈ opened s;
  co_events : ∀ e, e ∈ recv_queue (se_proto_event_receiver s) → event_ok (opened s) e;
}.

Record consistent (s : SS') : Prop := {
  co_based : based s;
  co_stream : ∀ i, is_Some (se_substreams s !! i) → ∃ p, se_proto_streams s !! p = Some i;
  co_live : sc_closed (se_context s) = false → se_state s ≠ LocalClose →
    ∀ p i, se_proto_streams s !! p = Some i → is_Some (se_substreams s !! i);
}.

(** What holds of a session that was closed by its own side. *)
Definition finished (s : SS') : Prop :=
  sc_closed (se_context s) = true ∧ se_substreams s = ∅ ∧ se_proto_streams s = ∅ ∧ reported s.

(** ** Steps that only talk to the service *)

Definition sv_view (s : SS') : list SE :=
  bs_sent (b_sender (se_service_sender s)) ++ b_buffer (se_service_sender s).

(** Everything but the sender to the service and the state is as before. *)
Definition talked (es : list SE) (s s' : SS') : Prop :=
  ∃ b st, s' = se_put_state st (se_put_service_sender b s) ∧
  ((st = se_state s ∧ bs_sent (b_sender b) ++ b_buffer b = sv_view s ++ es) ∨
   (st = Abnormal ∧ b_buffer b = [])).

Lemma se_put_state_id (s : SS') : se_put_state (se_state s) s = s.
Proof. by destruct s. Qed.
Lemma se_put_service_sender_id (s : SS') : se_put_service_sender (se_service_sender s) s = s.
Proof. by destruct s. Qed.

Lemma talked_refl s : talked [] s s.
Proof.
  exists (se_service_sender s), (se_state s). rewrite se_put_service_sender_id, se_put_state_id, app_nil_r.
  split; [done|]. by left.
Qed.

Lemma wp_output_gen (s : SS') : wp se_output (λ _ s', talked [] s s') s.
Proof.
  unfold se_output. wp_steps. pose proof (Buffer_try_send_in_order (se_service_sender s)) as H.
  destruct (Buffer_try_send (se_service_sender s)) as [b' r]. wp_steps. destruct r; wp_steps.
  - exists b', (se_state s). split; [by destruct s|]. left. destruct H as [-> ->]. by rewrite !app_nil_r.
  - exists b', (se_state s). split; [by destruct s|]. left. destruct H as [H _]. by rewrite app_nil_r, H.
  - exists (Buffer_clear b'), Abnormal. split; [done|]. by right.
Qed.

Lemma talked_push es e (s s' : SS') :
  talked es (se_put_service_sender (push e (se_service_sender s)) s) s' → talked (e :: es) s s'.
Proof.
  intros (b & st & -> & H). exists b, st. split; [done|]. destruct H as [[-> H]|H]; [left|by right].
  split; [done|]. rewrite H. unfold sv_view. cbn. by rewrite <- !app_assoc.
Qed.

Lemma wp_event_output e (s : SS') : wp (event_output e) (λ _ s', talked [e] s s') s.
Proof.
  unfold event_output. wp_steps. eapply wp_mono; [apply wp_output_gen|]. cbn. intros _ s' H.
  by apply talked_push.
Qed.

(** ** The invariant and the fields it reads *)

(** What two states have to share for the invariant to pass from one to the other. *)
Lemma based_same (s s' : SS') : based s →
  se_protocol_configs_by_id s' = se_protocol_configs_by_id s →
  se_protocol_configs_by_name s' = se_protocol_configs_by_name s →
  opened s' = opened s → se_next_stream s' = se_next_stream s →
  (se_proto_streams s' = se_proto_streams s ∨ se_proto_streams s' = ∅) →
  (∀ e, e ∈ recv_queue (se_proto_event_receiver s') → e ∈ recv_queue (se_proto_event_receiver s)) →
  based s'.
Proof.
  intros Hs H1 H2 H3 H4 H5 H6. split; rewrite ?H1, ?H2, ?H3, ?H4; try apply Hs.
  - destruct H5 as [-> | ->]; [apply Hs|]. intros p i E. by rewrite lookup_empty in E.
  - intros e He. by apply Hs, H6.
Qed.

(** Closing: whatever the streams were. *)
Lemma consistent_closed (s' : SS') : based s' → se_substreams s' = ∅ →
  (sc_closed (se_context s') = true ∨ se_state s' = LocalClose ∨ se_proto_streams s' = ∅) → consistent s'.
Proof.
  intros Hb He H. split; [done|..].
  - rewrite He. intros i [? E]. by rewrite lookup_empty in E.
  - intros Hc Hs p i E. destruct H as [H|[H|H]]; [congruence..|]. by rewrite H, lookup_empty in E.
Qed.

Lemma consistent_same (s s' : SS') : consistent s → based s' →
  (∀ i, is_Some (se_substreams s' !! i) ↔ is_Some (se_substreams s !! i)) →
  se_proto_streams s' = se_proto_streams s →
  (sc_closed (se_context s') = false → se_state s' ≠ LocalClose →
   sc_closed (se_context s) = false ∧ se_state s ≠ LocalClose) → consistent s'.
Proof.
  intros Hs Hb H1 H2 H3. split; [done|..]; rewrite H2.
  - intros i. rewrite H1. apply Hs.
  - intros Hc Hst p i E. rewrite H1. destruct (H3 Hc Hst). by eapply Hs.
Qed.

Ltac same_tac :=
  match goal with
  | H : consistent ?s |- consistent _ =>
      eapply (consistent_same _ _ H); [apply (based_same s); [apply H|..]|..]
  end; cbn; auto; try done.

Lemma consistent_service b (s : SS') : consistent s → consistent (se_put_service_sender b s).
Proof. intros Hs. same_tac. Qed.

Lemma consistent_state st (s : SS') : consistent s →
  (st = LocalClose ∨ se_state s ≠ LocalClose ∨ sc_closed (se_context s) = true) →
  consistent (se_put_state st s).
Proof. intros Hs H. same_tac. intros. naive_solver congruence. Qed.

Lemma consistent_substreams subs (s : SS') : consistent s →
  (∀ i, is_Some (subs !! i) ↔ is_Some (se_substreams s !! i)) → consistent (se_put_substreams subs s).
Proof. intros Hs H. same_tac. Qed.

Lemma consistent_context c (s : SS') : consistent s →
  (sc_closed (se_context s) = true → sc_closed c = true) → consistent (se_put_context c s).
Proof. intros Hs H. same_tac. intros Hc Hst. split; [|done]. destruct (sc_closed (se_context s)); [|done]. by rewrite H in Hc. Qed.

Lemma consistent_service_receiver r (s : SS') : consistent s → consistent (se_put_service_receiver r s).
Proof. intros Hs. same_tac. Qed.

Lemma consistent_wait h (s : SS') : consistent s → consistent (se_put_wait_handle h s).
Proof. intros Hs. same_tac. Qed.

Lemma consistent_receiver r (s : SS') : consistent s →
  (∀ e, e ∈ recv_queue r → e ∈ recv_queue (se_proto_event_receiver s)) →
  consistent (se_put_proto_event_receiver r s).
Proof. intros Hs H. same_tac. Qed.

Lemma opened_spawn ts (s : SS') : opened (se_put_tasks (se_tasks s ++ ts) s) = opened s ++ omap task_stream ts.
Proof. unfold opened. cbn. apply omap_app. Qed.

Lemma consistent_tasks ts (s : SS') : consistent s → omap task_stream ts = [] →
  consistent (se_put_tasks (se_tasks s ++ ts) s).
Proof. intros Hs H. same_tac. unfold opened. by rewrite <- (app_nil_r (omap _ (se_tasks s))), <- H, <- omap_app. Qed.

Lemma consistent_talked es s s' : talked es s s' → consistent s →
  se_state s ≠ LocalClose → consistent s'.
Proof.
  intros (b & st & -> & _) Hc Hs. apply consistent_state; [by apply consistent_service|]. cbn. auto.
Qed.

(** ** Properties that every update keeps

    The updates a poll makes to the state, apart from the receiver of the service. *)

Record stable (P : SS' → Prop) : Prop := {
  st_service : ∀ b s, P s → P (se_put_service_sender b s);
  st_failed : ∀ st s, P s → st = Abnormal ∨ st = LocalClose ∨ se_state s = NormalState → P (se_put_state st s);
  st_substreams : ∀ m s, P s → P (se_put_substreams m s);
  st_protos : ∀ m s, P s → P (se_put_proto_streams m s);
  st_next : ∀ k s, P s → P (se_put_next_stream k s);
  st_tasks : ∀ ts s, P s → P (se_put_tasks (se_tasks s ++ ts) s);
  st_receiver : ∀ r s, P s → P (se_put_proto_event_receiver r s);
  st_closed : ∀ s, P s → P (se_put_context (put_closed true (se_context s)) s);
  st_wait : ∀ h s, P s → P (se_put_wait_handle h s);
}.

Section Frame.
Context (P : SS' → Prop) (HP : stable P).

#[local] Hint Extern 2 (keeps _ (modify _)) => apply keeps_modify; intros ? ?;
  first [by apply HP|apply HP; auto] : keeps.

Lemma keeps_output : keeps P (se_output : SM unit).
Proof. unfold se_output. keeps_walk. Qed.
#[local] Hint Resolve keeps_output : keeps.

Lemma keeps_event_output e : keeps P (event_output e : SM unit).
Proof. unfold event_output. keeps_walk. Qed.
#[local] Hint Resolve keeps_event_output : keeps.

Lemma keeps_spawn t : keeps P (spawn t : SM unit).
Proof. unfold spawn. keeps_walk. Qed.
#[local] Hint Resolve keeps_spawn : keeps.

Lemma keeps_flush ord : keeps P (se_flush ord : SM unit).
Proof.
  assert (keeps P (distribute_loop ord : SM unit)).
  { induction ord; cbn [distribute_loop]; keeps_walk. }
  unfold se_flush, distribute_to_substream. keeps_walk.
Qed.

Lemma keeps_recv_substreams : keeps P (recv_substreams : SM _).
Proof.
  assert (∀ m v f, keeps P (start_protocol m v f : SM unit)) by (intros; unfold start_protocol; keeps_walk).
  assert (∀ m v f, keeps P (open_protocol m v f : SM unit)) by (intros; unfold open_protocol; keeps_walk).
  assert (∀ e, keeps P (handle_stream_event e : SM unit)) by (intros; unfold handle_stream_event; keeps_walk).
  unfold recv_substreams. keeps_walk.
Qed.

(** With what happens to the receiver of the service. *)
Context (V_next : ∀ s, P s → P (se_put_service_receiver (pr_poll_next (se_service_receiver s)).1 s)).
Context (V_close : ∀ s, P s → P (se_put_service_receiver (pr_close (se_service_receiver s)) s)).

Lemma keeps_clean : keeps P (clean : SM unit).
Proof. unfold clean. keeps_walk. Qed.
#[local] Hint Resolve keeps_clean : keeps.

Lemma keeps_close_session : keeps P (close_session : SM unit).
Proof. unfold close_session. keeps_walk. Qed.
#[local] Hint Resolve keeps_close_session : keeps.

Lemma keeps_close_all : keeps P (close_all_proto : SM unit).
Proof. unfold close_all_proto. keeps_walk. Qed.
#[local] Hint Resolve keeps_close_all : keeps.

Lemma keeps_handle_event e pr : keeps P (se_handle_session_event e pr : SM unit).
Proof.
  assert (∀ name, keeps P (open_proto_stream name : SM unit)) by (intros; unfold open_proto_stream; keeps_walk).
  destruct e as [j|? ?|? ? ? ? ?|? ? ?|? ?|? ?|p d|p|p|stream|j st err|? ?|?|? ? ?|? ?|? ?];
    try (unfold se_handle_session_event, on_buffer, handle_substream; keeps_walk; fail).
  unfold se_handle_session_event. apply keeps_gets_bind. intros s Hs. case_decide as Hst; [|done].
  assert (Hm : ∀ k : SM unit, keeps P k → P ((modify (se_put_state st) ;; k) s).1).
  { intros k Hk. apply Hk, HP; auto. }
  apply Hm. keeps_walk.
Qed.
#[local] Hint Resolve keeps_handle_event : keeps.

Lemma keeps_recv_service : keeps P (recv_service : SM _).
Proof.
  unfold recv_service. apply keeps_gets_bind. intros s Hs. pose proof (V_next _ Hs) as Hn.
  destruct (pr_poll_next (se_service_receiver s)) as [r' p]. cbn in Hn.
  assert (Hm : ∀ A (k : SM A), keeps P k → P ((modify (se_put_service_receiver r') ;; k) s).1).
  { intros A k Hk. by apply Hk. }
  apply Hm. keeps_walk.
Qed.

Lemma keeps_check_state b : keeps P (check_state b : SM _).
Proof.
  assert (Hw : keeps P (wait_handle_poll : SM _)) by (unfold wait_handle_poll; keeps_walk).
  assert (He : keeps P (close_session ;; wait_handle_poll : SM _)).
  { by apply keeps_bind; [apply keeps_close_session|]. }
  unfold check_state. apply keeps_gets_bind. intros s Hs.
    assert (Hx := He (se_put_proto_streams ∅ s) (st_protos _ HP _ _ Hs)).
    destruct (se_state (id s)); [case_decide as Hd0; [by apply He|clear Hd0 Hx]|exact Hx|exact Hs|exact Hx].
    revert s Hs. apply (keeps_bind P (close_all_proto : SM unit)); [apply keeps_close_all|intros; apply keeps_ret].
Qed.

Lemma keeps_poll ord proceed : keeps P (session_poll_next ord proceed : SM _).
Proof.
  unfold session_poll_next. apply keeps_bind; [apply keeps_gets|]. intros st. case_match; [apply keeps_ret|].
  apply keeps_bind; [apply keeps_flush|]. intros _. case_match; [apply keeps_ret|].
  apply keeps_bind; [apply keeps_recv_substreams|]. intros p1.
  apply keeps_bind; [apply keeps_recv_service|]. intros p2. apply keeps_check_state.
Qed.

End Frame.

Lemma stable_receiver r : stable (λ s, se_service_receiver s = r).
Proof. by split. Qed.

(** ** The steps of a poll keep the invariant *)

Section Steps.
Context (n i : Z).

(** Before the poll looks at its events, and after. *)
Definition open_inv (s : SS') : Prop :=
  consistent s ∧ se_next_stream s = n ∧ sc_id (se_context s) = i ∧ se_state s ≠ LocalClose.
Definition poll_inv (s : SS') : Prop := consistent s ∧ sc_id (se_context s) = i.

Lemma open_poll s : open_inv s → poll_inv s.
Proof. intros (? & ? & ? & ?). by split. Qed.

Lemma open_talked es s s' : talked es s s' → open_inv s → open_inv s'.
Proof.
  intros Ht (Hc & Hn & Hi & Hs). assert (Hc' := consistent_talked _ _ _ Ht Hc Hs).
  destruct Ht as (b & st & E & H). subst s'. split_and!; try done. cbn. naive_solver.
Qed.

Lemma wp_event_open e s : open_inv s → wp (event_output e) (λ _ s', open_inv s') s.
Proof.
  intros Hs. eapply wp_mono; [apply wp_event_output|]. intros [] s' Ht. by eapply open_talked.
Qed.

Lemma insert_same {B} (subs : gmap Z B) k (b b' : B) : subs !! k = Some b →
  ∀ j, is_Some (<[k := b']> subs !! j) ↔ is_Some (subs !! j).
Proof.
  intros H j. destruct (decide (k = j)) as [<-|Hne]; [|by rewrite lookup_insert_ne].
  rewrite lookup_insert_eq, H. split; eauto.
Qed.

Lemma wp_distribute ord s : open_inv s → wp (distribute_loop ord) (λ _ s', open_inv s') s.
Proof.
  revert s. induction ord as [|k ord IH]; intros s Hs; cbn [distribute_loop]; wp_steps; [done|].
  destruct (se_substreams s !! k) as [b|] eqn:E; [|by apply IH].
  destruct (pb_is_empty b); [by apply IH|]. destruct (PriorityBuffer_try_send b) as [b' r].
  assert (Hput : ∀ x, open_inv (se_put_substreams (<[k := x]> (se_substreams s)) s)).
  { intros x. destruct Hs as (Hc & Hn & Hi & Hst). split; [|done].
    apply consistent_substreams; [done|]. by eapply insert_same. }
  wp_steps. destruct r; [by apply IH| |by apply IH]. wp_steps. case_match; [|by wp_steps].
  wp_steps. apply wp_event_open. destruct (Hput (pb_clear b')) as (Hc & Hn & Hi & Hst).
  split; [|by split_and!]. change (consistent (se_put_state Abnormal
    (se_put_substreams (<[k := pb_clear b']> (se_substreams s)) s))). apply consistent_state; auto.
Qed.

Lemma wp_flush ord s : open_inv s → wp (se_flush ord) (λ _ s', open_inv s') s.
Proof.
  intros Hs. unfold se_flush. wp_steps. eapply wp_mono; [by apply wp_distribute|]. cbn. intros _ s1 H1.
  wp_steps. case_match; wp_steps; [done|]. eapply wp_mono; [apply wp_output_gen|]. intros [] s' Ht.
  by eapply open_talked.
Qed.

(** A new stream. *)
Lemma consistent_start st sub p next (s s' : SS') : consistent s → next = se_next_stream s + 1 →
  se_proto_streams s !! p = None → opened s' = opened s ++ [(se_next_stream s, p)] →
  se_protocol_configs_by_id s' = se_protocol_configs_by_id s →
  se_protocol_configs_by_name s' = se_protocol_configs_by_name s →
  se_proto_event_receiver s' = se_proto_event_receiver s → se_context s' = se_context s →
  se_state s' = st → st = se_state s → se_next_stream s' = next →
  se_substreams s' = <[se_next_stream s := sub]> (se_substreams s) →
  se_proto_streams s' = <[p := se_next_stream s]> (se_proto_streams s) → consistent s'.
Proof.
  intros Hs -> Hp Ho H1 H2 H3 H4 H5 -> H7 H8 H9. pose proof (co_based _ Hs) as Hb. split; [split|..].
  - rewrite H1, H2. apply Hb.
  - rewrite H7. pose proof (co_next _ Hb). lia.
  - rewrite Ho, H7. pose proof (co_next _ Hb) as Hn. intros k q [Hin|Hin%list_elem_of_singleton]%elem_of_app.
    + apply Hb in Hin. lia.
    + injection Hin as -> ->. lia.
  - rewrite Ho. intros k q q' [Hq|Hq%list_elem_of_singleton]%elem_of_app
      [Hq'|Hq'%list_elem_of_singleton]%elem_of_app; [by eapply Hb| | |congruence].
    + injection Hq' as -> ->. apply Hb in Hq. lia.
    + injection Hq as -> ->. apply Hb in Hq'. lia.
  - rewrite Ho, H9. intros q k E. apply elem_of_app. apply lookup_insert_Some in E as [[<- <-]|[_ E]].
    + right. by apply list_elem_of_singleton.
    + left. by apply Hb.
  - rewrite H3. intros e He. apply Hb in He. destruct e; try done. cbn in *. rewrite Ho. apply elem_of_app. auto.
  - rewrite H8, H9. intros k [b E]. apply lookup_insert_Some in E as [[<- _]|[Hne E]].
    + exists p. by rewrite lookup_insert_eq.
    + destruct (co_stream _ Hs k) as [q Hq]; [eauto|]. exists q. rewrite lookup_insert_ne; [done|]. congruence.
  - rewrite H4, H5, H8, H9. intros Hc Hst q k E. apply lookup_insert_Some in E as [[<- <-]|[_ E]].
    + rewrite lookup_insert_eq. eauto.
    + apply lookup_insert_is_Some'. right. by eapply Hs.
Qed.

Lemma proto_open_ids version (sub : @Substream T F ES QR SS PS) :
  su_id (proto_open version sub).1 = su_id sub ∧ su_proto_id (proto_open version sub).1 = su_proto_id sub.
Proof.
  destruct sub as [? ? ? ? ? ? ? ? ? ? ? [] []]; done.
Qed.

Lemma wp_start proto version sub s : open_inv s → n + 1 < 2 ^ 64 →
  se_proto_streams s !! m_id proto = None →
  wp (start_protocol proto version sub) (λ _ s', poll_inv s') s.
Proof.
  intros (Hc & Hn & Hi & Hst) Hlt Hp. subst n. unfold start_protocol. wp_steps. change (id s) with s.
  destruct (new_channel (channel_size (se_config s))) as [to from]. wp_steps.
  destruct (m_spawn proto) eqn:Esp.
  - destruct (rf_split proto sub) as [rd wr]. unfold spawn. wp_steps.
    eapply wp_or_panic; [by apply checked_add_ok|]. wp_steps. split; [|done].
    eapply (consistent_start _ _ (m_id proto)); [exact Hc|..]; try reflexivity; [done|].
    unfold opened. cbn. by rewrite <- app_assoc, omap_app.
  - unfold spawn. wp_steps. eapply wp_or_panic; [by apply checked_add_ok|]. wp_steps. split; [|done].
    eapply (consistent_start _ _ (m_id proto)); [exact Hc|..]; try reflexivity; [done|].
    unfold opened. cbn -[proto_open]. rewrite omap_app. cbn -[proto_open].
    by rewrite (proj1 (proto_open_ids _ _)), (proj2 (proto_open_ids _ _)).
Qed.

Lemma wp_open_protocol name version sub s : open_inv s → n + 1 < 2 ^ 64 →
  wp (open_protocol name version sub) (λ _ s', poll_inv s') s.
Proof.
  intros Hs Hlt. unfold open_protocol. wp_steps. cbn [id].
  destruct (se_protocol_configs_by_name s !! name) as [proto|].
  - destruct (se_proto_streams s !! m_id proto) eqn:E; [by apply wp_ret, open_poll|]. by apply wp_start.
  - wp_steps. eapply wp_mono; [apply wp_event_open|intros [] s' H; by apply open_poll].
    destruct Hs as (Hc & Hn & Hi & Hst). split; [|done]. apply consistent_state; auto.
Qed.

(** The stream of a protocol is gone. *)
Lemma consistent_close k p b (s : SS') : consistent s → (k, p) ∈ opened s → se_substreams s !! k = Some b →
  consistent (se_put_proto_streams (delete p (se_proto_streams s))
    (se_put_substreams (delete k (se_substreams s)) s)).
Proof.
  intros Hs Ho E. pose proof (co_based _ Hs) as Hb.
  assert (Hp : se_proto_streams s !! p = Some k).
  { destruct (co_stream _ Hs k) as [q Hq]; [eauto|]. assert (q = p) as ->; [|done].
    eapply (co_unique _ Hb k); [by apply Hb|done]. }
  split; [split; try apply Hb|..]; cbn.
  - intros q j Hj. apply lookup_delete_Some in Hj as [_ Hj]. by apply Hb.
  - intros j [x Hj]. apply lookup_delete_Some in Hj as [Hne Hj].
    destruct (co_stream _ Hs j) as [q Hq]; [eauto|]. exists q. rewrite lookup_delete_ne; congruence.
  - intros Hc Hst q j Hj. apply lookup_delete_Some in Hj as [Hne Hj].
    rewrite lookup_delete_ne; [by eapply Hs|]. intros <-. apply Hne.
    eapply (co_unique _ Hb k); [done|by apply Hb].
Qed.

Lemma wp_handle_stream_event e s : open_inv s → n + 1 < 2 ^ 64 → event_ok (opened s) e →
  wp (handle_stream_event e) (λ _ s', poll_inv s') s.
Proof.
  intros Hs Hlt He. unfold handle_stream_event. wp_steps.
  assert (Hev : ∀ x, wp (event_output x) (λ _ s', poll_inv s') s).
  { intros x. eapply wp_mono; [by apply wp_event_open|]. intros [] s'. apply open_poll. }
  destruct e as [name sub v|k p|d|name|p k|]; [by apply wp_open_protocol| |done|apply Hev|apply Hev|].
  - destruct (se_substreams s !! k) eqn:E; wp_steps; [|by apply open_poll]. split; [|apply Hs].
    exact (consistent_close k p _ s (proj1 Hs) He E).
  - case_decide; wp_steps; [|by apply open_poll]. eapply wp_mono; [by apply wp_event_open|].
    intros [] s' (Hc & _ & Hi & Hst). wp_steps. split; [|done]. apply consistent_state; auto.
Qed.

Lemma wp_recv_substreams s : open_inv s → n + 1 < 2 ^ 64 → wp recv_substreams (λ _ s', poll_inv s') s.
Proof.
  intros Hs Hlt. unfold recv_substreams. wp_steps.
  destruct (recv_poll_next (se_proto_event_receiver s)) as [r' p] eqn:E. wp_steps.
  destruct Hs as (Hc & Hn & Hi & Hst). pose proof (co_based _ Hc) as Hb.
  assert (Hq : ∀ x, x ∈ recv_queue r' → x ∈ recv_queue (se_proto_event_receiver s)).
  { intros x Hx. destruct p as [[e|]|].
    - apply recv_some in E. rewrite E. by apply list_elem_of_further.
    - apply recv_none in E as [_ E]. rewrite E in Hx. by apply not_elem_of_nil in Hx.
    - apply recv_pending in E as [_ E]. rewrite E in Hx. by apply not_elem_of_nil in Hx. }
  assert (Ho : open_inv (se_put_proto_event_receiver r' s)).
  { split; [by apply consistent_receiver|done]. }
  destruct p as [[e|]|]; wp_steps; [|split; [by apply consistent_state, or_introl; [apply Ho|]|done]|by apply open_poll].
  destruct (se_state _) eqn:Es; cbn [is_local_close]; wp_steps;
    try (eapply wp_mono; [apply wp_handle_stream_event; [done..|]|by intros [] s' H; wp_steps]);
    try (by apply open_poll); apply (co_events _ Hb); apply recv_some in E; rewrite E;
    apply list_elem_of_here.
Qed.

(** ** Closing *)

Lemma wp_clean (s : SS') : based s → wp clean (λ _ s', based s' ∧ se_context s' = se_context s ∧ se_state s' = se_state s ∧
  se_substreams s' = ∅ ∧ se_proto_streams s' = se_proto_streams s ∧
  se_service_sender s' = se_service_sender s ∧ se_tasks s' = se_tasks s ++ [TkControlClose]) s.
Proof.
  intros Hs. unfold clean, spawn. wp_steps. split; [|done]. apply (based_same s); auto; try done.
  - unfold opened. cbn. by rewrite omap_app, app_nil_r.
  - cbn. intros e. by rewrite rc_close_queue.
Qed.

(** [close_session] closes the context, empties the map of streams and reports the end behind
    the events that were buffered. *)
Lemma wp_close_session (s : SS') : based s → wp close_session (λ _ s',
  based s' ∧ se_context s' = put_closed true (se_context s) ∧ se_state s' = se_state s ∧
  se_substreams s' = ∅ ∧ se_proto_streams s' = se_proto_streams s ∧
  se_tasks s' = se_tasks s ++ [TkSendService (b_sender (se_service_sender s))
    (b_buffer (se_service_sender s) ++ [SessionClose (sc_id (se_context s))]); TkControlClose]) s.
Proof.
  intros Hs. unfold close_session, clean, spawn, Buffer_take. wp_steps. cbn beta iota. wp_steps. cbn. rewrite <- app_assoc. split_and!; try done.
  apply (based_same s); auto; cbn.
  - unfold opened. cbn. by rewrite !omap_app, !app_nil_r.
  - intros e. by rewrite rc_close_queue.
Qed.

Lemma based_proto_empty (s : SS') : based s → based (se_put_proto_streams ∅ s).
Proof. intros Hs. apply (based_same s); auto. Qed.

Lemma wp_close_poll (s : SS') : poll_inv s →
  wp close_session (λ _ s', poll_inv s' ∧ se_state s' = se_state s) s.
Proof.
  intros [Hc Hi]. eapply wp_mono; [apply wp_close_session, Hc|].
  intros [] s' (H1 & H2 & H3 & H4 & H5 & _). split; [split; [|by rewrite H2]|done].
  apply consistent_closed; [done..|]. left. by rewrite H2.
Qed.

Lemma imap_same {B C} (f : Z → B → C) (m : gmap Z B) j :
  is_Some (map_imap (λ k x, Some (f k x)) m !! j) ↔ is_Some (m !! j).
Proof. rewrite map_lookup_imap. destruct (m !! j); cbn; split; intros [? ?]; eauto; done. Qed.

Lemma wp_close_all s : poll_inv s →
  wp close_all_proto (λ _ s', poll_inv s' ∧ se_state s' = se_state s) s.
Proof.
  intros Hs. unfold close_all_proto. wp_steps. destruct (sc_closed (se_context s)) eqn:E.
  - by apply wp_close_poll.
  - wp_steps. split; [|done]. split; [|apply Hs]. apply consistent_context; [|done].
    apply consistent_substreams; [apply Hs|]. intros j. apply imap_same.
Qed.

(** ** Events of the service *)

Lemma wp_on_buffer p f s : poll_inv s → wp (on_buffer p f) (λ _ s', poll_inv s') s.
Proof.
  intros Hs. unfold on_buffer. wp_steps. cbn [id].
  destruct (se_proto_streams s !! p) as [k|]; [|by wp_steps].
  destruct (se_substreams s !! k) eqn:E; wp_steps; [|done]. split; [|apply Hs].
  apply consistent_substreams; [apply Hs|]. by eapply insert_same.
Qed.

Lemma wp_spawn_poll t s : task_stream t = None → poll_inv s → wp (spawn t) (λ _ s', poll_inv s') s.
Proof.
  intros Ht Hs. unfold spawn. wp_steps. split; [|apply Hs]. apply consistent_tasks; [apply Hs|].
  cbn. by rewrite Ht.
Qed.

Lemma poll_talked es s s' : talked es s s' → poll_inv s → se_state s ≠ LocalClose → poll_inv s'.
Proof.
  intros Ht [Hc Hi] Hs. assert (Hc' := consistent_talked _ _ _ Ht Hc Hs).
  destruct Ht as (b & st & E & _). subst s'. by split.
Qed.

Lemma wp_change_state j st err s : poll_inv s → se_state s = NormalState → st ≠ LocalClose →
  wp (se_handle_session_event (ChangeState j st err) Normal) (λ _ s', poll_inv s') s.
Proof.
  intros Hs Hst Hne. unfold se_handle_session_event. wp_steps. rewrite decide_True by done. wp_steps.
  assert (H1 : poll_inv (se_put_state st s)).
  { split; [|apply Hs]. apply consistent_state; [apply Hs|]. right. left. by rewrite Hst. }
  destruct err as [e|]; wp_steps; [|done].
  destruct (se_keep_buffer (id s)); wp_steps; (eapply wp_mono; [apply wp_event_output|]);
    intros [] s' Ht; (eapply poll_talked; [exact Ht|split; [|apply H1]|done]); [apply H1|].
  apply consistent_service, H1.
Qed.

(** The service and the socket never ask for [LocalClose]. *)
Definition service_event_ok (e : SE) : Prop :=
  match e with ChangeState _ st _ => st ≠ LocalClose | _ => True end.

Lemma wp_handle_service_event e pr s : poll_inv s → se_state s = NormalState → service_event_ok e →
  wp (se_handle_session_event e pr) (λ _ s', poll_inv s') s.
Proof.
  intros Hs Hst He. destruct e as [j|? ?|? ? ? ? ?|? ? ?|? ?|? ?|p d|p|p|stream|j st err|? ?|?|? ? ?|? ?|? ?];
    try (unfold se_handle_session_event; wp_steps; cbn [id]); try done.
  - case_decide; wp_steps; [eapply wp_mono; [by apply wp_close_poll|naive_solver]|].
    eapply wp_mono; [apply wp_close_all|naive_solver]. split; [|apply Hs].
    apply consistent_state; [apply Hs|auto].
  - by apply wp_on_buffer.
  - destruct (se_proto_streams s !! p); wp_steps; [done|].
    destruct (se_protocol_configs_by_id s !! p) as [m|] eqn:E; wp_steps; [|done]. unfold open_proto_stream.
    wp_steps. destruct (co_names _ (co_based _ (proj1 Hs)) _ _ E) as [m' E'].
    eapply wp_or_panic; [exact E'|]. by apply wp_spawn_poll.
  - by apply wp_on_buffer.
  - unfold handle_substream. wp_steps. by apply wp_spawn_poll.
  - by apply (wp_change_state j st err s).
Qed.

Lemma wp_recv_service s : poll_inv s →
  (∀ pr e, e ∈ pr_queue pr (se_service_receiver s) → service_event_ok e) →
  wp recv_service (λ _ s', poll_inv s') s.
Proof.
  intros Hs Hev. unfold recv_service. wp_steps.
  destruct (pr_poll_next (se_service_receiver s)) as [r' p] eqn:E. wp_steps.
  assert (H1 : poll_inv (se_put_service_receiver r' s)).
  { split; [|apply Hs]. apply consistent_service_receiver, Hs. }
  apply pr_next_view in E. destruct p as [[[pr e]|]|]; wp_steps; [| |done].
  - destruct (is_normal (se_state _)) eqn:Es; cbn [negb]; wp_steps; [|done].
    eapply wp_mono; [apply wp_handle_service_event; [done| |]|by intros [] s' H; wp_steps].
    + by destruct (se_state (se_put_service_receiver r' s)).
    + apply (Hev pr). destruct pr; [destruct E as [-> _]|destruct E as (_ & _ & ->)]; apply list_elem_of_here.
  - eapply wp_mono; [eapply wp_clean|].
    + apply (based_same (se_put_service_receiver r' s)); auto; try done. apply H1.
    + intros [] s' (Hb & H2 & H3 & H4 & H5 & _). wp_steps. split; [|by rewrite H2; apply Hs].
      apply consistent_closed; [done..|]. right. left. by rewrite H3.
Qed.

Lemma wp_end s : based s → se_proto_streams s = ∅ → sc_id (se_context s) = i →
  wp (close_session ;; wait_handle_poll) (λ _ s', poll_inv s' ∧ finished s') s.
Proof.
  intros Hb Hp Hi. wp_steps. eapply wp_mono; [by apply wp_close_session|].
  intros [] s1 (H1 & H2 & H3 & H4 & H5 & H6). unfold wait_handle_poll. wp_steps.
  split; [split; [|cbn; by rewrite H2]|].
  - apply consistent_wait, consistent_closed; [done..|]. left. by rewrite H2.
  - unfold finished, reported. cbn. rewrite H2, H4, H5, H6. split_and!; try done.
    do 2 eexists. apply elem_of_app. right. apply list_elem_of_here.
Qed.

Lemma wp_check_state pending s : poll_inv s → wp (check_state pending) (λ r s', poll_inv s' ∧
  (se_state s' = LocalClose → finished s') ∧ (r = Ready None → finished s')) s.
Proof.
  intros Hs. pose proof (co_based _ (proj1 Hs)) as Hb. unfold check_state. wp_steps. cbn [id].
  destruct (se_state s) eqn:Est.
  - case_decide.
    + eapply wp_mono; [apply wp_end; [done..|apply Hs]|]. naive_solver.
    + wp_steps. eapply wp_mono; [by apply wp_close_all|]. intros [] s' [H1 H2]. wp_steps.
      split; [done|]. rewrite H2, Est. split; [done|]. by destruct pending.
  - wp_step. wp_step. eapply wp_mono; [apply wp_end; [by apply based_proto_empty|done|apply Hs]|].
    naive_solver.
  - wp_steps. split; [done|]. rewrite Est. split; [done|]. by destruct pending.
  - wp_step. wp_step. eapply wp_mono; [apply wp_end; [by apply based_proto_empty|done|apply Hs]|].
    naive_solver.
Qed.

Lemma wp_poll ord proceed s : poll_inv s → se_next_stream s = n → n + 1 < 2 ^ 64 →
  (se_state s = LocalClose → finished s) →
  (∀ pr e, e ∈ pr_queue pr (se_service_receiver s) → service_event_ok e) →
  wp (session_poll_next ord proceed) (λ r s', poll_inv s' ∧
    (se_state s' = LocalClose → finished s') ∧ (r = Ready None → finished s')) s.
Proof.
  intros Hs Hn Hlt Hf Hev. unfold session_poll_next. wp_step. wp_step.
  destruct (is_local_close (se_state s)) eqn:Est.
  { wp_steps. destruct (se_state s); try done. auto. }
  assert (Ho : open_inv s). { destruct Hs. split_and!; try done. by destruct (se_state s). }
  wp_step. eapply wp_mono; [eapply wp_keeps; [by apply wp_flush|apply (keeps_flush _ (stable_receiver (se_service_receiver s)) ord)|done]|].
  intros [] s1 [H1 R1]. destruct proceed; cbn [negb]; [|wp_steps; split_and!; try done; [by apply open_poll|]].
  2:{ intros E. by destruct H1 as (_ & _ & _ & []). }
  wp_step. eapply wp_mono; [eapply wp_keeps; [by apply wp_recv_substreams|apply (keeps_recv_substreams _ (stable_receiver (se_service_receiver s)))|exact R1]|].
  cbn. intros p1 s2 [H2 R2]. wp_step. eapply wp_mono; [apply wp_recv_service; [done|by rewrite R2]|].
  intros p2 s3 H3. by apply wp_check_state.
Qed.

End Steps.

(** ** Runs

    A session polled by the executor, with other tasks acting between the polls: substreams and
    selections send events, the service sends its own, the channels are drained, and the count of
    pending bytes changes. *)

Definition buffers_drained (subs subs' : gmap Z (@PriorityBuffer Q PE)) : Prop :=
  ∀ k, match subs !! k, subs' !! k with
       | Some b, Some b' => pb_high b' = pb_high b ∧ pb_normal b' = pb_normal b ∧
           ps_quick (pb_sender b') = ps_quick (pb_sender b) ∧
           ps_normal (pb_sender b') = ps_normal (pb_sender b)
       | None, None => True
       | _, _ => False
       end.

Inductive others (s : SS') : SS' → Prop :=
| others_act subs er sv vr pending :
    buffers_drained (se_substreams s) subs →
    (∀ e, e ∈ recv_queue er → e ∈ recv_queue (se_proto_event_receiver s) ∨ event_ok (opened s) e) →
    b_buffer sv = b_buffer (se_service_sender s) →
    (∀ pr e, e ∈ pr_queue pr vr → e ∈ pr_queue pr (se_service_receiver s) ∨ service_event_ok e) →
    others s (se_put_context (put_pending_data_size pending (se_context s))
      (se_put_service_receiver vr (se_put_service_sender sv
        (se_put_proto_event_receiver er (se_put_substreams subs s))))).

Inductive session_run (s0 : SS') : SS' → Prop :=
| run_start : session_run s0 s0
| run_open s name s' : session_run s0 s → open_proto_stream name s = (s', ROk tt) → session_run s0 s'
| run_poll s ord proceed s' r : session_run s0 s → se_next_stream s + 1 < 2 ^ 64 →
    session_poll_next ord proceed s = (s', ROk r) → session_run s0 s'
| run_others s s' : session_run s0 s → others s s' → session_run s0 s'.

(** A session as the service creates it. *)
Definition started (s0 : SS') : Prop :=
  ∃ sv vr by_name by_id config keep context es er svp sep handles,
    s0 = Session_new sv vr by_name by_id config keep context es er svp sep handles ∧
    (∀ p m, by_id !! p = Some m → is_Some (by_name !! m_name m (m_id m))) ∧
    recv_queue er = [] ∧ (∀ pr, pr_queue pr vr = []).

(** What holds between polls. *)
Definition run_inv (i : Z) (s : SS') : Prop :=
  poll_inv i s ∧ (se_state s = LocalClose → finished s) ∧
  (∀ pr e, e ∈ pr_queue pr (se_service_receiver s) → service_event_ok e).

Lemma run_inv_start s0 : started s0 → run_inv (sc_id (se_context s0)) s0.
Proof.
  intros (sv & vr & bn & bi & cf & kp & cx & es & er & svp & sep & hs & -> & Hn & Hr & Hv).
  split_and!; cbn; [split; [split; [split|..]|]|..]; cbn; try done.
  - by intros i p H%not_elem_of_nil.
  - by intros i p q H%not_elem_of_nil.
  - rewrite Hr. by intros e H%not_elem_of_nil.
  - by intros i [? H].
  - intros pr e. rewrite Hv. by intros H%not_elem_of_nil.
Qed.

Lemma drained_same subs subs' k : buffers_drained subs subs' → is_Some (subs' !! k) ↔ is_Some (subs !! k).
Proof. intros H. specialize (H k). destruct (subs !! k), (subs' !! k); split; intros [? ?]; eauto; done. Qed.

Lemma run_inv_others i s s' : run_inv i s → others s s' → run_inv i s'.
Proof.
  intros ([Hc Hi] & Hf & Hv) [subs er sv vr pend Hdr He Hsv Hvr].
  split_and!; [split; [|done]|..].
  - apply (consistent_same s); [done| |intros k; by apply drained_same|done..].
    destruct (co_based _ Hc) as [H1 H2 H3 H4 H5 H6]. split; try done.
    intros e [Hin|Hok]%He; [by apply H6|done].
  - intros Hst. destruct (Hf Hst) as (F1 & F2 & F3 & F4). split_and!; try done. cbn. apply map_eq.
    intros k. specialize (Hdr k). rewrite F2, lookup_empty in *. by destruct (subs !! k).
  - intros pr e [Hin|Hok]%Hvr; [by eapply Hv|done].
Qed.

Definition queue_ok (r : VR) : Prop := ∀ pr e, e ∈ pr_queue pr r → service_event_ok e.

Lemma queue_ok_next r : queue_ok r → queue_ok (pr_poll_next r).1.
Proof.
  intros H. destruct (pr_poll_next r) as [r' p] eqn:E. apply pr_next_view in E. intros pr e He. cbn in He.
  destruct p as [[[[] a]|]|].
  - destruct E as [E1 E2]. apply (H pr). destruct pr; [rewrite E1; by apply list_elem_of_further|by rewrite <- E2].
  - destruct E as (E1 & E2 & E3). apply (H pr).
    destruct pr; [by rewrite E1, <- E2|rewrite E3; by apply list_elem_of_further].
  - destruct (E pr) as [_ E']. rewrite E' in He. by apply not_elem_of_nil in He.
  - destruct (E pr) as [_ E']. rewrite E' in He. by apply not_elem_of_nil in He.
Qed.

Lemma queue_ok_close r : queue_ok r → queue_ok (pr_close r).
Proof. intros H pr e. rewrite pr_close_view. apply H. Qed.

Lemma wp_run_poll i ord proceed s : run_inv i s → se_next_stream s + 1 < 2 ^ 64 →
  wp (session_poll_next ord proceed) (λ r s', run_inv i s' ∧ (r = Ready None → finished s')) s.
Proof.
  intros (Hp & Hf & Hv) Hn. eapply wp_mono; [apply (wp_keeps (λ s, queue_ok (se_service_receiver s))); [by eapply wp_poll| |exact Hv]|].
  - apply keeps_poll; [by split|..]; intros s1 H1.
    + by apply queue_ok_next.
    + by apply queue_ok_close.
  - cbn. intros r s' [(H1 & H2 & H3) H4]. by split_and!.
Qed.

Lemma run_inv_run s0 s : started s0 → session_run s0 s → run_inv (sc_id (se_context s0)) s.
Proof.
  intros H0. induction 1 as [|s name s' _ IH E|s ord proceed s' r _ IH Hn E|s s' _ IH E].
  - by apply run_inv_start.
  - unfold open_proto_stream, spawn in E. apply bind_ok in E as (s1 & a & [= <- <-] & E).
    apply bind_ok in E as (s1 & m & E1 & [= <-]). destruct (_ !! _); [|done]. injection E1 as <- ->.
    destruct IH as ([Hc Hi] & Hf & Hv). split_and!; [split; [by apply consistent_tasks|done]| |done].
    intros Hst. destruct (Hf Hst) as (F1 & F2 & F3 & sd & ev & F4). split_and!; try done. exists sd, ev.
    apply elem_of_app. by left.
  - destruct (wp_ok _ _ _ _ _ (wp_run_poll _ ord proceed _ IH Hn) E) as [H _]. done.
  - by eapply run_inv_others.
Qed.

(** C13: however a session is polled, and whatever its substreams, the selections and the service
    send in between, the map of protocols and the map of streams agree: a protocol has at most one
    stream, streams of different protocols differ, each buffer belongs to the stream of exactly
    one open protocol, and until the session closes each open protocol has its buffer. In every
    such state a poll returns: it never panics. *)
Theorem session_streams_consistent s0 s : started s0 → session_run s0 s → se_next_stream s + 1 < 2 ^ 64 →
  (∀ p q k, se_proto_streams s !! p = Some k → se_proto_streams s !! q = Some k → p = q) ∧
  (∀ k, is_Some (se_substreams s !! k) → ∃ p, se_proto_streams s !! p = Some k) ∧
  (sc_closed (se_context s) = false → ∀ p k, se_proto_streams s !! p = Some k → is_Some (se_substreams s !! k)) ∧
  (∀ ord proceed, ∃ s' r, session_poll_next ord proceed s = (s', ROk r)).
Proof.
  intros H0 Hr Hn. pose proof (run_inv_run _ _ H0 Hr) as Hi. pose proof Hi as ([Hc _] & Hf & _).
  pose proof (co_based _ Hc) as Hb. split_and!.
  - intros p q k Hp Hq. eapply (co_unique _ Hb k); by apply Hb.
  - apply Hc.
  - intros Hcl. apply Hc; [done|]. intros Hst. destruct (Hf Hst) as [Fc _]. congruence.
  - intros ord proceed. destruct (wp_run _ _ _ (wp_run_poll _ ord proceed _ Hi Hn)) as (s' & r & E & _). eauto.
Qed.

(** When a session ends, its context is marked as closed, it holds no stream any more, and it
    has reported its end to the service, behind every event that was still buffered. *)
Theorem session_end_reported s0 s ord proceed s' : started s0 → session_run s0 s →
  se_next_stream s + 1 < 2 ^ 64 → session_poll_next ord proceed s = (s', ROk (Ready None)) →
  sc_closed (se_context s') = true ∧ se_substreams s' = ∅ ∧ se_proto_streams s' = ∅ ∧
  ∃ sender events, TkSendService sender (events ++ [SessionClose (sc_id (se_context s0))]) ∈ se_tasks s'.
Proof.
  intros H0 Hr Hn E. pose proof (run_inv_run _ _ H0 Hr) as Hi.
  destruct (wp_ok _ _ _ _ _ (wp_run_poll _ ord proceed _ Hi Hn) E) as [([_ Hid] & _) Hf].
  destruct (Hf eq_refl) as (F1 & F2 & F3 & F4). unfold reported in F4. rewrite Hid in F4. done.
Qed.

(** ** Closing takes at most two polls *)

Definition closing (c : bool) (s : SS') : Prop :=
  se_state s ≠ NormalState ∧ (c = true → sc_closed (se_context s) = true).

Lemma closing_stable c : stable (closing c).
Proof.
  split; try (intros; by auto); unfold closing; cbn.
  - intros st s [H1 H2] [-> | [-> | H]]; done.
  - naive_solver.
Qed.

Lemma wp_check_closing i pending s : poll_inv i s → se_state s ≠ NormalState →
  wp (check_state pending) (λ _ s', (reported s' ∨ closing true s') ∧
    (sc_closed (se_context s) = true → reported s')) s.
Proof.
  intros Hs Hst. pose proof (co_based _ (proj1 Hs)) as Hb.
  assert (Hend : ∀ s0, based s0 → se_proto_streams s0 = ∅ → sc_id (se_context s0) = i →
    wp (close_session ;; wait_handle_poll) (λ _ s', (reported s' ∨ closing true s') ∧
      (sc_closed (se_context s) = true → reported s')) s0).
  { intros s0 H1 H2 H3. eapply wp_mono; [by apply (wp_end i)|].
    intros r s' (_ & _ & _ & _ & Hr). split; [by left|done]. }
  unfold check_state. wp_step. wp_step. cbn [id]. destruct (se_state s) eqn:Est; try done.
  - case_decide; [by apply Hend; [..|apply Hs]|]. unfold close_all_proto. wp_step. wp_step. wp_step.
    destruct (sc_closed (se_context s)) eqn:Ec.
    + eapply wp_mono; [by apply wp_close_session|]. intros [] s' (_ & H2 & _ & _ & _ & H6). wp_steps.
      assert (reported s'); [|by split; [left|]]. unfold reported. rewrite H2, H6. do 2 eexists.
      apply elem_of_app. right. apply list_elem_of_here.
    + wp_steps. split; [|done]. right. split; cbn; [by rewrite Est|done].
  - wp_step. wp_step. apply Hend; [by apply based_proto_empty|done|apply Hs].
  - wp_step. wp_step. apply Hend; [by apply based_proto_empty|done|apply Hs].
Qed.

Lemma wp_poll_closing i c ord s : run_inv i s → se_next_stream s + 1 < 2 ^ 64 → closing c s →
  wp (session_poll_next ord true) (λ _ s', (reported s' ∨ closing true s') ∧ (c = true → reported s')) s.
Proof.
  intros (Hs & Hf & Hv) Hlt Hcl. unfold session_poll_next. wp_step. wp_step.
  destruct (is_local_close (se_state s)) eqn:Est.
  { wp_steps. assert (reported s); [|by split; [left|]]. apply Hf. by destruct (se_state s). }
  assert (Ho : open_inv (se_next_stream s) i s).
  { destruct Hs. split_and!; try done. by destruct (se_state s). }
  pose proof (closing_stable c) as Hk. wp_step.
  eapply wp_mono; [apply (wp_keeps (λ s', closing c s' ∧ se_service_receiver s' = se_service_receiver s));
    [by apply wp_flush| |done]|].
  { intros s1 [H1 H2]. split; [by apply (keeps_flush _ Hk)|by apply (keeps_flush _ (stable_receiver _))]. }
  intros [] s1 (H1 & C1 & R1). cbn [negb]. wp_step.
  eapply wp_mono; [apply (wp_keeps (λ s', closing c s' ∧ se_service_receiver s' = se_service_receiver s));
    [by eapply wp_recv_substreams| |done]|].
  { intros s2 [G1 G2]. split; [by apply (keeps_recv_substreams _ Hk)|by apply (keeps_recv_substreams _ (stable_receiver _))]. }
  intros p1 s2 (H2 & C2 & R2). wp_step.
  eapply wp_mono; [apply (wp_keeps (closing c)); [apply (wp_recv_service i); [done|by rewrite R2]| |done]|].
  { by apply (keeps_recv_service _ Hk). }
  intros p2 s3 [H3 [C3 D3]]. eapply wp_mono; [by eapply wp_check_closing|]. naive_solver.
Qed.

Lemma stable_reported i : stable (λ s, ∃ sd ev, TkSendService sd (ev ++ [SessionClose i]) ∈ se_tasks s).
Proof. split; try done. intros ts s (sd & ev & H). exists sd, ev. cbn. apply elem_of_app. by left. Qed.

(** Once a session is no longer in its normal state, because the remote closed the connection,
    the connection failed or the service is gone, it is polled at most twice more before it has
    reported its end to the service, behind what was buffered, whatever the substreams do. *)
Theorem session_closes_in_two_polls s0 s ord s1 r1 s1' ord' s2 r2 :
  started s0 → session_run s0 s → se_next_stream s + 1 < 2 ^ 64 → se_state s ≠ NormalState →
  session_poll_next ord true s = (s1, ROk r1) → others s1 s1' → se_next_stream s1' + 1 < 2 ^ 64 →
  session_poll_next ord' true s1' = (s2, ROk r2) →
  ∃ sender events, TkSendService sender (events ++ [SessionClose (sc_id (se_context s0))]) ∈ se_tasks s2.
Proof.
  intros H0 Hr Hn Hst E1 Ho Hn1 E2. pose proof (run_inv_run _ _ H0 Hr) as Hi.
  assert (Hr1 : session_run s0 s1) by (eapply run_poll; [exact Hr|lia|exact E1]).
  pose proof (run_inv_run _ _ H0 (run_others _ _ _ Hr1 Ho)) as Hi1.
  pose proof (run_inv_run _ _ H0 Hr1) as [[_ Hid1] _].
  assert (Hr2 : session_run s0 s2) by (eapply run_poll; [by eapply run_others|exact Hn1|exact E2]).
  pose proof (run_inv_run _ _ H0 Hr2) as [[_ Hid2] _].
  assert (Hc : closing false s) by done.
  destruct (wp_ok _ _ _ _ _ (wp_poll_closing _ _ ord _ Hi Hn Hc) E1) as [[Hrep|Hcl] _].
  - assert (Hk := keeps_poll _ (stable_reported (sc_id (se_context s0))) (λ _ H, H) (λ _ H, H) ord' true s1').
    rewrite E2 in Hk. apply Hk. unfold reported in Hrep. rewrite Hid1 in Hrep. by destruct Ho.
  - assert (Hc1 : closing true s1') by (by destruct Ho).
    destruct (wp_ok _ _ _ _ _ (wp_poll_closing _ _ ord' _ Hi1 Hn1 Hc1) E2) as [_ Hrep].
    unfold reported in Hrep. rewrite Hid2 in Hrep. auto.
Qed.

(** ** Messages reach the stream of their protocol in order *)

#[local] Arguments messages : simpl never.

Abbreviation PBuf := (@PriorityBuffer Q PE) (only parsing).

(** The messages of one priority handed to the channel of a stream, and those still buffered. *)
Definition lane_sent (pr : Priority) (b : PBuf) : list bytes :=
  messages match pr with High => ps_quick (pb_sender b) | Normal => ps_normal (pb_sender b) end.
Definition lane_buf (pr : Priority) (b : PBuf) : list bytes :=
  messages match pr with High => pb_high b | Normal => pb_normal b end.

(** The messages for a protocol among the events of the service. *)
Definition routed (p : Z) (pr : Priority) (tr : list (Priority * SE)) : list bytes :=
  omap (λ x, match x.2 with
             | ProtocolMessage q d => if same_priority x.1 pr && (q =? p) then Some d else None
             | _ => None
             end) tr.

(** From [b] to [b'], with the messages [x] added on the way: what was sent in between, followed
    by what is buffered, are messages that were buffered or added, in order and at most once. *)
Definition moved_on (x : Priority → list bytes) (b b' : PBuf) : Prop :=
  ∀ pr, ∃ z, lane_sent pr b' = lane_sent pr b ++ z ∧
    sublist (z ++ lane_buf pr b') (lane_buf pr b ++ x pr).

Lemma moved_on_refl b : moved_on (λ _, []) b b.
Proof. intros pr. exists []. rewrite !app_nil_r. by split. Qed.

Lemma moved_on_next x x' b b' b'' : moved_on x b b' → moved_on x' b' b'' →
  moved_on (λ pr, x pr ++ x' pr) b b''.
Proof.
  intros H H' pr. destruct (H pr) as (z & E & S1), (H' pr) as (z' & E' & S2).
  exists (z ++ z'). split; [by rewrite E', E, app_assoc|]. etrans; [rewrite <- app_assoc; apply sublist_app; [done|exact S2]|].
  rewrite !app_assoc. by apply sublist_app.
Qed.

Lemma moved_on_nil x b b' b'' : moved_on x b b' → moved_on (λ _, []) b' b'' → moved_on x b b''.
Proof. intros H H' pr. destruct (moved_on_next _ _ _ _ _ H H' pr) as (z & E). rewrite app_nil_r in E. eauto. Qed.

Lemma moved_on_flush b : moved_on (λ _, []) b (PriorityBuffer_try_send b).1.
Proof.
  destruct (PriorityBuffer_try_send b) as [b' r] eqn:E.
  apply PriorityBuffer_try_send_split in E as [(t & rest & E1 & E2 & E3) (t' & rest' & E4 & E5 & E6)].
  assert (Hsub : ∀ (l l' v v' t rest : list PE), v' = v ++ t → l = t ++ rest → l' = rest ∨ l' = [] ∧ r = SrDisconnect →
    ∃ z, messages v' = messages v ++ z ∧ sublist (z ++ messages l') (messages l ++ [])).
  { intros l l' v v' u w -> -> H. exists (messages u). rewrite !messages_app, app_nil_r. split; [done|].
    apply sublist_app; [done|]. destruct H as [-> | [-> _]]; [done|apply sublist_nil_l]. }
  intros []; unfold lane_sent, lane_buf; by eapply Hsub.
Qed.

Lemma moved_on_clear b : moved_on (λ _, []) b (pb_clear b).
Proof. intros []; exists []; rewrite !app_nil_r; (split; [done|]); apply sublist_nil_l. Qed.

Lemma moved_on_push_close k p b : moved_on (λ _, []) b (push_high (PeClose k p) b).
Proof.
  intros []; exists []; unfold lane_sent, lane_buf; cbn; rewrite ?messages_app, ?app_nil_r; by split.
Qed.

Lemma moved_on_push_message pr d b :
  moved_on (λ pr', if same_priority pr pr' then [d] else []) b (push_priority pr (PeMessage d) b).
Proof.
  intros pr'. exists []. unfold lane_sent, lane_buf.
  destruct pr, pr'; cbn; rewrite ?messages_app, ?app_nil_r; by split.
Qed.

Section Lanes.
Context (k : Z) (b0 : PBuf).

Definition lane_inv (x : Priority → list bytes) (s : SS') : Prop :=
  k < se_next_stream s ∧ ∀ b, se_substreams s !! k = Some b → moved_on x b0 b.

(** One buffer changes. *)
Lemma lane_insert x j b b' s : lane_inv x s → se_substreams s !! j = Some b →
  moved_on (λ _, []) b b' → lane_inv x (se_put_substreams (<[j := b']> (se_substreams s)) s).
Proof.
  intros [H1 H2] E Hm. split; [done|]. cbn. intros c Hc.
  apply lookup_insert_Some in Hc as [[-> <-]|[_ Hc]]; [|by apply H2]. eapply moved_on_nil; [by apply H2|done].
Qed.

Lemma lane_same x s s' : lane_inv x s → se_substreams s' = se_substreams s →
  se_next_stream s' = se_next_stream s → lane_inv x s'.
Proof. intros H E1 E2. unfold lane_inv. by rewrite E1, E2. Qed.

Section Keeps.
Context (x : Priority → list bytes).

#[local] Hint Extern 2 (keeps _ (modify _)) => apply keeps_modify; intros ? ?;
  by eapply lane_same; [eassumption|..] : keeps.

Lemma lane_output : keeps (lane_inv x) (se_output : SM unit).
Proof. unfold se_output. keeps_walk. Qed.
#[local] Hint Resolve lane_output : keeps.

Lemma lane_event_output e : keeps (lane_inv x) (event_output e : SM unit).
Proof. unfold event_output. keeps_walk. Qed.
#[local] Hint Resolve lane_event_output : keeps.

Lemma lane_spawn t : keeps (lane_inv x) (spawn t : SM unit).
Proof. unfold spawn. keeps_walk. Qed.
#[local] Hint Resolve lane_spawn : keeps.

Lemma lane_distribute ord : keeps (lane_inv x) (distribute_loop ord : SM unit).
Proof.
  induction ord as [|j ord IH]; cbn [distribute_loop]; [apply keeps_ret|].
  apply keeps_gets_bind. intros s Hs. destruct (se_substreams s !! j) as [b|] eqn:E; [|by apply IH].
  destruct (pb_is_empty b); [by apply IH|]. pose proof (moved_on_flush b) as Hm.
  destruct (PriorityBuffer_try_send b) as [b' r]. cbn in Hm.
  assert (H1 := lane_insert _ _ _ _ _ Hs E Hm).
  assert (H2 := lane_insert _ _ _ _ _ Hs E (moved_on_nil _ _ _ _ Hm (moved_on_clear b'))).
  destruct r; [by apply IH| |by apply IH]. unfold mbind, M_bind, gets, modify.
  cbn [se_context se_config se_put_substreams]. destruct (_ <? _); [|done].
  apply lane_event_output. eapply lane_same; [exact H2|done..].
Qed.

Lemma lane_flush ord : keeps (lane_inv x) (se_flush ord : SM unit).
Proof. pose proof (lane_distribute ord). unfold se_flush, distribute_to_substream. keeps_walk. Qed.

Lemma lane_start m v f : keeps (lane_inv x) (start_protocol m v f : SM unit).
Proof.
  unfold start_protocol. apply keeps_gets_bind. intros s [H1 H2]. change (id s) with s.
  destruct (new_channel (channel_size (se_config s))) as [to from].
  assert (Hk : ∀ sub s', se_substreams s' = <[se_next_stream s := sub]> (se_substreams s) →
    se_next_stream s' = se_next_stream s ∨ se_next_stream s' = se_next_stream s + 1 → lane_inv x s').
  { intros sub s' E1 E2. split; [lia|]. rewrite E1. intros b Hb.
    rewrite lookup_insert_ne in Hb by lia. by apply H2. }
  destruct (m_spawn m); [destruct (rf_split m f) as [rd wr]|]; cbn -[checked_add];
    (destruct (checked_add 64 (se_next_stream s) 1) eqn:E; cbn;
      [apply checked_add_Some in E as [-> _]|]; by eapply Hk; cbn; auto).
Qed.

Lemma lane_recv_substreams : keeps (lane_inv x) (recv_substreams : SM _).
Proof.
  pose proof lane_start.
  assert (∀ m v f, keeps (lane_inv x) (open_protocol m v f : SM unit)) by (intros; unfold open_protocol; keeps_walk).
  assert (∀ e, keeps (lane_inv x) (handle_stream_event e : SM unit)).
  { intros [| j q | | | |]; unfold handle_stream_event; try (keeps_walk; fail).
    apply keeps_bind; [apply keeps_gets|]. intros cx. apply keeps_gets_bind. intros s [H1 H2].
    destruct (se_substreams s !! j); [|by split]. split; [done|]. intros b Hb.
    change (delete j (se_substreams s) !! k = Some b) in Hb. apply lookup_delete_Some in Hb as [_ Hb]. by apply H2. }
  unfold recv_substreams. keeps_walk.
Qed.

Lemma lane_clean : keeps (lane_inv x) (clean : SM unit).
Proof.
  assert (keeps (lane_inv x) (modify (se_put_substreams ∅) : SM unit)).
  { apply keeps_modify. intros s [H1 H2]. split; [done|]. cbn. intros b Hb. by rewrite lookup_empty in Hb. }
  unfold clean. keeps_walk.
Qed.
#[local] Hint Resolve lane_clean : keeps.

Lemma lane_close_session : keeps (lane_inv x) (close_session : SM unit).
Proof. unfold close_session. keeps_walk. Qed.
#[local] Hint Resolve lane_close_session : keeps.

Lemma lane_close_all : keeps (lane_inv x) (close_all_proto : SM unit).
Proof.
  unfold close_all_proto. apply keeps_bind; [apply keeps_gets|]. intros cx. case_match; [apply lane_close_session|].
  apply keeps_bind; [|intros; auto with keeps]. apply keeps_modify. intros s [H1 H2]. split; [done|]. cbn.
  intros b Hb. rewrite map_lookup_imap in Hb. destruct (se_substreams s !! k) as [c|] eqn:E; [|done].
  injection Hb as <-. eapply moved_on_nil; [by apply H2|]. unfold push_close.
  eapply moved_on_nil; [apply moved_on_push_close|apply moved_on_flush].
Qed.

Lemma lane_check_state pending : keeps (lane_inv x) (check_state pending : SM _).
Proof.
  assert (He : keeps (lane_inv x) (close_session ;; wait_handle_poll : SM _)).
  { apply keeps_bind; [apply lane_close_session|]. intros _. unfold wait_handle_poll. keeps_walk. }
  unfold check_state. apply keeps_gets_bind. intros s Hs.
  assert (Hx := He (se_put_proto_streams ∅ s) Hs).
  destruct (se_state (id s)); [case_decide as Hd0; [by apply He|clear Hd0 Hx]|exact Hx|exact Hs|exact Hx].
  revert s Hs. apply (keeps_bind _ (close_all_proto : SM unit)); [apply lane_close_all|intros; apply keeps_ret].
Qed.

(** Every event but a message for the protocol of the stream. *)
Lemma lane_on_buffer p f : (∀ j b, moved_on (λ _, []) b (f j b)) → keeps (lane_inv x) (on_buffer p f : SM unit).
Proof.
  intros Hf. unfold on_buffer. apply keeps_gets_bind. intros s Hs. change (id s) with s.
  destruct (se_proto_streams s !! p) as [j|]; [|done]. destruct (se_substreams s !! j) eqn:E; [|done].
  by eapply lane_insert.
Qed.

Lemma lane_other_event e pr : (∀ p d, e ≠ ProtocolMessage p d) →
  keeps (lane_inv x) (se_handle_session_event e pr : SM unit).
Proof.
  intros He. pose proof lane_close_all.
  assert (∀ p f, (∀ j b, moved_on (λ _, []) b (f j b)) → keeps (lane_inv x) (on_buffer p f : SM unit))
    by apply lane_on_buffer.
  assert (∀ j p b, moved_on (λ _, []) b (push_close (PeClose j p) b)).
  { intros j p b. eapply moved_on_nil; [apply moved_on_push_close|apply moved_on_flush]. }
  assert (∀ name, keeps (lane_inv x) (open_proto_stream name : SM unit))
    by (intros; unfold open_proto_stream; keeps_walk).
  destruct e as [j|? ?|? ? ? ? ?|? ? ?|? ?|? ?|p d|p|p|stream|j st err|? ?|?|? ? ?|? ?|? ?];
    try (unfold se_handle_session_event, handle_substream; keeps_walk; fail).
  by edestruct He.
Qed.

End Keeps.

(** A message moves to the stream of its protocol. *)
Lemma lane_message x p q d pr s : consistent s → (k, p) ∈ opened s → lane_inv x s →
  lane_inv (λ pr', x pr' ++ routed p pr' [(pr, ProtocolMessage q d)])
    (se_handle_session_event (ProtocolMessage q d) pr s).1.
Proof.
  intros Hc Ho [H1 H2].
  assert (Hsame : lane_inv (λ pr', x pr' ++ routed p pr' [(pr, ProtocolMessage q d)]) s).
  { split; [done|]. intros b Hb pr'. destruct (H2 b Hb pr') as (z & E & S1). exists z. split; [done|].
    rewrite app_assoc. by apply sublist_inserts_r. }
  unfold se_handle_session_event, on_buffer, mbind, M_bind, gets, modify. change (id s) with s.
  destruct (se_proto_streams s !! q) as [j|] eqn:Ej; [|done].
  destruct (se_substreams s !! j) as [b|] eqn:E; [|done]. split; [done|]. cbn [fst se_substreams se_put_substreams].
  intros c Hb. apply lookup_insert_Some in Hb as [[-> <-]|[_ Hb]]; [|by apply Hsame].
  assert (q = p) as ->. { eapply (co_unique _ (co_based _ Hc) k); [by apply Hc|done]. }
  eapply moved_on_nil; [|apply moved_on_flush].
  assert (Hm := moved_on_next _ _ _ _ _ (H2 b E) (moved_on_push_message pr d b)). intros pr'.
  destruct (Hm pr') as (z & E1 & E2). exists z. split; [done|]. unfold routed. cbn. rewrite Z.eqb_refl, andb_true_r.
  by destruct (same_priority pr pr').
Qed.

(** The event a poll takes from the service. *)
Definition taken (proceed : bool) (s : SS') : list (Priority * SE) :=
  if proceed && negb (is_local_close (se_state s)) then
    match (pr_poll_next (se_service_receiver s)).2 with Ready (Some a) => [a] | _ => [] end
  else [].

Lemma lane_more x tr p s : lane_inv x s → lane_inv (λ pr, x pr ++ routed p pr tr) s.
Proof.
  intros [H1 H2]. split; [done|]. intros b Hb pr. destruct (H2 b Hb pr) as (z & E & S1). exists z.
  split; [done|]. rewrite app_assoc. by apply sublist_inserts_r.
Qed.

Lemma lane_recv_service x p tr s : consistent s → (k, p) ∈ opened s → lane_inv x s →
  tr = match (pr_poll_next (se_service_receiver s)).2 with Ready (Some a) => [a] | _ => [] end →
  lane_inv (λ pr, x pr ++ routed p pr tr) (recv_service s).1.
Proof.
  intros Hc Ho Hl Htr. unfold recv_service, mbind at 1, M_bind at 1, gets.
  destruct (pr_poll_next (se_service_receiver s)) as [r' pl]. cbn in Htr.
  set (s1 := se_put_service_receiver r' s). assert (Hl1 : lane_inv x s1) by done.
  assert (Hc1 : consistent s1) by (by apply consistent_service_receiver).
  assert (Hm := lane_more x tr p s1 Hl1). unfold mbind at 1, M_bind at 1, modify. fold s1.
  destruct pl as [[[pr e]|]|]; [| |done].
  - unfold mbind at 1, M_bind at 1, gets. destruct (negb (is_normal (se_state s1))); [done|].
    assert (He : lane_inv (λ pr, x pr ++ routed p pr tr) (se_handle_session_event e pr s1).1).
    { destruct e; try (by apply lane_other_event). subst tr. by apply lane_message. }
    unfold mbind, M_bind. by destruct (se_handle_session_event e pr s1) as [s2 [a|[]|]].
  - assert (Hcl := lane_clean _ (se_put_state LocalClose s1) Hm).
    unfold mbind, M_bind. by destruct (clean (se_put_state LocalClose s1)) as [s2 [a|[]|]].
Qed.

Lemma stable_opened i p : stable (λ s, (i, p) ∈ opened s).
Proof. split; try done. intros ts s H. rewrite opened_spawn. apply elem_of_app. by left. Qed.

Lemma lane_poll x p i ord proceed s : run_inv i s → se_next_stream s + 1 < 2 ^ 64 →
  (k, p) ∈ opened s → lane_inv x s →
  wp (session_poll_next ord proceed) (λ _ s', (k, p) ∈ opened s' ∧
    lane_inv (λ pr, x pr ++ routed p pr (taken proceed s)) s') s.
Proof.
  intros (Hs & Hf & Hv) Hlt Ho Hl. unfold session_poll_next. wp_step. wp_step. unfold taken.
  destruct (is_local_close (se_state s)) eqn:Est.
  { wp_steps. rewrite andb_false_r. split; [done|]. by apply lane_more. }
  assert (Hop : open_inv (se_next_stream s) i s).
  { destruct Hs. split_and!; try done. by destruct (se_state s). }
  rewrite andb_true_r. pose proof (stable_opened k p) as Hk. wp_step.
  eapply wp_mono; [apply (wp_keeps (λ s', lane_inv x s' ∧ (k, p) ∈ opened s' ∧
    se_service_receiver s' = se_service_receiver s)); [by apply wp_flush| |done]|].
  { intros s1 (H1 & H2 & H3). split_and!; [by apply lane_flush|by apply (keeps_flush _ Hk)|].
    by apply (keeps_flush _ (stable_receiver _)). }
  intros [] s1 (H1 & L1 & O1 & R1). destruct proceed; cbn [negb]; [|wp_steps; split; [done|by apply lane_more]].
  wp_step. eapply wp_mono; [apply (wp_keeps (λ s', lane_inv x s' ∧ (k, p) ∈ opened s' ∧
    se_service_receiver s' = se_service_receiver s)); [by eapply wp_recv_substreams| |done]|].
  { intros s2 (G1 & G2 & G3). split_and!; [by apply lane_recv_substreams|by apply (keeps_recv_substreams _ Hk)|].
    by apply (keeps_recv_substreams _ (stable_receiver _)). }
  intros p1 s2 (H2 & L2 & O2 & R2). wp_step. rewrite <- R2 in *.
  set (tr := match (pr_poll_next (se_service_receiver s2)).2 with Ready (Some a) => [a] | _ => [] end).
  assert (L3 := lane_recv_service x p tr s2 (proj1 H2) O2 L2 eq_refl).
  assert (O3 : (k, p) ∈ opened (recv_service s2).1) by (by apply (keeps_recv_service _ Hk)).
  destruct (wp_run _ _ _ (wp_recv_service i s2 H2 Hv)) as (s3 & p2 & E & H3). rewrite E in L3, O3.
  unfold wp at 1. rewrite E. cbn in L3, O3.
  eapply wp_mono; [apply (wp_keeps (λ s', lane_inv (λ pr, x pr ++ routed p pr tr) s' ∧ (k, p) ∈ opened s'));
    [by apply (wp_check_state i)| |done]|naive_solver].
  intros s4 [G1 G2]. split; [by apply lane_check_state|]. by apply (keeps_check_state _ Hk).
Qed.

End Lanes.

(** A run from an open stream, with the events taken from the service. *)
Inductive session_trace (s1 : SS') : list (Priority * SE) → SS' → Prop :=
| trace_start : session_trace s1 [] s1
| trace_poll tr s ord proceed s' r : session_trace s1 tr s → se_next_stream s + 1 < 2 ^ 64 →
    session_poll_next ord proceed s = (s', ROk r) → session_trace s1 (tr ++ taken proceed s) s'
| trace_others tr s s' : session_trace s1 tr s → others s s' → session_trace s1 tr s'.

Lemma trace_run s0 s1 tr s : session_run s0 s1 → session_trace s1 tr s → session_run s0 s.
Proof. intros H. induction 1; [done|by eapply run_poll|by eapply run_others]. Qed.

(** C14: the messages the service sends for a protocol reach the stream of that protocol: as long as
    the stream is open, what was handed to its channel at a priority since some moment, followed by
    what is still buffered, are the messages that were buffered then and those the service sent
    for this protocol at this priority since, in order and each at most once; no message of
    another protocol is among them. *)
Theorem session_messages_in_order s0 s1 p k b1 tr s2 b2 pr : started s0 → session_run s0 s1 →
  se_proto_streams s1 !! p = Some k → se_substreams s1 !! k = Some b1 →
  session_trace s1 tr s2 → se_substreams s2 !! k = Some b2 →
  ∃ z, lane_sent pr b2 = lane_sent pr b1 ++ z ∧
    sublist (z ++ lane_buf pr b2) (lane_buf pr b1 ++ routed p pr tr).
Proof.
  intros H0 Hr Hp Hb1 Ht. revert b2.
  assert (Ho : (k, p) ∈ opened s1) by (apply (run_inv_run _ _ H0 Hr); done).
  assert (Hinv : (k, p) ∈ opened s2 ∧ lane_inv k b1 (λ pr, routed p pr tr) s2).
  { induction Ht as [|tr s ord proceed s' r Ht IH Hn E|tr s s' Ht IH Hot].
    - split; [done|]. split; [by apply (run_inv_run _ _ H0 Hr) in Ho as [_ ?]|]. intros b Hb.
      simplify_eq. apply moved_on_refl.
    - destruct IH as [IH1 IH2].
      pose proof (run_inv_run _ _ H0 (trace_run _ _ _ _ Hr Ht)) as Hi.
      destruct (wp_ok _ _ _ _ _ (lane_poll k b1 _ p _ ord proceed s Hi Hn IH1 IH2) E) as [R1 R2].
      split; [done|]. destruct R2 as [R2 R3]. split; [done|]. intros b Hb pr'.
      destruct (R3 b Hb pr') as (z & E1 & E2). exists z. split; [done|]. unfold routed in *. by rewrite omap_app.
    - destruct IH as [IH1 [IH2 IH3]]. destruct Hot as [subs er sv vr pend Hdr _ _ _]. split; [done|].
      split; [done|]. cbn. intros b Hb. specialize (Hdr k). rewrite Hb in Hdr.
      destruct (se_substreams s !! k) as [c|] eqn:E; [|done]. destruct Hdr as (D1 & D2 & D3 & D4).
      intros pr'. destruct (IH3 c eq_refl pr') as (z & E1 & E2). exists z.
      unfold lane_sent, lane_buf in *. by rewrite D1, D2, D3, D4. }
  intros b2 Hb2. by apply Hinv.
Qed.

(** Everything at a priority that was handed to the channel or is still buffered. *)
Definition lane_all (pr : Priority) (b : PBuf) : list PE :=
  match pr with
  | High => ps_quick (pb_sender b) ++ pb_high b
  | Normal => ps_normal (pb_sender b) ++ pb_normal b
  end.

(** A message for an open protocol is appended at its priority to what its stream was given,
    with nothing lost, unless the channel of the stream is gone; no other stream is touched. A
    message for a protocol that is not open changes nothing at all: it is dropped, and its bytes
    stay in the count of pending bytes. *)
Theorem session_routes_message p d pr (s : SS') :
  match se_proto_streams s !! p with
  | None => se_handle_session_event (ProtocolMessage p d) pr s = (s, ROk tt)
  | Some k => ∀ b, se_substreams s !! k = Some b → ∃ b',
      se_handle_session_event (ProtocolMessage p d) pr s =
        (se_put_substreams (<[k := b']> (se_substreams s)) s, ROk tt) ∧
      ((∀ pr', lane_all pr' b' = lane_all pr' b ++ if same_priority pr pr' then [PeMessage d] else []) ∨
       pb_is_empty b' = true)
  end.
Proof.
  unfold se_handle_session_event, on_buffer, mbind, M_bind, gets, modify. change (id s) with s.
  destruct (se_proto_streams s !! p) as [k|]; [|done]. intros b ->. eexists. split; [reflexivity|].
  pose proof (PriorityBuffer_try_send_in_order (push_priority pr (PeMessage d) b)) as H.
  destruct (PriorityBuffer_try_send _) as [b' r]. cbn [fst]. destruct r; [left|left|by right].
  - destruct H as (H1 & H2 & H3). unfold pb_is_empty in H3.
    apply andb_true_iff in H3 as [H3 H4]. destruct (pb_high b') eqn:Eh, (pb_normal b') eqn:En; try done.
    intros []; unfold lane_all; rewrite ?Eh, ?En, ?H1, ?H2, app_nil_r;
      destruct pr; cbn; by rewrite ?app_assoc, ?app_nil_r.
  - destruct H as (H1 & H2 & _). intros []; unfold lane_all; rewrite ?H1, ?H2;
      destruct pr; cbn; by rewrite ?app_assoc, ?app_nil_r.
Qed.

End Proofs.

(** ** A concrete session *)

#[export] Instance demo_channel : NewChannel (SlotPriority (ProtocolEvent unit)) unit :=
  λ _, (mkSlotPriority [] [] 2, tt).
#[export] Instance demo_reframe : Reframe unit unit := { rf_frame _ f := f; rf_split _ f := (f, f) }.
#[export] Instance demo_join : JoinHandle bool := λ j, (j, if j then Ready tt else Pending).

Definition DemoSession := @Session unit unit unit unit unit unit (QueueReceiver (ProtocolEvent unit))
  (SlotPriority (ProtocolEvent unit)) unit unit unit (SlotSender (SessionEvent unit unit unit))
  (TwoQueues (SessionEvent unit unit unit)) bool.

Definition demo_meta : Meta := mkMeta 7 (λ _, str "ping") [str "1"] None None false.
Definition demo_session_context : SessionContext := mkSessionContext 4 [] Outbound None false 0.
Definition demo_start : DemoSession :=
  Session_new (mkSlotSender [] 5 false) (mkTwoQueues [] [] false) {[str "ping" := demo_meta]}
    {[7 := demo_meta]} SessionConfig_default false demo_session_context tt
    (mkQueueReceiver [] false false) ∅ ∅ [(true, true)].

Lemma demo_started : started demo_start.
Proof.
  unfold started, demo_start. do 12 eexists. split; [reflexivity|]. split_and!; [|done|by intros []].
  intros p m H. apply lookup_singleton_Some in H as [<- <-]. rewrite lookup_singleton_eq. eauto.
Qed.

(** Other tasks deliver events to the session. *)
Definition deliver (es : list (ProtocolEvent unit)) (high normal : list (SessionEvent unit unit unit))
    (s : DemoSession) : DemoSession :=
  se_put_context (put_pending_data_size 10 (se_context s))
   (se_put_service_receiver
     (mkTwoQueues (tq_high (se_service_receiver s) ++ high) (tq_normal (se_service_receiver s) ++ normal)
       (tq_closed (se_service_receiver s)))
     (se_put_service_sender (se_service_sender s) (se_put_proto_event_receiver
       (mkQueueReceiver (qr_queue (se_proto_event_receiver s) ++ es)
         (qr_closed (se_proto_event_receiver s)) (qr_terminated (se_proto_event_receiver s)))
       (se_put_substreams (se_substreams s) s)))).

Lemma deliver_others es high normal s : Forall (event_ok (opened s)) es → Forall service_event_ok high →
  Forall service_event_ok normal → others s (deliver es high normal s).
Proof.
  rewrite !Forall_forall. intros H1 H2 H3. constructor; try done.
  - intros k. by destruct (se_substreams s !! k).
  - intros e [He|He]%elem_of_app; auto.
  - intros [] e [He|He]%elem_of_app; auto.
Qed.

Definition demo_poll (s : DemoSession) : DemoSession := (session_poll_next [0] true s).1.

Definition demo_opened : DemoSession := demo_poll (deliver [PeOpen (str "ping") tt (str "1")] [] [] demo_start).
Definition demo_messages : DemoSession :=
  demo_poll (deliver [] [] [ProtocolMessage 7 (str "a"); ProtocolMessage 7 (str "b")] demo_opened).
Definition demo_second : DemoSession := demo_poll demo_messages.

Lemma demo_opened_run : session_run demo_start demo_opened.
Proof.
  eapply (run_poll _ (deliver [PeOpen (str "ping") tt (str "1")] [] [] demo_start) [0] true).
  - eapply run_others; [apply run_start|]. apply deliver_others; by repeat constructor.
  - by vm_compute.
  - unfold demo_opened, demo_poll. by vm_compute.
Qed.

Definition demo_queued : DemoSession := deliver [] [] [ProtocolMessage 7 (str "a"); ProtocolMessage 7 (str "b")] demo_opened.

Lemma demo_trace : session_trace demo_opened
  [(Normal, ProtocolMessage 7 (str "a")); (Normal, ProtocolMessage 7 (str "b"))] demo_second.
Proof.
  change (session_trace demo_opened (([] ++ taken true demo_queued) ++ taken true demo_messages) demo_second).
  eapply (trace_poll _ _ demo_messages [0] true); [|by vm_compute|unfold demo_second, demo_poll; by vm_compute].
  eapply (trace_poll _ _ demo_queued [0] true); [|by vm_compute|unfold demo_messages, demo_poll; by vm_compute].
  eapply trace_others; [apply trace_start|]. apply deliver_others; by repeat constructor.
Qed.

Definition demo_buffer (s : DemoSession) : @PriorityBuffer (SlotPriority (ProtocolEvent unit)) (ProtocolEvent unit) :=
  default (PriorityBuffer_new (mkSlotPriority [] [] 0)) (se_substreams s !! 0).

Lemma session_streams_consistent_witness :
  se_proto_streams demo_opened !! 7 = Some 0 ∧ is_Some (se_substreams demo_opened !! 0) ∧
  ∃ s' r, session_poll_next [0] true demo_opened = (s', ROk r).
Proof.
  destruct (session_streams_consistent demo_start demo_opened demo_started demo_opened_run) as (_ & _ & H & Hp).
  - by vm_compute.
  - split; [by vm_compute|]. split; [apply (H eq_refl 7); by vm_compute|apply Hp].
Defined.

Lemma session_messages_in_order_witness :
  lane_sent Normal (demo_buffer demo_second) = [str "a"; str "b"] ∧
  ∃ z, lane_sent Normal (demo_buffer demo_second) = lane_sent Normal (demo_buffer demo_opened) ++ z ∧
    sublist (z ++ lane_buf Normal (demo_buffer demo_second)) [str "a"; str "b"].
Proof.
  split; [by vm_compute|].
  exact (session_messages_in_order demo_start demo_opened 7 0 (demo_buffer demo_opened) _ demo_second
    (demo_buffer demo_second) Normal demo_started demo_opened_run ltac:(by vm_compute) ltac:(by vm_compute)
    demo_trace ltac:(by vm_compute)).
Defined.

(** The service closes the session. *)
Definition demo_closing : DemoSession := deliver [] [SessionClose 4] [] demo_opened.

Lemma demo_closing_run : session_run demo_start demo_closing.
Proof. eapply run_others; [apply demo_opened_run|]. apply deliver_others; by repeat constructor. Qed.

Lemma session_end_reported_witness :
  let s' := demo_poll demo_closing in
  session_poll_next [0] true demo_closing = (s', ROk (Ready None)) ∧ sc_closed (se_context s') = true ∧
  se_substreams s' = ∅ ∧
  ∃ sender events, TkSendService sender (events ++ [SessionClose 4]) ∈ se_tasks s'.
Proof.
  intros s'. assert (E : session_poll_next [0] true demo_closing = (s', ROk (Ready None))) by by vm_compute.
  split; [exact E|].
  destruct (session_end_reported demo_start demo_closing [0] true s' demo_started demo_closing_run
    ltac:(by vm_compute) E) as (H1 & H2 & _ & H4). by split_and!.
Defined.

(** The remote closes the connection while a protocol is open. *)
Definition demo_remote : DemoSession := demo_poll (deliver [] [ChangeState 4 RemoteClose None] [] demo_opened).

Lemma demo_remote_run : session_run demo_start demo_remote.
Proof.
  eapply (run_poll _ (deliver [] [ChangeState 4 RemoteClose None] [] demo_opened) [0] true).
  - eapply run_others; [apply demo_opened_run|]. apply deliver_others; by repeat constructor.
  - by vm_compute.
  - unfold demo_remote, demo_poll. by vm_compute.
Qed.

Lemma session_closes_in_two_polls_witness :
  se_state demo_remote = RemoteClose ∧
  ∃ sender events, TkSendService sender (events ++ [SessionClose 4]) ∈
    se_tasks (demo_poll (deliver [] [] [] (demo_poll demo_remote))).
Proof.
  split; [by vm_compute|].
  refine (session_closes_in_two_polls demo_start demo_remote [0] (demo_poll demo_remote) _
    (deliver [] [] [] (demo_poll demo_remote)) [0] _ _ demo_started demo_remote_run _ _ _ _ _ _).
  - by vm_compute.
  - by vm_compute.
  - unfold demo_poll at 1. by vm_compute.
  - apply deliver_others; constructor.
  - by vm_compute.
  - unfold demo_poll at 1. by vm_compute.
Defined.

Lemma session_routes_message_witness :
  se_handle_session_event (ProtocolMessage 8 (str "x")) High demo_opened = (demo_opened, ROk tt) ∧
  ∃ b', se_substreams (se_handle_session_event (ProtocolMessage 7 (str "x")) High demo_opened).1 !! 0 = Some b' ∧
    (lane_all High b' = lane_all High (demo_buffer demo_opened) ++ [PeMessage (str "x")] ∨ pb_is_empty b' = true).
Proof.
  split; [exact (session_routes_message 8 (str "x") High demo_opened)|].
  destruct (session_routes_message 7 (str "x") High demo_opened (demo_buffer demo_opened) ltac:(by vm_compute))
    as (b' & E & H). exists b'. rewrite E. split; [apply lookup_insert_eq|].
  destruct H as [H|H]; [left; apply H|by right].
Defined.
