(* ===== verification/Service.v ===== *)
(** * The service ([tentacle/tentacle/src/service.rs], [service/config.rs], [service/event.rs],
      [service/helper.rs], [context.rs])

    [InnerService] is one task: it opens sessions for the connections that finished their
    handshake, routes the tasks of the users to the sessions, and reports events to the user.
    An [await] inside a handler only delays it, so a handler is one step here. Spawned tasks are
    recorded in [iv_tasks]. A hash map is iterated in the order [HashOrder] gives. The feature
    [upnp] is off. *)

From Stdlib Require Import ZArith Lia Bool.
From stdpp Require Import base list gmap.
From S2P Require Import Prelude Text Channels PriorityChannel Messages SecioHandshake PeerId Multiaddr Utils Buffers YamuxFrame Wire Select Tentacle Substream Session.

Open Scope Z_scope.

(** ** Data *)

Inductive State := Running (num : Z) | Forever | PreShutdown.

Definition State_new (forever : bool) : State := if forever then Forever else Running 0.
Definition is_shutdown (s : State) : bool :=
  match s with Running num => num =? 0 | PreShutdown => true | Forever => false end.
Definition pre_shutdown (s : State) : State := PreShutdown.
(** [None] where the arithmetic panics. *)
Definition increase (s : State) : option State :=
  match s with Running num => Running <$> checked_add 64 num 1 | s => Some s end.
Definition decrease (s : State) : option State :=
  match s with Running num => Running <$> checked_sub num 1 | s => Some s end.
Definition into_inner (s : State) : option Z :=
  match s with Running num => Some num | PreShutdown | Forever => None end.

Record ServiceConfig := mkServiceConfig {
  cf_session_config : SessionConfig;
  cf_max_frame_length : Z;
  cf_keep_buffer : bool;
  cf_max_connection_number : Z;
}.

Definition ServiceConfig_default : ServiceConfig :=
  mkServiceConfig SessionConfig_default (1024 * 1024 * 8) false 65535.

(** [ProtocolMeta]; a handle is whether it is a callback. *)
Record ProtocolMeta := mkProtocolMeta {
  pm_inner : Meta;
  pm_service_handle : bool;
  pm_session_handle : bool;
  pm_before_send : option (bytes → bytes);
}.

Definition pm_name (m : ProtocolMeta) : bytes := m_name (pm_inner m) (m_id (pm_inner m)).

Inductive TargetProtocol := TpAll | TpSingle (id : Z) | TpFilter (f : Z → bool).

(** A filter answers by the identifier alone. *)
Inductive TargetSession := TsAll | TsSingle (id : Z) | TsMulti (ids : list Z) | TsFilter (f : Z → bool).

Inductive Source := External | Internal.

Inductive ServiceEvent :=
| EvSessionClose (session : Z)
| EvSessionOpen (session : Z)
| EvListenClose (address : Multiaddr)
| EvListenStarted (address : Multiaddr).

Inductive ServiceError :=
| ErDialerError (address : Multiaddr) (error : DialerErrorKind)
| ErListenError (address : Multiaddr) (error : ListenErrorKind)
| ErProtocolSelectError (proto_name : option bytes) (session : Z)
| ErProtocolError (id proto_id : Z) (error : ErrorKind)
| ErSessionTimeout (session : Z)
| ErMuxerError (session : Z) (error : ErrorKind)
| ErProtocolHandleError (proto_id : Z) (error : ProtocolHandleErrorKind)
| ErSessionBlocked (session : Z).

Inductive ServiceEventAndError :=
| UEvent (e : ServiceEvent)
| UError (e : ServiceError)
| UUpdate (listen_addrs : list Multiaddr).

(** [FT] is a boxed future. *)
Inductive ServiceTask (FT : Type) :=
| TaProtocolMessage (target : TargetSession) (proto_id : Z) (data : bytes)
| TaProtocolOpen (session_id : Z) (target : TargetProtocol)
| TaProtocolClose (session_id proto_id : Z)
| TaSetProtocolNotify (proto_id interval token : Z)
| TaRemoveProtocolNotify (proto_id token : Z)
| TaSetProtocolSessionNotify (session_id proto_id interval token : Z)
| TaRemoveProtocolSessionNotify (session_id proto_id token : Z)
| TaFutureTask (task : FT)
| TaDisconnect (session_id : Z)
| TaDial (address : Multiaddr) (target : TargetProtocol)
| TaListen (address : Multiaddr)
| TaShutdown (quick : bool).
Arguments TaProtocolMessage {FT}.
Arguments TaProtocolOpen {FT}.
Arguments TaProtocolClose {FT}.
Arguments TaSetProtocolNotify {FT}.
Arguments TaRemoveProtocolNotify {FT}.
Arguments TaSetProtocolSessionNotify {FT}.
Arguments TaRemoveProtocolSessionNotify {FT}.
Arguments TaFutureTask {FT}.
Arguments TaDisconnect {FT}.
Arguments TaDial {FT}.
Arguments TaListen {FT}.
Arguments TaShutdown {FT}.

(** ** What the service uses of the runtime and the libraries *)

(** [sender.send(a).await]: it waits for room; [false] when the channel is closed. *)
Class AwaitSender (X A : Type) := {
  aw_send : X → A → X * bool;
  aw_open : X → bool;
  aw_sent : X → list A;
}.
#[global] Hint Mode AwaitSender ! - : typeclass_instances.

(** A send succeeds while the channel is open. *)
Class AwaitSenderLaws (X A : Type) `{AS : AwaitSender X A} : Prop := {
  aw_ok : ∀ (x : X) (a : A), (aw_send x a).2 = aw_open x;
  aw_view : ∀ (x : X) (a : A), aw_sent (aw_send x a).1 = if aw_open x then aw_sent x ++ [a] else aw_sent x;
  aw_still : ∀ (x : X) (a : A), aw_open (aw_send x a).1 = aw_open x;
}.

(** The same with a priority ([send] and [quick_send]). *)
Class AwaitPriority (X A : Type) := {
  awp_send : X → Priority → A → X * bool;
  awp_sent : X → list (Priority * A);
}.
#[global] Hint Mode AwaitPriority ! - : typeclass_instances.

Class AwaitPriorityLaws (X A : Type) `{AS : AwaitPriority X A} : Prop := {
  awp_view : ∀ (x : X) p (a : A), awp_sent (awp_send x p a).1 =
    if (awp_send x p a).2 then awp_sent x ++ [(p, a)] else awp_sent x;
}.

(** [close_channel] of the sender to the user. *)
Class CloseSender (X : Type) := cs_close : X → X.

Class CloseSenderLaws (X A : Type) `{AS : AwaitSender X A} `{CX : CloseSender X} : Prop := {
  cs_closed : ∀ x : X, aw_open (cs_close x) = false;
}.

(** [mpsc::channel]. *)
Class NewMpsc (X R : Type) := new_mpsc : Z → X * R.

(** The handle of a task that was just spawned. *)
Class SpawnHandle (J : Type) := spawn_handle : J.

(** The order in which a hash map is iterated. *)
Class HashOrder := hash_order : ∀ A : Type, list A → list A.
Class HashOrderLaws `{HO : HashOrder} : Prop := hash_order_perm : ∀ A (l : list A), hash_order A l ≡ₚ l.

#[export] Instance hash_order_id : HashOrder := λ _ l, l.
#[export] Instance hash_order_id_laws : HashOrderLaws (HO := hash_order_id).
Proof. by intros A l. Qed.

Section Service.
Context {T F Hd St Inc ES ER Q QR SS PS VS VR J CS HS WR TR SR PR FT : Type}.
Abbreviation SE := (SessionEvent Hd St Inc) (only parsing).
Abbreviation Sess := (@Session T F Hd St Inc ES ER Q QR SS PS VS VR J) (only parsing).
Context `{HO : HashOrder} `{V : Varint} `{TC : TextCodecs} `{PRM : Primitives}.
Context `{NV : NewChannel CS VR} `{NE : NewMpsc ES ER} `{NS : NewMpsc SS SR} `{NP : NewMpsc PS PR}.
Context `{SH : SpawnHandle J} `{CX : CloseSender HS}.
Context `{AC : AwaitPriority CS SE} `{AH : AwaitSender HS ServiceEventAndError}.
Context `{ASv : AwaitSender SS ServiceProtocolEvent} `{ASe : AwaitSender PS SessionProtocolEvent}.
Context `{RW : Receiver WR SE} `{CW : CloseReceiver WR} `{RT : PriorityReceiver TR (ServiceTask FT)}.

(** [SessionController]. *)
Record SessionController := mkController { ct_sender : CS; ct_inner : SessionContext }.

Definition controller_send (pr : Priority) (event : SE) (c : SessionController) : SessionController :=
  mkController (awp_send (ct_sender c) pr event).1 (ct_inner c).

(** The tasks the service spawns. *)
Inductive InnerTask :=
| ItListener (incoming : Inc) (listen_address : Multiaddr)
| ItListen (address : Multiaddr)
| ItDial (address : Multiaddr)
| ItShutdownHandle (handle : Hd)
| ItSession (session : Sess)
| ItSessionProto (id proto_id : Z) (receiver : PR)
| ItServiceProto (proto_id : Z) (receiver : SR)
| ItFuture (task : FT)
| ItTaskManager.

Record InnerService := mkInnerService {
  iv_protocol_configs : gmap Z ProtocolMeta;
  iv_sessions : gmap Z SessionController;
  iv_multi_transport : MultiTransport;
  iv_listens : gset Multiaddr;
  iv_dial_protocols : gmap Multiaddr TargetProtocol;
  iv_config : ServiceConfig;
  iv_state : State;
  iv_next_session : Z;
  iv_before_sends : gmap Z (bytes → bytes);
  iv_handle_sender : HS;
  iv_service_proto_handles : gmap Z SS;
  iv_session_proto_handles : gmap (Z * Z) PS;
  iv_session_event_sender : VS;
  iv_session_event_receiver : WR;
  iv_context_listens : list Multiaddr;
  iv_service_task_receiver : TR;
  iv_shutdown : bool;
  iv_wait_handle : list (bool * J);
  iv_tasks : list InnerTask;
}.
Definition iv_put_protocol_configs (v : gmap Z ProtocolMeta) (s : InnerService) : InnerService :=
  mkInnerService v (iv_sessions s) (iv_multi_transport s) (iv_listens s) (iv_dial_protocols s)
    (iv_config s) (iv_state s) (iv_next_session s) (iv_before_sends s) (iv_handle_sender s)
    (iv_service_proto_handles s) (iv_session_proto_handles s) (iv_session_event_sender s)
    (iv_session_event_receiver s) (iv_context_listens s) (iv_service_task_receiver s)
    (iv_shutdown s) (iv_wait_handle s) (iv_tasks s).
Definition iv_put_sessions (v : gmap Z SessionController) (s : InnerService) : InnerService :=
  mkInnerService (iv_protocol_configs s) v (iv_multi_transport s) (iv_listens s)
    (iv_dial_protocols s) (iv_config s) (iv_state s) (iv_next_session s) (iv_before_sends s)
    (iv_handle_sender s) (iv_service_proto_handles s) (iv_session_proto_handles s)
    (iv_session_event_sender s) (iv_session_event_receiver s) (iv_context_listens s)
    (iv_service_task_receiver s) (iv_shutdown s) (iv_wait_handle s) (iv_tasks s).
Definition iv_put_listens (v : gset Multiaddr) (s : InnerService) : InnerService :=
  mkInnerService (iv_protocol_configs s) (iv_sessions s) (iv_multi_transport s) v
    (iv_dial_protocols s) (iv_config s) (iv_state s) (iv_next_session s) (iv_before_sends s)
    (iv_handle_sender s) (iv_service_proto_handles s) (iv_session_proto_handles s)
    (iv_session_event_sender s) (iv_session_event_receiver s) (iv_context_listens s)
    (iv_service_task_receiver s) (iv_shutdown s) (iv_wait_handle s) (iv_tasks s).
Definition iv_put_dial_protocols (v : gmap Multiaddr TargetProtocol) (s : InnerService) : InnerService :=
  mkInnerService (iv_protocol_configs s) (iv_sessions s) (iv_multi_transport s) (iv_listens s) v
    (iv_config s) (iv_state s) (iv_next_session s) (iv_before_sends s) (iv_handle_sender s)
    (iv_service_proto_handles s) (iv_session_proto_handles s) (iv_session_event_sender s)
    (iv_session_event_receiver s) (iv_context_listens s) (iv_service_task_receiver s)
    (iv_shutdown s) (iv_wait_handle s) (iv_tasks s).
Definition iv_put_config (v : ServiceConfig) (s : InnerService) : InnerService :=
  mkInnerService (iv_protocol_configs s) (iv_sessions s) (iv_multi_transport s) (iv_listens s)
    (iv_dial_protocols s) v (iv_state s) (iv_next_session s) (iv_before_sends s)
    (iv_handle_sender s) (iv_service_proto_handles s) (iv_session_proto_handles s)
    (iv_session_event_sender s) (iv_session_event_receiver s) (iv_context_listens s)
    (iv_service_task_receiver s) (iv_shutdown s) (iv_wait_handle s) (iv_tasks s).
Definition iv_put_state (v : State) (s : InnerService) : InnerService :=
  mkInnerService (iv_protocol_configs s) (iv_sessions s) (iv_multi_transport s) (iv_listens s)
    (iv_dial_protocols s) (iv_config s) v (iv_next_session s) (iv_before_sends s)
    (iv_handle_sender s) (iv_service_proto_handles s) (iv_session_proto_handles s)
    (iv_session_event_sender s) (iv_session_event_receiver s) (iv_context_listens s)
    (iv_service_task_receiver s) (iv_shutdown s) (iv_wait_handle s) (iv_tasks s).
Definition iv_put_next_session (v : Z) (s : InnerService) : InnerService :=
  mkInnerService (iv_protocol_configs s) (iv_sessions s) (iv_multi_transport s) (iv_listens s)
    (iv_dial_protocols s) (iv_config s) (iv_state s) v (iv_before_sends s) (iv_handle_sender s)
    (iv_service_proto_handles s) (iv_session_proto_handles s) (iv_session_event_sender s)
    (iv_session_event_receiver s) (iv_context_listens s) (iv_service_task_receiver s)
    (iv_shutdown s) (iv_wait_handle s) (iv_tasks s).
Definition iv_put_before_sends (v : gmap Z (bytes → bytes)) (s : InnerService) : InnerService :=
  mkInnerService (iv_protocol_configs s) (iv_sessions s) (iv_multi_transport s) (iv_listens s)
    (iv_dial_protocols s) (iv_config s) (iv_state s) (iv_next_session s) v (iv_handle_sender s)
    (iv_service_proto_handles s) (iv_session_proto_handles s) (iv_session_event_sender s)
    (iv_session_event_receiver s) (iv_context_listens s) (iv_service_task_receiver s)
    (iv_shutdown s) (iv_wait_handle s) (iv_tasks s).
Definition iv_put_handle_sender (v : HS) (s : InnerService) : InnerService :=
  mkInnerService (iv_protocol_configs s) (iv_sessions s) (iv_multi_transport s) (iv_listens s)
    (iv_dial_protocols s) (iv_config s) (iv_state s) (iv_next_session s) (iv_before_sends s) v
    (iv_service_proto_handles s) (iv_session_proto_handles s) (iv_session_event_sender s)
    (iv_session_event_receiver s) (iv_context_listens s) (iv_service_task_receiver s)
    (iv_shutdown s) (iv_wait_handle s) (iv_tasks s).
Definition iv_put_service_proto_handles (v : gmap Z SS) (s : InnerService) : InnerService :=
  mkInnerService (iv_protocol_configs s) (iv_sessions s) (iv_multi_transport s) (iv_listens s)
    (iv_dial_protocols s) (iv_config s) (iv_state s) (iv_next_session s) (iv_before_sends s)
    (iv_handle_sender s) v (iv_session_proto_handles s) (iv_session_event_sender s)
    (iv_session_event_receiver s) (iv_context_listens s) (iv_service_task_receiver s)
    (iv_shutdown s) (iv_wait_handle s) (iv_tasks s).
Definition iv_put_session_proto_handles (v : gmap (Z * Z) PS) (s : InnerService) : InnerService :=
  mkInnerService (iv_protocol_configs s) (iv_sessions s) (iv_multi_transport s) (iv_listens s)
    (iv_dial_protocols s) (iv_config s) (iv_state s) (iv_next_session s) (iv_before_sends s)
    (iv_handle_sender s) (iv_service_proto_handles s) v (iv_session_event_sender s)
    (iv_session_event_receiver s) (iv_context_listens s) (iv_service_task_receiver s)
    (iv_shutdown s) (iv_wait_handle s) (iv_tasks s).
Definition iv_put_session_event_receiver (v : WR) (s : InnerService) : InnerService :=
  mkInnerService (iv_protocol_configs s) (iv_sessions s) (iv_multi_transport s) (iv_listens s)
    (iv_dial_protocols s) (iv_config s) (iv_state s) (iv_next_session s) (iv_before_sends s)
    (iv_handle_sender s) (iv_service_proto_handles s) (iv_session_proto_handles s)
    (iv_session_event_sender s) v (iv_context_listens s) (iv_service_task_receiver s)
    (iv_shutdown s) (iv_wait_handle s) (iv_tasks s).
Definition iv_put_context_listens (v : list Multiaddr) (s : InnerService) : InnerService :=
  mkInnerService (iv_protocol_configs s) (iv_sessions s) (iv_multi_transport s) (iv_listens s)
    (iv_dial_protocols s) (iv_config s) (iv_state s) (iv_next_session s) (iv_before_sends s)
    (iv_handle_sender s) (iv_service_proto_handles s) (iv_session_proto_handles s)
    (iv_session_event_sender s) (iv_session_event_receiver s) v (iv_service_task_receiver s)
    (iv_shutdown s) (iv_wait_handle s) (iv_tasks s).
Definition iv_put_service_task_receiver (v : TR) (s : InnerService) : InnerService :=
  mkInnerService (iv_protocol_configs s) (iv_sessions s) (iv_multi_transport s) (iv_listens s)
    (iv_dial_protocols s) (iv_config s) (iv_state s) (iv_next_session s) (iv_before_sends s)
    (iv_handle_sender s) (iv_service_proto_handles s) (iv_session_proto_handles s)
    (iv_session_event_sender s) (iv_session_event_receiver s) (iv_context_listens s) v
    (iv_shutdown s) (iv_wait_handle s) (iv_tasks s).
Definition iv_put_shutdown (v : bool) (s : InnerService) : InnerService :=
  mkInnerService (iv_protocol_configs s) (iv_sessions s) (iv_multi_transport s) (iv_listens s)
    (iv_dial_protocols s) (iv_config s) (iv_state s) (iv_next_session s) (iv_before_sends s)
    (iv_handle_sender s) (iv_service_proto_handles s) (iv_session_proto_handles s)
    (iv_session_event_sender s) (iv_session_event_receiver s) (iv_context_listens s)
    (iv_service_task_receiver s) v (iv_wait_handle s) (iv_tasks s).
Definition iv_put_wait_handle (v : list (bool * J)) (s : InnerService) : InnerService :=
  mkInnerService (iv_protocol_configs s) (iv_sessions s) (iv_multi_transport s) (iv_listens s)
    (iv_dial_protocols s) (iv_config s) (iv_state s) (iv_next_session s) (iv_before_sends s)
    (iv_handle_sender s) (iv_service_proto_handles s) (iv_session_proto_handles s)
    (iv_session_event_sender s) (iv_session_event_receiver s) (iv_context_listens s)
    (iv_service_task_receiver s) (iv_shutdown s) v (iv_tasks s).
Definition iv_put_tasks (v : list InnerTask) (s : InnerService) : InnerService :=
  mkInnerService (iv_protocol_configs s) (iv_sessions s) (iv_multi_transport s) (iv_listens s)
    (iv_dial_protocols s) (iv_config s) (iv_state s) (iv_next_session s) (iv_before_sends s)
    (iv_handle_sender s) (iv_service_proto_handles s) (iv_session_proto_handles s)
    (iv_session_event_sender s) (iv_session_event_receiver s) (iv_context_listens s)
    (iv_service_task_receiver s) (iv_shutdown s) (iv_wait_handle s) v.
Abbreviation SM := (M InnerService Empty_set) (only parsing).

(** [for x in l { f(x) }] *)
Fixpoint for_each {A} (f : A → SM unit) (l : list A) : SM unit :=
  match l with
  | [] => mret tt
  | x :: l' => f x ;; for_each f l'
  end.

Definition iter_map {A} (m : gmap Z A) : list (Z * A) := hash_order _ (map_to_list m).
Definition iter_keys {A} (m : gmap Z A) : list Z := (iter_map m).*1.

Definition iv_spawn (t : InnerTask) : SM unit := modify (λ s, iv_put_tasks (iv_tasks s ++ [t]) s).

(** [let _ignore = self.handle_sender.send(event).await] *)
Definition report (e : ServiceEventAndError) : SM unit :=
  modify (λ s, iv_put_handle_sender (aw_send (iv_handle_sender s) e).1 s).

Definition put_state_or_panic (f : State → option State) : SM unit :=
  st ← gets iv_state;
  st' ← or_panic (f st);
  modify (iv_put_state st').

(** Reading an address panics where its iterator does. *)
Definition or_iter_panic {A} (r : res MaError A) : SM A :=
  match r with ROk a => mret a | _ => panic end.

(** ** Dialing and listening *)

Definition spawn_listener (incoming : Inc) (listen_address : Multiaddr) : SM unit :=
  iv_spawn (ItListener incoming listen_address).

(** [Result<()>]: the error of the transport, if any. *)
Definition listen_inner (address : Multiaddr) : SM (option TransportErrorKind) :=
  t ← gets iv_multi_transport;
  r ← or_iter_panic (multi_transport t address);
  match r with
  | Some e => mret (Some e)
  | None => iv_spawn (ItListen address) ;; put_state_or_panic increase ;; mret None
  end.

Definition dial_inner (address : Multiaddr) (target : TargetProtocol) : SM (option TransportErrorKind) :=
  modify (λ s, iv_put_dial_protocols (<[address := target]> (iv_dial_protocols s)) s) ;;
  t ← gets iv_multi_transport;
  r ← or_iter_panic (multi_transport t address);
  match r with
  | Some e => mret (Some e)
  | None => iv_spawn (ItDial address) ;; put_state_or_panic increase ;; mret None
  end.

(** ** Sessions *)

(** One protocol with a session level callback. *)
Definition session_handle_open (id proto_id : Z) : SM (bool * J) :=
  s ← gets (λ s, s);
  let '(sender, receiver) := new_mpsc (channel_size (cf_session_config (iv_config s))) in
  modify (iv_put_session_proto_handles (<[(id, proto_id) := sender]> (iv_session_proto_handles s))) ;;
  iv_spawn (ItSessionProto id proto_id receiver) ;;
  mret (true, spawn_handle).

Fixpoint session_handles_loop (id : Z) (metas : list (Z * ProtocolMeta)) : SM (list (bool * J)) :=
  match metas with
  | [] => mret []
  | (proto_id, meta) :: rest =>
      s ← gets (λ s, s);
      if pm_session_handle meta && bool_decide (is_Some (iv_sessions s !! id)) then
        h ← session_handle_open id proto_id;
        hs ← session_handles_loop id rest;
        mret (h :: hs)
      else session_handles_loop id rest
  end.

Definition session_handles_open (id : Z) : SM (list (bool * J)) :=
  metas ← gets iv_protocol_configs;
  session_handles_loop id (iter_map metas).

(** Counts a message as pending and hands it to a session. *)
Definition message_to (id proto_id : Z) (pr : Priority) (data : bytes) : SM unit :=
  sessions ← gets iv_sessions;
  match sessions !! id with
  | Some control =>
      let control := mkController (ct_sender control) (incr_pending_data_size (len data) (ct_inner control)) in
      modify (iv_put_sessions (<[id := controller_send pr (ProtocolMessage proto_id data) control]> sessions))
  | None => mret tt
  end.

Definition handle_message (target : TargetSession) (proto_id : Z) (pr : Priority) (data : bytes) : SM unit :=
  s ← gets (λ s, s);
  let data := match iv_before_sends s !! proto_id with Some f => f data | None => data end in
  match target with
  | TsSingle id => message_to id proto_id pr data
  | TsMulti ids => for_each (λ id, message_to id proto_id pr data) ids
  | TsFilter f => for_each (λ id, message_to id proto_id pr data) (filter (λ id, f id = true) (iter_keys (iv_sessions s)))
  | TsAll => for_each (λ id, message_to id proto_id pr data) (iter_keys (iv_sessions s))
  end.

(** The loop of [generate_next_session]; one unit of fuel per turn. *)
Fixpoint next_session_loop {A} (fuel : nat) (sessions : gmap Z A) (next : Z) : option Z :=
  match fuel with
  | O => None
  | S fuel' =>
      let next := wrapping_add 64 next 1 in
      if bool_decide (is_Some (sessions !! next)) then next_session_loop fuel' sessions next
      else Some next
  end.

Definition generate_next_session : SM unit :=
  s ← gets (λ s, s);
  id ← or_panic (next_session_loop (S (size (iv_sessions s))) (iv_sessions s) (iv_next_session s));
  modify (iv_put_next_session id).

Definition reached_max_connection_limit (s : InnerService) : bool :=
  match checked_add 64 (Z.of_nat (size (iv_sessions s))) (default 0 (into_inner (iv_state s))) with
  | Some count => cf_max_connection_number (iv_config s) <? count
  | None => false
  end.

(** The session with this key at this address, if any. *)
Definition same_peer (key : PublicKey) (address : Multiaddr) (c : SessionController) : bool :=
  bool_decide (sc_remote_pubkey (ct_inner c) = Some key) && bool_decide (sc_address (ct_inner c) = address).

Fixpoint find_session {A} (f : A → bool) (l : list (Z * A)) : option A :=
  match l with
  | [] => None
  | (_, c) :: l' => if f c then Some c else find_session f l'
  end.

(** The checks of a remote key: the address of the session, or [None] when the connection was
    refused. *)
Definition check_remote (handle : Hd) (remote_pubkey : option PublicKey) (address : Multiaddr)
    (ty : SessionType) (listen_addr : option Multiaddr) : SM (option Multiaddr) :=
  match remote_pubkey with
  | None => mret (Some address)
  | Some key =>
      sessions ← gets iv_sessions;
      match find_session (same_peer key address) (iter_map sessions) with
      | Some context =>
          iv_spawn (ItShutdownHandle handle) ;;
          (if is_outbound ty then
             report (UError (ErDialerError address (DeRepeatedConnection (sc_id (ct_inner context)))))
           else
             listen_addr ← or_panic listen_addr;
             report (UError (ErListenError listen_addr (LeRepeatedConnection (sc_id (ct_inner context)))))) ;;
          mret None
      | None =>
          p ← or_iter_panic (extract_peer_id address);
          match p with
          | Some peer_id =>
              if bool_decide (from_public_key key = peer_id) then mret (Some address)
              else report (UError (ErDialerError address DePeerIdNotMatch)) ;; mret None
          | None => mret (Some (Multiaddr.push address (P2p (from_public_key key))))
          end
      end
  end.

(** The protocols a new session opens. *)
Definition target_protocols (target : TargetProtocol) (metas : gmap Z ProtocolMeta) : list ProtocolMeta :=
  match target with
  | TpAll => (iter_map metas).*2
  | TpSingle proto_id => option_list (metas !! proto_id)
  | TpFilter f => (filter (λ x, f x.1 = true) (iter_map metas)).*2
  end.

Fixpoint open_proto_streams (names : list bytes) (session : Sess) : option Sess :=
  match names with
  | [] => Some session
  | name :: rest =>
      match open_proto_stream name session with
      | (session', ROk _) => open_proto_streams rest session'
      | _ => None
      end
  end.

(** The [Session] of a connection that passed the checks. *)
Definition build_session (s : InnerService) (context : SessionContext) (receiver : VR)
    (handles : list (bool * J)) : Sess :=
  let metas := iv_protocol_configs s in
  let by_name := list_to_map ((λ x : Z * ProtocolMeta, (pm_name x.2, pm_inner x.2)) <$> rev (iter_map metas)) in
  let '(proto_event_sender, proto_event_receiver) := new_mpsc (channel_size (cf_session_config (iv_config s))) in
  Session_new (iv_session_event_sender s) receiver by_name (pm_inner <$> metas)
    (cf_session_config (iv_config s)) (cf_keep_buffer (iv_config s)) context
    proto_event_sender proto_event_receiver (Buffer_new <$> iv_service_proto_handles s)
    (list_to_map (omap (λ x : Z * Z * PS,
       if x.1.1 =? iv_next_session s then Some (x.1.2, Buffer_new x.2) else None)
       (map_to_list (iv_session_proto_handles s))))
    handles.

Definition session_open (handle : Hd) (remote_pubkey : option PublicKey) (address : Multiaddr)
    (ty : SessionType) (listen_addr : option Multiaddr) : SM unit :=
  dials ← gets iv_dial_protocols;
  modify (iv_put_dial_protocols (delete address dials)) ;;
  let target := default TpAll (dials !! address) in
  checked ← check_remote handle remote_pubkey address ty listen_addr;
  match checked with
  | None => mret tt
  | Some address =>
      generate_next_session ;;
      s ← gets (λ s, s);
      let '(sender, receiver) := new_channel (channel_size (cf_session_config (iv_config s))) in
      let context := SessionContext_new (iv_next_session s) address ty remote_pubkey in
      modify (iv_put_sessions (<[sc_id context := mkController sender context]> (iv_sessions s))) ;;
      handles ← session_handles_open (iv_next_session s);
      s ← gets (λ s, s);
      let session := build_session s context receiver handles in
      session ← (if is_outbound ty then
                   or_panic (open_proto_streams (pm_name <$> target_protocols target (iv_protocol_configs s)) session)
                 else mret session);
      iv_spawn (ItSession session) ;;
      report (UEvent (EvSessionOpen (sc_id context)))
  end.

(** Sends an event to a session, when there is one. *)
Definition control_send (id : Z) (pr : Priority) (event : SE) : SM unit :=
  sessions ← gets iv_sessions;
  match sessions !! id with
  | Some control => modify (iv_put_sessions (<[id := controller_send pr event control]> sessions))
  | None => mret tt
  end.

Definition session_close (id : Z) (source : Source) : SM unit :=
  match source with
  | External => control_send id High (SessionClose id)
  | Internal =>
      modify (λ s, iv_put_session_proto_handles
        (filter (λ x, x.1.1 ≠ id) (iv_session_proto_handles s)) s) ;;
      s ← gets (λ s, s);
      match iv_sessions s !! id with
      | Some session_control =>
          modify (iv_put_sessions (delete id (iv_sessions s))) ;;
          report (UEvent (EvSessionClose (sc_id (ct_inner session_control))))
      | None => mret tt
      end
  end.

Definition protocol_open (id proto_id : Z) : SM unit := control_send id High (ProtocolOpen proto_id).
Definition protocol_close (id proto_id : Z) : SM unit := control_send id High (ProtocolClose proto_id).

(** ** Handlers of the protocols *)

Fixpoint init_loop (metas : list (Z * ProtocolMeta)) : SM unit :=
  match metas with
  | [] => mret tt
  | (proto_id, meta) :: rest =>
      s ← gets (λ s, s);
      (if pm_service_handle meta then
         let '(sender, receiver) := new_mpsc (channel_size (cf_session_config (iv_config s))) in
         modify (iv_put_service_proto_handles (<[proto_id := sender]> (iv_service_proto_handles s))) ;;
         iv_spawn (ItServiceProto proto_id receiver) ;;
         modify (λ s, iv_put_wait_handle (iv_wait_handle s ++ [(true, spawn_handle)]) s)
       else mret tt) ;;
      (match pm_before_send meta with
       | Some f => modify (λ s, iv_put_before_sends (<[proto_id := f]> (iv_before_sends s)) s)
       | None => mret tt
       end) ;;
      init_loop rest
  end.

(** The handles and functions are taken out of the configuration. *)
Definition init_proto_handles : SM unit :=
  metas ← gets iv_protocol_configs;
  init_loop (iter_map metas) ;;
  modify (iv_put_protocol_configs
    ((λ m, mkProtocolMeta (pm_inner m) false (pm_session_handle m) None) <$> metas)).

(** ** Shutdown *)

(** [handle_sender.send_all(events).await] ends at the first that cannot be sent. *)
Fixpoint report_all (es : list ServiceEventAndError) : SM unit :=
  match es with
  | [] => mret tt
  | e :: es' =>
      hs ← gets iv_handle_sender;
      let '(hs', ok) := aw_send hs e in
      modify (iv_put_handle_sender hs') ;;
      if ok : bool then report_all es' else mret tt
  end.

Definition shutdown_task (quick : bool) : SM unit :=
  modify (λ s, iv_put_state (pre_shutdown (iv_state s)) s) ;;
  listens ← gets iv_listens;
  modify (iv_put_listens ∅) ;;
  report_all ((λ a, UEvent (EvListenClose a)) <$> hash_order _ (elements listens)) ;;
  sessions ← gets iv_sessions;
  let ids := iter_keys sessions in
  if quick then
    modify (λ s, iv_put_service_task_receiver (pr_close (iv_service_task_receiver s)) s) ;;
    modify (λ s, iv_put_session_event_receiver (rc_close (iv_session_event_receiver s)) s) ;;
    modify (iv_put_service_proto_handles ∅) ;;
    modify (iv_put_session_proto_handles ∅) ;;
    for_each (λ i, session_close i Internal) ids
  else for_each (λ i, session_close i External) ids.

(** ** Updates of the listening addresses *)

(** [true] when a handler is gone. *)
Fixpoint update_service_handles (addrs : list Multiaddr) (l : list (Z * SS)) : SM bool :=
  match l with
  | [] => mret false
  | (proto_id, sender) :: rest =>
      let '(sender', ok) := aw_send sender (SvUpdate addrs) in
      modify (λ s, iv_put_service_proto_handles (<[proto_id := sender']> (iv_service_proto_handles s)) s) ;;
      (if ok : bool then mret tt
       else report (UError (ErProtocolHandleError proto_id (AbnormallyClosed None)))) ;;
      e ← update_service_handles addrs rest;
      mret (negb ok || e)
  end.

Fixpoint update_session_handles (addrs : list Multiaddr) (l : list (Z * Z * PS)) : SM bool :=
  match l with
  | [] => mret false
  | (session_id, proto_id, sender) :: rest =>
      let '(sender', ok) := aw_send sender (SeUpdate addrs) in
      modify (λ s, iv_put_session_proto_handles
        (<[(session_id, proto_id) := sender']> (iv_session_proto_handles s)) s) ;;
      (if ok : bool then mret tt
       else report (UError (ErProtocolHandleError proto_id (AbnormallyClosed (Some session_id))))) ;;
      e ← update_session_handles addrs rest;
      mret (negb ok || e)
  end.

Definition try_update_listens : SM unit :=
  s ← gets (λ s, s);
  if decide (size (iv_listens s) = length (iv_context_listens s)) then mret tt else
  let new_listens := hash_order _ (elements (iv_listens s)) in
  modify (iv_put_context_listens new_listens) ;;
  report (UUpdate new_listens) ;;
  e1 ← update_service_handles new_listens (iter_map (iv_service_proto_handles s));
  e2 ← update_session_handles new_listens (hash_order _ (map_to_list (iv_session_proto_handles s)));
  if e1 || e2 then shutdown_task false else mret tt.

(** ** Events of the sessions *)

(** Reports about a session that is still there. *)
Definition report_session (id : Z) (e : ServiceError) : SM unit :=
  sessions ← gets iv_sessions;
  match sessions !! id with Some _ => report (UError e) | None => mret tt end.

Definition handle_session_event (event : SE) : SM unit :=
  match event with
  | SessionClose id => session_close id Internal
  | HandshakeSuccess handle public_key address ty listen_address =>
      (if is_outbound ty then put_state_or_panic decrease else mret tt) ;;
      s ← gets (λ s, s);
      if reached_max_connection_limit s then mret tt
      else session_open handle public_key address ty listen_address
  | HandshakeError address ty error =>
      if is_outbound ty then
        put_state_or_panic decrease ;;
        modify (λ s, iv_put_dial_protocols (delete address (iv_dial_protocols s)) s) ;;
        report (UError (ErDialerError address (DeHandshakeError error)))
      else mret tt
  | ProtocolMessage _ _ | ProtocolOpen _ | ProtocolClose _ => panic
  | ProtocolSelectError id proto_name => report_session id (ErProtocolSelectError proto_name id)
  | ProtocolError id proto_id error => report (UError (ErProtocolError id proto_id error))
  | DialError address error =>
      put_state_or_panic decrease ;;
      modify (λ s, iv_put_dial_protocols (delete address (iv_dial_protocols s)) s) ;;
      report (UError (ErDialerError address (DeTransportError error)))
  | ListenError address error =>
      report (UError (ErListenError address (LeTransportError error))) ;;
      listens ← gets iv_listens;
      if bool_decide (address ∈ listens) then
        modify (iv_put_listens (listens ∖ {[address]})) ;;
        report (UEvent (EvListenClose address))
      else put_state_or_panic decrease
  | SessionTimeout id => report_session id (ErSessionTimeout id)
  | MuxerError id error => report_session id (ErMuxerError id error)
  | ListenStart listen_address incoming =>
      report (UEvent (EvListenStarted listen_address)) ;;
      modify (λ s, iv_put_listens ({[listen_address]} ∪ iv_listens s) s) ;;
      put_state_or_panic decrease ;;
      try_update_listens ;;
      spawn_listener incoming listen_address
  | ProtocolHandleError error proto_id =>
      report (UError (ErProtocolHandleError proto_id error)) ;; shutdown_task false
  | ChangeState id _ _ => report_session id (ErSessionBlocked id)
  | StreamStart _ => mret tt
  end.

(** ** Tasks of the users *)

Definition service_handle_send (proto_id : Z) (e : ServiceProtocolEvent) : SM unit :=
  handles ← gets iv_service_proto_handles;
  match handles !! proto_id with
  | Some sender => modify (iv_put_service_proto_handles (<[proto_id := (aw_send sender e).1]> handles))
  | None => mret tt
  end.

Definition session_handle_send (key : Z * Z) (e : SessionProtocolEvent) : SM unit :=
  handles ← gets iv_session_proto_handles;
  match handles !! key with
  | Some sender => modify (iv_put_session_proto_handles (<[key := (aw_send sender e).1]> handles))
  | None => mret tt
  end.

Definition handle_service_task (event : ServiceTask FT) (pr : Priority) : SM unit :=
  s ← gets (λ s, s);
  match event with
  | TaProtocolMessage target proto_id data => handle_message target proto_id pr data
  | TaDial address target =>
      if bool_decide (is_Some (iv_dial_protocols s !! address)) then mret tt else
      r ← dial_inner address target;
      match r with
      | Some e => report (UError (ErDialerError address (DeTransportError e)))
      | None => mret tt
      end
  | TaListen address =>
      if bool_decide (address ∈ iv_listens s) then mret tt else
      r ← listen_inner address;
      match r with
      | Some e => report (UError (ErListenError address (LeTransportError e)))
      | None => mret tt
      end
  | TaDisconnect session_id => session_close session_id External
  | TaFutureTask task => iv_spawn (ItFuture task)
  | TaSetProtocolNotify proto_id interval token => service_handle_send proto_id (SvSetNotify interval token)
  | TaRemoveProtocolNotify proto_id token => service_handle_send proto_id (SvRemoveNotify token)
  | TaSetProtocolSessionNotify session_id proto_id interval token =>
      session_handle_send (session_id, proto_id) (SeSetNotify interval token)
  | TaRemoveProtocolSessionNotify session_id proto_id token =>
      session_handle_send (session_id, proto_id) (SeRemoveNotify token)
  | TaProtocolOpen session_id target =>
      match target with
      | TpAll => for_each (protocol_open session_id) (iter_keys (iv_protocol_configs s))
      | TpSingle id => protocol_open session_id id
      | TpFilter f => for_each (protocol_open session_id) (filter (λ id, f id = true) (iter_keys (iv_protocol_configs s)))
      end
  | TaProtocolClose session_id proto_id => protocol_close session_id proto_id
  | TaShutdown quick => shutdown_task quick
  end.

(** ** Running *)

(** The handles are signalled and awaited. *)
Definition iv_wait_handle_poll : SM unit :=
  modify (λ s, iv_put_handle_sender (cs_close (iv_handle_sender s)) s) ;;
  modify (iv_put_wait_handle []).

(** The head of the loop of [run]: [true] when it ends. *)
Definition run_head : SM bool :=
  s ← gets (λ s, s);
  if bool_decide (iv_listens s = ∅) && is_shutdown (iv_state s) && bool_decide (iv_sessions s = ∅) then
    modify (iv_put_shutdown true) ;; iv_wait_handle_poll ;; mret true
  else try_update_listens ;; mret false.

(** A branch of [tokio::select!]: a receiver that is ready with an event, waits, or is closed,
    which disables its branch. *)
Definition select_events : SM (Poll bool) :=
  r ← gets iv_session_event_receiver;
  let '(r', p) := recv_poll_next r in
  modify (iv_put_session_event_receiver r') ;;
  match p with
  | Ready (Some event) => handle_session_event event ;; mret (Ready true)
  | Ready None => mret (Ready false)
  | Pending => mret Pending
  end.

Definition select_tasks : SM (Poll bool) :=
  r ← gets iv_service_task_receiver;
  let '(r', p) := pr_poll_next r in
  modify (iv_put_service_task_receiver r') ;;
  match p with
  | Ready (Some (pr, task)) => handle_service_task task pr ;; mret (Ready true)
  | Ready None => mret (Ready false)
  | Pending => mret Pending
  end.

(** The [tokio::select!], polled once with the branches in one of the two orders: [true] when a
    branch ran, [false] when it waits. It panics when both branches are disabled. *)
Definition run_select (events_first : bool) : SM bool :=
  let '(b1, b2) := if events_first then (select_events, select_tasks) else (select_tasks, select_events) in
  p1 ← b1;
  match p1 with
  | Ready true => mret true
  | _ =>
      p2 ← b2;
      match p1, p2 with
      | _, Ready true => mret true
      | Ready false, Ready false => panic
      | _, _ => mret false
      end
  end.

(** ** The service before it runs *)

Definition InnerService_new (protocol_configs : gmap Z ProtocolMeta) (transport : MultiTransport)
    (forever : bool) (config : ServiceConfig) (handle_sender : HS) (event_sender : VS)
    (event_receiver : WR) (task_receiver : TR) : InnerService :=
  mkInnerService protocol_configs ∅ transport ∅ ∅ config (State_new forever) 0 ∅ handle_sender ∅ ∅
    event_sender event_receiver [] task_receiver false [] [].

(** [Service::yamux_config] and [Service::max_frame_length]: the lengths are compared as [u32]. *)
Definition set_yamux_config (config : YamuxFrame.Config) : SM unit :=
  c ← gets iv_config;
  if max_stream_window_size config <=? cast 32 (cf_max_frame_length c) then
    let sc := cf_session_config c in
    modify (iv_put_config (mkServiceConfig
      (mkSessionConfig config (send_buffer_size sc) (recv_buffer_size sc) (channel_size sc))
      (cf_max_frame_length c) (cf_keep_buffer c) (cf_max_connection_number c)))
  else panic.

Definition set_max_frame_length (size : Z) : SM unit :=
  c ← gets iv_config;
  if max_stream_window_size (yamux_config (cf_session_config c)) <=? cast 32 size then
    modify (iv_put_config (mkServiceConfig (cf_session_config c) size (cf_keep_buffer c)
      (cf_max_connection_number c)))
  else panic.

(** [Service::listen] and [Service::dial], with what their futures give. *)
Definition service_listen (address : Multiaddr) (outcome : TransportErrorKind + (Multiaddr * Inc))
    : SM (TransportErrorKind + Multiaddr) :=
  t ← gets iv_multi_transport;
  r ← or_iter_panic (multi_transport t address);
  match r with
  | Some e => mret (inl e)
  | None =>
      match outcome with
      | inl e => mret (inl e)
      | inr (addr, incoming) =>
          report (UEvent (EvListenStarted addr)) ;;
          modify (λ s, iv_put_listens ({[addr]} ∪ iv_listens s) s) ;;
          spawn_listener incoming addr ;;
          mret (inr addr)
      end
  end.

Definition service_dial (address : Multiaddr) (target : TargetProtocol)
    (outcome : TransportErrorKind + Multiaddr) : SM (TransportErrorKind + unit) :=
  t ← gets iv_multi_transport;
  r ← or_iter_panic (multi_transport t address);
  match r with
  | Some e => mret (inl e)
  | None =>
      match outcome with
      | inl e => mret (inl e)
      | inr addr =>
          iv_spawn (ItDial addr) ;;
          modify (λ s, iv_put_dial_protocols (<[address := target]> (iv_dial_protocols s)) s) ;;
          put_state_or_panic increase ;;
          mret (inr tt)
      end
  end.

(** [Service::run], up to the loop. *)
Definition service_start : SM unit :=
  iv_spawn ItTaskManager ;;
  modify (λ s, iv_put_wait_handle (iv_wait_handle s ++ [(true, spawn_handle)]) s) ;;
  init_proto_handles.

End Service.

(** ** Handshakes and listeners ([service/helper.rs]) *)

(** The event [HandshakeContext::handshake] sends: without a key pair at once, with one from the
    result of the handshake, [None] after the timeout. *)
Definition handshake_event {Hd St Inc} (key_pair : bool) (socket : Hd)
    (result : option (option (Hd * PublicKey))) (ty : SessionType) (remote_address : Multiaddr)
    (listen_address : option Multiaddr) : SessionEvent Hd St Inc :=
  if key_pair then
    match result with
    | None => HandshakeError remote_address ty HeTimeout
    | Some (Some (handle, public_key)) =>
        HandshakeSuccess handle (Some public_key) remote_address ty listen_address
    | Some None => HandshakeError remote_address ty HeSecioError
    end
  else HandshakeSuccess socket None remote_address ty listen_address.

(** The event a listen task sends when its future is done. *)
Definition listen_task_event {Hd St Inc} (address : Multiaddr)
    (result : TransportErrorKind + (Multiaddr * Inc)) : SessionEvent Hd St Inc :=
  match result with
  | inr (addr, incoming) => ListenStart addr incoming
  | inl error => ListenError address error
  end.

(** The event a dial task sends: [result] with what the handshake on the connection gives. *)
Definition dial_task_event {Hd St Inc} (address : Multiaddr) (key_pair : bool)
    (result : TransportErrorKind + (Multiaddr * Hd)) (handshake : option (option (Hd * PublicKey)))
    : SessionEvent Hd St Inc :=
  match result with
  | inr (addr, socket) => handshake_event key_pair socket handshake Outbound addr None
  | inl error => DialError address error
  end.

(** What a poll of a [Listener] starts: a handshake with a connection, or the report that it is
    closed, which ends it. *)
Inductive ListenerAct (Hd : Type) :=
| LaHandshake (socket : Hd) (remote_address listen_address : Multiaddr)
| LaClose (address : Multiaddr) (error : TransportErrorKind).
Arguments LaHandshake {Hd}.
Arguments LaClose {Hd}.

Definition listener_poll {Hd} (listen_addr : Multiaddr) (p : Poll (option (ErrorKind + (Multiaddr * Hd))))
    : option (ListenerAct Hd) * Poll (option unit) :=
  match p with
  | Ready (Some (inr (remote_address, socket))) =>
      (Some (LaHandshake socket remote_address listen_addr), Ready (Some tt))
  | Ready None => (Some (LaClose listen_addr (TeIo KBrokenPipe)), Ready None)
  | Pending => (None, Pending)
  | Ready (Some (inl err)) => (Some (LaClose listen_addr (TeIo err)), Ready None)
  end.
