(* ===== verification/ServiceProofs.v ===== *)
(** * Properties of the service

    Session identifiers are fresh, the user sees every session opened and closed in turn, the
    number of sessions is bounded, messages reach the sessions they are for, no event or task
    panics, and a shutdown ends the service. *)

From Stdlib Require Import ZArith Lia Bool.
From Stdlib Require Import Strings.String.
From stdpp Require Import base list gmap relations.
From S2P Require Import Prelude Text Channels PriorityChannel Messages SecioHandshake SecioHandshakeProofs PeerId Multiaddr MultiaddrProofs Utils Buffers YamuxFrame Wire Select Tentacle Substream Session Service.

Open Scope Z_scope.

(** ** Fresh session identifiers *)

Section NextSession.
Context {A : Type}.
Implicit Types (m : gmap Z A).

Lemma wrapping_succ next j : (wrapping_add 64 next 1 + j) mod 2 ^ 64 = (next + (1 + j)) mod 2 ^ 64.
Proof. unfold wrapping_add. rewrite Z.add_mod_idemp_l by done. f_equal. lia. Qed.

(** The loop only runs out of fuel over identifiers that are all taken. *)
Lemma next_session_none fuel m next : next_session_loop fuel m next = None →
  ∀ j, 1 <= j <= Z.of_nat fuel → is_Some (m !! ((next + j) mod 2 ^ 64)).
Proof.
  revert next. induction fuel as [|fuel IH]; intros next H j Hj; [lia|]. cbn [next_session_loop] in H.
  case_bool_decide as Hm; [|done]. destruct (decide (j = 1)) as [->|Hne]; [exact Hm|].
  specialize (IH _ H (j - 1) ltac:(lia)). rewrite wrapping_succ in IH. by replace (1 + (j - 1)) with j in IH by lia.
Qed.

Lemma next_session_some fuel m next id : next_session_loop fuel m next = Some id →
  m !! id = None ∧ is_u64 id.
Proof.
  revert next. induction fuel as [|fuel IH]; intros next H; [done|]. cbn [next_session_loop] in H.
  case_bool_decide as Hm; [by eapply IH|]. injection H as <-. split; [by apply eq_None_not_Some|].
  unfold wrapping_add. apply Z.mod_pos_bound. done.
Qed.

(** As many consecutive identifiers as there are fit into the map. *)
Lemma taken_ids_size fuel m next : Z.of_nat fuel <= 2 ^ 64 →
  (∀ j, 1 <= j <= Z.of_nat fuel → is_Some (m !! ((next + j) mod 2 ^ 64))) → (fuel <= size m)%nat.
Proof.
  intros Hf H. set (ids := (λ j, (next + j) mod 2 ^ 64) <$> seqZ 1 (Z.of_nat fuel)).
  assert (Hd : NoDup ids).
  { apply NoDup_fmap_2_strong; [|apply NoDup_seqZ]. intros x y Hx Hy E.
    apply elem_of_seqZ in Hx, Hy. rewrite !(Z.add_comm next) in E.
    assert (Hxy : (x - y) mod 2 ^ 64 = 0).
    { replace (x - y) with ((x + next) - (y + next)) by lia. rewrite Zminus_mod, E, Z.sub_diag. done. }
    destruct (Z.lt_trichotomy x y) as [Hlt|[->|Hlt]]; [|done|].
    - apply Z.mod_divide in Hxy as [q Hq]; [|done]. assert (q = 0 ∨ q <= -1) as [->|?] by lia; lia.
    - apply Z.mod_divide in Hxy as [q Hq]; [|done]. assert (q = 0 ∨ 1 <= q) as [->|?] by lia; lia. }
  assert (Hs : list_to_set ids ⊆ (dom m : gset Z)).
  { intros x Hx. apply elem_of_list_to_set, list_elem_of_fmap in Hx as (j & -> & Hj). apply elem_of_dom, H.
    apply elem_of_seqZ in Hj. lia. }
  apply subseteq_size in Hs. rewrite size_list_to_set in Hs by done.
  unfold ids in Hs. rewrite length_fmap, length_seqZ, size_dom in Hs. lia.
Qed.

Lemma next_session_total m next : Z.of_nat (size m) < 2 ^ 64 →
  ∃ id, next_session_loop (S (size m)) m next = Some id ∧ m !! id = None ∧ is_u64 id.
Proof.
  intros Hs. destruct (next_session_loop (S (size m)) m next) as [id|] eqn:E.
  - exists id. split; [done|]. by eapply next_session_some.
  - pose proof (taken_ids_size (S (size m)) m next ltac:(lia) (next_session_none _ _ _ E)). lia.
Qed.

End NextSession.

Section Proofs.
Context {T F Hd St Inc ES ER Q QR SS PS VS VR J CS HS WR TR SR PR FT : Type}.
Context `{HOL : HashOrderLaws} `{VL : VarintLaws} `{TCL : TextCodecsLaws} `{PRM : Primitives}.
Context `{NV : NewChannel CS VR} `{NE : NewMpsc ES ER} `{NS : NewMpsc SS SR} `{NP : NewMpsc PS PR}.
Context `{SH : SpawnHandle J} `{AHL : AwaitSenderLaws HS ServiceEventAndError}.
Context `{CXL : !CloseSenderLaws HS ServiceEventAndError (CX := CX)}.
Context `{ACL : AwaitPriorityLaws CS (SessionEvent Hd St Inc)}.
Context `{ASv : AwaitSender SS ServiceProtocolEvent} `{ASe : AwaitSender PS SessionProtocolEvent}.
Context `{RWL : ReceiverLaws WR (SessionEvent Hd St Inc)} `{CW : CloseReceiver WR}.
Context `{RTL : PriorityReceiverLaws TR (ServiceTask FT)}.

Abbreviation SV := (@InnerService T F Hd St Inc ES ER Q QR SS PS VS VR J CS HS WR TR SR PR FT) (only parsing).
Abbreviation SM := (M SV Empty_set) (only parsing).
Abbreviation SE := (SessionEvent Hd St Inc) (only parsing).

(** ** Views *)

(** What the user saw of a session: [Some true] while it is open; [None] when an event came out
    of turn. *)
Definition user_step (id : Z) (st : option bool) (e : ServiceEventAndError) : option bool :=
  match e, st with
  | UEvent (EvSessionOpen j), Some b => if j =? id then (if b then None else Some true) else st
  | UEvent (EvSessionClose j), Some b => if j =? id then (if b then Some false else None) else st
  | _, _ => st
  end.
Definition user_view (id : Z) (log : list ServiceEventAndError) : option bool :=
  foldl (user_step id) (Some false) log.

Definition user_log (s : SV) : list ServiceEventAndError := aw_sent (iv_handle_sender s).

Definition is_session_event (e : ServiceEventAndError) : bool :=
  match e with UEvent (EvSessionOpen _) | UEvent (EvSessionClose _) => true | _ => false end.

(** The dials and listens that were started. *)
Definition is_start (t : @InnerTask T F Hd St Inc ES ER Q QR SS PS VS VR J SR PR FT) : bool :=
  match t with ItListen _ | ItDial _ => true | _ => false end.
Definition starts (s : SV) : Z := len (filter (λ t, is_start t = true) (iv_tasks s)).

(** ** The invariant: [a] dials and listens were answered *)

Record sv_inv (a : Z) (s : SV) : Prop := {
  si_keys : ∀ id c, iv_sessions s !! id = Some c → sc_id (ct_inner c) = id ∧ is_u64 id;
  si_count : match iv_state s with Running n => starts s - a <= n < 2 ^ 63 | _ => True end;
  si_answered : a <= starts s;
  si_user : aw_open (iv_handle_sender s) = true →
    ∀ id, user_view id (user_log s) = Some (bool_decide (is_Some (iv_sessions s !! id)));
  si_limit : Z.of_nat (size (iv_sessions s)) <= cf_max_connection_number (iv_config s) + 1;
  si_max : 0 <= cf_max_connection_number (iv_config s) < 2 ^ 63;
}.

(** A method that returns and keeps the invariant. *)
Definition good (a : Z) {A} (c : SM A) : Prop := ∀ s, sv_inv a s → wp c (λ _ s', sv_inv a s') s.

Section Good.
Context (a : Z).

Lemma good_bind {A B} (c : SM A) (k : A → SM B) : good a c → (∀ x, good a (k x)) → good a (c ≫= k).
Proof.
  intros Hc Hk s Hs. apply wp_bind. eapply wp_mono; [by apply Hc|]. intros x s' H. by apply Hk.
Qed.

Lemma good_ret {A} (x : A) : good a (mret x).
Proof. by intros s Hs. Qed.

Lemma good_gets {A} (f : SV → A) : good a (gets f).
Proof. by intros s Hs. Qed.

Lemma good_gets_bind {A B} (f : SV → A) (k : A → SM B) :
  (∀ s, sv_inv a s → wp (k (f s)) (λ _ s', sv_inv a s') s) → good a (gets f ≫= k).
Proof. intros H s Hs. apply wp_bind, wp_gets. by apply H. Qed.

Lemma good_modify f : (∀ s, sv_inv a s → sv_inv a (f s)) → good a (modify f).
Proof. intros H s Hs. apply wp_modify. by apply H. Qed.

(** Updates the invariant does not read. *)
Lemma good_same f : (∀ s : SV, iv_sessions (f s) = iv_sessions s ∧ iv_state (f s) = iv_state s ∧
  iv_tasks (f s) = iv_tasks s ∧ iv_handle_sender (f s) = iv_handle_sender s ∧ iv_config (f s) = iv_config s) →
  good a (modify f).
Proof.
  intros H. apply good_modify. intros s Hs. destruct (H s) as (E1 & E2 & E3 & E4 & E5).
  split; unfold user_log, starts; rewrite ?E1, ?E2, ?E3, ?E4, ?E5; apply Hs.
Qed.

Lemma good_for_each {A} (f : A → SM unit) l : (∀ x, good a (f x)) → good a (for_each f l).
Proof. intros H. induction l; cbn [for_each]; [apply good_ret|]. by apply good_bind. Qed.

Lemma user_view_snoc id log e : user_view id (log ++ [e]) = user_step id (user_view id log) e.
Proof. unfold user_view. by rewrite foldl_app. Qed.

Lemma user_step_other id st e : is_session_event e = false → user_step id st e = st.
Proof. by destruct e as [[]| |], st. Qed.

Lemma inv_report e s : sv_inv a s → is_session_event e = false →
  sv_inv a (iv_put_handle_sender (aw_send (iv_handle_sender s) e).1 s).
Proof.
  intros Hs He. split; try apply Hs. cbn. rewrite aw_still. intros Ho id. unfold user_log. cbn.
  rewrite aw_view, Ho, user_view_snoc, user_step_other by done. by apply Hs.
Qed.

Lemma good_report e : is_session_event e = false → good a (report e).
Proof. intros He. apply good_modify. intros s Hs. by apply inv_report. Qed.

Lemma starts_snoc t (s : SV) : starts (iv_put_tasks (iv_tasks s ++ [t]) s) = starts s + if is_start t then 1 else 0.
Proof.
  unfold starts. cbn. rewrite filter_app, len_app, filter_cons, filter_nil.
  destruct (is_start t) eqn:E; [rewrite decide_True by done|rewrite decide_False by congruence]; done.
Qed.

Lemma good_spawn t : is_start t = false → good a (iv_spawn t).
Proof.
  intros Ht. apply good_modify. intros s Hs. split; try apply Hs; rewrite starts_snoc, Ht, Z.add_0_r; apply Hs.
Qed.

(** A session keeps its place. *)
Lemma inv_insert id c c' s : sv_inv a s → iv_sessions s !! id = Some c → sc_id (ct_inner c') = sc_id (ct_inner c) →
  sv_inv a (iv_put_sessions (<[id := c']> (iv_sessions s)) s).
Proof.
  intros Hs E Hi. split; try apply Hs; cbn.
  - intros j d Hj. apply lookup_insert_Some in Hj as [[-> <-]|[_ Hj]]; [|by apply Hs].
    rewrite Hi. by apply Hs.
  - intros Ho j. rewrite (si_user _ _ Hs Ho). f_equal. apply bool_decide_ext.
    destruct (decide (id = j)) as [->|Hne]; [|by rewrite lookup_insert_ne]. rewrite lookup_insert_eq, E. split; eauto.
  - rewrite map_size_insert_Some by eauto. apply Hs.
Qed.

Lemma good_control_send id pr e : good a (control_send id pr e).
Proof.
  apply good_gets_bind. intros s Hs. destruct (iv_sessions s !! id) as [c|] eqn:E; [|by apply wp_ret].
  apply wp_modify. by eapply inv_insert.
Qed.

Lemma good_message_to id p pr d : good a (message_to id p pr d).
Proof.
  apply good_gets_bind. intros s Hs. destruct (iv_sessions s !! id) as [c|] eqn:E; [|by apply wp_ret].
  apply wp_modify. by eapply inv_insert.
Qed.

Lemma good_or_panic {A} (o : option A) x : o = Some x → good a (or_panic o : SM A).
Proof. intros -> s Hs. done. Qed.

Lemma good_if {A} (b : bool) (c d : SM A) : good a c → good a d → good a (if b then c else d).
Proof. by destruct b. Qed.

#[local] Hint Resolve good_ret good_gets good_if good_control_send good_message_to good_for_each : good.
#[local] Hint Extern 2 (good _ (modify _)) => apply good_same; done : good.
#[local] Hint Extern 2 (good _ (report _)) => apply good_report; done : good.
#[local] Hint Extern 2 (good _ (iv_spawn _)) => apply good_spawn; done : good.

Ltac good_walk :=
  repeat first
    [ solve [eauto with good]
    | apply good_bind; [|intros]
    | match goal with |- good _ (match ?x with _ => _ end) => destruct x end ].

(** ** Closing sessions *)

Lemma good_session_close id src : good a (session_close id src).
Proof.
  destruct src; cbn [session_close]; [apply good_control_send|]. apply good_bind; [auto with good|]. intros _.
  apply good_gets_bind. intros s Hs. destruct (iv_sessions s !! id) as [c|] eqn:E; [|by apply wp_ret].
  apply wp_bind, wp_modify, wp_modify. destruct (si_keys _ _ Hs _ _ E) as [Hid _]. rewrite Hid.
  split; try apply Hs; cbn.
  - intros j d Hj. apply lookup_delete_Some in Hj as [_ Hj]. by apply Hs.
  - rewrite aw_still. intros Ho j. unfold user_log. cbn. rewrite aw_view, Ho, user_view_snoc.
    rewrite (si_user _ _ Hs Ho). cbn. destruct (Z.eqb_spec id j) as [->|Hne].
    + rewrite lookup_delete_eq, bool_decide_eq_true_2 by eauto. by rewrite bool_decide_eq_false_2 by (by intros []).
    + by rewrite lookup_delete_ne by done.
  - rewrite map_size_delete_Some by eauto. pose proof (si_limit _ _ Hs). pose proof (si_max _ _ Hs). lia.
Qed.
#[local] Hint Resolve good_session_close : good.

Lemma good_report_all es : Forall (λ e, is_session_event e = false) es → good a (report_all es).
Proof.
  induction 1 as [|e es He Hes IH]; cbn [report_all]; [apply good_ret|].
  apply good_gets_bind. intros s Hs. pose proof (inv_report _ _ Hs He) as H1.
  destruct (aw_send (iv_handle_sender s) e) as [hs' ok]. apply wp_bind, wp_modify.
  destruct ok; [by apply IH|by apply wp_ret].
Qed.

Lemma good_shutdown quick : good a (shutdown_task quick).
Proof.
  unfold shutdown_task. apply good_bind.
  { apply good_modify. intros s Hs. split; try apply Hs. done. }
  intros _. apply good_bind; [auto with good|]. intros listens. apply good_bind; [auto with good|]. intros _.
  apply good_bind; [apply good_report_all|]. { by apply Forall_fmap, Forall_true. }
  intros _. good_walk.
Qed.
#[local] Hint Resolve good_shutdown : good.

Lemma good_update_service addrs l : good a (update_service_handles addrs l).
Proof. induction l as [|[p x] l IH]; cbn [update_service_handles]; good_walk. Qed.
Lemma good_update_session addrs l : good a (update_session_handles addrs l).
Proof. induction l as [|[[i p] x] l IH]; cbn [update_session_handles]; good_walk. Qed.
#[local] Hint Resolve good_update_service good_update_session : good.

Lemma good_try_update : good a try_update_listens.
Proof. unfold try_update_listens. good_walk. Qed.
#[local] Hint Resolve good_try_update : good.

(** ** Opening sessions *)

Lemma good_generate : good a generate_next_session.
Proof.
  apply good_gets_bind. intros s Hs.
  destruct (next_session_total (iv_sessions s) (iv_next_session s)) as (id & E & _).
  { pose proof (si_limit _ _ Hs). pose proof (si_max _ _ Hs). lia. }
  apply wp_bind. eapply wp_or_panic; [exact E|]. apply wp_modify. split; apply Hs.
Qed.

Definition addr_ok (m : Multiaddr) : Prop := ∃ ps, parses m ps.

Lemma extract_ok m : addr_ok m → ∃ o, extract_peer_id m = ROk o.
Proof. intros [ps H]. unfold extract_peer_id. rewrite (find_map_spec _ _ _ H). eauto. Qed.

Lemma good_check_remote h key addr ty la : addr_ok addr → (ty = Inbound → is_Some la) →
  good a (check_remote h key addr ty la).
Proof.
  intros Ha Hl. unfold check_remote. destruct key as [key|]; [|apply good_ret]. apply good_bind; [auto with good|].
  intros sessions. destruct (find_session _ _).
  - apply good_bind; [auto with good|]. intros _. apply good_bind; [|auto with good]. destruct ty; cbn; [auto with good|].
    destruct (Hl eq_refl) as [x Hx]. apply good_bind; [by eapply good_or_panic|]. auto with good.
  - destruct (extract_ok _ Ha) as [o Ho]. rewrite Ho. cbn [or_iter_panic]. good_walk.
Qed.

Lemma good_session_handles id metas : good a (session_handles_loop id metas).
Proof.
  induction metas as [|[p m] metas IH]; cbn [session_handles_loop]; [auto with good|].
  unfold session_handle_open. good_walk.
Qed.

(** The names a session opens are those of its configuration. *)
Lemma open_streams_total names (sess : @Session T F Hd St Inc ES ER Q QR SS PS VS VR J) :
  Forall (λ n, is_Some (se_protocol_configs_by_name sess !! n)) names →
  is_Some (open_proto_streams names sess).
Proof.
  intros H. revert sess H. induction names as [|n names IH]; intros sess H; cbn [open_proto_streams]; [eauto|].
  apply Forall_cons in H as [[m Hn] H].
  assert (E : open_proto_stream n sess = (se_put_tasks (se_tasks sess ++
    [TkOpenSelect (mkProtocolInfo n (m_support_versions m))]) sess, ROk tt)).
  { unfold open_proto_stream, spawn, or_panic, mbind, M_bind, gets. by rewrite Hn. }
  rewrite E. by apply IH.
Qed.

Lemma list_to_map_some {B} (l : list (bytes * B)) k : k ∈ l.*1 → is_Some ((list_to_map l : gmap bytes B) !! k).
Proof.
  intros H. destruct (list_to_map l !! k) eqn:E; [eauto|]. by apply not_elem_of_list_to_map in E.
Qed.

Lemma elem_iter {B} (m : gmap Z B) x : x ∈ iter_map m ↔ x ∈ map_to_list m.
Proof. unfold iter_map. by rewrite hash_order_perm. Qed.

Lemma target_names target (s : SV) context receiver handles :
  Forall (λ n, is_Some (se_protocol_configs_by_name (build_session s context receiver handles) !! n))
    (pm_name <$> target_protocols target (iv_protocol_configs s)).
Proof.
  apply Forall_fmap, Forall_forall. intros m Hm. cbn. unfold build_session.
  destruct (new_mpsc _) as [es er]. cbn. apply list_to_map_some.
  assert (∃ p, (p, m) ∈ map_to_list (iv_protocol_configs s)) as [p Hp].
  { destruct target; cbn in Hm.
    - apply list_elem_of_fmap in Hm as ([p m'] & -> & Hm). exists p. by apply elem_iter.
    - destruct (iv_protocol_configs s !! id) as [m'|] eqn:E; cbn in Hm; [|by apply not_elem_of_nil in Hm].
      apply list_elem_of_singleton in Hm as ->. exists id. by apply elem_of_map_to_list.
    - apply list_elem_of_fmap in Hm as ([p m'] & -> & Hm). apply list_elem_of_filter in Hm as [_ Hm].
      exists p. by apply elem_iter. }
  apply list_elem_of_fmap. exists (pm_name m, pm_inner m). split; [done|].
  apply list_elem_of_fmap. exists (p, m). split; [done|]. apply list_elem_of_In. rewrite <- in_rev.
  apply list_elem_of_In. by apply elem_iter.
Qed.

(** Steps that leave the sessions and the configuration alone. *)
Definition still (m : gmap Z SessionController) (c : ServiceConfig) (s : SV) : Prop :=
  iv_sessions s = m ∧ iv_config s = c.

Lemma keeps_still_modify m c f : (∀ s : SV, iv_sessions (f s) = iv_sessions s ∧ iv_config (f s) = iv_config s) →
  keeps (still m c) (modify f : SM unit).
Proof. intros H. apply keeps_modify. intros s [H1 H2]. destruct (H s) as [E1 E2]. split; congruence. Qed.

#[local] Hint Extern 2 (keeps (still _ _) (modify _)) => apply keeps_still_modify; done : keeps.

Lemma still_check m c h key addr ty la : keeps (still m c) (check_remote h key addr ty la : SM _).
Proof. unfold check_remote, iv_spawn, report, or_iter_panic. keeps_walk. Qed.

(** The parts of the state the invariant reads. *)
Record same_core (s s' : SV) : Prop := {
  sc_sessions : iv_sessions s' = iv_sessions s;
  sc_state : iv_state s' = iv_state s;
  sc_starts : starts s' = starts s;
  sc_sender : iv_handle_sender s' = iv_handle_sender s;
  sc_config : iv_config s' = iv_config s;
}.

Lemma core_handles s0 id : keeps (same_core s0) (session_handles_open id : SM _).
Proof.
  assert (Hm : ∀ f, (∀ s : SV, same_core s (f s)) → keeps (same_core s0) (modify f : SM unit)).
  { intros f H. apply keeps_modify. intros s []. destruct (H s). split; congruence. }
  assert (∀ metas, keeps (same_core s0) (session_handles_loop id metas : SM _)).
  { induction metas as [|[p m] metas IH]; cbn [session_handles_loop]; [apply keeps_ret|].
    apply keeps_bind; [apply keeps_gets|]. intros s. case_match; [|done]. apply keeps_bind; [|intros; keeps_walk].
    unfold session_handle_open. apply keeps_bind; [apply keeps_gets|]. intros s'. destruct (new_mpsc _).
    apply keeps_bind; [by apply Hm|]. intros _. apply keeps_bind; [|intros; apply keeps_ret]. apply Hm.
    intros s1. split; try done. rewrite starts_snoc. cbn. lia. }
  unfold session_handles_open. apply keeps_bind; [apply keeps_gets|]. auto.
Qed.

Lemma wp_handles id (s : SV) : wp (session_handles_open id) (λ _ _, True) s.
Proof.
  unfold session_handles_open. wp_step. wp_step. generalize (iter_map (iv_protocol_configs s)) as metas.
  intros metas. revert s. induction metas as [|[p m] metas IH]; intros s; cbn [session_handles_loop]; [by wp_steps|].
  wp_step. wp_step. case_match; [|apply IH]. unfold session_handle_open, iv_spawn. wp_step. wp_step. wp_step.
  destruct (new_mpsc _). wp_steps. eapply wp_mono; [apply IH|]. intros; by wp_steps.
Qed.

Lemma wp_session_open h key addr ty la s : sv_inv a s → addr_ok addr → (ty = Inbound → is_Some la) →
  Z.of_nat (size (iv_sessions s)) <= cf_max_connection_number (iv_config s) →
  wp (session_open h key addr ty la) (λ _ s', sv_inv a s') s.
Proof.
  intros Hs Ha Hl Hsz. unfold session_open. wp_step. wp_step. wp_step. wp_step.
  set (s1 := iv_put_dial_protocols _ s). assert (Hs1 : sv_inv a s1) by (split; apply Hs).
  wp_step. eapply wp_mono; [apply (wp_keeps (still (iv_sessions s) (iv_config s)));
    [by apply good_check_remote|apply still_check|done]|]. intros [addr'|] s2 [Hs2 [Em Ec]]; [|by wp_steps].
  wp_step. unfold generate_next_session. wp_step. wp_step.
  destruct (next_session_total (iv_sessions s2) (iv_next_session s2)) as (id & E & Hfr & Hw).
  { rewrite Em. pose proof (si_max _ _ Hs). lia. }
  wp_step. eapply wp_or_panic; [exact E|]. wp_step. wp_step. wp_step. cbn [iv_config iv_put_next_session].
  destruct (new_channel _) as [sender receiver]. wp_step. wp_step. cbn [iv_next_session iv_put_next_session iv_sessions].
  (* the session is in the map, its opening not yet reported *)
  set (c := mkController sender (SessionContext_new id addr' ty key)).
  set (s3 := iv_put_sessions _ _). wp_step.
  eapply wp_mono; [apply (wp_keeps (same_core s3)); [apply wp_handles|apply core_handles|done]|].
  intros handles s4 [_ [C1 C2 C3 C4 C5]]. change (iv_handle_sender s4 = iv_handle_sender s2) in C4.
  assert (Hk : ∀ sess, wp (iv_spawn (ItSession sess) ;; report (UEvent (EvSessionOpen id)))
    (λ _ s', sv_inv a s') s4); [intros sess|].
  2:{ wp_step. wp_step. wp_step. destruct (is_outbound ty); [|wp_step; apply Hk].
      destruct (open_streams_total _ _ (target_names (default TpAll (iv_dial_protocols s !! addr)) s4
        (ct_inner c) receiver handles)) as [sess Hse].
      eapply wp_or_panic; [exact Hse|]. apply Hk. }
  change (sv_inv a (iv_put_handle_sender (aw_send (iv_handle_sender s4) (UEvent (EvSessionOpen id))).1
    (iv_put_tasks (iv_tasks s4 ++ [ItSession sess]) s4))).
  assert (E3 : iv_sessions s4 = <[id := c]> (iv_sessions s2)) by done. split; [cbn|..|cbn|cbn].
  - rewrite E3. intros j d Hj. apply lookup_insert_Some in Hj as [[<- <-]|[_ Hj]]; [done|by apply Hs2].
  - change (match iv_state s4 with Running n =>
      starts (iv_put_tasks (iv_tasks s4 ++ [ItSession sess]) s4) - a <= n < 2 ^ 63 | _ => True end).
    rewrite starts_snoc, C2, C3, Z.add_0_r. apply Hs2.
  - change (a <= starts (iv_put_tasks (iv_tasks s4 ++ [ItSession sess]) s4)).
    rewrite starts_snoc, C3, Z.add_0_r. apply Hs2.
  - cbn. rewrite aw_still, C4. intros Ho j. unfold user_log. cbn. rewrite aw_view, Ho, user_view_snoc.
    pose proof (si_user _ _ Hs2 Ho j) as Hu. unfold user_log in Hu. rewrite Hu. cbn. rewrite E3. destruct (Z.eqb_spec id j) as [<-|Hne].
    + rewrite Hfr, lookup_insert_eq. by rewrite bool_decide_eq_false_2, bool_decide_eq_true_2 by (eauto || by intros []).
    + by rewrite lookup_insert_ne by done.
  - rewrite E3, C5, map_size_insert_None, Em by done. cbn. rewrite Ec. lia.
  - rewrite C5. apply Hs2.
Qed.

End Good.

#[local] Hint Resolve good_ret good_gets good_if good_control_send good_message_to good_for_each
  good_session_close good_shutdown good_update_service good_update_session good_try_update : good.
#[local] Hint Extern 2 (good _ (modify _)) => apply good_same; done : good.
#[local] Hint Extern 2 (good _ (report _)) => apply good_report; done : good.
#[local] Hint Extern 2 (good _ (iv_spawn _)) => apply good_spawn; done : good.

Ltac good_walk :=
  repeat first
    [ solve [eauto with good]
    | apply good_bind; [|intros]
    | match goal with |- good _ (match ?x with _ => _ end) => destruct x end ].

(** ** Events of the sessions *)

Lemma inv_answered a s d : sv_inv a s → 0 <= d → a + d <= starts s → sv_inv (a + d) s.
Proof.
  intros Hs Hnn Hle. pose proof (si_count _ _ Hs) as Hc. split; try apply Hs; [|done].
  destruct (iv_state s); [lia|done..].
Qed.

Lemma wp_decrease a s : sv_inv a s → a + 1 <= starts s →
  wp (put_state_or_panic decrease) (λ _ s', sv_inv (a + 1) s' ∧ starts s' = starts s) s.
Proof.
  intros Hs Hle. unfold put_state_or_panic. wp_step. wp_step. wp_step.
  pose proof (si_count _ _ Hs) as Hc. pose proof (inv_answered _ _ 1 Hs ltac:(lia) ltac:(lia)) as H1.
  destruct (iv_state s) as [n| |] eqn:E.
  - eapply wp_or_panic; [unfold decrease; by rewrite checked_sub_ok by lia|]. wp_step. split; [|done].
    split; try apply H1. unfold starts in *. cbn. lia.
  - eapply wp_or_panic; [done|]. wp_step. split; [|done]. split; try apply H1. done.
  - eapply wp_or_panic; [done|]. wp_step. split; [|done]. split; try apply H1. done.
Qed.

(** Which events the service is given, and the dials and listens they answer. *)
Definition event_fits (s : SV) (e : SE) (d : Z) : Prop :=
  match e with
  | HandshakeSuccess _ _ addr ty la =>
      addr_ok addr ∧ (ty = Inbound → is_Some la) ∧ d = if is_outbound ty then 1 else 0
  | HandshakeError _ ty _ => d = if is_outbound ty then 1 else 0
  | DialError _ _ | ListenStart _ _ => d = 1
  | ListenError addr _ => d = 1 ∨ (addr ∈ iv_listens s ∧ d = 0)
  | ProtocolMessage _ _ | ProtocolOpen _ | ProtocolClose _ => False
  | _ => d = 0
  end.

(** Whatever becomes of a listen or a dial, its task answers once with an event that fits. *)
Lemma tasks_answer s address key_pair r1 r2 hs :
  (∀ addr socket, r2 = inr (addr, socket) → addr_ok addr) →
  event_fits s (listen_task_event address r1) 1 ∧ event_fits s (dial_task_event address key_pair r2 hs) 1.
Proof.
  intros Ha. split; [destruct r1 as [|[]]; cbn; auto|]. destruct r2 as [|[addr socket]]; [done|].
  specialize (Ha _ _ eq_refl). unfold dial_task_event, handshake_event. by destruct key_pair, hs as [[[]|]|].
Qed.

Lemma good_report_session a id e : good a (report_session id e).
Proof. unfold report_session. good_walk. Qed.
#[local] Hint Resolve good_report_session : good.

(** After the answer was counted. *)
Lemma wp_answered a s (k : SM unit) : sv_inv a s → a + 1 <= starts s → good (a + 1) k →
  wp (put_state_or_panic decrease ;; k) (λ _ s', sv_inv (a + 1) s') s.
Proof.
  intros Hs Hle Hk. wp_step. eapply wp_mono; [by apply wp_decrease|]. intros [] s' [H1 _]. by apply Hk.
Qed.

Lemma good_accept a h key addr ty la : addr_ok addr → (ty = Inbound → is_Some la) →
  good a (s ← gets (λ s, s); if reached_max_connection_limit s then mret tt
          else session_open h key addr ty la).
Proof.
  intros Ha Hl. apply good_gets_bind. intros s Hs. destruct (reached_max_connection_limit s) eqn:E; [by wp_step|].
  apply wp_session_open; try done. unfold reached_max_connection_limit in E.
  pose proof (si_limit _ _ Hs). pose proof (si_max _ _ Hs). pose proof (si_count _ _ Hs) as Hc.
  pose proof (si_answered _ _ Hs).
  assert (0 <= default 0 (into_inner (iv_state s)) < 2 ^ 63) as Hn by (destruct (iv_state s); cbn; lia).
  rewrite checked_add_ok in E by lia. apply Z.ltb_ge in E. lia.
Qed.

Lemma wp_event a e d s : sv_inv a s → event_fits s e d → a + d <= starts s →
  wp (handle_session_event e) (λ _ s', sv_inv (a + d) s') s.
Proof.
  intros Hs He Hle.
  assert (H0 : ∀ c : SM unit, d = 0 → good a c → wp c (λ _ s', sv_inv (a + d) s') s).
  { intros c -> Hc. rewrite Z.add_0_r. by apply Hc. }
  destruct e as [j|la inc|h key addr ty la|addr ty err|addr err|addr err|p x|p|p|stream|j st err|j n|j|j p err|j err|err p];
    cbn [event_fits handle_session_event] in *; try done; try (apply H0; [done|]; good_walk; fail).
  - subst d. unfold report. wp_step. wp_step. wp_step. wp_step. apply wp_answered; [|done|unfold spawn_listener; good_walk].
    eapply (inv_report a (UEvent (EvListenStarted la))) in Hs; [|done]. split; apply Hs.
  - destruct He as (Ha & Hl & ->). destruct (is_outbound ty).
    + apply wp_answered; [done..|]. by apply good_accept.
    + rewrite Z.add_0_r. wp_step. wp_step. by apply good_accept.
  - subst d. destruct (is_outbound ty); [|rewrite Z.add_0_r; by wp_step]. apply wp_answered; [done..|]. good_walk.
  - subst d. apply wp_answered; [done..|]. good_walk.
  - wp_step. apply wp_modify. wp_step. wp_step.
    eapply (inv_report a (UError (ErListenError addr (LeTransportError err)))) in Hs; [|done].
    case_bool_decide as Hin.
    + assert (Hd0 : 0 <= d) by (destruct He as [-> |[_ ->]]; lia).
      apply (inv_answered _ _ d) in Hs; [|done..]. revert Hs. apply good_bind; [auto with good|]. auto with good.
    + destruct He as [-> |[Hin' _]]; [|done].
      eapply wp_mono; [by apply wp_decrease|]. naive_solver.
Qed.

(** ** Tasks of the users *)

Definition room (s : SV) : Prop := match iv_state s with Running n => n + 1 < 2 ^ 63 | _ => True end.

Lemma wp_increase a t s : sv_inv a s → is_start t = true → room s →
  wp (iv_spawn t ;; put_state_or_panic increase) (λ _ s', sv_inv a s') s.
Proof.
  intros Hs Ht Hr. unfold iv_spawn, put_state_or_panic. wp_step. wp_step. wp_step. wp_step. wp_step. cbn [iv_state iv_put_tasks].
  pose proof (si_count _ _ Hs) as Hc. unfold room in Hr. pose proof (si_answered _ _ Hs).
  assert (Hst := starts_snoc t s). rewrite Ht in Hst.
  assert (Hput : ∀ st, match st with Running n => starts s + 1 - a <= n < 2 ^ 63 | _ => True end →
    sv_inv a (iv_put_state st (iv_put_tasks (iv_tasks s ++ [t]) s))).
  { intros st Hok. split; try apply Hs; change (starts (iv_put_state st ?x)) with (starts x); unfold starts in *; cbn in *.
    - destruct st; [lia|done..].
    - lia. }
  destruct (iv_state s) as [n| |] eqn:E.
  - eapply wp_or_panic; [unfold increase; by rewrite checked_add_ok by lia|]. wp_step. apply Hput. lia.
  - eapply wp_or_panic; [done|]. wp_step. by apply Hput.
  - eapply wp_or_panic; [done|]. wp_step. by apply Hput.
Qed.

(** The addresses a task names can be read. *)
Definition task_fits (t : ServiceTask FT) : Prop :=
  match t with TaDial addr _ | TaListen addr => addr_ok addr | _ => True end.

Lemma transport_ok tr m : addr_ok m → ∃ o, multi_transport tr m = ROk o.
Proof.
  intros [ps H]. unfold multi_transport, find_type. rewrite (find_map_spec _ _ _ H). eexists. reflexivity.
Qed.

Lemma wp_started a address t s : sv_inv a s → room s → addr_ok address → is_start t = true →
  wp (tr ← gets iv_multi_transport; r ← or_iter_panic (multi_transport tr address);
      match r with Some e => mret (Some e) | None => iv_spawn t ;; put_state_or_panic increase ;; mret None end)
    (λ _ s', sv_inv a s') s.
Proof.
  intros Hs Hr Ha Ht. wp_step. wp_step. destruct (transport_ok (iv_multi_transport s) address Ha) as [o Ho]. rewrite Ho.
  wp_step. cbn [or_iter_panic]. wp_step. destruct o; [by wp_step|].
  pose proof (wp_increase a t s Hs Ht Hr) as H. apply wp_run in H as (s' & [] & E & H1).
  apply bind_ok in E as (s1 & [] & E1 & E2).
  unfold wp. erewrite bind_run; [|exact E1]. erewrite bind_run; [|exact E2]. done.
Qed.

Lemma good_handle_message a target p pr d : good a (handle_message target p pr d).
Proof. unfold handle_message. good_walk. Qed.
#[local] Hint Resolve good_handle_message : good.

Lemma wp_task a t pr s : sv_inv a s → room s → task_fits t → wp (handle_service_task t pr) (λ _ s', sv_inv a s') s.
Proof.
  intros Hs Hr Ht. unfold handle_service_task. wp_step. wp_step.
  assert (Hk : ∀ (c : SM (option TransportErrorKind)) f, wp c (λ _ s', sv_inv a s') s →
    wp (r ← c; match r with Some e => report (UError (f e)) | None => mret tt end) (λ _ s', sv_inv a s') s).
  { intros c f Hc. wp_step. eapply wp_mono; [exact Hc|]. intros [e|] s' H'; [by apply good_report|by wp_step]. }
  assert (G : ∀ c : SM unit, good a c → wp c (λ _ s', sv_inv a s') s) by (intros c Hc; by apply Hc).
  destruct t as [tg p d|i tg|i p|p iv tk|p tk|i p iv tk|i p tk|ft|i|addr tg|addr|quick]; cbn [task_fits] in Ht;
    try (apply G; unfold service_handle_send, session_handle_send, protocol_open, protocol_close; good_walk; fail).
  - case_bool_decide; [by wp_step|]. apply Hk. unfold dial_inner. wp_step. wp_step. apply wp_started; try done.
    split; apply Hs.
  - case_bool_decide; [by wp_step|]. apply Hk. by apply wp_started.
Qed.

(** ** The loop *)

Lemma good_head a : good a run_head.
Proof.
  unfold run_head. apply good_gets_bind. intros s Hs. case_match.
  - unfold iv_wait_handle_poll. wp_steps. split; try apply Hs. cbn. by rewrite cs_closed.
  - wp_step. eapply wp_mono; [by apply good_try_update|]. intros [] s' H'. by wp_step.
Qed.

(** ** Before the loop *)

Lemma good_start a : good a service_start.
Proof.
  assert (∀ metas, good a (init_loop metas)).
  { induction metas as [|[p m] metas IH]; cbn [init_loop]; [auto with good|]. good_walk. }
  unfold service_start, init_proto_handles. good_walk.
Qed.

Lemma wp_listen a address outcome s : sv_inv a s → addr_ok address →
  wp (service_listen address outcome) (λ _ s', sv_inv a s') s.
Proof.
  intros Hs Ha. unfold service_listen. wp_step. wp_step.
  destruct (transport_ok (iv_multi_transport s) address Ha) as [o Ho]. rewrite Ho. wp_step. cbn [or_iter_panic]. wp_step.
  destruct o; [by wp_step|]. destruct outcome as [e|[addr inc]]; [by wp_step|]. revert s Hs Ho. intros s Hs _. revert s Hs.
  unfold spawn_listener. apply good_bind; [auto with good|]. intros _. good_walk.
Qed.

Lemma wp_dial a address target outcome s : sv_inv a s → room s → addr_ok address →
  wp (service_dial address target outcome) (λ _ s', sv_inv a s') s.
Proof.
  intros Hs Hr Ha. unfold service_dial. wp_step. wp_step.
  destruct (transport_ok (iv_multi_transport s) address Ha) as [o Ho]. rewrite Ho. wp_step. cbn [or_iter_panic]. wp_step.
  destruct o; [by wp_step|]. destruct outcome as [e|addr]; [by wp_step|].
  set (s1 := iv_put_dial_protocols (<[address := target]> (iv_dial_protocols s)) s).
  assert (H1 : sv_inv a s1) by (split; apply Hs).
  pose proof (wp_increase a (ItDial addr) s1 H1 eq_refl Hr) as H. apply wp_run in H as (s' & [] & E & H2).
  apply bind_ok in E as (s2 & [] & [= <-] & E2). wp_step. unfold iv_spawn. wp_step. wp_step. wp_step. wp_step.
  eapply (wp_mono _ (λ _ s', sv_inv a s')); [|intros [] s'' H''; by wp_step].
  change (wp (put_state_or_panic increase) (λ _ s', sv_inv a s') (iv_put_tasks (iv_tasks s ++ [ItDial addr]) s1)).
  unfold wp. by rewrite E2.
Qed.

(** ** Runs *)

(** Other tasks take from the channels and count bytes. *)
Definition same_session (o o' : option (@SessionController CS)) : Prop :=
  match o, o' with
  | Some c, Some c' => sc_id (ct_inner c') = sc_id (ct_inner c)
  | None, None => True
  | _, _ => False
  end.

Inductive service_run (s0 : SV) : Z → SV → Prop :=
| sv_new : service_run s0 0 s0
| sv_started a s s' : service_run s0 a s → service_start s = (s', ROk tt) → service_run s0 a s'
| sv_listen a s address outcome s' r : service_run s0 a s → addr_ok address →
    service_listen address outcome s = (s', ROk r) → service_run s0 a s'
| sv_dial a s address target outcome s' r : service_run s0 a s → room s → addr_ok address →
    service_dial address target outcome s = (s', ROk r) → service_run s0 a s'
| sv_event a s e d s' : service_run s0 a s → event_fits s e d → a + d <= starts s →
    handle_session_event e s = (s', ROk tt) → service_run s0 (a + d) s'
| sv_task a s t pr s' : service_run s0 a s → room s → task_fits t →
    handle_service_task t pr s = (s', ROk tt) → service_run s0 a s'
| sv_head a s ended s' : service_run s0 a s → run_head s = (s', ROk ended) → service_run s0 a s'
| sv_others a s sessions hs er tr : service_run s0 a s →
    (∀ id, same_session (iv_sessions s !! id) (sessions !! id)) →
    aw_sent hs = aw_sent (iv_handle_sender s) → aw_open hs = aw_open (iv_handle_sender s) →
    service_run s0 a (iv_put_sessions sessions (iv_put_handle_sender hs
      (iv_put_session_event_receiver er (iv_put_service_task_receiver tr s)))).

Definition new_service (s0 : SV) : Prop :=
  ∃ metas transport forever config hs es er tr,
    s0 = InnerService_new metas transport forever config hs es er tr ∧
    0 <= cf_max_connection_number config < 2 ^ 63 ∧ aw_sent hs = [].

Lemma inv_new s0 : new_service s0 → sv_inv 0 s0.
Proof.
  intros (metas & tr & fv & cf & hs & es & er & tk & -> & Hm & Hl). split; cbn; try done.
  - by destruct fv.
  - intros _ id. unfold user_log. cbn. by rewrite Hl, lookup_empty.
  - rewrite map_size_empty. lia.
Qed.

Lemma same_session_size (m m' : gmap Z (@SessionController CS)) :
  (∀ id, same_session (m !! id) (m' !! id)) → size m' = size m.
Proof.
  intros H. rewrite <- !size_dom. f_equal. apply leibniz_equiv. intros id. rewrite !elem_of_dom.
  specialize (H id). destruct (m !! id), (m' !! id); cbn in H; try done; split; intros [? ?]; eauto; done.
Qed.

Lemma run_inv s0 a s : new_service s0 → service_run s0 a s → sv_inv a s.
Proof.
  intros H0. induction 1 as [|a s s' _ IH E|a s ad o s' r _ IH Ha E|a s ad tg o s' r _ IH Hr Ha E
    |a s e d s' _ IH He Hd0 E|a s t pr s' _ IH Hr Ht E|a s b s' _ IH E|a s m hs er tr _ IH Hm H1 H2].
  - by apply inv_new.
  - exact (wp_ok _ _ _ _ _ (good_start a s IH) E).
  - exact (wp_ok _ _ _ _ _ (wp_listen a ad o s IH Ha) E).
  - exact (wp_ok _ _ _ _ _ (wp_dial a ad tg o s IH Hr Ha) E).
  - exact (wp_ok _ _ _ _ _ (wp_event a e d s IH He Hd0) E).
  - exact (wp_ok _ _ _ _ _ (wp_task a t pr s IH Hr Ht) E).
  - exact (wp_ok _ _ _ _ _ (good_head a s IH) E).
  - split; try apply IH; cbn.
    + intros id c Hc. specialize (Hm id). rewrite Hc in Hm. destruct (iv_sessions s !! id) as [c0|] eqn:E; [|done].
      cbn in Hm. rewrite Hm. by apply IH.
    + rewrite H2. intros Ho id. unfold user_log. cbn. rewrite H1. etrans; [by apply IH|]. f_equal.
      apply bool_decide_ext. specialize (Hm id). destruct (iv_sessions s !! id), (m !! id); try done; split; intros [? ?]; eauto; done.
    + rewrite (same_session_size _ _ Hm). apply IH.
Qed.

(** C15: while the user listens, it sees every session opened before it is closed, and closed before
    an identifier is opened again; and the sessions it has seen opened and not closed are exactly
    those the service holds. *)
Theorem service_sessions_seen s0 a s : new_service s0 → service_run s0 a s →
  aw_open (iv_handle_sender s) = true →
  ∀ id, user_view id (user_log s) = Some (bool_decide (is_Some (iv_sessions s !! id))).
Proof. intros H0 Hr. by apply (run_inv s0 a s H0 Hr). Qed.

(** The service never holds more than one session above its limit of connections. *)
Theorem service_connection_limit s0 a s : new_service s0 → service_run s0 a s →
  Z.of_nat (size (iv_sessions s)) <= cf_max_connection_number (iv_config s) + 1.
Proof. intros H0 Hr. by apply (run_inv s0 a s H0 Hr). Qed.

(** C16: in every run, each event that answers a dial or a listen that was started, or reports about
    a session, is handled without a panic, and so is each task: the count of connections under way
    does not underflow, a session identifier is found, and the protocols a session opens are
    known to it. *)
Theorem service_never_panics s0 a s : new_service s0 → service_run s0 a s →
  (∀ e d, event_fits s e d → a + d <= starts s → ∃ s', handle_session_event e s = (s', ROk tt)) ∧
  (∀ t pr, room s → task_fits t → ∃ s', handle_service_task t pr s = (s', ROk tt)).
Proof.
  intros H0 Hr. pose proof (run_inv s0 a s H0 Hr) as Hi. split.
  - intros e d He Hle. destruct (wp_run _ _ _ (wp_event a e d s Hi He Hle)) as (s' & [] & E & _). eauto.
  - intros t pr Hro Ht. destruct (wp_run _ _ _ (wp_task a t pr s Hi Hro Ht)) as (s' & [] & E & _). eauto.
Qed.

(** C22: the search for the identifier of a new session ends, after at most one turn more than there
    are sessions, with an identifier no open session has. *)
Theorem generate_next_session_terminates (s : SV) : Z.of_nat (size (iv_sessions s)) < 2 ^ 64 →
  ∃ id, generate_next_session s = (iv_put_next_session id s, ROk tt) ∧
    iv_sessions s !! id = None ∧ is_u64 id.
Proof.
  intros Hs. destruct (next_session_total (iv_sessions s) (iv_next_session s) Hs) as (id & E & H).
  exists id. split; [|done]. unfold generate_next_session, mbind, M_bind, gets. by rewrite E.
Qed.

(** ** Messages *)

(** A session that was given one message more. *)
Definition deliver_message (p : Z) (pr : Priority) (d : bytes) (c : @SessionController CS) : @SessionController CS :=
  controller_send pr (ProtocolMessage p d)
    (mkController (ct_sender c) (incr_pending_data_size (len d) (ct_inner c))).

Definition occurrences (id : Z) (l : list Z) : nat := length (filter (λ x, x = id) l).

(** How often a target names a session. *)
Definition times (target : TargetSession) (id : Z) : nat :=
  match target with
  | TsAll => 1
  | TsSingle j => if decide (j = id) then 1 else 0
  | TsMulti ids => occurrences id ids
  | TsFilter f => if f id then 1 else 0
  end.

Lemma message_to_eq id p pr d (s : SV) : message_to id p pr d s =
  (match iv_sessions s !! id with
   | Some c => iv_put_sessions (<[id := deliver_message p pr d c]> (iv_sessions s)) s
   | None => s
   end, ROk tt).
Proof.
  unfold message_to, mbind, M_bind, gets. cbn. by destruct (iv_sessions s !! id).
Qed.

Lemma for_each_messages p pr d l (s : SV) : ∃ m,
  for_each (λ id, message_to id p pr d) l s = (iv_put_sessions m s, ROk tt) ∧
  ∀ id, m !! id = Nat.iter (occurrences id l) (deliver_message p pr d) <$> iv_sessions s !! id.
Proof.
  revert s. induction l as [|j l IH]; intros s; cbn [for_each].
  - exists (iv_sessions s). split; [by destruct s|]. intros id. by destruct (iv_sessions s !! id).
  - unfold mbind, M_bind. rewrite message_to_eq. destruct (iv_sessions s !! j) as [c|] eqn:E.
    + destruct (IH (iv_put_sessions (<[j := deliver_message p pr d c]> (iv_sessions s)) s)) as (m & Em & Hm).
      exists m. rewrite Em. split; [done|]. intros id. rewrite Hm. cbn [iv_sessions iv_put_sessions].
      unfold occurrences. rewrite filter_cons. destruct (decide (j = id)) as [->|Hne].
      * rewrite lookup_insert_eq, E, length_cons. cbn [fmap option_fmap option_map]. by rewrite Nat.iter_succ_r.
      * by rewrite lookup_insert_ne by done.
    + destruct (IH s) as (m & Em & Hm). exists m. split; [exact Em|]. intros id. rewrite Hm.
      unfold occurrences. rewrite filter_cons. destruct (decide (j = id)) as [->|Hne]; [by rewrite E|done].
Qed.

Lemma occurrences_keys {B} id (m : gmap Z B) (f : Z → bool) : is_Some (m !! id) →
  occurrences id (filter (λ x, f x = true) (iter_keys m)) = if f id then 1%nat else 0%nat.
Proof.
  intros [x Hx]. unfold occurrences. rewrite list_filter_filter.
  assert (Hp : iter_keys m ≡ₚ (map_to_list m).*1) by (unfold iter_keys, iter_map; by rewrite hash_order_perm).
  rewrite Hp.
  assert (Hl : ∀ l : list Z, NoDup l → id ∈ l → length (filter (λ x, x = id ∧ f x = true) l) = if f id then 1%nat else 0%nat).
  { intros l Hnd Hin. induction Hnd as [|y l Hy Hnd IH]; [by apply not_elem_of_nil in Hin|].
    rewrite filter_cons. apply elem_of_cons in Hin as [<-|Hin].
    - assert (Hnone : filter (λ x, x = id ∧ f x = true) l = []).
      { apply elem_of_nil_inv. intros z Hz. apply list_elem_of_filter in Hz as [[-> _] Hz]. done. }
      rewrite Hnone. destruct (f id) eqn:Ef; [rewrite decide_True by done|rewrite decide_False by naive_solver]; done.
    - rewrite decide_False by (intros [-> _]; done). by apply IH. }
  apply Hl; [apply NoDup_fst_map_to_list|]. apply list_elem_of_fmap. exists (id, x). split; [done|]. by apply elem_of_map_to_list.
Qed.

(** C17: a message goes to the sessions its target names and to no other: each of them is sent the
    message, after the protocol's [before_send], at its priority, as often as the target names it,
    and its count of pending bytes grows by the length of what was sent. *)
Theorem service_routes_messages target p pr d (s : SV) : ∃ m,
  handle_message target p pr d s = (iv_put_sessions m s, ROk tt) ∧
  ∀ id, m !! id = Nat.iter (times target id)
    (deliver_message p pr (match iv_before_sends s !! p with Some f => f d | None => d end)) <$> iv_sessions s !! id.
Proof.
  unfold handle_message, mbind, M_bind, gets. set (d' := match iv_before_sends s !! p with Some f => f d | None => d end).
  destruct target as [|j|ids|f].
  - destruct (for_each_messages p pr d' (iter_keys (iv_sessions s)) s) as (m & E & H). exists m. split; [done|].
    intros id. rewrite H. destruct (iv_sessions s !! id) eqn:Es; [|done]. cbn [times].
    pose proof (occurrences_keys id (iv_sessions s) (λ _, true)) as Ho. rewrite Es in Ho. cbn in Ho.
    replace (filter (λ _ : Z, true = true) (iter_keys (iv_sessions s))) with (iter_keys (iv_sessions s)) in Ho;
      [by rewrite Ho by eauto|]. symmetry. clear. induction (iter_keys (iv_sessions s)) as [|k l IH]; [done|]. rewrite filter_cons_True by done. by f_equal.
  - destruct (for_each_messages p pr d' [j] s) as (m & E & H). exists m. split.
    + cbn [for_each] in E. unfold mbind, M_bind in E. destruct (message_to j p pr d' s) as [s1 [[]|[]|]]; done.
    + intros id. rewrite H. cbn [times]. unfold occurrences. rewrite filter_cons, filter_nil. by destruct (decide (j = id)).
  - apply (for_each_messages p pr d' ids s).
  - destruct (for_each_messages p pr d' (filter (λ id, f id = true) (iter_keys (iv_sessions s))) s) as (m & E & H).
    exists m. split; [done|]. intros id. rewrite H. destruct (iv_sessions s !! id) eqn:Es; [|done].
    cbn [times]. by rewrite occurrences_keys by (rewrite Es; eauto).
Qed.

(** ** Shutdown *)

Lemma report_all_open es (s : SV) : aw_open (iv_handle_sender s) = true → ∃ hs,
  report_all es s = (iv_put_handle_sender hs s, ROk tt) ∧
  aw_open hs = true ∧ aw_sent hs = aw_sent (iv_handle_sender s) ++ es.
Proof.
  revert s. induction es as [|e es IH]; intros s Ho; cbn [report_all].
  - exists (iv_handle_sender s). rewrite app_nil_r. split; [by destruct s|done].
  - pose proof (aw_ok (iv_handle_sender s) e) as Hok. pose proof (aw_view (iv_handle_sender s) e) as Hv.
    pose proof (aw_still (iv_handle_sender s) e) as Hst. rewrite Ho in Hok, Hv, Hst.
    unfold mbind, M_bind, gets, modify. destruct (aw_send (iv_handle_sender s) e) as [hs ok]. cbn in Hok, Hv, Hst. subst ok.
    destruct (IH (iv_put_handle_sender hs s) Hst) as (hs' & E & Ho' & Hs'). exists hs'. rewrite E. cbn in Hs'.
    by rewrite Hs', Hv, <- app_assoc.
Qed.

(** Sessions that end on their own side. *)
Definition closed_event (c : @SessionController CS) : ServiceEventAndError :=
  UEvent (EvSessionClose (sc_id (ct_inner c))).

Lemma omap_delete_notin {B} (m : gmap Z B) i (l : list Z) : i ∉ l →
  omap (λ j, delete i m !! j) l = omap (λ j, m !! j) l.
Proof.
  induction l as [|j l IH]; intros Hi; [done|]. cbn. rewrite lookup_delete_ne by set_solver. by rewrite IH by set_solver.
Qed.

Lemma close_internal_all l (s : SV) : aw_open (iv_handle_sender s) = true → NoDup l →
  wp (for_each (λ i, session_close i Internal) l) (λ _ s',
    iv_listens s' = iv_listens s ∧ iv_state s' = iv_state s ∧ aw_open (iv_handle_sender s') = true ∧
    user_log s' = user_log s ++ (closed_event <$> omap (λ i, iv_sessions s !! i) l) ∧
    ∀ id, iv_sessions s' !! id = if decide (id ∈ l) then None else iv_sessions s !! id) s.
Proof.
  revert s. induction l as [|i l IH]; intros s Ho Hnd; cbn [for_each].
  - wp_step. cbn. rewrite app_nil_r. repeat split; try done.
  - apply NoDup_cons in Hnd as [Hi Hnd]. wp_step. cbn [session_close]. wp_step. wp_step. wp_step. wp_step.
    cbn [iv_sessions iv_put_session_proto_handles]. destruct (iv_sessions s !! i) as [c|] eqn:E.
    + unfold report. wp_steps. cbn [iv_handle_sender iv_put_sessions iv_put_session_proto_handles].
      eapply wp_mono; [apply IH; [cbn; by rewrite aw_still|done]|]. cbn.
      intros [] s' (H1 & H2 & H3 & H4 & H5). repeat split; try done.
      * rewrite H4, omap_delete_notin by done. unfold user_log. cbn. by rewrite aw_view, Ho, E, <- app_assoc.
      * intros id. rewrite H5. destruct (decide (id = i)) as [->|Hne].
        -- rewrite lookup_delete_eq, (decide_True (P := i ∈ i :: l)) by set_solver. by case_decide.
        -- rewrite lookup_delete_ne by done. apply decide_ext. set_solver.
    + wp_step. eapply wp_mono; [by apply IH|]. cbn. intros [] s' (H1 & H2 & H3 & H4 & H5). repeat split; try done.
      * rewrite H4. cbn. by rewrite E.
      * intros id. rewrite H5. destruct (decide (id = i)) as [->|Hne].
        -- rewrite (decide_True (P := i ∈ i :: l)) by set_solver. by rewrite E; case_decide.
        -- apply decide_ext. set_solver.
Qed.

Lemma run_head_ends (s : SV) : iv_listens s = ∅ → iv_state s = PreShutdown → (∀ id, iv_sessions s !! id = None) →
  ∃ s', run_head s = (s', ROk true) ∧ iv_shutdown s' = true.
Proof.
  intros H1 H2 H3. apply map_empty in H3. unfold run_head, mbind, M_bind, gets. rewrite H1, H2, H3. cbn. eauto.
Qed.

Lemma elem_iter_keys {B} (m : gmap Z B) id : id ∈ iter_keys m ↔ is_Some (m !! id).
Proof.
  unfold iter_keys. rewrite list_elem_of_fmap. split.
  - intros ([j x] & -> & H). apply elem_iter, elem_of_map_to_list in H. eauto.
  - intros [x Hx]. exists (id, x). split; [done|]. by apply elem_iter, elem_of_map_to_list.
Qed.

Lemma iter_keys_NoDup {B} (m : gmap Z B) : NoDup (iter_keys m).
Proof.
  unfold iter_keys. assert (Hp : (iter_map m).*1 ≡ₚ (map_to_list m).*1) by (unfold iter_map; by rewrite hash_order_perm).
  rewrite Hp. apply NoDup_fst_map_to_list.
Qed.

(** A quick shutdown always returns; it closes every listener and every session at once, each
    reported once to the user in that order, and the loop ends at its next turn. *)
Theorem quick_shutdown_ends (s : SV) : aw_open (iv_handle_sender s) = true → ∃ s' listens ids,
  shutdown_task true s = (s', ROk tt) ∧
  listens ≡ₚ elements (iv_listens s) ∧ ids ≡ₚ (map_to_list (iv_sessions s)).*1 ∧
  user_log s' = user_log s ++ ((λ l, UEvent (EvListenClose l)) <$> listens) ++
    (closed_event <$> omap (λ i, iv_sessions s !! i) ids) ∧
  ∃ s'', run_head s' = (s'', ROk true) ∧ iv_shutdown s'' = true.
Proof.
  intros Ho.
  assert (W : wp (shutdown_task true) (λ _ s', iv_listens s' = ∅ ∧ iv_state s' = PreShutdown ∧
    (∀ id, iv_sessions s' !! id = None) ∧
    user_log s' = user_log s ++ ((λ l, UEvent (EvListenClose l)) <$> hash_order _ (elements (iv_listens s))) ++
      (closed_event <$> omap (λ i, iv_sessions s !! i) (iter_keys (iv_sessions s)))) s).
  { unfold shutdown_task. wp_steps. cbn [iv_listens iv_put_state].
    set (s1 := iv_put_listens _ _).
    destruct (report_all_open ((λ l, UEvent (EvListenClose l)) <$> hash_order _ (elements (iv_listens s))) s1 Ho) as (hs & E & Ho' & Hs').
    unfold wp at 1. rewrite E.  wp_steps. cbn.
    eapply wp_mono; [apply close_internal_all; [done|apply iter_keys_NoDup]|].
    cbn. intros [] s' (H1 & H2 & H3 & H4 & H5). repeat split; try done.
    - intros id. rewrite H5. case_decide as Hin; [done|]. rewrite elem_iter_keys in Hin. by apply eq_None_not_Some.
    - rewrite H4. unfold user_log at 1. cbn. rewrite Hs'. by rewrite <- app_assoc. }
  apply wp_run in W as (s' & [] & E & H1 & H2 & H3 & H4).
  exists s', (hash_order _ (elements (iv_listens s))), (iter_keys (iv_sessions s)). repeat split; try done.
  - unfold iter_keys, iter_map. by rewrite hash_order_perm.
  - by apply run_head_ends.
Qed.

Definition asked_to_close (id : Z) (c : @SessionController CS) : @SessionController CS :=
  controller_send High (SessionClose id) c.

Lemma close_external_all l (s : SV) : NoDup l → ∃ m,
  for_each (λ i, session_close i External) l s = (iv_put_sessions m s, ROk tt) ∧
  ∀ id, m !! id = (if decide (id ∈ l) then asked_to_close id else λ c, c) <$> iv_sessions s !! id.
Proof.
  revert s. induction l as [|i l IH]; intros s Hnd; cbn [for_each].
  - exists (iv_sessions s). split; [by destruct s|]. intros id. by destruct (iv_sessions s !! id).
  - apply NoDup_cons in Hnd as [Hi Hnd]. unfold mbind at 1, M_bind at 1.
    assert (E : session_close i External s = (match iv_sessions s !! i with
      | Some c => iv_put_sessions (<[i := asked_to_close i c]> (iv_sessions s)) s | None => s end, ROk tt)).
    { unfold session_close, control_send, mbind, M_bind, gets. by destruct (iv_sessions s !! i). }
    rewrite E. destruct (iv_sessions s !! i) as [c|] eqn:Ei.
    + destruct (IH (iv_put_sessions (<[i := asked_to_close i c]> (iv_sessions s)) s) Hnd) as (m & Em & Hm).
      exists m. rewrite Em. split; [done|]. intros id. rewrite Hm. cbn. destruct (decide (id = i)) as [->|Hne].
      * rewrite lookup_insert_eq, Ei, decide_False by done. by rewrite decide_True by set_solver.
      * rewrite lookup_insert_ne by done. f_equal. apply decide_ext. set_solver.
    + destruct (IH s Hnd) as (m & Em & Hm). exists m. rewrite Em. split; [done|]. intros id. rewrite Hm.
      destruct (decide (id = i)) as [->|Hne]; [by rewrite Ei|]. f_equal. apply decide_ext. set_solver.
Qed.

(** *** What happens after a graceful shutdown *)

(** The service is shutting down, listens at most on the addresses of [L] and holds at most the
    sessions of [D]. *)
Definition closing (L : Multiaddr → Prop) (D : Z → Prop) (s : SV) : Prop :=
  iv_state s = PreShutdown ∧ (∀ a, a ∈ iv_listens s → L a) ∧ (∀ id, is_Some (iv_sessions s !! id) → D id).

Lemma closing_mono (L L' : Multiaddr → Prop) (D D' : Z → Prop) s :
  closing L D s → (∀ a, L a → L' a) → (∀ id, D id → D' id) → closing L' D' s.
Proof. intros (H1 & H2 & H3) HL HD. split_and!; auto. Qed.

Section Closing.
Context (L : Multiaddr → Prop) (D : Z → Prop).

(** Updates of other parts. *)
Lemma closing_same f : (∀ s : SV, iv_state (f s) = iv_state s ∧ iv_listens (f s) = iv_listens s ∧
  iv_sessions (f s) = iv_sessions s) → keeps (closing L D) (modify f : SM unit).
Proof. intros H. apply keeps_modify. intros s. unfold closing. destruct (H s) as (-> & -> & ->). done. Qed.

Lemma closing_state f : f PreShutdown = Some PreShutdown → keeps (closing L D) (put_state_or_panic f : SM unit).
Proof.
  intros Hf. apply keeps_gets_bind. intros s Hs. pose proof (proj1 Hs) as E. rewrite E, Hf. unfold mbind, M_bind. cbn.
  unfold closing in *. cbn. by rewrite E in Hs.
Qed.

Lemma closing_insert id c c' s : closing L D s → iv_sessions s !! id = Some c →
  closing L D (iv_put_sessions (<[id := c']> (iv_sessions s)) s).
Proof.
  intros (H1 & H2 & H3) E. split_and!; [done|done|]. cbn. intros j [x Hj].
  apply lookup_insert_Some in Hj as [[<- _]|[_ Hj]]; apply H3; eauto.
Qed.

Lemma closing_control_send id pr e : keeps (closing L D) (control_send id pr e : SM unit).
Proof.
  apply keeps_gets_bind. intros s Hs. destruct (iv_sessions s !! id) as [c|] eqn:E; [|done]. by eapply closing_insert.
Qed.

Lemma closing_message_to id p pr d : keeps (closing L D) (message_to id p pr d : SM unit).
Proof.
  apply keeps_gets_bind. intros s Hs. destruct (iv_sessions s !! id) as [c|] eqn:E; [|done]. by eapply closing_insert.
Qed.

Lemma closing_for_each {A} (f : A → SM unit) l : (∀ x, keeps (closing L D) (f x)) → keeps (closing L D) (for_each f l).
Proof. intros H. induction l; cbn [for_each]; [apply keeps_ret|]. by apply keeps_bind. Qed.

Lemma closing_session_close id src : keeps (closing L D) (session_close id src : SM unit).
Proof.
  destruct src; cbn [session_close]; [apply closing_control_send|].
  apply keeps_bind; [by apply closing_same|]. intros _. apply keeps_gets_bind. intros s Hs.
  destruct (iv_sessions s !! id) as [c|]; [|done]. apply (keeps_bind (closing L D)); [|intros; by apply closing_same|exact Hs].
  intros s' Hs'. destruct Hs as (H1 & H2 & H3), Hs' as (H1' & H2' & H3'). split_and!; [done|done|].
  cbn. intros j [x Hj]. apply lookup_delete_Some in Hj as [_ Hj]. apply H3. eauto.
Qed.

#[local] Hint Resolve closing_control_send closing_message_to closing_for_each closing_session_close : keeps.
#[local] Hint Extern 2 (keeps (closing _ _) (modify _)) => apply closing_same; done : keeps.
#[local] Hint Extern 2 (keeps (closing _ _) (put_state_or_panic _)) => apply closing_state; done : keeps.
#[local] Hint Extern 2 (keeps (closing _ _) (report _)) => apply closing_same; done : keeps.
#[local] Hint Extern 2 (keeps (closing _ _) (iv_spawn _)) => apply closing_same; done : keeps.

Lemma closing_report_all es : keeps (closing L D) (report_all es : SM unit).
Proof. induction es as [|e es IH]; cbn [report_all]; keeps_walk. Qed.
#[local] Hint Resolve closing_report_all : keeps.

(** A shutdown brings any service that holds the sessions of [D] there. *)
Lemma shutdown_closes quick s : (∀ id, is_Some (iv_sessions s !! id) → D id) → closing L D (shutdown_task quick s).1.
Proof.
  intros Hs. assert (Hmod : ∀ f (k : unit → SM unit) s, (modify f ≫= k) s = k tt (f s)) by done.
  assert (Hget : ∀ {A} (f : SV → A) (k : A → SM unit) s, (gets f ≫= k) s = k (f s) s) by done.
  unfold shutdown_task. rewrite Hmod, Hget, Hmod.
  assert (closing L D (iv_put_listens ∅ (iv_put_state (pre_shutdown (iv_state s)) s))) as H0 by (split_and!; [done|set_solver|done]).
  revert H0. match goal with |- _ → _ (?c ?x).1 => generalize x; change (keeps (closing L D) c) end.
  apply keeps_bind; [apply closing_report_all|]. intros _. apply keeps_bind; [apply keeps_gets|]. intros ses.
  destruct quick; keeps_walk.
Qed.

Lemma closing_shutdown quick : keeps (closing L D) (shutdown_task quick : SM unit).
Proof. intros s (_ & _ & Hs). by apply shutdown_closes. Qed.
#[local] Hint Resolve closing_shutdown : keeps.

Lemma closing_update_service addrs l : keeps (closing L D) (update_service_handles addrs l : SM bool).
Proof. induction l as [|[p x] l IH]; cbn [update_service_handles]; keeps_walk. Qed.
Lemma closing_update_session addrs l : keeps (closing L D) (update_session_handles addrs l : SM bool).
Proof. induction l as [|[[i p] x] l IH]; cbn [update_session_handles]; keeps_walk. Qed.
#[local] Hint Resolve closing_update_service closing_update_session : keeps.

Lemma closing_update : keeps (closing L D) (try_update_listens : SM unit).
Proof. unfold try_update_listens. keeps_walk. Qed.
#[local] Hint Resolve closing_update : keeps.

Lemma closing_head : keeps (closing L D) (run_head : SM bool).
Proof. unfold run_head, iv_wait_handle_poll. keeps_walk. Qed.

Lemma closing_report_session id e : keeps (closing L D) (report_session id e : SM unit).
Proof. unfold report_session. keeps_walk. Qed.
#[local] Hint Resolve closing_report_session : keeps.

Lemma closing_task t pr : keeps (closing L D) (handle_service_task t pr : SM unit).
Proof.
  unfold handle_service_task, handle_message, dial_inner, listen_inner, or_iter_panic, protocol_open, protocol_close,
    service_handle_send, session_handle_send. keeps_walk.
Qed.

Lemma closing_listen_error a e : keeps (closing L D) (handle_session_event (ListenError a e) : SM unit).
Proof.
  cbn [handle_session_event]. apply keeps_bind; [auto with keeps|]. intros _. apply keeps_gets_bind. intros s Hs.
  case_bool_decide; [|by apply closing_state]. apply (keeps_bind (closing L D)); [|intros; by apply closing_same|exact Hs].
  intros s' (H1 & H2 & H3). split_and!; [done| |done]. cbn. intros b Hb. apply (proj1 (proj2 Hs)). set_solver.
Qed.

Lemma closing_listen_start a inc : L a → keeps (closing L D) (handle_session_event (ListenStart a inc) : SM unit).
Proof.
  intros Ha. cbn [handle_session_event]. apply keeps_bind; [auto with keeps|]. intros _. apply keeps_bind.
  - apply keeps_modify. intros s (H1 & H2 & H3). split_and!; [done| |done]. cbn. intros b Hb. set_solver.
  - intros _. unfold spawn_listener. keeps_walk.
Qed.

(** Every event but the end of a handshake and the end of a session. *)
Lemma closing_event e : (∀ a inc, e = ListenStart a inc → L a) →
  (∀ h k a ty la, e ≠ HandshakeSuccess h k a ty la) → keeps (closing L D) (handle_session_event e : SM unit).
Proof.
  intros Hl Hh. destruct e; try (by edestruct Hh); try apply closing_listen_error; try (apply closing_listen_start; by eapply Hl);
    cbn [handle_session_event]; keeps_walk.
Qed.

End Closing.

(** The end of a handshake may open a session. *)
Lemma closing_handshake L h k a ty la :
  keeps (closing L (λ _, True)) (handle_session_event (HandshakeSuccess h k a ty la) : SM unit).
Proof.
  assert (Hm : ∀ f, (∀ s : SV, iv_state (f s) = iv_state s ∧ iv_listens (f s) = iv_listens s) →
    keeps (closing L (λ _, True)) (modify f : SM unit)).
  { intros f H. apply keeps_modify. intros s (H1 & H2 & _). unfold closing. destruct (H s) as [-> ->]. done. }
  cbn [handle_session_event].
  apply keeps_bind; [destruct (is_outbound ty); [by apply closing_state|apply keeps_ret]|]. intros _.
  apply keeps_bind; [apply keeps_gets|]. intros s. case_match; [apply keeps_ret|].
  assert (Hloop : ∀ id metas, keeps (closing L (λ _, True)) (session_handles_loop id metas : SM _)).
  { intros id. induction metas as [|[p m] metas IH]; cbn [session_handles_loop]; [apply keeps_ret|].
    unfold session_handle_open, iv_spawn. keeps_walk; by apply Hm. }
  unfold session_open, check_remote, iv_spawn, report, or_iter_panic, generate_next_session, session_handles_open.
  keeps_walk; by apply Hm.
Qed.

(** The end of a session takes it out of the table. *)
Lemma closing_session_end L D id : ∀ s, closing L D s →
  ∃ s', handle_session_event (SessionClose id) s = (s', ROk tt) ∧ closing L (λ j, D j ∧ j ≠ id) s'.
Proof.
  intros s (H1 & H2 & H3). cbn [handle_session_event session_close]. unfold mbind, M_bind, modify, gets.
  cbn [iv_sessions iv_put_session_proto_handles]. destruct (iv_sessions s !! id) as [c|] eqn:E.
  - eexists. split; [done|]. split_and!; [done|done|]. cbn. intros j [x Hj].
    apply lookup_delete_Some in Hj as [Hne Hj]. split; [apply H3; eauto|done].
  - eexists. split; [done|]. split_and!; [done|done|]. cbn. intros j [x Hj]. split; [apply H3; eauto|].
    intros ->. by rewrite E in Hj.
Qed.

(** A run of the loop from [s1] on, with the events of the sessions it handles: any events and any
    tasks in any order, the head of the loop as often as it goes on, and other tasks taking from
    the channels. *)
Inductive closing_run (s1 : SV) : list SE → SV → Prop :=
| cr_start : closing_run s1 [] s1
| cr_event es s e s' : closing_run s1 es s → handle_session_event e s = (s', ROk tt) → closing_run s1 (es ++ [e]) s'
| cr_task es s t pr s' : closing_run s1 es s → handle_service_task t pr s = (s', ROk tt) → closing_run s1 es s'
| cr_head es s s' : closing_run s1 es s → run_head s = (s', ROk false) → closing_run s1 es s'
| cr_others es s sessions hs er tr : closing_run s1 es s →
    (∀ id, same_session (iv_sessions s !! id) (sessions !! id)) →
    closing_run s1 es (iv_put_sessions sessions (iv_put_handle_sender hs
      (iv_put_session_event_receiver er (iv_put_service_task_receiver tr s)))).

Definition is_listen_start (e : SE) : bool := match e with ListenStart _ _ => true | _ => false end.
Definition is_handshake (e : SE) : bool := match e with HandshakeSuccess _ _ _ _ _ => true | _ => false end.

(** The addresses that listeners started on, and the sessions that can be left. *)
Definition started (es : list SE) (a : Multiaddr) : Prop := ∃ inc, ListenStart a inc ∈ es.
Definition left_open (s : SV) (es : list SE) (id : Z) : Prop :=
  (∃ e, e ∈ es ∧ is_handshake e = true) ∨ (is_Some (iv_sessions s !! id) ∧ SessionClose id ∉ es).

Lemma event_closes s0 es e s s' : closing (started es) (left_open s0 es) s →
  handle_session_event e s = (s', ROk tt) → closing (started (es ++ [e])) (left_open s0 (es ++ [e])) s'.
Proof.
  intros Hs E. replace s' with (handle_session_event e s).1 by (by rewrite E).
  assert (HL : ∀ a, started es a → started (es ++ [e]) a) by (intros a [inc Hi]; exists inc; set_solver).
  destruct (is_handshake e) eqn:Hh.
  { eapply (closing_mono _ _ (λ _, True)); [|done|].
    - destruct e; try done. apply closing_handshake. by eapply closing_mono.
    - intros id _. left. exists e. split; [set_solver|done]. }
  assert (Hk : (∀ id, e ≠ SessionClose id) → closing (started (es ++ [e])) (left_open s0 (es ++ [e])) (handle_session_event e s).1).
  { intros Hne. apply closing_event; [intros a inc ->; exists inc; set_solver|by intros ????? ->|].
    eapply closing_mono; [exact Hs|done|]. intros id [(e' & He & He')|[H1 H2]]; [left; exists e'; set_solver|right].
    split; [done|]. intros [?|?%list_elem_of_singleton]%elem_of_app; [done|]. by eapply Hne. }
  destruct e; try (by apply Hk). destruct (closing_session_end _ _ id s Hs) as (s2 & -> & H2). cbn.
  eapply closing_mono; [exact H2|done|]. intros j [[(e' & He & He')|[H1 H3]] Hne]; [left; exists e'; set_solver|right].
  split; [done|]. intros [?|?%list_elem_of_singleton]%elem_of_app; [done|]. congruence.
Qed.

Lemma run_closes s0 s1 es s : closing (started []) (left_open s0 []) s1 → closing_run s1 es s →
  closing (started es) (left_open s0 es) s.
Proof.
  intros H0. induction 1 as [|es s e s' _ IH E|es s t pr s' _ IH E|es s s' _ IH E|es s m hs er tr _ IH Hm]; [done|..].
  - by eapply event_closes.
  - replace s' with (handle_service_task t pr s).1 by (by rewrite E). by apply closing_task.
  - replace s' with (run_head s).1 by (by rewrite E). by apply closing_head.
  - destruct IH as (H1 & H2 & H3). split_and!; [done|done|]. cbn. intros id [x Hx]. apply H3. specialize (Hm id).
    rewrite Hx in Hm. destruct (iv_sessions s !! id); [eauto|done].
Qed.

Lemma report_all_any es (s : SV) : ∃ hs, report_all es s = (iv_put_handle_sender hs s, ROk tt).
Proof.
  revert s. induction es as [|e es IH]; intros s; cbn [report_all]; [exists (iv_handle_sender s); by destruct s|].
  unfold mbind, M_bind, gets, modify. destruct (aw_send (iv_handle_sender s) e) as [hs []]; [|by exists hs].
  destruct (IH (iv_put_handle_sender hs s)) as [hs' E]. exists hs'. by rewrite E.
Qed.

(** C21: a graceful shutdown closes every listener and asks each session to close with high
    priority. From then on, whatever events and tasks the loop handles and in whatever order, it
    stays in shutdown, listens only on addresses for which the start of a listener was handled
    since, holds only sessions it held at the shutdown and that have not reported their end, or
    opened since, and handles the report of the end of a session. So the loop ends at its next
    turn once every session held at the shutdown has reported its end, provided that since the
    shutdown neither the start of a listener nor the success of a handshake was handled. (A
    listener that starts, or a connection that is made, after the shutdown is kept, and the loop
    goes on: [listener_after_shutdown], [session_after_shutdown].) *)
Theorem graceful_shutdown_ends (s : SV) : ∃ s1,
  shutdown_task false s = (s1, ROk tt) ∧ iv_listens s1 = ∅ ∧
  (∀ id, iv_sessions s1 !! id = asked_to_close id <$> iv_sessions s !! id) ∧
  ∀ es s2, closing_run s1 es s2 →
    iv_state s2 = PreShutdown ∧
    (∀ a, a ∈ iv_listens s2 → started es a) ∧
    (∀ id, is_Some (iv_sessions s2 !! id) → left_open s es id) ∧
    (∀ id, ∃ s3, handle_session_event (SessionClose id) s2 = (s3, ROk tt)) ∧
    (forallb (λ e, negb (is_listen_start e || is_handshake e)) es = true →
     (∀ id, is_Some (iv_sessions s !! id) → SessionClose id ∈ es) →
     ∃ s3, run_head s2 = (s3, ROk true) ∧ iv_shutdown s3 = true).
Proof.
  unfold shutdown_task at 1. set (s0 := iv_put_listens ∅ (iv_put_state PreShutdown s)).
  destruct (report_all_any ((λ l, UEvent (EvListenClose l)) <$> hash_order _ (elements (iv_listens s))) s0) as (hs & E).
  set (s1 := iv_put_handle_sender hs s0).
  destruct (close_external_all (iter_keys (iv_sessions s)) s1 (iter_keys_NoDup _)) as (m & Em & Hm).
  assert (Hm' : ∀ id, m !! id = asked_to_close id <$> iv_sessions s !! id).
  { intros id. rewrite Hm. change (iv_sessions s1) with (iv_sessions s).
    destruct (iv_sessions s !! id) as [c|] eqn:Ec; [|done]. rewrite decide_True; [done|]. apply elem_iter_keys. eauto. }
  exists (iv_put_sessions m s1). split_and!; [|done|done|].
  { unfold mbind, M_bind, modify, gets, pre_shutdown. cbn [iv_listens iv_put_state iv_state]. fold s0. rewrite E. exact Em. }
  intros es s2 Hr. apply (run_closes s) in Hr.
  2:{ split_and!; [done|cbn; set_solver|]. cbn. intros id [x Hx]. right. rewrite Hm' in Hx. split; [|set_solver].
      by destruct (iv_sessions s !! id). }
  destruct (Hr) as (H1 & H2 & H3). split_and!; [done|done|done| |].
  { intros id. destruct (closing_session_end _ _ id s2 Hr) as (s3 & E3 & _). eauto. }
  intros Hno Hall. rewrite forallb_forall in Hno.
  assert (Hno' : ∀ e, e ∈ es → is_listen_start e = false ∧ is_handshake e = false).
  { intros e He. apply list_elem_of_In, Hno in He. by destruct (is_listen_start e), (is_handshake e). }
  apply run_head_ends; [|done|].
  - apply elem_of_equiv_empty_L. intros a [inc Ha]%H2. by destruct (Hno' _ Ha).
  - intros id. destruct (iv_sessions s2 !! id) eqn:Ei; [|done]. exfalso.
    destruct (H3 id) as [(e & He & Hh)|[Hs Hc]]; [eauto|destruct (Hno' _ He); congruence|]. by apply Hc, Hall.
Qed.

(** ** Dials that fail at once *)

(** While an address is marked as dialed, a dial of it does nothing. When the transport refuses
    an address at once, the refusal is reported but the mark stays, so every later dial of the
    address is ignored. *)
Theorem refused_dial_blocks_address (s : SV) address e :
  iv_dial_protocols s !! address = None → multi_transport (iv_multi_transport s) address = ROk (Some e) →
  aw_open (iv_handle_sender s) = true → ∀ target pr, ∃ s',
    handle_service_task (TaDial address target) pr s = (s', ROk tt) ∧
    user_log s' = user_log s ++ [UError (ErDialerError address (DeTransportError e))] ∧
    ∀ target' pr', handle_service_task (TaDial address target') pr' s' = (s', ROk tt).
Proof.
  intros Hna Ht Ho target pr. unfold handle_service_task at 1, mbind, M_bind, gets. rewrite Hna.
  rewrite bool_decide_eq_false_2 by (by intros []). unfold dial_inner, mbind, M_bind, gets, modify. cbn [iv_multi_transport iv_put_dial_protocols].
  rewrite Ht. cbn. eexists. split; [reflexivity|]. split.
  - unfold user_log. cbn. by rewrite aw_view, Ho.
  - intros target' pr'. unfold handle_service_task, mbind, M_bind, gets. cbn. by rewrite lookup_insert_eq.
Qed.

End Proofs.

(** ** A service on channels that are lists, for concrete runs *)

Record LogSender (A : Type) := mkLogSender { lg_log : list A; lg_open : bool }.
Arguments mkLogSender {A} _ _.
Arguments lg_log {A} _.
Arguments lg_open {A} _.

#[export] Instance LogSender_ops A : AwaitSender (LogSender A) A := {
  aw_send x a := if lg_open x then (mkLogSender (lg_log x ++ [a]) true, true) else (x, false);
  aw_open := lg_open;
  aw_sent := lg_log;
}.
#[export] Instance LogSender_laws A : AwaitSenderLaws (LogSender A) A.
Proof. by split; intros [log []] a. Qed.
#[export] Instance LogSender_close A : CloseSender (LogSender A) := λ x, mkLogSender (lg_log x) false.
#[export] Instance LogSender_close_laws A : CloseSenderLaws (LogSender A) A.
Proof. by split. Qed.
#[export] Instance LogSender_mpsc A : NewMpsc (LogSender A) unit := λ _, (mkLogSender [] true, tt).

Record PriorityLog (A : Type) := mkPriorityLog { pl_log : list (Priority * A) }.
Arguments mkPriorityLog {A} _.
Arguments pl_log {A} _.
#[export] Instance PriorityLog_ops A : AwaitPriority (PriorityLog A) A := {
  awp_send x p a := (mkPriorityLog (pl_log x ++ [(p, a)]), true);
  awp_sent := pl_log;
}.
#[export] Instance PriorityLog_laws A : AwaitPriorityLaws (PriorityLog A) A.
Proof. by split. Qed.
#[export] Instance PriorityLog_new A : NewChannel (PriorityLog A) unit := λ _, (mkPriorityLog [], tt).

#[export] Instance unit_mpsc : NewMpsc unit unit := λ _, (tt, tt).
#[export] Instance unit_handle : SpawnHandle unit := tt.

Abbreviation DemoEvent := (SessionEvent unit unit unit) (only parsing).
Definition DemoService := @InnerService unit unit unit unit unit unit unit unit unit
  (LogSender ServiceProtocolEvent) (LogSender SessionProtocolEvent) unit unit unit
  (PriorityLog DemoEvent) (LogSender ServiceEventAndError) (QueueReceiver DemoEvent)
  (TwoQueues (ServiceTask unit)) unit unit unit.

Definition sv_meta : ProtocolMeta := mkProtocolMeta (mkMeta 7 (λ _, str "ping") [str "1"] None None false) true true
  (Some (λ d, d ++ d)).
Definition sv_transport : MultiTransport := mkMultiTransport false false false (λ _ _, None).
(** A service with one protocol and this limit of connections. *)
Definition sv_new_demo (limit : Z) : DemoService :=
  InnerService_new {[7 := sv_meta]} sv_transport false
    (mkServiceConfig SessionConfig_default (1024 * 1024 * 8) false limit)
    (mkLogSender [] true) tt (mkQueueReceiver [] false false) (mkTwoQueues [] [] false).

Definition local_addr (port : Z) : Multiaddr :=
  from_iter [Ip4 (byte_of 127) (byte_of 0) (byte_of 0) (byte_of 1); Tcp port].

Lemma local_addr_ok port : is_u16 port → addr_ok (local_addr port).
Proof. intros H. eexists. apply (parses_from_iter [_; _]). constructor; [done|constructor; [done|constructor]]. Qed.

Definition sv_do (c : M DemoService Empty_set unit) (s : DemoService) : DemoService := (c s).1.
Definition sv_event_of (e : DemoEvent) : M DemoService Empty_set unit := handle_session_event e.
Definition sv_task_of (t : ServiceTask unit) : M DemoService Empty_set unit := handle_service_task t PriorityChannel.Normal.
Definition sv_connected (port : Z) : DemoEvent := HandshakeSuccess tt None (local_addr port) Outbound None.

(** One dial that succeeded. *)
Definition sv_dialed : DemoService :=
  sv_do (sv_task_of (TaDial (local_addr 80) TpAll)) (sv_do service_start (sv_new_demo 1)).
Definition sv_opened : DemoService := sv_do (sv_event_of (sv_connected 80)) sv_dialed.

Lemma sv_new_demo_new limit : 0 <= limit < 2 ^ 63 → new_service (sv_new_demo limit).
Proof. intros H. by do 8 eexists. Qed.

Lemma sv_dialed_run : service_run (sv_new_demo 1) 0 sv_dialed.
Proof.
  eapply (sv_task _ 0 (sv_do service_start (sv_new_demo 1)) (TaDial (local_addr 80) TpAll) PriorityChannel.Normal).
  - eapply (sv_started _ 0 (sv_new_demo 1)); [constructor|]. by vm_compute.
  - by vm_compute.
  - by apply local_addr_ok.
  - by vm_compute.
Qed.

Lemma sv_opened_run : service_run (sv_new_demo 1) 1 sv_opened.
Proof.
  eapply (sv_event _ 0 sv_dialed (sv_connected 80) 1); [apply sv_dialed_run| |by vm_compute|by vm_compute].
  split; [by apply local_addr_ok|done].
Qed.

Lemma service_sessions_seen_witness :
  user_log sv_opened = [UEvent (EvSessionOpen 1)] ∧
  user_view 1 (user_log sv_opened) = Some (bool_decide (is_Some (iv_sessions sv_opened !! 1))) ∧
  is_Some (iv_sessions sv_opened !! 1).
Proof.
  split; [by vm_compute|]. split; [|vm_compute; eauto].
  exact (service_sessions_seen (sv_new_demo 1) 1 sv_opened (sv_new_demo_new 1 ltac:(lia)) sv_opened_run eq_refl 1).
Defined.

Lemma service_connection_limit_witness :
  size (iv_sessions sv_opened) = 1%nat ∧ Z.of_nat (size (iv_sessions sv_opened)) <= 2.
Proof.
  split; [by vm_compute|].
  exact (service_connection_limit (sv_new_demo 1) 1 sv_opened (sv_new_demo_new 1 ltac:(lia)) sv_opened_run).
Defined.

Lemma service_never_panics_witness :
  (∃ s', handle_session_event (sv_connected 80) sv_dialed = (s', ROk tt)) ∧
  ∃ s', handle_service_task (TaDial (local_addr 81) TpAll) High sv_dialed = (s', ROk tt).
Proof.
  destruct (service_never_panics (sv_new_demo 1) 0 sv_dialed (sv_new_demo_new 1 ltac:(lia)) sv_dialed_run) as [He Ht].
  split.
  - apply (He _ 1); [|by vm_compute]. split; [by apply local_addr_ok|done].
  - apply Ht; [by vm_compute|]. by apply local_addr_ok.
Defined.

Lemma service_routes_messages_witness : ∃ m,
  handle_message (TsFilter (λ id, id =? 1)) 7 High (str "x") sv_opened = (iv_put_sessions m sv_opened, ROk tt) ∧
  (awp_sent ∘ ct_sender <$> m !! 1) = Some [(High, ProtocolMessage 7 (str "xx"))] ∧
  (sc_pending_data_size ∘ ct_inner <$> m !! 1) = Some 2.
Proof.
  destruct (service_routes_messages (TsFilter (λ id, id =? 1)) 7 High (str "x") sv_opened) as (m & E & H).
  exists m. split; [exact E|]. rewrite (H 1). by vm_compute.
Defined.

(** A service whose identifiers are about to wrap, with the next two taken. *)
Definition sv_wrapping : DemoService :=
  let c := mkController (mkPriorityLog []) (SessionContext_new 0 [] Inbound None) in
  iv_put_next_session (2 ^ 64 - 2) (iv_put_sessions {[2 ^ 64 - 1 := c; 0 := c]} (sv_new_demo 1)).

Lemma generate_next_session_terminates_witness :
  ∃ id, generate_next_session sv_wrapping = (iv_put_next_session id sv_wrapping, ROk tt) ∧ id = 1.
Proof.
  destruct (generate_next_session_terminates sv_wrapping ltac:(by vm_compute)) as (id & E & _ & _).
  exists id. split; [exact E|]. by vm_compute in E; injection E as <-.
Defined.

Definition sv_listening : DemoService := iv_put_listens {[local_addr 90]} sv_opened.

Lemma quick_shutdown_ends_witness :
  ∃ s', shutdown_task true sv_listening = (s', ROk tt) ∧
    user_log s' = [UEvent (EvSessionOpen 1); UEvent (EvListenClose (local_addr 90)); UEvent (EvSessionClose 1)] ∧
    ∃ s'', run_head s' = (s'', ROk true) ∧ iv_shutdown s'' = true.
Proof.
  destruct (quick_shutdown_ends sv_listening ltac:(by vm_compute)) as (s' & ls & ids & E & _ & _ & _ & H).
  exists s'. split; [exact E|]. split; [|exact H]. transitivity (user_log (shutdown_task true sv_listening).1).
  - rewrite E. reflexivity.
  - by vm_compute.
Defined.

(** Between the shutdown and the report of the session, the loop updates the listeners and the
    user sends a task. *)
Lemma graceful_shutdown_ends_witness :
  ∃ s1 s2 s3, shutdown_task false sv_listening = (s1, ROk tt) ∧ closing_run s1 [SessionClose 1] s2 ∧
    run_head s2 = (s3, ROk true) ∧ iv_shutdown s3 = true.
Proof.
  destruct (graceful_shutdown_ends sv_listening) as (s1 & E & _ & _ & H).
  assert (Es : s1 = (shutdown_task false sv_listening).1) by (by rewrite E).
  assert (Hr : closing_run s1 [SessionClose 1] (sv_do (sv_event_of (SessionClose 1)) (sv_do (sv_task_of (TaDisconnect 1)) (run_head s1).1))).
  { apply (cr_event s1 [] (sv_do (sv_task_of (TaDisconnect 1)) (run_head s1).1)); [|rewrite Es; by vm_compute].
    eapply (cr_task s1 [] (run_head s1).1 (TaDisconnect 1) PriorityChannel.Normal); [|rewrite Es; by vm_compute].
    apply (cr_head s1 [] s1); [apply cr_start|]. rewrite Es. by vm_compute. }
  destruct (H _ _ Hr) as (_ & _ & _ & _ & Hend). destruct Hend as (s3 & E3 & E4).
  - reflexivity.
  - intros id Hid. apply elem_of_dom in Hid. assert (Hs : dom (iv_sessions sv_listening) = {[1]}) by by vm_compute.
    rewrite Hs in Hid. apply elem_of_singleton in Hid as ->. apply list_elem_of_singleton. reflexivity.
  - eexists s1, _, s3. split; [exact E|]. split; [exact Hr|]. split; [exact E3|exact E4].
Defined.

Lemma refused_dial_blocks_address_witness : ∃ s',
  let address := Multiaddr.push (local_addr 80) Wss in
  handle_service_task (TaDial address TpAll) High sv_opened = (s', ROk tt) ∧
  handle_service_task (TaDial address (TpSingle 7)) High s' = (s', ROk tt).
Proof.
  destruct (refused_dial_blocks_address sv_opened (Multiaddr.push (local_addr 80) Wss) (TeNotSupported (Multiaddr.push (local_addr 80) Wss))
    ltac:(by vm_compute) ltac:(by vm_compute) eq_refl TpAll High) as (s' & E & _ & H).
  exists s'. split; [exact E|]. apply H.
Defined.

(** ** What concrete runs show *)

(** The limit admits one session more than its number. *)
Lemma limit_admits_one_more :
  let s := sv_do (sv_event_of (sv_connected 81)) (sv_do (sv_task_of (TaDial (local_addr 81) TpAll)) sv_opened) in
  cf_max_connection_number (iv_config s) = 1 ∧ size (iv_sessions s) = 2%nat.
Proof. by vm_compute. Qed.

(** A connection dropped at the limit is not reported, and its address stays marked as dialed, so
    that a later dial of it does nothing. *)
Lemma dropped_at_limit :
  let s0 := sv_do (sv_event_of (sv_connected 81)) (sv_do (sv_task_of (TaDial (local_addr 81) TpAll)) sv_opened) in
  let s1 := sv_do (sv_task_of (TaDial (local_addr 82) TpAll)) s0 in
  let s2 := sv_do (sv_event_of (sv_connected 82)) s1 in
  user_log s2 = user_log s0 ∧ size (iv_sessions s2) = 2%nat ∧
  bool_decide (is_Some (iv_dial_protocols s2 !! local_addr 82)) = true.
Proof. by vm_compute. Qed.

(** Two connections with one key to one address without [/p2p] are both kept. *)
Lemma repeated_connection_kept :
  let key := Some (Secp256k1 (str "k")) in
  let dial s := sv_do (sv_event_of (HandshakeSuccess tt key (local_addr 80) Outbound None))
    (sv_do (sv_task_of (TaDial (local_addr 80) TpAll)) s) in
  let s := dial (dial (sv_new_demo 9)) in
  user_log s = [UEvent (EvSessionOpen 1); UEvent (EvSessionOpen 2)] ∧
  (sc_remote_pubkey ∘ ct_inner <$> iv_sessions s !! 1) = Some key ∧
  (sc_remote_pubkey ∘ ct_inner <$> iv_sessions s !! 2) = Some key ∧
  (sc_address ∘ ct_inner <$> iv_sessions s !! 1) = (sc_address ∘ ct_inner <$> iv_sessions s !! 2).
Proof. by vm_compute. Qed.

(** A listener that starts after a graceful shutdown keeps the service from ending. *)
Lemma listener_after_shutdown :
  let s := sv_do (sv_task_of (TaShutdown false)) (sv_do (sv_task_of (TaListen (local_addr 90))) (sv_new_demo 9)) in
  let s' := sv_do (sv_event_of (ListenStart (local_addr 90) tt)) s in
  (run_head s).2 = ROk true ∧ (run_head s').2 = ROk false ∧ iv_state s' = PreShutdown.
Proof. by vm_compute. Qed.

(** A connection that is made after a graceful shutdown opens a session, which is not asked to
    close. *)
Lemma session_after_shutdown :
  let s := sv_do (sv_task_of (TaShutdown false)) sv_dialed in
  let s' := sv_do (sv_event_of (sv_connected 80)) s in
  (run_head s).2 = ROk true ∧ (run_head s').2 = ROk false ∧ iv_state s' = PreShutdown ∧
  (pl_log ∘ ct_sender <$> iv_sessions s' !! 1) = Some [].
Proof. by vm_compute. Qed.

(** Of two listens on one address under way, the failure of the second is taken for the end of
    the first: the user is told it closed while its task runs, and the count of connections under
    way is left above zero. *)
Lemma listen_twice :
  let s0 := sv_do (sv_task_of (TaListen (local_addr 90))) (sv_do (sv_task_of (TaListen (local_addr 90))) (sv_new_demo 9)) in
  let s1 := sv_do (sv_event_of (ListenStart (local_addr 90) tt)) s0 in
  let s2 := sv_do (sv_event_of (ListenError (local_addr 90) (TeIo KBrokenPipe))) s1 in
  last (iv_tasks s2) = Some (ItListener tt (local_addr 90)) ∧ iv_listens s2 = ∅ ∧ iv_state s2 = Running 1 ∧
  last (user_log s2) = Some (UEvent (EvListenClose (local_addr 90))).
Proof. by vm_compute. Qed.

(** A frame length of [2 ^ 32] is refused: it is compared with the window as a [u32]. *)
Lemma frame_length_wraps :
  (set_max_frame_length (2 ^ 32) (sv_new_demo 1)).2 = RPanic ∧
  (set_max_frame_length (2 ^ 32 - 1) (sv_new_demo 1)).2 = ROk tt.
Proof. by vm_compute. Qed.
