(* ===== verification/FutureTask.v ===== *)
(** * The manager of spawned tasks ([tentacle/tentacle/src/service/future_task.rs])

    Every task of the service is given to a manager, which spawns it next to a one-shot signal and
    keeps the other end of the signal under an identifier; a task that ended sends its identifier
    back. Sending on a channel may wait, which only delays it. *)

From Stdlib Require Import ZArith Lia Bool.
From stdpp Require Import base list gmap.
From S2P Require Import Prelude Channels Service ServiceProofs.

Open Scope Z_scope.

Section FutureTask.
Context {T R : Type} `{RC : Receiver R T}.

(** [fm_ids] is the queue of [id_receiver]; the manager keeps a sender of this channel itself, so
    it is never closed. [fm_spawned] are the tasks that were spawned, in order, and [fm_running] those of
    them that did not end; [true] when they were signalled. *)
Record FutureTaskManager := mkFutureTaskManager {
  fm_signals : gmap Z unit;
  fm_next_id : Z;
  fm_ids : list Z;
  fm_task_receiver : R;
  fm_spawned : list (Z * T);
  fm_running : gmap Z bool;
}.

Definition FutureTaskManager_new (task_receiver : R) : FutureTaskManager :=
  mkFutureTaskManager ∅ 0 [] task_receiver [] ∅.

(** The loop of [add_task]; one unit of fuel per turn. *)
Fixpoint next_task_id (fuel : nat) (signals : gmap Z unit) (next_id : Z) : option Z :=
  match fuel with
  | O => None
  | S fuel' =>
      let next_id := wrapping_add 64 next_id 1 in
      if bool_decide (is_Some (signals !! next_id)) then next_task_id fuel' signals next_id else Some next_id
  end.

(** [add_task]; [None] when no identifier is free, where the loop does not end. *)
Definition add_task (task : T) (m : FutureTaskManager) : option FutureTaskManager :=
  id ← next_task_id (S (size (fm_signals m))) (fm_signals m) (fm_next_id m);
  Some (mkFutureTaskManager (<[id := tt]> (fm_signals m)) id (fm_ids m) (fm_task_receiver m)
    (fm_spawned m ++ [(id, task)]) (<[id := false]> (fm_running m))).

Definition remove_task (id : Z) (m : FutureTaskManager) : FutureTaskManager :=
  mkFutureTaskManager (delete id (fm_signals m)) (fm_next_id m) (fm_ids m) (fm_task_receiver m) (fm_spawned m) (fm_running m).

Definition put_task_receiver (r : R) (m : FutureTaskManager) : FutureTaskManager :=
  mkFutureTaskManager (fm_signals m) (fm_next_id m) (fm_ids m) r (fm_spawned m) (fm_running m).
Definition put_ids (l : list Z) (m : FutureTaskManager) : FutureTaskManager :=
  mkFutureTaskManager (fm_signals m) (fm_next_id m) l (fm_task_receiver m) (fm_spawned m) (fm_running m).

(** The first half of [poll_next]: a task is taken and spawned. [Ready true]: one was. *)
Definition poll_task (m : FutureTaskManager) : option (FutureTaskManager * Poll bool) :=
  let '(r, p) := recv_poll_next (fm_task_receiver m) in
  let m := put_task_receiver r m in
  match p with
  | Ready (Some task) => m' ← add_task task m; Some (m', Ready true)
  | Ready None => Some (m, Ready false)
  | Pending => Some (m, Pending)
  end.

(** The second half: the signal of a task that ended is dropped. *)
Definition poll_id (m : FutureTaskManager) : FutureTaskManager * bool :=
  match fm_ids m with
  | id :: ids => (remove_task id (put_ids ids m), false)
  | [] => (m, true)
  end.

(** [poll_next]: [shutdown] is read twice, [proceed] tells whether the budget of the runtime is left.
    [Ready false] ends the stream. *)
Definition fm_poll_next (shutdown proceed shutdown' : bool) (m : FutureTaskManager) : option (FutureTaskManager * Poll bool) :=
  if shutdown then Some (m, Ready false)
  else if negb proceed then Some (m, Pending)
  else
    '(m, p) ← poll_task m;
    match p with
    | Ready false => Some (m, Ready false)
    | _ =>
        let is_pending := match p with Pending => true | Ready _ => false end in
        let '(m, is_pending') := poll_id m in
        Some (m, if shutdown' then Ready false else if is_pending && is_pending' then Pending else Ready true)
    end.

(** [drop]: every signal is sent. *)
Definition fm_drop (m : FutureTaskManager) : FutureTaskManager :=
  mkFutureTaskManager ∅ (fm_next_id m) (fm_ids m) (fm_task_receiver m) (fm_spawned m)
    (map_imap (λ id b, Some (b || bool_decide (is_Some (fm_signals m !! id)))) (fm_running m)).

(** A spawned task ends: it finished, or its signal came. *)
Definition task_ends (id : Z) (m : FutureTaskManager) : FutureTaskManager :=
  mkFutureTaskManager (fm_signals m) (fm_next_id m) (fm_ids m ++ [id]) (fm_task_receiver m) (fm_spawned m) (delete id (fm_running m)).

(** ** Properties *)

(** Runs: the manager is polled and tasks end, in any order; the channel of tasks may be given more
    between polls. *)
Inductive fm_run (m0 : FutureTaskManager) : FutureTaskManager → Prop :=
| fm_start : fm_run m0 m0
| fm_polled m m' shutdown proceed shutdown' p : fm_run m0 m → Z.of_nat (size (fm_signals m)) < 2 ^ 64 →
    fm_poll_next shutdown proceed shutdown' m = Some (m', p) → fm_run m0 m'
| fm_given m r : fm_run m0 m → fm_run m0 (put_task_receiver r m)
| fm_ended m id b : fm_run m0 m → fm_running m !! id = Some b → fm_run m0 (task_ends id m).

(** A signal is kept for exactly the tasks that run or whose end was not seen yet. *)
Record fm_inv (m : FutureTaskManager) : Prop := {
  fi_nodup : NoDup (fm_ids m);
  fi_apart : ∀ id, id ∈ fm_ids m → fm_running m !! id = None;
  fi_signals : ∀ id, is_Some (fm_signals m !! id) ↔ is_Some (fm_running m !! id) ∨ id ∈ fm_ids m;
  fi_spawned : ∀ id, is_Some (fm_running m !! id) → id ∈ (fm_spawned m).*1;
}.

Lemma next_task_same fuel (m : gmap Z unit) id : next_task_id fuel m id = next_session_loop fuel m id.
Proof. revert id. induction fuel as [|fuel IH]; intros id; [done|]. cbn. by rewrite IH. Qed.

Lemma add_task_inv task m m' : fm_inv m → add_task task m = Some m' → fm_inv m'.
Proof.
  intros [H1 H2 H3 H4]. unfold add_task. destruct (next_task_id _ _ _) as [id|] eqn:E; [|done]. intros [= <-].
  rewrite next_task_same in E. apply next_session_some in E as [Hn _].
  assert (Hfree : fm_running m !! id = None ∧ id ∉ fm_ids m).
  { split; [apply eq_None_not_Some|]; intros Hx; apply eq_None_not_Some in Hn; apply Hn, H3; auto. }
  destruct Hfree as [Hr Hi]. split; cbn.
  - done.
  - intros j Hj. rewrite lookup_insert_ne; [by apply H2|]. by intros ->.
  - intros j. destruct (decide (id = j)) as [<-|Hne].
    + rewrite !lookup_insert_eq. split; [left|]; by eexists.
    + rewrite !lookup_insert_ne by done. apply H3.
  - intros j. rewrite fmap_app, elem_of_app. destruct (decide (id = j)) as [<-|Hne]; [intros _; right; by apply list_elem_of_singleton|].
    rewrite lookup_insert_ne by done. auto.
Qed.

Lemma poll_id_inv m : fm_inv m → fm_inv (poll_id m).1.
Proof.
  intros Hm. unfold poll_id. destruct (fm_ids m) as [|id ids] eqn:E; [exact Hm|].
  destruct Hm as [H1 H2 H3 H4]. rewrite E in H1, H2. setoid_rewrite E in H3.
  apply NoDup_cons in H1 as [Hn H1]. split; cbn.
  - done.
  - intros j Hj. apply H2. by right.
  - intros j. destruct (decide (id = j)) as [<-|Hne].
    + rewrite lookup_delete_eq. split; [by intros []|]. intros [Hr|Hi]; [|done]. rewrite (H2 id) in Hr by left. by destruct Hr.
    + rewrite lookup_delete_ne by done. rewrite H3, elem_of_cons. naive_solver.
  - done.
Qed.

Lemma fm_inv_receiver m r : fm_inv m → fm_inv (put_task_receiver r m).
Proof. by intros [H1 H2 H3 H4]. Qed.

Lemma poll_task_inv m m' p : fm_inv m → poll_task m = Some (m', p) → fm_inv m'.
Proof.
  intros Hm. unfold poll_task. destruct (recv_poll_next (fm_task_receiver m)) as [r [[task|]|]].
  - destruct (add_task task _) as [x|] eqn:E; [|done]. intros [= <- _]. eapply add_task_inv; [|exact E]. by apply fm_inv_receiver.
  - intros [= <- _]. by apply fm_inv_receiver.
  - intros [= <- _]. by apply fm_inv_receiver.
Qed.

Lemma poll_next_inv a b c m m' p : fm_inv m → fm_poll_next a b c m = Some (m', p) → fm_inv m'.
Proof.
  intros Hm. unfold fm_poll_next. destruct a; [by intros [= <- _]|]. destruct b; [|by intros [= <- _]]. cbn [negb].
  destruct (poll_task m) as [[m1 p1]|] eqn:E; [|done]. cbn. pose proof (poll_task_inv _ _ _ Hm E) as H1.
  destruct p1 as [[]|]; [|by intros [= <- _]|]; pose proof (poll_id_inv m1 H1) as H2; destruct (poll_id m1) as [m2 b2];
    by intros [= <- _].
Qed.

Lemma run_fm_inv r0 m : fm_run (FutureTaskManager_new r0) m → fm_inv m.
Proof.
  induction 1 as [|m m' sh pr sh' p Hr IH Hs Hp|m r Hr IH|m id b Hr IH Hb].
  - split; cbn; [constructor|by intros id ?%elem_of_nil| |].
    + intros id. rewrite !lookup_empty, elem_of_nil. split; [by intros []|]. by intros [[]|].
    + intros id. rewrite lookup_empty. by intros [].
  - by eapply poll_next_inv.
  - by apply fm_inv_receiver.
  - destruct IH as [H1 H2 H3 H4]. assert (Hi : id ∉ fm_ids m) by (intros Hi; by rewrite (H2 id Hi) in Hb). split; cbn.
    + apply NoDup_app. split_and!; [done| |apply NoDup_singleton]. intros j Hj Hk%list_elem_of_singleton. by subst.
    + intros j [Hj|Hj%list_elem_of_singleton]%elem_of_app; [|subst; by rewrite lookup_delete_eq].
      destruct (decide (id = j)) as [->|Hne]; [by rewrite lookup_delete_eq|rewrite lookup_delete_ne by done; auto].
    + intros j. rewrite H3, elem_of_app, list_elem_of_singleton. destruct (decide (id = j)) as [->|Hne].
      * rewrite lookup_delete_eq, Hb. naive_solver.
      * rewrite lookup_delete_ne by done. naive_solver.
    + intros j Hj. apply H4. destruct (decide (id = j)) as [->|Hne]; [by rewrite Hb|by rewrite lookup_delete_ne in Hj].
Qed.

(** Nothing but the end of a task takes it out of the running ones, and a poll returns. *)
Lemma poll_next_total a b c m : Z.of_nat (size (fm_signals m)) < 2 ^ 64 → ∃ m' p, fm_poll_next a b c m = Some (m', p).
Proof.
  intros Hs. unfold fm_poll_next. destruct a; [by do 2 eexists|]. destruct b; [|by do 2 eexists]. cbn [negb].
  assert (Ht : ∃ m1 p1, poll_task m = Some (m1, p1)).
  { unfold poll_task. destruct (recv_poll_next (fm_task_receiver m)) as [r [[task|]|]]; [|by do 2 eexists..].
    unfold add_task. cbn [put_task_receiver fm_signals fm_next_id]. rewrite next_task_same.
    destruct (next_session_total (fm_signals m) (fm_next_id m) Hs) as (id & -> & _). by do 2 eexists. }
  destruct Ht as (m1 & p1 & ->). cbn. destruct p1 as [[]|]; [destruct (poll_id m1)|..|destruct (poll_id m1)]; by do 2 eexists.
Qed.

(** In every run the manager holds a signal for exactly the tasks that run or whose end it has
    not seen yet, so an identifier is never given to two of them and the end of one task never
    drops the signal of another; a poll always returns; and when the manager is dropped, every
    task that runs is signalled. *)
Theorem tasks_tracked r0 m : fm_run (FutureTaskManager_new r0) m →
  (∀ id, is_Some (fm_signals m !! id) ↔ is_Some (fm_running m !! id) ∨ id ∈ fm_ids m) ∧
  (∀ id, id ∈ fm_ids m → fm_running m !! id = None) ∧
  (Z.of_nat (size (fm_signals m)) < 2 ^ 64 → ∀ a b c, ∃ m' p, fm_poll_next a b c m = Some (m', p)) ∧
  (∀ id b, fm_running (fm_drop m) !! id = Some b → b = true).
Proof.
  intros Hr. pose proof (run_fm_inv _ _ Hr) as [H1 H2 H3 H4]. split_and!; [done|done|intros Hs a b c; by apply poll_next_total|].
  intros id b. cbn. rewrite map_lookup_imap. destruct (fm_running m !! id) as [x|] eqn:E; [|done]. cbn. intros [= <-].
  apply orb_true_iff. right. apply bool_decide_eq_true, H3. left. by rewrite E.
Qed.

End FutureTask.

(** A task is taken, ends, and its signal is dropped. *)
Definition demo_tasks : FutureTaskManager (T := Z) (R := QueueReceiver Z) :=
  FutureTaskManager_new (mkQueueReceiver [7; 8] false false).
Definition fm_next (m : FutureTaskManager (T := Z) (R := QueueReceiver Z)) : FutureTaskManager :=
  match fm_poll_next false true false m with Some (m', _) => m' | None => m end.

Lemma tasks_tracked_witness :
  let m := fm_next (task_ends 1 (fm_next demo_tasks)) in
  fm_spawned m = [(1, 7); (2, 8)] ∧ fm_signals m !! 1 = None ∧ ∀ id b, fm_running (fm_drop m) !! id = Some b → b = true.
Proof.
  intros m. split; [by vm_compute|]. split; [by vm_compute|].
  apply (tasks_tracked (mkQueueReceiver [7; 8] false false) m).
  eapply (fm_polled _ (task_ends 1 (fm_next demo_tasks)) m false true false); [|by vm_compute|by vm_compute].
  eapply fm_ended; [|by vm_compute].
  eapply (fm_polled _ demo_tasks (fm_next demo_tasks) false true false); [constructor|by vm_compute|by vm_compute].
Defined.
