(* ===== verification/Control.v ===== *)
(** * Controls of the service ([tentacle/tentacle/src/service/control.rs], [context.rs])

    A control is the client end of the task channel of the service: each of its methods sends one
    task, at high priority when it manages connections and protocols and at normal priority when it
    carries messages, timers and futures. The contexts handed to handlers are controls with the
    session and protocol of the callback filled in. *)

From Stdlib Require Import ZArith Lia Bool.
From stdpp Require Import base list gmap.
From S2P Require Import Prelude Channels Messages Multiaddr PriorityChannel Buffers Tentacle Service.

Open Scope Z_scope.

Inductive ControlError := BrokenPipe | WouldBlock.

(** The methods of a control. *)
Inductive ControlCall (FT : Type) :=
| CcListen (address : Multiaddr)
| CcDial (address : Multiaddr) (target : TargetProtocol)
| CcDisconnect (session_id : Z)
| CcSendMessageTo (session_id proto_id : Z) (data : bytes)
| CcQuickSendMessageTo (session_id proto_id : Z) (data : bytes)
| CcFilterBroadcast (target : TargetSession) (proto_id : Z) (data : bytes)
| CcQuickFilterBroadcast (target : TargetSession) (proto_id : Z) (data : bytes)
| CcFutureTask (task : FT)
| CcOpenProtocol (session_id proto_id : Z)
| CcOpenProtocols (session_id : Z) (target : TargetProtocol)
| CcCloseProtocol (session_id proto_id : Z)
| CcSetServiceNotify (proto_id interval token : Z)
| CcRemoveServiceNotify (proto_id token : Z)
| CcSetSessionNotify (session_id proto_id interval token : Z)
| CcRemoveSessionNotify (session_id proto_id token : Z)
| CcClose
| CcShutdown.
Arguments CcListen {FT}.
Arguments CcDial {FT}.
Arguments CcDisconnect {FT}.
Arguments CcSendMessageTo {FT}.
Arguments CcQuickSendMessageTo {FT}.
Arguments CcFilterBroadcast {FT}.
Arguments CcQuickFilterBroadcast {FT}.
Arguments CcFutureTask {FT}.
Arguments CcOpenProtocol {FT}.
Arguments CcOpenProtocols {FT}.
Arguments CcCloseProtocol {FT}.
Arguments CcSetServiceNotify {FT}.
Arguments CcRemoveServiceNotify {FT}.
Arguments CcSetSessionNotify {FT}.
Arguments CcRemoveSessionNotify {FT}.
Arguments CcClose {FT}.
Arguments CcShutdown {FT}.

Section Control.
Context {FT X : Type}.

(** The task of a method, and the way it is sent. *)
Definition control_task (c : ControlCall FT) : Priority * ServiceTask FT :=
  match c with
  | CcListen address => (High, TaListen address)
  | CcDial address target => (High, TaDial address target)
  | CcDisconnect session_id => (High, TaDisconnect session_id)
  | CcSendMessageTo session_id proto_id data => (Normal, TaProtocolMessage (TsSingle session_id) proto_id data)
  | CcQuickSendMessageTo session_id proto_id data => (High, TaProtocolMessage (TsSingle session_id) proto_id data)
  | CcFilterBroadcast target proto_id data => (Normal, TaProtocolMessage target proto_id data)
  | CcQuickFilterBroadcast target proto_id data => (High, TaProtocolMessage target proto_id data)
  | CcFutureTask task => (Normal, TaFutureTask task)
  | CcOpenProtocol session_id proto_id => (High, TaProtocolOpen session_id (TpSingle proto_id))
  | CcOpenProtocols session_id target => (High, TaProtocolOpen session_id target)
  | CcCloseProtocol session_id proto_id => (High, TaProtocolClose session_id proto_id)
  | CcSetServiceNotify proto_id interval token => (Normal, TaSetProtocolNotify proto_id interval token)
  | CcRemoveServiceNotify proto_id token => (Normal, TaRemoveProtocolNotify proto_id token)
  | CcSetSessionNotify session_id proto_id interval token => (Normal, TaSetProtocolSessionNotify session_id proto_id interval token)
  | CcRemoveSessionNotify session_id proto_id token => (Normal, TaRemoveProtocolSessionNotify session_id proto_id token)
  | CcClose => (High, TaShutdown false)
  | CcShutdown => (High, TaShutdown true)
  end.

(** [closed] is shared with the service, which sets it when it ends. *)
Record ServiceControl := mkServiceControl {
  sct_task_sender : X;
  sct_proto_infos : gmap Z ProtocolInfo;
}.

(** [send] and [quick_send] of [ServiceControl]: a full channel is an error. *)
Definition control_send `{PS : PrioritySender X (ServiceTask FT)} (closed : bool) (pr : Priority) (event : ServiceTask FT) (c : ServiceControl)
    : ServiceControl * (ControlError + unit) :=
  if closed then (c, inl BrokenPipe)
  else
    let '(x, r) := match pr with
      | High => ps_try_quick_send (sct_task_sender c) event
      | Normal => ps_try_send (sct_task_sender c) event
      end in
    (mkServiceControl x (sct_proto_infos c),
     match r with SendOk => inr tt | SendFull _ => inl WouldBlock | SendDisconnected => inl BrokenPipe end).

(** [send] and [quick_send] of [ServiceAsyncControl]: a full channel is waited for. *)
Definition control_send_async `{AP : AwaitPriority X (ServiceTask FT)} (closed : bool) (pr : Priority) (event : ServiceTask FT) (c : ServiceControl)
    : ServiceControl * (ControlError + unit) :=
  if closed then (c, inl BrokenPipe)
  else
    let '(x, ok) := awp_send (sct_task_sender c) pr event in
    (mkServiceControl x (sct_proto_infos c), if ok : bool then inr tt else inl BrokenPipe).

Definition control_call `{PS : PrioritySender X (ServiceTask FT)} (closed : bool) (call : ControlCall FT) : ServiceControl → ServiceControl * (ControlError + unit) :=
  control_send closed (control_task call).1 (control_task call).2.
Definition control_call_async `{AP : AwaitPriority X (ServiceTask FT)} (closed : bool) (call : ControlCall FT) : ServiceControl → ServiceControl * (ControlError + unit) :=
  control_send_async closed (control_task call).1 (control_task call).2.

(** [ServiceContext] and [ProtocolContext] call the control they hold; [ProtocolContextMutRef] adds
    messages to the session and protocol of the callback. *)
Record ServiceContext := mkServiceContext {
  scx_listens : list Multiaddr;
  scx_inner : ServiceControl;
}.
Definition ServiceContext_new (task_sender : X) (proto_infos : gmap Z ProtocolInfo) : ServiceContext :=
  mkServiceContext [] (mkServiceControl task_sender proto_infos).
Definition update_listens (address_list : list Multiaddr) (c : ServiceContext) : ServiceContext :=
  mkServiceContext address_list (scx_inner c).
Definition context_call `{AP : AwaitPriority X (ServiceTask FT)} (closed : bool) (call : ControlCall FT) (c : ServiceContext)
    : ServiceContext * (ControlError + unit) :=
  let '(i, r) := control_call_async closed call (scx_inner c) in (mkServiceContext (scx_listens c) i, r).

Record ProtocolContext := mkProtocolContext { pcx_inner : ServiceContext; pcx_proto_id : Z }.
Definition context_send_message `{AP : AwaitPriority X (ServiceTask FT)} (closed : bool) (session : SessionContext) (data : bytes) (c : ProtocolContext)
    : ProtocolContext * (ControlError + unit) :=
  let '(i, r) := context_call closed (CcSendMessageTo (sc_id session) (pcx_proto_id c) data) (pcx_inner c) in (mkProtocolContext i (pcx_proto_id c), r).
Definition context_quick_send_message `{AP : AwaitPriority X (ServiceTask FT)} (closed : bool) (session : SessionContext) (data : bytes) (c : ProtocolContext)
    : ProtocolContext * (ControlError + unit) :=
  let '(i, r) := context_call closed (CcQuickSendMessageTo (sc_id session) (pcx_proto_id c) data) (pcx_inner c) in (mkProtocolContext i (pcx_proto_id c), r).

(** ** Properties *)

(** Calls one after another, each with the flag it saw; the results in order. *)
Fixpoint control_calls `{PS : PrioritySender X (ServiceTask FT)} (l : list (bool * ControlCall FT)) (c : ServiceControl)
    : ServiceControl * list (ControlError + unit) :=
  match l with
  | [] => (c, [])
  | (closed, call) :: rest =>
      let '(c1, r) := control_call closed call c in
      let '(c2, rs) := control_calls rest c1 in (c2, r :: rs)
  end.

(** The tasks of the calls that succeeded, at one priority. *)
Definition accepted_tasks (pr : Priority) (l : list (bool * ControlCall FT)) (rs : list (ControlError + unit)) : list (ServiceTask FT) :=
  omap (λ '((_, call), r), match r with
    | inr tt => if decide ((control_task call).1 = pr) then Some (control_task call).2 else None
    | inl _ => None
    end) (zip l rs).

Definition queued `{PS : PrioritySender X (ServiceTask FT)} (pr : Priority) (c : ServiceControl) : list (ServiceTask FT) :=
  match pr with High => ps_quick (sct_task_sender c) | Normal => ps_normal (sct_task_sender c) end.

Lemma control_call_view `{PSL : PrioritySenderLaws X (ServiceTask FT)} closed call c c' r pr :
  control_call closed call c = (c', r) →
  queued pr c' = queued pr c ++ accepted_tasks pr [(closed, call)] [r] ∧ (closed = true → r = inl BrokenPipe).
Proof.
  unfold control_call, control_send, accepted_tasks. cbn [zip zip_with omap list_omap]. destruct (control_task call) as [p t]. cbn [fst snd].
  destruct closed; [intros [= <- <-]; by rewrite app_nil_r|]. destruct p.
  - destruct (ps_try_quick_send _ _) as [x o] eqn:E. intros [= <- <-]. split; [|done].
    destruct (ps_quick_view _ _ _ _ E) as [H1 H2]. destruct pr; cbn; destruct o; cbn; rewrite ?app_nil_r; naive_solver.
  - destruct (ps_try_send _ _) as [x o] eqn:E. intros [= <- <-]. split; [|done].
    destruct (ps_try_view _ _ _ _ E) as [H1 H2]. destruct pr; cbn; destruct o; cbn; rewrite ?app_nil_r; naive_solver.
Qed.

(** However calls of a control succeed or fail, the tasks it put into the channel of the service
    are, at each priority, exactly those of the calls that succeeded, in the order of the calls;
    and once the service has ended every call fails as a broken pipe and sends nothing. *)
Theorem control_calls_in_order `{PSL : PrioritySenderLaws X (ServiceTask FT)} l c c' rs pr : control_calls l c = (c', rs) →
  queued pr c' = queued pr c ++ accepted_tasks pr l rs ∧ length rs = length l ∧
  ∀ i call, l !! i = Some (true, call) → rs !! i = Some (inl BrokenPipe).
Proof.
  revert c c' rs. induction l as [|[closed call] l IH]; intros c c' rs; cbn [control_calls].
  { intros [= <- <-]. by rewrite app_nil_r. }
  destruct (control_call closed call c) as [c1 r] eqn:E1. destruct (control_calls l c1) as [c2 rs'] eqn:E2. intros [= <- <-].
  destruct (control_call_view closed call c c1 r pr E1) as [H1 H2]. destruct (IH _ _ _ E2) as (I1 & I2 & I3). split_and!.
  - rewrite I1, H1, <- app_assoc. f_equal. unfold accepted_tasks. cbn. destruct r as [|[]]; [done|]. by destruct (decide _).
  - cbn. by rewrite I2.
  - intros [|i] x Hi; cbn in *; [|by eapply I3]. injection Hi as -> ->. by rewrite H2.
Qed.

End Control.

Lemma control_calls_in_order_witness :
  let c := mkServiceControl (mkSlotPriority ([] : list (ServiceTask unit)) [] 2) ∅ in
  let l := [(false, CcSendMessageTo 1 7 []); (false, CcDisconnect 1); (false, CcShutdown); (true, CcClose)] in
  let '(c', rs) := control_calls l c in
  rs = [inr tt; inr tt; inl WouldBlock; inl BrokenPipe] ∧ queued High c' = [TaDisconnect 1] ∧
  queued High c' = queued High c ++ accepted_tasks High l rs.
Proof.
  intros c l. destruct (control_calls l c) as [c' rs] eqn:E.
  destruct (control_calls_in_order l c c' rs High E) as (H & _). vm_compute in E. injection E as <- <-.
  split; [done|]. split; [done|]. exact H.
Defined.
