(* ===== verification/MemoryTransport.v ===== *)
(** * The transport in memory ([tentacle/tentacle/src/transports/memory.rs])

    Sockets inside one process: a hub maps ports to listeners, a dialed socket is one of two ends
    joined by two channels, and the other end travels to the listener. Channels live in a store
    and the ends hold their identifiers, so what one end sends the other finds. The channels of
    [futures] are an interface. *)

From Stdlib Require Import ZArith Lia Bool.
From stdpp Require Import base list gmap.
From S2P Require Import Prelude Text Channels Multiaddr MultiaddrProofs Tentacle Session Service.

Open Scope Z_scope.

(** ** Data *)

(** The ends of channels are the identifiers of the channels. *)
Record MemorySocket := mkSocket { ms_sender : nat; ms_receiver : nat; ms_read_buffer : bytes }.

Record MemoryListener := mkListener { ml_port : Z; ml_recv : nat }.

(** [channel(n)] of [futures]. *)
Class NewPipe (C : Type) := new_pipe : Z → C.

Section Transport.
Context {C L : Type}.
Context `{BC : BoundedSender C bytes} `{RC : Receiver C bytes} `{XC : CloseReceiver C} `{SC : CloseSender C} `{NC : NewPipe C}.
Context `{AL : AwaitSender L MemorySocket} `{RL : Receiver L MemorySocket} `{XL : CloseReceiver L} `{NL : NewPipe L}.
Context `{V : Varint}.

(** [MEMORY_HUB] and the channels; [mm_next] is the next free pair of identifiers. *)
Record MemoryStore := mkMemory {
  mm_hub : gmap Z nat;
  mm_listeners : gmap nat L;
  mm_pipes : gmap nat C;
  mm_next : nat;
}.

Abbreviation MT := (M MemoryStore TransportErrorKind) (only parsing).

(** The first component of the address; [RPanic] is the [expect] of the iterator. *)
Definition parse_memory_port (addr : Multiaddr) : res TransportErrorKind (option Z) :=
  match iter_next addr with
  | Some (ROk (Memory port), _) => ROk (Some port)
  | Some (ROk _, _) => ROk None
  | Some (_, _) => RPanic
  | None => ROk None
  end.

Definition lift {A} (r : res TransportErrorKind A) : MT A := λ m, (m, r).

(** [insert_hub] of [bind]: the entry must be vacant. *)
Definition insert_hub (port : Z) (tx : nat) : MT unit := λ m,
  match mm_hub m !! port with
  | Some _ => (m, RErr (TeIo KAddrNotAvailable))
  | None => (mkMemory (<[port := tx]> (mm_hub m)) (mm_listeners m) (mm_pipes m) (mm_next m), ROk tt)
  end.

(** [channel(8)] for the connections of a listener. *)
Definition new_listener_channel : MT nat := λ m,
  (mkMemory (mm_hub m) (<[mm_next m := new_pipe 8]> (mm_listeners m)) (mm_pipes m) (S (mm_next m)), ROk (mm_next m)).

(** [bind]; [random] is the first number drawn that is not zero. *)
Definition bind (random : Z) (address : Multiaddr) : MT (Multiaddr * MemoryListener) :=
  o ← lift (parse_memory_port address);
  match o with
  | Some port =>
      ch ← new_listener_channel;
      let port := if port =? 0 then random else port in
      insert_hub port ch ;;
      mret (write_to_bytes (Memory port), mkListener port ch)
  | None => throw (TeNotSupported address)
  end.

(** The first half of [connect], under the lock: the sender of the listener. *)
Definition connect_lookup (address : Multiaddr) : MT nat :=
  o ← lift (parse_memory_port address);
  match o with
  | Some port =>
      if port =? 0 then throw (TeIo KAddrNotAvailable) else
      hub ← gets mm_hub;
      match hub !! port with
      | Some sender => mret sender
      | None => throw (TeIo KAddrNotAvailable)
      end
  | None => throw (TeNotSupported address)
  end.

(** [MemorySocket::new]: two channels, crossed. *)
Definition MemorySocket_new : MT (MemorySocket * MemorySocket) := λ m,
  let tx := (2 * mm_next m)%nat in
  let tx_1 := S (2 * mm_next m) in
  (mkMemory (mm_hub m) (mm_listeners m) (<[tx_1 := new_pipe 1024]> (<[tx := new_pipe 1024]> (mm_pipes m)))
     (S (mm_next m)),
   ROk (mkSocket tx tx_1 [], mkSocket tx_1 tx [])).

(** The second half: the other end is sent to the listener. *)
Definition connect_send (sender : nat) (address : Multiaddr) : MT (Multiaddr * MemorySocket) :=
  ends ← MemorySocket_new;
  let '(local, remote) := ends in
  listeners ← gets mm_listeners;
  ch ← or_panic (listeners !! sender);
  let '(ch', sent) := aw_send ch remote in
  modify (λ m, mkMemory (mm_hub m) (<[sender := ch']> (mm_listeners m)) (mm_pipes m) (mm_next m)) ;;
  if sent : bool then mret (address, local) else throw (TeIo KConnectionRefused).

(** ** The listener *)

(** [poll_next]: the address of an inbound connection is empty. *)
Definition listener_poll_next (l : MemoryListener) : MT (Poll (option (ErrorKind + Multiaddr * MemorySocket))) :=
  listeners ← gets mm_listeners;
  ch ← or_panic (listeners !! ml_recv l);
  let '(ch', p) := recv_poll_next ch in
  modify (λ m, mkMemory (mm_hub m) (<[ml_recv l := ch']> (mm_listeners m)) (mm_pipes m) (mm_next m)) ;;
  match p with
  | Ready (Some s) =>
      match try_from [] with
      | ROk addr => mret (Ready (Some (inr (addr, s))))
      | _ => panic
      end
  | Ready None => mret (Ready (Some (inl KBrokenPipe)))
  | Pending => mret Pending
  end.

(** [drop] frees the port; the receiving end goes with the listener. *)
Definition listener_drop (l : MemoryListener) (m : MemoryStore) : MemoryStore :=
  mkMemory (delete (ml_port l) (mm_hub m)) (alter rc_close (ml_recv l) (mm_listeners m)) (mm_pipes m) (mm_next m).

(** ** Sockets *)

(** The loop of [poll_read]: the channel, the buffer and whether the channel has ended. One unit of
    fuel per turn. *)
Fixpoint fill_buffer (fuel : nat) (receiver : C) (read_buffer : bytes) : option (C * bytes * bool) :=
  match fuel with
  | O => None
  | S fuel' =>
      if recv_is_terminated receiver || negb (is_empty read_buffer) then Some (receiver, read_buffer, false) else
      match recv_poll_next receiver with
      | (receiver', Ready (Some data)) => fill_buffer fuel' receiver' data
      | (receiver', Ready None) => Some (receiver', read_buffer, true)
      | (receiver', Pending) => Some (receiver', read_buffer, false)
      end
  end.

(** A message is taken from the queue on every turn but the last. *)
Definition socket_poll_read (remaining : Z) (receiver : C) (read_buffer : bytes)
    : option (C * bytes * Poll (ErrorKind + bytes)) :=
  match fill_buffer (S (length (recv_queue receiver))) receiver read_buffer with
  | None => None
  | Some (receiver', buf, true) => Some (receiver', buf, Ready (inl KBrokenPipe))
  | Some (receiver', buf, false) =>
      let n := Z.min remaining (len buf) in
      if n =? 0 then Some (receiver', buf, Pending)
      else Some (receiver', drop (Z.to_nat n) buf, Ready (inr (take (Z.to_nat n) buf)))
  end.

Definition socket_poll_write (sender : C) (buf : bytes) : C * Poll (ErrorKind + Z) :=
  match bs_poll_ready sender with
  | (sender1, Ready true) =>
      match bs_try_send sender1 buf with
      | (sender2, SendOk) => (sender2, Ready (inr (len buf)))
      | (sender2, SendFull _) => (sender2, Pending)
      | (sender2, SendDisconnected) => (sender2, Ready (inl KBrokenPipe))
      end
  | (sender1, Pending) => (sender1, Pending)
  | (sender1, Ready false) => (sender1, Ready (inl KBrokenPipe))
  end.

Definition set_pipe (id : nat) (c : C) (m : MemoryStore) : MemoryStore :=
  mkMemory (mm_hub m) (mm_listeners m) (<[id := c]> (mm_pipes m)) (mm_next m).

(** The methods of a socket on the store. *)
Definition memory_read (remaining : Z) (s : MemorySocket) (m : MemoryStore)
    : option (MemoryStore * MemorySocket * Poll (ErrorKind + bytes)) :=
  match mm_pipes m !! ms_receiver s with
  | None => None
  | Some c =>
      match socket_poll_read remaining c (ms_read_buffer s) with
      | Some (c', buf, p) => Some (set_pipe (ms_receiver s) c' m, mkSocket (ms_sender s) (ms_receiver s) buf, p)
      | None => None
      end
  end.

Definition memory_write (buf : bytes) (s : MemorySocket) (m : MemoryStore) : option (MemoryStore * Poll (ErrorKind + Z)) :=
  match mm_pipes m !! ms_sender s with
  | None => None
  | Some c => let '(c', p) := socket_poll_write c buf in Some (set_pipe (ms_sender s) c' m, p)
  end.

Definition memory_shutdown (s : MemorySocket) (m : MemoryStore) : MemoryStore :=
  mkMemory (mm_hub m) (mm_listeners m) (alter cs_close (ms_sender s) (alter rc_close (ms_receiver s) (mm_pipes m)))
    (mm_next m).

(** ** Runs *)

(** The sockets in use, by their receiving channel, the dials between their two halves and the bound
    listeners; [my_wrote] and [my_read] are, for every channel, the bytes written into it and those
    read from it by [poll_read]. *)
Record msys := mkMsys {
  my_mem : MemoryStore;
  my_bound : list MemoryListener;
  my_dialing : list (nat * Multiaddr);
  my_sockets : gmap nat MemorySocket;
  my_wrote : nat → bytes;
  my_read : nat → bytes;
}.

Definition written (p : Poll (ErrorKind + Z)) (buf : bytes) : bytes :=
  match p with Ready (inr _) => buf | _ => [] end.
Definition got (p : Poll (ErrorKind + bytes)) : bytes :=
  match p with Ready (inr b) => b | _ => [] end.

(** [f] with [b] added at [i]. *)
Definition add_at (f : nat → bytes) (i : nat) (b : bytes) : nat → bytes :=
  λ j, if decide (j = i) then f j ++ b else f j.

Inductive m_step : msys → msys → Prop :=
| mt_bind y random address m' a l : bind random address (my_mem y) = (m', ROk (a, l)) →
    m_step y (mkMsys m' (l :: my_bound y) (my_dialing y) (my_sockets y) (my_wrote y) (my_read y))
| mt_bind_err y random address m' e : bind random address (my_mem y) = (m', RErr e) →
    m_step y (mkMsys m' (my_bound y) (my_dialing y) (my_sockets y) (my_wrote y) (my_read y))
| mt_lookup y address m' ch : connect_lookup address (my_mem y) = (m', ROk ch) →
    m_step y (mkMsys m' (my_bound y) ((ch, address) :: my_dialing y) (my_sockets y) (my_wrote y) (my_read y))
| mt_send y d1 ch address d2 m' a s : my_dialing y = d1 ++ (ch, address) :: d2 →
    connect_send ch address (my_mem y) = (m', ROk (a, s)) →
    m_step y (mkMsys m' (my_bound y) (d1 ++ d2) (<[ms_receiver s := s]> (my_sockets y)) (my_wrote y) (my_read y))
| mt_refused y d1 ch address d2 m' e : my_dialing y = d1 ++ (ch, address) :: d2 →
    connect_send ch address (my_mem y) = (m', RErr e) →
    m_step y (mkMsys m' (my_bound y) (d1 ++ d2) (my_sockets y) (my_wrote y) (my_read y))
| mt_accept y l m' a s : l ∈ my_bound y →
    listener_poll_next l (my_mem y) = (m', ROk (Ready (Some (inr (a, s))))) →
    m_step y (mkMsys m' (my_bound y) (my_dialing y) (<[ms_receiver s := s]> (my_sockets y)) (my_wrote y) (my_read y))
| mt_drop_listener y b1 l b2 : my_bound y = b1 ++ l :: b2 →
    m_step y (mkMsys (listener_drop l (my_mem y)) (b1 ++ b2) (my_dialing y) (my_sockets y) (my_wrote y) (my_read y))
| mt_read y k s n m' s' p : my_sockets y !! k = Some s → memory_read n s (my_mem y) = Some (m', s', p) →
    m_step y (mkMsys m' (my_bound y) (my_dialing y) (<[k := s']> (my_sockets y)) (my_wrote y)
      (add_at (my_read y) k (got p)))
| mt_write y k s buf m' p : my_sockets y !! k = Some s → memory_write buf s (my_mem y) = Some (m', p) →
    m_step y (mkMsys m' (my_bound y) (my_dialing y) (my_sockets y) (add_at (my_wrote y) (ms_sender s) (written p buf))
      (my_read y))
| mt_shutdown y k s : my_sockets y !! k = Some s →
    m_step y (mkMsys (memory_shutdown s (my_mem y)) (my_bound y) (my_dialing y) (my_sockets y) (my_wrote y) (my_read y))
| mt_drop_socket y k : m_step y (mkMsys (my_mem y) (my_bound y) (my_dialing y) (delete k (my_sockets y)) (my_wrote y) (my_read y)).

Definition memory_start : msys := mkMsys (mkMemory ∅ ∅ ∅ 0) [] [] ∅ (λ _, []) (λ _, []).

(** ** The channels *)

(** What is documented of the channels: sent messages are appended to the queue, and only those. *)
Class PipeLaws : Prop := {
  pl_new : ∀ n, recv_queue (new_pipe n : C) = [];
  pl_ready : ∀ c : C, recv_queue (bs_poll_ready c).1 = recv_queue c;
  pl_ok : ∀ (c c' : C) a, bs_try_send c a = (c', SendOk) → recv_queue c' = recv_queue c ++ [a];
  pl_full : ∀ (c c' : C) a b, bs_try_send c a = (c', SendFull b) → recv_queue c' = recv_queue c;
  pl_disconnected : ∀ (c c' : C) a, bs_try_send c a = (c', SendDisconnected) → recv_queue c' = recv_queue c;
  pl_close : ∀ c : C, recv_queue (cs_close c) = recv_queue c;
  pl_recv : ReceiverLaws C bytes;
  pl_recv_close : CloseReceiverLaws C bytes;
}.
Class ListenerLaws : Prop := {
  lc_new : ∀ n, recv_queue (new_pipe n : L) = [];
  lc_send : ∀ (c : L) s,
    recv_queue (aw_send c s).1 = if (aw_send c s).2 then recv_queue c ++ [s] else recv_queue c;
  lc_recv : ReceiverLaws L MemorySocket;
  lc_recv_close : CloseReceiverLaws L MemorySocket;
}.
#[local] Existing Instances pl_recv pl_recv_close lc_recv lc_recv_close.
Context `{PL : PipeLaws} `{LL : ListenerLaws}.

(** ** Reading and writing *)

Lemma fill_buffer_spec fuel c buf :
  (length (recv_queue c) < fuel)%nat → ∃ c' buf' e, fill_buffer fuel c buf = Some (c', buf', e) ∧
  buf ++ concat (recv_queue c) = buf' ++ concat (recv_queue c').
Proof.
  revert c buf. induction fuel as [|fuel IH]; intros c buf Hf; [lia|]. cbn.
  destruct (recv_is_terminated c || negb (is_empty buf)) eqn:E; [eauto|].
  apply orb_false_elim in E as [_ E]. apply negb_false_iff in E. destruct buf; [|done].
  destruct (recv_poll_next c) as [c' [[data|]|]] eqn:Hp.
  - apply recv_some in Hp as Hq. rewrite Hq in Hf |- *. cbn in Hf. apply IH. lia.
  - apply recv_none in Hp as [H1 H2]. do 3 eexists. split; [done|]. by rewrite H1, H2.
  - apply recv_pending in Hp as [H1 H2]. do 3 eexists. split; [done|]. by rewrite H1, H2.
Qed.

(** A read never runs out of fuel, and what it returns is the front of what was buffered. *)
Lemma socket_read_spec n c buf : ∃ c' buf' p, socket_poll_read n c buf = Some (c', buf', p) ∧
  buf ++ concat (recv_queue c) = got p ++ buf' ++ concat (recv_queue c').
Proof.
  unfold socket_poll_read. destruct (fill_buffer_spec (S (length (recv_queue c))) c buf ltac:(lia)) as (c' & b & e & -> & H).
  destruct e; [do 3 eexists; split; [done|]; exact H|]. destruct (_ =? 0); [do 3 eexists; split; [done|]; exact H|].
  do 3 eexists. split; [done|]. cbn. rewrite H. by rewrite (app_assoc (take _ _)), take_drop.
Qed.

Lemma socket_write_spec c buf :
  concat (recv_queue (socket_poll_write c buf).1) = concat (recv_queue c) ++ written (socket_poll_write c buf).2 buf.
Proof.
  unfold socket_poll_write. pose proof (pl_ready c) as H1. destruct (bs_poll_ready c) as [c1 [[]|]]; cbn in H1.
  - destruct (bs_try_send c1 buf) as [c2 []] eqn:E; cbn.
    + apply pl_ok in E. rewrite E, H1, concat_app. cbn. by rewrite app_nil_r.
    + apply pl_full in E. by rewrite E, H1, app_nil_r.
    + apply pl_disconnected in E. by rewrite E, H1, app_nil_r.
  - cbn. by rewrite H1, app_nil_r.
  - cbn. by rewrite H1, app_nil_r.
Qed.

(** ** The invariant *)

(** The other end of a socket reads the channel it writes. *)
Definition partner (n : nat) : nat := if Nat.even n then S n else pred n.

Lemma partner_even n : partner (2 * n) = S (2 * n).
Proof. unfold partner. by rewrite Nat.even_mul. Qed.
Lemma partner_odd n : partner (S (2 * n)) = (2 * n)%nat.
Proof. unfold partner. by rewrite Nat.even_succ, <- Nat.negb_even, Nat.even_mul. Qed.
Lemma partner_partner n : partner (partner n) = n.
Proof.
  destruct (Nat.Even_or_Odd n) as [[k ->]|[k ->]].
  - by rewrite partner_even, partner_odd.
  - replace (2 * k + 1)%nat with (S (2 * k)) by lia. by rewrite partner_odd, partner_even.
Qed.

(** What was written into a channel was read, is in the buffer of the reading socket or is queued. *)
Definition delivered (y : msys) (r : nat) (buf : bytes) : Prop := ∃ c,
  mm_pipes (my_mem y) !! r = Some c ∧ my_wrote y r = my_read y r ++ buf ++ concat (recv_queue c).

Definition socket_ok (y : msys) (s : MemorySocket) : Prop :=
  ms_sender s = partner (ms_receiver s) ∧ is_Some (mm_pipes (my_mem y) !! ms_sender s) ∧
  delivered y (ms_receiver s) (ms_read_buffer s).

(** The socket on its way to a listener. *)
Definition queued (y : msys) (l : nat) (i : nat) (s : MemorySocket) : Prop :=
  ∃ ch, mm_listeners (my_mem y) !! l = Some ch ∧ recv_queue ch !! i = Some s.

Definition m_inv (y : msys) : Prop :=
  (∀ r, (2 * mm_next (my_mem y) <= r)%nat → mm_pipes (my_mem y) !! r = None ∧ my_wrote y r = [] ∧ my_read y r = []) ∧
  (∀ l, (mm_next (my_mem y) <= l)%nat → mm_listeners (my_mem y) !! l = None) ∧
  (∀ r s, my_sockets y !! r = Some s → ms_receiver s = r ∧ socket_ok y s) ∧
  (∀ l i s, queued y l i s → socket_ok y s ∧ my_sockets y !! ms_receiver s = None) ∧
  (∀ l1 i1 s1 l2 i2 s2, queued y l1 i1 s1 → queued y l2 i2 s2 → ms_receiver s1 = ms_receiver s2 → l1 = l2 ∧ i1 = i2).

Lemma memory_start_inv : m_inv memory_start.
Proof.
  split_and!; try done.
  - intros l i s (ch & Hl & _). cbn in Hl. by rewrite lookup_empty in Hl.
  - intros l1 i1 s1 l2 i2 s2 (ch & Hl & _). cbn in Hl. by rewrite lookup_empty in Hl.
Qed.

(** A socket lives below the next identifiers. *)
Lemma socket_below y s : m_inv y → socket_ok y s → (ms_receiver s < 2 * mm_next (my_mem y))%nat.
Proof.
  intros [Hf _] (_ & _ & c & Hc & _). destruct (decide (2 * mm_next (my_mem y) <= ms_receiver s)%nat) as [Hge|]; [|lia].
  destruct (Hf _ Hge) as [E _]. congruence.
Qed.

(** Steps that touch no channel of a socket and put nothing into the queue of a listener. *)
Lemma inv_frame y y' :
  mm_pipes (my_mem y') = mm_pipes (my_mem y) → my_wrote y' = my_wrote y → my_read y' = my_read y →
  (∀ r s, my_sockets y' !! r = Some s → my_sockets y !! r = Some s) →
  (mm_next (my_mem y) <= mm_next (my_mem y'))%nat →
  (∀ l, (mm_next (my_mem y') <= l)%nat → mm_listeners (my_mem y') !! l = None) →
  (∀ l i s, queued y' l i s → queued y l i s) → m_inv y → m_inv y'.
Proof.
  intros E1 E2 E3 E4 Hn Hl Hq (Hf & _ & Hs & Hp & Hu).
  assert (∀ s, socket_ok y s → socket_ok y' s) as Hok by (unfold socket_ok, delivered; by rewrite E1, E2, E3).
  split_and!; auto.
  - intros r Hr. rewrite E1, E2, E3. apply Hf. lia.
  - intros r s H. destruct (Hs r s (E4 _ _ H)). auto.
  - intros l i s H. destruct (Hp _ _ _ (Hq _ _ _ H)) as [H1 H2]. split; [auto|].
    destruct (my_sockets y' !! ms_receiver s) eqn:E; [|done]. apply E4 in E. congruence.
  - intros l1 i1 s1 l2 i2 s2 H1 H2. eauto.
Qed.

(** A channel changes by what is written into it. *)
Lemma inv_write y k s m' p buf :
  my_sockets y !! k = Some s → memory_write buf s (my_mem y) = Some (m', p) → m_inv y →
  m_inv (mkMsys m' (my_bound y) (my_dialing y) (my_sockets y) (add_at (my_wrote y) (ms_sender s) (written p buf)) (my_read y)).
Proof.
  intros Hk Hw (Hf & Hl & Hs & Hp & Hu). unfold memory_write in Hw.
  destruct (mm_pipes (my_mem y) !! ms_sender s) as [c|] eqn:Ec; [|done].
  pose proof (socket_write_spec c buf) as Hc. destruct (socket_poll_write c buf) as [c' p'] eqn:E. injection Hw as <- <-.
  cbn in Hc. match goal with |- m_inv ?y1 => assert (∀ x, socket_ok y x → socket_ok y1 x) as Hok end.
  { intros x (H1 & H2 & cx & H3 & H4). unfold socket_ok, delivered. cbn. split_and!; [done| |].
    - destruct (decide (ms_sender x = ms_sender s)) as [->|Hne]; [by rewrite lookup_insert_eq|by rewrite lookup_insert_ne].
    - unfold add_at. destruct (decide (ms_receiver x = ms_sender s)) as [Ex|Hne].
      + exists c'. rewrite Ex, lookup_insert_eq. split; [done|]. rewrite Ex in H3, H4. rewrite H4, Hc.
        rewrite Ec in H3. injection H3 as <-. by rewrite !app_assoc.
      + exists cx. by rewrite lookup_insert_ne. }
  split_and!; cbn; auto.
  - intros r Hr. destruct (Hf r Hr) as (E1 & E2 & E3). unfold add_at.
    rewrite decide_False by (intros ->; congruence). rewrite lookup_insert_ne by (intros <-; congruence). done.
  - intros r x H. destruct (Hs r x H). auto.
  - intros l i x H. destruct (Hp l i x H). auto.
Qed.

Lemma inv_read y k s m' s' p n :
  my_sockets y !! k = Some s → memory_read n s (my_mem y) = Some (m', s', p) → m_inv y →
  m_inv (mkMsys m' (my_bound y) (my_dialing y) (<[k := s']> (my_sockets y)) (my_wrote y) (add_at (my_read y) k (got p))).
Proof.
  intros Hk Hw (Hf & Hl & Hs & Hp & Hu). destruct (Hs k s Hk) as [Er (Hsn & Hsp & c & Hc & Hd)].
  unfold memory_read in Hw. rewrite Hc in Hw. destruct (socket_read_spec n c (ms_read_buffer s)) as (c' & b & p' & Hread & Hq).
  rewrite Hread in Hw. injection Hw as <- <- <-. rewrite Er in *.
  match goal with |- m_inv ?y1 => assert (∀ x, ms_receiver x ≠ k → socket_ok y x → socket_ok y1 x) as Hok end.
  { intros x Hx (H1 & H2 & cx & H3 & H4). unfold socket_ok, delivered. cbn. split_and!; [done| |].
    - destruct (decide (ms_sender x = k)) as [->|Hne]; [by rewrite lookup_insert_eq|by rewrite lookup_insert_ne].
    - exists cx. unfold add_at. rewrite decide_False by done. by rewrite lookup_insert_ne by done. }
  split_and!; cbn; auto.
  - intros r Hr. destruct (Hf r Hr) as (E1 & E2 & E3). unfold add_at.
    rewrite decide_False by (intros ->; congruence). rewrite lookup_insert_ne by (intros <-; congruence). done.
  - intros r x H. destruct (decide (r = k)) as [->|Hne].
    + rewrite lookup_insert_eq in H. injection H as <-. cbn. split; [done|]. unfold socket_ok, delivered. cbn. split_and!; [done| |].
      * destruct (decide (ms_sender s = k)) as [->|Hn']; [by rewrite lookup_insert_eq|by rewrite lookup_insert_ne].
      * exists c'. rewrite lookup_insert_eq. split; [done|]. unfold add_at. rewrite decide_True by done.
        by rewrite Hd, Hq, <- app_assoc.
    + rewrite lookup_insert_ne in H by done. destruct (Hs r x H) as [H1 H2]. split; [done|]. apply Hok; [congruence|done].
  - intros l i x H. destruct (Hp l i x H) as [H1 H2]. assert (ms_receiver x ≠ k) by (intros E; rewrite E in H2; congruence).
    split; [by apply Hok|]. by rewrite lookup_insert_ne.
Qed.

(** ** Binding and dialing *)

Lemma lookup_keeps address m m' r : connect_lookup address m = (m', r) → m' = m.
Proof.
  unfold connect_lookup, lift, mbind, M_bind. destruct (parse_memory_port address) as [[port|]| |]; cbn; try (by intros [= <- _]).
  destruct (port =? 0); cbn; [by intros [= <- _]|]. by destruct (mm_hub m !! port); intros [= <- _].
Qed.

(** [bind] leaves the channels of the sockets alone, and its new listener is empty. *)
Lemma bind_keeps random address m m' r : bind random address m = (m', r) →
  mm_pipes m' = mm_pipes m ∧
  (m' = m ∨ mm_next m' = S (mm_next m) ∧ mm_listeners m' = <[mm_next m := new_pipe 8]> (mm_listeners m)).
Proof.
  unfold bind, lift, mbind, M_bind. destruct (parse_memory_port address) as [[port|]| |]; cbn; try (intros [= <- _]; auto).
  unfold insert_hub. cbn. destruct (mm_hub m !! _); cbn; intros [= <- _]; cbn; auto.
Qed.

(** What the second half of a dial does. *)
Lemma connect_send_inv ch address m m' r :
  connect_send ch address m = (m', r) → r ≠ RPanic →
  let n := mm_next m in
  ∃ c, mm_listeners m !! ch = Some c ∧
    mm_pipes m' = <[S (2 * n) := new_pipe 1024]> (<[(2 * n)%nat := new_pipe 1024]> (mm_pipes m)) ∧
    mm_listeners m' = <[ch := (aw_send c (mkSocket (S (2 * n)) (2 * n) [])).1]> (mm_listeners m) ∧
    mm_next m' = S n ∧
    r = if (aw_send c (mkSocket (S (2 * n)) (2 * n) [])).2
        then ROk (address, mkSocket (2 * n) (S (2 * n)) []) else RErr (TeIo KConnectionRefused).
Proof.
  unfold connect_send, MemorySocket_new, mbind, M_bind, gets, or_panic, modify. cbn -[Nat.mul].
  destruct (mm_listeners m !! ch) as [c|] eqn:Hc; cbn -[Nat.mul]; [|by intros [= <- <-] []].
  destruct (aw_send c _) as [c' sent] eqn:E; cbn -[Nat.mul]. intros H _. exists c. rewrite E. cbn.
  destruct sent; by injection H as <- <-.
Qed.

Lemma inv_bind y random address m' r bound :
  bind random address (my_mem y) = (m', r) → m_inv y →
  m_inv (mkMsys m' bound (my_dialing y) (my_sockets y) (my_wrote y) (my_read y)).
Proof.
  intros Hb Hi. destruct (bind_keeps _ _ _ _ _ Hb) as [Hp [-> |[Hn Hl]]].
  - apply (inv_frame y); auto; try done. apply Hi.
  - apply (inv_frame y); auto; cbn; rewrite ?Hn, ?Hl; [lia| |].
    + intros l Hle. rewrite lookup_insert_ne by lia. apply Hi. lia.
    + intros l i s (c & Hc & Hi'). cbn in Hc. rewrite Hl in Hc.
      destruct (decide (l = mm_next (my_mem y))) as [->|Hne].
      * rewrite lookup_insert_eq in Hc. injection Hc as <-. by rewrite lc_new in Hi'.
      * rewrite lookup_insert_ne in Hc by done. by exists c.
Qed.

(** A dial: the two new ends, whether the other end is queued or refused. *)
Lemma inv_send y ch address m' r bound d (sockets : gmap nat MemorySocket) :
  connect_send ch address (my_mem y) = (m', r) → r ≠ RPanic → m_inv y →
  (sockets = my_sockets y ∨
   sockets = <[S (2 * mm_next (my_mem y)) := mkSocket (2 * mm_next (my_mem y)) (S (2 * mm_next (my_mem y))) []]> (my_sockets y)) →
  m_inv (mkMsys m' bound d sockets (my_wrote y) (my_read y)).
Proof.
  intros Hc Hr Hi Hsk. pose proof Hi as (Hf & Hl & Hs & Hp & Hu).
  destruct (connect_send_inv _ _ _ _ _ Hc Hr) as (c & Hch & Ep & El & En & _). clear Hc Hr.
  set (n := mm_next (my_mem y)) in *. set (y1 := mkMsys _ _ _ _ _ _).
  destruct (Hf (2 * n)%nat ltac:(lia)) as (F1 & F2 & F3). destruct (Hf (S (2 * n)) ltac:(lia)) as (G1 & G2 & G3).
  assert (∀ x, socket_ok y x → socket_ok y1 x) as Hok.
  { intros x (H1 & [cs H2] & cx & H3 & H4). unfold socket_ok, delivered. cbn. rewrite Ep.
    split_and!; [done| |exists cx; split; [|done]]; repeat rewrite lookup_insert_ne by (intros E; rewrite <- E in *; congruence); eauto. }
  assert (socket_ok y1 (mkSocket (2 * n) (S (2 * n)) []) ∧ socket_ok y1 (mkSocket (S (2 * n)) (2 * n) [])) as [Hlocal Hremote].
  { unfold socket_ok, delivered. cbn -[Nat.mul]. rewrite Ep, partner_odd, partner_even, F2, F3, G2, G3.
    rewrite lookup_insert_ne by lia. rewrite !lookup_insert_eq.
    split; (split_and!; [done|by eexists|eexists; split; [done|by rewrite pl_new]]). }
  assert (∀ l i x, queued y1 l i x → queued y l i x ∨ x = mkSocket (S (2 * n)) (2 * n) [] ∧ l = ch ∧ i = length (recv_queue c)) as Hq.
  { intros l i x (cx & Hx & Hix). cbn in Hx. rewrite El in Hx. destruct (decide (l = ch)) as [->|Hne].
    - rewrite lookup_insert_eq in Hx. injection Hx as <-. rewrite lc_send in Hix.
      destruct (aw_send c _).2; [|left; by exists c]. apply lookup_snoc_Some in Hix as [[_ Hix]|[-> <-]]; [left; by exists c|by right].
    - rewrite lookup_insert_ne in Hx by done. left. by exists cx. }
  assert (∀ k, my_sockets y !! k ≠ None → (k < 2 * n)%nat) as Hlow.
  { intros k Hk. destruct (my_sockets y !! k) as [x|] eqn:E; [|done]. destruct (Hs k x E) as [<- Hx]. by apply socket_below. }
  assert (∀ k, sockets !! k ≠ None → (k < 2 * n)%nat ∨ k = S (2 * n)) as Hlow'.
  { intros k. destruct Hsk as [-> | ->]; [auto|]. destruct (decide (k = S (2 * n))) as [->|Hne]; [auto|].
    rewrite lookup_insert_ne by done. auto. }
  split_and!.
  - cbn. rewrite En, Ep. intros k Hk. rewrite !lookup_insert_ne by lia. apply Hf. lia.
  - cbn. rewrite En, El. intros l Hle. rewrite lookup_insert_ne; [apply Hl; lia|]. intros <-. rewrite (Hl ch) in Hch by lia. done.
  - cbn. intros k x Hx. destruct Hsk as [-> | ->]; [destruct (Hs k x Hx); auto|].
    destruct (decide (k = S (2 * n))) as [->|Hne]; [rewrite lookup_insert_eq in Hx; by injection Hx as <-|].
    rewrite lookup_insert_ne in Hx by done. destruct (Hs k x Hx); auto.
  - intros l i x Hx. destruct (Hq l i x Hx) as [Ho|(-> & _)].
    + destruct (Hp l i x Ho) as [H1 H2]. split; [auto|]. cbn. destruct Hsk as [-> | ->]; [done|].
      rewrite lookup_insert_ne; [done|]. pose proof (socket_below y x Hi H1). fold n in H. lia.
    + split; [done|]. cbn -[Nat.mul]. destruct (sockets !! (2 * n)%nat) eqn:E; [|done].
      exfalso. destruct (Hlow' (2 * n)%nat ltac:(by rewrite E)); lia.
  - intros l1 i1 s1 l2 i2 s2 H1 H2 E. destruct (Hq _ _ _ H1) as [Q1|(-> & -> & ->)], (Hq _ _ _ H2) as [Q2|(-> & -> & ->)]; eauto.
    + exfalso. pose proof (socket_below y s1 Hi (proj1 (Hp _ _ _ Q1))). cbn -[Nat.mul] in E. fold n in H. lia.
    + exfalso. pose proof (socket_below y s2 Hi (proj1 (Hp _ _ _ Q2))). cbn -[Nat.mul] in E. fold n in H. lia.
Qed.

(** A listener hands out the socket at the front of its queue. *)
Lemma accept_inv l m m' a s :
  listener_poll_next l m = (m', ROk (Ready (Some (inr (a, s))))) →
  ∃ c c', mm_listeners m !! ml_recv l = Some c ∧ recv_queue c = s :: recv_queue c' ∧
    m' = mkMemory (mm_hub m) (<[ml_recv l := c']> (mm_listeners m)) (mm_pipes m) (mm_next m) ∧ a = [].
Proof.
  unfold listener_poll_next, mbind, M_bind, gets, or_panic, modify. cbn.
  destruct (mm_listeners m !! ml_recv l) as [c|]; cbn; [|done].
  destruct (recv_poll_next c) as [c' [[x|]|]] eqn:E; cbn; intros H; try discriminate H.
  injection H as <- <- <-. exists c, c'. split_and!; try done. by apply recv_some.
Qed.

Lemma inv_accept y l m' a s :
  listener_poll_next l (my_mem y) = (m', ROk (Ready (Some (inr (a, s))))) → m_inv y →
  m_inv (mkMsys m' (my_bound y) (my_dialing y) (<[ms_receiver s := s]> (my_sockets y)) (my_wrote y) (my_read y)).
Proof.
  intros Hacc (Hf & Hl & Hs & Hp & Hu). destruct (accept_inv _ _ _ _ _ Hacc) as (c & c' & Hc & Hq & -> & _). clear Hacc.
  set (y1 := mkMsys _ _ _ _ _ _).
  assert (queued y (ml_recv l) 0 s) as Hhead by (exists c; by rewrite Hq).
  destruct (Hp _ _ _ Hhead) as [Hsok Hnone].
  assert (∀ k i x, queued y1 k i x → ∃ j, queued y k j x ∧ (k = ml_recv l → j = S i) ∧ (k ≠ ml_recv l → j = i)) as Hq'.
  { intros k i x (cx & Hx & Hi). cbn in Hx. destruct (decide (k = ml_recv l)) as [->|Hne].
    - rewrite lookup_insert_eq in Hx. injection Hx as <-. exists (S i). split; [exists c; by rewrite Hq|done].
    - rewrite lookup_insert_ne in Hx by done. exists i. split; [by exists cx|done]. }
  split_and!; try done.
  - intros k Hk. cbn. rewrite lookup_insert_ne; [by apply Hl|]. intros <-. by rewrite (Hl _ Hk) in Hc.
  - intros r x Hx. cbn in Hx. destruct (decide (r = ms_receiver s)) as [->|Hne].
    + rewrite lookup_insert_eq in Hx. by injection Hx as <-.
    + rewrite lookup_insert_ne in Hx by done. by apply Hs.
  - intros k i x Hx. destruct (Hq' k i x Hx) as (j & Hj & Hj1 & Hj2). destruct (Hp _ _ _ Hj) as [H1 H2]. split; [done|].
    cbn. rewrite lookup_insert_ne; [done|]. intros E. destruct (Hu _ _ _ _ _ _ Hhead Hj E) as [E1 E2].
    rewrite <- E1 in Hj1. specialize (Hj1 eq_refl). lia.
  - intros k1 i1 x1 k2 i2 x2 H1 H2 E. destruct (Hq' _ _ _ H1) as (j1 & Hj1 & A1 & B1), (Hq' _ _ _ H2) as (j2 & Hj2 & A2 & B2).
    destruct (Hu _ _ _ _ _ _ Hj1 Hj2 E) as [<- E2]. split; [done|].
    destruct (decide (k1 = ml_recv l)) as [Ek|Ek]; [rewrite A1, A2 in E2 by done; lia|by rewrite B1, B2 in E2].
Qed.

(** Closing keeps what is queued. *)
Lemma alter_close (f : C → C) (k : nat) (pipes : gmap nat C) r c :
  (∀ x, recv_queue (f x) = recv_queue x) → alter f k pipes !! r = Some c →
  ∃ c0, pipes !! r = Some c0 ∧ recv_queue c = recv_queue c0.
Proof.
  intros Hf H. apply lookup_alter_Some in H as [(-> & c0 & H0 & ->)|[_ H]]; eauto.
Qed.

Lemma alter_close_some (f : C → C) (k : nat) (pipes : gmap nat C) r c0 :
  (∀ x, recv_queue (f x) = recv_queue x) → pipes !! r = Some c0 →
  ∃ c, alter f k pipes !! r = Some c ∧ recv_queue c = recv_queue c0.
Proof.
  intros Hf H. destruct (decide (k = r)) as [->|Hne]; [rewrite lookup_alter_eq, H|rewrite lookup_alter_ne by done]; cbn; eauto.
Qed.

Lemma inv_shutdown y s : m_inv y →
  m_inv (mkMsys (memory_shutdown s (my_mem y)) (my_bound y) (my_dialing y) (my_sockets y) (my_wrote y) (my_read y)).
Proof.
  intros (Hf & Hl & Hs & Hp & Hu). set (y1 := mkMsys _ _ _ _ _ _).
  assert (∀ r c0, mm_pipes (my_mem y) !! r = Some c0 → ∃ c, mm_pipes (my_mem y1) !! r = Some c ∧ recv_queue c = recv_queue c0) as Hc.
  { intros r c0 H. destruct (alter_close_some rc_close (ms_receiver s) _ r c0 rc_close_queue H) as (c1 & H1 & E1).
    destruct (alter_close_some cs_close (ms_sender s) _ r c1 pl_close H1) as (c2 & H2 & E2). exists c2. split; [done|congruence]. }
  assert (∀ x, socket_ok y x → socket_ok y1 x) as Hok.
  { intros x (H1 & [cs H2] & cx & H3 & H4). destruct (Hc _ _ H2) as (c1 & E1 & _). destruct (Hc _ _ H3) as (c2 & E2 & Eq).
    split_and!; [done|by exists c1|]. exists c2. split; [done|]. cbn. by rewrite Eq. }
  split_and!; try done.
  - intros r Hr. cbn. destruct (Hf r Hr) as (E1 & E2 & E3). split_and!; [|done..].
    apply eq_None_not_Some. intros [c H]. destruct (alter_close _ _ _ _ _ pl_close H) as (c1 & H1 & _).
    destruct (alter_close _ _ _ _ _ rc_close_queue H1) as (c2 & H2 & _). congruence.
  - intros r x H. destruct (Hs r x H). auto.
  - intros l i x H. destruct (Hp l i x H). auto.
Qed.

Lemma m_step_inv y y' : m_step y y' → m_inv y → m_inv y'.
Proof.
  intros Hst Hi. destruct Hst as [y random address m' a l Hb|y random address m' e Hb|y address m' ch Hb
    |y d1 ch address d2 m' a s Hd Hb|y d1 ch address d2 m' e Hd Hb|y l m' a s _ Hb|y b1 l b2 Hb|y k s n m' s' p Hk Hb
    |y k s buf m' p Hk Hb|y k s Hk|y k].
  - by eapply inv_bind.
  - by eapply inv_bind.
  - apply lookup_keeps in Hb as ->. apply (inv_frame y); auto; try done. apply Hi.
  - eapply inv_send; [done..|]. right. destruct (connect_send_inv _ _ _ _ _ Hb ltac:(done)) as (c & _ & _ & _ & _ & E).
    destruct (aw_send c _).2; [|done]. by injection E as -> ->.
  - eapply inv_send; [done..|]. by left.
  - by eapply inv_accept.
  - apply (inv_frame y); auto; try done; cbn.
    + intros k Hk. apply eq_None_not_Some. intros [c H]. apply lookup_alter_Some in H as [(_ & c0 & H0 & _)|[_ H]];
        by rewrite (proj1 (proj2 Hi) _ Hk) in *.
    + intros k i s (c & H & Hs). cbn in H. apply lookup_alter_Some in H as [(_ & c0 & H0 & ->)|[_ H]]; [|by exists c].
      exists c0. split; [done|]. by rewrite rc_close_queue in Hs.
  - by eapply inv_read.
  - by eapply inv_write.
  - by apply inv_shutdown.
  - apply (inv_frame y); auto; try done; [|apply Hi]. intros r x Hx. cbn in Hx. by apply lookup_delete_Some in Hx as [_ Hx].
Qed.

Lemma m_steps_inv y y' : rtc m_step y y' → m_inv y → m_inv y'.
Proof. induction 1; eauto using m_step_inv. Qed.

(** In every run of listeners, dials and sockets of the transport in memory, what the other end of
    a socket wrote is what the socket has read, followed by its buffer and by what is on the way, in
    order and without loss; no other socket writes to it; and its methods find their channels and end. *)
Theorem memory_bytes_in_order y r s :
  rtc m_step memory_start y → my_sockets y !! r = Some s →
  (∃ c, mm_pipes (my_mem y) !! r = Some c ∧
     my_wrote y r = my_read y r ++ ms_read_buffer s ++ concat (recv_queue c)) ∧
  (∀ r' s', my_sockets y !! r' = Some s' → ms_sender s' = r → r' = ms_sender s) ∧
  (∀ n, memory_read n s (my_mem y) ≠ None) ∧ (∀ buf, memory_write buf s (my_mem y) ≠ None).
Proof.
  intros Hr Hs. pose proof (m_steps_inv _ _ Hr memory_start_inv) as (_ & _ & Hsk & _ & _).
  destruct (Hsk r s Hs) as [<- (Hsn & [cs Hcs] & c & Hc & Hd)]. split_and!.
  - by exists c.
  - intros r' s' Hs' E. destruct (Hsk r' s' Hs') as [<- (Hsn' & _)]. rewrite Hsn' in E. rewrite Hsn, <- E. symmetry. apply partner_partner.
  - intros n. unfold memory_read. rewrite Hc. by destruct (socket_read_spec n c (ms_read_buffer s)) as (? & ? & ? & -> & _).
  - intros buf. unfold memory_write. rewrite Hcs. by destruct (socket_poll_write cs buf).
Qed.

(** Once the end of the channel was seen, a read answers [Pending] without polling it, so nothing
    will wake the reader. *)
Lemma read_after_end_waits n c : 0 <= n → recv_is_terminated c = true → socket_poll_read n c [] = Some (c, [], Pending).
Proof. intros Hn H. unfold socket_poll_read. cbn. rewrite H. cbn. by destruct n. Qed.

(** A taken random port ends [bind] with an error; no other port is drawn. *)
Lemma random_port_taken m (random : Z) address l :
  parse_memory_port address = ROk (Some 0) → mm_hub m !! random = Some l →
  (bind random address m).2 = RErr (TeIo KAddrNotAvailable).
Proof. intros Hp Hh. unfold bind, lift, mbind, M_bind. rewrite Hp. cbn. unfold insert_hub. cbn. by rewrite Hh. Qed.

End Transport.

(** ** A run: a listener on a port, a dial, and bytes from one end to the other *)

(** A channel as a queue with flags; the ends of a pipe and the queue of a listener. *)
Record Pipe (A : Type) := mkPipe { pi_queue : list A; pi_closed : bool; pi_ended : bool }.
Arguments mkPipe {A} _ _ _.
Arguments pi_queue {A} _.
Arguments pi_closed {A} _.
Arguments pi_ended {A} _.

#[export] Instance Pipe_receiver A : Receiver (Pipe A) A := {
  recv_poll_next c :=
    match pi_queue c with
    | a :: q => (mkPipe q (pi_closed c) (pi_ended c), Ready (Some a))
    | [] => if pi_closed c then (mkPipe [] true true, Ready None) else (c, Pending)
    end;
  recv_is_terminated := pi_ended;
  recv_queue := pi_queue;
}.
#[export] Instance Pipe_receiver_laws A : ReceiverLaws (Pipe A) A.
Proof.
  split; intros [q c e] r'; cbn.
  - intros a H. destruct q; [destruct c; discriminate|]. by simplify_eq.
  - destruct q; [destruct c|]; intros; by simplify_eq.
  - destruct q; [destruct c|]; intros; by simplify_eq.
Qed.
#[export] Instance Pipe_bounded : BoundedSender (Pipe bytes) bytes := {
  bs_poll_ready c := (c, Ready (negb (pi_closed c)));
  bs_try_send c a := if pi_closed c then (c, SendDisconnected) else (mkPipe (pi_queue c ++ [a]) false (pi_ended c), SendOk);
  bs_sent := pi_queue;
}.
#[export] Instance Pipe_close_receiver A : CloseReceiver (Pipe A) := λ c, mkPipe (pi_queue c) true (pi_ended c).
#[export] Instance Pipe_close_receiver_laws A : CloseReceiverLaws (Pipe A) A.
Proof. by split. Qed.
#[export] Instance Pipe_close_sender A : CloseSender (Pipe A) := λ c, mkPipe (pi_queue c) true (pi_ended c).
#[export] Instance Pipe_new A : NewPipe (Pipe A) := λ _, mkPipe [] false false.
#[export] Instance Pipe_await : AwaitSender (Pipe MemorySocket) MemorySocket := {
  aw_send c s := if pi_closed c then (c, false) else (mkPipe (pi_queue c ++ [s]) false (pi_ended c), true);
  aw_open c := negb (pi_closed c);
  aw_sent := pi_queue;
}.
#[export] Instance Pipe_pipe_laws : PipeLaws (C := Pipe bytes).
Proof.
  split; try done; try apply _; intros [q c e]; cbn; destruct c; intros; by simplify_eq.
Qed.
#[export] Instance Pipe_listener_laws : ListenerLaws (L := Pipe MemorySocket).
Proof. split; try done; try apply _. intros [q c e] s. cbn. by destruct c. Qed.

Abbreviation mem_sys := (msys (C := Pipe bytes) (L := Pipe MemorySocket)) (only parsing).

Definition mem_address : Multiaddr := write_to_bytes (Memory 5).
Definition mem_listener : MemoryListener := mkListener 5 0.
Definition mem_local : MemorySocket := mkSocket 2 3 [].
Definition mem_remote : MemorySocket := mkSocket 3 2 [].
Definition mem_bytes : bytes := [byte_of 1; byte_of 2].

Definition mem_bound : mem_sys :=
  mkMsys (bind 9 mem_address (my_mem memory_start)).1 [mem_listener] [] ∅ (λ _, []) (λ _, []).
Definition mem_dialed : mem_sys :=
  mkMsys (connect_send 0 mem_address (my_mem mem_bound)).1 [mem_listener] [] (<[3%nat := mem_local]> ∅) (λ _, []) (λ _, []).
Definition mem_accepted : mem_sys :=
  mkMsys (listener_poll_next mem_listener (my_mem mem_dialed)).1 [mem_listener] []
    (<[2%nat := mem_remote]> (my_sockets mem_dialed)) (λ _, []) (λ _, []).
Definition mem_sent : mem_sys :=
  mkMsys (set_pipe 2 (mkPipe [mem_bytes] false false) (my_mem mem_accepted)) [mem_listener] [] (my_sockets mem_accepted)
    (add_at (λ _, []) 2 mem_bytes) (λ _, []).
Definition mem_read : mem_sys :=
  mkMsys (set_pipe 2 (mkPipe [] false false) (my_mem mem_sent)) [mem_listener] []
    (<[2%nat := mkSocket 3 2 [byte_of 2]]> (my_sockets mem_sent)) (my_wrote mem_sent) (add_at (λ _, []) 2 [byte_of 1]).

Lemma mem_memory_run : rtc m_step memory_start mem_read.
Proof.
  apply (rtc_l _ _ mem_bound).
  { apply (mt_bind memory_start 9 mem_address _ mem_address mem_listener). by vm_compute. }
  eapply rtc_l; [apply (mt_lookup mem_bound mem_address (my_mem mem_bound) 0); by vm_compute|].
  apply (rtc_l _ _ mem_dialed).
  { apply (mt_send (mkMsys (my_mem mem_bound) [mem_listener] [(0%nat, mem_address)] ∅ _ _) [] 0 mem_address [] _ mem_address mem_local);
      [done|by vm_compute]. }
  apply (rtc_l _ _ mem_accepted).
  { apply (mt_accept mem_dialed mem_listener _ [] mem_remote); [set_solver|by vm_compute]. }
  apply (rtc_l _ _ mem_sent).
  { apply (mt_write mem_accepted 3 mem_local mem_bytes _ (Ready (inr 2))); by vm_compute. }
  apply (rtc_once mem_sent mem_read). apply (mt_read mem_sent 2 mem_remote 1 _ _ (Ready (inr [byte_of 1]))); by vm_compute.
Qed.

Lemma memory_bytes_in_order_witness :
  (∃ c, mm_pipes (my_mem mem_read) !! 2%nat = Some c ∧
     mem_bytes = [byte_of 1] ++ [byte_of 2] ++ concat (recv_queue c)) ∧
  (∀ n, memory_read n (mkSocket 3 2 [byte_of 2]) (my_mem mem_read) ≠ None).
Proof.
  destruct (memory_bytes_in_order mem_read 2 (mkSocket 3 2 [byte_of 2]) mem_memory_run ltac:(by vm_compute)) as (H1 & _ & H3 & _).
  split; [exact H1|exact H3].
Defined.
