(* ===== verification/WsStream.v ===== *)
(** * The stream over a websocket ([tentacle/tentacle/src/transports/ws.rs])

    [WsStream] turns the messages of a websocket into a stream of bytes: a write is one binary
    message, a read takes the next one and keeps what does not fit, pings are answered by pongs,
    and a shutdown sends a close message. The websocket of [tokio_tungstenite] is an interface. *)

From Stdlib Require Import ZArith Lia Bool.
From stdpp Require Import base list sets relations.
From S2P Require Import Prelude Tentacle.

Open Scope Z_scope.

(** [tungstenite::Message]; the frame of a close message is not looked at. *)
Inductive Message :=
| WsText (data : bytes) | WsBinary (data : bytes) | WsPing (data : bytes) | WsPong (data : bytes)
| WsClose.

#[export] Instance Message_eq_dec : EqDecision Message.
Proof. solve_decision. Defined.

(** [WebSocketStream<TcpStream>] as a sink and a stream of messages with errors [WE]. The last
    three are ghost: the messages it accepted, those it yielded, and whether it will wake the task
    that polled it for a message. *)
Class WebSocket (T WE : Type) := {
  wk_poll_ready : T → T * Poll (WE + unit);
  wk_start_send : T → Message → T * (WE + unit);
  wk_poll_flush : T → T * Poll (WE + unit);
  wk_poll_close : T → T * Poll (WE + unit);
  wk_poll_next : T → T * Poll (option (WE + Message));
  wk_sent : T → list Message;
  wk_received : T → list Message;
  wk_armed : T → bool;
}.
#[global] Hint Mode WebSocket ! - : typeclass_instances.

Definition wk_view `{WebSocket T WE} (t t' : T) : Prop :=
  wk_sent t' = wk_sent t ∧ wk_received t' = wk_received t.

(** A message is sent when [start_send] accepts it and received when [poll_next] yields it, and
    a task that is told to wait for a message is woken. *)
Class WebSocketLaws (T WE : Type) `{W : WebSocket T WE} : Prop := {
  wk_ready_view : ∀ t : T, wk_view t (wk_poll_ready t).1;
  wk_flush_view : ∀ t : T, wk_view t (wk_poll_flush t).1;
  wk_close_view : ∀ t : T, wk_view t (wk_poll_close t).1;
  wk_start_view : ∀ (t t' : T) m r, wk_start_send t m = (t', r) →
    wk_received t' = wk_received t ∧
    wk_sent t' = match r with inr _ => wk_sent t ++ [m] | inl _ => wk_sent t end;
  wk_next_view : ∀ (t t' : T) r, wk_poll_next t = (t', r) →
    wk_sent t' = wk_sent t ∧
    wk_received t' = match r with Ready (Some (inr m)) => wk_received t ++ [m] | _ => wk_received t end;
  wk_next_armed : ∀ (t t' : T), wk_poll_next t = (t', Pending) → wk_armed t' = true;
}.

Record WsStream (T : Type) := mkWs {
  ws_inner : T;
  ws_recv_buf : bytes;
  ws_pending_ping : option bytes;
  ws_already_send_close : bool;
}.
Arguments mkWs {T} _ _ _ _.
Arguments ws_inner {T} _.
Arguments ws_recv_buf {T} _.
Arguments ws_pending_ping {T} _.
Arguments ws_already_send_close {T} _.

(** ** The methods *)

Section Methods.
Context {T WE : Type} `{W : WebSocket T WE}.

Abbreviation S_ := (WsStream T).
Abbreviation IO := (M S_ ErrorKind) (only parsing).

Definition put_inner (t : T) (s : S_) : S_ :=
  mkWs t (ws_recv_buf s) (ws_pending_ping s) (ws_already_send_close s).
Definition put_recv (b : bytes) (s : S_) : S_ :=
  mkWs (ws_inner s) b (ws_pending_ping s) (ws_already_send_close s).
Definition put_ping (p : option bytes) (s : S_) : S_ :=
  mkWs (ws_inner s) (ws_recv_buf s) p (ws_already_send_close s).
Definition put_closed (s : S_) : S_ :=
  mkWs (ws_inner s) (ws_recv_buf s) (ws_pending_ping s) true.

Definition WsStream_new (inner : T) : S_ := mkWs inner [] None false.

(** A poll of the websocket; every error becomes [BrokenPipe]. *)
Definition with_inner (p : T → T * Poll (WE + unit)) : IO (Poll unit) := λ s,
  match p (ws_inner s) with
  | (t, Ready (inl _)) => (put_inner t s, RErr KBrokenPipe)
  | (t, Ready (inr _)) => (put_inner t s, ROk (Ready tt))
  | (t, Pending) => (put_inner t s, ROk Pending)
  end.

(** What [respond_ping], [poll_write] and [poll_shutdown] share: when the sink is ready the
    message is handed over, and flushed as far as it goes. *)
Definition send_message (m : Message) : IO (Poll unit) :=
  ready ← with_inner wk_poll_ready;
  match ready with
  | Pending => mret Pending
  | Ready _ =>
      _ ← with_inner (λ t, let '(t', r) := wk_start_send t m in (t', Ready r));
      _ ← with_inner wk_poll_flush;
      mret (Ready tt)
  end.

Definition respond_ping : IO unit :=
  closed ← gets ws_already_send_close;
  if (closed : bool) then mret tt else
  ping ← gets ws_pending_ping;
  _ ← modify (put_ping None);
  match ping with
  | Some data =>
      sent ← send_message (WsPong data);
      match sent with
      | Ready _ => mret tt
      | Pending => modify (put_ping (Some data))
      end
  | None => mret tt
  end.

(** The bytes put into a buffer with room for [remaining]. *)
Definition ws_drain (remaining : Z) : IO bytes := λ s,
  if is_empty (ws_recv_buf s) then (s, ROk []) else
  let n := Z.min remaining (len (ws_recv_buf s)) in
  (put_recv (drop (Z.to_nat n) (ws_recv_buf s)) s, ROk (take (Z.to_nat n) (ws_recv_buf s))).

(** The payload of a message that was read. *)
Definition accept_message (m : Message) : IO bytes :=
  match m with
  | WsBinary data => mret data
  | WsClose => throw KBrokenPipe
  | WsPing data => _ ← modify (put_ping (Some data)); _ ← respond_ping; mret []
  | WsPong _ => mret []
  | WsText _ => mret []
  end.

Definition ws_poll_read (remaining : Z) : IO (Poll bytes) :=
  _ ← respond_ping;
  copied ← ws_drain remaining;
  if 0 <? len copied then mret (Ready copied) else
  next ← (λ s, let '(t, p) := wk_poll_next (ws_inner s) in (put_inner t s, ROk p));
  match next with
  | Ready (Some (inr t)) =>
      data ← accept_message t;
      if is_empty data then mret Pending
      else if len data <=? remaining then mret (Ready data)
      else
        _ ← modify (put_recv data);
        out ← ws_drain remaining;
        mret (Ready out)
  | Ready (Some (inl _)) => throw KBrokenPipe
  | Ready None => throw KBrokenPipe
  | Pending => mret Pending
  end.

Definition ws_poll_write (buf : bytes) : IO (Poll Z) :=
  closed ← gets ws_already_send_close;
  if (closed : bool) then throw KBrokenPipe else
  _ ← respond_ping;
  sent ← send_message (WsBinary buf);
  match sent with
  | Ready _ => mret (Ready (len buf))
  | Pending => mret Pending
  end.

Definition ws_poll_flush : IO (Poll unit) := with_inner wk_poll_flush.

Definition ws_poll_shutdown : IO (Poll unit) :=
  closed ← gets ws_already_send_close;
  if (closed : bool) then with_inner wk_poll_close else
  sent ← send_message WsClose;
  match sent with
  | Ready _ => _ ← modify put_closed; with_inner wk_poll_close
  | Pending => mret Pending
  end.

End Methods.

(** ** What the messages of a websocket mean *)

Definition payload (m : Message) : bytes := match m with WsBinary data => data | _ => [] end.
Definition binary (ms : list Message) : bytes := concat (payload <$> ms).
Definition pings : list Message → list bytes := omap (λ m, match m with WsPing d => Some d | _ => None end).
Definition pongs : list Message → list bytes := omap (λ m, match m with WsPong d => Some d | _ => None end).

Lemma binary_app a b : binary (a ++ b) = binary a ++ binary b.
Proof. unfold binary. by rewrite fmap_app, concat_app. Qed.
Lemma binary_snoc a m : binary (a ++ [m]) = binary a ++ payload m.
Proof. rewrite binary_app. unfold binary. cbn. by rewrite app_nil_r. Qed.
Lemma pings_snoc a m : pings (a ++ [m]) = pings a ++ match m with WsPing d => [d] | _ => [] end.
Proof. unfold pings. rewrite omap_app. by destruct m. Qed.
Lemma pongs_snoc a m : pongs (a ++ [m]) = pongs a ++ match m with WsPong d => [d] | _ => [] end.
Proof. unfold pongs. rewrite omap_app. by destruct m. Qed.

(** A stream with what was written to it, what was read from it, and whether a call failed. *)
Record wsys (T : Type) := mkWsys {
  wy_stream : WsStream T;
  wy_written : bytes;
  wy_read : bytes;
  wy_failed : bool;
}.
Arguments mkWsys {T} _ _ _ _.
Arguments wy_stream {T} _.
Arguments wy_written {T} _.
Arguments wy_read {T} _.
Arguments wy_failed {T} _.

Definition fails {A} (r : res ErrorKind A) : bool := match r with ROk _ => false | _ => true end.
Definition read_by (r : res ErrorKind (Poll bytes)) : bytes := match r with ROk (Ready b) => b | _ => [] end.
Definition written_by (buf : bytes) (r : res ErrorKind (Poll Z)) : bytes :=
  match r with ROk (Ready n) => take (Z.to_nat n) buf | _ => [] end.

Section Runs.
Context {T WE : Type} `{W : WebSocket T WE}.

(** A read has room, or nothing is buffered (a read without room while bytes are buffered loses
    them: [ws_empty_read_drops_buffer]). *)
Definition ws_has_room (n : Z) (s : WsStream T) : Prop := 0 <= n ∧ (0 < n ∨ ws_recv_buf s = []).

(** A task reads, writes, flushes and shuts down, in any order and whatever the calls answer,
    but does not read without room while bytes are buffered. *)
Inductive ws_step : wsys T → wsys T → Prop :=
| step_read s w r f n s' a : ws_has_room n s → ws_poll_read n s = (s', a) →
    ws_step (mkWsys s w r f) (mkWsys s' w (r ++ read_by a) (f || fails a))
| step_write s w r f buf s' a : ws_poll_write buf s = (s', a) →
    ws_step (mkWsys s w r f) (mkWsys s' (w ++ written_by buf a) r (f || fails a))
| step_flush s w r f s' a : ws_poll_flush s = (s', a) →
    ws_step (mkWsys s w r f) (mkWsys s' w r (f || fails a))
| step_shutdown s w r f s' a : ws_poll_shutdown s = (s', a) →
    ws_step (mkWsys s w r f) (mkWsys s' w r (f || fails a)).

Definition ws_start (t : T) : wsys T := mkWsys (WsStream_new t) [] [] false.
Definition fresh_socket (t : T) : Prop := wk_sent t = [] ∧ wk_received t = [].

Definition sent_of (y : wsys T) : list Message := wk_sent (ws_inner (wy_stream y)).
Definition received_of (y : wsys T) : list Message := wk_received (ws_inner (wy_stream y)).

(** *** The effect of sending *)

Context `{WL : !WebSocketLaws T WE}.

(** From [s] to [s'] only the messages [l] were sent. *)
Definition only_sends (s s' : WsStream T) (l : list Message) : Prop :=
  ws_recv_buf s' = ws_recv_buf s ∧ ws_already_send_close s' = ws_already_send_close s ∧
  wk_received (ws_inner s') = wk_received (ws_inner s) ∧
  wk_sent (ws_inner s') = wk_sent (ws_inner s) ++ l.

Lemma only_sends_trans s1 s2 s3 l1 l2 : only_sends s1 s2 l1 → only_sends s2 s3 l2 → only_sends s1 s3 (l1 ++ l2).
Proof. intros (A1&A2&A3&A4) (B1&B2&B3&B4). split_and!; try congruence. by rewrite B4, A4, <- app_assoc. Qed.

Lemma with_inner_sends (p : T → T * Poll (WE + unit)) s s' a : (∀ t, wk_view t (p t).1) → with_inner p s = (s', a) →
  only_sends s s' [] ∧ ws_pending_ping s' = ws_pending_ping s ∧ a ≠ RPanic.
Proof.
  intros HV. unfold with_inner. destruct (HV (ws_inner s)) as [V1 V2].
  destruct (p (ws_inner s)) as [t [[e|[]]|]]; cbn in V1, V2; intros [= <- <-];
    unfold only_sends; cbn; rewrite app_nil_r; done.
Qed.

Lemma start_sends m s s' a :
  with_inner (λ t, let '(t', r) := wk_start_send t m in (t', Ready r)) s = (s', a) →
  (a = ROk (Ready tt) ∧ only_sends s s' [m] ∨ a = RErr KBrokenPipe ∧ only_sends s s' []) ∧
  ws_pending_ping s' = ws_pending_ping s.
Proof.
  unfold with_inner. destruct (wk_start_send (ws_inner s) m) as [t r] eqn:E1.
  apply wk_start_view in E1 as [V1 V2].
  destruct r as [e|[]]; intros [= <- <-]; unfold only_sends; cbn; rewrite ?app_nil_r; naive_solver.
Qed.

(** A message is sent when the call is [Ready], not sent when it is [Pending]; a failing call
    may have sent it. *)
Lemma send_message_spec m s s' a : send_message m s = (s', a) →
  ws_pending_ping s' = ws_pending_ping s ∧
  (a = ROk (Ready tt) ∧ only_sends s s' [m] ∨ a = ROk Pending ∧ only_sends s s' [] ∨
   fails a = true ∧ a ≠ RPanic ∧ (only_sends s s' [] ∨ only_sends s s' [m])).
Proof.
  unfold send_message, mbind, M_bind.
  destruct (with_inner wk_poll_ready s) as [s1 r1] eqn:E1.
  apply with_inner_sends in E1 as (O1&P1&N1); [|apply wk_ready_view].
  destruct r1 as [[[]|]|e|]; [|intros [= <- <-]; naive_solver..].
  destruct (with_inner _ s1) as [s2 r2] eqn:E2. apply start_sends in E2 as [[[-> O2]|[-> O2]] P2];
    pose proof (only_sends_trans _ _ _ _ _ O1 O2) as O12; [|intros [= <- <-]; naive_solver congruence].
  destruct (with_inner wk_poll_flush s2) as [s3 r3] eqn:E3.
  apply with_inner_sends in E3 as (O3&P3&N3); [|apply wk_flush_view].
  pose proof (only_sends_trans _ _ _ _ _ O12 O3) as O13. cbn in O13.
  destruct r3 as [p|e|]; intros [= <- <-]; (split; [congruence|naive_solver]).
Qed.

(** At most the pending ping is answered; a ping is kept only when nothing was sent. *)
Lemma respond_ping_spec s s' a : respond_ping s = (s', a) →
  a ≠ RPanic ∧ ∃ l, only_sends s s' l ∧
  (l = [] ∧ (ws_pending_ping s' = ws_pending_ping s ∨ ws_pending_ping s' = None) ∨
   ∃ d, l = [WsPong d] ∧ ws_already_send_close s = false ∧ ws_pending_ping s = Some d ∧ ws_pending_ping s' = None).
Proof.
  assert (only_sends s s []) as R by (unfold only_sends; rewrite app_nil_r; done).
  unfold respond_ping, gets, modify, mbind, M_bind.
  destruct (ws_already_send_close s) eqn:EC; [intros [= <- <-]; naive_solver|].
  destruct (ws_pending_ping s) as [d|] eqn:EP.
  - destruct (send_message (WsPong d) (put_ping None s)) as [s1 r1] eqn:E1.
    apply send_message_spec in E1 as (P1&H1). cbn in P1.
    assert (∀ l, only_sends (put_ping None s) s1 l → only_sends s s1 l) as Hl by (intros l; exact id).
    destruct H1 as [(->&O1)|[(->&O1)|(F1&N1&O1)]].
    + intros [= <- <-]. split; [done|]. exists [WsPong d]. naive_solver.
    + intros [= <- <-]. split; [done|]. exists []. split; [exact O1|]. naive_solver.
    + destruct r1 as [p|e|]; [done| |done]. intros [= <- <-]. split; [done|].
      destruct O1 as [O1|O1]; eexists; (split; [exact (Hl _ O1)|]); [left|right]; eauto 7.
  - intros [= <- <-]. split; [done|]. exists []. split; [exact R|]. naive_solver.
Qed.

(** *** The invariant *)

(** Nothing follows a close message. *)
Definition close_last (closed : bool) (sent : list Message) : Prop :=
  if closed then ∃ l, sent = l ++ [WsClose] ∧ WsClose ∉ l else WsClose ∉ sent.

(** What was read is what was received but for the buffered rest; the pongs sent and the ping
    that waits for its pong are some of the pings received, in their order; what was sent is what
    was written, unless a call failed. *)
Definition stream_inv (w r : bytes) (f : bool) (s : WsStream T) : Prop :=
  r ++ ws_recv_buf s = binary (wk_received (ws_inner s)) ∧
  (pongs (wk_sent (ws_inner s)) ++ option_list (ws_pending_ping s)) `sublist_of` pings (wk_received (ws_inner s)) ∧
  (f = false → binary (wk_sent (ws_inner s)) = w ∧ close_last (ws_already_send_close s) (wk_sent (ws_inner s))).

Lemma respond_ping_keeps w r f : keeps (stream_inv w r f) respond_ping.
Proof.
  intros s (I1&I2&I3). destruct (respond_ping s) as [s' a] eqn:E1.
  apply respond_ping_spec in E1 as (_&l&(O1&O2&O3&O4)&HL). cbn. unfold stream_inv.
  rewrite O1, O2, O3, O4. split; [done|].
  destruct HL as [(->&HP)|(d&->&EC&EP&EP')].
  - rewrite app_nil_r. split; [|done]. destruct HP as [-> | ->]; [done|].
    cbn. rewrite app_nil_r. etrans; [|exact I2]. by apply sublist_inserts_r.
  - rewrite EP, EC in *. rewrite EP'. cbn in *. rewrite pongs_snoc, binary_snoc, !app_nil_r.
    split; [exact I2|]. intros Hf. destruct (I3 Hf) as [I4 I5]. split; [done|].
    cbn in I5 |- *. set_solver.
Qed.

Lemma respond_ping_no_panic (s : WsStream T) : (respond_ping s).2 ≠ RPanic.
Proof. destruct (respond_ping s) as [s' a] eqn:E1. by apply respond_ping_spec in E1 as [? _]. Qed.

(** Draining hands out a part of the buffer, and something when there is room and something. *)
Lemma drain_spec n (s : WsStream T) : 0 <= n → ∃ s' out, ws_drain n s = (s', ROk out) ∧
  out ++ ws_recv_buf s' = ws_recv_buf s ∧ s' = put_recv (ws_recv_buf s') s ∧
  (ws_has_room n s → out = [] → ws_recv_buf s = []).
Proof.
  intros Hn. unfold ws_has_room. unfold ws_drain. destruct s as [t [|b buf] p c]; cbn; [by eexists _, []|].
  eexists _, _. split; [done|]. cbn [ws_recv_buf put_recv]. split; [apply take_drop|]. split; [done|].
  intros [_ [Hp|?]] E1; [|done]. apply (f_equal length) in E1. rewrite length_take in E1.
  unfold len in E1. cbn [length] in *. lia.
Qed.

Lemma drain_inv w r f s s' out : out ++ ws_recv_buf s' = ws_recv_buf s → s' = put_recv (ws_recv_buf s') s →
  stream_inv w r f s → stream_inv w (r ++ out) f s'.
Proof. intros H1 H2 (I1&I2&I3). rewrite H2. split; [|done]. cbn. by rewrite <- app_assoc, H1. Qed.

(** Taking a message of the websocket: what it carries is now owed to the reader. *)
Definition taken (w r : bytes) (f : bool) (m : Message) (s : WsStream T) : Prop :=
  stream_inv w (r ++ payload m) f s ∧ ws_recv_buf s = [].

Lemma accept_message_spec w r f m s s' a t :
  wk_poll_next (ws_inner s) = (t, Ready (Some (inr m))) → ws_recv_buf s = [] → stream_inv w r f s →
  accept_message m (put_inner t s) = (s', a) →
  a ≠ RPanic ∧ ws_recv_buf s' = [] ∧ stream_inv w (r ++ payload m) f s' ∧
  (∀ data, a = ROk data → data = payload m) ∧ (fails a = true → payload m = []).
Proof.
  intros E1 EB (I1&I2&I3). apply wk_next_view in E1 as [V1 V2]. rewrite EB, app_nil_r in I1.
  destruct m as [d|d|d|d|]; try (
    intros [= <- <-]; unfold stream_inv; cbn; rewrite V1, V2, EB, binary_snoc, pings_snoc, !app_nil_r;
    naive_solver congruence).
  assert (stream_inv w r f (put_ping (Some d) (put_inner t s))) as HI.
  { unfold stream_inv. cbn. rewrite V1, V2, EB, binary_snoc, pings_snoc, I1. split_and!; [done| |done].
    apply sublist_app; [|done]. etrans; [|exact I2]. by apply sublist_inserts_r. }
  unfold accept_message, modify, mbind, M_bind.
  pose proof (respond_ping_keeps w r f _ HI) as HK.
  pose proof (respond_ping_no_panic (put_ping (Some d) (put_inner t s))) as HN.
  destruct (respond_ping _) as [s1 a1] eqn:E2. apply respond_ping_spec in E2 as (_&l&(O1&_)&_).
  cbn in HK, HN, O1. rewrite EB in O1.
  destruct a1; [| |done]; intros [= <- <-]; cbn; rewrite app_nil_r; naive_solver.
Qed.

Lemma read_inv w r f n s s' a : ws_has_room n s → stream_inv w r f s → ws_poll_read n s = (s', a) →
  stream_inv w (r ++ read_by a) f s' ∧ a ≠ RPanic.
Proof.
  intros Hroom HI. unfold ws_poll_read, mbind, M_bind. pose proof (proj1 Hroom) as Hn.
  pose proof (respond_ping_keeps w r f _ HI) as H1. pose proof (respond_ping_no_panic s) as N1.
  destruct (respond_ping s) as [s1 a1] eqn:E0. apply respond_ping_spec in E0 as (_&l&(O1&_)&_).
  assert (ws_has_room n s1) as Hroom1 by (unfold ws_has_room; by rewrite O1). clear Hroom.
  destruct a1 as [[]|e|]; [| |done]; cbn in H1;
    [|intros [= <- <-]; cbn; rewrite app_nil_r; done].
  destruct (drain_spec n s1 Hn) as (s2&out&->&D1&D2&D3). specialize (D3 Hroom1).
  pose proof (drain_inv _ _ _ _ _ _ D1 D2 H1) as H2.
  case_match eqn:EL; [intros [= <- <-]; done|].
  assert (out = []) as -> by (destruct out; [done|]; autorewrite with plen in EL; pose proof (len_nonneg out); lia).
  specialize (D3 eq_refl). rewrite D3 in D1. rewrite app_nil_r in H2. clear D2 D3 H1.
  destruct (wk_poll_next (ws_inner s2)) as [t p] eqn:E3.
  assert (stream_inv w r f (put_inner t s2) ∨ ∃ m, p = Ready (Some (inr m))) as HP.
  { pose proof (wk_next_view _ _ _ E3) as [V1 V2]. destruct H2 as (I1&I2&I3).
    destruct p as [[[e|m]|]|]; [|by right; exists m|..]; left; unfold stream_inv; cbn;
      rewrite V1, V2; done. }
  destruct p as [[[e|m]|]|]; try (
    intros [= <- <-]; cbn; rewrite app_nil_r; destruct HP as [HP|[m [=]]]; done).
  destruct (accept_message m (put_inner t s2)) as [s3 a3] eqn:E4.
  destruct (accept_message_spec _ _ _ _ _ _ _ _ E3 D1 H2 E4) as (N4&B4&I4&P4&F4).
  destruct a3 as [data|e|]; [|intros [= <- <-]; cbn; rewrite F4, app_nil_r in *; done|done].
  rewrite (P4 data eq_refl). case_match eqn:EE.
  { destruct (payload m); [|done]. intros [= <- <-]. done. }
  case_match; [intros [= <- <-]; done|].
  unfold modify. destruct (drain_spec n (put_recv (payload m) s3) Hn) as (s4&out&->&D4&D5&_).
  intros [= <- <-]. cbn. split; [|done]. destruct I4 as (J1&J2&J3).
  rewrite B4, app_nil_r in J1. cbn in D4. rewrite D5.
  split_and!; cbn; [|done..]. by rewrite <- app_assoc, D4.
Qed.

(** Sending a message that is not a pong leaves the first two parts alone. *)
Lemma send_keeps_reader w r f m s s' a : pongs [m] = [] → stream_inv w r f s → send_message m s = (s', a) →
  stream_inv w r true s' ∧ ws_already_send_close s' = ws_already_send_close s ∧ a ≠ RPanic ∧
  (a = ROk (Ready tt) → wk_sent (ws_inner s') = wk_sent (ws_inner s) ++ [m]) ∧
  (a = ROk Pending → wk_sent (ws_inner s') = wk_sent (ws_inner s)).
Proof.
  intros Hm (I1&I2&_) E1. apply send_message_spec in E1 as (P1&H1).
  assert (∀ l, only_sends s s' l → pongs l = [] →
    stream_inv w r true s' ∧ ws_already_send_close s' = ws_already_send_close s ∧
    wk_sent (ws_inner s') = wk_sent (ws_inner s) ++ l) as HO.
  { intros l (O1&O2&O3&O4) Hl. split_and!; [|done..]. unfold stream_inv.
    rewrite O1, O3, O4, P1. unfold pongs in *. rewrite omap_app, Hl, app_nil_r. done. }
  destruct H1 as [(->&O)|[(->&O)|(F&N&[O|O])]]; apply HO in O as (K1&K2&K3); try done;
    rewrite ?app_nil_r in K3; naive_solver.
Qed.

Lemma failed_inv w w' r f s : stream_inv w r true s → stream_inv w' r (f || true) s.
Proof. intros (I1&I2&_). rewrite orb_true_r. done. Qed.

Lemma write_inv w r f buf s s' a : stream_inv w r f s → ws_poll_write buf s = (s', a) →
  stream_inv (w ++ written_by buf a) r (f || fails a) s' ∧ a ≠ RPanic.
Proof.
  intros HI. unfold ws_poll_write, gets, mbind, M_bind.
  destruct (ws_already_send_close s) eqn:EC.
  { intros [= <- <-]. split; [|done]. destruct HI as (I1&I2&_). by apply (failed_inv w). }
  pose proof (respond_ping_keeps w r f _ HI) as H1. pose proof (respond_ping_no_panic s) as N1.
  destruct (respond_ping s) as [s1 a1] eqn:E0. apply respond_ping_spec in E0 as (_&l&(_&O2&_)&_).
  rewrite EC in O2. cbn in H1.
  destruct a1 as [[]|e|]; [| |done].
  2:{ intros [= <- <-]. split; [|done]. destruct H1 as (I1&I2&_). by apply (failed_inv w). }
  destruct (send_message (WsBinary buf) s1) as [s2 a2] eqn:E2.
  destruct (send_keeps_reader w r f (WsBinary buf) _ _ _ eq_refl H1 E2) as (K1&K2&K3&K4&K5).
  destruct a2 as [[[]|]|e|]; [| | |done]; intros [= <- <-]; (split; [|done]); cbn;
    [| |by apply (failed_inv w)].
  all: destruct K1 as (J1&J2&_), H1 as (_&_&I3); rewrite orb_false_r; split_and!; [done|done|].
  all: intros Hf; destruct (I3 Hf) as [I4 I5]; rewrite K2, O2 in *; cbn in I5 |- *.
  - rewrite K4, binary_snoc, I4 by done. cbn. unfold len. rewrite Nat2Z.id, firstn_all. split; [done|]. set_solver.
  - rewrite K5, app_nil_r by done. done.
Qed.

Lemma poll_inner_inv (p : T → T * Poll (WE + unit)) w r f s s' a :
  (∀ t, wk_view t (p t).1) → stream_inv w r f s → with_inner p s = (s', a) →
  stream_inv w r (f || fails a) s' ∧ a ≠ RPanic.
Proof.
  intros HV (I1&I2&I3) E1. apply with_inner_sends in E1 as ((O1&O2&O3&O4)&P1&N1); [|done].
  rewrite app_nil_r in O4. unfold stream_inv. rewrite O1, O2, O3, O4, P1. split; [|done]. split_and!; [done..|].
  intros Hf. apply I3. by destruct f.
Qed.

Lemma shutdown_inv w r f s s' a : stream_inv w r f s → ws_poll_shutdown s = (s', a) →
  stream_inv w r (f || fails a) s' ∧ a ≠ RPanic.
Proof.
  intros HI. unfold ws_poll_shutdown, gets, modify, mbind, M_bind.
  destruct (ws_already_send_close s) eqn:EC; [apply poll_inner_inv; [apply wk_close_view|done]|].
  destruct (send_message WsClose s) as [s1 a1] eqn:E1.
  destruct (send_keeps_reader w r f WsClose _ _ _ eq_refl HI E1) as (K1&K2&K3&K4&K5).
  destruct a1 as [[[]|]|e|]; [| | |done].
  - apply poll_inner_inv; [apply wk_close_view|]. destruct K1 as (J1&J2&_), HI as (_&_&I3).
    split_and!; [done|done|]. intros Hf. destruct (I3 Hf) as [I4 I5]. rewrite EC in I5. cbn in I5 |- *.
    rewrite K4, binary_snoc, I4, app_nil_r by done. naive_solver.
  - intros [= <- <-]. split; [|done]. destruct K1 as (J1&J2&_), HI as (_&_&I3). cbn. rewrite orb_false_r.
    split_and!; [done|done|]. intros Hf. rewrite K2, K5 by done. by apply I3.
  - intros [= <- <-]. split; [|done]. by apply (failed_inv w).
Qed.

Definition sys_inv (y : wsys T) : Prop :=
  stream_inv (wy_written y) (wy_read y) (wy_failed y) (wy_stream y).

Lemma ws_step_inv y y' : ws_step y y' → sys_inv y → sys_inv y'.
Proof.
  intros [s w r f n s' a Hn E|s w r f buf s' a E|s w r f s' a E|s w r f s' a E] HI; unfold sys_inv in *; cbn in *.
  - eapply (read_inv _ _ _ n) in E as [(I1&I2&I3) _]; [|done|exact HI]. split_and!; [done..|].
    intros Hf. apply I3. by destruct f.
  - by eapply write_inv in E as [? _].
  - by eapply poll_inner_inv in E as [? _]; [|apply wk_flush_view|].
  - by eapply shutdown_inv in E as [? _].
Qed.

Lemma ws_steps_inv t y : fresh_socket t → rtc ws_step (ws_start t) y → sys_inv y.
Proof.
  intros [F1 F2] HR. assert (sys_inv (ws_start t)) as HI.
  { unfold sys_inv, stream_inv. cbn. rewrite F1, F2. split_and!; [done..|]. intros _. split; [done|]. set_solver. }
  revert HI. induction HR as [|y y1 y2 H1 _ IH]; [done|]. intros HI. by apply IH, (ws_step_inv y).
Qed.

End Runs.

(** ** The theorems *)

(** C38: Bytes cross a websocket in order. One end writes, the other reads, both in any sequence of
    calls that also flush and shut down, with pings, pongs and texts in between. The conditions: no
    end reads without room while bytes are buffered, no call of the writer has failed, and the
    messages that arrived are a prefix of those that were sent. Then the bytes read are a prefix of
    the bytes the writes accepted; when all messages have arrived, they
    are all of them but for the rest that waits in the reader's buffer. *)
Theorem ws_bytes_in_order {T1 WE1 T2 WE2 : Type} `{L1 : WebSocketLaws T1 WE1} `{L2 : WebSocketLaws T2 WE2}
  (t1 : T1) (t2 : T2) (y1 : wsys T1) (y2 : wsys T2) :
  fresh_socket t1 → fresh_socket t2 →
  rtc ws_step (ws_start t1) y1 → rtc ws_step (ws_start t2) y2 → wy_failed y1 = false →
  received_of y2 `prefix_of` sent_of y1 →
  wy_read y2 `prefix_of` wy_written y1 ∧
  (received_of y2 = sent_of y1 → wy_read y2 ++ ws_recv_buf (wy_stream y2) = wy_written y1).
Proof.
  intros F1 F2 R1 R2 HF [k Hk].
  destruct (ws_steps_inv t1 y1 F1 R1) as (_&_&I3), (ws_steps_inv t2 y2 F2 R2) as (J1&_&_).
  destruct (I3 HF) as [I4 _]. unfold received_of, sent_of in *. split.
  - rewrite <- I4, Hk, binary_app, <- J1, <- app_assoc. by apply prefix_app_r.
  - intros E1. by rewrite J1, E1.
Qed.

(** The pongs a websocket stream sends answer pings it received: each at most once, in the
    order of the pings, with the data of the ping, and a pong follows no close message unless a
    call failed: nothing does. *)
Theorem ws_pongs_answer_pings {T WE : Type} `{WL : WebSocketLaws T WE} (t : T) (y : wsys T) :
  fresh_socket t → rtc ws_step (ws_start t) y →
  pongs (sent_of y) `sublist_of` pings (received_of y) ∧
  (wy_failed y = false → ∀ l l', sent_of y = l ++ WsClose :: l' → l' = []).
Proof.
  intros F R. destruct (ws_steps_inv t y F R) as (_&I2&I3). split.
  - etrans; [|exact I2]. by apply sublist_inserts_r.
  - intros HF l l' E1. destruct (I3 HF) as [_ I5]. unfold close_last, sent_of in *.
    destruct (ws_already_send_close _); [|rewrite E1 in I5; set_solver].
    destruct I5 as (k&E2&Hk). rewrite E1 in E2.
    destruct (decide (l' = [])) as [|N]; [done|].
    destruct (exists_last N) as (l2&m&->). rewrite app_comm_cons, app_assoc in E2.
    apply app_inj_tail in E2 as [E2 _]. exfalso. apply Hk. rewrite <- E2. set_solver.
Qed.

(** ** A reference websocket: always ready, with a queue of messages that come in *)

Record WsPipe := mkWsPipe {
  wp_sent : list Message; wp_received : list Message; wp_incoming : list Message; wp_armed : bool;
}.

#[export] Instance WsPipe_socket : WebSocket WsPipe Empty_set := {
  wk_poll_ready t := (t, Ready (inr tt));
  wk_start_send t m := (mkWsPipe (wp_sent t ++ [m]) (wp_received t) (wp_incoming t) (wp_armed t), inr tt);
  wk_poll_flush t := (t, Ready (inr tt));
  wk_poll_close t := (t, Ready (inr tt));
  wk_poll_next t :=
    match wp_incoming t with
    | m :: ms => (mkWsPipe (wp_sent t) (wp_received t ++ [m]) ms (wp_armed t), Ready (Some (inr m)))
    | [] => (mkWsPipe (wp_sent t) (wp_received t) [] true, Pending)
    end;
  wk_sent := wp_sent;
  wk_received := wp_received;
  wk_armed := wp_armed;
}.

#[export] Instance WsPipe_laws : WebSocketLaws WsPipe Empty_set.
Proof.
  split; try done.
  - intros t t' m r [= <- <-]. done.
  - intros [s r [|m ms] a] t' p; cbn; intros [= <- <-]; done.
  - intros [s r [|m ms] a] t'; cbn; intros [= <-]; done.
Qed.

Definition hello : bytes := [byte_of 104; byte_of 105].
Definition ws_idle (incoming : list Message) : WsPipe := mkWsPipe [] [] incoming false.

(** A writer of two messages, and a reader of the first that sees a ping and has room for a byte. *)
Definition ws_writer : wsys WsPipe :=
  mkWsys (mkWs (mkWsPipe [WsBinary hello; WsBinary hello] [] [] false) [] None false) (hello ++ hello) [] false.
Definition ws_reader : wsys WsPipe :=
  mkWsys (mkWs (mkWsPipe [] [WsBinary hello] [WsBinary hello] false) [byte_of 105] None false) [] [byte_of 104] false.

Lemma ws_bytes_in_order_witness :
  wy_read ws_reader `prefix_of` wy_written ws_writer ∧
  (received_of ws_reader = sent_of ws_writer →
   wy_read ws_reader ++ ws_recv_buf (wy_stream ws_reader) = wy_written ws_writer).
Proof.
  apply (ws_bytes_in_order (ws_idle []) (ws_idle [WsBinary hello; WsBinary hello]) ws_writer ws_reader).
  - done.
  - done.
  - eapply rtc_l; [by eapply (step_write _ _ _ _ hello)|].
    eapply rtc_l; [by eapply (step_write _ _ _ _ hello)|]. apply rtc_refl.
  - eapply rtc_l; [by eapply (step_read _ _ _ _ 1); [split; [|left]|]|]. apply rtc_refl.
  - done.
  - by exists [WsBinary hello].
Defined.

Definition ws_pinged : wsys WsPipe :=
  mkWsys (mkWs (mkWsPipe [WsPong hello; WsClose] [WsPing hello] [] false) [] None true) [] [] false.

Lemma ws_pongs_answer_pings_witness :
  pongs (sent_of ws_pinged) `sublist_of` pings (received_of ws_pinged) ∧
  (wy_failed ws_pinged = false → ∀ l l', sent_of ws_pinged = l ++ WsClose :: l' → l' = []).
Proof.
  apply (ws_pongs_answer_pings (ws_idle [WsPing hello]) ws_pinged); [done|].
  eapply rtc_l; [by eapply (step_read _ _ _ _ 1); [split; [|left]|]|].
  eapply rtc_l; [by eapply step_shutdown|]. apply rtc_refl.
Defined.

(** ** Findings *)

(** A read that takes a ping, a pong, a text or an empty message from the websocket answers
    [Pending] without asking for the next message, so no wake-up is registered: with a message of
    data queued behind a ping, the reader waits and nothing will wake it. *)
Theorem ws_read_after_ping_not_woken (m : Message) (data : bytes) (n : Z) :
  payload m = [] → m ≠ WsClose → 0 < n →
  let '(s, r) := ws_poll_read n (WsStream_new (ws_idle [m; WsBinary data])) in
  r = ROk Pending ∧ wk_armed (ws_inner s) = false ∧ wp_incoming (ws_inner s) = [WsBinary data].
Proof. intros HP HC Hn. destruct m as [d|[|b d]|d|d|]; try done. Qed.

Lemma ws_read_after_ping_not_woken_witness :
  let '(s, r) := ws_poll_read 4 (WsStream_new (ws_idle [WsPing hello; WsBinary hello])) in
  r = ROk Pending ∧ wk_armed (ws_inner s) = false ∧ wp_incoming (ws_inner s) = [WsBinary hello].
Proof. by apply (ws_read_after_ping_not_woken (WsPing hello) hello 4). Defined.

(** A read into a buffer without room while bytes are buffered takes the next message in
    their place: the buffered bytes are lost, and the read answers as if it had read. *)
Theorem ws_empty_read_drops_buffer (b : byte) (old data : bytes) :
  let s := mkWs (mkWsPipe [] [] [WsBinary (b :: data)] false) old None false in
  let '(s', r) := ws_poll_read 0 s in
  r = ROk (Ready []) ∧ ws_recv_buf s' = b :: data.
Proof. destruct old as [|c old]; cbn; rewrite ?Z.min_l by apply len_nonneg; done. Qed.
