(* ===== verification/Transports.v ===== *)
(** * Transports over the network ([tentacle/tentacle/src/transports], [utils/dns.rs], [runtime])

    Dialing and listening over TCP, websockets and TLS, with names that are resolved first, and the
    choice among the transports. The operating system, the resolver and the handshakes of
    [tungstenite] and [rustls] are interfaces, whose operations take time and may never end. *)

From Stdlib Require Import ZArith Lia Bool.
From Stdlib Require Import Strings.String.
From stdpp Require Import base list.
From S2P Require Import Prelude Text Multiaddr MultiaddrProofs SecioHandshake PeerId Tentacle MemoryTransport Utils.

Open Scope Z_scope.

(** ** Futures that take time *)

(** An [async] computation: after how much time it ends and with what, or that it never ends. *)
Inductive Async (E A : Type) := Done (time : Z) (r : res E A) | Never.
Arguments Done {E A} time r.
Arguments Never {E A}.

#[export] Instance Async_ret E : MRet (Async E) := λ A a, Done 0 (ROk a).
#[export] Instance Async_bind E : MBind (Async E) := λ A B k c,
  match c with
  | Done t (ROk a) => match k a with Done t' r => Done (t + t') r | Never => Never end
  | Done t (RErr e) => Done t (RErr e)
  | Done t RPanic => Done t RPanic
  | Never => Never
  end.

Definition fail {E A} (e : E) : Async E A := Done 0 (RErr e).
(** A result that is there at once, and [fut.map_err(f)]. *)
Definition now {E A} (r : res E A) : Async E A := Done 0 r.
Definition map_err {E E' A} (f : E → E') (c : Async E A) : Async E' A :=
  match c with
  | Done t (ROk a) => Done t (ROk a)
  | Done t (RErr e) => Done t (RErr (f e))
  | Done t RPanic => Done t RPanic
  | Never => Never
  end.

(** [timeout(d, fut).await]: [inl tt] is [Elapsed]. *)
Definition timeout {E E' A} (d : Z) (c : Async E A) : Async E' (unit + (E + A)) :=
  match c with
  | Done t r =>
      if t <=? d then Done t match r with ROk a => ROk (inr (inr a)) | RErr e => ROk (inr (inl e)) | RPanic => RPanic end
      else Done d (ROk (inl tt))
  | Never => Done d (ROk (inl tt))
  end.

(** [Result<T, E>] of a call that does not wait. *)
Definition of_sum {E A} (x : E + A) : res E A := match x with inl e => RErr e | inr a => ROk a end.
(** The iterator of an address panics where a component cannot be read, and returns no error. *)
Definition or_panics {E A} (r : res MaError A) : res E A := match r with ROk a => ROk a | _ => RPanic end.

(** ** The outside *)

(** [io::Error] of the operating system, with its number. *)
Record OsError := mkOsError { oe_kind : ErrorKind; oe_raw : option Z }.

(** [socket2] and [tokio::net]. *)
Class Os (Raw TL TS : Type) := {
  os_socket : IpAddr → ErrorKind + Raw;
  os_set_reuse_address : Raw → ErrorKind + Raw;
  os_set_nonblocking : Raw → ErrorKind + Raw;
  os_bind : Raw → SocketAddr → Raw * option OsError;
  os_listen : Raw → Z → ErrorKind + TL;
  os_local_addr : TL → ErrorKind + SocketAddr;
  os_connect : Raw → SocketAddr → Async ErrorKind TS;
}.
#[global] Hint Mode Os - - - : typeclass_instances.

(** [(&domain[..], port).to_socket_addrs()], run on a thread of its own: it gives the first
    element of the list that [next] of the iterator yields, and the rest. *)
Class Resolver := to_socket_addrs : bytes → Z → Async ErrorKind (list SocketAddr).

(** [tungstenite::Error], as far as it is told apart. *)
Inductive WsError := WsIo (e : ErrorKind) | WsOther.

(** [client_async_with_config(url, tcp, None)] with [WsStream::new] of the result. *)
Class WsClient (TS W : Type) := ws_client : bytes → TS → Async WsError W.

(** [ServerName::try_from] and [TlsConnector::connect]. *)
Class TlsClient (CC TS X : Type) := {
  server_name_ok : bytes → bool;
  tls_client : CC → bytes → TS → Async ErrorKind X;
}.

(** [TcpSocketConfig]: what the user does with a socket before it is used. *)
Definition TcpSocketConfig (Raw : Type) : Type := Raw → ErrorKind + Raw.

Section Transports.
Context {Raw TL TS W X CC SC WCh XCh : Type}.
Context `{OS : Os Raw TL TS} `{RS : Resolver} `{WC : WsClient TS W} `{TLC : TlsClient CC TS X}.
Context `{NW : NewPipe WCh} `{NX : NewPipe XCh}.
Context `{V : Varint} `{TC : TextCodecs} `{PR : Primitives}.

Abbreviation TE := TransportErrorKind.

(** The listeners of websockets and TLS: connections are accepted, the handshake of each runs in a
    task, and the streams that are ready come through a channel. *)
Record HandshakeListener (C Cfg : Type) := mkHsListener {
  hl_inner : TL;
  hl_timeout : Z;
  hl_channel : C;
  hl_config : Cfg;
}.
Arguments mkHsListener {C Cfg} _ _ _ _.

(** ** The runtime ([runtime/tokio_runtime.rs]) *)

Definition EINVAL : Z := 22.

Definition listen (addr : SocketAddr) (tcp_config : TcpSocketConfig Raw) : res ErrorKind TL :=
  socket ← of_sum (os_socket (sa_ip addr));
  socket ← of_sum (os_set_reuse_address socket);
  t ← of_sum (tcp_config socket);
  t ← of_sum (os_set_nonblocking t);
  let '(socket, e) := os_bind t addr in
  match e with
  | Some e => if bool_decide (oe_raw e = Some EINVAL) then of_sum (os_listen socket 1024) else RErr (oe_kind e)
  | None => of_sum (os_listen socket 1024)
  end.

Definition connect (addr : SocketAddr) (tcp_config : TcpSocketConfig Raw) : Async ErrorKind TS :=
  socket ← now (of_sum (os_socket (sa_ip addr)));
  t ← now (of_sum (tcp_config socket));
  t ← now (of_sum (os_set_nonblocking t));
  os_connect t addr.

(** ** Shared by the transports ([transports/mod.rs]) *)

Definition tcp_listen (addr : SocketAddr) (tcp_config : TcpSocketConfig Raw) : Async TE (SocketAddr * TL) :=
  tcp ← map_err TeIo (now (listen addr tcp_config));
  local ← map_err TeIo (now (of_sum (os_local_addr tcp)));
  mret (local, tcp).

Definition tcp_dial (addr : SocketAddr) (tcp_config : TcpSocketConfig Raw) (timeout_ : Z) : Async TE TS :=
  r ← timeout timeout_ (connect addr tcp_config);
  match r with
  | inl _ => fail (TeIo KTimedOut)
  | inr (inl e) => fail (TeIo e)
  | inr (inr s) => mret s
  end.

(** ** Names ([utils/dns.rs]) *)

Record DnsResolver := mkDns {
  dr_source_address : Multiaddr;
  dr_ty : TransportType;
  dr_peer_id : option bytes;
  dr_port : Z;
  dr_domain : bytes;
  (** When the task was started, and the task. *)
  dr_join_handle : option (Z * Async ErrorKind (list SocketAddr));
}.

Definition dns_of (proto1 proto2 : Protocol) : option (bytes * Z) :=
  match proto1, proto2 with
  | Dns4 domain, Tcp port => Some (domain, port)
  | Dns6 domain, Tcp port => Some (domain, port)
  | _, _ => None
  end.

(** The loop of [new]; a turn consumes a component, so the bytes bound the turns. *)
Fixpoint dns_loop (fuel : nat) (data : bytes) : res MaError (option (bytes * Z)) :=
  match fuel with
  | O => if is_empty data then ROk None else RPanic
  | S fuel' =>
      match iter_next data with
      | None => ROk None
      | Some (ROk proto1, next1) =>
          match proto1 with
          | Dns4 _ | Dns6 _ =>
              match iter_next next1 with
              | None => ROk None
              | Some (ROk proto2, next2) =>
                  match dns_of proto1 proto2 with
                  | Some d => ROk (Some d)
                  | None => dns_loop fuel' next2
                  end
              | Some (_, _) => RPanic
              end
          | _ => dns_loop fuel' next1
          end
      | Some (_, _) => RPanic
      end
  end.

Definition DnsResolver_new (source_address : Multiaddr) : res MaError (option DnsResolver) :=
  o ← dns_loop (length source_address) source_address;
  match o with
  | Some (domain, port) =>
      ty ← find_type source_address;
      peer_id ← extract_peer_id source_address;
      mret (Some (mkDns source_address ty peer_id port domain None))
  | None => mret None
  end.

(** The first address found, with the components the source has behind the port. *)
Definition new_addr (iter : list SocketAddr) (d : DnsResolver) : DnsResolver * res (Multiaddr * ErrorKind) Multiaddr :=
  match iter with
  | address :: _ =>
      let address := socketaddr_to_multiaddr address in
      let address := match dr_ty d with
                     | TtTcp | TtMemory | TtTls => address
                     | TtWs => push address Ws
                     | TtWss => push address Wss
                     end in
      let address := match dr_peer_id d with Some p => push address (P2p p) | None => address end in
      (mkDns (dr_source_address d) (dr_ty d) None (dr_port d) (dr_domain d) (dr_join_handle d), ROk address)
  | [] => (d, RErr (dr_source_address d, KInvalidData))
  end.

Definition set_handle (h : option (Z * Async ErrorKind (list SocketAddr))) (d : DnsResolver) : DnsResolver :=
  mkDns (dr_source_address d) (dr_ty d) (dr_peer_id d) (dr_port d) (dr_domain d) h.

(** [handle.poll] at the time [clock]. *)
Definition handle_poll (clock : Z) (h : Z * Async ErrorKind (list SocketAddr)) : Poll (res ErrorKind (list SocketAddr)) :=
  match h.2 with
  | Done t r => if h.1 + t <=? clock then Ready r else Pending
  | Never => Pending
  end.

(** A task that panicked is a [JoinError]. *)
Definition dns_poll (clock : Z) (d : DnsResolver) : DnsResolver * Poll (res (Multiaddr * ErrorKind) Multiaddr) :=
  let handle := default (clock, to_socket_addrs (dr_domain d) (dr_port d)) (dr_join_handle d) in
  match handle_poll clock handle with
  | Pending => (set_handle (Some handle) d, Pending)
  | Ready (ROk iter) => let '(d', r) := new_addr iter (set_handle None d) in (d', Ready r)
  | Ready (RErr e) => (set_handle None d, Ready (RErr (dr_source_address d, e)))
  | Ready RPanic => (set_handle None d, Ready (RErr (dr_source_address d, KOther)))
  end.

(** The resolver as one future: [dns_future_polls] below relates it to the polls. *)
Definition dns_answer (d : DnsResolver) (r : res ErrorKind (list SocketAddr)) : res (Multiaddr * ErrorKind) Multiaddr :=
  match r with
  | ROk iter => (new_addr iter d).2
  | RErr e => RErr (dr_source_address d, e)
  | RPanic => RErr (dr_source_address d, KOther)
  end.

Definition dns_future (d : DnsResolver) : Async (Multiaddr * ErrorKind) Multiaddr :=
  match to_socket_addrs (dr_domain d) (dr_port d) with
  | Done t r => Done t (dns_answer d r)
  | Never => Never
  end.

(** [dns.map_err(..)] of the transports. *)
Definition dns_address (d : DnsResolver) : Async TE Multiaddr :=
  map_err (λ '(multiaddr, io_error), TeDnsResolverError multiaddr io_error) (dns_future d).

(** ** TCP ([transports/tcp.rs]) *)

Definition tcp_bind (address : Async TE Multiaddr) (tcp_config : TcpSocketConfig Raw) : Async TE (Multiaddr * TL) :=
  addr ← address;
  o ← now (or_panics (multiaddr_to_socketaddr addr));
  match o with
  | Some socket_address =>
      '(local_addr, tcp) ← tcp_listen socket_address tcp_config;
      mret (socketaddr_to_multiaddr local_addr, tcp)
  | None => fail (TeNotSupported addr)
  end.

Definition tcp_connect (address : Async TE Multiaddr) (timeout_ : Z) (original : option Multiaddr)
    (tcp_config : TcpSocketConfig Raw) : Async TE (Multiaddr * TS) :=
  addr ← address;
  o ← now (or_panics (multiaddr_to_socketaddr addr));
  match o with
  | Some socket_address =>
      stream ← tcp_dial socket_address tcp_config timeout_;
      mret (default addr original, stream)
  | None => fail (TeNotSupported (default addr original))
  end.

Record TcpTransport := mkTcpTransport { tt_timeout : Z; tt_tcp_config : TcpSocketConfig Raw }.

Definition tcp_transport_listen (self : TcpTransport) (address : Multiaddr) : res TE (Async TE (Multiaddr * TL)) :=
  dns ← or_panics (DnsResolver_new address);
  mret match dns with
       | Some dns => tcp_bind (dns_address dns) (tt_tcp_config self)
       | None => tcp_bind (mret address) (tt_tcp_config self)
       end.

Definition tcp_transport_dial (self : TcpTransport) (address : Multiaddr) : res TE (Async TE (Multiaddr * TS)) :=
  dns ← or_panics (DnsResolver_new address);
  mret match dns with
       | Some dns => tcp_connect (dns_address dns) (tt_timeout self) (Some address) (tt_tcp_config self)
       | None => tcp_connect (mret address) (tt_timeout self) None (tt_tcp_config self)
       end.

(** ** Websockets ([transports/ws.rs]) *)

Definition WebsocketListener : Type := HandshakeListener WCh unit.
Definition WebsocketListener_new (timeout_ : Z) (listen : TL) : WebsocketListener :=
  mkHsListener listen timeout_ (new_pipe 24) tt.

Definition ws_bind (address : Async TE Multiaddr) (timeout_ : Z) (tcp_config : TcpSocketConfig Raw)
    : Async TE (Multiaddr * WebsocketListener) :=
  addr ← address;
  o ← now (or_panics (multiaddr_to_socketaddr addr));
  match o with
  | Some socket_address =>
      '(addr, tcp) ← tcp_listen socket_address tcp_config;
      mret (push (socketaddr_to_multiaddr addr) Ws, WebsocketListener_new timeout_ tcp)
  | None => fail (TeNotSupported addr)
  end.

(** [Display] of an address, and [format!("ws://{}:{}", ip, port)]. *)
Definition ip_to_string (ip : IpAddr) : bytes :=
  match ip with V4 a b c d => ip4_to_string a b c d | V6 segs => ip6_to_string segs end.
Definition ws_url (a : SocketAddr) : bytes :=
  str "ws://" ++ ip_to_string (sa_ip a) ++ str ":" ++ dec (sa_port a).

Definition ws_connect (address : Async TE Multiaddr) (timeout_ : Z) (original : option Multiaddr)
    (tcp_config : TcpSocketConfig Raw) : Async TE (Multiaddr * W) :=
  addr ← address;
  o ← now (or_panics (multiaddr_to_socketaddr addr));
  match o with
  | Some socket_address =>
      let url := ws_url socket_address in
      tcp ← tcp_dial socket_address tcp_config timeout_;
      r ← timeout timeout_ (ws_client url tcp);
      match r with
      | inl _ => fail (TeIo KTimedOut)
      | inr (inl (WsIo e)) => fail (TeIo e)
      | inr (inl WsOther) => fail (TeIo KConnectionAborted)
      | inr (inr stream) => mret (default addr original, stream)
      end
  | None => fail (TeNotSupported (default addr original))
  end.

Record WsTransport := mkWsTransport { wt_timeout : Z; wt_tcp_config : TcpSocketConfig Raw }.

Definition ws_transport_listen (self : WsTransport) (address : Multiaddr) : res TE (Async TE (Multiaddr * WebsocketListener)) :=
  dns ← or_panics (DnsResolver_new address);
  mret match dns with
       | Some dns => ws_bind (dns_address dns) (wt_timeout self) (wt_tcp_config self)
       | None => ws_bind (mret address) (wt_timeout self) (wt_tcp_config self)
       end.

Definition ws_transport_dial (self : WsTransport) (address : Multiaddr) : res TE (Async TE (Multiaddr * W)) :=
  dns ← or_panics (DnsResolver_new address);
  mret match dns with
       | Some dns => ws_connect (dns_address dns) (wt_timeout self) (Some address) (wt_tcp_config self)
       | None => ws_connect (mret address) (wt_timeout self) None (wt_tcp_config self)
       end.

(** ** TLS ([transports/tls.rs]) *)

(** [TlsConfig]: the configurations of [rustls] for the two sides. *)
Record TlsConfig := mkTlsConfig { tls_server_config : option SC; tls_client_config : option CC }.

Definition TlsListener : Type := HandshakeListener XCh SC.
Definition TlsListener_new (timeout_ : Z) (listen : TL) (tls_config : SC) : TlsListener :=
  mkHsListener listen timeout_ (new_pipe 24) tls_config.

Definition tls_bind (address : Async TE Multiaddr) (timeout_ : Z) (config : TlsConfig) (domain_name : bytes)
    (tcp_config : TcpSocketConfig Raw) : Async TE (Multiaddr * TlsListener) :=
  addr ← address;
  o ← now (or_panics (multiaddr_to_socketaddr addr));
  match o with
  | Some socket_address =>
      '(local_addr, tcp) ← tcp_listen socket_address tcp_config;
      match tls_server_config config with
      | None => fail (TeTlsError (str "server config not found"))
      | Some tls_server_config =>
          mret (push (socketaddr_to_multiaddr local_addr) (Tls domain_name),
                TlsListener_new timeout_ tcp tls_server_config)
      end
  | None => fail (TeNotSupported addr)
  end.

Definition tls_connect (address : Async TE Multiaddr) (timeout_ : Z) (original : option Multiaddr) (config : TlsConfig)
    (domain_name : bytes) (tcp_config : TcpSocketConfig Raw) : Async TE (Multiaddr * X) :=
  match tls_client_config config with
  | None => fail (TeTlsError (str "client config not found"))
  | Some tls_client_config =>
      addr ← address;
      o ← now (or_panics (multiaddr_to_socketaddr addr));
      match o with
      | Some socket_address =>
          stream ← tcp_dial socket_address tcp_config timeout_;
          if server_name_ok domain_name then
            stream ← map_err TeIo (tls_client tls_client_config domain_name stream);
            mret (default addr original, stream)
          else fail (TeTlsError (str "invalid dnsname"))
      | None => fail (TeNotSupported (default addr original))
      end
  end.

Definition parse_tls_domain_name (addr : Multiaddr) : res MaError (option bytes) :=
  find_map (λ proto, match proto with Tls s => Some s | _ => None end) addr.

Record TlsTransport := mkTlsTransport { lt_timeout : Z; lt_config : TlsConfig; lt_tcp_config : TcpSocketConfig Raw }.

Definition tls_transport_listen (self : TlsTransport) (address : Multiaddr) : res TE (Async TE (Multiaddr * TlsListener)) :=
  name ← or_panics (parse_tls_domain_name address);
  match name with
  | Some domain_name =>
      dns ← or_panics (DnsResolver_new address);
      mret match dns with
           | Some dns => tls_bind (dns_address dns) (lt_timeout self) (lt_config self) domain_name (lt_tcp_config self)
           | None => tls_bind (mret address) (lt_timeout self) (lt_config self) domain_name (lt_tcp_config self)
           end
  | None => RErr (TeNotSupported address)
  end.

Definition tls_transport_dial (self : TlsTransport) (address : Multiaddr) : res TE (Async TE (Multiaddr * X)) :=
  name ← or_panics (parse_tls_domain_name address);
  match name with
  | Some domain_name =>
      dns ← or_panics (DnsResolver_new address);
      mret match dns with
           | Some dns => tls_connect (dns_address dns) (lt_timeout self) (Some address) (lt_config self) domain_name (lt_tcp_config self)
           | None => tls_connect (mret address) (lt_timeout self) None (lt_config self) domain_name (lt_tcp_config self)
           end
  | None => RErr (TeNotSupported address)
  end.

(** ** The choice among them ([transports/mod.rs]) *)

Inductive MultiStream := MsTcp (s : TS) | MsMemory (s : MemorySocket) | MsWs (s : W) | MsTls (s : X).
Inductive MultiIncoming :=
| MiTcp (l : TL) | MiMemory (l : MemoryListener) | MiWs (l : WebsocketListener) | MiTls (l : TlsListener).

(** [TcpConfig]: one configuration of sockets per transport. *)
Record TcpConfig := mkTcpConfig {
  tc_tcp : TcpSocketConfig Raw; tc_ws : TcpSocketConfig Raw; tc_tls : TcpSocketConfig Raw;
}.

(** [MultiTransport] with the cargo features [ws] and [tls]; the transport in memory works on the
    hub of the process (MemoryTransport.v), so its two operations are given here. *)
Record MultiTransportNet := mkMultiNet {
  mn_ws : bool;
  mn_tls : bool;
  mn_timeout : Z;
  mn_tcp_config : TcpConfig;
  mn_tls_config : option TlsConfig;
  mn_memory_listen : Multiaddr → res TE (Async TE (Multiaddr * MemoryListener));
  mn_memory_dial : Multiaddr → res TE (Async TE (Multiaddr * MemorySocket));
}.

(** [MultiListenFuture::poll] and [MultiDialFuture::poll] wrap what the inner future answers. *)
Definition wrap {A B} (f : A → B) (r : res TE (Async TE (Multiaddr * A))) : res TE (Async TE (Multiaddr * B)) :=
  c ← r; mret ('(a, x) ← (c : Async TE (Multiaddr * A)); mret (a, f x)).

Definition multi_listen (self : MultiTransportNet) (address : Multiaddr) : res TE (Async TE (Multiaddr * MultiIncoming)) :=
  ty ← or_panics (find_type address);
  match ty with
  | TtTcp => wrap MiTcp (tcp_transport_listen (mkTcpTransport (mn_timeout self) (tc_tcp (mn_tcp_config self))) address)
  | TtWs => if mn_ws self then
              wrap MiWs (ws_transport_listen (mkWsTransport (mn_timeout self) (tc_ws (mn_tcp_config self))) address)
            else RErr (TeNotSupported address)
  | TtMemory => wrap MiMemory (mn_memory_listen self address)
  | TtWss => RErr (TeNotSupported address)
  | TtTls => if mn_tls self then
               match mn_tls_config self with
               | None => RErr (TeTlsError (str "tls config is not set"))
               | Some tls_config =>
                   wrap MiTls (tls_transport_listen (mkTlsTransport (mn_timeout self) tls_config (tc_tls (mn_tcp_config self))) address)
               end
             else RErr (TeNotSupported address)
  end.

Definition multi_dial (self : MultiTransportNet) (address : Multiaddr) : res TE (Async TE (Multiaddr * MultiStream)) :=
  ty ← or_panics (find_type address);
  match ty with
  | TtTcp => wrap MsTcp (tcp_transport_dial (mkTcpTransport (mn_timeout self) (tc_tcp (mn_tcp_config self))) address)
  | TtWs => if mn_ws self then
              wrap MsWs (ws_transport_dial (mkWsTransport (mn_timeout self) (tc_ws (mn_tcp_config self))) address)
            else RErr (TeNotSupported address)
  | TtMemory => wrap MsMemory (mn_memory_dial self address)
  | TtWss => RErr (TeNotSupported address)
  | TtTls => if mn_tls self then
               match mn_tls_config self with
               | None => RErr (TeTlsError (str "tls config is not set"))
               | Some tls_config =>
                   wrap MsTls (tls_transport_dial (mkTlsTransport (mn_timeout self) tls_config (tc_tls (mn_tcp_config self))) address)
               end
             else RErr (TeNotSupported address)
  end.

End Transports.

Arguments mkHsListener {TL C Cfg} _ _ _ _.
Arguments hl_inner {TL C Cfg} _.
Arguments hl_timeout {TL C Cfg} _.
Arguments hl_channel {TL C Cfg} _.
Arguments hl_config {TL C Cfg} _.
