(* ===== verification/TransportsProofs.v ===== *)
(** * Correctness of the transports over the network

    What dialing and listening answer, about which address, and in what time. *)

From Stdlib Require Import ZArith Lia Bool.
From Stdlib Require Import Strings.String.
From stdpp Require Import base list.
From S2P Require Import Prelude Text Multiaddr MultiaddrProofs SecioHandshake SecioHandshakeProofs PeerId Tentacle MemoryTransport Utils Transports.

Open Scope Z_scope.

(** ** Reasoning about futures *)

(** If the future ends, its result satisfies [Q]. *)
Definition answers {E A} (Q : res E A → Prop) (c : Async E A) : Prop :=
  match c with Done _ r => Q r | Never => True end.

(** The future ends within [d], without a panic. *)
Definition ends_by {E A} (d : Z) (c : Async E A) : Prop :=
  match c with Done t r => 0 <= t <= d ∧ r ≠ RPanic | Never => False end.

(** What an operation of the outside may do: end at some time, or never. *)
Definition fair {E A} (c : Async E A) : Prop :=
  match c with Done t r => 0 <= t ∧ r ≠ RPanic | Never => True end.

Section Futures.
Context {E : Type}.

Lemma answers_bind {A B} (P : A → Prop) (Q : res E B → Prop) (c : Async E A) (k : A → Async E B) :
  answers (λ r, match r with ROk a => P a | RErr e => Q (RErr e) | RPanic => Q RPanic end) c →
  (∀ a, P a → answers Q (k a)) → answers Q (c ≫= k).
Proof.
  unfold mbind, Async_bind. destruct c as [t [a|e|]|]; cbn; [|done..].
  intros Ha Hk. specialize (Hk a Ha). by destruct (k a).
Qed.

Lemma answers_mono {A} (P Q : res E A → Prop) (c : Async E A) : (∀ r, P r → Q r) → answers P c → answers Q c.
Proof. destruct c; cbn; auto. Qed.

Lemma ends_by_bind {A B} d1 d2 (c : Async E A) (k : A → Async E B) :
  ends_by d1 c → 0 <= d2 → (∀ a, ends_by d2 (k a)) → ends_by (d1 + d2) (c ≫= k).
Proof.
  intros Hc Hd Hk. unfold mbind, Async_bind. destruct c as [t [a|e|]|]; cbn in *; [|split; [lia|done]|naive_solver..].
  specialize (Hk a). destruct (k a); cbn in *; [|done]. split; [lia|tauto].
Qed.

Lemma ends_by_mono {A} d d' (c : Async E A) : d <= d' → ends_by d c → ends_by d' c.
Proof. destruct c; cbn; [intros ? [? ?]; split; [lia|done]|done]. Qed.

Lemma ends_by_ret {A} d (a : A) : 0 <= d → ends_by d (mret a : Async E A).
Proof. cbn. split; [lia|done]. Qed.

Lemma ends_by_fail {A} d (e : E) : 0 <= d → ends_by d (fail e : Async E A).
Proof. cbn. split; [lia|done]. Qed.

(** Whatever the future does, [timeout] ends in time. *)
Lemma ends_by_timeout {E' A} d (c : Async E' A) : 0 <= d → fair c → ends_by d (timeout d c : Async E _).
Proof.
  intros Hd. unfold timeout. destruct c as [t r|]; cbn; [|split; [lia|done]].
  intros [H1 H2]. destruct (t <=? d) eqn:Et; cbn; [|split; [lia|done]].
  split; [lia|]. by destruct r.
Qed.

Lemma fair_map_err {E' A} (f : E → E') (c : Async E A) : fair c → fair (map_err f c).
Proof. destruct c as [t [a|e|]|]; cbn; naive_solver. Qed.

Lemma fair_bind {A B} (c : Async E A) (k : A → Async E B) : fair c → (∀ a, fair (k a)) → fair (c ≫= k).
Proof.
  intros Hc Hk. unfold mbind, Async_bind. destruct c as [t [a|e|]|]; cbn in *; [|naive_solver..].
  specialize (Hk a). destruct (k a); cbn in *; [|done]. split; [lia|tauto].
Qed.

Lemma fair_now {A} (r : res E A) : r ≠ RPanic → fair (now r).
Proof. cbn. intros. split; [lia|done]. Qed.

End Futures.

#[export] Hint Resolve ends_by_ret ends_by_fail ends_by_timeout fair_now fair_map_err : p2p.

Lemma of_sum_ok {E A} (x : E + A) : of_sum x ≠ RPanic.
Proof. by destruct x. Qed.
#[export] Hint Resolve of_sum_ok : p2p.

Section Proofs.
Context {Raw TL TS W X CC SC WCh XCh : Type}.
Context `{OS : Os Raw TL TS} `{RS : Resolver} `{WC : WsClient TS W} `{TLC : TlsClient CC TS X}.
Context `{NW : NewPipe WCh} `{NX : NewPipe XCh}.
Context `{V : Varint} `{TC : TextCodecs} `{PR : Primitives}.
Context `{VL : !VarintLaws} `{TCL : !TextCodecsLaws}.

Abbreviation TE := TransportErrorKind.
Abbreviation Net := (MultiTransportNet (Raw := Raw) (CC := CC) (SC := SC)).

(** ** Names *)

(** The first name that a port follows, skipping the component behind any other name. *)
Fixpoint dns_target (ps : list Protocol) : option (bytes * Z) :=
  match ps with
  | [] => None
  | p :: ps' =>
      match p with
      | Dns4 _ | Dns6 _ =>
          match ps' with
          | [] => None
          | q :: ps'' => match dns_of p q with Some d => Some d | None => dns_target ps'' end
          end
      | _ => dns_target ps'
      end
  end.

Lemma dns_loop_spec fuel b ps : parses b ps → (length b <= fuel)%nat → dns_loop fuel b = ROk (dns_target ps).
Proof.
  revert b ps. induction fuel as [|fuel IH]; intros b ps Hp Hf.
  { destruct Hp as [|b p r ps Hb Hp]; [done|]. pose proof (from_bytes_shorter _ _ _ Hb). lia. }
  destruct Hp as [|b p r ps Hb Hp]; [done|]. cbn [dns_loop dns_target]. rewrite (iter_next_parses _ _ _ _ Hb Hp).
  pose proof (from_bytes_shorter _ _ _ Hb). pose proof (IH r ps Hp ltac:(lia)) as IHr.
  assert (match iter_next r with
    | None => ROk None
    | Some (ROk proto2, next2) => match dns_of p proto2 with Some d => ROk (Some d) | None => dns_loop fuel next2 end
    | Some (_, _) => RPanic end = ROk match ps with [] => None | q :: ps'' =>
        match dns_of p q with Some d => Some d | None => dns_target ps'' end end) as Hd.
  { destruct Hp as [|r q r' ps Hq Hp']; [done|]. rewrite (iter_next_parses _ _ _ _ Hq Hp').
    destruct (dns_of p q); [done|]. pose proof (from_bytes_shorter _ _ _ Hq). apply IH; [done|lia]. }
  by destruct p.
Qed.

(** What [new] makes of an address of components [ps]. *)
Definition peer_of (ps : list Protocol) : option bytes :=
  find_first (λ proto, match proto with
    | P2p raw => match peer_from_bytes raw with inr p => Some p | inl _ => None end
    | _ => None end) ps.
Definition type_of (ps : list Protocol) : TransportType :=
  default TtTcp (find_first (λ proto, match proto with
    | Ws => Some TtWs | Wss => Some TtWss | Tls _ => Some TtTls | Memory _ => Some TtMemory | _ => None end) ps).

Lemma find_type_spec b ps : parses b ps → find_type b = ROk (type_of ps).
Proof. intros Hp. unfold find_type. by rewrite (find_map_spec _ _ ps). Qed.

Lemma DnsResolver_new_spec b ps : parses b ps →
  DnsResolver_new b = ROk ((λ '(domain, port), mkDns b (type_of ps) (peer_of ps) port domain None) <$> dns_target ps).
Proof.
  intros Hp. unfold DnsResolver_new. rewrite (dns_loop_spec _ _ ps) by done. cbn.
  destruct (dns_target ps) as [[domain port]|]; [|done]. cbn. rewrite (find_type_spec _ ps) by done. cbn.
  unfold extract_peer_id. by rewrite (find_map_spec _ _ ps).
Qed.

(** The polls of the resolver are those of one future: the task is started at the first poll, and
    not again; it is answered as soon as it is done, and until then the poll waits. *)
Fixpoint dns_polls (clocks : list Z) (d : DnsResolver) : DnsResolver * list (Poll (res (Multiaddr * ErrorKind) Multiaddr)) :=
  match clocks with
  | [] => (d, [])
  | c :: cs => let '(d1, r) := dns_poll c d in
      match r with
      | Ready _ => (d1, [r])
      | Pending => let '(d2, rs) := dns_polls cs d1 in (d2, r :: rs)
      end
  end.

Definition future_poll {E A} (start clock : Z) (c : Async E A) : Poll (res E A) :=
  match c with Done t r => if start + t <=? clock then Ready r else Pending | Never => Pending end.

Lemma new_addr_handle l h d : (new_addr l (set_handle h d)).2 = (new_addr l d).2.
Proof. by destruct l. Qed.

Lemma dns_future_handle h d : dns_future (set_handle h d) = dns_future d.
Proof.
  unfold dns_future. cbn. destruct (to_socket_addrs _ _) as [t [l|e|]|]; cbn; [|done..]. by rewrite new_addr_handle.
Qed.

Lemma dns_poll_started start clock d : dr_join_handle d = Some (start, to_socket_addrs (dr_domain d) (dr_port d)) →
  (dns_poll clock d).2 = future_poll start clock (dns_future d) ∧
  ((dns_poll clock d).2 = Pending → (dns_poll clock d).1 = d).
Proof.
  intros Hh. unfold dns_poll, handle_poll, dns_future. rewrite Hh. cbn [default fst snd].
  destruct d as [src ty pid port domain h]; cbn [dr_join_handle dr_domain dr_port] in *.
  destruct (to_socket_addrs domain port) as [t r|]; cbn [id]; [|by subst].
  destruct (start + t <=? clock) eqn:Et; cbn; rewrite ?Et; [|by subst].
  destruct r as [l|e|]; cbn; [|done..]. destruct (new_addr l (set_handle None _)) as [d' r'] eqn:En.
  cbn. split; [|done]. f_equal. change r' with (d', r').2. rewrite <- En. apply new_addr_handle.
Qed.

Lemma dns_polls_started start clocks d k r : dr_join_handle d = Some (start, to_socket_addrs (dr_domain d) (dr_port d)) →
  (dns_polls clocks d).2 !! k = Some r → ∃ clock, clocks !! k = Some clock ∧ r = future_poll start clock (dns_future d).
Proof.
  intros Hh. revert k. induction clocks as [|c cs IH]; intros k; [done|]. cbn [dns_polls].
  destruct (dns_poll_started start c d Hh) as [H1 H2]. destruct (dns_poll c d) as [d1 r1]; cbn in H1, H2.
  destruct r1 as [a|]; cbn.
  - destruct k; [|done]. intros [= <-]. by exists c.
  - rewrite (H2 eq_refl). destruct (dns_polls cs d) as [d2 rs]; cbn in *.
    destruct k as [|k]; [intros [= <-]; by exists c|]. apply IH.
Qed.

(** A [DnsResolver] that is polled at the times [c :: cs] looks its name up once, starting at the
    first poll: every poll answers what the lookup that was started then has answered by its time,
    with the first address found, the websocket component and the peer of the source behind it,
    or an error with the source address. *)
Theorem dns_future_polls (d : DnsResolver) (c : Z) (cs : list Z) (k : nat) r :
  dr_join_handle d = None → (dns_polls (c :: cs) d).2 !! k = Some r →
  ∃ clock, (c :: cs) !! k = Some clock ∧ r = future_poll c clock (dns_future d).
Proof.
  intros Hn Hk. rewrite <- (dns_future_handle (Some (c, to_socket_addrs (dr_domain d) (dr_port d)))).
  apply (dns_polls_started c (c :: cs) (set_handle (Some (c, to_socket_addrs (dr_domain d) (dr_port d))) d)); [done|].
  revert Hk. cbn [dns_polls]. unfold dns_poll. rewrite Hn. cbn. done.
Qed.

(** ** What dialing answers *)

(** The address an outcome is about. *)
Definition err_names (address : Multiaddr) (e : TE) : Prop :=
  match e with TeNotSupported a | TeDnsResolverError a _ => a = address | _ => True end.
Definition outcome_names {A} (address : Multiaddr) (r : res TE (Multiaddr * A)) : Prop :=
  match r with ROk (a, _) => a = address | RErr e => err_names address e | RPanic => True end.

(** The future of the address to connect to, and the address kept. *)
Definition source_ok (address : Multiaddr) (original : option Multiaddr) (c : Async TE Multiaddr) : Prop :=
  answers (λ r, match r with ROk a => default a original = address | RErr e => err_names address e | RPanic => True end) c.

Lemma source_dns address d : DnsResolver_new address = ROk (Some d) → source_ok address (Some address) (dns_address d).
Proof.
  intros Hd. assert (dr_source_address d = address) as <-.
  { unfold DnsResolver_new in Hd. apply res_bind_ok in Hd as ([[dom port]|]&_&Hd); [|done].
    apply res_bind_ok in Hd as (ty&_&Hd). apply res_bind_ok in Hd as (pid&_&Hd). by injection Hd as <-. }
  unfold source_ok, dns_address, dns_future. destruct (to_socket_addrs _ _) as [t [l|e|]|]; cbn; [|done..].
  by destruct l.
Qed.

Lemma source_plain address : source_ok address None (mret address).
Proof. done. Qed.

Lemma tcp_dial_io a cfg d t e : tcp_dial a cfg d = Done t (RErr e) → ∃ k, e = TeIo k.
Proof.
  unfold tcp_dial, mbind, Async_bind. destruct (timeout d _) as [t' [[[]|[e'|s]]|e'|]|] eqn:Et; try (intros [= <- <-]; eauto).
  revert Et. unfold timeout. repeat case_match; done.
Qed.

(** What the three [connect]s share. *)
Lemma connect_names {A} address original source (k : Multiaddr → SocketAddr → Async TE (Multiaddr * A)) :
  source_ok address original source →
  (∀ addr sa, default addr original = address → answers (outcome_names address) (k addr sa)) →
  answers (outcome_names address)
    (addr ← source; o ← now (or_panics (multiaddr_to_socketaddr addr));
     match o with
     | Some sa => k addr sa
     | None => fail (TeNotSupported (default addr original))
     end).
Proof.
  intros Hs Hk. eapply answers_bind; [exact Hs|]. intros addr Ha.
  eapply (answers_bind (λ _, True)); [by destruct (multiaddr_to_socketaddr addr)|].
  intros [sa|] _; [by apply Hk|done].
Qed.

Lemma tcp_dial_names {A} address sa cfg d (k : TS → Async TE (Multiaddr * A)) :
  (∀ s, answers (outcome_names address) (k s)) → answers (outcome_names address) (s ← tcp_dial sa cfg d; k s).
Proof.
  intros Hk. eapply (answers_bind (λ _, True)); [|by intros s _].
  destruct (tcp_dial sa cfg d) as [t [s|e|]|] eqn:Ed; cbn; [done| |done..].
  by apply tcp_dial_io in Ed as [k' ->].
Qed.

Lemma tcp_connect_names address original source d cfg : source_ok address original source →
  answers (outcome_names address) (tcp_connect source d original cfg).
Proof. intros Hs. apply connect_names; [done|]. intros addr sa Ha. by apply tcp_dial_names. Qed.

Lemma ws_connect_names address original source d cfg : source_ok address original source →
  answers (outcome_names address) (ws_connect source d original cfg).
Proof.
  intros Hs. apply connect_names; [done|]. intros addr sa Ha. apply tcp_dial_names. intros s.
  eapply (answers_bind (λ _, True)); [|by intros [[]|[[e|]|w]] _].
  destruct (ws_client _ s) as [t r|]; cbn; [|done]. destruct (t <=? d); cbn; [|done]. by destruct r.
Qed.

Lemma tls_connect_names address original source d (config : TlsConfig (CC := CC) (SC := SC)) name cfg :
  source_ok address original source →
  answers (outcome_names address) (tls_connect source d original config name cfg).
Proof.
  intros Hs. unfold tls_connect. destruct (tls_client_config config) as [cc|]; [|done].
  apply connect_names; [done|]. intros addr sa Ha. apply tcp_dial_names. intros s.
  destruct (server_name_ok name); [|done]. eapply (answers_bind (λ _, True)); [|by intros x _].
  by destruct (tls_client cc name s) as [t [x|e|]|].
Qed.

(** A future of the choice of sources: resolved, or as it is. *)
Lemma source_cases {A} address (k : Async TE Multiaddr → option Multiaddr → Async TE (Multiaddr * A)) c :
  (∀ source original, source_ok address original source → answers (outcome_names address) (k source original)) →
  (dns ← or_panics (E := TE) (DnsResolver_new address);
   mret match dns with Some dns => k (dns_address dns) (Some address) | None => k (mret address) None end) = ROk c →
  answers (outcome_names address) c.
Proof.
  intros Hk Hc. apply res_bind_ok in Hc as (o&Ho&Hc). injection Hc as <-.
  unfold or_panics in Ho. destruct (DnsResolver_new address) as [o'|e|] eqn:En; [|done..]. injection Ho as ->.
  destruct o as [d|]; [by apply Hk, source_dns|by apply Hk].
Qed.

(** The stream of a transport type. *)
Definition stream_type (s : MultiStream (TS := TS) (W := W) (X := X)) : TransportType :=
  match s with MsTcp _ => TtTcp | MsMemory _ => TtMemory | MsWs _ => TtWs | MsTls _ => TtTls end.

Definition dialed (address : Multiaddr) (ty : TransportType) (r : res TE (Multiaddr * MultiStream (TS := TS) (W := W) (X := X))) : Prop :=
  outcome_names address r ∧ ∀ a s, r = ROk (a, s) → stream_type s = ty.

Lemma wrap_dialed {A} address ty (f : A → MultiStream) r c :
  (∀ a, stream_type (f a) = ty) → (∀ c', r = ROk c' → answers (outcome_names address) c') →
  wrap f r = ROk c → answers (dialed address ty) c.
Proof.
  intros Hf Hr. unfold wrap. intros Hc. apply res_bind_ok in Hc as (c'&Hc'&Hc). injection Hc as <-.
  eapply (answers_bind (λ x, x.1 = address)).
  - eapply answers_mono; [|by apply Hr]. intros [[a x]|e|]; [done|done|done].
  - intros [a x] Ha. cbn in *. split; [done|]. by intros ? ? [= <- <-].
Qed.

Definition rejected (address : Multiaddr) (e : TE) : Prop :=
  match e with TeNotSupported a => a = address | TeTlsError _ => True | _ => False end.

(** Dialing over the network is about the address that was dialed, also when it names a host
    that is resolved first: a connection comes with exactly that address and is of the type that
    the address asks for, and every error that carries an address carries that one; an address
    that is refused at once is not supported or lacks the TLS configuration. *)
Theorem dial_keeps_address (self : Net) (address : Multiaddr) (ty : TransportType) :
  find_type address = ROk ty → ty ≠ TtMemory →
  match multi_dial self address with
  | ROk c => answers (dialed address ty) c
  | RErr e => rejected address e
  | RPanic => True
  end.
Proof.
  intros Ht Hm. unfold multi_dial. rewrite Ht. cbn. destruct ty; try done.
  - destruct (mn_ws self); [|done]. destruct (wrap _ _) as [c|e|] eqn:Ew; [| |done].
    + eapply wrap_dialed; [|intros c' Hc'|exact Ew]; [done|]. unfold ws_transport_dial in Hc'.
      eapply (source_cases _ (λ source original, ws_connect source _ original _)); [|exact Hc'].
      intros. by apply ws_connect_names.
    + exfalso. revert Ew. unfold wrap, ws_transport_dial, or_panics. by destruct (DnsResolver_new address).
  - destruct (wrap _ _) as [c|e|] eqn:Ew; [| |done].
    + eapply wrap_dialed; [|intros c' Hc'|exact Ew]; [done|]. unfold tcp_transport_dial in Hc'.
      eapply (source_cases _ (λ source original, tcp_connect source _ original _)); [|exact Hc'].
      intros. by apply tcp_connect_names.
    + exfalso. revert Ew. unfold wrap, tcp_transport_dial, or_panics. by destruct (DnsResolver_new address).
  - destruct (mn_tls self); [|done]. destruct (mn_tls_config self) as [cfg|]; [|done].
    destruct (wrap _ _) as [c|e|] eqn:Ew; [| |done].
    + eapply wrap_dialed; [|intros c' Hc'|exact Ew]; [done|]. unfold tls_transport_dial in Hc'.
      apply res_bind_ok in Hc' as ([name|]&_&Hc'); [|done].
      eapply (source_cases _ (λ source original, tls_connect source _ original _ name _)); [|exact Hc'].
      intros. by apply tls_connect_names.
    + revert Ew. unfold wrap, tls_transport_dial, or_panics. destruct (parse_tls_domain_name address) as [[n|]|e'|]; cbn; [| |done..].
      * by destruct (DnsResolver_new address).
      * by intros [= <-].
Qed.

(** ** How long dialing takes *)

(** The outside ends its operations at some time, or never. *)
Class OutsideLaws : Prop := {
  os_connect_fair : ∀ raw a, fair (os_connect (TL := TL) raw a);
  ws_client_fair : ∀ url s, fair (ws_client url s);
  (** Names are resolved to socket addresses with the port that was asked for. *)
  resolver_ok : ∀ domain port t sas, is_u16 port → to_socket_addrs domain port = Done t (ROk sas) →
    Forall (λ sa, socketaddr_wf sa ∧ sa_port sa = port) sas;
}.

(** When the address to connect to is known. *)
Definition source_of (address : Multiaddr) : Async TE Multiaddr :=
  match DnsResolver_new address with ROk (Some d) => dns_address d | _ => mret address end.

(** The components of a resolved address. *)
Definition ip_component (ip : IpAddr) : Protocol := match ip with V4 a b c d => Ip4 a b c d | V6 segs => Ip6 segs end.
Definition ty_components (ty : TransportType) : list Protocol :=
  match ty with TtWs => [Ws] | TtWss => [Wss] | _ => [] end.
Definition resolved (ps : list Protocol) (sa : SocketAddr) : list Protocol :=
  [ip_component (sa_ip sa); Tcp (sa_port sa)] ++ ty_components (type_of ps) ++ (P2p <$> option_list (peer_of ps)).

Lemma peer_of_wf ps p : Forall proto_wf ps → peer_of ps = Some p → proto_wf (P2p p).
Proof.
  unfold peer_of, find_first. induction 1 as [|q ps Hq Hps IH]; cbn; [done|].
  destruct q; try done. destruct (peer_from_bytes b) as [e|p'] eqn:Ep; [done|].
  cbn. intros [= ->]. revert Ep. unfold peer_from_bytes. repeat (case_match; try done). by intros [= <-].
Qed.

Lemma ip_component_wf sa : socketaddr_wf sa → Forall proto_wf [ip_component (sa_ip sa); Tcp (sa_port sa)].
Proof. intros [H1 H2]. rewrite !Forall_cons. destruct sa as [[a b c d|segs] port]; done. Qed.

Lemma resolved_parses b ps domain port sa sas : parses b ps → socketaddr_wf sa →
  (new_addr (sa :: sas) (mkDns b (type_of ps) (peer_of ps) port domain None)).2 = ROk (from_iter (resolved ps sa)) ∧
  parses (from_iter (resolved ps sa)) (resolved ps sa).
Proof.
  intros Hp Hs. split.
  - unfold resolved, from_iter. cbn [new_addr snd dr_ty dr_peer_id]. rewrite !map_app, !concat_app. unfold push.
    destruct (type_of ps), (peer_of ps); cbn; rewrite ?app_nil_r; unfold socketaddr_to_multiaddr, from_iter; cbn;
      rewrite ?app_nil_r, <- ?app_assoc; done.
  - apply parses_from_iter. unfold resolved. rewrite !Forall_app. split; [by apply ip_component_wf|].
    split; [by destruct (type_of ps); repeat constructor|].
    destruct (peer_of ps) as [p|] eqn:Ep; cbn; [|constructor]. constructor; [|constructor].
    eapply peer_of_wf; [|exact Ep]. by eapply parses_wf.
Qed.

Lemma tcp_dial_ends `{OL : !OutsideLaws} sa cfg d : 0 <= d → ends_by d (tcp_dial sa cfg d).
Proof.
  intros Hd. replace d with (d + 0) at 1 by lia. apply ends_by_bind; [|lia|].
  - apply ends_by_timeout; [done|]. repeat (apply fair_bind; [auto with p2p|intros]). apply os_connect_fair.
  - intros [[]|[e|s]]; cbn; (split; [lia|done]).
Qed.

Lemma dns_target_wf ps domain port : Forall proto_wf ps → dns_target ps = Some (domain, port) → is_u16 port.
Proof.
  assert (∀ n ps, (length ps <= n)%nat → Forall proto_wf ps → dns_target ps = Some (domain, port) → is_u16 port) as H.
  { clear ps. induction n as [|n IH]; intros [|p ps] Hl Hw; cbn in Hl; try done; try lia.
    apply Forall_cons_1 in Hw as [_ Hw]. pose proof (IH ps ltac:(lia) Hw) as IHp.
    assert (match ps with [] => None | q :: ps'' => match dns_of p q with Some d => Some d | None => dns_target ps'' end end
      = Some (domain, port) → is_u16 port) as Hd.
    { destruct ps as [|q ps]; [done|]. apply Forall_cons_1 in Hw as [Hq Hw].
      destruct (dns_of p q) as [[dom' port']|] eqn:Ed; [|apply IH; [cbn in Hl; lia|done]].
      intros [= -> ->]. destruct p; try done; destruct q; try done; by injection Ed as _ <-. }
    by destruct p. }
  intros. by eapply (H (length ps)).
Qed.

(** The address to connect to has components. *)
Lemma source_parses `{OL : !OutsideLaws} address ps : parses address ps →
  answers (λ r, match r with ROk a => ∃ qs, parses a qs | _ => True end) (source_of address).
Proof.
  intros Hp. unfold source_of. rewrite (DnsResolver_new_spec _ _ Hp).
  destruct (dns_target ps) as [[domain port]|] eqn:Et; cbn; [|by exists ps].
  unfold dns_address, dns_future. cbn [dr_domain dr_port].
  destruct (to_socket_addrs domain port) as [t [[|sa sas]|e|]|] eqn:Es; [done| |done..].
  apply resolver_ok in Es; [|by eapply dns_target_wf, Et; eapply parses_wf]. apply Forall_cons_1 in Es as [[Hs _] _].
  cbn [dns_answer]. destruct (resolved_parses address ps domain port sa sas Hp Hs) as [-> H2]. by eexists.
Qed.

(** What the transports do once the address is known takes [d]. *)
Lemma connect_ends `{OL : !OutsideLaws} {A} address ps t0 d original (k : Multiaddr → SocketAddr → Async TE (Multiaddr * A)) :
  parses address ps → ends_by t0 (source_of address) → 0 <= d → (∀ addr sa, ends_by d (k addr sa)) →
  ends_by (t0 + d)
    (addr ← source_of address; o ← now (or_panics (multiaddr_to_socketaddr addr));
     match o with Some sa => k addr sa | None => fail (TeNotSupported (default addr original)) end).
Proof.
  intros Hp Ht Hd Hk. pose proof (source_parses address ps Hp) as Hs. unfold mbind at 1, Async_bind at 1.
  destruct (source_of address) as [t [a|e|]|]; cbn in Ht, Hs; [|split; [lia|done]|naive_solver|done].
  destruct Hs as [qs Hq]. destruct (multiaddr_to_socketaddr_total a qs Hq) as [o Ho]. unfold now. rewrite Ho. cbn.
  destruct o as [sa|]; cbn; [|split; [lia|done]]. specialize (Hk a sa).
  destruct (k a sa) as [t' r'|]; cbn in *; [|done]. split; [lia|tauto].
Qed.

Lemma wrap_ends {A B} d (f : A → B) (r : res TE (Async TE (Multiaddr * A))) (Q : TE → Prop) :
  (∃ c, r = ROk c ∧ ends_by d c) → match wrap f r with ROk c => ends_by d c | RErr e => Q e | RPanic => False end.
Proof.
  intros (c&->&Hc). cbn. replace d with (d + 0) by lia. apply ends_by_bind; [done|lia|].
  intros [a x]. cbn. split; [lia|done].
Qed.

Lemma source_split {A} address ps (k : Async TE Multiaddr → option Multiaddr → Async TE (Multiaddr * A)) (P : Async TE (Multiaddr * A) → Prop) :
  parses address ps → (∀ original, P (k (source_of address) original)) →
  ∃ c, (dns ← or_panics (E := TE) (DnsResolver_new address);
    mret match dns with Some dns => k (dns_address dns) (Some address) | None => k (mret address) None end) = ROk c ∧ P c.
Proof.
  intros Hp HP. unfold source_of in HP. rewrite (DnsResolver_new_spec _ _ Hp) in *. cbn.
  destruct (dns_target ps) as [[domain port]|]; cbn in HP |- *; eexists; (split; [reflexivity|apply HP]).
Qed.

Lemma tcp_connect_ends `{OL : !OutsideLaws} address ps t0 d original cfg : parses address ps → 0 <= d →
  ends_by t0 (source_of address) → ends_by (t0 + d) (tcp_connect (source_of address) d original cfg).
Proof.
  intros Hp Hd Ht. eapply connect_ends; [done|done|lia|]. intros addr sa. replace d with (d + 0) at 1 by lia.
  apply ends_by_bind; [by apply tcp_dial_ends|lia|]. intros s. cbn. split; [lia|done].
Qed.

Lemma ws_connect_ends `{OL : !OutsideLaws} address ps t0 d original cfg : parses address ps → 0 <= d →
  ends_by t0 (source_of address) → ends_by (t0 + (d + d)) (ws_connect (source_of address) d original cfg).
Proof.
  intros Hp Hd Ht. eapply connect_ends; [done|done|lia|]. intros addr sa.
  apply ends_by_bind; [by apply tcp_dial_ends|lia|]. intros s.
  replace d with (d + 0) at 1 by lia. apply ends_by_bind; [|lia|].
  - apply ends_by_timeout; [done|apply ws_client_fair].
  - intros [[]|[[e|]|w]]; cbn; (split; [lia|done]).
Qed.

(** C37: Dialing over TCP or a websocket ends: whatever the network does, once the address is
    resolved the dial has an outcome within twice the timeout of the transport, a connection or
    an error, and there is no panic. *)
Theorem dial_ends_in_time `{OL : !OutsideLaws} (self : Net) (address : Multiaddr) ps t0 :
  parses address ps → type_of ps ≠ TtMemory → type_of ps ≠ TtTls → 0 <= mn_timeout self →
  ends_by t0 (source_of address) →
  match multi_dial self address with
  | ROk c => ends_by (t0 + 2 * mn_timeout self) c
  | RErr e => e = TeNotSupported address
  | RPanic => False
  end.
Proof.
  intros Hp Hm Hl Hd Ht. unfold multi_dial. rewrite (find_type_spec _ ps Hp). cbn.
  destruct (type_of ps); try done.
  - destruct (mn_ws self); [|done]. apply wrap_ends.
    eapply (source_split _ _ (λ source original, ws_connect source _ original _)); [done|]. intros original.
    eapply ends_by_mono; [|by eapply ws_connect_ends]. cbn. lia.
  - apply wrap_ends.
    eapply (source_split _ _ (λ source original, tcp_connect source _ original _)); [done|]. intros original.
    eapply ends_by_mono; [|by eapply tcp_connect_ends]. cbn. lia.
Qed.

(** ** What listening answers *)

(** The result is the local address of [tcp_of l] with the components [qs] behind it. *)
Definition bound {A} (tcp_of : A → option TL) (qs : list Protocol) (r : res TE (Multiaddr * A)) : Prop :=
  match r with
  | ROk (a, l) => ∃ tcp sa, tcp_of l = Some tcp ∧ os_local_addr tcp = inr sa ∧ a = socketaddr_to_multiaddr sa ++ from_iter qs
  | _ => True
  end.

Lemma tcp_listen_local sa cfg :
  answers (λ r, match r with ROk (local, tcp) => os_local_addr tcp = inr local | _ => True end) (tcp_listen sa cfg).
Proof.
  unfold tcp_listen. eapply (answers_bind (λ _, True)); [by destruct (listen sa cfg)|]. intros tcp _.
  destruct (os_local_addr tcp) as [e|local] eqn:El; cbn; [done|]. by rewrite El.
Qed.

(** What the three [bind]s share. *)
Lemma bind_bound {A} (tcp_of : A → option TL) qs source cfg (k : SocketAddr → TL → Async TE (Multiaddr * A)) :
  (∀ local tcp, os_local_addr tcp = inr local → answers (bound tcp_of qs) (k local tcp)) →
  answers (bound tcp_of qs)
    (addr ← source; o ← now (or_panics (multiaddr_to_socketaddr addr));
     match o with
     | Some sa => '(local, tcp) ← tcp_listen sa cfg; k local tcp
     | None => fail (TeNotSupported addr)
     end).
Proof.
  intros Hk. eapply (answers_bind (λ _, True)); [by destruct source as [t []|]|]. intros addr _.
  eapply (answers_bind (λ _, True)); [by destruct (multiaddr_to_socketaddr addr)|]. intros [sa|] _; [|done].
  eapply (answers_bind (λ x, os_local_addr x.2 = inr x.1)); [|intros [local tcp]; apply Hk].
  eapply answers_mono; [|apply tcp_listen_local]. by intros [[]|e|].
Qed.

Lemma push_from_iter m p : push m p = m ++ from_iter [p].
Proof. unfold push, from_iter. cbn. by rewrite app_nil_r. Qed.

Lemma tcp_bind_bound source cfg : answers (bound Some []) (tcp_bind source cfg).
Proof.
  apply bind_bound. intros local tcp Hl. exists tcp, local. split_and!; [done..|]. symmetry. apply app_nil_r.
Qed.

Lemma ws_bind_bound source d cfg :
  answers (bound (λ l : WebsocketListener (WCh := WCh), Some (hl_inner l)) [Ws]) (ws_bind source d cfg).
Proof. apply bind_bound. intros local tcp Hl. exists tcp, local. by rewrite push_from_iter. Qed.

Lemma tls_bind_bound source d (config : TlsConfig (CC := CC) (SC := SC)) name cfg :
  answers (bound (λ l : TlsListener (XCh := XCh), Some (hl_inner l)) [Tls name]) (tls_bind source d config name cfg).
Proof.
  apply bind_bound. intros local tcp Hl. destruct (tls_server_config config); [|done].
  exists tcp, local. by rewrite push_from_iter.
Qed.

Definition incoming_tcp (l : MultiIncoming (TL := TL) (SC := SC) (WCh := WCh) (XCh := XCh)) : option TL :=
  match l with
  | MiTcp l => Some l
  | MiMemory _ => None
  | MiWs l => Some (hl_inner l)
  | MiTls l => Some (hl_inner l)
  end.

Lemma wrap_bound {A} (tcp_of : A → option TL) (f : A → MultiIncoming) qs r c :
  (∀ l, incoming_tcp (f l) = tcp_of l) → (∀ c', r = ROk c' → answers (bound tcp_of qs) c') →
  wrap f r = ROk c → answers (bound incoming_tcp qs) c.
Proof.
  intros Hf Hr. unfold wrap. intros Hc. apply res_bind_ok in Hc as (c'&Hc'&Hc). injection Hc as <-.
  eapply (answers_bind (λ x, bound tcp_of qs (ROk x))).
  - eapply answers_mono; [|by apply Hr]. by intros [|e|].
  - intros [a l] (tcp&sa&H1&H2&H3). exists tcp, sa. by rewrite Hf.
Qed.

Lemma bind_cases {A} address (k : Async TE Multiaddr → Async TE (Multiaddr * A)) Q c :
  (∀ source, answers Q (k source)) →
  (dns ← or_panics (E := TE) (DnsResolver_new address);
   mret match dns with Some dns => k (dns_address dns) | None => k (mret address) end) = ROk c →
  answers Q c.
Proof. intros Hk Hc. apply res_bind_ok in Hc as (o&_&Hc). injection Hc as <-. by destruct o. Qed.

(** What a transport adds to the address it listens on. *)
Definition listen_suffix (ps : list Protocol) : list Protocol :=
  match type_of ps with
  | TtWs => [Ws]
  | TtTls => Tls <$> option_list (find_first (λ p, match p with Tls s => Some s | _ => None end) ps)
  | _ => []
  end.

Lemma multi_listen_bound (self : Net) address ps c : parses address ps → type_of ps ≠ TtMemory →
  multi_listen (WCh := WCh) (XCh := XCh) self address = ROk c → answers (bound incoming_tcp (listen_suffix ps)) c.
Proof.
  intros Hp Hm. unfold multi_listen, listen_suffix. rewrite (find_type_spec _ _ Hp). cbn.
  destruct (type_of ps); try done.
  - destruct (mn_ws self); [|done]. eapply wrap_bound; [|intros c' Hc']; [done|].
    eapply (bind_cases address (λ source, ws_bind source _ _)); [|exact Hc']. intros. apply ws_bind_bound.
  - eapply wrap_bound; [|intros c' Hc']; [done|].
    eapply (bind_cases address (λ source, tcp_bind source _)); [|exact Hc']. intros. apply tcp_bind_bound.
  - destruct (mn_tls self); [|done]. destruct (mn_tls_config self) as [cfg|]; [|done].
    eapply wrap_bound; [|intros c' Hc']; [done|]. unfold tls_transport_listen, parse_tls_domain_name in Hc'.
    rewrite (find_map_spec _ _ ps Hp) in Hc'. cbn in Hc'. destruct (find_first _ ps) as [name|]; [|done].
    eapply (bind_cases address (λ source, tls_bind source _ _ name _)); [|exact Hc']. intros. apply tls_bind_bound.
Qed.

Lemma listen_suffix_wf ps : Forall proto_wf ps → type_of ps ≠ TtMemory → type_of ps ≠ TtWss →
  Forall proto_wf (listen_suffix ps) ∧ type_of (listen_suffix ps) = type_of ps ∧
  find_first (λ p, match p with Dns4 _ | Dns6 _ => Some () | _ => None end) (listen_suffix ps) = None.
Proof.
  intros Hw Hm Hs. unfold listen_suffix. destruct (type_of ps) eqn:Et; try done.
  - split_and!; [|done..]. by repeat constructor.
  - destruct (find_first (λ p, match p with Tls s => Some s | _ => None end) ps) as [name|] eqn:Ef.
    + split_and!; [|done..]. constructor; [|constructor]. clear Et. revert Ef. unfold find_first.
      induction Hw as [|q ps Hq Hps IH]; cbn; [done|]. destruct q; try done. by intros [= ->].
    + exfalso. revert Et Ef. unfold type_of, find_first. clear. induction ps as [|q ps IH]; cbn; [done|].
      by destruct q.
Qed.

(** The address a listener reports leads back to it: it is the local address of the socket, it
    has no name to resolve, and it asks for the transport that was asked to listen (a TLS
    listener also keeps its domain name), so that a peer that dials it reaches this listener
    through the same transport. *)
Theorem listen_address_redials (self : Net) (address a : Multiaddr) ps t l :
  parses address ps → type_of ps ≠ TtMemory →
  multi_listen (WCh := WCh) (XCh := XCh) self address = ROk (Done t (ROk (a, l))) →
  ∃ tcp sa, incoming_tcp l = Some tcp ∧ os_local_addr tcp = inr sa ∧
    (socketaddr_wf sa → multiaddr_to_socketaddr a = ROk (Some sa) ∧ find_type a = ROk (type_of ps) ∧
      DnsResolver_new a = ROk None).
Proof.
  intros Hp Hm Hl. pose proof (multi_listen_bound self address ps _ Hp Hm Hl) as (tcp&sa&H1&H2&->).
  exists tcp, sa. split_and!; [done..|]. intros Hs.
  assert (type_of ps ≠ TtWss) as Hw.
  { intros Ew. revert Hl. unfold multi_listen. by rewrite (find_type_spec _ _ Hp), Ew. }
  destruct (listen_suffix_wf ps (parses_wf _ _ Hp) Hm Hw) as (W1&W2&W3).
  assert (parses (socketaddr_to_multiaddr sa ++ from_iter (listen_suffix ps))
    ([ip_component (sa_ip sa); Tcp (sa_port sa)] ++ listen_suffix ps)) as HP.
  { apply parses_app; [|by apply parses_from_iter]. by apply parses_from_iter, ip_component_wf. }
  split_and!; [by apply socketaddr_roundtrip| |].
  - rewrite (find_type_spec _ _ HP). f_equal. rewrite <- W2. by destruct sa as [[] ?].
  - rewrite (DnsResolver_new_spec _ _ HP). f_equal.
    assert (∀ qs, find_first (λ p, match p with Dns4 _ | Dns6 _ => Some () | _ => None end) qs = None → dns_target qs = None) as HD.
    { unfold find_first. induction qs as [|q qs IH]; [done|]. destruct q; cbn; auto; done. }
    rewrite HD; [done|]. rewrite find_first_app, W3. by destruct sa as [[] ?].
Qed.

End Proofs.

(** ** The url of a websocket *)

Definition colon : byte := byte_of 58.

(** RFC 3986: an authority without brackets is a host that has no colon, a colon, and a port. *)
Definition parse_authority (s : bytes) : option (bytes * Z) :=
  match split_on colon s with
  | [host; port] => (λ p, (host, p)) <$> parse_uint 16 port
  | _ => None
  end.

Definition authority (url : bytes) : bytes := drop (length (str "ws://")) url.

Lemma dec_no_colon z : 0 <= z → colon ∉ dec z.
Proof.
  intros Hz Hin. pose proof (dec_fuel_digits 20 z Hz) as HF. rewrite Forall_forall in HF.
  apply HF in Hin as [_ H]. by apply Z.leb_le in H.
Qed.

Lemma ip4_no_colon a b c d : colon ∉ ip4_to_string a b c d.
Proof.
  assert (∀ x, colon ∉ dec (byte_val x)) as Hd by (intros x; apply dec_no_colon, byte_val_range).
  unfold ip4_to_string. assert (colon ≠ dot) by done.
  rewrite !elem_of_app, !elem_of_cons, !elem_of_app, !elem_of_cons, !elem_of_app, !elem_of_cons.
  pose proof (Hd a). pose proof (Hd b). pose proof (Hd c). pose proof (Hd d). naive_solver.
Qed.

Lemma split_on_two c l r : ∃ x y zs, split_on c (l ++ c :: r) = x :: y :: zs.
Proof.
  assert (∀ m, ∃ x xs, split_on c m = x :: xs) as Hne.
  { intros [|b m]; cbn; [by eauto|]. case_bool_decide; [by eauto|]. destruct (split_on c m); by eauto. }
  induction l as [|b l (x&y&zs&IH)]; cbn.
  - rewrite bool_decide_true by done. destruct (Hne r) as (x&xs&->). by eauto.
  - rewrite IH. case_bool_decide; by eauto.
Qed.

(** The url a websocket connection is requested with has an authority with the host and the
    port for an IPv4 address; for an IPv6 address, whose text has colons, it is not the authority
    of any host, as the address is not put in brackets. *)
Theorem ws_url_authority `{TC : TextCodecs} (ip : IpAddr) (port : Z) : is_u16 port →
  match ip with
  | V4 a b c d => parse_authority (authority (ws_url (mkSocketAddr ip port))) = Some (ip4_to_string a b c d, port)
  | V6 segs => colon ∈ ip6_to_string segs → parse_authority (authority (ws_url (mkSocketAddr ip port))) = None
  end.
Proof.
  intros Hp. unfold ws_url, authority. rewrite drop_app_length. unfold parse_authority. destruct ip as [a b c d|segs]; cbn [sa_ip sa_port ip_to_string].
  - cbn [app]. change (str ":" ++ dec port) with (colon :: dec port).
    rewrite split_on_app by apply ip4_no_colon. rewrite split_on_none by (apply dec_no_colon, Hp).
    by rewrite parse_uint_dec.
  - intros Hc. change (str ":" ++ dec port) with (colon :: dec port).
    apply list_elem_of_split_l in Hc as (l1&l2&->&Hl). rewrite <- app_assoc. cbn [app].
    rewrite split_on_app by done. by destruct (split_on_two colon l2 (dec port)) as (x&y&zs&->).
Qed.

(** ** A network: names are resolved to the local host, every connection succeeds, and the peer of
    a TLS connection stays silent *)

Module Demo.

Definition localhost (port : Z) : SocketAddr := mkSocketAddr (V4 (byte_of 127) (byte_of 0) (byte_of 0) (byte_of 1)) port.

#[export] Instance demo_os : Os unit SocketAddr SocketAddr := {
  os_socket _ := inr tt;
  os_set_reuse_address r := inr r;
  os_set_nonblocking r := inr r;
  os_bind r _ := (r, None);
  os_listen _ _ := inr (localhost 7000);
  os_local_addr l := inr l;
  os_connect _ a := Done 3 (ROk a);
}.

#[export] Instance demo_resolver : Resolver := λ _ port, Done 2 (ROk [localhost port]).
#[export] Instance demo_ws : WsClient SocketAddr SocketAddr := λ _ s, Done 4 (ROk s).
#[export] Instance silent_tls : TlsClient unit SocketAddr SocketAddr := {
  server_name_ok name := negb (is_empty name);
  tls_client _ _ _ := Never;
}.
#[export] Instance demo_pipe : NewPipe unit := λ _, tt.

#[export] Instance demo_laws : OutsideLaws (TL := SocketAddr).
Proof.
  split; [done|done|]. intros domain port t sas Hp [= <- <-]. by repeat constructor; try apply Hp.
Qed.

Definition demo_net (timeout_ : Z) : MultiTransportNet (Raw := unit) (CC := unit) (SC := unit) :=
  mkMultiNet true true timeout_ (mkTcpConfig inr inr inr) (Some (mkTlsConfig (Some tt) (Some tt)))
    (λ a, RErr (TeNotSupported a)) (λ a, RErr (TeNotSupported a)).

Definition named : list Protocol := [Dns4 (str "ckb.dev"); Tcp 8115; Ws].
Definition secured : list Protocol := [Ip4 (byte_of 127) (byte_of 0) (byte_of 0) (byte_of 1); Tcp 443; Tls (str "ckb.dev")].

Lemma named_parses : parses (from_iter named) named.
Proof. apply parses_from_iter. by repeat constructor. Qed.
Lemma secured_parses : parses (from_iter secured) secured.
Proof. apply parses_from_iter. by repeat constructor. Qed.

End Demo.

Import Demo.

Lemma dns_future_polls_witness :
  ∃ clock, [5; 6; 7] !! 2%nat = Some clock ∧
    Ready (ROk (from_iter [Ip4 (byte_of 127) (byte_of 0) (byte_of 0) (byte_of 1); Tcp 80; Ws])) =
    future_poll 5 clock (dns_future (mkDns (from_iter named) TtWs None 80 (str "ckb.dev") None)).
Proof. by apply (dns_future_polls (mkDns (from_iter named) TtWs None 80 (str "ckb.dev") None) 5 [6; 7] 2). Defined.

Lemma dial_keeps_address_witness :
  match multi_dial (demo_net 10) (from_iter named) with
  | ROk c => answers (dialed (from_iter named) TtWs) c
  | RErr e => rejected (from_iter named) e
  | RPanic => True
  end.
Proof. by apply (dial_keeps_address (demo_net 10) (from_iter named) TtWs). Defined.

Lemma dial_ends_in_time_witness :
  match multi_dial (demo_net 10) (from_iter named) with
  | ROk c => ends_by (2 + 2 * 10) c
  | RErr e => e = TeNotSupported (from_iter named)
  | RPanic => False
  end.
Proof. by apply (dial_ends_in_time (demo_net 10) (from_iter named) named 2 named_parses). Defined.

Lemma listen_address_redials_witness :
  ∃ tcp sa, incoming_tcp (MiTls (mkHsListener (localhost 7000) 10 tt tt) : MultiIncoming (SC := unit) (WCh := unit)) = Some tcp ∧
    os_local_addr tcp = inr sa ∧
    (socketaddr_wf sa → multiaddr_to_socketaddr (from_iter [Ip4 (byte_of 127) (byte_of 0) (byte_of 0) (byte_of 1); Tcp 7000; Tls (str "ckb.dev")]) = ROk (Some sa) ∧
      find_type (from_iter [Ip4 (byte_of 127) (byte_of 0) (byte_of 0) (byte_of 1); Tcp 7000; Tls (str "ckb.dev")]) = ROk (type_of secured) ∧
      DnsResolver_new (from_iter [Ip4 (byte_of 127) (byte_of 0) (byte_of 0) (byte_of 1); Tcp 7000; Tls (str "ckb.dev")]) = ROk None).
Proof. apply (listen_address_redials (demo_net 10) (from_iter secured) _ secured 0 _ secured_parses); done. Defined.

(** A text of IPv6 addresses with colons. *)
Definition colon_codecs : TextCodecs :=
  Build_TextCodecs (λ b, b) Some (λ segs, concat (map (λ z, dec z ++ [colon]) segs)) (λ _, None).

Lemma ws_url_authority_witness :
  parse_authority (authority (ws_url (TC := colon_codecs) (mkSocketAddr (V6 [0; 0; 0; 0; 0; 0; 0; 1]) 80))) = None.
Proof.
  apply (ws_url_authority (TC := colon_codecs) (V6 [0; 0; 0; 0; 0; 0; 0; 1]) 80); [done|].
  apply (bool_decide_unpack _). by vm_compute.
Defined.

(** The timeout of the TLS transport covers the connection and not the handshake: when the peer
    accepts the connection and stays silent, the dial never ends, whatever the timeout is. *)
Theorem tls_dial_never_ends (timeout_ : Z) : 3 <= timeout_ →
  multi_dial (demo_net timeout_) (from_iter secured) = ROk Never.
Proof.
  intros Ht. apply Z.leb_le in Ht.
  unfold multi_dial. rewrite (find_type_spec _ _ secured_parses). cbn -[DnsResolver_new parse_tls_domain_name from_iter].
  unfold tls_transport_dial, parse_tls_domain_name. rewrite (find_map_spec _ _ _ secured_parses), (DnsResolver_new_spec _ _ secured_parses).
  cbn -[from_iter multiaddr_to_socketaddr].
  replace (multiaddr_to_socketaddr (from_iter secured)) with (ROk (Some (localhost 443)) : res MaError _) by by vm_compute.
  cbn. change (0 + (0 + (0 + 3))) with 3. by rewrite Ht.
Qed.

Lemma tls_dial_never_ends_witness : multi_dial (demo_net 3600) (from_iter secured) = ROk Never.
Proof. by apply (tls_dial_never_ends 3600). Defined.
