(* ===== verification/Listeners.v ===== *)
(** * Incoming connections ([transports/ws.rs], [transports/tls.rs], [transports/mod.rs])

    The listeners of websockets and TLS accept connections, run each handshake in a task of its
    own, and hand out the streams that are ready; the two have the same methods but for the
    handshake and the component they add to the address. [MultiIncoming] chooses among the
    listeners, [MultiStream] among the streams. *)

From Stdlib Require Import ZArith Lia Bool.
From stdpp Require Import base list relations.
From S2P Require Import Prelude Text Channels Multiaddr MultiaddrProofs SecioHandshake PeerId Tentacle Session Service MemoryTransport Utils WsStream Transports.

Open Scope Z_scope.

(** [TcpStream::peer_addr]. *)
Class PeerAddr (TS : Type) := ac_peer_addr : TS → ErrorKind + SocketAddr.

(** [TcpListener::poll_accept]; the last two are ghost: how many answers are ready, and whether the
    listener will wake the task that polled it. *)
Class Accept (TL TS : Type) := {
  ac_poll_accept : TL → TL * Poll (ErrorKind + TS);
  ac_waiting : TL → nat;
  ac_armed : TL → bool;
}.
#[global] Hint Mode Accept ! - : typeclass_instances.

(** A connection uses one answer up; a poll that waits registers the task. *)
Class AcceptLaws (TL TS : Type) `{AC : Accept TL TS} : Prop := {
  ac_ready : ∀ (l l' : TL) s, ac_poll_accept l = (l', Ready (inr s)) → (ac_waiting l' < ac_waiting l)%nat;
  ac_pending : ∀ l l' : TL, ac_poll_accept l = (l', Pending) → ac_armed l' = true;
}.

(** The channel of the streams that are ready. The listener keeps a sender of it (its field
    [sender]), so the channel does not end; [wc_armed] is ghost: whether the channel will wake
    the task that polled it. A poll that waits registers the task. *)
Class WakingChannel (C A : Type) `{RC : Receiver C A} := {
  wc_armed : C → bool;
  wc_live : ∀ c c' : C, recv_poll_next c ≠ (c', Ready None);
  wc_pending : ∀ c c' : C, recv_poll_next c = (c', Pending) → wc_armed c' = true;
}.

Section Listener.
Context {TL TS W C Cfg : Type}.
Context `{PA : PeerAddr TS} `{AC : Accept TL TS} `{RC : Receiver C (Multiaddr * W)} `{AW : AwaitSender C (Multiaddr * W)} `{V : Varint}.

(** A listener with the handshakes that were spawned and still run. *)
Record Listening := mkListening {
  li_listener : HandshakeListener (TL := TL) C Cfg;
  li_tasks : list (SocketAddr * TS);
}.

Definition put_tcp (l : TL) (s : Listening) : Listening :=
  let h := li_listener s in mkListening (mkHsListener l (hl_timeout h) (hl_channel h) (hl_config h)) (li_tasks s).
Definition put_channel (c : C) (s : Listening) : Listening :=
  let h := li_listener s in mkListening (mkHsListener (hl_inner h) (hl_timeout h) c (hl_config h)) (li_tasks s).
Definition spawn (t : SocketAddr * TS) (s : Listening) : Listening := mkListening (li_listener s) (li_tasks s ++ [t]).

Definition poll_pending : M Listening ErrorKind (Poll (Multiaddr * W)) := λ s,
  match recv_poll_next (hl_channel (li_listener s)) with
  | (c, Ready (Some r)) => (put_channel c s, ROk (Ready r))
  | (c, Ready None) => (put_channel c s, ROk Pending)
  | (c, Pending) => (put_channel c s, ROk Pending)
  end.

Definition poll_listen : M Listening ErrorKind (Poll unit) := λ s,
  match ac_poll_accept (hl_inner (li_listener s)) with
  | (l, Ready (inl e)) => (put_tcp l s, RErr e)
  | (l, Ready (inr stream)) =>
      match ac_peer_addr stream with
      | inr remote_address => (spawn (remote_address, stream) (put_tcp l s), ROk (Ready tt))
      | inl _ => (put_tcp l s, ROk (Ready tt))
      end
  | (l, Pending) => (put_tcp l s, ROk Pending)
  end.

Definition is_pending {A} (p : Poll A) : bool := match p with Pending => true | Ready _ => false end.

(** The loop; [RPanic] stands for a loop that goes on. *)
Fixpoint listen_loop (fuel : nat) : M Listening ErrorKind (Poll (Multiaddr * W)) :=
  match fuel with
  | O => panic
  | S fuel =>
      p ← poll_listen;
      r ← poll_pending;
      match r with
      | Ready res => mret (Ready res)
      | Pending => if is_pending p then mret Pending else listen_loop fuel
      end
  end.

(** [poll_next]; its errors are [Ready(Some(Err(e)))]. Every turn but the last takes an answer
    of the listener. Connections and upgraded streams that come in while the loop runs are those
    that are in the listener and in the channel from the start: one that comes later wakes the
    task. *)
Definition listener_poll_next : M Listening ErrorKind (Poll (Multiaddr * W)) :=
  r ← poll_pending;
  match r with
  | Ready res => mret (Ready res)
  | Pending => waiting ← gets (λ s, ac_waiting (hl_inner (li_listener s))); listen_loop (S waiting)
  end.

(** The end of a task: the handshake was too slow ([None]), failed, or gave a stream, which is sent
    with the address of the peer and the component of the transport. *)
Definition finish_task {WE : Type} (suffix : Protocol) (remote_address : SocketAddr) (res : option (WE + W)) (c : C) : C :=
  match res with
  | None => c
  | Some (inl _) => c
  | Some (inr stream) => (aw_send c (push (socketaddr_to_multiaddr remote_address) suffix, stream)).1
  end.

(** ** Polling *)

Context `{AL : !AcceptLaws TL TS} `{RL : !ReceiverLaws C (Multiaddr * W)}.

Definition queue_of (s : Listening) : list (Multiaddr * W) := recv_queue (hl_channel (li_listener s)).
Definition waiting_of (s : Listening) : nat := ac_waiting (hl_inner (li_listener s)).
Definition armed_of (s : Listening) : bool := ac_armed (hl_inner (li_listener s)).

(** The channel was polled last without a stream: it has ended or has registered the task. *)
Definition channel_polled (s : Listening) : Prop :=
  ∃ c p, recv_poll_next c = (hl_channel (li_listener s), p) ∧ (p = Pending ∨ p = Ready None).

Lemma poll_pending_spec s : ∃ s' r, poll_pending s = (s', ROk r) ∧
  hl_inner (li_listener s') = hl_inner (li_listener s) ∧ li_tasks s' = li_tasks s ∧
  match r with
  | Ready x => queue_of s = x :: queue_of s'
  | Pending => queue_of s = [] ∧ queue_of s' = [] ∧ channel_polled s'
  end.
Proof.
  unfold poll_pending, queue_of, channel_polled. destruct (recv_poll_next _) as [c [[x|]|]] eqn:E.
  - apply recv_some in E. by eexists _, _.
  - pose proof (recv_none _ _ E) as [? ?]. eexists _, _. split; [done|]. split_and!; try done. exists (hl_channel (li_listener s)). eexists. split; [exact E|by auto].
  - pose proof (recv_pending _ _ E) as [? ?]. eexists _, _. split; [done|]. split_and!; try done. exists (hl_channel (li_listener s)). eexists. split; [exact E|by auto].
Qed.

Definition peers (ts : list (SocketAddr * TS)) : Prop := Forall (λ t, ac_peer_addr t.2 = inr t.1) ts.

(** Of the connections accepted, those whose peer is known are handed to tasks. *)
Lemma poll_listen_spec s : ∃ s' r new, poll_listen s = (s', r) ∧
  queue_of s' = queue_of s ∧ li_tasks s' = li_tasks s ++ new ∧ peers new ∧ r ≠ RPanic ∧
  (r = ROk (Ready tt) → (waiting_of s' < waiting_of s)%nat) ∧ (r = ROk Pending → armed_of s' = true ∧ new = []).
Proof.
  unfold poll_listen, queue_of, waiting_of, armed_of. destruct (ac_poll_accept _) as [l [[e|stream]|]] eqn:E.
  - eexists _, _, []. split; [done|]. rewrite app_nil_r. split_and!; try done; constructor.
  - apply ac_ready in E. destruct (ac_peer_addr stream) as [e|a] eqn:Ea.
    + eexists _, _, []. split; [done|]. rewrite app_nil_r. split_and!; try done; constructor.
    + eexists _, _, [(a, stream)]. split; [done|]. split_and!; try done. by constructor.
  - apply ac_pending in E. eexists _, _, []. split; [done|]. rewrite app_nil_r. split_and!; try done; constructor.
Qed.

(** A poll takes the first stream that is ready, and otherwise waits for both the listener and the
    channel, which were polled in this order. Nothing else happens during the poll: a connection
    or a stream that comes in while it runs is as one that comes in after it. *)
Definition polled (s s' : Listening) (r : res ErrorKind (Poll (Multiaddr * W))) : Prop :=
  r ≠ RPanic ∧ (∃ new, li_tasks s' = li_tasks s ++ new ∧ peers new) ∧
  match r with
  | ROk (Ready x) => queue_of s = x :: queue_of s'
  | ROk Pending => queue_of s = [] ∧ queue_of s' = [] ∧ armed_of s' = true ∧ channel_polled s'
  | _ => queue_of s' = queue_of s
  end.

Lemma listen_loop_spec fuel s : (waiting_of s < fuel)%nat →
  ∃ s' r, listen_loop fuel s = (s', r) ∧ polled s s' r.
Proof.
  revert s. induction fuel as [|fuel IH]; intros s Hf; [lia|]. cbn [listen_loop]. unfold mbind, M_bind.
  destruct (poll_listen_spec s) as (s1&r1&new&->&Q1&T1&P1&N1&W1&A1).
  destruct r1 as [p|e|]; [| |done].
  2:{ eexists _, _. split; [done|]. split_and!; [done|by exists new|done]. }
  destruct (poll_pending_spec s1) as (s2&r2&->&I2&T2&Q2). unfold waiting_of, armed_of in *.
  destruct r2 as [x|].
  - eexists _, _. split; [done|]. split_and!; [done|exists new; by rewrite T2|]. cbn. by rewrite <- Q1.
  - destruct Q2 as (Q2 & Q3 & Q4). destruct p as [[]|]; cbn [is_pending].
    + destruct (IH s2) as (s3&r3&->&N3&(new3&T3&P3)&R3).
      { rewrite I2. specialize (W1 eq_refl). lia. }
      eexists _, _. split; [done|]. split; [done|]. split.
      { exists (new ++ new3). rewrite T3, T2, T1, app_assoc. split; [done|]. by apply Forall_app. }
      replace (queue_of s) with (queue_of s2) by congruence. done.
    + destruct (A1 eq_refl) as [A2 ->]. eexists _, _. split; [done|].
      split_and!; [done|exists []; by rewrite T2|congruence|done| |done]. unfold armed_of. by rewrite I2.
Qed.

Lemma listener_polled (s : Listening) : ∃ s' r, listener_poll_next s = (s', r) ∧ polled s s' r.
Proof.
  unfold listener_poll_next, gets, mbind, M_bind. destruct (poll_pending_spec s) as (s1&r1&->&I1&T1&Q1).
  destruct r1 as [x|].
  - eexists _, _. split; [done|]. split_and!; [done|exists []; rewrite app_nil_r; by split; [|constructor]|done].
  - destruct Q1 as (Q1 & Q2 & _). destruct (listen_loop_spec (S (waiting_of s1)) s1) as (s2&r2&E2&N2&(new&T2&P2)&R2); [lia|].
    unfold waiting_of in E2. rewrite E2. eexists _, _. split; [done|]. split; [done|]. split; [by exists new; rewrite T2, T1|].
    replace (queue_of s) with (queue_of s1) by congruence. done.
Qed.

(** C40: Polling a websocket or TLS listener always comes to an answer, however many connections wait
    to be accepted: it hands out the stream whose handshake ended first; or it reports an error
    of the listener and drops no stream; or it waits, and then no stream was ready, and both the
    listener and the channel of streams have registered the task, so that the next connection and
    the next stream wake it. *)
Theorem listener_poll_next_spec `{WC : !WakingChannel C (Multiaddr * W)} (s : Listening) :
  ∃ s' r, listener_poll_next s = (s', r) ∧ r ≠ RPanic ∧
    (∃ new, li_tasks s' = li_tasks s ++ new ∧ peers new) ∧
    match r with
    | ROk (Ready x) => queue_of s = x :: queue_of s'
    | ROk Pending => queue_of s = [] ∧ queue_of s' = [] ∧ armed_of s' = true ∧
        wc_armed (hl_channel (li_listener s')) = true
    | _ => queue_of s' = queue_of s
    end.
Proof.
  destruct (listener_polled s) as (s' & r & E & N & T & R). exists s', r. split_and!; [done..|].
  destruct r as [[x|]|e|]; [done| |done..]. destruct R as (R1 & R2 & R3 & c & p & Ec & Hp).
  split_and!; [done..|]. destruct Hp as [-> | ->]; [by eapply wc_pending|by apply wc_live in Ec].
Qed.

(** ** Every stream handed out is that of one accepted connection *)

Class ListenLaws : Prop := {
  ll_send : ∀ (c : C) x, recv_queue (aw_send c x).1 = if (aw_send c x).2 then recv_queue c ++ [x] else recv_queue c;
}.

Context {WE : Type} (suffix : Protocol).

(** The listener with the connections it accepted (ghost), those whose handshake gave a stream that
    was sent, those that ended without one, and the streams handed out. *)
Record lsys := mkLsys {
  ly_state : Listening;
  ly_sent : list (SocketAddr * TS * W);
  ly_lost : list (SocketAddr * TS);
  ly_out : list (Multiaddr * W);
}.

(** Tasks end in any order between the polls. *)
Inductive listen_step : lsys → lsys → Prop :=
| lstep_poll s sent lost out s' r : listener_poll_next s = (s', r) →
    listen_step (mkLsys s sent lost out)
      (mkLsys s' sent lost (out ++ match r with ROk (Ready x) => [x] | _ => [] end))
| lstep_task h ts1 a stream ts2 sent lost out (o : option (WE + W)) :
    let c' := finish_task suffix a o (hl_channel h) in
    let ok := match o with Some (inr w) => (aw_send (hl_channel h) (push (socketaddr_to_multiaddr a) suffix, w)).2 | _ => false end in
    listen_step (mkLsys (mkListening h (ts1 ++ (a, stream) :: ts2)) sent lost out)
      (mkLsys (mkListening (mkHsListener (hl_inner h) (hl_timeout h) c' (hl_config h)) (ts1 ++ ts2))
         (sent ++ match o with Some (inr w) => if ok then [(a, stream, w)] else [] | _ => [] end)
         (lost ++ if ok then [] else [(a, stream)]) out).

Definition stream_item (x : SocketAddr * TS * W) : Multiaddr * W :=
  (push (socketaddr_to_multiaddr x.1.1) suffix, x.2).

(** All connections that were handed to tasks. *)
Definition accepted (y : lsys) : list (SocketAddr * TS) := (ly_sent y).*1 ++ ly_lost y ++ li_tasks (ly_state y).

Definition lsys_inv (y : lsys) : Prop :=
  ly_out y ++ queue_of (ly_state y) = stream_item <$> ly_sent y ∧ peers (accepted y).

Context `{LL : !ListenLaws}.

Lemma listen_step_inv y y' : listen_step y y' → lsys_inv y →
  lsys_inv y' ∧ ∃ new, accepted y' ≡ₚ accepted y ++ new.
Proof.
  intros [s sent lost out s' r E|h ts1 a stream ts2 sent lost out o c' ok] [I1 I2]; unfold lsys_inv, accepted in *;
    cbn [ly_state ly_sent ly_lost ly_out li_tasks] in *.
  - destruct (listener_polled s) as (s1&r1&E1&N1&(new&T1&P1)&R1). rewrite E in E1. injection E1 as <- <-.
    rewrite T1, !app_assoc. split; [|by exists new]. split.
    + rewrite <- I1. destruct r as [[x|]|e|]; cbn; rewrite ?app_nil_r; [by rewrite R1, <- app_assoc| |by rewrite R1|done].
      destruct R1 as (R1&R2&_). by rewrite R1, R2.
    + unfold peers in *. rewrite !Forall_app in I2. rewrite !Forall_app. tauto.
  - set (b := match o with Some (inr w) => if ok then Some w else None | _ => None end).
    assert (ok = match b with Some _ => true | None => false end) as Eok
      by (subst b ok; destruct o as [[e|w]|]; [done| |done]; by destruct (aw_send _ _) as [? []]).
    assert (match o with Some (inr w) => if ok then [(a, stream, w)] else [] | _ => [] end =
            match b with Some w => [(a, stream, w)] | None => [] end) as ->
      by (subst b; destruct o as [[e|w]|]; [done| |done]; by destruct ok).
    assert (queue_of (mkListening (mkHsListener (hl_inner h) (hl_timeout h) c' (hl_config h)) (ts1 ++ ts2)) =
      recv_queue (hl_channel h) ++ match b with Some w => [stream_item (a, stream, w)] | None => [] end) as ->.
    { unfold queue_of. cbn [li_listener hl_channel]. subst c' b ok.
      destruct o as [[e|w]|]; cbn [finish_task]; rewrite ?app_nil_r; try done.
      rewrite ll_send. unfold stream_item. cbn [fst snd].
      destruct (aw_send _ _) as [? []]; cbn [snd]; by rewrite ?app_nil_r. }
    rewrite Eok. clearbody b. clear Eok ok c'.
    assert ((sent ++ match b with Some w => [(a, stream, w)] | None => [] end).*1 ++
      (lost ++ if match b with Some _ => true | None => false end then [] else [(a, stream)]) ++ ts1 ++ ts2
      ≡ₚ sent.*1 ++ lost ++ ts1 ++ (a, stream) :: ts2) as HP
      by (destruct b; rewrite fmap_app; cbn; solve_Permutation).
    split; [split|exists []; by rewrite app_nil_r].
    + rewrite fmap_app, <- I1, <- app_assoc. by destruct b.
    + unfold peers. by rewrite HP.
Qed.

(** The streams a websocket or TLS listener hands out, in the order of their handshakes, are
    those of connections it accepted, one each: the k-th comes with the address of the peer of
    its connection, as the operating system knows it, and the component of the transport. *)
Theorem listener_hands_out_accepted (s : Listening) (y : lsys) :
  queue_of s = [] → li_tasks s = [] → rtc listen_step (mkLsys s [] [] []) y →
  ly_out y `prefix_of` (stream_item <$> ly_sent y) ∧ peers (ly_sent y).*1 ∧
  ∀ k a w, ly_out y !! k = Some (a, w) → ∃ remote stream, ly_sent y !! k = Some (remote, stream, w) ∧
    ac_peer_addr stream = inr remote ∧ a = push (socketaddr_to_multiaddr remote) suffix.
Proof.
  intros Hq Ht HR. assert (lsys_inv y) as [I1 I2].
  { assert (lsys_inv (mkLsys s [] [] [])) as HI by (split; cbn; [by rewrite Hq|unfold accepted; cbn; rewrite Ht; constructor]).
    revert HI. induction HR as [|y1 y2 y3 H1 _ IH]; [done|]. intros HI. apply IH. by apply (listen_step_inv y1). }
  assert (peers (ly_sent y).*1) as HP by (unfold accepted, peers in I2; rewrite Forall_app in I2; apply I2).
  assert (ly_out y `prefix_of` (stream_item <$> ly_sent y)) as Hpre by (rewrite <- I1; by apply prefix_app_r).
  split_and!; [done..|]. intros k a w Hk. apply (prefix_lookup_Some _ _ _ _ Hk) in Hpre.
  rewrite list_lookup_fmap in Hpre. destruct (ly_sent y !! k) as [[[remote stream] w']|] eqn:Es; [|done].
  injection Hpre as <- <-. exists remote, stream. split_and!; [done| |done].
  unfold peers in HP. rewrite Forall_lookup in HP. apply (HP k (remote, stream)). by rewrite list_lookup_fmap, Es.
Qed.

End Listener.

(** ** The choice among listeners ([MultiIncoming]) *)

Section Incoming.
Context {TL TS W X SC WCh XCh : Type}.
Context `{PA : PeerAddr TS} `{AC : Accept TL TS} `{V : Varint}.
Context `{RW : Receiver WCh (Multiaddr * W)} `{RX : Receiver XCh (Multiaddr * X)}.
Context (memory_poll_next : MemoryListener → MemoryListener * res ErrorKind (Poll (option (Multiaddr * MemorySocket)))).

Abbreviation Incoming := (MultiIncoming (TL := TL) (SC := SC) (WCh := WCh) (XCh := XCh)).
Abbreviation Streams := (MultiStream (TS := TS) (W := W) (X := X)).

(** The two listeners are instances of the one above: their methods have the same text. *)
Definition ws_poll_next : M (Listening (TL := TL) (TS := TS) (C := WCh) (Cfg := unit)) ErrorKind (Poll (Multiaddr * W)) := listener_poll_next.
Definition tls_poll_pending : M (Listening (TL := TL) (TS := TS) (C := XCh) (Cfg := SC)) ErrorKind (Poll (Multiaddr * X)) := poll_pending.
Definition tls_poll_listen : M (Listening (TL := TL) (TS := TS) (C := XCh) (Cfg := SC)) ErrorKind (Poll unit) := poll_listen.
Definition tls_poll_next : M (Listening (TL := TL) (TS := TS) (C := XCh) (Cfg := SC)) ErrorKind (Poll (Multiaddr * X)) := listener_poll_next.

(** The tasks they spawn. *)
Definition ws_task {WE} `{AW : AwaitSender WCh (Multiaddr * W)} : SocketAddr → option (WE + W) → WCh → WCh := finish_task Ws.
Definition tls_task {WE} `{AX : AwaitSender XCh (Multiaddr * X)} : SocketAddr → option (WE + X) → XCh → XCh := finish_task (Tls []).

(** The loop over accepted connections: those whose peer is not known are dropped. *)
Fixpoint tcp_accept_loop (fuel : nat) (l : TL) : TL * res ErrorKind (Poll (SocketAddr * TS)) :=
  match fuel with
  | O => (l, RPanic)
  | S fuel =>
      match ac_poll_accept l with
      | (l', Ready (inl e)) => (l', RErr e)
      | (l', Ready (inr stream)) =>
          match ac_peer_addr stream with
          | inr remote_address => (l', ROk (Ready (remote_address, stream)))
          | inl _ => tcp_accept_loop fuel l'
          end
      | (l', Pending) => (l', ROk Pending)
      end
  end.

(** The listener, the handshakes it spawned, and what the poll answers; [None] is the end. *)
Definition incoming_poll_next (i : Incoming) (tasks : list (SocketAddr * TS))
    : Incoming * list (SocketAddr * TS) * res ErrorKind (Poll (option (Multiaddr * Streams))) :=
  match i with
  | MiTcp l =>
      match tcp_accept_loop (S (ac_waiting l)) l with
      | (l', ROk (Ready (a, s))) => (MiTcp l', tasks, ROk (Ready (Some (socketaddr_to_multiaddr a, MsTcp s))))
      | (l', ROk Pending) => (MiTcp l', tasks, ROk Pending)
      | (l', RErr e) => (MiTcp l', tasks, RErr e)
      | (l', RPanic) => (MiTcp l', tasks, RPanic)
      end
  | MiMemory l =>
      match memory_poll_next l with
      | (l', ROk (Ready (Some (a, s)))) => (MiMemory l', tasks, ROk (Ready (Some (a, MsMemory s))))
      | (l', ROk (Ready None)) => (MiMemory l', tasks, ROk (Ready None))
      | (l', ROk Pending) => (MiMemory l', tasks, ROk Pending)
      | (l', RErr e) => (MiMemory l', tasks, RErr e)
      | (l', RPanic) => (MiMemory l', tasks, RPanic)
      end
  | MiWs l =>
      match ws_poll_next (mkListening l tasks) with
      | (s, ROk (Ready (a, w))) => (MiWs (li_listener s), li_tasks s, ROk (Ready (Some (a, MsWs w))))
      | (s, ROk Pending) => (MiWs (li_listener s), li_tasks s, ROk Pending)
      | (s, RErr e) => (MiWs (li_listener s), li_tasks s, RErr e)
      | (s, RPanic) => (MiWs (li_listener s), li_tasks s, RPanic)
      end
  | MiTls l =>
      match tls_poll_next (mkListening l tasks) with
      | (s, ROk (Ready (a, x))) => (MiTls (li_listener s), li_tasks s, ROk (Ready (Some (a, MsTls x))))
      | (s, ROk Pending) => (MiTls (li_listener s), li_tasks s, ROk Pending)
      | (s, RErr e) => (MiTls (li_listener s), li_tasks s, RErr e)
      | (s, RPanic) => (MiTls (li_listener s), li_tasks s, RPanic)
      end
  end.

Context `{AL : !AcceptLaws TL TS} `{RWL : !ReceiverLaws WCh (Multiaddr * W)} `{RXL : !ReceiverLaws XCh (Multiaddr * X)}.

Lemma tcp_accept_spec fuel l : (ac_waiting l < fuel)%nat →
  match tcp_accept_loop fuel l with
  | (_, ROk (Ready (a, s))) => ac_peer_addr s = inr a
  | (l', ROk Pending) => ac_armed l' = true
  | (_, RErr _) => True
  | (_, RPanic) => False
  end.
Proof.
  revert l. induction fuel as [|fuel IH]; intros l Hf; [lia|]. cbn [tcp_accept_loop].
  destruct (ac_poll_accept l) as [l' [[e|s]|]] eqn:E; [done| |by apply ac_pending in E].
  destruct (ac_peer_addr s) eqn:Ea; [|done]. apply IH. apply ac_ready in E. lia.
Qed.

(** The kind of a listener and of a stream. *)
Definition incoming_kind (i : Incoming) : TransportType :=
  match i with MiTcp _ => TtTcp | MiMemory _ => TtMemory | MiWs _ => TtWs | MiTls _ => TtTls end.
Definition stream_kind (s : Streams) : TransportType :=
  match s with MsTcp _ => TtTcp | MsMemory _ => TtMemory | MsWs _ => TtWs | MsTls _ => TtTls end.

(** Polling the incoming connections of any transport over the network comes to an answer,
    keeps the transport, hands out streams of that transport, never ends the stream of
    connections, and for plain TCP passes by the connections whose peer is gone and gives the
    address of the peer. *)
Theorem incoming_poll_total (i : Incoming) (tasks : list (SocketAddr * TS)) :
  incoming_kind i ≠ TtMemory →
  let '(i', tasks', r) := incoming_poll_next i tasks in
  r ≠ RPanic ∧ incoming_kind i' = incoming_kind i ∧
  match r with
  | ROk (Ready (Some (a, s))) => stream_kind s = incoming_kind i ∧
      (∀ t, s = MsTcp t → ∃ sa, ac_peer_addr t = inr sa ∧ a = socketaddr_to_multiaddr sa)
  | ROk (Ready None) => False
  | _ => True
  end.
Proof.
  destruct i as [l|l|l|l]; intros Hk; cbn [incoming_poll_next]; unfold ws_poll_next, tls_poll_next.
  - pose proof (tcp_accept_spec (S (ac_waiting l)) l ltac:(lia)) as H.
    destruct (tcp_accept_loop _ l) as [l' [[[a s]|]|e|]]; try done. split_and!; try done. intros t [= <-]. by exists a.
  - done.
  - destruct (listener_polled (mkListening l tasks)) as (s&r&->&N&_&_). by destruct r as [[[a w]|]|e|].
  - destruct (listener_polled (mkListening l tasks)) as (s&r&->&N&_&_). by destruct r as [[[a w]|]|e|].
Qed.

End Incoming.

(** ** The choice among streams ([MultiStream]) *)

(** [AsyncRead] and [AsyncWrite]. *)
Class AsyncRw (T : Type) := {
  rw_poll_read : Z → T → T * res ErrorKind (Poll bytes);
  rw_poll_write : bytes → T → T * res ErrorKind (Poll Z);
  rw_poll_flush : T → T * res ErrorKind (Poll unit);
  rw_poll_shutdown : T → T * res ErrorKind (Poll unit);
}.

Section Streams.
Context {TS W X : Type} `{AT : AsyncRw TS} `{AM : AsyncRw MemorySocket} `{AW : AsyncRw W} `{AX : AsyncRw X}.

Abbreviation Streams := (MultiStream (TS := TS) (W := W) (X := X)).

Definition inner_stream {A} (tcp : TS → TS * A) (memory : MemorySocket → MemorySocket * A) (ws : W → W * A) (tls : X → X * A)
    (s : Streams) : Streams * A :=
  match s with
  | MsTcp s => let '(s', r) := tcp s in (MsTcp s', r)
  | MsMemory s => let '(s', r) := memory s in (MsMemory s', r)
  | MsWs s => let '(s', r) := ws s in (MsWs s', r)
  | MsTls s => let '(s', r) := tls s in (MsTls s', r)
  end.

#[export] Instance MultiStream_rw : AsyncRw Streams := {
  rw_poll_read n := inner_stream (rw_poll_read n) (rw_poll_read n) (rw_poll_read n) (rw_poll_read n);
  rw_poll_write buf := inner_stream (rw_poll_write buf) (rw_poll_write buf) (rw_poll_write buf) (rw_poll_write buf);
  rw_poll_flush := inner_stream rw_poll_flush rw_poll_flush rw_poll_flush rw_poll_flush;
  rw_poll_shutdown := inner_stream rw_poll_shutdown rw_poll_shutdown rw_poll_shutdown rw_poll_shutdown;
}.

End Streams.

(** The stream over a websocket is one of them. *)
#[export] Instance WsStream_rw {T WE : Type} `{WK : WebSocket T WE} : AsyncRw (WsStream T) := {
  rw_poll_read := ws_poll_read;
  rw_poll_write := ws_poll_write;
  rw_poll_flush := ws_poll_flush;
  rw_poll_shutdown := ws_poll_shutdown;
}.

(** ** A listener with a queue of connections, the peers of which are known or gone *)

Module ListenDemo.

Record Backlog := mkBacklog { bl_queue : list (option SocketAddr); bl_armed : bool }.

#[export] Instance demo_peer : PeerAddr (option SocketAddr) := λ s,
  match s with Some a => inr a | None => inl KNotConnected end.
#[export] Instance demo_accept : Accept Backlog (option SocketAddr) := {
  ac_poll_accept l := match bl_queue l with
                      | s :: q => (mkBacklog q (bl_armed l), Ready (inr s))
                      | [] => (mkBacklog [] true, Pending)
                      end;
  ac_waiting l := length (bl_queue l);
  ac_armed := bl_armed;
}.
#[export] Instance demo_accept_laws : AcceptLaws Backlog (option SocketAddr).
Proof. split; intros [[|s q] b] l'; cbn; intros; simplify_eq; cbn; [lia|done]. Qed.

#[export] Instance demo_await : AwaitSender (Pipe (Multiaddr * nat)) (Multiaddr * nat) := {
  aw_send c s := if pi_closed c then (c, false) else (mkPipe (pi_queue c ++ [s]) false (pi_ended c), true);
  aw_open c := negb (pi_closed c);
  aw_sent := pi_queue;
}.
#[export] Instance demo_listen_laws : ListenLaws (C := Pipe (Multiaddr * nat)).
Proof. split. intros [q c e] s. cbn. by destruct c. Qed.

Definition peer : SocketAddr := mkSocketAddr (V4 (byte_of 10) (byte_of 0) (byte_of 0) (byte_of 7)) 9000.
Definition start : Listening (TL := Backlog) (TS := option SocketAddr) (C := Pipe (Multiaddr * nat)) (Cfg := unit) :=
  mkListening (mkHsListener (mkBacklog [None; Some peer] false) 10 (mkPipe [] false false) tt) [].
Definition accepted_one : Listening (TL := Backlog) (TS := option SocketAddr) (C := Pipe (Multiaddr * nat)) (Cfg := unit) :=
  mkListening (mkHsListener (mkBacklog [] true) 10 (mkPipe [] false false) tt) [(peer, Some peer)].

End ListenDemo.

Import ListenDemo.

(** A channel that does not end and registers the task that waits. *)
Record OpenQueue (A : Type) := mkOpenQueue { oq_queue : list A; oq_armed : bool }.
Arguments mkOpenQueue {A} _ _.
Arguments oq_queue {A} _.
Arguments oq_armed {A} _.

#[export] Instance OpenQueue_receiver A : Receiver (OpenQueue A) A := {
  recv_poll_next c :=
    match oq_queue c with
    | a :: q => (mkOpenQueue q (oq_armed c), Ready (Some a))
    | [] => (mkOpenQueue [] true, Pending)
    end;
  recv_is_terminated _ := false;
  recv_queue := oq_queue;
}.
#[export] Instance OpenQueue_receiver_laws A : ReceiverLaws (OpenQueue A) A.
Proof. split; intros [[|x q] b]; cbn; intros; by simplify_eq. Qed.
#[export, refine] Instance OpenQueue_waking A : WakingChannel (OpenQueue A) A := { wc_armed := oq_armed }.
Proof. all: intros [[|x q] b] c'; cbn; intros; by simplify_eq. Qed.

Definition open_listener (l : list (option SocketAddr)) (b : bool) :
    HandshakeListener (TL := Backlog) (OpenQueue (Multiaddr * nat)) unit :=
  mkHsListener (mkBacklog l b) 10 (mkOpenQueue [] b) tt.

Lemma listener_poll_next_spec_witness :
  let s := mkListening (TS := option SocketAddr) (open_listener [None; Some peer] false) [] in
  let s' := mkListening (open_listener [] true) [(peer, Some peer)] in
  listener_poll_next s = (s', ROk Pending) ∧ armed_of s' = true ∧ wc_armed (hl_channel (li_listener s')) = true.
Proof.
  intros s s'. destruct (listener_poll_next_spec s) as (s1 & r & E & _ & _ & H).
  assert (listener_poll_next s = (s', ROk Pending)) as E' by by vm_compute.
  rewrite E' in E. injection E as <- <-. destruct H as (_ & _ & H1 & H2).
  split; [exact E'|]. split; [exact H1|exact H2].
Defined.

Definition handed_out : Multiaddr * nat := (push (socketaddr_to_multiaddr peer) Ws, 5%nat).

Lemma listener_hands_out_accepted_witness :
  let y := mkLsys (mkListening (mkHsListener (mkBacklog [] true) 10 (mkPipe (A := Multiaddr * nat) [] false false) tt) [])
             [(peer, Some peer, 5%nat)] [] [handed_out] in
  ly_out y `prefix_of` (stream_item Ws <$> ly_sent y) ∧ peers (ly_sent y).*1 ∧
  ∀ k a w, ly_out y !! k = Some (a, w) → ∃ remote stream, ly_sent y !! k = Some (remote, stream, w) ∧
    ac_peer_addr stream = inr remote ∧ a = push (socketaddr_to_multiaddr remote) Ws.
Proof.
  intros y. apply (listener_hands_out_accepted (WE := unit) Ws start y); [done|done|].
  eapply rtc_l; [eapply (lstep_poll _ _ _ _ _ accepted_one); by vm_compute|].
  eapply rtc_l; [apply (lstep_task Ws _ [] peer (Some peer) [] _ _ _ (Some (inr 5%nat)))|].
  eapply rtc_l; [eapply lstep_poll; by vm_compute|]. apply rtc_refl.
Defined.

Lemma incoming_poll_total_witness :
  let '(i', tasks', r) := incoming_poll_next (W := nat) (X := nat) (SC := unit) (WCh := Pipe (Multiaddr * nat)) (XCh := Pipe (Multiaddr * nat))
    (λ l, (l, ROk Pending)) (MiTcp (mkBacklog [None; Some peer] false)) [] in
  r ≠ RPanic ∧ incoming_kind i' = TtTcp ∧
  match r with
  | ROk (Ready (Some (a, s))) => stream_kind s = TtTcp ∧
      (∀ t, s = MsTcp t → ∃ sa, ac_peer_addr t = inr sa ∧ a = socketaddr_to_multiaddr sa)
  | ROk (Ready None) => False
  | _ => True
  end.
Proof.
  by apply (incoming_poll_total (W := nat) (X := nat) (SC := unit) (WCh := Pipe (Multiaddr * nat)) (XCh := Pipe (Multiaddr * nat))
    (λ l, (l, ROk Pending)) (MiTcp (mkBacklog [None; Some peer] false)) []).
Defined.
