(* ===== verification/Runtime.v ===== *)
(** * The runtime: budget, timers and sockets ([tentacle/tentacle/src/runtime])

    The cooperative budget ([budget.rs]), timeouts and intervals over a delay ([generic_timer.rs]),
    and the listener that a task feeds ([async_runtime.rs]). A timeout polled as an executor polls
    it is the timeout the transports are modelled with. *)

From Stdlib Require Import ZArith Lia Bool.
From stdpp Require Import base list.
From S2P Require Import Prelude Channels Tentacle Utils Transports TransportsProofs.

Open Scope Z_scope.

(** ** The budget of a task *)

(** [CURRENT] of the thread: a [u8] that starts at 128; [None] is the panic of an underflow. The
    second part of the result is whether the task is woken at once. *)
Definition BUDGET : Z := 128.

Definition poll_proceed (budget : Z) : option (Z * Poll unit * bool) :=
  b ← checked_sub budget 1;
  if negb (b =? 0) then Some (b, Ready tt, false) else Some (BUDGET, Pending, true).

(** [n] polls in a row: the budget, and how many answered [Pending]. *)
Fixpoint poll_proceeds (n : nat) (budget : Z) : option (Z * nat) :=
  match n with
  | O => Some (budget, O)
  | S n =>
      '(b, p, _) ← poll_proceed budget;
      '(b', k) ← poll_proceeds n b;
      Some (b', match p with Pending => S k | Ready _ => k end)
  end.

Definition budget_ok (b : Z) : Prop := 1 <= b <= BUDGET.

Lemma poll_proceed_cases b : budget_ok b →
  poll_proceed b = if b =? 1 then Some (BUDGET, Pending, true) else Some (b - 1, Ready tt, false).
Proof.
  intros [H1 H2]. unfold poll_proceed, checked_sub. destruct (Z.eqb_spec b 1) as [->|N]; [done|].
  case_decide; [|lia]. cbn. by destruct (Z.eqb_spec (b - 1) 0); [lia|].
Qed.

(** The polls answered [Pending] count the times the budget ran out. *)
Lemma poll_proceeds_count n b : budget_ok b →
  ∃ b' k, poll_proceeds n b = Some (b', k) ∧ budget_ok b' ∧ Z.of_nat n = b - b' + BUDGET * Z.of_nat k.
Proof.
  revert b. induction n as [|n IH]; intros b Hb; [exists b, O; split_and!; [done..|lia]|].
  cbn [poll_proceeds]. rewrite poll_proceed_cases by done. destruct (Z.eqb_spec b 1) as [->|N].
  - destruct (IH BUDGET) as (b'&k&E&H1&H2); [by split|]. exists b', (S k). cbn. rewrite E. split_and!; [done..|]. unfold BUDGET in *. lia.
  - destruct (IH (b - 1)) as (b'&k&E&H1&H2); [destruct Hb; split; lia|]. exists b', k. cbn. rewrite E. split_and!; [done..|lia].
Qed.

(** The budget never underflows, and of any 128 polls in a row exactly one answers [Pending]: a
    task yields once in 128 polls, whatever happened on its thread before. *)
Theorem budget_yields_once (n : nat) :
  ∃ b k, poll_proceeds n BUDGET = Some (b, k) ∧ budget_ok b ∧
  ∃ b', poll_proceeds 128 b = Some (b', 1%nat).
Proof.
  destruct (poll_proceeds_count n BUDGET) as (b&k&E&H1&_); [by split|]. exists b, k. split_and!; [done..|].
  destruct (poll_proceeds_count 128 b H1) as (b'&k'&E'&H2&H3). exists b'. rewrite E'. do 2 f_equal.
  unfold budget_ok, BUDGET in *. lia.
Qed.

(** ** Delays and timeouts *)

(** [Delay]: done from a point in time on. *)
Definition delay_poll (clock deadline : Z) : Poll unit := if deadline <=? clock then Ready tt else Pending.

(** [Timeout<T>]: the task, started at [start], and the delay. *)
Record Timeout (E A : Type) := mkTimeout { to_task : Z * Async E A; to_delay : Z }.
Arguments mkTimeout {E A} _ _.
Arguments to_task {E A} _.
Arguments to_delay {E A} _.

Definition timeout_new {E A} (start duration : Z) (future : Async E A) : Timeout E A :=
  mkTimeout (start, future) (start + duration).

(** The result of the task comes first; [inl tt] is [Elapsed]. *)
Definition timeout_poll {E A} (clock : Z) (t : Timeout E A) : Poll (unit + res E A) :=
  match future_poll (to_task t).1 clock (to_task t).2 with
  | Ready v => Ready (inr v)
  | Pending => match delay_poll clock (to_delay t) with
               | Ready _ => Ready (inl tt)
               | Pending => Pending
               end
  end.

(** When the executor polls a timeout: when its task or its delay is done. *)
Definition woken_at {E A} (start duration : Z) (future : Async E A) : Z :=
  start + match future with Done t _ => Z.min t duration | Never => duration end.

(** What the poll says, as the outcome of [timeout(..).await]. *)
Definition timeout_outcome {E E' A} (p : unit + res E A) : res E' (unit + (E + A)) :=
  match p with
  | inl _ => ROk (inl tt)
  | inr (ROk a) => ROk (inr (inr a))
  | inr (RErr e) => ROk (inr (inl e))
  | inr RPanic => RPanic
  end.

(** The polls of [Timeout] are the timeout of the transports: before the task or the delay is done
    they wait, and the poll at that time gives the result of a task that ends in time and
    [Elapsed] for one that does not. *)
Theorem timeout_poll_refines {E E' A} (start duration : Z) (future : Async E A) :
  fair future → 0 <= duration →
  let t := timeout_new start duration future in
  (∀ clock, start <= clock < woken_at start duration future → timeout_poll clock t = Pending) ∧
  ∃ p, timeout_poll (woken_at start duration future) t = Ready p ∧
    (timeout duration future : Async E' _) = Done (woken_at start duration future - start) (timeout_outcome p).
Proof.
  intros Hf Hd t. unfold t, timeout_new, timeout_poll, woken_at, delay_poll, timeout. cbn [to_task to_delay fst snd future_poll].
  destruct future as [d r|]; cbn [future_poll].
  - destruct Hf as [Hf _]. split.
    + intros clock Hc. destruct (Z.leb_spec (start + d) clock); [lia|]. by destruct (Z.leb_spec (start + duration) clock); [lia|].
    + destruct (Z.leb_spec d duration) as [Hl|Hl].
      * rewrite Z.min_l by lia. rewrite Z.leb_refl. eexists. split; [done|].
        replace (start + d - start) with d by lia. by destruct r.
      * rewrite Z.min_r by lia. destruct (Z.leb_spec (start + d) (start + duration)); [lia|].
        rewrite Z.leb_refl. eexists. split; [done|]. by replace (start + duration - start) with duration by lia.
  - split.
    + intros clock Hc. by destruct (Z.leb_spec (start + duration) clock); [lia|].
    + rewrite Z.leb_refl. eexists. split; [done|]. by replace (start + duration - start) with duration by lia.
Qed.

Lemma timeout_poll_refines_witness :
  let future : Async unit Z := Done 7 (ROk 3) in
  let t := timeout_new 100 5 future in
  (∀ clock, 100 <= clock < woken_at 100 5 future → timeout_poll clock t = Pending) ∧
  ∃ p, timeout_poll (woken_at 100 5 future) t = Ready p ∧
    (timeout 5 future : Async unit _) = Done (woken_at 100 5 future - 100) (timeout_outcome p).
Proof. by apply (timeout_poll_refines (E' := unit) 100 5 (Done 7 (ROk 3))). Defined.

(** ** Intervals *)

Record Interval := mkInterval { in_delay : Z; in_period : Z }.

(** [interval(period)] at the time [clock]; the assertion is on the period. *)
Definition interval_new (clock period : Z) : option Interval :=
  if 0 <? period then Some (mkInterval (clock + period) period) else None.

(** A tick puts the delay off by the period, counted from the poll. *)
Definition interval_poll_next (clock : Z) (i : Interval) : Interval * Poll unit :=
  match delay_poll clock (in_delay i) with
  | Ready _ => (mkInterval (clock + in_period i) (in_period i), Ready tt)
  | Pending => (i, Pending)
  end.

(** The times of the ticks of polls at the times [clocks]. *)
Fixpoint ticks (clocks : list Z) (i : Interval) : list Z :=
  match clocks with
  | [] => []
  | c :: cs => match interval_poll_next c i with
               | (i', Ready _) => c :: ticks cs i'
               | (i', Pending) => ticks cs i'
               end
  end.

Fixpoint apart (d last : Z) (ts : list Z) : Prop :=
  match ts with [] => True | t :: ts => last + d <= t ∧ apart d t ts end.

Lemma ticks_apart clocks i last : last + in_period i = in_delay i → apart (in_period i) last (ticks clocks i).
Proof.
  revert i last. induction clocks as [|c cs IH]; intros i last Hi; cbn; [done|].
  unfold interval_poll_next, delay_poll. destruct (Z.leb_spec (in_delay i) c); [|by apply IH].
  cbn. split; [lia|]. by apply (IH (mkInterval (c + in_period i) (in_period i))).
Qed.

(** An interval of a positive period ticks with at least the period between two ticks, the first
    a period after it was made, so that in a time [d] it ticks at most [d / period] times; a
    period of zero panics. *)
Theorem interval_ticks (clock period : Z) (clocks : list Z) :
  match interval_new clock period with
  | None => period <= 0
  | Some i => 0 < period ∧ apart period clock (ticks clocks i) ∧
      ∀ d, 0 <= d → Forall (λ t, t <= clock + d) clocks → Z.of_nat (length (ticks clocks i)) <= d / period
  end.
Proof.
  unfold interval_new. destruct (Z.ltb_spec 0 period) as [Hp|Hp]; [|done]. split; [done|].
  set (i := mkInterval (clock + period) period).
  assert (apart period clock (ticks clocks i)) as Ha by (by apply (ticks_apart clocks i clock)). split; [done|].
  intros d Hd HF. apply Z.div_le_lower_bound; [done|].
  assert (Forall (λ t, t <= clock + d) (ticks clocks i)) as HT.
  { clear Ha. clearbody i. revert i. induction HF as [|c cs Hc _ IH]; intros i; cbn; [constructor|].
    destruct (interval_poll_next c i) as [i' []]; [by constructor|done]. }
  revert Ha HT. generalize (ticks clocks i). intros ts.
  assert (∀ ts last, last <= clock + d → apart period last ts → Forall (λ t, t <= clock + d) ts → last + period * Z.of_nat (length ts) <= clock + d) as H.
  { clear -Hp. induction ts as [|t ts IH]; cbn [length apart]; intros last Hl Ha HT; [lia|].
    destruct Ha as [Ha1 Ha2]. apply Forall_cons_1 in HT as [Ht HT]. specialize (IH t Ht Ha2 HT). lia. }
  intros Ha HT. specialize (H ts clock ltac:(lia) Ha HT). lia.
Qed.

(** ** The listener of the [async-std] runtime *)

(** A task accepts connections and sends them through a channel; the listener receives. *)
Section AsyncListener.
Context {R TS : Type} `{RC : Receiver R (ErrorKind + TS)}.

Record AsyncTcpListener := mkAsyncListener { al_recv : R; al_local_addr : SocketAddr }.

Definition async_local_addr (l : AsyncTcpListener) : ErrorKind + SocketAddr := inr (al_local_addr l).

Definition async_poll_accept (l : AsyncTcpListener) : AsyncTcpListener * Poll (ErrorKind + TS) :=
  match recv_poll_next (al_recv l) with
  | (r, Ready (Some res)) => (mkAsyncListener r (al_local_addr l), Ready res)
  | (r, Pending) => (mkAsyncListener r (al_local_addr l), Pending)
  | (r, Ready None) => (mkAsyncListener r (al_local_addr l), Ready (inl KBrokenPipe))
  end.

End AsyncListener.
