(* ===== verification/Builder.v ===== *)
(** * Builders of services and protocols ([tentacle/tentacle/src/builder.rs])

    [ServiceBuilder] and [MetaBuilder]: their methods with the assertions they make, any sequence
    of calls, and that what is built satisfies what the service and the sessions start from. *)

From Stdlib Require Import ZArith Lia Bool.
From Stdlib Require Import Strings.String.
From stdpp Require Import base list gmap.
From S2P Require Import Prelude Text Channels Multiaddr MultiaddrProofs YamuxFrame Select Tentacle Session Service ServiceProofs Utils MemoryTransport Transports TransportsProofs.

Open Scope Z_scope.

(** ** The configuration ([service/config.rs]) *)

Section Builder.
Context {Raw CC SC KP : Type}.

Abbreviation TcpC := (TcpConfig (Raw := Raw)).
Abbreviation TlsC := (TlsConfig (CC := CC) (SC := SC)).

(** The parts of [ServiceConfig] that the transports use beside the [ServiceConfig] of the
    service; times are in milliseconds. *)
Record FullConfig := mkFullConfig {
  fc_timeout : Z;
  fc_config : ServiceConfig;
  fc_upnp : bool;
  fc_tcp_config : TcpC;
  fc_tls_config : option TlsC;
}.

Definition TcpConfig_default : TcpC := mkTcpConfig inr inr inr.
Definition FullConfig_default : FullConfig :=
  mkFullConfig (10 * 1000) ServiceConfig_default false TcpConfig_default None.

Definition TlsConfig_new (server_config : option SC) (client_config : option CC) : TlsC :=
  mkTlsConfig server_config client_config.

(** ** [ServiceBuilder] *)

Record ServiceBuilder := mkBuilder {
  sb_inner : gmap Z ProtocolMeta;
  sb_key_pair : option KP;
  sb_forever : bool;
  sb_config : FullConfig;
}.

Definition ServiceBuilder_new : ServiceBuilder := mkBuilder ∅ None false FullConfig_default.

Definition set_config (c : FullConfig) (b : ServiceBuilder) : ServiceBuilder :=
  mkBuilder (sb_inner b) (sb_key_pair b) (sb_forever b) c.
Definition set_service_config (v : ServiceConfig) (b : ServiceBuilder) : ServiceBuilder :=
  let c := sb_config b in set_config (mkFullConfig (fc_timeout c) v (fc_upnp c) (fc_tcp_config c) (fc_tls_config c)) b.
Definition set_session_config (v : SessionConfig) (b : ServiceBuilder) : ServiceBuilder :=
  let c := fc_config (sb_config b) in
  set_service_config (mkServiceConfig v (cf_max_frame_length c) (cf_keep_buffer c) (cf_max_connection_number c)) b.
Definition set_tcp_config (v : TcpC) (b : ServiceBuilder) : ServiceBuilder :=
  let c := sb_config b in set_config (mkFullConfig (fc_timeout c) (fc_config c) (fc_upnp c) v (fc_tls_config c)) b.

Definition session_config_of (b : ServiceBuilder) : SessionConfig := cf_session_config (fc_config (sb_config b)).

Definition insert_protocol (protocol : ProtocolMeta) (b : ServiceBuilder) : ServiceBuilder :=
  mkBuilder (<[m_id (pm_inner protocol) := protocol]> (sb_inner b)) (sb_key_pair b) (sb_forever b) (sb_config b).
Definition key_pair (k : KP) (b : ServiceBuilder) : ServiceBuilder :=
  mkBuilder (sb_inner b) (Some k) (sb_forever b) (sb_config b).
Definition forever (f : bool) (b : ServiceBuilder) : ServiceBuilder :=
  mkBuilder (sb_inner b) (sb_key_pair b) f (sb_config b).
Definition timeout (t : Z) (b : ServiceBuilder) : ServiceBuilder :=
  let c := sb_config b in set_config (mkFullConfig t (fc_config c) (fc_upnp c) (fc_tcp_config c) (fc_tls_config c)) b.

(** The assertions compare the length cast to [u32]; [None] is a panic. *)
Definition builder_yamux_config (config : YamuxFrame.Config) (b : ServiceBuilder) : option ServiceBuilder :=
  if max_stream_window_size config <=? cast 32 (cf_max_frame_length (fc_config (sb_config b))) then
    let s := session_config_of b in
    Some (set_session_config (mkSessionConfig config (send_buffer_size s) (recv_buffer_size s) (channel_size s)) b)
  else None.

Definition builder_max_frame_length (size : Z) (b : ServiceBuilder) : option ServiceBuilder :=
  if max_stream_window_size (yamux_config (session_config_of b)) <=? cast 32 size then
    let c := fc_config (sb_config b) in
    Some (set_service_config (mkServiceConfig (cf_session_config c) size (cf_keep_buffer c) (cf_max_connection_number c)) b)
  else None.

Definition set_channel_size (size : Z) (b : ServiceBuilder) : ServiceBuilder :=
  let s := session_config_of b in
  set_session_config (mkSessionConfig (yamux_config s) (send_buffer_size s) (recv_buffer_size s) size) b.
Definition set_send_buffer_size (size : Z) (b : ServiceBuilder) : ServiceBuilder :=
  let s := session_config_of b in
  set_session_config (mkSessionConfig (yamux_config s) size (recv_buffer_size s) (channel_size s)) b.
Definition set_recv_buffer_size (size : Z) (b : ServiceBuilder) : ServiceBuilder :=
  let s := session_config_of b in
  set_session_config (mkSessionConfig (yamux_config s) (send_buffer_size s) size (channel_size s)) b.
Definition keep_buffer (keep : bool) (b : ServiceBuilder) : ServiceBuilder :=
  let c := fc_config (sb_config b) in
  set_service_config (mkServiceConfig (cf_session_config c) (cf_max_frame_length c) keep (cf_max_connection_number c)) b.
Definition upnp (enable : bool) (b : ServiceBuilder) : ServiceBuilder :=
  let c := sb_config b in set_config (mkFullConfig (fc_timeout c) (fc_config c) enable (fc_tcp_config c) (fc_tls_config c)) b.
Definition max_connection_number (number : Z) (b : ServiceBuilder) : ServiceBuilder :=
  let c := fc_config (sb_config b) in
  set_service_config (mkServiceConfig (cf_session_config c) (cf_max_frame_length c) (cf_keep_buffer c) number) b.
Definition tcp_config (f : TcpSocketConfig Raw) (b : ServiceBuilder) : ServiceBuilder :=
  let t := fc_tcp_config (sb_config b) in set_tcp_config (mkTcpConfig f (tc_ws t) (tc_tls t)) b.
Definition tcp_config_on_ws (f : TcpSocketConfig Raw) (b : ServiceBuilder) : ServiceBuilder :=
  let t := fc_tcp_config (sb_config b) in set_tcp_config (mkTcpConfig (tc_tcp t) f (tc_tls t)) b.
Definition tcp_config_on_tls (f : TcpSocketConfig Raw) (b : ServiceBuilder) : ServiceBuilder :=
  let t := fc_tcp_config (sb_config b) in set_tcp_config (mkTcpConfig (tc_tcp t) (tc_ws t) f) b.
Definition tls_config (config : TlsC) (b : ServiceBuilder) : ServiceBuilder :=
  let c := sb_config b in set_config (mkFullConfig (fc_timeout c) (fc_config c) (fc_upnp c) (fc_tcp_config c) (Some config)) b.
Definition clear (b : ServiceBuilder) : ServiceBuilder := mkBuilder ∅ (sb_key_pair b) (sb_forever b) (sb_config b).

(** The transport [Service::new] makes of the configuration. *)
Definition builder_transport (ws tls : bool)
    (memory_listen : Multiaddr → res TransportErrorKind (Async TransportErrorKind (Multiaddr * MemoryListener)))
    (memory_dial : Multiaddr → res TransportErrorKind (Async TransportErrorKind (Multiaddr * MemorySocket)))
    (b : ServiceBuilder) : MultiTransportNet (Raw := Raw) (CC := CC) (SC := SC) :=
  let c := sb_config b in
  mkMultiNet ws tls (fc_timeout c) (fc_tcp_config c) (fc_tls_config c) memory_listen memory_dial.

(** ** Sequences of calls *)

Inductive BuilderCall :=
| InsertProtocol (protocol : ProtocolMeta) | KeyPair (k : KP) | SetForever (f : bool) | SetTimeout (t : Z)
| SetYamuxConfig (config : YamuxFrame.Config) | SetMaxFrameLength (size : Z) | SetChannelSize (size : Z)
| SetSendBufferSize (size : Z) | SetRecvBufferSize (size : Z) | SetKeepBuffer (keep : bool) | SetUpnp (enable : bool)
| SetMaxConnectionNumber (number : Z) | SetTcpConfig (f : TcpSocketConfig Raw) | SetTcpConfigOnWs (f : TcpSocketConfig Raw)
| SetTcpConfigOnTls (f : TcpSocketConfig Raw) | SetTlsConfig (config : TlsC) | ClearProtocols.

Definition builder_call (c : BuilderCall) (b : ServiceBuilder) : option ServiceBuilder :=
  match c with
  | InsertProtocol protocol => Some (insert_protocol protocol b)
  | KeyPair k => Some (key_pair k b)
  | SetForever f => Some (forever f b)
  | SetTimeout t => Some (timeout t b)
  | SetYamuxConfig config => builder_yamux_config config b
  | SetMaxFrameLength size => builder_max_frame_length size b
  | SetChannelSize size => Some (set_channel_size size b)
  | SetSendBufferSize size => Some (set_send_buffer_size size b)
  | SetRecvBufferSize size => Some (set_recv_buffer_size size b)
  | SetKeepBuffer keep => Some (keep_buffer keep b)
  | SetUpnp enable => Some (upnp enable b)
  | SetMaxConnectionNumber number => Some (max_connection_number number b)
  | SetTcpConfig f => Some (tcp_config f b)
  | SetTcpConfigOnWs f => Some (tcp_config_on_ws f b)
  | SetTcpConfigOnTls f => Some (tcp_config_on_tls f b)
  | SetTlsConfig config => Some (tls_config config b)
  | ClearProtocols => Some (clear b)
  end.

Fixpoint builder_calls (cs : list BuilderCall) (b : ServiceBuilder) : option ServiceBuilder :=
  match cs with
  | [] => Some b
  | c :: cs => b' ← builder_call c b; builder_calls cs b'
  end.

(** Arguments a service can work with: those of a machine type within its width, and a limit of
    connections below [2 ^ 63], half of what its type ([usize]) allows, as [new_service] asks for. *)
Definition call_wf (c : BuilderCall) : Prop :=
  match c with
  | SetYamuxConfig config => is_u32 (max_stream_window_size config)
  | SetMaxFrameLength size | SetChannelSize size | SetSendBufferSize size | SetRecvBufferSize size => is_u64 size
  | SetMaxConnectionNumber number => 0 <= number < 2 ^ 63
  | SetTimeout t => 0 <= t
  | _ => True
  end.

(** ** What every builder satisfies *)

Record builder_inv (b : ServiceBuilder) : Prop := {
  (** A protocol is found under its identifier. *)
  bi_keys : ∀ id m, sb_inner b !! id = Some m → m_id (pm_inner m) = id;
  (** The window of a stream fits a frame. *)
  bi_window : max_stream_window_size (yamux_config (session_config_of b)) <= cast 32 (cf_max_frame_length (fc_config (sb_config b)));
  bi_window_u32 : is_u32 (max_stream_window_size (yamux_config (session_config_of b)));
  bi_sizes : is_u64 (send_buffer_size (session_config_of b)) ∧ is_u64 (recv_buffer_size (session_config_of b));
  bi_connections : 0 <= cf_max_connection_number (fc_config (sb_config b)) < 2 ^ 63;
  bi_timeout : 0 <= fc_timeout (sb_config b);
}.

Lemma builder_new_inv : builder_inv ServiceBuilder_new.
Proof. split; try (vm_compute; intuition discriminate). Qed.

Lemma builder_call_inv c b b' : call_wf c → builder_call c b = Some b' → builder_inv b → builder_inv b'.
Proof.
  intros Hw Hc [I1 I2 I3 I4 I5 I6].
  destruct c; cbn in Hc;
    try (unfold builder_yamux_config, builder_max_frame_length in Hc; case_match eqn:EL; [|done]; apply Z.leb_le in EL);
    injection Hc as <-; split; cbn in *; try done; try tauto.
  - intros id m. destruct (decide (m_id (pm_inner protocol) = id)) as [<-|N].
    + rewrite lookup_insert_eq. by intros [= <-].
    + rewrite lookup_insert_ne by done. apply I1.
Qed.

End Builder.

(** ** [MetaBuilder] *)

Record MetaBuilder := mkMetaBuilder {
  mb_id : Z;
  mb_name : Z → bytes;
  mb_support_versions : list bytes;
  mb_service_handle : bool;
  mb_session_handle : bool;
  mb_select_version : option SelectFn;
  mb_before_send : option (bytes → bytes);
  mb_before_receive : option (bytes → ErrorKind + bytes);
  mb_spawn : bool;
}.

(** [format!("/p2p/{}", id.value())] *)
Definition default_name (id : Z) : bytes := str "/p2p/" ++ dec id.

Definition MetaBuilder_default : MetaBuilder :=
  mkMetaBuilder 0 default_name [str "0.0.1"] false false None None None false.

Definition mb_set_id (id : Z) (b : MetaBuilder) : MetaBuilder :=
  mkMetaBuilder id (mb_name b) (mb_support_versions b) (mb_service_handle b) (mb_session_handle b)
    (mb_select_version b) (mb_before_send b) (mb_before_receive b) (mb_spawn b).
Definition mb_set_name (name : Z → bytes) (b : MetaBuilder) : MetaBuilder :=
  mkMetaBuilder (mb_id b) name (mb_support_versions b) (mb_service_handle b) (mb_session_handle b)
    (mb_select_version b) (mb_before_send b) (mb_before_receive b) (mb_spawn b).
Definition mb_set_support_versions (versions : list bytes) (b : MetaBuilder) : MetaBuilder :=
  mkMetaBuilder (mb_id b) (mb_name b) versions (mb_service_handle b) (mb_session_handle b)
    (mb_select_version b) (mb_before_send b) (mb_before_receive b) (mb_spawn b).
Definition mb_set_service_handle (callback : bool) (b : MetaBuilder) : MetaBuilder :=
  mkMetaBuilder (mb_id b) (mb_name b) (mb_support_versions b) callback (mb_session_handle b)
    (mb_select_version b) (mb_before_send b) (mb_before_receive b) (mb_spawn b).
Definition mb_set_session_handle (callback : bool) (b : MetaBuilder) : MetaBuilder :=
  mkMetaBuilder (mb_id b) (mb_name b) (mb_support_versions b) (mb_service_handle b) callback
    (mb_select_version b) (mb_before_send b) (mb_before_receive b) (mb_spawn b).
Definition mb_protocol_spawn (b : MetaBuilder) : MetaBuilder :=
  mkMetaBuilder (mb_id b) (mb_name b) (mb_support_versions b) (mb_service_handle b) (mb_session_handle b)
    (mb_select_version b) (mb_before_send b) (mb_before_receive b) true.
Definition mb_set_select_version (f : option SelectFn) (b : MetaBuilder) : MetaBuilder :=
  mkMetaBuilder (mb_id b) (mb_name b) (mb_support_versions b) (mb_service_handle b) (mb_session_handle b)
    f (mb_before_send b) (mb_before_receive b) (mb_spawn b).
Definition mb_set_before_send (f : bytes → bytes) (b : MetaBuilder) : MetaBuilder :=
  mkMetaBuilder (mb_id b) (mb_name b) (mb_support_versions b) (mb_service_handle b) (mb_session_handle b)
    (mb_select_version b) (Some f) (mb_before_receive b) (mb_spawn b).
Definition mb_set_before_receive (f : option (bytes → ErrorKind + bytes)) (b : MetaBuilder) : MetaBuilder :=
  mkMetaBuilder (mb_id b) (mb_name b) (mb_support_versions b) (mb_service_handle b) (mb_session_handle b)
    (mb_select_version b) (mb_before_send b) f (mb_spawn b).

(** A spawned read part excludes both handles; [None] is a panic. *)
Definition mb_build (b : MetaBuilder) : option ProtocolMeta :=
  if mb_spawn b && (mb_service_handle b || mb_session_handle b) then None else
  Some (mkProtocolMeta
    (mkMeta (mb_id b) (mb_name b) (mb_support_versions b) (mb_select_version b) (mb_before_receive b) (mb_spawn b))
    (mb_service_handle b) (mb_session_handle b) (mb_before_send b)).

Inductive MetaCall :=
| McId (id : Z) | McName (name : Z → bytes) | McSupportVersions (versions : list bytes) | McServiceHandle (callback : bool)
| McSessionHandle (callback : bool) | McProtocolSpawn | McSelectVersion (f : option SelectFn)
| McBeforeSend (f : bytes → bytes) | McBeforeReceive (f : option (bytes → ErrorKind + bytes)).

Definition meta_call (b : MetaBuilder) (c : MetaCall) : MetaBuilder :=
  match c with
  | McId id => mb_set_id id b
  | McName name => mb_set_name name b
  | McSupportVersions versions => mb_set_support_versions versions b
  | McServiceHandle callback => mb_set_service_handle callback b
  | McSessionHandle callback => mb_set_session_handle callback b
  | McProtocolSpawn => mb_protocol_spawn b
  | McSelectVersion f => mb_set_select_version f b
  | McBeforeSend f => mb_set_before_send f b
  | McBeforeReceive f => mb_set_before_receive f b
  end.

(** The last value a sequence of calls gives. *)
Definition last_given {A} (f : MetaCall → option A) (cs : list MetaCall) (d : A) : A := default d (last (omap f cs)).

Lemma last_given_fold {A} (proj : MetaBuilder → A) (f : MetaCall → option A) :
  (∀ b c, proj (meta_call b c) = default (proj b) (f c)) →
  ∀ cs b, proj (foldl meta_call b cs) = last_given f cs (proj b).
Proof.
  intros Hf cs. unfold last_given. induction cs as [|c cs IH] using rev_ind; intros b; [done|].
  rewrite foldl_snoc, omap_app, Hf, IH. cbn. destruct (f c) as [x|]; cbn; [by rewrite last_snoc|by rewrite app_nil_r].
Qed.

(** A protocol is built from what the calls of a [MetaBuilder] gave last, whatever their order:
    its name is that of its final identifier also when the identifier was set after the name, and
    building panics exactly when the read part is spawned and a handle is set too. *)
Theorem meta_builder_last_call_wins (cs : list MetaCall) :
  let id := last_given (λ c, match c with McId id => Some id | _ => None end) cs 0 in
  let name := last_given (λ c, match c with McName n => Some n | _ => None end) cs default_name in
  let versions := last_given (λ c, match c with McSupportVersions v => Some v | _ => None end) cs [str "0.0.1"] in
  let service := last_given (λ c, match c with McServiceHandle h => Some h | _ => None end) cs false in
  let session := last_given (λ c, match c with McSessionHandle h => Some h | _ => None end) cs false in
  let spawn := existsb (λ c, match c with McProtocolSpawn => true | _ => false end) cs in
  match mb_build (foldl meta_call MetaBuilder_default cs) with
  | None => spawn = true ∧ (service = true ∨ session = true)
  | Some m => (spawn = true → service = false ∧ session = false) ∧
      m_id (pm_inner m) = id ∧ pm_name m = name id ∧ m_support_versions (pm_inner m) = versions ∧
      pm_service_handle m = service ∧ pm_session_handle m = session ∧ m_spawn (pm_inner m) = spawn
  end.
Proof.
  intros id name versions service session spawn. set (b := foldl meta_call MetaBuilder_default cs).
  assert (mb_id b = id) as H1 by (apply (last_given_fold mb_id); by intros ? []).
  assert (mb_name b = name) as H2 by (apply (last_given_fold mb_name); by intros ? []).
  assert (mb_support_versions b = versions) as H3 by (apply (last_given_fold mb_support_versions); by intros ? []).
  assert (mb_service_handle b = service) as H4 by (apply (last_given_fold mb_service_handle); by intros ? []).
  assert (mb_session_handle b = session) as H5 by (apply (last_given_fold mb_session_handle); by intros ? []).
  assert (mb_spawn b = spawn) as H6.
  { subst b spawn. assert (∀ b0, mb_spawn (foldl meta_call b0 cs) = mb_spawn b0 ||
      existsb (λ c, match c with McProtocolSpawn => true | _ => false end) cs) as Hs; [|by rewrite Hs].
    clear. induction cs as [|c cs IH]; intros b0; cbn; [by rewrite orb_false_r|].
    rewrite IH. by destruct c; cbn; rewrite ?orb_true_r. }
  unfold mb_build, pm_name. rewrite H1, H2, H3, H4, H5, H6.
  destruct spawn, service, session; cbn; naive_solver.
Qed.

(** ** From the builder to the service *)

Section Built.
Context {Raw CC SC KP : Type}.
Context {T F Hd St Inc ES ER Q QR SS PS VS VR J CS HS WR TR SR PR FT : Type}.
Context `{AS : AwaitSender HS ServiceEventAndError}.

Abbreviation SB := (ServiceBuilder (Raw := Raw) (CC := CC) (SC := SC) (KP := KP)).

(** [ServiceBuilder::build], as far as the service inside: the channels are those [Service::new]
    creates. *)
Definition build (transport : MultiTransport) (hs : HS) (es : VS) (er : WR) (tr : TR) (b : SB)
    : @InnerService T F Hd St Inc ES ER Q QR SS PS VS VR J CS HS WR TR SR PR FT :=
  InnerService_new (sb_inner b) transport (sb_forever b) (fc_config (sb_config b)) hs es er tr.

Lemma builder_calls_inv cs (b b' : SB) : Forall call_wf cs → builder_calls cs b = Some b' → builder_inv b → builder_inv b'.
Proof.
  intros Hw. revert b. induction Hw as [|c cs Hc _ IH]; intros b; cbn; [by intros [= ->]|].
  destruct (builder_call c b) as [b1|] eqn:E; cbn; [|done]. intros H1 HI. by eapply IH, builder_call_inv.
Qed.

(** After calls with the arguments of [call_wf] that did not panic, what a [ServiceBuilder] builds
    is a service as the theorems on services start from: with its protocols under their
    identifiers, a limit of connections in range, a frame that holds the window of a stream, and,
    if that window is not zero, room for events in every session. *)
Theorem built_service_starts (cs : list BuilderCall) (b : SB) transport (hs : HS) es er tr :
  Forall call_wf cs → builder_calls cs ServiceBuilder_new = Some b → aw_sent hs = [] →
  let s := build transport hs es er tr b in
  new_service s ∧ (∀ id m, iv_protocol_configs s !! id = Some m → m_id (pm_inner m) = id) ∧
  let c := cf_session_config (iv_config s) in
  max_stream_window_size (yamux_config c) <= cf_max_frame_length (iv_config s) `mod` 2 ^ 32 ∧
  (max_stream_window_size (yamux_config c) ≠ 0 →
   (∃ n, send_event_size c = Some n ∧ 0 < n) ∧ (∃ n, recv_event_size c = Some n ∧ 0 < n)).
Proof.
  intros Hw Hc Hs s. pose proof (builder_calls_inv _ _ _ Hw Hc builder_new_inv) as [I1 I2 I3 I4 I5 I6].
  split; [by do 8 eexists|]. split; [exact I1|]. split; [exact I2|]. intros Hz.
  destruct I3 as [I3 _], I4 as [[I4 _] [I4' _]]. apply event_size_pos; [|done|done].
  apply Z.le_lteq in I3 as [I3|I3]; [exact I3|]. by destruct Hz.
Qed.

End Built.

(** ** Runs *)

Abbreviation demo_builder := (ServiceBuilder (Raw := unit) (CC := unit) (SC := unit) (KP := unit)) (only parsing).

Definition demo_calls : list (BuilderCall (Raw := unit) (CC := unit) (SC := unit) (KP := unit)) :=
  [InsertProtocol sv_meta; SetMaxFrameLength (2 ^ 24);
   SetYamuxConfig (mkConfig 1 true 30000 10000 10 (2 ^ 23)); SetTimeout 5000; SetForever true].

Definition demo_built : demo_builder := default ServiceBuilder_new (builder_calls demo_calls ServiceBuilder_new).

Lemma built_service_starts_witness :
  let s : DemoService := build sv_transport (mkLogSender [] true) tt (mkQueueReceiver [] false false) (mkTwoQueues [] [] false) demo_built in
  new_service s ∧ (∀ id m, iv_protocol_configs s !! id = Some m → m_id (pm_inner m) = id) ∧
  let c := cf_session_config (iv_config s) in
  max_stream_window_size (yamux_config c) <= cf_max_frame_length (iv_config s) `mod` 2 ^ 32 ∧
  (max_stream_window_size (yamux_config c) ≠ 0 →
   (∃ n, send_event_size c = Some n ∧ 0 < n) ∧ (∃ n, recv_event_size c = Some n ∧ 0 < n)).
Proof.
  apply (built_service_starts demo_calls demo_built sv_transport); [|by vm_compute|done].
  repeat (constructor; [vm_compute; intuition discriminate|]). constructor.
Defined.

(** The assertion of the frame length compares what is left of it in 32 bits: a length of 2^32, far
    above every window, panics. *)
Lemma frame_length_truncated (b : demo_builder) : 0 < max_stream_window_size (yamux_config (session_config_of b)) →
  builder_max_frame_length (2 ^ 32) b = None.
Proof. intros H. unfold builder_max_frame_length. change (cast 32 (2 ^ 32)) with 0. by case_match; [lia|]. Qed.

(** A window of zero is accepted, and then the first session that is opened divides by it. *)
Lemma zero_window_accepted (b : demo_builder) (c : YamuxFrame.Config) :
  max_stream_window_size c = 0 → ∃ b', builder_yamux_config c b = Some b' ∧
  recv_event_size (session_config_of b') = None ∧ send_event_size (session_config_of b') = None.
Proof.
  intros Hc. unfold builder_yamux_config. rewrite Hc.
  assert (0 <=? cast 32 (cf_max_frame_length (fc_config (sb_config b))) = true) as ->.
  { apply Z.leb_le. apply Z.mod_pos_bound. lia. }
  eexists. split; [done|]. unfold recv_event_size, send_event_size. cbn. by rewrite Hc.
Qed.
