(* ===== verification/Upnp.v ===== *)
(** * Port mappings of a router ([tentacle/tentacle/src/upnp/mod.rs])

    [IgdClient] asks the router to forward the ports of the listen addresses, for ever or in leases
    that are renewed, and takes the mappings back. The router ([igd::Gateway]) is an interface. *)

From Stdlib Require Import ZArith Lia Bool.
From stdpp Require Import base list gmap sets fin_maps.
From S2P Require Import Prelude Text Multiaddr MultiaddrProofs Tentacle Session Service Utils.

Open Scope Z_scope.

(** ** Addresses as keys *)

#[export] Instance IpAddr_eq_dec : EqDecision IpAddr.
Proof. solve_decision. Defined.
#[export] Instance SocketAddr_eq_dec : EqDecision SocketAddr.
Proof. solve_decision. Defined.

Definition sa_encode (a : SocketAddr) : (byte * byte * byte * byte + list Z) * Z :=
  (match sa_ip a with V4 a b c d => inl (a, b, c, d) | V6 segs => inr segs end, sa_port a).
Definition sa_decode (x : (byte * byte * byte * byte + list Z) * Z) : SocketAddr :=
  mkSocketAddr (match x.1 with inl (a, b, c, d) => V4 a b c d | inr segs => V6 segs end) x.2.
Lemma sa_decode_encode a : sa_decode (sa_encode a) = a.
Proof. by destruct a as [[] ?]. Qed.
#[export] Instance SocketAddr_countable : Countable SocketAddr := inj_countable' sa_encode sa_decode sa_decode_encode.

(** [Ipv4Addr], by its octets. *)
Record Ipv4 := mkIpv4 { o1 : byte; o2 : byte; o3 : byte; o4 : byte }.
Definition octets (a : Ipv4) : list byte := [o1 a; o2 a; o3 a; o4 a].
Definition of_ipv4 (a : Ipv4) : IpAddr := V4 (o1 a) (o2 a) (o3 a) (o4 a).

Definition is_loopback (ip : IpAddr) : bool :=
  match ip with V4 a _ _ _ => byte_val a =? 127 | V6 segs => ipv6_is_loopback segs end.
Definition is_multicast (ip : IpAddr) : bool :=
  match ip with
  | V4 a _ _ _ => (224 <=? byte_val a) && (byte_val a <=? 239)
  | V6 segs => ipv6_is_multicast segs
  end.

Definition masked (a mask : Ipv4) : list Z :=
  zip_with (λ x m, Z.land (byte_val x) (byte_val m)) (octets a) (octets mask).
Definition in_same_subnet (addr1 addr2 subnet_mask : Ipv4) : bool :=
  bool_decide (masked addr1 subnet_mask = masked addr2 subnet_mask).

(** ** The router *)

(** [igd::AddPortError], as far as it is told apart. *)
Inductive AddPortError := OnlyPermanentLeasesSupported | AddPortOther.

(** [gw_mapped] is ghost: the external ports that are forwarded to this host. *)
Class Gateway (G : Type) := {
  gw_ip : G → Ipv4;
  gw_external_ip : G → option Ipv4;
  gw_add_port : Z → Ipv4 → Z → G → G * (AddPortError + unit);
  gw_remove_port : Z → G → G;
  gw_mapped : G → gset Z;
}.
#[global] Hint Mode Gateway ! : typeclass_instances.

(** A port that is granted is mapped, an error maps nothing; a port that is taken back is unmapped. *)
Class GatewayLaws (G : Type) `{GW : Gateway G} : Prop := {
  gw_add : ∀ p a d (g g' : G) r, gw_add_port p a d g = (g', r) →
    gw_mapped g' = match r with inr _ => {[p]} ∪ gw_mapped g | inl _ => gw_mapped g end;
  gw_remove : ∀ p (g : G), gw_mapped (gw_remove_port p g) = gw_mapped g ∖ {[p]};
}.

Record Network := mkNetwork { nw_address : Ipv4; nw_net_mask : Ipv4 }.

(** ** The client *)

Section Client.
Context {G : Type} `{GW : Gateway G} `{HO : HashOrder} `{V : Varint}.

Record IgdClient := mkIgd {
  ig_gateway : G;
  ig_state : Network;
  ig_only_leases_support : bool;
  ig_succeeded : gset SocketAddr;
  ig_leases : gmap SocketAddr (option Z);
}.

Definition put_gateway (g : G) (c : IgdClient) : IgdClient :=
  mkIgd g (ig_state c) (ig_only_leases_support c) (ig_succeeded c) (ig_leases c).
Definition put_only (c : IgdClient) : IgdClient :=
  mkIgd (ig_gateway c) (ig_state c) true (ig_succeeded c) (ig_leases c).
Definition put_succeeded (v : gset SocketAddr) (c : IgdClient) : IgdClient :=
  mkIgd (ig_gateway c) (ig_state c) (ig_only_leases_support c) v (ig_leases c).
Definition put_leases (v : gmap SocketAddr (option Z)) (c : IgdClient) : IgdClient :=
  mkIgd (ig_gateway c) (ig_state c) (ig_only_leases_support c) (ig_succeeded c) v.

(** [new]: [search] is what the search for a router gives, [networks] those of this host. *)
Definition IgdClient_new (search : option G) (networks : option (list Network)) : option IgdClient :=
  gateway ← search;
  if is_reachable (of_ipv4 (gw_ip gateway)) then None else
  ip ← gw_external_ip gateway;
  if is_reachable (of_ipv4 ip) then
    networks ← networks;
    state ← head (filter (λ n, in_same_subnet (nw_address n) (gw_ip gateway) (nw_net_mask n)) networks);
    Some (mkIgd gateway state false ∅ ∅)
  else None.

(** One turn of the loop: a lease older than 40 seconds, or not asked for yet, is asked for again. *)
Definition renew (now : Z) (addr : SocketAddr) (interval : option Z) (c : IgdClient) : IgdClient :=
  let register := match interval with Some inner => 40 * 1000 <? Z.max 0 (now - inner) | None => true end in
  if register then
    let '(g, _) := gw_add_port (sa_port addr) (nw_address (ig_state c)) 60 (ig_gateway c) in
    put_leases (<[addr := Some now]> (ig_leases c)) (put_gateway g c)
  else c.

(** [process_only_leases_support] at the time [now], in milliseconds; the map is walked in the order
    of its hashes. *)
Definition process_only_leases_support (now : Z) (c : IgdClient) : IgdClient :=
  foldl (λ c '(addr, interval), renew now addr interval c) c (hash_order _ (map_to_list (ig_leases c))).

(** [None] where reading the address panics. *)
Definition register (now : Z) (address : Multiaddr) (c : IgdClient) : option IgdClient :=
  match multiaddr_to_socketaddr address with
  | ROk (Some addr) =>
      if bool_decide (addr ∈ ig_succeeded c) || bool_decide (is_Some (ig_leases c !! addr)) then Some c else
      if is_loopback (sa_ip addr) || is_multicast (sa_ip addr) then Some c else
      if ig_only_leases_support c then
        Some (process_only_leases_support now (put_leases (<[addr := None]> (ig_leases c)) c))
      else
        match gw_add_port (sa_port addr) (nw_address (ig_state c)) 0 (ig_gateway c) with
        | (g, inl OnlyPermanentLeasesSupported) =>
            let c := put_gateway g c in
            Some (put_only (process_only_leases_support now (put_leases (<[addr := None]> (ig_leases c)) c)))
        | (g, inl AddPortOther) => Some (put_gateway g c)
        | (g, inr _) => Some (put_succeeded ({[addr]} ∪ ig_succeeded c) (put_gateway g c))
        end
  | ROk None => Some c
  | _ => None
  end.

Definition remove (address : Multiaddr) (c : IgdClient) : option IgdClient :=
  match multiaddr_to_socketaddr address with
  | ROk (Some addr) =>
      if bool_decide (addr ∈ ig_succeeded c) then
        Some (put_gateway (gw_remove_port (sa_port addr) (ig_gateway c)) (put_succeeded (ig_succeeded c ∖ {[addr]}) c))
      else if bool_decide (is_Some (ig_leases c !! addr)) then
        Some (put_gateway (gw_remove_port (sa_port addr) (ig_gateway c)) (put_leases (base.delete addr (ig_leases c)) c))
      else Some c
  | ROk None => Some c
  | _ => None
  end.

(** [clear], which [drop] calls too. *)
Definition clear (c : IgdClient) : IgdClient :=
  let addrs := hash_order _ (elements (ig_succeeded c)) ++ (hash_order _ (map_to_list (ig_leases c))).*1 in
  let g := foldl (λ g addr, gw_remove_port (sa_port addr) g) (ig_gateway c) addrs in
  put_gateway g (put_succeeded ∅ (put_leases ∅ c)).

(** ** What holds of a client *)

Context `{GL : !GatewayLaws G} `{HOL : !HashOrderLaws}.

Definition known (c : IgdClient) : gset SocketAddr := ig_succeeded c ∪ dom (ig_leases c).
Definition mapped (c : IgdClient) : gset Z := gw_mapped (ig_gateway c).

(** The ports mapped beyond those that were at the start are of addresses the client knows, and it
    knows no address of this host alone. *)
Record igd_inv (start : gset Z) (c : IgdClient) : Prop := {
  ii_mapped : ∀ p, p ∈ mapped c → p ∈ start ∨ ∃ a, a ∈ known c ∧ sa_port a = p;
  ii_public : ∀ a, a ∈ known c → is_loopback (sa_ip a) = false ∧ is_multicast (sa_ip a) = false;
}.

Lemma renew_inv start now addr interval c : addr ∈ known c → igd_inv start c →
  igd_inv start (renew now addr interval c) ∧ known (renew now addr interval c) = known c.
Proof.
  intros Ha [I1 I2]. unfold renew. case_match; [|done].
  destruct (gw_add_port _ _ _ _) as [g r] eqn:E. apply gw_add in E.
  assert (gw_mapped g ⊆ {[sa_port addr]} ∪ mapped c) as E' by (unfold mapped; rewrite E; destruct r; set_solver).
  assert (known (put_leases (<[addr:=Some now]> (ig_leases c)) (put_gateway g c)) = known c) as Hk.
  { unfold known in *. cbn. rewrite dom_insert_L. set_solver. }
  split; [|done]. split; rewrite Hk; [|done]. intros p Hp. apply E' in Hp.
  apply elem_of_union in Hp as [->%elem_of_singleton|Hp]; [right; by exists addr|by apply I1].
Qed.

Lemma process_inv start now c : igd_inv start c →
  igd_inv start (process_only_leases_support now c) ∧ known (process_only_leases_support now c) = known c.
Proof.
  unfold process_only_leases_support.
  assert (Forall (λ x, x.1 ∈ known c) (hash_order _ (map_to_list (ig_leases c)))) as HF.
  { rewrite hash_order_perm. apply Forall_forall. intros [a i] Hin%elem_of_map_to_list. unfold known. cbn.
    apply elem_of_union_r, elem_of_dom. by eexists. }
  revert HF. generalize (hash_order _ (map_to_list (ig_leases c))). intros l. revert c.
  induction l as [|[a i] l IH]; intros c HF HI; [done|]. cbn. apply Forall_cons_1 in HF as [Ha HF].
  destruct (renew_inv start now a i c Ha HI) as [R1 R2].
  destruct (IH (renew now a i c)) as [J1 J2]; [by rewrite R2|done|]. split; [done|]. by rewrite J2.
Qed.

Lemma known_lease_inv start addr c : is_loopback (sa_ip addr) || is_multicast (sa_ip addr) = false →
  igd_inv start c → igd_inv start (put_leases (<[addr := None]> (ig_leases c)) c).
Proof.
  intros [H1 H2]%orb_false_iff [I1 I2]. split; unfold known, mapped in *; cbn; rewrite dom_insert_L.
  - intros p Hp. destruct (I1 p Hp) as [|(a&Ha&Hs)]; [by left|]. right. exists a. set_solver.
  - intros a Ha. destruct (decide (a = addr)) as [->|N]; [done|]. apply I2. set_solver.
Qed.

Lemma register_inv start now address c c' : igd_inv start c → register now address c = Some c' → igd_inv start c'.
Proof.
  intros HI. unfold register. destruct (multiaddr_to_socketaddr address) as [[addr|]|e|]; [|by intros [= <-]|done..].
  case_match; [by intros [= <-]|]. case_match eqn:EP; [by intros [= <-]|].
  case_match.
  { intros [= <-]. by apply process_inv, known_lease_inv. }
  destruct (gw_add_port _ _ _ _) as [g r] eqn:E. apply gw_add in E. destruct HI as [I1 I2].
  destruct r as [[]|[]]; intros [= <-].
  - assert (igd_inv start (put_gateway g c)) as HG by (split; unfold mapped in *; cbn; [by rewrite E|done]).
    destruct (process_inv start now _ (known_lease_inv start addr _ EP HG)) as [[J1 J2] _]. by split.
  - split; unfold mapped in *; cbn; [by rewrite E|done].
  - apply orb_false_iff in EP as [H1 H2]. split; unfold known, mapped in *; cbn.
    + rewrite E. intros p [->%elem_of_singleton|Hp]%elem_of_union; [right; exists addr; set_solver|].
      destruct (I1 p Hp) as [|(a&Ha&Hs)]; [by left|]. right. exists a. set_solver.
    + intros a Ha. destruct (decide (a = addr)) as [->|N]; [done|]. apply I2. set_solver.
Qed.

Lemma register_total now address o c : multiaddr_to_socketaddr address = ROk o → is_Some (register now address c).
Proof. unfold register. intros ->. repeat (case_match; try by eexists). Qed.

(** Forgetting an address is sound as its port is taken back. *)
Lemma forget_inv start addr c c' : igd_inv start c → known c ⊆ {[addr]} ∪ known c' → known c' ⊆ known c →
  mapped c' = mapped c ∖ {[sa_port addr]} → igd_inv start c'.
Proof.
  intros [I1 I2] Hk Hk' Hm. split; [|by intros a Ha; apply I2, Hk'].
  intros p. rewrite Hm. intros [Hp Hn]%elem_of_difference. destruct (I1 p Hp) as [|(a&Ha&Hs)]; [by left|].
  right. exists a. split; [|done]. apply Hk in Ha. apply elem_of_union in Ha as [->%elem_of_singleton|Ha]; [|done].
  by rewrite Hs, elem_of_singleton in Hn.
Qed.

Lemma remove_inv start address c c' : igd_inv start c → remove address c = Some c' → igd_inv start c'.
Proof.
  intros HI. unfold remove. destruct (multiaddr_to_socketaddr address) as [[addr|]|e|]; [|by intros [= <-]|done..].
  case_bool_decide; [|case_bool_decide; [|by intros [= <-]]]; intros [= <-];
    apply (forget_inv start addr c); try done; unfold known, mapped; cbn; try apply gw_remove; try set_solver.
  - intros a Ha. destruct (decide (a = addr)); set_solver.
  - rewrite dom_delete_L. intros a Ha. destruct (decide (a = addr)); set_solver.
Qed.

Lemma foldl_remove addrs (g : G) :
  gw_mapped (foldl (λ g addr, gw_remove_port (sa_port addr) g) g addrs) = gw_mapped g ∖ list_to_set (sa_port <$> addrs).
Proof.
  revert g. induction addrs as [|a addrs IH]; intros g; cbn; [set_solver|]. rewrite IH, gw_remove. set_solver.
Qed.

(** ** Runs *)

(** The service registers what it listens on, removes what it stops to listen on, and renews the
    leases from time to time. *)
Inductive igd_step : IgdClient → IgdClient → Prop :=
| igd_register now address c c' : register now address c = Some c' → igd_step c c'
| igd_remove address c c' : remove address c = Some c' → igd_step c c'
| igd_renew now c : igd_step c (process_only_leases_support now c).

Lemma igd_steps_inv start c c' : rtc igd_step c c' → igd_inv start c → igd_inv start c'.
Proof.
  induction 1 as [|c1 c2 c3 Hs _ IH]; [done|]. intros HI. apply IH.
  destruct Hs; [by eapply register_inv|by eapply remove_inv|by apply process_inv].
Qed.

(** A client leaves no port mapped: however it registered, removed and renewed addresses, every
    port it mapped on the router is that of an address it knows, none of them a loopback or
    multicast address, and when it is cleared or dropped only the ports that were mapped before
    it came are still mapped. *)
Theorem igd_leaves_nothing_mapped (search : option G) networks (c0 c : IgdClient) :
  IgdClient_new search networks = Some c0 → rtc igd_step c0 c →
  (∀ p, p ∈ mapped c → p ∈ mapped c0 ∨ ∃ a, a ∈ known c ∧ sa_port a = p) ∧
  (∀ a, a ∈ known c → is_loopback (sa_ip a) = false ∧ is_multicast (sa_ip a) = false) ∧
  mapped (clear c) ⊆ mapped c0 ∧ known (clear c) = ∅.
Proof.
  intros H0 HR. assert (igd_inv (mapped c0) c0) as HI.
  { assert (known c0 = ∅) as Hk; [|split; [by left|rewrite Hk; set_solver]].
    unfold IgdClient_new in H0. destruct search as [g|]; cbn in H0; [|done]. case_match; [done|].
    destruct (gw_external_ip g); cbn in H0; [|done]. case_match; [|done]. destruct networks as [ns|]; cbn in H0; [|done].
    destruct (head _); cbn in H0; [|done]. injection H0 as <-. unfold known. cbn. set_solver. }
  destruct (igd_steps_inv _ _ _ HR HI) as [I1 I2]. split_and!; [done|done| |unfold known; cbn; set_solver].
  unfold mapped in *. cbn. rewrite foldl_remove. intros p [Hp Hn]%elem_of_difference.
  destruct (I1 p Hp) as [|(a&Ha&<-)]; [done|]. destruct Hn. apply elem_of_list_to_set, list_elem_of_fmap.
  exists a. split; [done|]. rewrite elem_of_app, hash_order_perm, elem_of_elements. unfold known in Ha.
  apply elem_of_union in Ha as [Ha|Ha]; [by left|right]. rewrite hash_order_perm.
  apply elem_of_dom in Ha as [i Hi]. apply list_elem_of_fmap. exists (a, i). by rewrite elem_of_map_to_list.
Qed.

(** ** Leases *)

Definition fresh (now : Z) (i : option Z) : Prop := ∃ t, i = Some t ∧ now - t <= 40 * 1000.

Lemma renew_other now addr interval c a : a ≠ addr → ig_leases (renew now addr interval c) !! a = ig_leases c !! a.
Proof.
  intros Hn. unfold renew. case_match; [|done]. destruct (gw_add_port _ _ _ _) as [g r]. cbn.
  by rewrite lookup_insert_ne.
Qed.

Lemma renew_fresh now addr interval c : ig_leases c !! addr = Some interval →
  ∃ i, ig_leases (renew now addr interval c) !! addr = Some i ∧ fresh now i.
Proof.
  intros Ha. unfold renew. destruct interval as [t|].
  - case_match eqn:E.
    + destruct (gw_add_port _ _ _ _) as [g r]. cbn. rewrite lookup_insert_eq. eexists. split; [done|]. exists now. split; [done|lia].
    + eexists. split; [exact Ha|]. exists t. split; [done|lia].
  - destruct (gw_add_port _ _ _ _) as [g r]. cbn. rewrite lookup_insert_eq. eexists. split; [done|]. exists now. split; [done|lia].
Qed.

Lemma process_list_fresh now l c a : NoDup l.*1 → (∀ b i, (b, i) ∈ l → ig_leases c !! b = Some i) →
  let c' := foldl (λ c '(addr, interval), renew now addr interval c) c l in
  (a ∉ l.*1 → ig_leases c' !! a = ig_leases c !! a) ∧ (a ∈ l.*1 → ∃ i, ig_leases c' !! a = Some i ∧ fresh now i).
Proof.
  revert c. induction l as [|[b i] l IH]; intros c; cbn; [set_solver|]. intros [Hb HN]%NoDup_cons Hl.
  destruct (IH (renew now b i c)) as [J1 J2]; [done| |].
  { intros b' i' Hin. rewrite renew_other; [apply Hl; set_solver|]. intros ->. destruct Hb.
    apply list_elem_of_fmap. by exists (b, i'). }
  split.
  - intros [Hn Hnl]%not_elem_of_cons. rewrite J1 by done. by apply renew_other.
  - intros Ha. destruct (decide (a ∈ l.*1)) as [|Hnl]; [by apply J2|]. rewrite J1 by done.
    apply elem_of_cons in Ha as [->|]; [|done]. apply renew_fresh, Hl. set_solver.
Qed.

(** After the leases were processed at the time [now], every lease was asked for within the last
    40 seconds, so that none of its 60 seconds has run out if the next round comes within 20. *)
Theorem leases_renewed_in_time (now next : Z) (c : IgdClient) (a : SocketAddr) (i : option Z) :
  next <= now + 20 * 1000 → ig_leases (process_only_leases_support now c) !! a = Some i →
  ∃ t, i = Some t ∧ now - t <= 40 * 1000 ∧ next - t <= 60 * 1000.
Proof.
  intros Hn Ha. pose proof (hash_order_perm _ (map_to_list (ig_leases c))) as HP.
  destruct (process_list_fresh now (hash_order _ (map_to_list (ig_leases c))) c a) as [J1 J2].
  - rewrite HP. apply NoDup_fst_map_to_list.
  - intros b j. rewrite HP. by rewrite elem_of_map_to_list.
  - unfold process_only_leases_support in Ha.
    destruct (decide (a ∈ (hash_order _ (map_to_list (ig_leases c))).*1)) as [Hin|Hin].
    + destruct (J2 Hin) as (j&Hj&t&->&Ht). rewrite Hj in Ha. injection Ha as <-. exists t. split_and!; [done..|lia].
    + rewrite (J1 Hin) in Ha. destruct Hin. apply list_elem_of_fmap. exists (a, i). split; [done|].
      by rewrite HP, elem_of_map_to_list.
Qed.

End Client.

(** ** Subnets: the octets are masked one by one, as the 32-bit numbers are *)

Definition ip_number (a : Ipv4) : Z := foldl (λ n x, n * 256 + byte_val x) 0 (octets a).

Lemma high_bits z k : 0 <= z < 256 → 8 <= k → Z.testbit z k = false.
Proof.
  intros Hz Hk. rewrite <- (Z.mod_small z (2 ^ 8)) by (change (2 ^ 8) with 256; lia). apply Z.mod_pow2_bits_high. lia.
Qed.

Lemma land_byte y n : 0 <= y < 256 → 0 <= n < 256 → 0 <= Z.land y n < 256.
Proof.
  intros Hy Hn. split; [apply Z.land_nonneg; lia|].
  replace (Z.land y n) with (Z.land y n `mod` 2 ^ 8); [change 256 with (2 ^ 8); apply Z.mod_pos_bound; lia|].
  rewrite <- Z.land_ones by lia. apply Z.bits_inj'. intros k Hk. rewrite !Z.land_spec.
  destruct (decide (k < 8)) as [H8|H8]; [rewrite Z.ones_spec_low by lia; apply andb_true_r|].
  by rewrite (high_bits y k), andb_false_l by lia.
Qed.

Lemma octet_bits a b : 0 <= b < 256 → a * 256 + b = Z.lor (Z.shiftl a 8) b.
Proof.
  intros Hb. rewrite Z.shiftl_mul_pow2 by lia. change 256 with (2 ^ 8). rewrite <- Z.add_lor_land, Z.add_comm.
  enough (Z.land (a * 2 ^ 8) b = 0) as -> by lia. apply Z.bits_inj'. intros k Hk. rewrite Z.land_spec, Z.bits_0.
  destruct (decide (k < 8)) as [H8|H8]; [by rewrite Z.mul_pow2_bits_low|].
  rewrite (high_bits b k) by lia. apply andb_false_r.
Qed.

Lemma land_octet x y m n : 0 <= y < 256 → 0 <= n < 256 →
  Z.land (x * 256 + y) (m * 256 + n) = Z.land x m * 256 + Z.land y n.
Proof.
  intros Hy Hn. rewrite !octet_bits by (done || by apply land_byte).
  apply Z.bits_inj'. intros k Hk. rewrite !Z.land_spec, !Z.lor_spec, !Z.land_spec.
  destruct (decide (k < 8)) as [H8|H8].
  - by rewrite !Z.shiftl_spec_low by lia.
  - rewrite !Z.shiftl_spec_high, Z.land_spec, (high_bits y k), (high_bits n k) by lia. by rewrite !orb_false_r.
Qed.

(** Two addresses are in the same subnet when their 32-bit numbers agree under the mask. *)
Theorem in_same_subnet_numbers (a b mask : Ipv4) :
  in_same_subnet a b mask = (Z.land (ip_number a) (ip_number mask) =? Z.land (ip_number b) (ip_number mask)).
Proof.
  unfold in_same_subnet, ip_number, masked. cbn.
  rewrite !land_octet by apply byte_val_range.
  assert (∀ x m : byte, 0 <= Z.land (byte_val x) (byte_val m) < 256) as Hb
    by (intros; apply land_byte; apply byte_val_range).
  pose proof (Hb (o1 a) (o1 mask)). pose proof (Hb (o2 a) (o2 mask)). pose proof (Hb (o3 a) (o3 mask)). pose proof (Hb (o4 a) (o4 mask)).
  pose proof (Hb (o1 b) (o1 mask)). pose proof (Hb (o2 b) (o2 mask)). pose proof (Hb (o3 b) (o3 mask)). pose proof (Hb (o4 b) (o4 mask)).
  apply eq_true_iff_eq. rewrite bool_decide_eq_true, Z.eqb_eq. split; [intros [= -> -> -> ->]; done|].
  intros. do 4 (apply f_equal2; [lia|]). done.
Qed.

(** ** A router that grants every port *)

Module RouterDemo.

Definition ip (a b c d : Z) : Ipv4 := mkIpv4 (byte_of a) (byte_of b) (byte_of c) (byte_of d).
Record Router := mkRouter { rt_mapped : gset Z; rt_leases_only : bool }.

#[export] Instance demo_gateway : Gateway Router := {
  gw_ip _ := ip 192 168 1 1;
  gw_external_ip _ := Some (ip 8 8 8 8);
  gw_add_port p _ d g :=
    if rt_leases_only g && (d =? 0) then (g, inl OnlyPermanentLeasesSupported)
    else (mkRouter ({[p]} ∪ rt_mapped g) (rt_leases_only g), inr tt);
  gw_remove_port p g := mkRouter (rt_mapped g ∖ {[p]}) (rt_leases_only g);
  gw_mapped := rt_mapped;
}.
#[export] Instance demo_gateway_laws : GatewayLaws Router.
Proof. split; [|done]. intros p a d [m b] g' r. cbn. case_match; by intros [= <- <-]. Qed.

Definition home : list Network := [mkNetwork (ip 10 0 0 5) (ip 255 0 0 0); mkNetwork (ip 192 168 1 7) (ip 255 255 255 0)].
Definition client (leases_only : bool) : IgdClient := mkIgd (mkRouter ∅ leases_only) (mkNetwork (ip 192 168 1 7) (ip 255 255 255 0)) false ∅ ∅.
Definition at_home (d port : Z) : Multiaddr := socketaddr_to_multiaddr (mkSocketAddr (of_ipv4 (ip 192 168 1 d)) port).
Definition do_register (address : Multiaddr) (c : IgdClient (G := Router)) : IgdClient := default c (register 0 address c).
Definition do_remove (address : Multiaddr) (c : IgdClient (G := Router)) : IgdClient := default c (remove address c).

End RouterDemo.

Import RouterDemo.

Lemma igd_leaves_nothing_mapped_witness :
  let c := do_register (at_home 7 8114) (client false) in
  (∀ p, p ∈ mapped c → p ∈ mapped (client false) ∨ ∃ a, a ∈ known c ∧ sa_port a = p) ∧
  (∀ a, a ∈ known c → is_loopback (sa_ip a) = false ∧ is_multicast (sa_ip a) = false) ∧
  mapped (clear c) ⊆ mapped (client false) ∧ known (clear c) = ∅.
Proof.
  apply (igd_leaves_nothing_mapped (Some (mkRouter ∅ false)) (Some home) (client false)); [by vm_compute|].
  eapply rtc_l; [|apply rtc_refl]. apply (igd_register 0 (at_home 7 8114)). unfold do_register.
  by destruct (register_total 0 (at_home 7 8114) (Some (mkSocketAddr (of_ipv4 (ip 192 168 1 7)) 8114)) (client false)) as [c' ->]; [by vm_compute|].
Defined.

Lemma leases_renewed_in_time_witness :
  ∃ t, Some 50000 = Some t ∧ 50000 - t <= 40 * 1000 ∧ 70000 - t <= 60 * 1000.
Proof.
  apply (leases_renewed_in_time 50000 70000 (do_register (at_home 7 8114) (client true))
    (mkSocketAddr (of_ipv4 (ip 192 168 1 7)) 8114)); [lia|]. by vm_compute.
Defined.

(** Two addresses with one port: removing the first takes the port of the second back, though the
    client still counts the second as mapped. *)
Lemma shared_port_unmapped :
  let c := do_remove (at_home 7 8114) (do_register (at_home 8 8114) (do_register (at_home 7 8114) (client false))) in
  mkSocketAddr (of_ipv4 (ip 192 168 1 8)) 8114 ∈ ig_succeeded c ∧ 8114 ∉ mapped c.
Proof. split; apply (bool_decide_unpack _); by vm_compute. Qed.
