(* ===== verification/ProtocolHandle.v ===== *)
(** * Protocol handlers ([tentacle/tentacle/src/protocol_handle_stream.rs])

    [ServiceProtocolStream] and [SessionProtocolStream] are the tasks that run the callbacks of a
    protocol: one per protocol for all sessions, or one per protocol and session. They take events
    from the substreams and the service, and tokens from the timers they have armed. The flags
    [shutdown] and [closed] are shared with other tasks, so a handler takes what it reads as
    arguments, once more where it reads again after an [await]. A callback that panics ends the
    task; the state it leaves is the one [drop] sees. *)

From Stdlib Require Import ZArith Lia Bool.
From stdpp Require Import base list gmap.
From S2P Require Import Prelude Text Channels PriorityChannel Messages Multiaddr Buffers YamuxFrame Wire Select Tentacle Session Service.

Open Scope Z_scope.

(** ** The callbacks of a user *)

(** The calls of [ServiceProtocol] and [SessionProtocol]; a context is its session. *)
Inductive Callback :=
| CbInit
| CbConnected (session : Z) (version : bytes)
| CbDisconnected (session : Z)
| CbReceived (session : Z) (data : bytes)
| CbNotify (token : Z).

(** [ph_call] is [false] when the callback panics; [ph_poll], the callback [poll], is [None] when
    it does. *)
Class ProtocolHandler (H : Type) := {
  ph_call : Callback → H → H * bool;
  ph_poll : H → H * option (Poll (option unit));
}.

(** What other tasks have set: the shutdown flag and the sessions that are closed. *)
Record SharedFlags := mkSharedFlags { fl_shutdown : bool; fl_closed : gset Z }.

Inductive CurrentTask := Idle | Run (id : option Z).

(** The branch [tokio::select!] takes; any that is ready may be taken. *)
Inductive Branch := BrEvent | BrNotify | BrPoll | BrStop.

(** ** Service level *)

Section ServiceLevel.
Context {H R : Type} `{PH : ProtocolHandler H} `{RC : Receiver R ServiceProtocolEvent} `{HO : HashOrder}.

(** [ps_timers] are the armed timers, interval and token; [ps_fired] the tokens in the channel
    of the timers, which the stream holds open itself; [ps_calls] is the ghost log of callbacks. *)
Record ServiceProtocolStream := mkServiceProtocolStream {
  ps_handle : H;
  ps_proto_id : Z;
  ps_listens : list Multiaddr;
  ps_sessions : gset Z;
  ps_receiver : R;
  ps_notify : gmap Z Z;
  ps_current_task : CurrentTask;
  ps_need_poll : bool;
  ps_timers : list (Z * Z);
  ps_fired : list Z;
  ps_calls : list Callback;
}.
Definition ps_put_handle (v : H) (s : ServiceProtocolStream) : ServiceProtocolStream :=
  mkServiceProtocolStream v (ps_proto_id s) (ps_listens s) (ps_sessions s) (ps_receiver s)
    (ps_notify s) (ps_current_task s) (ps_need_poll s) (ps_timers s) (ps_fired s) (ps_calls s).
Definition ps_put_listens (v : list Multiaddr) (s : ServiceProtocolStream) : ServiceProtocolStream :=
  mkServiceProtocolStream (ps_handle s) (ps_proto_id s) v (ps_sessions s) (ps_receiver s)
    (ps_notify s) (ps_current_task s) (ps_need_poll s) (ps_timers s) (ps_fired s) (ps_calls s).
Definition ps_put_sessions (v : gset Z) (s : ServiceProtocolStream) : ServiceProtocolStream :=
  mkServiceProtocolStream (ps_handle s) (ps_proto_id s) (ps_listens s) v (ps_receiver s)
    (ps_notify s) (ps_current_task s) (ps_need_poll s) (ps_timers s) (ps_fired s) (ps_calls s).
Definition ps_put_receiver (v : R) (s : ServiceProtocolStream) : ServiceProtocolStream :=
  mkServiceProtocolStream (ps_handle s) (ps_proto_id s) (ps_listens s) (ps_sessions s) v
    (ps_notify s) (ps_current_task s) (ps_need_poll s) (ps_timers s) (ps_fired s) (ps_calls s).
Definition ps_put_notify (v : gmap Z Z) (s : ServiceProtocolStream) : ServiceProtocolStream :=
  mkServiceProtocolStream (ps_handle s) (ps_proto_id s) (ps_listens s) (ps_sessions s)
    (ps_receiver s) v (ps_current_task s) (ps_need_poll s) (ps_timers s) (ps_fired s) (ps_calls s).
Definition ps_put_current_task (v : CurrentTask) (s : ServiceProtocolStream) : ServiceProtocolStream :=
  mkServiceProtocolStream (ps_handle s) (ps_proto_id s) (ps_listens s) (ps_sessions s)
    (ps_receiver s) (ps_notify s) v (ps_need_poll s) (ps_timers s) (ps_fired s) (ps_calls s).
Definition ps_put_need_poll (v : bool) (s : ServiceProtocolStream) : ServiceProtocolStream :=
  mkServiceProtocolStream (ps_handle s) (ps_proto_id s) (ps_listens s) (ps_sessions s)
    (ps_receiver s) (ps_notify s) (ps_current_task s) v (ps_timers s) (ps_fired s) (ps_calls s).
Definition ps_put_timers (v : list (Z * Z)) (s : ServiceProtocolStream) : ServiceProtocolStream :=
  mkServiceProtocolStream (ps_handle s) (ps_proto_id s) (ps_listens s) (ps_sessions s)
    (ps_receiver s) (ps_notify s) (ps_current_task s) (ps_need_poll s) v (ps_fired s) (ps_calls s).
Definition ps_put_fired (v : list Z) (s : ServiceProtocolStream) : ServiceProtocolStream :=
  mkServiceProtocolStream (ps_handle s) (ps_proto_id s) (ps_listens s) (ps_sessions s)
    (ps_receiver s) (ps_notify s) (ps_current_task s) (ps_need_poll s) (ps_timers s) v
    (ps_calls s).
Definition ps_put_calls (v : list Callback) (s : ServiceProtocolStream) : ServiceProtocolStream :=
  mkServiceProtocolStream (ps_handle s) (ps_proto_id s) (ps_listens s) (ps_sessions s)
    (ps_receiver s) (ps_notify s) (ps_current_task s) (ps_need_poll s) (ps_timers s) (ps_fired s)
    v.
Abbreviation PM := (M ServiceProtocolStream Empty_set) (only parsing).

Definition ServiceProtocolStream_new (handle : H) (proto_id : Z) (listens : list Multiaddr)
    (receiver : R) : ServiceProtocolStream :=
  mkServiceProtocolStream handle proto_id listens ∅ receiver ∅ Idle true [] [] [].

(** A callback, awaited. *)
Definition ps_callback (c : Callback) : PM unit :=
  s ← gets (λ s, s);
  let '(handle, ok) := ph_call c (ps_handle s) in
  modify (λ s, ps_put_calls (ps_calls s ++ [c]) (ps_put_handle handle s)) ;;
  if ok : bool then mret tt else panic.

Definition ps_set_notify (token : Z) : PM unit :=
  notify ← gets ps_notify;
  match notify !! token with
  | Some interval => modify (λ s, ps_put_timers (ps_timers s ++ [(interval, token)]) s)
  | None => mret tt
  end.

(** The sessions that were closed are disconnected first. *)
Fixpoint ps_sweep (closed_sessions : list Z) : PM unit :=
  match closed_sessions with
  | [] => mret tt
  | session_id :: rest =>
      sessions ← gets ps_sessions;
      (if bool_decide (session_id ∈ sessions) then
         modify (ps_put_sessions (sessions ∖ {[session_id]})) ;;
         ps_callback (CbDisconnected session_id)
       else mret tt) ;;
      ps_sweep rest
  end.

Definition ps_run_task (t : CurrentTask) : PM unit := modify (ps_put_current_task t).

(** [f] is what is read at the start, [f'] what is read again for a message. *)
Definition ps_handle_event (f f' : SharedFlags) (event : ServiceProtocolEvent) : PM unit :=
  if fl_shutdown f && (match event with SvDisconnected _ => false | _ => true end) then mret tt else
  sessions ← gets ps_sessions;
  ps_sweep (hash_order _ (elements (sessions ∩ fl_closed f))) ;;
  match event with
  | SvInit => ps_run_task (Run None) ;; ps_callback CbInit
  | SvConnected session version =>
      ps_run_task (Run (Some session)) ;;
      ps_callback (CbConnected session version) ;;
      modify (λ s, ps_put_sessions ({[session]} ∪ ps_sessions s) s)
  | SvDisconnected id =>
      ps_run_task (Run (Some id)) ;;
      sessions ← gets ps_sessions;
      if bool_decide (id ∈ sessions) then
        modify (ps_put_sessions (sessions ∖ {[id]})) ;;
        ps_callback (CbDisconnected id)
      else mret tt
  | SvReceived id data =>
      ps_run_task (Run (Some id)) ;;
      sessions ← gets ps_sessions;
      if bool_decide (id ∈ sessions) && negb (bool_decide (id ∈ fl_closed f')) && negb (fl_shutdown f') then
        ps_callback (CbReceived id data)
      else mret tt
  | SvNotify token =>
      ps_run_task (Run None) ;;
      ps_callback (CbNotify token) ;;
      ps_set_notify token
  | SvSetNotify interval token =>
      ps_run_task (Run None) ;;
      modify (λ s, ps_put_notify (<[token := default interval (ps_notify s !! token)]> (ps_notify s)) s) ;;
      ps_set_notify token
  | SvRemoveNotify token =>
      ps_run_task (Run None) ;;
      modify (λ s, ps_put_notify (delete token (ps_notify s)) s)
  | SvUpdate listen_addrs =>
      ps_run_task (Run None) ;;
      modify (ps_put_listens listen_addrs)
  end ;;
  ps_run_task Idle.

(** One turn of [run]: [true] when the loop ends. A branch that is not ready is not taken. *)
Definition ps_turn (head : bool) (f f' : SharedFlags) (b : Branch) : PM bool :=
  if head then ps_run_task Idle ;; mret true else
  match b with
  | BrEvent =>
      receiver ← gets ps_receiver;
      let '(receiver', p) := recv_poll_next receiver in
      modify (ps_put_receiver receiver') ;;
      match p with
      | Ready (Some event) => ps_handle_event f f' event ;; mret false
      | Ready None => ps_run_task Idle ;; mret true
      | Pending => mret false
      end
  | BrNotify =>
      fired ← gets ps_fired;
      match fired with
      | token :: rest => modify (ps_put_fired rest) ;; ps_handle_event f f' (SvNotify token) ;; mret false
      | [] => mret false
      end
  | BrPoll =>
      s ← gets (λ s, s);
      if ps_need_poll s then
        let '(handle, p) := ph_poll (ps_handle s) in
        modify (ps_put_handle handle) ;;
        match p with
        | Some (Ready o) => modify (ps_put_need_poll (match o with Some _ => true | None => false end)) ;; mret false
        | Some Pending => mret false
        | None => panic
        end
      else mret false
  | BrStop => mret true
  end.

(** The timer at this place ends: its token is sent. *)
Definition ps_timer_fires (i : nat) (s : ServiceProtocolStream) : ServiceProtocolStream :=
  match ps_timers s !! i with
  | Some (_, token) => ps_put_fired (ps_fired s ++ [token]) (ps_put_timers (take i (ps_timers s) ++ drop (S i) (ps_timers s)) s)
  | None => s
  end.

(** [drop]: the event that is sent. *)
Definition ps_drop {Hd St Inc} (shutdown : bool) (s : ServiceProtocolStream) : option (SessionEvent Hd St Inc) :=
  if shutdown then None else
  match ps_current_task s with
  | Run session_id => Some (ProtocolHandleError (AbnormallyClosed session_id) (ps_proto_id s))
  | Idle => None
  end.

End ServiceLevel.

(** ** Session level *)

Section SessionLevel.
Context {H R : Type} `{PH : ProtocolHandler H} `{RC : Receiver R SessionProtocolEvent} `{CR : CloseReceiver R}.

Record SessionProtocolStream := mkSessionProtocolStream {
  qs_handle : H;
  qs_proto_id : Z;
  qs_listens : list Multiaddr;
  qs_context : Z;
  qs_receiver : R;
  qs_notify : gmap Z Z;
  qs_current_task : bool;
  qs_need_poll : bool;
  qs_timers : list (Z * Z);
  qs_fired : list Z;
  qs_calls : list Callback;
}.
Definition qs_put_handle (v : H) (s : SessionProtocolStream) : SessionProtocolStream :=
  mkSessionProtocolStream v (qs_proto_id s) (qs_listens s) (qs_context s) (qs_receiver s)
    (qs_notify s) (qs_current_task s) (qs_need_poll s) (qs_timers s) (qs_fired s) (qs_calls s).
Definition qs_put_listens (v : list Multiaddr) (s : SessionProtocolStream) : SessionProtocolStream :=
  mkSessionProtocolStream (qs_handle s) (qs_proto_id s) v (qs_context s) (qs_receiver s)
    (qs_notify s) (qs_current_task s) (qs_need_poll s) (qs_timers s) (qs_fired s) (qs_calls s).
Definition qs_put_receiver (v : R) (s : SessionProtocolStream) : SessionProtocolStream :=
  mkSessionProtocolStream (qs_handle s) (qs_proto_id s) (qs_listens s) (qs_context s) v
    (qs_notify s) (qs_current_task s) (qs_need_poll s) (qs_timers s) (qs_fired s) (qs_calls s).
Definition qs_put_notify (v : gmap Z Z) (s : SessionProtocolStream) : SessionProtocolStream :=
  mkSessionProtocolStream (qs_handle s) (qs_proto_id s) (qs_listens s) (qs_context s)
    (qs_receiver s) v (qs_current_task s) (qs_need_poll s) (qs_timers s) (qs_fired s) (qs_calls s).
Definition qs_put_current_task (v : bool) (s : SessionProtocolStream) : SessionProtocolStream :=
  mkSessionProtocolStream (qs_handle s) (qs_proto_id s) (qs_listens s) (qs_context s)
    (qs_receiver s) (qs_notify s) v (qs_need_poll s) (qs_timers s) (qs_fired s) (qs_calls s).
Definition qs_put_need_poll (v : bool) (s : SessionProtocolStream) : SessionProtocolStream :=
  mkSessionProtocolStream (qs_handle s) (qs_proto_id s) (qs_listens s) (qs_context s)
    (qs_receiver s) (qs_notify s) (qs_current_task s) v (qs_timers s) (qs_fired s) (qs_calls s).
Definition qs_put_timers (v : list (Z * Z)) (s : SessionProtocolStream) : SessionProtocolStream :=
  mkSessionProtocolStream (qs_handle s) (qs_proto_id s) (qs_listens s) (qs_context s)
    (qs_receiver s) (qs_notify s) (qs_current_task s) (qs_need_poll s) v (qs_fired s) (qs_calls s).
Definition qs_put_fired (v : list Z) (s : SessionProtocolStream) : SessionProtocolStream :=
  mkSessionProtocolStream (qs_handle s) (qs_proto_id s) (qs_listens s) (qs_context s)
    (qs_receiver s) (qs_notify s) (qs_current_task s) (qs_need_poll s) (qs_timers s) v
    (qs_calls s).
Definition qs_put_calls (v : list Callback) (s : SessionProtocolStream) : SessionProtocolStream :=
  mkSessionProtocolStream (qs_handle s) (qs_proto_id s) (qs_listens s) (qs_context s)
    (qs_receiver s) (qs_notify s) (qs_current_task s) (qs_need_poll s) (qs_timers s) (qs_fired s)
    v.
Abbreviation QM := (M SessionProtocolStream Empty_set) (only parsing).

Definition SessionProtocolStream_new (handle : H) (proto_id : Z) (listens : list Multiaddr) (context : Z)
    (receiver : R) : SessionProtocolStream :=
  mkSessionProtocolStream handle proto_id listens context receiver ∅ false true [] [] [].

Definition qs_callback (c : Callback) : QM unit :=
  s ← gets (λ s, s);
  let '(handle, ok) := ph_call c (qs_handle s) in
  modify (λ s, qs_put_calls (qs_calls s ++ [c]) (qs_put_handle handle s)) ;;
  if ok : bool then mret tt else panic.

Definition qs_set_notify (token : Z) : QM unit :=
  notify ← gets qs_notify;
  match notify !! token with
  | Some interval => modify (λ s, qs_put_timers (qs_timers s ++ [(interval, token)]) s)
  | None => mret tt
  end.

Definition qs_close : QM unit :=
  modify (λ s, qs_put_receiver (rc_close (qs_receiver s)) s) ;; modify (qs_put_current_task false).

Definition qs_handle_event (shutdown closed : bool) (event : SessionProtocolEvent) : QM unit :=
  modify (qs_put_current_task true) ;;
  if shutdown && (match event with SeDisconnected | SeClosed => false | _ => true end) then
    modify (qs_put_current_task false)
  else
  let event := if closed then SeDisconnected else event in
  context ← gets qs_context;
  match event with
  | SeOpened version => qs_callback (CbConnected context version)
  | SeClosed => qs_callback (CbDisconnected context)
  | SeDisconnected => qs_close
  | SeReceived data => qs_callback (CbReceived context data)
  | SeNotify token => qs_callback (CbNotify token) ;; qs_set_notify token
  | SeSetNotify interval token =>
      modify (λ s, qs_put_notify (<[token := default interval (qs_notify s !! token)]> (qs_notify s)) s) ;;
      qs_set_notify token
  | SeRemoveNotify token => modify (λ s, qs_put_notify (delete token (qs_notify s)) s)
  | SeUpdate listen_addrs => modify (qs_put_listens listen_addrs)
  end ;;
  modify (qs_put_current_task false).

Definition qs_turn (shutdown closed : bool) (b : Branch) : QM bool :=
  match b with
  | BrEvent =>
      receiver ← gets qs_receiver;
      let '(receiver', p) := recv_poll_next receiver in
      modify (qs_put_receiver receiver') ;;
      match p with
      | Ready (Some event) => qs_handle_event shutdown closed event ;; mret false
      | Ready None => qs_close ;; mret true
      | Pending => mret false
      end
  | BrNotify =>
      fired ← gets qs_fired;
      match fired with
      | token :: rest => modify (qs_put_fired rest) ;; qs_handle_event shutdown closed (SeNotify token) ;; mret false
      | [] => mret false
      end
  | BrPoll =>
      s ← gets (λ s, s);
      if qs_need_poll s then
        let '(handle, p) := ph_poll (qs_handle s) in
        modify (qs_put_handle handle) ;;
        match p with
        | Some (Ready o) => modify (qs_put_need_poll (match o with Some _ => true | None => false end)) ;; mret false
        | Some Pending => mret false
        | None => panic
        end
      else mret false
  | BrStop => mret true
  end.

Definition qs_timer_fires (i : nat) (s : SessionProtocolStream) : SessionProtocolStream :=
  match qs_timers s !! i with
  | Some (_, token) => qs_put_fired (qs_fired s ++ [token]) (qs_put_timers (take i (qs_timers s) ++ drop (S i) (qs_timers s)) s)
  | None => s
  end.

Definition qs_drop {Hd St Inc} (shutdown : bool) (s : SessionProtocolStream) : option (SessionEvent Hd St Inc) :=
  if negb shutdown && qs_current_task s then
    Some (ProtocolHandleError (AbnormallyClosed (Some (qs_context s))) (qs_proto_id s))
  else None.

End SessionLevel.
