(* ===== verification/ProtocolHandleProofs.v ===== *)
(** * Properties of the protocol handlers

    The callbacks of a session are bracketed by [connected] and [disconnected], messages reach the
    handler in order, timers are not lost, a panic in a callback is reported, and after a shutdown
    or the end of a session nothing but [disconnected] is called. *)

From Stdlib Require Import ZArith Lia Bool.
From stdpp Require Import base list gmap.
From S2P Require Import Prelude Text Channels PriorityChannel Messages Multiaddr Buffers YamuxFrame Wire Select Tentacle Session Service ProtocolHandle.

Open Scope Z_scope.

(** ** Runs that may panic

    [wpx c Q P s]: from [s] the method returns with [Q] or panics in a state with [P]. *)

Definition wpx {S A} (c : M S Empty_set A) (Q : A → S → Prop) (P : S → Prop) (s : S) : Prop :=
  match c s with (s', ROk a) => Q a s' | (s', RErr _) => False | (s', RPanic) => P s' end.

Section Wpx.
Context {S : Type}.

Lemma wpx_bind {A B} (c : M S Empty_set A) (k : A → M S Empty_set B) Q P s :
  wpx c (λ a, wpx (k a) Q P) P s → wpx (c ≫= k) Q P s.
Proof. unfold wpx, mbind, M_bind. by destruct (c s) as [s1 []]. Qed.

Lemma wpx_ret {A} (a : A) (Q : A → S → Prop) P s : Q a s → wpx (mret a) Q P s.
Proof. done. Qed.

Lemma wpx_gets {A} (f : S → A) (Q : A → S → Prop) P s : Q (f s) s → wpx (gets f) Q P s.
Proof. done. Qed.

Lemma wpx_modify f (Q : unit → S → Prop) P s : Q tt (f s) → wpx (modify f) Q P s.
Proof. done. Qed.

Lemma wpx_mono {A} (c : M S Empty_set A) (Q Q' : A → S → Prop) (P P' : S → Prop) s :
  wpx c Q P s → (∀ a s', Q a s' → Q' a s') → (∀ s', P s' → P' s') → wpx c Q' P' s.
Proof. unfold wpx. destruct (c s) as [s1 []]; auto. Qed.

Lemma wpx_ok {A} (c : M S Empty_set A) (Q : A → S → Prop) P s s' a : wpx c Q P s → c s = (s', ROk a) → Q a s'.
Proof. unfold wpx. intros H E. by rewrite E in H. Qed.

Lemma wpx_panic {A} (c : M S Empty_set A) (Q : A → S → Prop) P s s' : wpx c Q P s → c s = (s', RPanic) → P s'.
Proof. unfold wpx. intros H E. by rewrite E in H. Qed.

End Wpx.

Ltac wpx_step :=
  lazymatch goal with
  | |- wpx (mbind _ _) _ _ _ => apply wpx_bind
  | |- wpx (mret _) _ _ _ => apply wpx_ret; cbn beta
  | |- wpx (gets _) _ _ _ => apply wpx_gets; cbn beta
  | |- wpx (modify _) _ _ _ => apply wpx_modify; cbn beta
  end.

Section ServiceLevel.
Context {H R : Type} `{PH : ProtocolHandler H} `{RL : ReceiverLaws R ServiceProtocolEvent} `{HOL : HashOrderLaws}.
Abbreviation PS := (@ServiceProtocolStream H R) (only parsing).

(** ** What one event does *)

(** The session an event is about. *)
Definition event_session (e : ServiceProtocolEvent) : option Z :=
  match e with
  | SvConnected id _ | SvDisconnected id | SvReceived id _ => Some id
  | _ => None
  end.

(** The callback of an event, when the handler knows the sessions [l]. *)
Definition event_calls (f' : SharedFlags) (l : gset Z) (e : ServiceProtocolEvent) : list Callback :=
  match e with
  | SvInit => [CbInit]
  | SvConnected id version => [CbConnected id version]
  | SvDisconnected id => if bool_decide (id ∈ l) then [CbDisconnected id] else []
  | SvReceived id data =>
      if bool_decide (id ∈ l) && negb (bool_decide (id ∈ fl_closed f')) && negb (fl_shutdown f')
      then [CbReceived id data] else []
  | SvNotify token => [CbNotify token]
  | SvSetNotify _ _ | SvRemoveNotify _ | SvUpdate _ => []
  end.

Definition event_sessions (l : gset Z) (e : ServiceProtocolEvent) : gset Z :=
  match e with
  | SvConnected id _ => {[id]} ∪ l
  | SvDisconnected id => l ∖ {[id]}
  | _ => l
  end.

Definition event_notify (n : gmap Z Z) (e : ServiceProtocolEvent) : gmap Z Z :=
  match e with
  | SvSetNotify interval token => <[token := default interval (n !! token)]> n
  | SvRemoveNotify token => delete token n
  | _ => n
  end.

(** The timer an event arms. *)
Definition event_timers (n : gmap Z Z) (e : ServiceProtocolEvent) : list (Z * Z) :=
  match e with
  | SvSetNotify interval token => [(default interval (n !! token), token)]
  | SvNotify token => match n !! token with Some interval => [(interval, token)] | None => [] end
  | _ => []
  end.

(** What the parts the handler does not touch keep. *)
Definition same_stream (s s' : PS) : Prop :=
  ps_receiver s' = ps_receiver s ∧ ps_fired s' = ps_fired s ∧ ps_need_poll s' = ps_need_poll s ∧
  ps_proto_id s' = ps_proto_id s.

#[local] Instance same_stream_preorder : PreOrder same_stream.
Proof. split; unfold same_stream; [done|]. intros s1 s2 s3. naive_solver congruence. Qed.

(** A callback panicked: what was called, and what [drop] sees. *)
Definition panicked (s : PS) (l : list Callback) (t : CurrentTask) (s' : PS) : Prop :=
  ∃ k, (k < length l)%nat ∧ ps_calls s' = ps_calls s ++ take (S k) l ∧ ps_current_task s' = t ∧
    ps_proto_id s' = ps_proto_id s.

Definition called (c : Callback) (s s' : PS) : Prop :=
  ps_calls s' = ps_calls s ++ [c] ∧ ps_sessions s' = ps_sessions s ∧ ps_notify s' = ps_notify s ∧
  ps_timers s' = ps_timers s ∧ ps_current_task s' = ps_current_task s ∧ same_stream s s'.

Lemma callback_spec c (s : PS) : wpx (ps_callback c) (λ _ s', called c s s') (λ s', called c s s') s.
Proof.
  unfold ps_callback. wpx_step. wpx_step. destruct (ph_call c (ps_handle s)) as [h []]; wpx_step; wpx_step; done.
Qed.

Lemma sweep_spec l (s : PS) : NoDup l → (∀ id, id ∈ l → id ∈ ps_sessions s) →
  wpx (ps_sweep l)
    (λ _ s', ps_calls s' = ps_calls s ++ (CbDisconnected <$> l) ∧ ps_sessions s' = ps_sessions s ∖ list_to_set l ∧
      ps_notify s' = ps_notify s ∧ ps_timers s' = ps_timers s ∧ ps_current_task s' = ps_current_task s ∧ same_stream s s')
    (panicked s (CbDisconnected <$> l) (ps_current_task s)) s.
Proof.
  revert s. induction l as [|id l IH]; intros s Hnd Hin; cbn [ps_sweep].
  - wpx_step. cbn. rewrite app_nil_r, difference_empty_L. split_and!; done.
  - apply NoDup_cons in Hnd as [Hid Hnd]. wpx_step. wpx_step. wpx_step.
    rewrite bool_decide_eq_true_2 by (apply Hin; set_solver). wpx_step. wpx_step.
    eapply wpx_mono; [apply callback_spec| |].
    + cbn. intros [] s1 (C1 & C2 & C3 & C4 & C5 & C6). cbn in *. eapply wpx_mono; [apply IH; [done|]| |].
      * intros j Hj. rewrite C2. assert (j ≠ id) by (by intros ->). set_solver.
      * cbn. intros [] s2 (D1 & D2 & D3 & D4 & D5 & D6). split_and!; try congruence.
        -- by rewrite D1, C1, <- app_assoc.
        -- rewrite D2, C2. set_solver.
        -- etrans; [exact C6|exact D6].
      * intros s2 (k & Hk & D1 & D2 & D3). exists (S k). split_and!.
        -- cbn. lia.
        -- by rewrite D1, C1, <- app_assoc.
        -- congruence.
        -- etrans; [exact D3|apply C6].
    + intros s1 (C1 & _ & _ & _ & C5 & C6). exists 0%nat. split_and!; [cbn; lia|done|done|apply C6].
Qed.

(** The sessions that an event finds closed, in the order they are disconnected. *)
Definition swept (f : SharedFlags) (s : PS) : list Z := hash_order _ (elements (ps_sessions s ∩ fl_closed f)).

Lemma elem_swept f s id : id ∈ swept f s ↔ id ∈ ps_sessions s ∧ id ∈ fl_closed f.
Proof. unfold swept. rewrite hash_order_perm, elem_of_elements. set_solver. Qed.

Lemma swept_NoDup f s : NoDup (swept f s).
Proof. unfold swept. rewrite hash_order_perm. apply NoDup_elements. Qed.

(** An event that is not ignored. *)
Definition handled (f : SharedFlags) (e : ServiceProtocolEvent) : bool :=
  negb (fl_shutdown f) || match e with SvDisconnected _ => true | _ => false end.

Definition open_sessions (f : SharedFlags) (s : PS) : gset Z := ps_sessions s ∖ fl_closed f.

Record event_done (f f' : SharedFlags) (e : ServiceProtocolEvent) (s s' : PS) : Prop := {
  ed_calls : ps_calls s' = ps_calls s ++ (CbDisconnected <$> swept f s) ++ event_calls f' (open_sessions f s) e;
  ed_sessions : ps_sessions s' = event_sessions (open_sessions f s) e;
  ed_notify : ps_notify s' = event_notify (ps_notify s) e;
  ed_timers : ps_timers s' = ps_timers s ++ event_timers (ps_notify s) e;
  ed_idle : ps_current_task s' = Idle;
  ed_same : same_stream s s';
}.

(** A panic in the callback of the event or in one of those before it. *)
Definition event_panicked (f f' : SharedFlags) (e : ServiceProtocolEvent) (s s' : PS) : Prop :=
  panicked s (CbDisconnected <$> swept f s) (ps_current_task s) s' ∨
  (∃ c, event_calls f' (open_sessions f s) e = [c] ∧
   ps_calls s' = ps_calls s ++ (CbDisconnected <$> swept f s) ++ [c] ∧
   ps_current_task s' = Run (event_session e) ∧ ps_proto_id s' = ps_proto_id s).

Ltac fin := cbn in *; rewrite ?app_nil_r; first [done|congruence|idtac].

Lemma handle_event_spec f f' e (s : PS) : handled f e = true →
  wpx (ps_handle_event f f' e) (λ _, event_done f f' e s) (event_panicked f f' e s) s.
Proof.
  intros Hh. unfold ps_handle_event.
  assert (Hsh : fl_shutdown f && (match e with SvDisconnected _ => false | _ => true end) = false)
    by (unfold handled in Hh; by destruct (fl_shutdown f), e).
  rewrite Hsh.
  wpx_step. wpx_step. wpx_step. fold (swept f s).
  eapply wpx_mono; [apply sweep_spec; [apply swept_NoDup|]; intros id Hid; apply elem_swept in Hid; apply Hid| |].
  2:{ intros s' Hp. by left. }
  cbn. intros [] s1 (C1 & C2 & C3 & C4 & C5 & C6).
  assert (C2' : ps_sessions s1 = open_sessions f s).
  { rewrite C2. unfold open_sessions. apply set_eq. intros id. rewrite !elem_of_difference, elem_of_list_to_set, elem_swept. naive_solver. }
  clear C2.
  (* a callback after the sweep *)
  assert (Hcb : ∀ c s2, ps_calls s2 = ps_calls s1 → ps_current_task s2 = Run (event_session e) →
    ps_proto_id s2 = ps_proto_id s1 → event_calls f' (open_sessions f s) e = [c] →
    ∀ Q, (∀ s3, called c s2 s3 → Q tt s3) → wpx (ps_callback c) Q (event_panicked f f' e s) s2).
  { intros c s2 E1 E2 E3 E4 Q HQ. eapply wpx_mono; [apply callback_spec|intros [] s3; apply HQ|].
    intros s3 (D1 & _ & _ & _ & D5 & D6). right. exists c. split_and!.
    - done.
    - by rewrite D1, E1, C1, <- app_assoc.
    - by rewrite D5.
    - destruct D6 as (_ & _ & _ & ->). destruct C6 as (_ & _ & _ & C6). congruence. }
  assert (Hd : ∀ s3 cs, ps_calls s3 = ps_calls s1 ++ cs → event_calls f' (open_sessions f s) e = cs →
    ps_sessions s3 = event_sessions (open_sessions f s) e → ps_notify s3 = event_notify (ps_notify s) e →
    ps_timers s3 = ps_timers s ++ event_timers (ps_notify s) e → same_stream s1 s3 →
    wpx (ps_run_task Idle) (λ _, event_done f f' e s) (event_panicked f f' e s) s3).
  { intros s3 cs E1 E2 E3 E4 E5 E6. unfold ps_run_task. wpx_step. split; cbn; try done.
    - by rewrite E1, E2, C1, <- app_assoc.
    - etrans; [exact C6|exact E6]. }
  destruct e as [|id v|id|id d|iv t|t|t|ls]; cbn [event_session event_calls event_sessions event_notify event_timers] in *.
  all: apply wpx_bind, wpx_bind, wpx_modify; cbn beta.
  - eapply Hcb; [done..|]. intros s3 (D1 & D2 & D3 & D4 & D5 & D6). eapply (Hd _ [_]); fin.
  - wpx_step. eapply Hcb; [done..|]. intros s3 (D1 & D2 & D3 & D4 & D5 & D6). wpx_step. eapply (Hd _ [_]); fin.
  - wpx_step. wpx_step. cbn [ps_sessions ps_put_current_task]. rewrite C2'. case_bool_decide as Hin.
    + wpx_step. wpx_step. eapply Hcb; [done..|]. intros s3 (D1 & D2 & D3 & D4 & D5 & D6).
      eapply (Hd _ [_]); fin.
    + wpx_step. eapply (Hd _ []); fin. clear -C2' Hin. set_solver.
  - wpx_step. wpx_step. cbn [ps_sessions ps_put_current_task]. rewrite C2'. case_match eqn:Ec.
    + eapply Hcb; [done..|]. intros s3 (D1 & D2 & D3 & D4 & D5 & D6). eapply (Hd _ [_]); fin.
    + wpx_step. eapply (Hd _ []); fin.
  - wpx_step. wpx_step. unfold ps_set_notify. wpx_step. wpx_step. cbn. rewrite C3, lookup_insert_eq. wpx_step.
    eapply (Hd _ []); fin.
  - wpx_step. eapply (Hd _ []); fin.
  - wpx_step. eapply Hcb; [done..|]. intros s3 (D1 & D2 & D3 & D4 & D5 & D6). unfold ps_set_notify. wpx_step. wpx_step.
    cbn in D3. rewrite D3, C3. destruct (ps_notify s !! t) as [iv|] eqn:E.
    + wpx_step. eapply (Hd _ [_]); fin.
    + wpx_step. eapply (Hd _ [_]); fin.
  - wpx_step. eapply (Hd _ []); fin.
Qed.

Lemma ignored_event f f' e (s : PS) : handled f e = false → ps_handle_event f f' e s = (s, ROk tt).
Proof.
  unfold handled, ps_handle_event. destruct (fl_shutdown f); [|done]. by destruct e.
Qed.

(** What a turn of the loop takes. *)
Definition taken_event (head : bool) (b : Branch) (s : PS) : option ServiceProtocolEvent :=
  if head then None else
  match b with
  | BrEvent => match (recv_poll_next (ps_receiver s)).2 with Ready o => o | Pending => None end
  | BrNotify => SvNotify <$> List.hd_error (ps_fired s)
  | _ => None
  end.

(** The stream before its turn handles an event. *)
Definition after_take (b : Branch) (s : PS) : PS :=
  match b with
  | BrEvent => ps_put_receiver (recv_poll_next (ps_receiver s)).1 s
  | BrNotify => ps_put_fired (tail (ps_fired s)) s
  | _ => s
  end.

Definition same_view (s s' : PS) : Prop :=
  ps_calls s' = ps_calls s ∧ ps_sessions s' = ps_sessions s ∧ ps_notify s' = ps_notify s ∧
  ps_timers s' = ps_timers s ∧ ps_fired s' = ps_fired s ∧ (ps_current_task s = Idle → ps_current_task s' = Idle).

Lemma turn_cases head f f' b (s s' : PS) ended : ps_turn head f f' b s = (s', ROk ended) →
  match taken_event head b s with
  | Some e => ps_handle_event f f' e (after_take b s) = (s', ROk tt)
  | None => same_view s s'
  end.
Proof.
  unfold ps_turn, taken_event, after_take. destruct head; [intros [= <- <-]; by split_and!|].
  unfold mbind, M_bind, gets, modify. destruct b.
  - destruct (recv_poll_next (ps_receiver s)) as [r [[e|]|]]; cbn.
    + destruct (ps_handle_event f f' e (ps_put_receiver r s)) as [s1 [[]| |]]; by intros [= <- <-].
    + intros [= <- <-]. by split_and!.
    + intros [= <- <-]. by split_and!.
  - destruct (ps_fired s) as [|t q] eqn:E; cbn; [intros [= <- <-]; by split_and!|].
    destruct (ps_handle_event f f' (SvNotify t) (ps_put_fired q s)) as [s1 [[]| |]]; by intros [= <- <-].
  - destruct (ps_need_poll s); [|intros [= <- <-]; by split_and!].
    destruct (ph_poll (ps_handle s)) as [h [[o|]|]]; intros [= <- <-]; by split_and!.
  - intros [= <- <-]. by split_and!.
Qed.

(** A turn that panics: in the event it handles, or in the callback [poll]. *)
Lemma turn_panics head f f' b (s s' : PS) : ps_turn head f f' b s = (s', RPanic) →
  match taken_event head b s with
  | Some e => ps_handle_event f f' e (after_take b s) = (s', RPanic)
  | None => ps_calls s' = ps_calls s ∧ ps_current_task s' = ps_current_task s ∧ ps_proto_id s' = ps_proto_id s
  end.
Proof.
  unfold ps_turn, taken_event, after_take. destruct head; [discriminate|].
  unfold mbind, M_bind, gets, modify. destruct b.
  - destruct (recv_poll_next (ps_receiver s)) as [r [[e|]|]]; cbn; [|discriminate..].
    destruct (ps_handle_event f f' e (ps_put_receiver r s)) as [s1 [[]| |]]; by intros [= <-].
  - destruct (ps_fired s) as [|t q] eqn:E; cbn; [discriminate|].
    destruct (ps_handle_event f f' (SvNotify t) (ps_put_fired q s)) as [s1 [[]| |]]; by intros [= <-].
  - destruct (ps_need_poll s); [|discriminate].
    destruct (ph_poll (ps_handle s)) as [h [[o|]|]]; by intros [= <-].
  - discriminate.
Qed.

(** ** Runs *)

(** The flag says whether a shutdown was seen. *)
Inductive ps_run (s0 : PS) : bool → PS → Prop :=
| ps_run_new : ps_run s0 false s0
| ps_run_init sd s f f' s' : ps_run s0 sd s → ps_handle_event f f' SvInit s = (s', ROk tt) →
    ps_run s0 (sd || fl_shutdown f) s'
| ps_run_turn sd s head f f' b s' ended : ps_run s0 sd s → ps_turn head f f' b s = (s', ROk ended) →
    ps_run s0 (sd || fl_shutdown f) s'
| ps_run_timer sd s i : ps_run s0 sd s → ps_run s0 sd (ps_timer_fires i s)
| ps_run_others sd s r : ps_run s0 sd s → ps_run s0 sd (ps_put_receiver r s).

Definition fresh_handler (s0 : PS) : Prop :=
  ∃ handle proto_id listens receiver, s0 = ServiceProtocolStream_new handle proto_id listens receiver.

(** The handler's view of a session: whether it is connected; [None] after a callback that came
    while it was not. *)
Definition cb_step (id : Z) (st : option bool) (c : Callback) : option bool :=
  match c, st with
  | CbConnected j _, Some _ => if j =? id then Some true else st
  | CbDisconnected j, Some b => if j =? id then (if b then Some false else None) else st
  | CbReceived j _, Some b => if j =? id then (if b then Some true else None) else st
  | _, _ => st
  end.
Definition cb_view (id : Z) (log : list Callback) : option bool := foldl (cb_step id) (Some false) log.

Definition view_ok (log : list Callback) (l : gset Z) : Prop :=
  ∀ id, cb_view id log = Some (bool_decide (id ∈ l)).

Lemma cb_view_app id a b : cb_view id (a ++ b) = foldl (cb_step id) (cb_view id a) b.
Proof. unfold cb_view. by rewrite foldl_app. Qed.

Lemma view_disconnect log (l : gset Z) j : view_ok log l → j ∈ l → view_ok (log ++ [CbDisconnected j]) (l ∖ {[j]}).
Proof.
  intros Hv Hj id. rewrite cb_view_app, Hv. cbn. destruct (Z.eqb_spec j id) as [->|Hne].
  - rewrite bool_decide_eq_true_2 by done. by rewrite bool_decide_eq_false_2 by set_solver.
  - f_equal. apply bool_decide_ext. set_solver.
Qed.

Lemma view_sweep log (l : gset Z) js : view_ok log l → NoDup js → (∀ j, j ∈ js → j ∈ l) →
  view_ok (log ++ (CbDisconnected <$> js)) (l ∖ list_to_set js).
Proof.
  revert log l. induction js as [|j js IH]; intros log l Hv Hnd Hin.
  - cbn. rewrite app_nil_r, difference_empty_L. done.
  - apply NoDup_cons in Hnd as [Hj Hnd]. cbn [fmap list_fmap]. rewrite (app_assoc log [_]) || rewrite cons_middle, app_assoc.
    replace (l ∖ list_to_set (j :: js)) with (l ∖ {[j]} ∖ list_to_set js) by set_solver.
    apply IH; [apply view_disconnect; [done|apply Hin; set_solver]|done|].
    intros k Hk. assert (k ≠ j) by (by intros ->). specialize (Hin k). set_solver.
Qed.

Lemma view_event f' log l e : view_ok log l → view_ok (log ++ event_calls f' l e) (event_sessions l e).
Proof.
  intros Hv. destruct e as [|j v|j|j d|iv t|t|t|ls]; cbn [event_calls event_sessions];
    rewrite ?app_nil_r; try done; try (intros id; rewrite cb_view_app, Hv; done).
  - intros id. rewrite cb_view_app, Hv. cbn. destruct (Z.eqb_spec j id) as [->|Hne].
    + by rewrite bool_decide_eq_true_2 by set_solver.
    + f_equal. apply bool_decide_ext. set_solver.
  - case_bool_decide; [by apply view_disconnect|]. rewrite app_nil_r. by replace (l ∖ {[j]}) with l by set_solver.
  - case_bool_decide as Hj; cbn; [|by rewrite app_nil_r]. destruct (_ && _); [|by rewrite app_nil_r].
    intros id. rewrite cb_view_app, Hv. cbn. destruct (Z.eqb_spec j id) as [->|Hne]; [|done].
    by rewrite bool_decide_eq_true_2 by done.
Qed.

(** ** The invariant *)

(** A token that is registered has a timer, armed or fired. *)
Definition pending_tokens (s : PS) : list Z := (ps_timers s).*2 ++ ps_fired s.

Record ps_inv (sd : bool) (s : PS) : Prop := {
  pi_view : view_ok (ps_calls s) (ps_sessions s);
  pi_idle : ps_current_task s = Idle;
  pi_timers : sd = false → ∀ t, is_Some (ps_notify s !! t) → t ∈ pending_tokens s;
}.

Lemma event_keeps f f' e (s s' : PS) : event_done f f' e s s' → view_ok (ps_calls s) (ps_sessions s) →
  view_ok (ps_calls s') (ps_sessions s').
Proof.
  intros [E1 E2 _ _ _ _] Hv. rewrite E1, E2, app_assoc. apply view_event.
  replace (open_sessions f s) with (ps_sessions s ∖ list_to_set (swept f s)).
  - apply view_sweep; [done|apply swept_NoDup|]. intros j Hj. apply elem_swept in Hj. apply Hj.
  - unfold open_sessions. apply set_eq. intros id. rewrite !elem_of_difference, elem_of_list_to_set, elem_swept. naive_solver.
Qed.

(** The tokens of a turn: an event of the timers loses one and may arm it again. *)
Lemma event_timers_kept f f' e (s s' : PS) : event_done f f' e s s' →
  (∀ t, is_Some (ps_notify s !! t) → t ∈ pending_tokens s ∨ e = SvNotify t) →
  ∀ t, is_Some (ps_notify s' !! t) → t ∈ pending_tokens s'.
Proof.
  intros [_ _ E3 E4 _ (_ & E6 & _)] Ht t. unfold pending_tokens in *. rewrite E3, E4, E6, fmap_app.
  intros [iv Hiv]. destruct e as [|j v|j|j d|iv' t'|t'|t'|ls]; cbn [event_notify event_timers] in *;
    try (destruct (Ht t (mk_is_Some _ _ Hiv)) as [?|?]; [set_solver|done]).
  - apply lookup_insert_Some in Hiv as [[-> _]|[_ Hiv]]; [set_solver|]. destruct (Ht t (mk_is_Some _ _ Hiv)) as [?|?]; [set_solver|done].
  - apply lookup_delete_Some in Hiv as [_ Hiv]. destruct (Ht t (mk_is_Some _ _ Hiv)) as [?|?]; [set_solver|done].
  - destruct (Ht t (mk_is_Some _ _ Hiv)) as [?|[= ->]]; [set_solver|]. rewrite Hiv. set_solver.
Qed.

Lemma inv_event sd f f' e (s s0 s' : PS) : ps_inv sd s0 →
  ps_calls s = ps_calls s0 → ps_sessions s = ps_sessions s0 → ps_notify s = ps_notify s0 →
  ps_timers s = ps_timers s0 → ps_current_task s = Idle →
  (∀ t, t ∈ ps_fired s0 → t ∈ ps_fired s ∨ e = SvNotify t) →
  ps_handle_event f f' e s = (s', ROk tt) → ps_inv (sd || fl_shutdown f) s'.
Proof.
  intros [I1 I2 I3] E1 E2 E3 E4 E5 Hf E. destruct (handled f e) eqn:Hh.
  - pose proof (wpx_ok _ _ _ _ _ _ (handle_event_spec f f' e s Hh) E) as D. split.
    + eapply event_keeps; [exact D|]. by rewrite E1, E2.
    + apply D.
    + intros [Hsd Hsh]%orb_false_iff. eapply event_timers_kept; [exact D|]. rewrite E3. intros t Ht.
      specialize (I3 Hsd t Ht). unfold pending_tokens in *. rewrite E4. specialize (Hf t). set_solver.
  - rewrite ignored_event in E by done. injection E as <-. split.
    + by rewrite E1, E2.
    + done.
    + unfold handled in Hh. by destruct (fl_shutdown f), sd.
Qed.

Lemma fires_tokens i (s : PS) : pending_tokens (ps_timer_fires i s) ≡ₚ pending_tokens s.
Proof.
  unfold ps_timer_fires, pending_tokens. destruct (ps_timers s !! i) as [[iv t]|] eqn:E; [|done]. cbn.
  rewrite <- (take_drop_middle _ _ _ E) at 3. rewrite !fmap_app. cbn. rewrite <- !app_assoc. cbn. solve_Permutation.
Qed.

Lemma run_ps_inv s0 sd s : fresh_handler s0 → ps_run s0 sd s → ps_inv sd s.
Proof.
  intros (h & p & ls & r & ->). induction 1 as [|sd s f f' s' _ IH E|sd s hd f f' b s' ended _ IH E|sd s i _ IH|sd s r' _ IH].
  - split; [|done|]; cbn; [intros id; by rewrite bool_decide_eq_false_2 by set_solver|]. intros _ t [? Ht]. by rewrite lookup_empty in Ht.
  - eapply (inv_event sd f f' SvInit s s); try done; try apply IH. by left.
  - apply turn_cases in E. destruct (taken_event hd b s) as [e|] eqn:Et.
    + eapply (inv_event sd f f' e (after_take b s) s); try done; try (destruct b; done).
      * destruct b; apply IH.
      * intros t Ht. unfold taken_event in Et. destruct hd; [done|]. destruct b; cbn; try done; [by left|].
        destruct (ps_fired s); [by apply elem_of_nil in Ht|]. cbn in Et. injection Et as <-.
        apply elem_of_cons in Ht as [->|Ht]; [by right|by left].
    + destruct E as (E1 & E2 & E3 & E4 & E5 & E6). split.
      * rewrite E1, E2. apply IH.
      * apply E6, IH.
      * intros Hsd t. unfold pending_tokens. rewrite E3, E4, E5. apply IH. by destruct sd.
  - split.
    + unfold ps_timer_fires. destruct (ps_timers s !! i) as [[]|]; apply IH.
    + unfold ps_timer_fires. destruct (ps_timers s !! i) as [[]|]; apply IH.
    + intros Hsd t Ht. rewrite fires_tokens. apply IH; [done|]. revert Ht. unfold ps_timer_fires.
      by destruct (ps_timers s !! i) as [[]|].
  - split; apply IH.
Qed.

(** C18: in every run of a service handler, whatever events arrive and whenever sessions close, a
    session's messages and its disconnection are only ever called between a [connected] and the
    [disconnected] of that session, and the sessions it is connected to are those it holds. *)
Theorem callbacks_bracketed s0 sd s : fresh_handler s0 → ps_run s0 sd s →
  ∀ id, cb_view id (ps_calls s) = Some (bool_decide (id ∈ ps_sessions s)).
Proof. intros H0 Hr. apply (run_ps_inv s0 sd s H0 Hr). Qed.

(** Until a shutdown is seen, a token that is registered always has a timer that is armed or
    has fired and waits to be handled. *)
Theorem timers_not_lost s0 s : fresh_handler s0 → ps_run s0 false s →
  ∀ t, is_Some (ps_notify s !! t) → t ∈ pending_tokens s.
Proof. intros H0 Hr. by apply (run_ps_inv s0 false s H0 Hr). Qed.

(** A step that panics: the event of [init], or a turn, with the event it was handling and the
    flags it read, or none when it is the callback [poll] that panicked. *)
Inductive ps_panics (s : PS) : option (SharedFlags * SharedFlags * ServiceProtocolEvent) → PS → Prop :=
| panics_init f f' s' : ps_handle_event f f' SvInit s = (s', RPanic) → ps_panics s (Some (f, f', SvInit)) s'
| panics_turn head f f' b s' : ps_turn head f f' b s = (s', RPanic) →
    ps_panics s ((λ e, (f, f', e)) <$> taken_event head b s) s'.

Lemma event_panic_reported {Hd St Inc} f f' e (s s' : PS) : ps_current_task s = Idle →
  ps_handle_event f f' e s = (s', RPanic) →
  (∃ k, (k < length (swept f s))%nat ∧ ps_calls s' = ps_calls s ++ (CbDisconnected <$> take (S k) (swept f s)) ∧
     ∀ shutdown, ps_drop (Hd := Hd) (St := St) (Inc := Inc) shutdown s' = None) ∨
  (∃ c, event_calls f' (open_sessions f s) e = [c] ∧
     ps_calls s' = ps_calls s ++ (CbDisconnected <$> swept f s) ++ [c] ∧
     ∀ shutdown, ps_drop (Hd := Hd) (St := St) (Inc := Inc) shutdown s' =
       if shutdown then None else Some (ProtocolHandleError (AbnormallyClosed (event_session e)) (ps_proto_id s))).
Proof.
  intros Hi E. destruct (handled f e) eqn:Hh; [|by rewrite ignored_event in E].
  pose proof (wpx_panic _ _ _ _ _ (handle_event_spec f f' e s Hh) E) as [(k & Hk & E1 & E2 & E3)|(c & Hc & E1 & E2 & E3)].
  - left. exists k. rewrite length_fmap in Hk. rewrite fmap_take. split_and!; [done..|]. intros []; [done|].
    unfold ps_drop. by rewrite E2, Hi.
  - right. exists c. split_and!; [done..|]. intros []; [done|]. unfold ps_drop. by rewrite E2, E3.
Qed.

(** C20: which panics of a user's callbacks the drop of the stream reports, in every run of a
    service handler. A panic in the callback of the event itself is reported, unless the service
    is shutting down, with the protocol and the session the event is about. A panic in one of the
    [disconnected] calls made before it, for the sessions found closed, is never reported; nor is
    one in the callback [poll]. There are no other panics. *)
Theorem panic_reported {Hd St Inc} s0 sd (s s' : PS) o : fresh_handler s0 → ps_run s0 sd s → ps_panics s o s' →
  match o with
  | Some (f, f', e) =>
      (∃ k, (k < length (swept f s))%nat ∧ ps_calls s' = ps_calls s ++ (CbDisconnected <$> take (S k) (swept f s)) ∧
         ∀ shutdown, ps_drop (Hd := Hd) (St := St) (Inc := Inc) shutdown s' = None) ∨
      (∃ c, event_calls f' (open_sessions f s) e = [c] ∧
         ps_calls s' = ps_calls s ++ (CbDisconnected <$> swept f s) ++ [c] ∧
         ∀ shutdown, ps_drop (Hd := Hd) (St := St) (Inc := Inc) shutdown s' =
           if shutdown then None
           else Some (ProtocolHandleError (AbnormallyClosed (event_session e)) (ps_proto_id s)))
  | None => ps_calls s' = ps_calls s ∧
      ∀ shutdown, ps_drop (Hd := Hd) (St := St) (Inc := Inc) shutdown s' = None
  end.
Proof.
  intros H0 Hr Hp. apply run_ps_inv in Hr; [|done]. pose proof (pi_idle _ _ Hr) as Hi.
  destruct Hp as [f f' s' E|head f f' b s' E]; [by apply event_panic_reported|].
  apply turn_panics in E. destruct (taken_event head b s) as [e|]; cbn.
  - apply (event_panic_reported (Hd := Hd) (St := St) (Inc := Inc)) in E; [|by destruct b]. by destruct b.
  - destruct E as (E1 & E2 & _). split; [done|]. intros []; [done|]. unfold ps_drop. by rewrite E2, Hi.
Qed.

(** ** Messages *)

Definition received (id : Z) (log : list Callback) : list bytes :=
  omap (λ c, match c with CbReceived j d => if j =? id then Some d else None | _ => None end) log.
Definition messages_for (id : Z) (es : list ServiceProtocolEvent) : list bytes :=
  omap (λ e, match e with SvReceived j d => if j =? id then Some d else None | _ => None end) es.

Definition calm (id : Z) (f : SharedFlags) : Prop := fl_shutdown f = false ∧ id ∉ fl_closed f.

(** Turns in which the session is not closed and no shutdown is seen, with the events taken. *)
Inductive ps_trace (id : Z) (s0 : PS) : list ServiceProtocolEvent → PS → Prop :=
| ps_trace_nil : ps_trace id s0 [] s0
| ps_trace_turn es s f f' b s' ended : ps_trace id s0 es s → calm id f → calm id f' →
    ps_turn false f f' b s = (s', ROk ended) → ps_trace id s0 (es ++ option_list (taken_event false b s)) s'
| ps_trace_timer es s i : ps_trace id s0 es s → ps_trace id s0 es (ps_timer_fires i s)
| ps_trace_others es s r : ps_trace id s0 es s → ps_trace id s0 es (ps_put_receiver r s).

Lemma received_event id f f' e (s s' : PS) : calm id f → calm id f' → id ∈ ps_sessions s → e ≠ SvDisconnected id →
  event_done f f' e s s' → id ∈ ps_sessions s' ∧
  received id (ps_calls s') = received id (ps_calls s) ++ messages_for id [e].
Proof.
  intros [Hs Hc] [Hs' Hc'] Hid He [E1 E2 _ _ _ _].
  assert (Hsw : received id (CbDisconnected <$> swept f s) = [])
    by (clear; induction (swept f s) as [|j l IHl]; [done|exact IHl]).
  assert (Ho : id ∈ open_sessions f s) by (unfold open_sessions; set_solver).
  rewrite E1, E2. unfold received in *. rewrite !omap_app, Hsw. split.
  - destruct e; cbn; try done; set_solver.
  - f_equal. destruct e as [|j v|j|j d|iv t|t|t|ls]; cbn; try done.
    + by case_bool_decide.
    + destruct (Z.eqb_spec j id) as [->|Hne].
      * rewrite bool_decide_eq_true_2 by done. rewrite (bool_decide_eq_false_2 (id ∈ fl_closed f')) by done.
        rewrite Hs'. cbn. by rewrite Z.eqb_refl.
      * case_match; [cbn|done]. by apply Z.eqb_neq in Hne as ->.
Qed.

Lemma elem_snoc_not {A} (x : A) l o : x ∉ l ++ option_list o → x ∉ l ∧ o ≠ Some x.
Proof. intros Hx. split; [set_solver|]. intros ->. apply Hx. cbn. set_solver. Qed.


(** ** After a shutdown, and after a session was closed *)

Definition is_disconnected (c : Callback) : bool := match c with CbDisconnected _ => true | _ => false end.
Definition about (id : Z) (c : Callback) : bool :=
  match c with
  | CbConnected j _ | CbDisconnected j | CbReceived j _ => j =? id
  | CbInit | CbNotify _ => false
  end.

Lemma about_sweep id l : NoDup l → filter (λ c, about id c = true) (CbDisconnected <$> l) =
  if decide (id ∈ l) then [CbDisconnected id] else [].
Proof.
  induction 1 as [|j l Hj Hnd IH]; [done|]. cbn [fmap list_fmap]. rewrite filter_cons, IH. cbn [about].
  destruct (Z.eqb_spec j id) as [->|Hne].
  - rewrite (decide_True (P := true = true)) by done. rewrite decide_False by done. by rewrite decide_True by set_solver.
  - rewrite (decide_False (P := false = true)) by done. by destruct (decide (id ∈ l)), (decide (id ∈ j :: l)); set_solver.
Qed.

(** The first event a handler handles after one of its sessions was closed calls that
    session's [disconnected], exactly once, and nothing else for it unless the event connects it
    again; after a shutdown an event calls nothing but [disconnected]. *)
Theorem closed_session_disconnected f f' e (s s' : PS) : ps_handle_event f f' e s = (s', ROk tt) →
  ∃ new, ps_calls s' = ps_calls s ++ new ∧
    (fl_shutdown f = true → Forall (λ c, is_disconnected c = true) new) ∧
    (fl_shutdown f = false → ∀ id, id ∈ ps_sessions s → id ∈ fl_closed f →
      filter (λ c, about id c = true) new =
        CbDisconnected id :: match e with SvConnected j v => if j =? id then [CbConnected j v] else [] | _ => [] end).
Proof.
  intros E. destruct (handled f e) eqn:Hh.
  - pose proof (wpx_ok _ _ _ _ _ _ (handle_event_spec f f' e s Hh) E) as [E1 _ _ _ _ _].
    eexists. split; [exact E1|]. split.
    + intros Hs. unfold handled in Hh. rewrite Hs in Hh. destruct e; try done. apply Forall_app. split.
      * by apply Forall_fmap, Forall_true.
      * cbn. case_bool_decide; [by repeat constructor|constructor].
    + intros _ id Hid Hcl. rewrite filter_app, about_sweep by apply swept_NoDup.
      rewrite decide_True by (by apply elem_swept). cbn. f_equal.
      assert (Ho : id ∉ open_sessions f s) by (unfold open_sessions; set_solver).
      destruct e as [|j v|j|j d|iv t|t|t|ls]; cbn [event_calls]; try done.
      * by rewrite filter_cons, filter_nil; cbn; destruct (j =? id).
      * case_bool_decide as Hj; [|done]. rewrite filter_cons, filter_nil. cbn.
        by destruct (Z.eqb_spec j id) as [->|Hne].
      * case_bool_decide as Hj; [|done]. cbn [andb]. case_match; [|done]. rewrite filter_cons, filter_nil. cbn.
        by destruct (Z.eqb_spec j id) as [->|Hne].
  - rewrite ignored_event in E by done. injection E as <-. exists []. rewrite app_nil_r.
    split; [done|]. split; [constructor|]. unfold handled in Hh. by destruct (fl_shutdown f).
Qed.

End ServiceLevel.

(** ** Session level *)

Section SessionLevel.
Context {H R : Type} `{PH : ProtocolHandler H} `{RL : ReceiverLaws R SessionProtocolEvent} `{CR : CloseReceiver R}.
Abbreviation QS := (@SessionProtocolStream H R) (only parsing).

(** The callback of an event of session [cx]. *)
Definition session_event_calls (cx : Z) (e : SessionProtocolEvent) : list Callback :=
  match e with
  | SeOpened version => [CbConnected cx version]
  | SeClosed => [CbDisconnected cx]
  | SeReceived data => [CbReceived cx data]
  | SeNotify token => [CbNotify token]
  | SeDisconnected | SeSetNotify _ _ | SeRemoveNotify _ | SeUpdate _ => []
  end.

Definition session_handled (shutdown : bool) (e : SessionProtocolEvent) : bool :=
  negb shutdown || match e with SeDisconnected | SeClosed => true | _ => false end.

(** What is called for an event, with the flags that are read. *)
Definition session_calls (shutdown closed : bool) (cx : Z) (e : SessionProtocolEvent) : list Callback :=
  if session_handled shutdown e && negb closed then session_event_calls cx e else [].

Lemma qs_callback_spec c (s : QS) :
  let post s' := qs_calls s' = qs_calls s ++ [c] ∧ qs_context s' = qs_context s ∧ qs_proto_id s' = qs_proto_id s ∧
    qs_current_task s' = qs_current_task s in
  wpx (qs_callback c) (λ _, post) post s.
Proof.
  intros post. unfold qs_callback. wpx_step. wpx_step. destruct (ph_call c (qs_handle s)) as [h []]; wpx_step; wpx_step; done.
Qed.

Lemma qs_event_spec shutdown closed e (s : QS) :
  wpx (qs_handle_event shutdown closed e)
    (λ _ s', qs_calls s' = qs_calls s ++ session_calls shutdown closed (qs_context s) e ∧
       qs_context s' = qs_context s ∧ qs_current_task s' = false)
    (λ s', qs_calls s' = qs_calls s ++ session_calls shutdown closed (qs_context s) e ∧
       qs_context s' = qs_context s ∧ qs_proto_id s' = qs_proto_id s ∧ qs_current_task s' = true) s.
Proof.
  unfold qs_handle_event, session_calls, session_handled. wpx_step. wpx_step.
  destruct (shutdown && _) eqn:Hs.
  { wpx_step. assert (negb shutdown || match e with SeDisconnected | SeClosed => true | _ => false end = false) as ->
      by (by destruct shutdown, e). cbn. by rewrite app_nil_r. }
  assert (negb shutdown || match e with SeDisconnected | SeClosed => true | _ => false end = true) as ->
    by (by destruct shutdown, e).
  cbn [andb]. wpx_step. wpx_step. destruct closed; cbn [negb].
  { wpx_step. unfold qs_close. wpx_step. wpx_step. wpx_step. wpx_step. cbn. by rewrite app_nil_r. }
  wpx_step. cbn [qs_context qs_put_current_task].
  destruct e as [v| | |d|t|iv t|t|ls]; cbn [session_event_calls].
  - eapply wpx_mono; [apply qs_callback_spec| |]; [intros [] s1 (E1 & E2 & _); by wpx_step|naive_solver].
  - eapply wpx_mono; [apply qs_callback_spec| |]; [intros [] s1 (E1 & E2 & _); by wpx_step|naive_solver].
  - unfold qs_close. wpx_step. wpx_step. wpx_step. wpx_step. cbn. by rewrite app_nil_r.
  - eapply wpx_mono; [apply qs_callback_spec| |]; [intros [] s1 (E1 & E2 & _); by wpx_step|naive_solver].
  - wpx_step. eapply wpx_mono; [apply qs_callback_spec| |]; [|naive_solver]. intros [] s1 (E1 & E2 & _).
    unfold qs_set_notify. wpx_step. wpx_step. destruct (qs_notify s1 !! t); wpx_step; by wpx_step.
  - wpx_step. wpx_step. unfold qs_set_notify. wpx_step. wpx_step. cbn. rewrite lookup_insert_eq. wpx_step. wpx_step.
    cbn. by rewrite app_nil_r.
  - wpx_step. wpx_step. cbn. by rewrite app_nil_r.
  - wpx_step. wpx_step. cbn. by rewrite app_nil_r.
Qed.

Definition session_taken (b : Branch) (s : QS) : option SessionProtocolEvent :=
  match b with
  | BrEvent => match (recv_poll_next (qs_receiver s)).2 with Ready o => o | Pending => None end
  | BrNotify => SeNotify <$> List.hd_error (qs_fired s)
  | _ => None
  end.

Lemma session_turn_calls shutdown closed b (s s' : QS) ended : qs_turn shutdown closed b s = (s', ROk ended) →
  qs_context s' = qs_context s ∧
  qs_calls s' = qs_calls s ++ match session_taken b s with
                              | Some e => session_calls shutdown closed (qs_context s) e | None => [] end.
Proof.
  unfold qs_turn, session_taken, mbind, M_bind, gets, modify. destruct b.
  - destruct (recv_poll_next (qs_receiver s)) as [r [[e|]|]]; cbn.
    + pose proof (qs_event_spec shutdown closed e (qs_put_receiver r s)) as W. unfold wpx in W.
      destruct (qs_handle_event shutdown closed e (qs_put_receiver r s)) as [s1 [[]| |]]; intros [= <- <-].
      destruct W as (W1 & W2 & _). by rewrite W1, W2.
    + intros [= <- <-]. cbn. by rewrite app_nil_r.
    + intros [= <- <-]. cbn. by rewrite app_nil_r.
  - destruct (qs_fired s) as [|t q]; cbn; [intros [= <- <-]; by rewrite app_nil_r|].
    pose proof (qs_event_spec shutdown closed (SeNotify t) (qs_put_fired q s)) as W. unfold wpx in W.
    destruct (qs_handle_event shutdown closed (SeNotify t) (qs_put_fired q s)) as [s1 [[]| |]]; intros [= <- <-].
    destruct W as (W1 & W2 & _). by rewrite W1, W2.
  - destruct (qs_need_poll s); [|intros [= <- <-]; by rewrite app_nil_r].
    destruct (ph_poll (qs_handle s)) as [h [[o|]|]]; intros [= <- <-]; cbn; by rewrite app_nil_r.
  - intros [= <- <-]. by rewrite app_nil_r.
Qed.

(** Turns with the flags that were read and the events taken. *)
Inductive qs_trace (s0 : QS) : list (bool * bool * SessionProtocolEvent) → QS → Prop :=
| qs_trace_nil : qs_trace s0 [] s0
| qs_trace_turn es s shutdown closed b s' ended : qs_trace s0 es s →
    qs_turn shutdown closed b s = (s', ROk ended) →
    qs_trace s0 (es ++ ((λ e, (shutdown, closed, e)) <$> option_list (session_taken b s))) s'
| qs_trace_timer es s i : qs_trace s0 es s → qs_trace s0 es (qs_timer_fires i s)
| qs_trace_others es s r : qs_trace s0 es s → qs_trace s0 es (qs_put_receiver r s).

Definition trace_calls (cx : Z) (es : list (bool * bool * SessionProtocolEvent)) : list Callback :=
  concat ((λ x, session_calls x.1.1 x.1.2 cx x.2) <$> es).

Lemma trace_log s es s' : qs_trace s es s' →
  qs_context s' = qs_context s ∧ qs_calls s' = qs_calls s ++ trace_calls (qs_context s) es.
Proof.
  induction 1 as [|es s1 sh cl b s2 ended Ht [IH1 IH2] E|es s1 i Ht IH|es s1 r Ht IH].
  - split; [done|]. cbn. by rewrite app_nil_r.
  - apply session_turn_calls in E as [E1 E2]. split; [congruence|]. rewrite E2, IH2, IH1.
    unfold trace_calls. rewrite fmap_app, concat_app, <- app_assoc. do 2 f_equal.
    destruct (session_taken b s1); cbn; [by rewrite app_nil_r|done].
  - unfold qs_timer_fires. destruct (qs_timers s1 !! i) as [[]|]; apply IH.
  - apply IH.
Qed.

(** A session handler is called once for each event it takes that has a callback, in the order
    the events were taken, while its session is open; once the session is closed it is not called
    again, not even for the end of the protocol. *)
Theorem session_handler_in_order s es s' : qs_trace s es s' → ∃ new, qs_calls s' = qs_calls s ++ new ∧
  (Forall (λ x, x.1 = (false, false)) es → new = concat (session_event_calls (qs_context s) <$> es.*2)) ∧
  (Forall (λ x, x.1.2 = true) es → new = []).
Proof.
  intros Ht. apply trace_log in Ht as [_ E]. exists (trace_calls (qs_context s) es). split; [exact E|]. clear E.
  unfold trace_calls. split.
  - induction 1 as [|[[sh cl] e] es Hx Hes IH]; [done|]. cbn in *. injection Hx as -> ->.
    unfold session_calls at 1, session_handled. cbn. by rewrite IH.
  - induction 1 as [|[[sh cl] e] es Hx Hes IH]; [done|]. cbn in *. subst cl.
    unfold session_calls at 1. by rewrite andb_false_r.
Qed.

(** A panic of a session's callback is reported. *)
Lemma session_panic_reported {Hd St Inc} shutdown closed e (s s' : QS) :
  qs_handle_event shutdown closed e s = (s', RPanic) →
  qs_drop (Hd := Hd) (St := St) (Inc := Inc) false s' =
    Some (ProtocolHandleError (AbnormallyClosed (Some (qs_context s))) (qs_proto_id s)).
Proof.
  intros E. destruct (wpx_panic _ _ _ _ _ (qs_event_spec shutdown closed e s) E) as (_ & E2 & E3 & E4).
  unfold qs_drop. by rewrite E2, E3, E4.
Qed.

End SessionLevel.

(** ** A handler that panics at one callback, for concrete runs *)

#[export] Instance Callback_eq_dec : EqDecision Callback.
Proof. solve_decision. Defined.

#[export] Instance demo_handler : ProtocolHandler (option Callback) := {
  ph_call c h := (h, negb (bool_decide (h = Some c)));
  ph_poll h := (h, Some (Ready None));
}.

Abbreviation DemoServiceStream := (@ServiceProtocolStream (option Callback) (QueueReceiver ServiceProtocolEvent)) (only parsing).
Abbreviation DemoSessionStream := (@SessionProtocolStream (option Callback) (QueueReceiver SessionProtocolEvent)) (only parsing).

Definition no_flags : SharedFlags := mkSharedFlags false ∅.
Definition demo_stream_of (bad : option Callback) (es : list ServiceProtocolEvent) : DemoServiceStream :=
  ServiceProtocolStream_new bad 7 [] (mkQueueReceiver es false false).
Definition ps_take (s : DemoServiceStream) : DemoServiceStream := (ps_turn false no_flags no_flags BrEvent s).1.
Definition ps_token (s : DemoServiceStream) : DemoServiceStream := (ps_turn false no_flags no_flags BrNotify s).1.

Definition demo_first : DemoServiceStream := demo_stream_of None
  [SvConnected 1 []; SvSetNotify 10 5; SvReceived 1 [byte_of 1]; SvReceived 1 [byte_of 2]].
Definition demo_handled : DemoServiceStream := ps_take (ps_take demo_first).

Lemma demo_stream_new bad es : fresh_handler (demo_stream_of bad es).
Proof. by do 4 eexists. Qed.

Lemma demo_handled_run : ps_run demo_first false demo_handled.
Proof.
  eapply (ps_run_turn _ false (ps_take demo_first) false no_flags no_flags BrEvent _ false); [|by vm_compute].
  eapply (ps_run_turn _ false demo_first false no_flags no_flags BrEvent _ false); [constructor|by vm_compute].
Qed.

Lemma callbacks_bracketed_witness :
  ps_calls demo_handled = [CbConnected 1 []] ∧ cb_view 1 (ps_calls demo_handled) = Some (bool_decide (1 ∈ ps_sessions demo_handled)).
Proof.
  split; [by vm_compute|]. exact (callbacks_bracketed _ _ _ (demo_stream_new _ _) demo_handled_run 1).
Defined.

Lemma timers_not_lost_witness : ps_notify demo_handled !! 5 = Some 10 ∧ 5 ∈ pending_tokens (ps_timer_fires 0 demo_handled).
Proof.
  split; [by vm_compute|]. apply (timers_not_lost demo_first).
  - apply demo_stream_new.
  - apply ps_run_timer, demo_handled_run.
  - exists 10. by vm_compute.
Defined.

Definition demo_bad0 : DemoServiceStream :=
  demo_stream_of (Some (CbReceived 1 [])) [SvConnected 1 []; SvReceived 1 []].
Definition demo_bad : DemoServiceStream := ps_take demo_bad0.

Lemma panic_reported_witness : ∃ s', ps_turn false no_flags no_flags BrEvent demo_bad = (s', RPanic) ∧
  ps_drop (Hd := unit) (St := unit) (Inc := unit) false s' = Some (ProtocolHandleError (AbnormallyClosed (Some 1)) 7).
Proof.
  exists (ps_turn false no_flags no_flags BrEvent demo_bad).1.
  assert (E : ps_turn false no_flags no_flags BrEvent demo_bad =
    ((ps_turn false no_flags no_flags BrEvent demo_bad).1, RPanic)) by by vm_compute.
  split; [exact E|].
  assert (Hr : ps_run demo_bad0 false demo_bad).
  { eapply (ps_run_turn _ false demo_bad0 false no_flags no_flags BrEvent _ false); [constructor|by vm_compute]. }
  destruct (panic_reported (Hd := unit) (St := unit) (Inc := unit) demo_bad0 false demo_bad _ _ (demo_stream_new _ _) Hr (panics_turn _ _ _ _ _ _ E))
    as [(k & Hk & _)|(c & _ & _ & Hd)].
  - exfalso. vm_compute in Hk. lia.
  - exact (Hd false).
Defined.


Lemma closed_session_disconnected_witness : ∃ s' new,
  ps_handle_event (mkSharedFlags false {[1]}) no_flags (SvReceived 1 []) demo_handled = (s', ROk tt) ∧
  ps_calls s' = ps_calls demo_handled ++ new ∧ filter (λ c, about 1 c = true) new = [CbDisconnected 1].
Proof.
  destruct (closed_session_disconnected (mkSharedFlags false {[1]}) no_flags (SvReceived 1 []) demo_handled
    (ps_handle_event (mkSharedFlags false {[1]}) no_flags (SvReceived 1 []) demo_handled).1) as (new & E1 & _ & E2); [by vm_compute|].
  exists (ps_handle_event (mkSharedFlags false {[1]}) no_flags (SvReceived 1 []) demo_handled).1, new.
  split; [by vm_compute|]. split; [exact E1|].
  apply (E2 eq_refl 1); refine (bool_decide_unpack _ _); by vm_compute.
Defined.

Definition demo_session_stream (es : list SessionProtocolEvent) : DemoSessionStream :=
  SessionProtocolStream_new None 7 [] 1 (mkQueueReceiver es false false).
Definition qs_take (closed : bool) (s : DemoSessionStream) : DemoSessionStream := (qs_turn false closed BrEvent s).1.

Lemma session_handler_in_order_witness :
  let s := demo_session_stream [SeOpened []; SeReceived [byte_of 1]] in
  qs_calls (qs_take false (qs_take false s)) = [CbConnected 1 []; CbReceived 1 [byte_of 1]].
Proof.
  intros s. destruct (session_handler_in_order s [(false, false, SeOpened []); (false, false, SeReceived [byte_of 1])]
    (qs_take false (qs_take false s))) as (new & E & Hn & _).
  - change [(false, false, SeOpened []); (false, false, SeReceived [byte_of 1])] with
      (([] ++ ((λ e, (false, false, e)) <$> option_list (session_taken BrEvent s))) ++
       ((λ e, (false, false, e)) <$> option_list (session_taken BrEvent (qs_take false s)))).
    eapply (qs_trace_turn s _ (qs_take false s) false false BrEvent _ false); [|by vm_compute].
    eapply (qs_trace_turn s _ s false false BrEvent _ false); [constructor|by vm_compute].
  - rewrite E, (Hn ltac:(by repeat constructor)). by vm_compute.
Defined.

(** ** What concrete runs show *)

(** A handler of a session is not told that its protocol was closed when the session is closed:
    the session sets its flag before the last events of its substreams are handled. *)
Lemma session_close_not_told :
  let s := demo_session_stream [SeOpened []; SeClosed; SeDisconnected] in
  qs_calls (qs_take true (qs_take true (qs_take false s))) = [CbConnected 1 []].
Proof. by vm_compute. Qed.

(** Setting a timer again, also after it was removed, leaves two timers for its token; each that
    fires is armed again, so the callback runs twice as often from then on. *)
Lemma timer_set_twice :
  let s := ps_take (ps_take (ps_take (demo_stream_of None [SvSetNotify 10 5; SvRemoveNotify 5; SvSetNotify 10 5]))) in
  let s' := ps_token (ps_token (ps_timer_fires 0 (ps_timer_fires 0 s))) in
  ps_timers s = [(10, 5); (10, 5)] ∧ ps_timers s' = [(10, 5); (10, 5)] ∧ ps_calls s' = [CbNotify 5; CbNotify 5].
Proof. by vm_compute. Qed.

(** A timer that was removed still calls [notify] once. *)
Lemma removed_timer_fires :
  let s := ps_take (ps_take (demo_stream_of None [SvSetNotify 10 5; SvRemoveNotify 5])) in
  let s' := ps_token (ps_timer_fires 0 s) in
  ps_notify s = ∅ ∧ ps_calls s' = [CbNotify 5] ∧ ps_timers s' = [].
Proof. by vm_compute. Qed.

(** A panic in the disconnection of a session that was found closed is not reported. *)
Lemma sweep_panic_silent :
  let s := ps_take (demo_stream_of (Some (CbDisconnected 1)) [SvConnected 1 []]) in
  let '(s', r) := ps_handle_event (mkSharedFlags false {[1]}) no_flags (SvNotify 3) s in
  r = RPanic ∧ ps_drop (Hd := unit) (St := unit) (Inc := unit) false s' = None.
Proof. by vm_compute. Qed.

(** A panic in the callback [poll] is not reported: the stream is dropped while it is idle. *)
Lemma poll_panic_silent {H R Hd St Inc} `{PH : ProtocolHandler H} `{RC : Receiver R ServiceProtocolEvent} `{HO : HashOrder}
    handle proto_id listens receiver f : ph_poll handle = (handle, None) →
  let s := ServiceProtocolStream_new (R := R) handle proto_id listens receiver in
  ps_turn false f f BrPoll s = (s, RPanic) ∧ ps_drop (Hd := Hd) (St := St) (Inc := Inc) false s = None.
Proof. intros E s. unfold ps_turn, mbind, M_bind, gets, modify. cbn. by rewrite E. Qed.
