(* ===== verification/Layouts.v ===== *)
(** * Layouts of molecule ([protocols/*/src/protocol_mol.rs])

    The readers and builders generated for the protocols, as combinators: what a layout writes,
    what it verifies, and what is read from a slice that was verified. A read gives [ROk None] where the
    conversion of the value it found fails. Each combinator is proved lawful from its parts: what
    it writes verifies and reads back, and nothing it verifies makes it panic. *)

From Stdlib Require Import ZArith Lia Bool.
From stdpp Require Import base list.
From S2P Require Import Prelude Molecule MoleculeProofs.

Open Scope Z_scope.

#[local] Arguments len : simpl never.
#[local] Arguments raw_data : simpl never.

Record Layout (A : Type) := mkLayout {
  ly_write : A → bytes;
  ly_verify : bytes → res MolError unit;
  ly_read : bytes → res MolError (option A);
}.
Arguments mkLayout {A} _ _ _.
Arguments ly_write {A} _ _.
Arguments ly_verify {A} _ _.
Arguments ly_read {A} _ _.

(** What is written verifies and reads back when its length fits into 32 bits; a verified slice can
    be read. *)
Class LayoutLaws {A} (L : Layout A) (wf : A → Prop) : Prop := {
  ly_written : ∀ a, wf a → is_u32 (len (ly_write L a)) →
    ly_verify L (ly_write L a) = ROk tt ∧ ly_read L (ly_write L a) = ROk (Some a);
  ly_total : ∀ s, ly_verify L s ≠ RPanic ∧ (ly_verify L s = ROk tt → ∃ o, ly_read L s = ROk o);
}.

(** The fields of a table; a read takes them in order, with [?] at the first that fails. *)
Record Fields (A : Type) := mkFields {
  fd_write : A → list bytes;
  fd_verify : list (bytes → res MolError unit);
  fd_read : Z → (Z → res MolError bytes) → res MolError (option A);
}.
Arguments mkFields {A} _ _ _.
Arguments fd_write {A} _ _.
Arguments fd_verify {A} _.
Arguments fd_read {A} _ _ _.

Section Layouts.
Context `{MN : MolNumber}.

(** ** Conversions of the value that was read *)

Definition converted {A B} (L : Layout A) (into : B → A) (from : A → res MolError (option B)) : Layout B :=
  mkLayout (λ b, ly_write L (into b)) (ly_verify L)
    (λ s, o ← ly_read L s; match o with Some a => from a | None => ROk None end).

(** ** Vectors of bytes, arrays, options *)

Definition byte_vec : Layout bytes := mkLayout fixvec_write fixvec_verify (λ s, b ← raw_data s; ROk (Some b)).

(** [TOTAL_SIZE] bytes. *)
Definition array_verify (total_size : Z) (slice : bytes) : res MolError unit :=
  if negb (len slice =? total_size) then RErr TotalSizeNotMatch else ROk tt.
Definition byte_array (total_size : Z) : Layout bytes :=
  mkLayout (λ b, b) (array_verify total_size) (λ s, ROk (Some s)).

Definition option_of {A} (L : Layout A) : Layout (option A) :=
  mkLayout (λ o, match o with Some a => ly_write L a | None => [] end)
    (λ slice, if is_empty slice then ROk tt else ly_verify L slice)
    (λ slice, if is_empty slice then ROk (Some None)
              else o ← ly_read L slice; ROk (option_map Some o)).

(** ** Vectors *)

(** [for item in reader.iter()] with [?] on each. *)
Fixpoint vec_items {A} (L : Layout A) (idx : Z) (n : nat) (slice : bytes) : res MolError (option (list A)) :=
  match n with
  | O => ROk (Some [])
  | S m =>
      item ← get_unchecked idx slice;
      o ← ly_read L item;
      match o with
      | None => ROk None
      | Some a => rest ← vec_items L (idx + 1) m slice; ROk (option_map (cons a) rest)
      end
  end.

Definition vec_of {A} (L : Layout A) : Layout (list A) :=
  mkLayout (λ l, dynvec_write (map (ly_write L) l)) (dynvec_verify (ly_verify L))
    (λ slice, n ← field_count slice; vec_items L 0 (Z.to_nat n) slice).

(** ** Tables *)

(** The number of fields is checked before the length of the header. *)
Definition old_table_verify (fields : list (bytes → res MolError unit)) (compatible : bool)
    (slice : bytes) : res MolError unit :=
  let slice_len := len slice in
  let FIELD_COUNT := len fields in
  if slice_len <? NUMBER_SIZE then RErr HeaderIsBroken else
  let total_size := unpack_number slice in
  if negb (slice_len =? total_size) then RErr TotalSizeNotMatch else
  if (slice_len =? NUMBER_SIZE) && (FIELD_COUNT =? 0) then ROk tt else
  if slice_len <? NUMBER_SIZE * 2 then RErr HeaderIsBroken else
  offset_first ← number_at slice NUMBER_SIZE;
  if negb (offset_first mod 4 =? 0) || (offset_first <? NUMBER_SIZE * 2) then RErr OffsetsNotMatch else
  let field_count := offset_first / 4 - 1 in
  if field_count <? FIELD_COUNT then RErr FieldCountNotMatch else
  if negb compatible && (FIELD_COUNT <? field_count) then RErr FieldCountNotMatch else
  let header_size := NUMBER_SIZE * (field_count + 1) in
  if slice_len <? header_size then RErr HeaderIsBroken else
  offsets ← read_offsets slice header_size total_size;
  verify_fields fields offsets slice.

Definition last_field {A} (L : Layout A) : Fields A :=
  mkFields (λ a, [ly_write L a]) [ly_verify L] (λ k get, s ← get k; ly_read L s).

Definition field {A B} (L : Layout A) (F : Fields B) : Fields (A * B) :=
  mkFields (λ x, ly_write L x.1 :: fd_write F x.2) (ly_verify L :: fd_verify F)
    (λ k get, s ← get k; o ← ly_read L s;
       match o with
       | None => ROk None
       | Some a => o' ← fd_read F (k + 1) get; ROk (option_map (pair a) o')
       end).

Definition table_of {A} (F : Fields A) : Layout A :=
  mkLayout (λ a, table_write (fd_write F a)) (old_table_verify (fd_verify F) true)
    (λ slice, fd_read F 0 (λ i, table_field (len (fd_verify F)) i slice)).

(** ** Unions of two *)

Definition union_verify {A B} (L0 : Layout A) (L1 : Layout B) (slice : bytes) : res MolError unit :=
  let slice_len := len slice in
  if slice_len <? NUMBER_SIZE then RErr HeaderIsBroken else
  let item_id := unpack_number slice in
  inner_slice ← sub slice NUMBER_SIZE slice_len;
  if item_id =? 0 then ly_verify L0 inner_slice
  else if item_id =? 1 then ly_verify L1 inner_slice else RErr UnknownItem.

Definition union_read {A B} (L0 : Layout A) (L1 : Layout B) (slice : bytes) : res MolError (option (A + B)) :=
  inner ← sub slice NUMBER_SIZE (len slice);
  item_id ← number_at slice 0;
  if item_id =? 0 then o ← ly_read L0 inner; ROk (option_map inl o)
  else if item_id =? 1 then o ← ly_read L1 inner; ROk (option_map inr o)
  else RPanic.

Definition union_of {A B} (L0 : Layout A) (L1 : Layout B) : Layout (A + B) :=
  mkLayout (λ x, match x with inl a => pack_number 0 ++ ly_write L0 a | inr b => pack_number 1 ++ ly_write L1 b end)
    (union_verify L0 L1) (union_read L0 L1).

(** [from_compatible_slice(data).ok()?] and the reads behind it. *)
Definition decode_with {A} (L : Layout A) (data : bytes) : res MolError (option A) :=
  match ly_verify L data with
  | ROk _ => ly_read L data
  | RErr _ => ROk None
  | RPanic => RPanic
  end.

End Layouts.

(** ** The combinators are lawful *)

Class FieldsLaws {A} (F : Fields A) (wf : A → Prop) : Prop := {
  fd_count : ∀ a, length (fd_write F a) = length (fd_verify F);
  fd_some : fd_verify F ≠ [];
  fd_written : ∀ a, wf a → Forall (λ x, is_u32 (len x)) (fd_write F a) →
    check_all (fd_verify F) (fd_write F a) = ROk tt ∧
    ∀ k get, (∀ i x, fd_write F a !! i = Some x → get (k + Z.of_nat i) = ROk x) → fd_read F k get = ROk (Some a);
  fd_total : ∀ fs, (length (fd_verify F) <= length fs)%nat →
    check_all (fd_verify F) fs ≠ RPanic ∧
    (check_all (fd_verify F) fs = ROk tt → ∀ k get,
      (∀ i x, fs !! i = Some x → (i < length (fd_verify F))%nat → get (k + Z.of_nat i) = ROk x) →
      ∃ o, fd_read F k get = ROk o);
}.

Section Laws.
Context `{ML : MolNumberLaws}.

#[export] Instance converted_laws {A B} (L : Layout A) wf (into : B → A) from `{HL : !LayoutLaws L wf} :
  (∀ a, ∃ o, from a = ROk o) → LayoutLaws (converted L into from) (λ b, wf (into b) ∧ from (into b) = ROk (Some b)).
Proof.
  intros Hf. split.
  - intros b [Hw Hb] Hs. cbn in *. destruct (ly_written (into b) Hw Hs) as [E1 E2]. rewrite E1, E2. done.
  - intros s. cbn. destruct (ly_total s) as [H1 H2]. split; [exact H1|]. intros Hv. destruct (H2 Hv) as [o ->]. cbn.
    destruct o as [a|]; eauto.
Qed.

#[export] Instance byte_vec_laws : LayoutLaws byte_vec (λ _, True).
Proof.
  split.
  - intros b _ Hs. cbn in *. assert (Hb : is_u32 (len b)).
    { revert Hs. unfold fixvec_write. rewrite len_app. unfold len at 1. rewrite pack_length. unfold in_width.
      pose proof (len_nonneg b). lia. }
    destruct (fixvec_written b Hb) as [E1 E2]. split; [exact E1|]. by rewrite E2.
  - intros s. cbn. split; [apply fixvec_never_panics|]. intros Hv. destruct (fixvec_raw s Hv) as [b ->]. by eexists.
Qed.

#[export] Instance byte_array_laws n : LayoutLaws (byte_array n) (λ b, len b = n).
Proof.
  split; cbn; unfold array_verify.
  - intros b <- _. by rewrite Z.eqb_refl.
  - intros s. by destruct (len s =? n); cbn; (split; [|eauto]).
Qed.

#[export] Instance option_of_laws {A} (L : Layout A) wf `{HL : !LayoutLaws L wf} :
  LayoutLaws (option_of L) (λ o, ∀ a, o = Some a → wf a ∧ ly_write L a ≠ []).
Proof.
  split; cbn.
  - intros [a|] Hw Hs; [|done]. destruct (Hw a eq_refl) as [Ha Hne].
    destruct (ly_written a Ha Hs) as [E1 E2]. destruct (ly_write L a) as [|x l] eqn:E; [done|]. cbn. by rewrite E1, E2.
  - intros [|x l]; cbn; [split; eauto; done|]. destruct (ly_total (x :: l)) as [H1 H2]. split; [exact H1|].
    intros Hv. destruct (H2 Hv) as [o ->]. by eexists.
Qed.

(** *** Vectors *)

Lemma concat_elem_len (x : bytes) l : x ∈ l → len x <= len (concat l).
Proof.
  induction l as [|y l IH]; intros Hx; [by apply elem_of_nil in Hx|]. cbn [concat]. rewrite len_app.
  pose proof (len_nonneg y). pose proof (len_nonneg (concat l)). apply elem_of_cons in Hx as [->|Hx]; [lia|].
  specialize (IH Hx). lia.
Qed.

Lemma concat_len_ge (fs : list bytes) : 0 <= len (concat fs).
Proof. apply len_nonneg. Qed.

(** What a table writes is within 32 bits when the whole of it is. *)
Lemma table_write_len fs : len (table_write fs) = header_len fs + len (concat fs).
Proof.
  unfold table_write. rewrite !len_app, packed_len. unfold len at 1. rewrite pack_length.
  unfold len at 1. rewrite offsets_from_length. unfold header_len, NUMBER_SIZE, len. lia.
Qed.

Lemma table_fits fs : fs ≠ [] → is_u32 (len (table_write fs)) →
  tbl (table_write fs) fs ∧ Forall (λ x, is_u32 (len x)) fs.
Proof.
  intros Hne Hs. rewrite table_write_len in Hs. unfold in_width in Hs. split; [apply write_tbl; [done|lia]|].
  apply Forall_forall. intros x Hx. pose proof (concat_elem_len x fs Hx). pose proof (len_nonneg x).
  pose proof (header_ge fs Hne). unfold in_width. lia.
Qed.

Lemma vec_items_tbl {A} (L : Layout A) slice fs n k : tbl slice fs → (k + n = length fs)%nat →
  (∀ f, f ∈ fs → ∃ o, ly_read L f = ROk o) → ∃ o, vec_items L (Z.of_nat k) n slice = ROk o ∧
    ∀ l, mapM (λ f, ly_read L f) (drop k fs) = ROk (map Some l) → o = Some l.
Proof.
  intros Ht. revert k. induction n as [|n IH]; intros k Hn Hr.
  - exists (Some []). split; [done|]. intros l. rewrite drop_ge by lia. cbn. by destruct l.
  - destruct (lookup_lt_is_Some_2 fs k ltac:(lia)) as [f Hf]. cbn [vec_items]. rewrite (tbl_get _ _ _ _ Ht Hf).
    destruct (Hr f (list_elem_of_lookup_2 _ _ _ Hf)) as [o Ho]. cbn [mbind res_bind]. rewrite Ho. cbn [mbind res_bind].
    destruct (IH (S k) ltac:(lia) Hr) as (o' & E' & Hl). replace (Z.of_nat k + 1) with (Z.of_nat (S k)) by lia.
    rewrite (drop_S _ _ _ Hf). destruct o as [a|].
    + rewrite E'. cbn. eexists. split; [done|]. intros [|b l]; cbn; rewrite Ho; cbn;
        destruct (mapM _ (drop (S k) fs)) as [os| |] eqn:Em; cbn; try done.
      intros [= -> ->]. by rewrite (Hl l eq_refl).
    + eexists. split; [done|]. intros [|b l]; cbn; rewrite Ho; cbn;
        destruct (mapM _ (drop (S k) fs)) as [os| |]; done.
Qed.

Lemma mapM_reads {A} (L : Layout A) wf `{HL : !LayoutLaws L wf} l :
  Forall wf l → Forall (λ x, is_u32 (len x)) (map (ly_write L) l) →
  mapM (λ f, ly_read L f) (map (ly_write L) l) = ROk (map Some l) ∧
  check_all (replicate (length l) (ly_verify L)) (map (ly_write L) l) = ROk tt.
Proof.
  induction 1 as [|a l Ha Hl IH]; intros Hs; [done|]. cbn [map] in *. apply Forall_cons in Hs as [H1 H2].
  destruct (IH H2) as [I1 I2]. destruct (ly_written a Ha H1) as [E1 E2]. cbn. rewrite E1, E2. cbn. by rewrite I1, I2.
Qed.

Lemma empty_vec : len (pack_number NUMBER_SIZE) = 4 ∧ unpack_number (pack_number NUMBER_SIZE) = 4.
Proof.
  split; [unfold len; by rewrite pack_length|]. rewrite <- (app_nil_r (pack_number _)). by apply unpack_pack.
Qed.

#[export] Instance vec_of_laws {A} (L : Layout A) wf `{HL : !LayoutLaws L wf} : LayoutLaws (vec_of L) (Forall wf).
Proof.
  split.
  - intros l Hl Hs. destruct l as [|a0 l0].
    { cbn. destruct empty_vec as [Hp Hu]. split; [unfold dynvec_verify; by rewrite Hp, Hu|].
      unfold field_count. rewrite (number_at_ok _ 0) by lia. cbn. by rewrite drop_0, Hu. }
    set (l := a0 :: l0) in *. cbn [ly_write ly_verify ly_read vec_of] in *.
    change (dynvec_write (map (ly_write L) l)) with (table_write (map (ly_write L) l)) in *.
    destruct (table_fits (map (ly_write L) l)) as [Ht Hf]; [done|done|].
    destruct (mapM_reads L wf l Hl Hf) as [M1 M2]. split.
    + rewrite (tbl_dynvec_verify _ _ _ Ht), length_map. exact M2.
    + rewrite (tbl_field_count _ _ Ht). cbn [mbind res_bind].
      destruct (vec_items_tbl L _ _ (length l) 0 Ht) as (o & E & Ho); [by rewrite length_map| |].
      { intros f Hin. apply list_elem_of_fmap in Hin as (a & -> & Hin).
        rewrite Forall_forall in Hl. rewrite Forall_fmap, Forall_forall in Hf.
        destruct (ly_written a (Hl a Hin) (Hf a Hin)) as [_ ->]. by eexists. }
      replace (Z.to_nat (len _)) with (length l) by (unfold len; rewrite length_map; lia).
      change (Z.of_nat 0) with 0 in E. rewrite E. by rewrite (Ho l M1).
  - intros s. cbn [ly_verify ly_read vec_of].
    destruct (dynvec_verify_cases (ly_verify L) s) as [[e ->]|[(Hl & Hu & ->)|(fs & Ht & ->)]]; [done| |].
    + split; [done|]. intros _. unfold field_count.
      rewrite (number_at_ok _ 0) by (rewrite ?Hl; unfold NUMBER_SIZE; lia). cbn. rewrite drop_0, Hu. by eexists.
    + split.
      * apply check_all_safe; [by rewrite length_replicate|]. intros v x Hv. apply elem_of_replicate in Hv as [-> _].
        apply ly_total.
      * intros Hc. rewrite (tbl_field_count _ _ Ht). cbn [mbind res_bind].
        destruct (vec_items_tbl L s fs (length fs) 0 Ht) as (o & E & _); [done| |].
        { intros f Hf. apply ly_total. by eapply check_all_forall. }
        replace (Z.to_nat (len fs)) with (length fs) by (unfold len; lia). change (Z.of_nat 0) with 0 in E. rewrite E. by eexists.
Qed.

(** *** Tables *)

(** Checking the number of fields first only changes which error is found. *)
Lemma old_verify_same fields compatible slice :
  ((∃ e, old_table_verify fields compatible slice = RErr e) ∧ ∃ e, table_verify fields compatible slice = RErr e) ∨
  old_table_verify fields compatible slice = table_verify fields compatible slice.
Proof.
  unfold old_table_verify, table_verify.
  destruct (len slice <? NUMBER_SIZE); [by right|]. destruct (negb _); [by right|]. destruct (_ && _); [by right|].
  destruct (len slice <? NUMBER_SIZE * 2); [by right|].
  destruct (number_at slice NUMBER_SIZE) as [first|e|]; [|by right|by right]. cbn [mbind res_bind].
  change NUMBER_SIZE with 4. destruct (Z.eqb_spec (first mod 4) 0) as [Hm|Hm]; [|by right]. cbn [negb orb].
  destruct (first <? 4 * 2); [by right|].
  replace (4 * (first / 4 - 1 + 1)) with first by (pose proof (Z.div_mod first 4); lia).
  destruct (len slice <? first).
  - left. split; [|by eexists]. destruct (first / 4 - 1 <? len fields); [by eexists|].
    destruct (negb compatible && _); by eexists.
  - by right.
Qed.

#[export] Instance last_field_laws {A} (L : Layout A) wf `{HL : !LayoutLaws L wf} : FieldsLaws (last_field L) wf.
Proof.
  split; cbn; try done.
  - intros a Ha Hs. apply Forall_cons in Hs as [Hs _]. destruct (ly_written a Ha Hs) as [E1 E2]. rewrite E1. split; [done|].
    intros k get Hg. specialize (Hg 0%nat _ eq_refl). rewrite Z.add_0_r in Hg. rewrite Hg. exact E2.
  - intros [|f fs] Hlen; cbn in Hlen; [lia|]. destruct (ly_total f) as [H1 H2].
    destruct (ly_verify L f) as [[]| |] eqn:E; cbn; [|done..]. split; [by destruct fs|]. intros _ k get Hg.
    specialize (Hg 0%nat f eq_refl ltac:(lia)). rewrite Z.add_0_r in Hg. rewrite Hg. by apply H2.
Qed.

#[export] Instance field_laws {A B} (L : Layout A) (F : Fields B) wfa wfb
  `{HL : !LayoutLaws L wfa} `{HF : !FieldsLaws F wfb} : FieldsLaws (field L F) (λ x, wfa x.1 ∧ wfb x.2).
Proof.
  split.
  - intros a. cbn. by rewrite fd_count.
  - done.
  - intros [a b] [Ha Hb] Hs. cbn in *. apply Forall_cons in Hs as [H1 H2].
    destruct (ly_written a Ha H1) as [E1 E2]. destruct (fd_written b Hb H2) as [E3 E4]. rewrite E1. cbn. split; [exact E3|].
    intros k get Hg. pose proof (Hg 0%nat _ eq_refl) as Hg0. rewrite Z.add_0_r in Hg0. rewrite Hg0. cbn. rewrite E2. cbn.
    rewrite (E4 (k + 1) get); [done|]. intros i x Hx. rewrite <- (Hg (S i) x Hx). f_equal. lia.
  - intros [|f fs] Hlen; cbn in Hlen; [lia|]. cbn. destruct (ly_total f) as [H1 H2].
    destruct (fd_total fs ltac:(lia)) as [H3 H4]. destruct (ly_verify L f) as [[]| |] eqn:E; cbn; [|done..].
    split; [exact H3|]. intros Hc k get Hg. destruct (H2 eq_refl) as [o Ho].
    pose proof (Hg 0%nat f eq_refl ltac:(lia)) as Hg0. rewrite Z.add_0_r in Hg0. rewrite Hg0. cbn. rewrite Ho. cbn.
    destruct o as [a|]; [|by eexists]. destruct (H4 Hc (k + 1) get) as [o' ->]; [|by eexists].
    intros i x Hx Hi. rewrite <- (Hg (S i) x Hx ltac:(lia)). f_equal. lia.
Qed.

#[export] Instance table_of_laws {A} (F : Fields A) wf `{HF : !FieldsLaws F wf} : LayoutLaws (table_of F) wf.
Proof.
  split; cbn [ly_write ly_verify ly_read table_of].
  - intros a Ha Hs. assert (Hne : fd_write F a ≠ []).
    { intros E. pose proof (fd_count a) as Hc. rewrite E in Hc. pose proof fd_some as Hn. by destruct (fd_verify F). }
    destruct (table_fits _ Hne Hs) as [Ht Hf]. destruct (fd_written a Ha Hf) as [E1 E2].
    assert (Hlen : len (fd_verify F) = len (fd_write F a)) by (unfold len; by rewrite fd_count).
    pose proof (tbl_table_verify _ _ (fd_verify F) Ht ltac:(lia)) as Ev. rewrite E1 in Ev. split.
    + destruct (old_verify_same (fd_verify F) true (table_write (fd_write F a))) as [[_ [e Hx]]| ->]; congruence.
    + apply E2. intros i x Hx. eapply tbl_field; [exact Ht|exact Hx|done|]. apply lookup_lt_Some in Hx. unfold len in *. lia.
  - intros s. destruct (old_verify_same (fd_verify F) true s) as [[[e ->] _]| ->]; [done|].
    destruct (table_verify_cases (fd_verify F) true s fd_some) as [[e ->]|(fs & Ht & Hl & ->)]; [done|].
    destruct (fd_total fs ltac:(unfold len in Hl; lia)) as [H1 H2]. split; [exact H1|]. intros Hc.
    apply (H2 Hc). intros i x Hx Hi. eapply tbl_field; [exact Ht|exact Hx|done|]. unfold len in *. lia.
Qed.

(** *** Unions *)

Lemma pack_len n : len (pack_number n) = 4.
Proof. unfold len. by rewrite pack_length. Qed.

Lemma union_part s n : is_u32 n → sub (pack_number n ++ s) NUMBER_SIZE (len (pack_number n ++ s)) = ROk s ∧
  number_at (pack_number n ++ s) 0 = ROk n ∧ unpack_number (pack_number n ++ s) = n ∧
  (len (pack_number n ++ s) <? NUMBER_SIZE) = false.
Proof.
  intros Hn. pose proof (len_nonneg s). assert (Hp : len (pack_number n) = 4) by (unfold len; by rewrite pack_length).
  split_and!.
  - rewrite sub_from by (rewrite len_app; unfold NUMBER_SIZE; lia). f_equal. apply drop_app_length'. by rewrite pack_length.
  - apply (number_at_app [] n s 0); done.
  - by apply unpack_pack.
  - rewrite len_app. unfold NUMBER_SIZE. lia.
Qed.

#[export] Instance union_of_laws {A B} (L0 : Layout A) (L1 : Layout B) wf0 wf1
  `{H0 : !LayoutLaws L0 wf0} `{H1 : !LayoutLaws L1 wf1} :
  LayoutLaws (union_of L0 L1) (λ x, match x with inl a => wf0 a | inr b => wf1 b end).
Proof.
  split; cbn [ly_write ly_verify ly_read union_of]; unfold union_verify, union_read.
  - intros [a|b] Hw Hs; rewrite len_app, pack_len in Hs; unfold in_width in Hs.
    + destruct (union_part (ly_write L0 a) 0 ltac:(done)) as (-> & -> & -> & ->). cbn.
      pose proof (len_nonneg (ly_write L0 a)). destruct (ly_written (L := L0) a Hw ltac:(unfold in_width; lia)) as [-> ->]. done.
    + destruct (union_part (ly_write L1 b) 1 ltac:(done)) as (-> & -> & -> & ->). cbn.
      pose proof (len_nonneg (ly_write L1 b)). destruct (ly_written (L := L1) b Hw ltac:(unfold in_width; lia)) as [-> ->]. done.
  - intros s. destruct (Z.ltb_spec (len s) NUMBER_SIZE) as [|Hl]; [done|].
    rewrite sub_from by (unfold NUMBER_SIZE in *; lia). cbn [mbind res_bind].
    rewrite (number_at_ok _ 0) by (unfold NUMBER_SIZE in *; lia). cbn [mbind res_bind]. change (Z.to_nat 0) with 0%nat. rewrite drop_0.
    destruct (unpack_number s =? 0).
    + destruct (ly_total (L := L0) (drop (Z.to_nat NUMBER_SIZE) s)) as [T1 T2]. split; [exact T1|].
      intros Hv. destruct (T2 Hv) as [o ->]. by eexists.
    + destruct (unpack_number s =? 1); [|done].
      destruct (ly_total (L := L1) (drop (Z.to_nat NUMBER_SIZE) s)) as [T1 T2]. split; [exact T1|].
      intros Hv. destruct (T2 Hv) as [o ->]. by eexists.
Qed.

(** ** Decoding *)

Lemma decode_written {A} (L : Layout A) wf `{HL : !LayoutLaws L wf} a : wf a → is_u32 (len (ly_write L a)) →
  decode_with L (ly_write L a) = ROk (Some a).
Proof. intros Hw Hs. unfold decode_with. by destruct (ly_written a Hw Hs) as [-> ->]. Qed.

Lemma decode_total {A} (L : Layout A) wf `{HL : !LayoutLaws L wf} data : ∃ o, decode_with L data = ROk o.
Proof.
  unfold decode_with. destruct (ly_total data) as [H1 H2]. destruct (ly_verify L data) as [[]| |]; [auto|by eexists|done].
Qed.

End Laws.

(** ** What is read

    Properties every value a layout reads has, whatever the slice. *)

Class LayoutReads {A} (L : Layout A) (P : A → Prop) : Prop :=
  ly_reads : ∀ s a, ly_read L s = ROk (Some a) → P a.
Class FieldsReads {A} (F : Fields A) (P : A → Prop) : Prop :=
  fd_reads : ∀ k get a, fd_read F k get = ROk (Some a) → P a.

Section Reads.
Context `{MN : MolNumber}.

Lemma converted_reads {A B} (L : Layout A) (into : B → A) from (P : B → Prop) :
  (∀ a b, from a = ROk (Some b) → P b) → LayoutReads (converted L into from) P.
Proof.
  intros Hf s b Hb. cbn in Hb. apply res_bind_ok in Hb as ([a|] & _ & Hb); [by eapply Hf|done].
Qed.

#[export] Instance byte_vec_reads : LayoutReads byte_vec (λ _, True).
Proof. done. Qed.

#[export] Instance vec_of_reads {A} (L : Layout A) P `{HL : !LayoutReads L P} : LayoutReads (vec_of L) (Forall P).
Proof.
  intros s l Hl. cbn in Hl. apply res_bind_ok in Hl as (n & _ & Hl). revert Hl. generalize 0 as k.
  revert l. induction (Z.to_nat n) as [|m IH]; intros l k Hl; cbn in Hl; [injection Hl as <-; constructor|].
  apply res_bind_ok in Hl as (item & _ & Hl). apply res_bind_ok in Hl as ([a|] & Ha & Hl); [|done].
  apply res_bind_ok in Hl as ([r|] & Hr & Hl); [|done]. injection Hl as <-. constructor; [exact (ly_reads _ _ Ha)|by eapply IH].
Qed.

#[export] Instance last_field_reads {A} (L : Layout A) P `{HL : !LayoutReads L P} : FieldsReads (last_field L) P.
Proof. intros k get a Ha. cbn in Ha. apply res_bind_ok in Ha as (s & _ & Ha). exact (ly_reads _ _ Ha). Qed.

#[export] Instance field_reads {A B} (L : Layout A) (F : Fields B) P Q
  `{HL : !LayoutReads L P} `{HF : !FieldsReads F Q} : FieldsReads (field L F) (λ x, P x.1 ∧ Q x.2).
Proof.
  intros k get x Hx. cbn in Hx. apply res_bind_ok in Hx as (s & _ & Hx). apply res_bind_ok in Hx as ([a|] & Ha & Hx); [|done].
  apply res_bind_ok in Hx as ([b|] & Hb & Hx); [|done]. injection Hx as <-. split; [exact (ly_reads _ _ Ha)|exact (fd_reads _ _ _ Hb)].
Qed.

#[export] Instance table_of_reads {A} (F : Fields A) P `{HF : !FieldsReads F P} : LayoutReads (table_of F) P.
Proof. intros s a Ha. exact (fd_reads _ _ _ Ha). Qed.

#[export] Instance union_of_reads {A B} (L0 : Layout A) (L1 : Layout B) P Q
  `{H0 : !LayoutReads L0 P} `{H1 : !LayoutReads L1 Q} :
  LayoutReads (union_of L0 L1) (λ x, match x with inl a => P a | inr b => Q b end).
Proof.
  intros s x Hx. cbn in Hx. unfold union_read in Hx. apply res_bind_ok in Hx as (i & _ & Hx).
  apply res_bind_ok in Hx as (n & _ & Hx). destruct (n =? 0).
  - apply res_bind_ok in Hx as ([a|] & Ha & Hx); [|done]. injection Hx as <-. exact (ly_reads _ _ Ha).
  - destruct (n =? 1); [|done]. apply res_bind_ok in Hx as ([a|] & Ha & Hx); [|done]. injection Hx as <-. exact (ly_reads _ _ Ha).
Qed.

Lemma reads_mono {A} (L : Layout A) (P Q : A → Prop) : LayoutReads L P → (∀ a, P a → Q a) → LayoutReads L Q.
Proof. intros HL Hq s a Ha. by apply Hq, (HL s). Qed.

Lemma decode_reads {A} (L : Layout A) P `{HL : !LayoutReads L P} data a : decode_with L data = ROk (Some a) → P a.
Proof. unfold decode_with. destruct (ly_verify L data); [|done..]. intros Ha. exact (ly_reads _ _ Ha). Qed.

End Reads.
