(* ===== verification/ProtocolMessages.v ===== *)
(** * Messages of the protocols ([protocols/{ping,identify,discovery}])

    The messages of the ping, identify and discovery protocols with their molecule encodings
    ([protocol.rs], [protocol_mol.rs]), built from the combinators of [Layouts]. The values of a
    message are converted where they are read, so a message with a value that cannot be converted
    decodes to [ROk None] whatever the order in which the code looks at its fields. The decoders of
    ping and discovery read their numbers through raw pointers: [ping_decode_at] and
    [discovery_payload_decode_at] are given the address of the message and fail on a misaligned
    pointer, [ping_decode] and [discovery_payload_decode] give the values found. *)

From Stdlib Require Import ZArith Lia Bool.
From Stdlib Require Import Strings.String.
From stdpp Require Import base list.
From S2P Require Import Prelude Text Molecule MoleculeProofs Messages Multiaddr MultiaddrProofs Layouts.

Open Scope Z_scope.

(** ** Numbers and addresses *)

(** [to_le_bytes], [from_le]. *)
Definition le_bytes (n : nat) (z : Z) : bytes := rev (be_bytes n z).
Definition le_val (b : bytes) : Z := be_val (rev b).

Section Layouts.
Context `{MN : MolNumber} `{V : Varint}.

Definition Uint32 : Layout Z := converted (byte_array 4) (le_bytes 4) (λ b, ROk (Some (le_val b))).
Definition Uint16 : Layout Z := converted (byte_array 2) (le_bytes 2) (λ b, ROk (Some (le_val b))).

(** [Bool]: the byte is 0 or 1. *)
Definition Bool : Layout bool :=
  converted (byte_array 1) (λ b : bool, [if b then byte_of 1 else byte_of 0])
    (λ b, match b with
          | [x] => if byte_val x =? 0 then ROk (Some false) else if byte_val x =? 1 then ROk (Some true) else ROk None
          | _ => RPanic
          end).

(** [Multiaddr::try_from(bytes).ok()?] *)
Definition addr_from (b : bytes) : res MolError (option Multiaddr) :=
  match try_from b with ROk m => ROk (Some m) | RErr _ => ROk None | RPanic => RPanic end.
Definition AddrBytes : Layout Multiaddr := converted byte_vec (λ m, m) addr_from.

(** ** Ping *)

Definition Ping : Layout Z := table_of (last_field Uint32).
Definition Pong : Layout Z := table_of (last_field Uint32).
Definition PingPayload : Layout (Z + Z) := union_of Ping Pong.
Definition PingMessage : Layout (Z + Z) := table_of (last_field PingPayload).

Definition build_ping (nonce : Z) : bytes := ly_write PingMessage (inl nonce).
Definition build_pong (nonce : Z) : bytes := ly_write PingMessage (inr nonce).
(** [inl] for a ping, [inr] for a pong. *)
Definition ping_decode (data : bytes) : res MolError (option (Z + Z)) := decode_with PingMessage data.

(** ** Identify *)

Record IdentifyMessage := mkIdentifyMessage {
  im_listen_addrs : list Multiaddr; im_observed_addr : Multiaddr; im_identify : bytes }.

Definition Address : Layout Multiaddr := table_of (last_field AddrBytes).
Definition AddressVec : Layout (list Multiaddr) := vec_of Address.
Definition IdentifyTable : Layout (list Multiaddr * (Multiaddr * bytes)) :=
  table_of (field AddressVec (field Address (last_field byte_vec))).

Definition identify_encode (m : IdentifyMessage) : bytes :=
  ly_write IdentifyTable (im_listen_addrs m, (im_observed_addr m, im_identify m)).
Definition identify_decode (data : bytes) : res MolError (option IdentifyMessage) :=
  o ← decode_with IdentifyTable data;
  ROk (option_map (λ x, mkIdentifyMessage x.1 x.2.1 x.2.2) o).

(** ** Discovery *)

Record Node := mkNode { nd_addresses : list Multiaddr }.
Record Nodes := mkNodes { ns_announce : bool; ns_items : list Node }.
Inductive DiscoveryMessage :=
| DmGetNodes (version count : Z) (listen_port : option Z)
| DmNodes (nodes : Nodes).

Definition PortOpt : Layout (option Z) := option_of Uint16.
Definition BytesVec : Layout (list Multiaddr) := vec_of AddrBytes.
Definition NodeTable : Layout (list Multiaddr) := table_of (last_field BytesVec).
Definition NodeVec : Layout (list (list Multiaddr)) := vec_of NodeTable.
Definition GetNodesTable : Layout (Z * (Z * option Z)) := table_of (field Uint32 (field Uint32 (last_field PortOpt))).
Definition NodesTable : Layout (bool * list (list Multiaddr)) := table_of (field Bool (last_field NodeVec)).
Definition DiscoveryPayload : Layout (Z * (Z * option Z) + bool * list (list Multiaddr)) := union_of GetNodesTable NodesTable.
Definition DiscoveryTable : Layout (Z * (Z * option Z) + bool * list (list Multiaddr)) := table_of (last_field DiscoveryPayload).

Definition to_payload (m : DiscoveryMessage) : Z * (Z * option Z) + bool * list (list Multiaddr) :=
  match m with
  | DmGetNodes version count port => inl (version, (count, port))
  | DmNodes n => inr (ns_announce n, map nd_addresses (ns_items n))
  end.
Definition of_payload (x : Z * (Z * option Z) + bool * list (list Multiaddr)) : DiscoveryMessage :=
  match x with
  | inl (version, (count, port)) => DmGetNodes version count port
  | inr (announce, items) => DmNodes (mkNodes announce (map mkNode items))
  end.

(** [DiscoveryMessage::encode], [DiscoveryMessage::decode]. *)
Definition discovery_payload_encode (m : DiscoveryMessage) : bytes := ly_write DiscoveryTable (to_payload m).
Definition discovery_payload_decode (data : bytes) : res MolError (option DiscoveryMessage) :=
  o ← decode_with DiscoveryTable data; ROk (option_map of_payload o).

(** ** Decoding at an address

    The numbers of a ping and of a [GetNodes] message are read by dereferencing a pointer into the
    message. [base] is the address of the first byte of the message. *)

(** [*(ptr as *const u32)], [*(ptr as *const u16)] with [from_le]: at an address that is not a
    multiple of the alignment, a panic in builds with debug assertions and undefined without. *)
Definition deref (addr align : Z) (b : bytes) : res MolError Z :=
  if addr mod align =? 0 then ROk (le_val b) else RPanic.

(** A field with its position in the table. *)
Definition table_field_at (count i : Z) (slice : bytes) : res MolError (Z * bytes) :=
  start ← number_at slice (NUMBER_SIZE * (1 + i)); s ← table_field count i slice; ROk (start, s).

(** [to_enum]: the number of the item and its slice, which starts behind the number. *)
Definition union_item (slice : bytes) : res MolError (Z * bytes) :=
  inner ← sub slice NUMBER_SIZE (len slice); item_id ← number_at slice 0; ROk (item_id, inner).

Definition ping_decode_at (base : Z) (data : bytes) : res MolError (option (Z + Z)) :=
  match ly_verify PingMessage data with
  | RErr _ => ROk None
  | RPanic => RPanic
  | ROk _ =>
      payload ← table_field_at 1 0 data;
      item ← union_item payload.2;
      let at_item := base + payload.1 + NUMBER_SIZE in
      if item.1 =? 0 then
        nonce ← table_field_at 1 0 item.2;
        le ← deref (at_item + nonce.1) 4 nonce.2; ROk (Some (inl le))
      else if item.1 =? 1 then
        nonce ← table_field_at 1 0 item.2;
        le ← deref (at_item + nonce.1) 4 nonce.2; ROk (Some (inr le))
      else RPanic
  end.

Definition discovery_payload_decode_at (base : Z) (data : bytes) : res MolError (option DiscoveryMessage) :=
  match ly_verify DiscoveryTable data with
  | RErr _ => ROk None
  | RPanic => RPanic
  | ROk _ =>
      payload ← table_field_at 1 0 data;
      item ← union_item payload.2;
      let at_item := base + payload.1 + NUMBER_SIZE in
      if item.1 =? 0 then
        v ← table_field_at 3 0 item.2; version ← deref (at_item + v.1) 4 v.2;
        c ← table_field_at 3 1 item.2; count ← deref (at_item + c.1) 4 c.2;
        p ← table_field_at 3 2 item.2;
        listen_port ← (if is_empty p.2 then ROk None
                       else port ← deref (at_item + p.1) 2 p.2; ROk (Some port));
        ROk (Some (DmGetNodes version count listen_port))
      else if item.1 =? 1 then
        o ← ly_read NodesTable item.2; ROk (option_map (λ x, of_payload (inr x)) o)
      else RPanic
  end.

End Layouts.

(** [LengthDelimitedCodec] of [tokio_util] on one message: [None] is the error of the encoder, and
    the decoder gives an error or a frame, if one is complete. *)
Class DelimitedCodec := {
  ld_encode : bytes → option bytes;
  ld_decode : bytes → option (option bytes);
}.
(** A frame of at most 8 MiB is accepted and given back. *)
Class DelimitedCodecLaws `{LD : DelimitedCodec} : Prop := {
  ld_roundtrip : ∀ b, len b <= 8 * 1024 * 1024 → ∃ e, ld_encode b = Some e ∧ ld_decode e = Some (Some b);
}.

Section Delimited.
Context `{MN : MolNumber} `{V : Varint} `{LD : DelimitedCodec}.

(** [encode], which panics where the codec refuses, and [decode] of [discovery/src/protocol.rs]. *)
Definition discovery_encode (m : DiscoveryMessage) : res MolError bytes :=
  match ld_encode (discovery_payload_encode m) with Some b => ROk b | None => RPanic end.
Definition discovery_decode (data : bytes) : res MolError (option DiscoveryMessage) :=
  match ld_decode data with
  | Some (Some frame) => discovery_payload_decode frame
  | Some None => ROk None
  | None => ROk None
  end.

End Delimited.

(** ** Round trips and totality *)

Section Proofs.
Context `{ML : MolNumberLaws} `{VL : VarintLaws}.

Lemma le_bytes_len n z : len (le_bytes n z) = Z.of_nat n.
Proof. unfold le_bytes, len. by rewrite length_rev, be_bytes_length. Qed.

Lemma le_roundtrip n z : in_width (8 * Z.of_nat n) z → le_val (le_bytes n z) = z.
Proof. intros Hz. unfold le_val, le_bytes. rewrite rev_involutive. by apply be_val_be_bytes_id. Qed.

(** Weaker preconditions are enough. *)
Lemma laws_mono {A} (L : Layout A) (wf wf' : A → Prop) : LayoutLaws L wf → (∀ a, wf' a → wf a) → LayoutLaws L wf'.
Proof. intros [H1 H2] Hw. split; auto. Qed.

Lemma number_laws n (w : nat) : n = Z.of_nat w →
  LayoutLaws (converted (byte_array n) (le_bytes w) (λ b, ROk (Some (le_val b)))) (in_width (8 * n)).
Proof.
  intros ->. eapply laws_mono; [eapply converted_laws; [apply _|eauto]|].
  intros z Hz. cbn. split; [apply le_bytes_len|]. do 2 f_equal. by apply le_roundtrip.
Qed.

#[export] Instance Uint32_laws : LayoutLaws Uint32 (in_width 32).
Proof. by apply (number_laws 4 4). Qed.
#[export] Instance Uint16_laws : LayoutLaws Uint16 (in_width 16).
Proof. by apply (number_laws 2 2). Qed.

#[export] Instance Bool_laws : LayoutLaws Bool (λ _, True).
Proof.
  split.
  - intros b _ _. by destruct b; vm_compute.
  - intros s. cbn. unfold array_verify. destruct (Z.eqb_spec (len s) 1) as [Hs|]; [|done]. split; [done|]. intros _.
    destruct s as [|x [|y s]]; [done| |rewrite !len_cons in Hs; pose proof (len_nonneg s); lia].
    repeat destruct_if; by eexists.
Qed.

Lemma addr_from_total b : ∃ o, addr_from b = ROk o.
Proof.
  unfold addr_from. pose proof (try_loop_spec (length b) b ltac:(lia)) as H. unfold try_from.
  destruct (try_loop (length b) b) as [[]|e|]; [by eexists|by eexists|done].
Qed.

(** Addresses that can be read. *)
Definition readable (m : Multiaddr) : Prop := ∃ ps, parses m ps.

Lemma try_loop_parses fuel b ps : parses b ps → (length b <= fuel)%nat → try_loop fuel b = ROk tt.
Proof.
  intros Hp. revert fuel. induction Hp as [|b p r ps Hb Hp IH]; intros fuel Hf; [by destruct fuel|].
  pose proof (from_bytes_shorter _ _ _ Hb). pose proof (parses_nonempty b p ps (parses_cons _ _ _ _ Hb Hp)) as He.
  destruct fuel as [|fuel]; cbn [try_loop]; rewrite He; [lia|]. rewrite Hb. apply IH. lia.
Qed.

#[export] Instance AddrBytes_laws : LayoutLaws AddrBytes readable.
Proof.
  eapply laws_mono; [eapply converted_laws; [apply _|apply addr_from_total]|].
  intros m [ps Hm]. cbn. split; [done|]. unfold addr_from, try_from. by rewrite (try_loop_parses _ _ _ Hm).
Qed.

(** *** The messages *)

#[export] Instance PingMessage_laws : LayoutLaws PingMessage (λ x, match x with inl n | inr n => in_width 32 n end).
Proof. eapply laws_mono; [unfold PingMessage, PingPayload, Ping, Pong; apply _|]. by intros []. Qed.

#[export] Instance IdentifyTable_laws :
  LayoutLaws IdentifyTable (λ x, Forall readable x.1 ∧ readable x.2.1 ∧ True).
Proof. eapply laws_mono; [unfold IdentifyTable, AddressVec, Address; apply _|]. by intros [? []]. Qed.

Lemma Uint16_nonempty z : ly_write Uint16 z ≠ [].
Proof. done. Qed.

#[export] Instance PortOpt_laws : LayoutLaws PortOpt (λ o, ∀ p, o = Some p → in_width 16 p).
Proof. eapply laws_mono; [unfold PortOpt; apply _|]. intros o Ho p ->. split; [by apply Ho|apply Uint16_nonempty]. Qed.

#[export] Instance DiscoveryTable_laws : LayoutLaws DiscoveryTable (λ x,
  match x with
  | inl g => in_width 32 g.1 ∧ in_width 32 g.2.1 ∧ ∀ p, g.2.2 = Some p → in_width 16 p
  | inr n => True ∧ Forall (Forall readable) n.2
  end).
Proof.
  eapply laws_mono; [unfold DiscoveryTable, DiscoveryPayload, GetNodesTable, NodesTable, NodeVec, NodeTable, BytesVec; apply _|].
  by intros [[? []]|[]].
Qed.

Definition identify_wf (m : IdentifyMessage) : Prop :=
  Forall readable (im_listen_addrs m) ∧ readable (im_observed_addr m) ∧ is_u32 (len (identify_encode m)).

Definition discovery_wf (m : DiscoveryMessage) : Prop :=
  match m with
  | DmGetNodes version count port => in_width 32 version ∧ in_width 32 count ∧ ∀ p, port = Some p → in_width 16 p
  | DmNodes n => Forall (λ nd, Forall readable (nd_addresses nd)) (ns_items n)
  end ∧ is_u32 (len (discovery_payload_encode m)).

Lemma of_to_payload m : of_payload (to_payload m) = m.
Proof.
  destruct m as [v c p|[a items]]; [done|]. cbn. do 2 f_equal. rewrite map_map.
  induction items as [|[l] items IH]; [done|]. cbn. by rewrite IH.
Qed.

Lemma build_ping_len n : len (build_ping n) = 24 ∧ len (build_pong n) = 24.
Proof.
  unfold build_ping, build_pong. cbn [ly_write PingMessage table_of last_field fd_write PingPayload union_of Ping Pong].
  rewrite !table_write_len. cbn [concat]. rewrite !app_nil_r, !len_app, !pack_len, !table_write_len. cbn [concat].
  rewrite !app_nil_r. cbn [ly_write Uint32 converted byte_array]. rewrite le_bytes_len. done.
Qed.

(** C28: what the ping, identify and discovery protocols encode, they decode: nonces, addresses that
    can be read and ports survive the round trip while a message is below 4 GiB. *)
Theorem protocol_messages_roundtrip n m d : in_width 32 n → identify_wf m → discovery_wf d →
  ping_decode (build_ping n) = ROk (Some (inl n)) ∧ ping_decode (build_pong n) = ROk (Some (inr n)) ∧
  identify_decode (identify_encode m) = ROk (Some m) ∧
  discovery_payload_decode (discovery_payload_encode d) = ROk (Some d).
Proof.
  intros Hn (M1 & M2 & M3) [D1 D2]. destruct (build_ping_len n) as [P1 P2]. split_and!.
  - eapply (decode_written PingMessage _ (inl n) Hn). change (is_u32 (len (build_ping n))). by rewrite P1.
  - eapply (decode_written PingMessage _ (inr n) Hn). change (is_u32 (len (build_pong n))). by rewrite P2.
  - unfold identify_decode, identify_encode. rewrite (decode_written IdentifyTable _ _ (conj M1 (conj M2 I)) M3).
    by destruct m.
  - unfold discovery_payload_decode, discovery_payload_encode.
    rewrite (decode_written DiscoveryTable _ (to_payload d)); [cbn; by rewrite of_to_payload| |exact D2].
    destruct d as [v c p|[a items]]; [exact D1|]. split; [done|]. cbn. by apply Forall_fmap.
Qed.

Lemma ping_decode_total data : ∃ o, ping_decode data = ROk o.
Proof. eapply (decode_total PingMessage), _. Qed.

Lemma identify_decode_total data : ∃ o, identify_decode data = ROk o.
Proof. destruct (decode_total IdentifyTable _ data) as [o E]. unfold identify_decode. rewrite E. by eexists. Qed.

Lemma discovery_decode_total data : ∃ o, discovery_payload_decode data = ROk o.
Proof. destruct (decode_total DiscoveryTable _ data) as [o E]. unfold discovery_payload_decode. rewrite E. by eexists. Qed.

(** *** The addresses of a decoded message can be read *)

Lemma addr_from_readable b m : addr_from b = ROk (Some m) → readable m.
Proof.
  unfold addr_from, try_from. pose proof (try_loop_spec (length b) b ltac:(lia)) as H.
  destruct (try_loop (length b) b); [|done..]. by intros [= <-].
Qed.

#[export] Instance AddrBytes_reads : LayoutReads AddrBytes readable.
Proof. apply converted_reads, addr_from_readable. Qed.

#[export] Instance Uint32_reads : LayoutReads Uint32 (λ _, True).
Proof. done. Qed.
#[export] Instance PortOpt_reads : LayoutReads PortOpt (λ _, True).
Proof. done. Qed.
#[export] Instance Bool_reads : LayoutReads Bool (λ _, True).
Proof. done. Qed.

#[export] Instance IdentifyTable_reads :
  LayoutReads IdentifyTable (λ x, Forall readable x.1 ∧ readable x.2.1 ∧ True).
Proof. eapply reads_mono; [unfold IdentifyTable, AddressVec, Address; apply _|]. by intros [? []]. Qed.

#[export] Instance DiscoveryTable_reads :
  LayoutReads DiscoveryTable (λ x, match x with inl _ => True | inr b => True ∧ Forall (Forall readable) b.2 end).
Proof.
  eapply reads_mono; [unfold DiscoveryTable, DiscoveryPayload, GetNodesTable, NodesTable, NodeVec, NodeTable, BytesVec; apply _|].
  by intros [|[]].
Qed.

Lemma identify_decoded data m : identify_decode data = ROk (Some m) →
  Forall readable (im_listen_addrs m) ∧ readable (im_observed_addr m).
Proof.
  unfold identify_decode. intros E. apply res_bind_ok in E as ([x|] & E & Hx); [|done]. injection Hx as <-.
  apply (decode_reads IdentifyTable _) in E. naive_solver.
Qed.

Lemma discovery_decoded data n : discovery_payload_decode data = ROk (Some (DmNodes n)) →
  Forall (λ nd, Forall readable (nd_addresses nd)) (ns_items n).
Proof.
  unfold discovery_payload_decode. intros E. apply res_bind_ok in E as ([x|] & E & Hx); [|done].
  apply (decode_reads DiscoveryTable _) in E. destruct x as [[? []]|[a items]]; [done|]. injection Hx as <-.
  cbn in *. apply Forall_fmap. apply E.
Qed.

(** *** Where the numbers lie *)

(** The fields of a verified table. *)
Lemma verified_table {A} (F : Fields A) s : fd_verify F ≠ [] → ly_verify (table_of F) s = ROk tt →
  ∃ fs, tbl s fs ∧ len (fd_verify F) <= len fs ∧ check_all (fd_verify F) fs = ROk tt.
Proof.
  intros Hne. cbn [ly_verify table_of]. intros Hv.
  destruct (old_verify_same (fd_verify F) true s) as [[[e He] _]|E]; [congruence|]. rewrite E in Hv.
  destruct (table_verify_cases (fd_verify F) true s Hne) as [[e He]|(fs & Ht & Hl & He)]; [congruence|].
  exists fs. by rewrite <- He.
Qed.

Lemma tbl_field_at slice fs i f count : tbl slice fs → fs !! i = Some f → Z.of_nat i < count <= len fs →
  table_field count (Z.of_nat i) slice = ROk f ∧ table_field_at count (Z.of_nat i) slice = ROk (off fs i, f).
Proof.
  intros Ht Hf Hc. pose proof (tbl_field _ _ _ i f count Ht Hf eq_refl Hc) as E. split; [exact E|].
  unfold table_field_at. rewrite E. destruct Ht as (_ & _ & _ & _ & ->); [done|]. by apply lookup_lt_Some in Hf.
Qed.

Lemma header_aligned fs : (off fs 0) mod 4 = 0.
Proof.
  unfold off, header_len, NUMBER_SIZE. cbn [take concat]. change (len []) with 0.
  rewrite Z.add_0_r, Z.mul_comm. apply Z.mod_mul. lia.
Qed.

(** A table of one field: the field lies at a multiple of four. *)
Lemma one_field {A} (L : Layout A) s : ly_verify (table_of (last_field L)) s = ROk tt →
  ∃ k f, table_field_at 1 0 s = ROk (k, f) ∧ k mod 4 = 0 ∧ ly_verify L f = ROk tt ∧
    ly_read (table_of (last_field L)) s = ly_read L f.
Proof.
  intros Hv. destruct (verified_table (last_field L) s ltac:(done) Hv) as ([|f fs] & Ht & Hl & Hc); [done|].
  destruct (tbl_field_at s (f :: fs) 0 f 1 Ht eq_refl) as [E1 E2]; [rewrite len_cons; pose proof (len_nonneg fs); lia|].
  exists (off (f :: fs) 0), f. split_and!; [exact E2|apply header_aligned| |change (table_field 1 0 s = ROk f) in E1; cbn; change (len _) with 1; by rewrite E1].
  cbn in Hc. by destruct (ly_verify L f) as [[]| |].
Qed.

(** The item of a verified union. *)
Lemma verified_union {A B} (L0 : Layout A) (L1 : Layout B) s : ly_verify (union_of L0 L1) s = ROk tt →
  ∃ id inner, union_item s = ROk (id, inner) ∧
    ((id = 0 ∧ ly_verify L0 inner = ROk tt ∧ ly_read (union_of L0 L1) s = (o ← ly_read L0 inner; ROk (option_map inl o))) ∨
     (id = 1 ∧ ly_verify L1 inner = ROk tt ∧ ly_read (union_of L0 L1) s = (o ← ly_read L1 inner; ROk (option_map inr o)))).
Proof.
  cbn [ly_verify ly_read union_of]. unfold union_verify, union_read, union_item.
  destruct (Z.ltb_spec (len s) NUMBER_SIZE) as [|Hl]; [done|]. unfold NUMBER_SIZE in *.
  rewrite sub_from by lia. rewrite (number_at_ok _ 0) by lia. cbn [mbind res_bind]. change (Z.to_nat 0) with 0%nat. rewrite drop_0.
  intros Hv. eexists _, _. split; [done|].
  destruct (Z.eqb_spec (unpack_number s) 0) as [E0|]; [left; by rewrite E0|].
  destruct (Z.eqb_spec (unpack_number s) 1) as [E1|]; [right; by rewrite E1|done].
Qed.

Lemma mod_shift n d k : 0 < d → k mod d = 0 → (n + k) mod d = n mod d.
Proof. intros Hd Hk. rewrite Z.add_mod, Hk, Z.add_0_r, Z.mod_mod by lia. done. Qed.

(** The outcome of a decoder that reads numbers at multiples of four. *)
Definition aligned {A} (base : Z) (r : res MolError (option A)) : res MolError (option A) :=
  if base mod 4 =? 0 then r else RPanic.

Lemma ping_table_at base s f : ly_verify (table_of (last_field Uint32)) s = ROk tt →
  ∃ n k b, ly_read (table_of (last_field Uint32)) s = ROk (Some n) ∧ table_field_at 1 0 s = ROk (k, b) ∧
    (le ← deref (base + k) 4 b; ROk (Some (f le : Z + Z))) = aligned base (ROk (Some (f n))).
Proof.
  intros Hv. destruct (one_field Uint32 s Hv) as (k & b & E & Hk & _ & Er).
  exists (le_val b), k, b. split_and!; [by rewrite Er|done|]. unfold deref, aligned.
  rewrite mod_shift by done. by destruct (_ =? 0).
Qed.

Lemma ping_decode_at_spec base data o : ping_decode data = ROk o →
  ping_decode_at base data = match o with None => ROk None | Some _ => aligned base (ROk o) end.
Proof.
  unfold ping_decode, ping_decode_at, decode_with. destruct (ly_verify PingMessage data) as [[]| |] eqn:Hv; [|by intros [= <-]|done].
  destruct (one_field PingPayload data Hv) as (k & payload & -> & Hk & Hp & Er).
  unfold PingMessage at 1. rewrite Er. change PingPayload with (union_of Ping Pong). cbn [mbind res_bind snd fst].
  destruct (verified_union Ping Pong payload Hp) as (id & inner & -> & [(-> & Hi & ->)|(-> & Hi & ->)]); cbn [mbind res_bind snd fst Z.eqb].
  - destruct (ping_table_at (base + k + NUMBER_SIZE) inner inl Hi) as (n & q & b & En & -> & Hd).
    unfold Ping. rewrite En. intros [= <-]. cbn [mbind res_bind snd fst] in Hd |- *. rewrite Hd.
    unfold aligned, NUMBER_SIZE. by rewrite !mod_shift.
  - destruct (ping_table_at (base + k + NUMBER_SIZE) inner inr Hi) as (n & q & b & En & -> & Hd).
    unfold Pong. rewrite En. intros [= <-]. cbn [mbind res_bind snd fst] in Hd |- *. rewrite Hd.
    unfold aligned, NUMBER_SIZE. by rewrite !mod_shift.
Qed.

(** The numbers of a [GetNodes] message lie at multiples of four. *)
Lemma get_nodes_at s : ly_verify GetNodesTable s = ROk tt →
  ∃ v c p fs fv fc fp, ly_read GetNodesTable s = ROk (Some (v, (c, p))) ∧
    table_field_at 3 0 s = ROk (off fs 0, fv) ∧ table_field_at 3 1 s = ROk (off fs 0 + 4, fc) ∧
    table_field_at 3 2 s = ROk (off fs 0 + 8, fp) ∧ v = le_val fv ∧ c = le_val fc ∧
    p = if is_empty fp then None else Some (le_val fp).
Proof.
  intros Hv. destruct (verified_table (field Uint32 (field Uint32 (last_field PortOpt))) s ltac:(done) Hv)
    as ([|f0 [|f1 [|f2 fs]]] & Ht & Hl & Hc); [done..|]. cbn [fd_verify field last_field] in Hl. change (len _) with 3 in Hl at 1.
  destruct (tbl_field_at s _ 0 f0 3 Ht eq_refl ltac:(cbn; lia)) as [A1 A2].
  destruct (tbl_field_at s _ 1 f1 3 Ht eq_refl ltac:(cbn; lia)) as [B1 B2].
  destruct (tbl_field_at s _ 2 f2 3 Ht eq_refl ltac:(cbn; lia)) as [C1 C2].
  assert (len f0 = 4 ∧ len f1 = 4) as [L0 L1].
  { cbn in Hc. unfold array_verify in Hc. destruct (Z.eqb_spec (len f0) 4); [|done].
    cbn in Hc. destruct (Z.eqb_spec (len f1) 4); [|done]. done. }
  set (gs := f0 :: f1 :: f2 :: fs) in *.
  rewrite (off_step gs 0 f0 eq_refl), L0 in B2. rewrite (off_step gs 1 f1 eq_refl), (off_step gs 0 f0 eq_refl), L0, L1 in C2.
  replace (off gs 0 + 4 + 4) with (off gs 0 + 8) in C2 by lia.
  exists (le_val f0), (le_val f1), (if is_empty f2 then None else Some (le_val f2)), gs, f0, f1, f2.
  split_and!; try done. unfold GetNodesTable. cbn [ly_read table_of fd_read field last_field fd_verify]. change (len _) with 3.
  change (Z.of_nat 0) with 0 in A1. change (Z.of_nat 1) with 1 in B1. change (Z.of_nat 2) with 2 in C1.
  rewrite A1. cbn [mbind res_bind]. change (0 + 1) with 1. rewrite B1. cbn. change (1 + 1) with 2. rewrite C1. cbn. by destruct f2.
Qed.

Lemma discovery_decode_at_spec base data o : discovery_payload_decode data = ROk o →
  discovery_payload_decode_at base data =
  match o with Some (DmGetNodes _ _ _) => aligned base (ROk o) | _ => ROk o end.
Proof.
  unfold discovery_payload_decode, discovery_payload_decode_at, decode_with.
  destruct (ly_verify DiscoveryTable data) as [[]| |] eqn:Hv; [|by intros [= <-]|done].
  destruct (one_field DiscoveryPayload data Hv) as (k & payload & -> & Hk & Hp & Er).
  unfold DiscoveryTable at 1. rewrite Er. change DiscoveryPayload with (union_of GetNodesTable NodesTable). cbn [mbind res_bind snd fst].
  destruct (verified_union GetNodesTable NodesTable payload Hp) as (id & inner & -> & [(-> & Hi & ->)|(-> & Hi & ->)]);
    cbn [mbind res_bind snd fst Z.eqb].
  - destruct (get_nodes_at inner Hi) as (v & c & p & fs & fv & fc & fp & -> & -> & -> & -> & -> & -> & ->).
    cbn [mbind res_bind snd fst option_map of_payload]. intros [= <-]. unfold deref, aligned, NUMBER_SIZE.
    pose proof (header_aligned fs) as Hh. assert (∀ d, d mod 4 = 0 → (base + k + 4 + (off fs 0 + d)) mod 4 = base mod 4) as Hm.
    { intros d Hd. rewrite mod_shift; [by rewrite !mod_shift|done|]. by rewrite mod_shift. }
    pose proof (Hm 0 eq_refl) as H0. rewrite Z.add_0_r in H0. rewrite H0, (Hm 4 eq_refl).
    destruct (Z.eqb_spec (base mod 4) 0) as [Hb|Hb]; [|done]. cbn [mbind res_bind].
    specialize (Hm 8 eq_refl). replace ((_ + (off fs 0 + 8)) mod 2 =? 0) with true; [by destruct fp|].
    rewrite Hb in Hm. apply Z.mod_divide in Hm as [z Hz]; [|done]. rewrite Hz.
    replace (z * 4) with (z * 2 * 2) by lia. by rewrite Z.mod_mul.
  - destruct (ly_read NodesTable inner) as [[x|]| |]; cbn; [|by intros [= <-]..|done|done].
    intros [= <-]. by destruct x.
Qed.

(** C27: whatever bytes a peer sends and wherever they lie in memory, the decoders of the ping,
    identify and discovery messages return, and what they return depends on the bytes only, with one
    exception: of a message that decodes as a ping, a pong or a [GetNodes] and whose first byte is
    not at a multiple of four, a misaligned pointer is dereferenced, which panics in builds with
    debug assertions. At a multiple of four every number is aligned, however the message is laid
    out. Every address of a decoded message is well formed: it can be read component by component. *)
Theorem protocol_messages_typed base data :
  (∃ o, ping_decode data = ROk o ∧
    ping_decode_at base data = match o with Some _ => aligned base (ROk o) | None => ROk o end) ∧
  (∃ o, identify_decode data = ROk o ∧ ∀ m, o = Some m → Forall readable (im_listen_addrs m) ∧ readable (im_observed_addr m)) ∧
  ∃ o, discovery_payload_decode data = ROk o ∧
    (∀ n, o = Some (DmNodes n) → Forall (λ nd, Forall readable (nd_addresses nd)) (ns_items n)) ∧
    discovery_payload_decode_at base data =
      match o with Some (DmGetNodes _ _ _) => aligned base (ROk o) | _ => ROk o end.
Proof.
  destruct (ping_decode_total data) as [op Ep]. destruct (identify_decode_total data) as [oi Ei].
  destruct (discovery_decode_total data) as [od Ed]. split_and!; [exists op|exists oi|exists od]; split_and!; try done.
  - rewrite (ping_decode_at_spec base data op Ep). by destruct op.
  - intros m ->. by eapply identify_decoded.
  - intros n ->. by eapply discovery_decoded.
  - by apply discovery_decode_at_spec.
Qed.

End Proofs.

(** ** Concrete messages *)

Definition demo_addr (port : Z) : Multiaddr :=
  from_iter [Ip4 (byte_of 8) (byte_of 8) (byte_of 8) (byte_of 8); Tcp port].

Lemma demo_addr_readable port : is_u16 port → readable (demo_addr port).
Proof. intros Hp. eexists. apply (parses_from_iter [_; _]). constructor; [done|constructor; [done|constructor]]. Qed.

(** Frames with a length of four bytes in front, of 8 MiB at most. *)
#[export] Instance demo_delimited : DelimitedCodec := {
  ld_encode b := if len b <=? 8 * 1024 * 1024 then Some (be_bytes 4 (len b) ++ b) else None;
  ld_decode d := let n := be_val (take 4 d) in
    if 8 * 1024 * 1024 <? n then None
    else if len d <? 4 + n then Some None else Some (Some (take (Z.to_nat n) (drop 4 d)));
}.

#[export] Instance demo_delimited_laws : DelimitedCodecLaws.
Proof.
  split. intros b Hb. pose proof (len_nonneg b). exists (be_bytes 4 (len b) ++ b). cbn [ld_encode ld_decode demo_delimited].
  assert (Hl : length (be_bytes 4 (len b)) = 4%nat) by apply be_bytes_length.
  rewrite (proj2 (Z.leb_le _ _)) by done. split; [done|]. rewrite take_app_length', drop_app_length' by done.
  rewrite be_val_be_bytes_id by (unfold in_width; lia). rewrite (proj2 (Z.ltb_ge _ _)) by lia.
  rewrite (proj2 (Z.ltb_ge _ _)) by (rewrite len_app, be_bytes_len; lia).
  unfold len. rewrite Nat2Z.id. by rewrite firstn_all.
Qed.

Lemma protocol_messages_roundtrip_witness :
  let m := mkIdentifyMessage [demo_addr 80; demo_addr 81] (demo_addr 82) (str "id") in
  let d := DmNodes (mkNodes true [mkNode [demo_addr 80]; mkNode []]) in
  ping_decode (build_ping 7) = ROk (Some (inl 7)) ∧ ping_decode (build_pong 7) = ROk (Some (inr 7)) ∧
  identify_decode (identify_encode m) = ROk (Some m) ∧
  discovery_payload_decode (discovery_payload_encode d) = ROk (Some d).
Proof.
  intros m d. apply (protocol_messages_roundtrip 7 m d).
  - done.
  - split_and!; [repeat constructor; by apply demo_addr_readable|by apply demo_addr_readable|by vm_compute].
  - split; [|by vm_compute]. constructor; [|constructor; [|constructor]]; cbn.
    + constructor; [by apply demo_addr_readable|constructor].
    + constructor.
Defined.

(** A message at an address that is not a multiple of four. *)
Example misaligned_numbers : ping_decode_at 4096 (build_ping 7) = ROk (Some (inl 7)) ∧ ping_decode_at 4098 (build_ping 7) = RPanic ∧
  let d := DmGetNodes 1 8 (Some 80) in
  discovery_payload_decode_at 4096 (discovery_payload_encode d) = ROk (Some d) ∧
  discovery_payload_decode_at 4097 (discovery_payload_encode d) = RPanic.
Proof. by vm_compute. Qed.

Lemma protocol_messages_typed_witness : identify_decode (str "x") = ROk None ∧
  let m := mkIdentifyMessage [demo_addr 80] (demo_addr 82) (str "id") in Forall readable (im_listen_addrs m) ∧ readable (im_observed_addr m).
Proof.
  intros. split; [by vm_compute|]. intros m.
  destruct (protocol_messages_typed 4096 (identify_encode m)) as (_ & (o & E & Ho) & _). apply Ho.
  assert (E' : identify_decode (identify_encode m) = ROk (Some m)) by by vm_compute. rewrite E' in E. by injection E as <-.
Defined.
