(* ===== verification/Ping.v ===== *)
(** * The ping protocol ([protocols/ping/src/lib.rs])

    A handler that pings its sessions and answers their pings. What it asks of the service and
    what it tells its callback are recorded in order. An [Instant] is a number of nanoseconds. *)

From Stdlib Require Import ZArith Lia Bool.
From stdpp Require Import base list gmap.
From S2P Require Import Prelude Text Molecule MoleculeProofs Messages Multiaddr MultiaddrProofs Layouts ProtocolMessages Service ProtocolHandle.

Open Scope Z_scope.

Definition SEND_PING_TOKEN : Z := 0.
Definition CHECK_TIMEOUT_TOKEN : Z := 1.

(** What the handler asks of the service, and the calls of [Callback]. *)
Inductive PingAct :=
| PaSetNotify (interval token : Z)
| PaSend (session : Z) (data : bytes)
| PaBroadcast (sessions : list Z) (data : bytes)
| PaDisconnect (session : Z)
| PaReceivedPing (session : Z)
| PaReceivedPong (session time : Z)
| PaTimeout (session : Z)
| PaUnexpectedError (session : Z).

Record PingStatus := mkPingStatus { pg_processing : bool; pg_last_ping : Z; pg_nonce : Z }.

Record PingHandler := mkPingHandler {
  pg_interval : Z;
  pg_timeout : Z;
  pg_sessions : gmap Z PingStatus;
  pg_unix_epoch : Z;
  pg_acts : list PingAct;
}.

(** The value when no time has passed before [now] is [now]. *)
Definition PingHandler_new (interval timeout now since_epoch : Z) : PingHandler :=
  mkPingHandler interval timeout ∅ (default now (checked_sub now since_epoch)) [].

Definition pg_put_sessions (v : gmap Z PingStatus) (s : PingHandler) : PingHandler :=
  mkPingHandler (pg_interval s) (pg_timeout s) v (pg_unix_epoch s) (pg_acts s).
Definition pg_put_acts (v : list PingAct) (s : PingHandler) : PingHandler :=
  mkPingHandler (pg_interval s) (pg_timeout s) (pg_sessions s) (pg_unix_epoch s) v.

Abbreviation GM := (M PingHandler Empty_set) (only parsing).

Definition ping_act (a : PingAct) : GM unit := modify (λ s, pg_put_acts (pg_acts s ++ [a]) s).

(** [duration_since] is zero for a later instant. *)
Definition duration_since (t t0 : Z) : Z := Z.max 0 (t - t0).
Definition nonce (t unix_epoch : Z) : Z := cast 32 (duration_since t unix_epoch / 1000000000).
Definition elapsed (now : Z) (ps : PingStatus) : Z := duration_since now (pg_last_ping ps).

Section Ping.
Context `{HO : HashOrder} `{MN : MolNumber}.

Definition ping_init : GM unit :=
  s ← gets (λ s, s);
  ping_act (PaSetNotify (pg_interval s) SEND_PING_TOKEN) ;;
  ping_act (PaSetNotify (pg_timeout s) CHECK_TIMEOUT_TOKEN).

(** [secure]: the session has a remote key. *)
Definition ping_connected (now session : Z) (secure : bool) : GM unit :=
  if secure then
    modify (λ s, pg_put_sessions (<[session := default (mkPingStatus false now 0) (pg_sessions s !! session)]> (pg_sessions s)) s)
  else ping_act (PaDisconnect session).

Definition ping_disconnected (session : Z) : GM unit :=
  modify (λ s, pg_put_sessions (delete session (pg_sessions s)) s).

Definition ping_received (now session : Z) (data : bytes) : GM unit :=
  match ping_decode data with
  | RPanic => panic
  | RErr _ => panic
  | ROk None => ping_act (PaUnexpectedError session)
  | ROk (Some (inl nonce)) =>
      ping_act (PaSend session (build_pong nonce)) ;; ping_act (PaReceivedPing session)
  | ROk (Some (inr nonce)) =>
      s ← gets (λ s, s);
      match pg_sessions s !! session with
      | Some status =>
          if bool_decide ((true, nonce) = (pg_processing status, pg_nonce status)) then
            modify (pg_put_sessions (<[session := mkPingStatus false (pg_last_ping status) (pg_nonce status)]> (pg_sessions s))) ;;
            ping_act (PaReceivedPong session (elapsed now status))
          else ping_act (PaDisconnect session)
      | None => ping_act (PaDisconnect session)
      end
  end.

(** The sessions that are pinged: the clock is read at the first, and the nonce is computed from
    it. *)
Fixpoint ping_loop (now unix_epoch : Z) (l : list (Z * PingStatus)) (send_nonce : Z)
    (sessions : gmap Z PingStatus) : gmap Z PingStatus * list Z * Z :=
  match l with
  | [] => (sessions, [], send_nonce)
  | (session_id, ps) :: rest =>
      if pg_processing ps then ping_loop now unix_epoch rest send_nonce sessions
      else
        let send_nonce := if send_nonce =? 0 then nonce now unix_epoch else send_nonce in
        let sessions := <[session_id := mkPingStatus (pg_processing ps) now send_nonce]> sessions in
        let '(sessions', peers, send_nonce') := ping_loop now unix_epoch rest send_nonce sessions in
        (sessions', session_id :: peers, send_nonce')
  end.

Fixpoint timeout_loop (now timeout : Z) (l : list (Z * PingStatus)) : GM unit :=
  match l with
  | [] => mret tt
  | (id, ps) :: rest =>
      (if pg_processing ps && (timeout <=? elapsed now ps) then ping_act (PaTimeout id) else mret tt) ;;
      timeout_loop now timeout rest
  end.

Definition ping_notify (now token : Z) : GM unit :=
  s ← gets (λ s, s);
  if token =? SEND_PING_TOKEN then
    let '(sessions, peers, send_nonce) := ping_loop now (pg_unix_epoch s) (iter_map (pg_sessions s)) 0 (pg_sessions s) in
    modify (pg_put_sessions sessions) ;;
    if is_empty peers then mret tt else ping_act (PaBroadcast peers (build_ping send_nonce))
  else if token =? CHECK_TIMEOUT_TOKEN then timeout_loop now (pg_timeout s) (iter_map (pg_sessions s))
  else panic.

(** A callback of the handler; [secure] says which sessions have a remote key. *)
Definition ping_callback (secure : Z → bool) (now : Z) (c : Callback) : GM unit :=
  match c with
  | CbInit => ping_init
  | CbConnected session _ => ping_connected now session (secure session)
  | CbDisconnected session => ping_disconnected session
  | CbReceived session data => ping_received now session data
  | CbNotify token => ping_notify now token
  end.

End Ping.

(** ** Properties *)

Section Proofs.
Context `{HOL : HashOrderLaws} `{ML : MolNumberLaws}.

Inductive ping_run (secure : Z → bool) (s0 : PingHandler) : PingHandler → Prop :=
| ping_run_new : ping_run secure s0 s0
| ping_run_call s now c s' : ping_run secure s0 s → ping_callback secure now c s = (s', ROk tt) →
    ping_run secure s0 s'.

(** No session is ever marked as waiting for a pong. *)
Definition idle_sessions (s : PingHandler) : Prop := map_Forall (λ _ ps, pg_processing ps = false) (pg_sessions s).

Lemma ping_loop_idle now epoch l n m : Forall (λ x, pg_processing x.2 = false) l → map_Forall (λ _ ps, pg_processing ps = false) m →
  map_Forall (λ _ ps, pg_processing ps = false) (ping_loop now epoch l n m).1.1 ∧
  (ping_loop now epoch l n m).1.2 = l.*1 ∧
  (ping_loop now epoch l n m).2 = (if is_empty l then n else if n =? 0 then nonce now epoch else n).
Proof.
  intros Hl. revert n m. induction Hl as [|[id ps] l Hp Hl IH]; intros n m Hm; [done|]. cbn in Hp. cbn [ping_loop]. rewrite Hp.
  set (n' := if n =? 0 then nonce now epoch else n).
  destruct (IH n' (<[id := mkPingStatus false now n']> m)) as (H1 & H2 & H3); [by apply map_Forall_insert_2|].
  destruct (ping_loop now epoch l n' _) as [[m' peers] n'']. cbn in *. subst. split_and!; [done|done|].
  destruct l; [done|]. cbn [is_empty]. destruct (Z.eqb_spec n' 0) as [E|E]; [|done].
  subst n'. destruct (Z.eqb_spec n 0); [done|congruence].
Qed.

Lemma iter_idle (m : gmap Z PingStatus) : map_Forall (λ _ ps, pg_processing ps = false) m →
  Forall (λ x, pg_processing x.2 = false) (iter_map m).
Proof.
  intros H. apply Forall_forall. intros [id ps] Hin. unfold iter_map in Hin. rewrite hash_order_perm in Hin.
  apply elem_of_map_to_list in Hin. by apply (H id).
Qed.

Lemma timeout_loop_idle now t l (s : PingHandler) : Forall (λ x, pg_processing x.2 = false) l →
  timeout_loop now t l s = (s, ROk tt).
Proof. induction 1 as [|[id ps] l Hp Hl IH]; [done|]. cbn in *. by rewrite Hp. Qed.

Lemma call_idle secure now c (s s' : PingHandler) : idle_sessions s → ping_callback secure now c s = (s', ROk tt) → idle_sessions s'.
Proof.
  intros Hi. unfold idle_sessions in *.
  destruct c as [|id v|id|id d|t]; cbn [ping_callback].
  - by intros [= <-].
  - unfold ping_connected. destruct (secure id); [|by intros [= <-]]. intros [= <-]. cbn.
    apply map_Forall_insert_2; [|done]. destruct (pg_sessions s !! id) as [ps|] eqn:E; [|done]. by apply (Hi id).
  - intros [= <-]. cbn. by apply map_Forall_delete.
  - unfold ping_received, ping_act, mbind, M_bind, gets, modify.
    destruct (ping_decode d) as [[[n|n]|]|e|]; try (by intros [= <-]).
    destruct (pg_sessions s !! id) as [ps|] eqn:E; [|by intros [= <-]].
    rewrite bool_decide_eq_false_2; [by intros [= <-]|]. by rewrite (Hi id ps E).
  - unfold ping_notify, ping_act, mbind, M_bind, gets, modify. destruct (t =? SEND_PING_TOKEN).
    + pose proof (ping_loop_idle now (pg_unix_epoch s) (iter_map (pg_sessions s)) 0 (pg_sessions s) (iter_idle _ Hi) Hi) as [H1 _].
      destruct (ping_loop _ _ _ _ _) as [[m peers] n]. destruct (is_empty peers); by intros [= <-].
    + destruct (t =? CHECK_TIMEOUT_TOKEN); [|done]. rewrite timeout_loop_idle by (by apply iter_idle). by intros [= <-].
Qed.

Lemma run_idle secure i t now e s : ping_run secure (PingHandler_new i t now e) s → idle_sessions s.
Proof. induction 1; [apply map_Forall_empty|by eapply call_idle]. Qed.

(** The nonce of a ping that was sent is never marked as awaited: in every run, a pong that
    carries the nonce of the last ping is answered by disconnecting the session, is not reported
    as a pong, and no session that never answers is reported as timed out. *)
Theorem pong_always_disconnects secure i t now0 e s id now n :
  ping_run secure (PingHandler_new i t now0 e) s → in_width 32 n →
  ping_received now id (build_pong n) s = (pg_put_acts (pg_acts s ++ [PaDisconnect id]) s, ROk tt) ∧
  ping_notify now CHECK_TIMEOUT_TOKEN s = (s, ROk tt).
Proof.
  intros Hr Hn. pose proof (run_idle _ _ _ _ _ _ Hr) as Hi. split.
  - unfold ping_received, ping_act, mbind, M_bind, gets, modify.
    assert (E : ping_decode (build_pong n) = ROk (Some (inr n))).
    { eapply (decode_written PingMessage _ (inr n) Hn). change (is_u32 (len (build_pong n))).
      by rewrite (proj2 (build_ping_len n)). }
    rewrite E. destruct (pg_sessions s !! id) as [ps|] eqn:Ep; [|done].
    rewrite bool_decide_eq_false_2; [done|]. by rewrite (Hi id ps Ep).
  - unfold ping_notify, mbind, M_bind, gets. cbn. by rewrite timeout_loop_idle by (by apply iter_idle).
Qed.

(** A ping is answered by a pong with its nonce, and reported. *)
Lemma ping_is_answered now id n s : in_width 32 n →
  ping_received now id (build_ping n) s =
    (pg_put_acts (pg_acts s ++ [PaSend id (build_pong n); PaReceivedPing id]) s, ROk tt).
Proof.
  intros Hn. unfold ping_received, ping_act, mbind, M_bind, modify.
  assert (E : ping_decode (build_ping n) = ROk (Some (inl n))).
  { eapply (decode_written PingMessage _ (inl n) Hn). change (is_u32 (len (build_ping n))).
    by rewrite (proj1 (build_ping_len n)). }
  rewrite E. cbn. unfold pg_put_acts. cbn. by rewrite <- app_assoc.
Qed.

(** All idle sessions are pinged at once with one nonce. *)
Lemma ping_round now s : idle_sessions s → pg_sessions s ≠ ∅ →
  ∃ s', ping_notify now SEND_PING_TOKEN s = (s', ROk tt) ∧
    pg_acts s' = pg_acts s ++ [PaBroadcast (iter_keys (pg_sessions s)) (build_ping (nonce now (pg_unix_epoch s)))].
Proof.
  intros Hi Hne. unfold ping_notify, ping_act, mbind, M_bind, gets, modify. cbn [Z.eqb SEND_PING_TOKEN].
  pose proof (ping_loop_idle now (pg_unix_epoch s) (iter_map (pg_sessions s)) 0 (pg_sessions s) (iter_idle _ Hi) Hi) as (_ & H2 & H3).
  destruct (ping_loop _ _ _ _ _) as [[m peers] n]. cbn in H2, H3. subst.
  assert (Hm : iter_map (pg_sessions s) ≠ []).
  { intros E. apply Hne. apply map_to_list_empty_iff. apply Permutation_nil_r. rewrite <- E. unfold iter_map. by rewrite hash_order_perm. }
  unfold iter_keys. destruct (iter_map (pg_sessions s)) as [|x l]; [done|]. cbn. eexists. done.
Qed.

End Proofs.

(** ** A run of two handlers *)

(** The first handler pings the second, which answers with the nonce it got; the first disconnects
    it. *)
Lemma honest_peer_disconnected :
  let secure := λ _ : Z, true in
  let a := (ping_callback secure 5 (CbConnected 1 []) (PingHandler_new 10 20 5 0)).1 in
  let a' := (ping_callback secure 9 (CbNotify SEND_PING_TOKEN) a).1 in
  let b := (ping_callback secure 5 (CbConnected 2 []) (PingHandler_new 10 20 5 0)).1 in
  let b' := (ping_callback secure 9 (CbReceived 2 (build_ping 0)) b).1 in
  let a'' := (ping_callback secure 10 (CbReceived 1 (build_pong 0)) a').1 in
  pg_acts a' = [PaBroadcast [1] (build_ping 0)] ∧ pg_acts b' = [PaSend 2 (build_pong 0); PaReceivedPing 2] ∧
  pg_acts a'' = [PaBroadcast [1] (build_ping 0); PaDisconnect 1].
Proof. by vm_compute. Qed.

Lemma pong_always_disconnects_witness :
  let s := (ping_callback (λ _, true) 9 (CbNotify SEND_PING_TOKEN)
    (ping_callback (λ _, true) 5 (CbConnected 1 []) (PingHandler_new 10 20 5 0)).1).1 in
  ping_received 10 1 (build_pong 0) s = (pg_put_acts (pg_acts s ++ [PaDisconnect 1]) s, ROk tt) ∧
  ping_notify 10 CHECK_TIMEOUT_TOKEN s = (s, ROk tt).
Proof.
  intros s. apply (pong_always_disconnects (λ _, true) 10 20 5 0 s 1 10 0); [|done].
  eapply (ping_run_call _ _ (ping_callback (λ _, true) 5 (CbConnected 1 []) (PingHandler_new 10 20 5 0)).1 9 (CbNotify SEND_PING_TOKEN));
    [|by vm_compute].
  eapply (ping_run_call _ _ (PingHandler_new 10 20 5 0) 5 (CbConnected 1 [])); [constructor|by vm_compute].
Defined.
