(* ===== verification/Identify.v ===== *)
(** * The identify protocol ([protocols/identify/src/lib.rs])

    On a new session a node tells the other its listening addresses and the address it sees it
    under; what it receives goes to the callback, which stores it and judges misbehaviour. An
    [Instant] is a number of seconds. *)

From Stdlib Require Import ZArith Lia Bool.
From Stdlib Require Import Strings.String.
From stdpp Require Import base list gmap.
From S2P Require Import Prelude Text Channels Molecule MoleculeProofs Messages SecioHandshake SecioHandshakeProofs PeerId Multiaddr MultiaddrProofs Tentacle Utils Layouts ProtocolMessages Service ProtocolHandle ProtocolHandleProofs.

Open Scope Z_scope.

Definition CHECK_IDENTIFY_TOKEN : Z := 100.
Definition CHECK_TIMEOUT_INTERVAL : Z := 1.
Definition DEFAULT_TIMEOUT : Z := 8.
Definition MAX_ADDRS : nat := 10.

Inductive Misbehavior := DuplicateReceived | Timeout | InvalidData | TooManyAddresses (n : Z).
Inductive MisbehaveResult := Continue | Disconnect.
Definition is_disconnect (r : MisbehaveResult) : bool := match r with Disconnect => true | Continue => false end.

(** The trait [Callback] of the peer storage. *)
Class IdentifyCallback (C : Type) := {
  ic_received_identify : Z → bytes → C → C * MisbehaveResult;
  ic_identify : C → C * bytes;
  ic_local_listen_addrs : C → C * list Multiaddr;
  ic_add_remote_listen_addrs : bytes → list Multiaddr → C → C;
  ic_add_observed_addr : bytes → Multiaddr → SessionType → C → C * MisbehaveResult;
  ic_misbehave : bytes → Misbehavior → C → C * MisbehaveResult;
}.

(** What is asked of the service. *)
Inductive IdentifyAct :=
| IaSetNotify (interval token : Z)
| IaQuickSend (session : Z) (data : bytes)
| IaDisconnect (session : Z).

Record RemoteInfo := mkRemoteInfo {
  ri_peer_id : bytes;
  ri_session : SessionContext;
  ri_connected_at : Z;
  ri_timeout : Z;
  ri_has_received : bool;
}.

Section Identify.
Context {C : Type} `{IC : IdentifyCallback C} `{V : Varint} `{TC : TextCodecs} `{PRM : Primitives} `{MN : MolNumber} `{HO : HashOrder}.

Record IdentifyProtocol := mkIdentifyProtocol {
  id_callback : C;
  id_remote_infos : gmap Z RemoteInfo;
  id_secio_enabled : bool;
  id_global_ip_only : bool;
  id_acts : list IdentifyAct;
}.
Definition id_put_callback (v : C) (s : IdentifyProtocol) : IdentifyProtocol :=
  mkIdentifyProtocol v (id_remote_infos s) (id_secio_enabled s) (id_global_ip_only s) (id_acts s).
Definition id_put_remote_infos (v : gmap Z RemoteInfo) (s : IdentifyProtocol) : IdentifyProtocol :=
  mkIdentifyProtocol (id_callback s) v (id_secio_enabled s) (id_global_ip_only s) (id_acts s).
Definition id_put_secio_enabled (v : bool) (s : IdentifyProtocol) : IdentifyProtocol :=
  mkIdentifyProtocol (id_callback s) (id_remote_infos s) v (id_global_ip_only s) (id_acts s).
Definition id_put_acts (v : list IdentifyAct) (s : IdentifyProtocol) : IdentifyProtocol :=
  mkIdentifyProtocol (id_callback s) (id_remote_infos s) (id_secio_enabled s) (id_global_ip_only s) v.

Abbreviation IM := (M IdentifyProtocol Empty_set) (only parsing).

Definition IdentifyProtocol_new (callback : C) (global_ip_only : bool) : IdentifyProtocol :=
  mkIdentifyProtocol callback ∅ true global_ip_only [].

Definition identify_act (a : IdentifyAct) : IM unit := modify (λ s, id_put_acts (id_acts s ++ [a]) s).

(** A call of the callback. *)
Definition ask {A} (f : C → C * A) : IM A :=
  c ← gets id_callback;
  let '(c', a) := f c in
  modify (id_put_callback c') ;; mret a.

Definition or_addr_panic {A} (r : res MaError A) : IM A :=
  match r with ROk a => mret a | _ => panic end.

(** [.expect("RemoteInfo must exists")] *)
Definition remote_info (session : Z) : IM RemoteInfo :=
  infos ← gets id_remote_infos; or_panic (infos !! session).

(** Whether an address leads to a socket, reachable when only global ones are wanted. *)
Definition good_addr (global_ip_only : bool) (addr : Multiaddr) : IM bool :=
  o ← or_addr_panic (multiaddr_to_socketaddr addr);
  mret match o with Some a => negb global_ip_only || is_reachable (sa_ip a) | None => false end.

(** [.filter(|addr| ..).take(n)]: with [n] elements found, no more are looked at. *)
Fixpoint filter_addrs (global_ip_only : bool) (n : nat) (l : list Multiaddr) : IM (list Multiaddr) :=
  match n, l with
  | O, _ | _, [] => mret []
  | S m, addr :: rest =>
      ok ← good_addr global_ip_only addr;
      if ok : bool then r ← filter_addrs global_ip_only m rest; mret (addr :: r)
      else filter_addrs global_ip_only n rest
  end.

Definition check_duplicate (session : Z) : IM MisbehaveResult :=
  info ← remote_info session;
  if ri_has_received info then ask (ic_misbehave (ri_peer_id info) DuplicateReceived)
  else
    modify (λ s, id_put_remote_infos (<[session := mkRemoteInfo (ri_peer_id info) (ri_session info)
      (ri_connected_at info) (ri_timeout info) true]> (id_remote_infos s)) s) ;;
    mret Continue.

Definition process_listens (session : Z) (listens : list Multiaddr) : IM MisbehaveResult :=
  info ← remote_info session;
  if (MAX_ADDRS <? length listens)%nat then ask (ic_misbehave (ri_peer_id info) (TooManyAddresses (len listens)))
  else
    g ← gets id_global_ip_only;
    reachable_addrs ← filter_addrs g (length listens) listens;
    ask (λ c, (ic_add_remote_listen_addrs (ri_peer_id info) reachable_addrs c, tt)) ;;
    mret Continue.

Definition process_observed (session : Z) (observed : Multiaddr) : IM MisbehaveResult :=
  info ← remote_info session;
  g ← gets id_global_ip_only;
  ok ← good_addr g observed;
  if ok : bool then
    r ← ask (ic_add_observed_addr (ri_peer_id info) observed (sc_ty (ri_session info)));
    mret (if is_disconnect r then Disconnect else Continue)
  else mret Continue.

Definition identify_init : IM unit := identify_act (IaSetNotify CHECK_TIMEOUT_INTERVAL CHECK_IDENTIFY_TOKEN).

(** The components of an address other than the peer identifier. *)
Definition not_p2p (p : Protocol) : bool := match p with P2p _ => false | _ => true end.
Definition observed_addr_of (address : Multiaddr) : IM Multiaddr :=
  ps ← or_addr_panic (iter address); mret (from_iter (filter (λ p, not_p2p p = true) ps)).

Definition identify_connected (now : Z) (session : SessionContext) : IM unit :=
  match sc_remote_pubkey session with
  | None =>
      identify_act (IaDisconnect (sc_id session)) ;;
      modify (id_put_secio_enabled false)
  | Some key =>
      modify (λ s, id_put_remote_infos (<[sc_id session := mkRemoteInfo (from_public_key key) session now DEFAULT_TIMEOUT false]>
        (id_remote_infos s)) s) ;;
      local ← ask ic_local_listen_addrs;
      g ← gets id_global_ip_only;
      listen_addrs ← filter_addrs g MAX_ADDRS local;
      observed_addr ← observed_addr_of (sc_address session);
      identify ← ask ic_identify;
      identify_act (IaQuickSend (sc_id session) (identify_encode (mkIdentifyMessage listen_addrs observed_addr identify)))
  end.

Definition identify_disconnected (session : Z) : IM unit :=
  enabled ← gets id_secio_enabled;
  if enabled : bool then
    info ← remote_info session;
    modify (λ s, id_put_remote_infos (delete session (id_remote_infos s)) s)
  else mret tt.

(** [a.is_disconnect() || b.is_disconnect()]: the second only runs when the first continues. *)
Definition or_else (a b : IM MisbehaveResult) : IM MisbehaveResult :=
  r ← a; if is_disconnect r then mret r else b.

Definition identify_received (session : Z) (data : bytes) : IM unit :=
  enabled ← gets id_secio_enabled;
  if negb enabled then mret tt else
  match identify_decode data with
  | ROk (Some message) =>
      r ← or_else (check_duplicate session)
         (or_else (ask (ic_received_identify session (im_identify message)))
         (or_else (process_listens session (im_listen_addrs message))
                  (process_observed session (im_observed_addr message))));
      if is_disconnect r then identify_act (IaDisconnect session) else mret tt
  | ROk None =>
      info ← remote_info session;
      r ← ask (ic_misbehave (ri_peer_id info) InvalidData);
      if is_disconnect r then identify_act (IaDisconnect session) else mret tt
  | RErr _ | RPanic => panic
  end.

Fixpoint timeout_check (now : Z) (l : list (Z * RemoteInfo)) : IM unit :=
  match l with
  | [] => mret tt
  | (session_id, info) :: rest =>
      (if ri_has_received info && (ri_connected_at info + ri_timeout info <=? now) then
         r ← ask (ic_misbehave (ri_peer_id info) Timeout);
         if is_disconnect r then identify_act (IaDisconnect session_id) else mret tt
       else mret tt) ;;
      timeout_check now rest
  end.

Definition identify_notify (now : Z) : IM unit :=
  s ← gets (λ s, s);
  if id_secio_enabled s then timeout_check now (iter_map (id_remote_infos s)) else mret tt.

(** A callback of the handler; [context] gives the context of a session. *)
Definition identify_callback (context : Z → SessionContext) (now : Z) (c : Callback) : IM unit :=
  match c with
  | CbInit => identify_init
  | CbConnected session _ => identify_connected now (context session)
  | CbDisconnected session => identify_disconnected session
  | CbReceived session data => identify_received session data
  | CbNotify _ => identify_notify now
  end.

End Identify.

(** ** Properties *)

Section Proofs.
Context {C : Type} `{IC : IdentifyCallback C} `{VL : VarintLaws} `{TCL : TextCodecsLaws} `{PRM : Primitives} `{ML : MolNumberLaws} `{HOL : HashOrderLaws}.
Abbreviation IP := (@IdentifyProtocol C) (only parsing).
Abbreviation IM := (M IP Empty_set) (only parsing).

(** While the protocol is on, it knows the sessions [L]. *)
Definition knows (L : Z → Prop) (s : IP) : Prop :=
  id_secio_enabled s = true → ∀ id, L id → is_Some (id_remote_infos s !! id).

(** A step that returns and leaves the sessions and the switch alone. *)
Definition quiet_step {A} (c : IM A) : Prop := ∀ s, wp c (λ _ s',
  id_remote_infos s' = id_remote_infos s ∧ id_secio_enabled s' = id_secio_enabled s) s.

(** A step that returns while the protocol is on and keeps what is known. *)
Definition calm_step (L : Z → Prop) {A} (c : IM A) : Prop :=
  ∀ s, knows L s → id_secio_enabled s = true → wp c (λ _ s', knows L s' ∧ id_secio_enabled s' = true) s.

Lemma quiet_bind {A B} (c : IM A) (k : A → IM B) : quiet_step c → (∀ a, quiet_step (k a)) → quiet_step (c ≫= k).
Proof.
  intros Hc Hk s. apply wp_bind. eapply wp_mono; [by apply Hc|]. intros a s1 [H1 H2].
  eapply wp_mono; [by apply Hk|]. intros b s2 [H3 H4]. split; congruence.
Qed.

Lemma quiet_ret {A} (a : A) : quiet_step (mret a : IM A).
Proof. done. Qed.
Lemma quiet_gets {A} (f : IP → A) : quiet_step (gets f : IM A).
Proof. done. Qed.
Lemma quiet_act a : quiet_step (identify_act a : IM unit).
Proof. done. Qed.
Lemma quiet_ask {A} (f : C → C * A) : quiet_step (ask f : IM A).
Proof. intros s. unfold ask. wp_step. wp_step. destruct (f (id_callback s)) as [c a]. by wp_steps. Qed.
Lemma quiet_addr {A} (r : res MaError A) a : r = ROk a → quiet_step (or_addr_panic r : IM A).
Proof. by intros ->. Qed.
#[local] Hint Resolve quiet_ret quiet_gets quiet_act quiet_ask : quiet.
Ltac quiet_walk :=
  repeat first
    [ solve [eauto with quiet]
    | apply quiet_bind; [|intros]
    | match goal with |- quiet_step (match ?x with _ => _ end) => destruct x end ].

Lemma quiet_good_addr g addr : readable addr → quiet_step (good_addr g addr : IM bool).
Proof.
  intros [ps Hp]. unfold good_addr. destruct (multiaddr_to_socketaddr_total _ _ Hp) as [o Ho].
  apply quiet_bind; [by eapply quiet_addr|]. intros r. apply quiet_ret.
Qed.

Lemma quiet_filter_addrs g n l : Forall readable l → quiet_step (filter_addrs g n l : IM _).
Proof.
  intros Hl. revert n. induction Hl as [|a l Ha Hl IH]; intros [|n]; cbn [filter_addrs]; try apply quiet_ret.
  apply quiet_bind; [by apply quiet_good_addr|]. intros []; [|apply (IH (S n))]. apply quiet_bind; [apply IH|]. intros r. apply quiet_ret.
Qed.
#[local] Hint Resolve quiet_good_addr quiet_filter_addrs : quiet.

Lemma quiet_calm L {A} (c : IM A) : quiet_step c → calm_step L c.
Proof.
  intros Hc s Hs He. eapply wp_mono; [by apply Hc|]. intros a s' [H1 H2]. unfold knows. rewrite H1, H2. by split.
Qed.

Lemma calm_bind L {A B} (c : IM A) (k : A → IM B) : calm_step L c → (∀ a, calm_step L (k a)) → calm_step L (c ≫= k).
Proof. intros Hc Hk s Hs He. apply wp_bind. eapply wp_mono; [by apply Hc|]. intros a s' [H1 H2]. by apply Hk. Qed.

Lemma calm_info (L : Z → Prop) session : L session → calm_step L (remote_info session : IM RemoteInfo).
Proof.
  intros Hl s Hs He. unfold remote_info. wp_step. wp_step. destruct (Hs He session Hl) as [i Hi].
  by eapply wp_or_panic; [exact Hi|].
Qed.

#[local] Hint Resolve calm_info : calm.
#[local] Hint Extern 5 (calm_step _ _) => apply quiet_calm; solve [auto with quiet] : calm.
Ltac calm_walk :=
  repeat first
    [ solve [eauto with calm]
    | apply calm_bind; [|intros]
    | match goal with |- calm_step _ (match ?x with _ => _ end) => destruct x end ].

Lemma calm_duplicate (L : Z → Prop) session : L session → calm_step L (check_duplicate session : IM _).
Proof.
  intros Hl. unfold check_duplicate. apply calm_bind; [by apply calm_info|]. intros info.
  destruct (ri_has_received info); [auto with calm|]. apply calm_bind; [|auto with calm].
  intros s Hs He. apply wp_modify. split; [|done]. intros _ id Hid. cbn.
  destruct (decide (session = id)) as [->|Hne]; [rewrite lookup_insert_eq; eauto|]. rewrite lookup_insert_ne by done. by apply Hs.
Qed.

Lemma calm_listens (L : Z → Prop) session l : L session → Forall readable l → calm_step L (process_listens session l : IM _).
Proof. intros Hl Hr. unfold process_listens. calm_walk. Qed.

Lemma calm_observed (L : Z → Prop) session a : L session → readable a → calm_step L (process_observed session a : IM _).
Proof. intros Hl Hr. unfold process_observed. calm_walk. Qed.

Lemma calm_or_else L a b : calm_step L a → calm_step L b → calm_step L (or_else a b : IM _).
Proof. intros Ha Hb. unfold or_else. calm_walk. Qed.
#[local] Hint Resolve calm_duplicate calm_listens calm_observed calm_or_else : calm.

Lemma wp_received (L : Z → Prop) session data s : knows L s → L session →
  wp (identify_received session data : IM unit) (λ _ s', knows L s') s.
Proof.
  intros Hs Hl. unfold identify_received. wp_step. wp_step. destruct (id_secio_enabled s) eqn:He; cbn [negb]; [|by wp_step].
  destruct (identify_decode_total data) as [o Ho]. rewrite Ho.
  assert (G : ∀ c : IM unit, calm_step L c → wp c (λ _ s', knows L s') s).
  { intros c Hc. eapply wp_mono; [by apply Hc|]. naive_solver. }
  apply G. destruct o as [m|].
  - destruct (identify_decoded _ _ Ho) as [M1 M2]. apply calm_bind; [|intros r; calm_walk].
    apply calm_or_else; [by apply calm_duplicate|]. apply calm_or_else; [auto with calm|].
    apply calm_or_else; [by apply calm_listens|by apply calm_observed].
  - calm_walk.
Qed.

Lemma wp_notify (L : Z → Prop) now s : knows L s → wp (identify_notify now : IM unit) (λ _ s', knows L s') s.
Proof.
  intros Hs. unfold identify_notify. wp_step. wp_step. destruct (id_secio_enabled s) eqn:He; [|by wp_step].
  assert (Ht : ∀ l, calm_step L (timeout_check now l : IM unit)).
  { induction l as [|[id i] l IH]; cbn [timeout_check]; calm_walk. }
  eapply wp_mono; [by apply Ht|]. naive_solver.
Qed.

(** ** Runs *)

Fixpoint identify_run (context : Z → SessionContext) (l : list (Z * Callback)) : IM unit :=
  match l with
  | [] => mret tt
  | (now, c) :: rest => identify_callback context now c ;; identify_run context rest
  end.

Definition contexts_ok (context : Z → SessionContext) : Prop :=
  ∀ id, sc_id (context id) = id ∧ readable (sc_address (context id)).
Definition local_ok : Prop := ∀ c : C, Forall readable (ic_local_listen_addrs c).2.

Definition connected_in (log : list Callback) (id : Z) : Prop := cb_view id log = Some true.

Lemma knows_mono (L L' : Z → Prop) s : (∀ id, L' id → L id) → knows L s → knows L' s.
Proof. intros H Hk He id Hid. by apply Hk, H. Qed.

Lemma wp_connected (L : Z → Prop) now cx s : knows L s → readable (sc_address cx) → local_ok →
  wp (identify_connected now cx : IM unit) (λ _ s', knows (λ id, id = sc_id cx ∨ L id) s') s.
Proof.
  intros Hs [ps Hps] Hlo. unfold identify_connected. destruct (sc_remote_pubkey cx) as [key|]; [|by wp_steps].
  wp_step. wp_step. set (s1 := id_put_remote_infos _ s).
  assert (Hk : knows (λ id, id = sc_id cx ∨ L id) s1).
  { intros He id Hid. cbn. destruct (decide (sc_id cx = id)) as [->|Hne]; [rewrite lookup_insert_eq; eauto|].
    rewrite lookup_insert_ne by done. apply Hs; [done|]. destruct Hid; [by subst|done]. }
  clearbody s1. clear Hs. wp_step. unfold ask at 1. wp_step. wp_step. pose proof (Hlo (id_callback s1)) as Hl1.
  destruct (ic_local_listen_addrs (id_callback s1)) as [c1 local]. cbn in Hl1. wp_step. wp_step. wp_step.
  match goal with |- wp ?c _ ?s2 => assert (Hq : quiet_step c) end.
  { apply quiet_bind; [apply quiet_gets|]. intros g. apply quiet_bind; [by apply quiet_filter_addrs|]. intros la.
    apply quiet_bind; [|by intros; quiet_walk]. unfold observed_addr_of.
    apply quiet_bind; [by eapply quiet_addr, parses_iter|]. intros qs. apply quiet_ret. }
  eapply wp_mono; [apply Hq|]. intros [] s' [H1 H2]. unfold knows. rewrite H1, H2. exact Hk.
Qed.

Lemma wp_disconnected (L : Z → Prop) session s : knows L s → L session →
  wp (identify_disconnected session : IM unit) (λ _ s', knows (λ id, id ≠ session ∧ L id) s') s.
Proof.
  intros Hs Hl. unfold identify_disconnected, remote_info. wp_step. wp_step. destruct (id_secio_enabled s) eqn:He.
  - wp_step. wp_step. wp_step. destruct (Hs He session Hl) as [i Hi]. eapply wp_or_panic; [exact Hi|]. wp_step.
    intros _ id [Hne Hid]. cbn. rewrite lookup_delete_ne by done. by apply Hs.
  - wp_step. intros He'. congruence.
Qed.

Lemma wp_identify context now c log s : contexts_ok context → local_ok → knows (connected_in log) s →
  (∀ id, is_Some (cb_view id (log ++ [c]))) →
  wp (identify_callback context now c : IM unit) (λ _ s', knows (connected_in (log ++ [c])) s') s.
Proof.
  intros Hc Hlo Hs Hv.
  assert (Hst : ∀ id, cb_view id (log ++ [c]) = cb_step id (cb_view id log) c) by (intros id; by rewrite cb_view_app).
  assert (Hon : ∀ id, about id c = true → (∀ v, c ≠ CbConnected id v) → connected_in log id).
  { intros id Ha Hne. destruct (Hv id) as [b Hb]. rewrite Hst in Hb. unfold connected_in.
    destruct c as [|j v|j|j d|t]; try done; cbn in Ha; apply Z.eqb_eq in Ha as ->;
      [by destruct (Hne v)|..]; cbn in Hb; destruct (cb_view id log) as [[]|]; try done;
      by rewrite Z.eqb_refl in Hb. }
  unfold connected_in in *. destruct c as [|id v|id|id d|t]; cbn [identify_callback].
  - unfold identify_init, identify_act. wp_step. eapply knows_mono, Hs. intros id. rewrite Hst. by destruct (cb_view id log).
  - destruct (Hc id) as [Hid Ha]. eapply wp_mono; [by apply wp_connected|]. intros [] s' Hk. rewrite Hid in Hk.
    eapply knows_mono, Hk. intros j. rewrite Hst. cbn. destruct (cb_view j log) as [b|]; [|done].
    destruct (Z.eqb_spec id j) as [->|Hne]; [by left|by right].
  - eapply wp_mono; [apply wp_disconnected; [exact Hs|]|].
    + apply Hon; [cbn; by rewrite Z.eqb_refl|done].
    + intros [] s' Hk. eapply knows_mono, Hk. intros j. rewrite Hst. cbn. destruct (cb_view j log) as [b|]; [|done].
      destruct (Z.eqb_spec id j) as [->|Hne]; [by destruct b|done].
  - eapply wp_mono; [apply (wp_received (connected_in log)); [exact Hs|]|].
    + apply Hon; [cbn; by rewrite Z.eqb_refl|done].
    + intros [] s' Hk. eapply knows_mono, Hk. intros j. rewrite Hst. cbn. unfold connected_in.
      destruct (cb_view j log) as [b|]; [|done]. destruct (Z.eqb_spec id j) as [->|Hne]; [by destruct b|done].
  - eapply wp_mono; [by apply (wp_notify (connected_in log))|]. intros [] s' Hk. eapply knows_mono, Hk.
    intros j. rewrite Hst. unfold connected_in. by destruct (cb_view j log).
Qed.

Lemma view_prefix id (a b : list Callback) : is_Some (cb_view id (a ++ b)) → is_Some (cb_view id a).
Proof.
  rewrite cb_view_app. destruct (cb_view id a); [eauto|]. intros [x Hx]. exfalso. revert x Hx.
  induction b as [|c b IH]; [done|]. intros x. cbn. replace (cb_step id None c) with (@None bool) by (by destruct c). apply IH.
Qed.

Lemma wp_identify_run context l log s : contexts_ok context → local_ok → knows (connected_in log) s →
  (∀ id, is_Some (cb_view id (log ++ l.*2))) → wp (identify_run context l) (λ _ _, True) s.
Proof.
  intros Hc Hlo. revert log s. induction l as [|[now c] l IH]; intros log s Hs Hv; cbn [identify_run]; [by wp_step|].
  cbn in Hv. rewrite cons_middle, app_assoc in Hv. wp_step. eapply wp_mono; [apply (wp_identify context now c log s); try done|].
  - intros id. by eapply view_prefix.
  - intros [] s' Hk. by apply (IH (log ++ [c])).
Qed.

(** C23: whatever events a service handler is given and whenever sessions close, and whatever bytes
    peers send, the callbacks it makes never make the identify protocol panic: a session it looks
    up is there, and every address it reads can be read. *)
Theorem identify_never_panics {H R} `{PH : ProtocolHandler H} `{RL : ReceiverLaws R ServiceProtocolEvent}
    (h0 : @ServiceProtocolStream H R) sd h context l callback global_ip_only :
  fresh_handler h0 → ps_run h0 sd h → l.*2 = ps_calls h → contexts_ok context → local_ok →
  ∃ s, identify_run context l (IdentifyProtocol_new callback global_ip_only) = (s, ROk tt).
Proof.
  intros H0 Hr El Hc Hlo. pose proof (run_ps_inv h0 sd h H0 Hr) as [Hv _ _].
  assert (W : wp (identify_run context l) (λ _ _, True) (IdentifyProtocol_new callback global_ip_only)).
  { apply (wp_identify_run context l []); [done|done| |].
    - intros _ id Hid. discriminate.
    - intros id. rewrite app_nil_l, El, (Hv id). eauto. }
  apply wp_run in W as (s & [] & E & _). eauto.
Qed.

(** ** What two nodes tell each other *)

Definition goodb (global_ip_only : bool) (addr : Multiaddr) : bool :=
  match multiaddr_to_socketaddr addr with
  | ROk (Some a) => negb global_ip_only || is_reachable (sa_ip a)
  | _ => false
  end.

Lemma good_addr_run g addr (s : IP) : readable addr → (good_addr g addr : IM bool) s = (s, ROk (goodb g addr)).
Proof.
  intros [ps Hp]. unfold good_addr, goodb. destruct (multiaddr_to_socketaddr_total _ _ Hp) as [o ->]. by destruct o.
Qed.

Lemma filter_addrs_run g n l (s : IP) : Forall readable l →
  (filter_addrs g n l : IM _) s = (s, ROk (take n (filter (λ a, goodb g a = true) l))).
Proof.
  intros Hl. revert n. induction Hl as [|a l Ha Hl IH]; intros [|n]; cbn [filter_addrs take]; try done.
  unfold mbind, M_bind in *. rewrite good_addr_run by done. rewrite filter_cons.
  destruct (goodb g a) eqn:Eg; [rewrite decide_True by done|rewrite decide_False by done; apply (IH (S n))].
  cbn. by rewrite IH.
Qed.

(** The message a node sends on session [cx]: at most [MAX_ADDRS] of its listening addresses. *)
Definition greeting (g : bool) (cx : SessionContext) (observed : list Protocol) (c : C) : IdentifyMessage :=
  let '(c1, local) := ic_local_listen_addrs c in
  mkIdentifyMessage (take MAX_ADDRS (filter (λ a, goodb g a = true) local))
    (from_iter (filter (λ p, not_p2p p = true) observed)) (ic_identify c1).2.

(** What its callback is told by a node that finds nothing wrong with the message, and whether it
    ends the session. *)
Definition accepted (g : bool) (session : Z) (info : RemoteInfo) (m : IdentifyMessage) (c : C) : C * bool :=
  let '(c1, r1) := ic_received_identify session (im_identify m) c in
  if is_disconnect r1 then (c1, true) else
  let c2 := ic_add_remote_listen_addrs (ri_peer_id info) (im_listen_addrs m) c1 in
  if goodb g (im_observed_addr m) then
    let '(c3, r3) := ic_add_observed_addr (ri_peer_id info) (im_observed_addr m) (sc_ty (ri_session info)) c2 in (c3, is_disconnect r3)
  else (c2, false).

Lemma filter_take_id {A} (P : A → Prop) `{!∀ x, Decision (P x)} n (l : list A) : filter P (take n (filter P l)) = take n (filter P l).
Proof.
  assert (Hf : Forall P (take n (filter P l))).
  { apply Forall_take, Forall_forall. intros x Hx. by apply list_elem_of_filter in Hx as [Hx _]. }
  induction Hf as [|x k Hx Hk IH]; [done|]. rewrite filter_cons, decide_True by done. by rewrite IH.
Qed.

Lemma filter_Forall {A} (P Q : A → Prop) `{!∀ x, Decision (P x)} (l : list A) : Forall Q l → Forall Q (filter P l).
Proof. rewrite !Forall_forall. intros Hl x Hx. apply list_elem_of_filter in Hx as [_ Hx]. by apply Hl. Qed.

Lemma greeting_wf g cx ps c : local_ok → parses (sc_address cx) ps →
  Forall readable (im_listen_addrs (greeting g cx ps c)) ∧ readable (im_observed_addr (greeting g cx ps c)).
Proof.
  intros Hlo Hp. unfold greeting. specialize (Hlo c). destruct (ic_local_listen_addrs c) as [c1 local]. cbn in *. split.
  - by apply Forall_take, filter_Forall.
  - eexists. apply parses_from_iter, filter_Forall. by eapply parses_wf.
Qed.

Lemma identify_decode_encode m : identify_wf m → identify_decode (identify_encode m) = ROk (Some m).
Proof.
  intros (M1 & M2 & M3). unfold identify_decode, identify_encode.
  rewrite (decode_written IdentifyTable _ _ (conj M1 (conj M2 I)) M3). by destruct m.
Qed.

Lemma connected_run now cx key ps (s : IP) : sc_remote_pubkey cx = Some key → parses (sc_address cx) ps → local_ok →
  ∃ s', (identify_connected now cx : IM unit) s = (s', ROk tt) ∧
    id_acts s' = id_acts s ++ [IaQuickSend (sc_id cx) (identify_encode (greeting (id_global_ip_only s) cx ps (id_callback s)))].
Proof.
  intros Ek Hp Hlo. unfold identify_connected, greeting, observed_addr_of, ask, mbind, M_bind, gets, modify. rewrite Ek. cbn.
  specialize (Hlo (id_callback s)). destruct (ic_local_listen_addrs (id_callback s)) as [c1 local]. cbn in Hlo |- *.
  rewrite filter_addrs_run by done. rewrite (parses_iter _ _ Hp). cbn.
  destruct (ic_identify c1) as [c2 idn]. by eexists.
Qed.

#[local] Arguments Nat.ltb : simpl never.

Lemma received_run session info m (s : IP) : identify_wf m → id_secio_enabled s = true →
  id_remote_infos s !! session = Some info → ri_has_received info = false → (length (im_listen_addrs m) <= MAX_ADDRS)%nat →
  filter (λ a, goodb (id_global_ip_only s) a = true) (im_listen_addrs m) = im_listen_addrs m →
  ∃ s', (identify_received session (identify_encode m) : IM unit) s = (s', ROk tt) ∧
    id_callback s' = (accepted (id_global_ip_only s) session info m (id_callback s)).1 ∧
    id_acts s' = id_acts s ++ (if (accepted (id_global_ip_only s) session info m (id_callback s)).2 then [IaDisconnect session] else []).
Proof.
  intros Hm He Hi Hr Hlen Hf. pose proof (identify_decode_encode m Hm) as Hd. destruct Hm as (M1 & M2 & _).
  unfold identify_received, accepted, or_else, check_duplicate, process_listens, process_observed, remote_info, ask,
    identify_act, mbind, M_bind, gets, modify.
  rewrite He, Hd. cbn. rewrite Hi. cbn. rewrite Hr. cbn.
  destruct (ic_received_identify session (im_identify m) (id_callback s)) as [c1 r1]. cbn [mret M_ret].
  destruct (is_disconnect r1) eqn:E1; cbn [mret M_ret]; [rewrite E1; cbn; by eexists|]. cbn. rewrite lookup_insert_eq. cbn.
  rewrite (proj2 (Nat.ltb_ge _ _)) by done. cbn. rewrite filter_addrs_run by done. cbn. rewrite Hf.
  rewrite firstn_all2 by done. rewrite lookup_insert_eq. cbn.
  rewrite good_addr_run by done. cbn. destruct (goodb _ _); cbn; [|rewrite app_nil_r; by eexists].
  destruct (ic_add_observed_addr _ _ _ _) as [c3 r3]. cbn. destruct (is_disconnect r3); cbn; [by eexists|rewrite app_nil_r; by eexists].
Qed.

(** On a new session a node sends one message, and the node at the other end that has heard
    nothing on its session yet, given this message, judges no misbehaviour: it stores exactly the
    addresses that were sent, which are the usable listening addresses of the sender, ten at
    most, and is told the address it was seen under. *)
Theorem identify_exchange now cx key ps session info (a b : IP) :
  sc_remote_pubkey cx = Some key → parses (sc_address cx) ps → local_ok →
  id_secio_enabled b = true → id_remote_infos b !! session = Some info → ri_has_received info = false →
  id_global_ip_only b = id_global_ip_only a →
  let g := id_global_ip_only a in
  let m := greeting g cx ps (id_callback a) in
  is_u32 (len (identify_encode m)) →
  ∃ a' b', (identify_connected now cx : IM unit) a = (a', ROk tt) ∧ id_acts a' = id_acts a ++ [IaQuickSend (sc_id cx) (identify_encode m)] ∧
    (identify_received session (identify_encode m) : IM unit) b = (b', ROk tt) ∧
    id_callback b' = (accepted g session info m (id_callback b)).1 ∧
    id_acts b' = id_acts b ++ (if (accepted g session info m (id_callback b)).2 then [IaDisconnect session] else []).
Proof.
  intros Ek Hp Hlo He Hi Hr Hg g m Hs. destruct (connected_run now cx key ps a Ek Hp Hlo) as (a' & E1 & E2).
  destruct (greeting_wf g cx ps (id_callback a) Hlo Hp) as [W1 W2].
  destruct (received_run session info m b) as (b' & R1 & R2 & R3); [by split_and!|done|done|done| | |].
  - unfold m, greeting. destruct (ic_local_listen_addrs _) as [c1 local]. cbn [im_listen_addrs]. rewrite length_take. lia.
  - rewrite Hg. unfold m, greeting. destruct (ic_local_listen_addrs _) as [c1 local]. apply filter_take_id.
  - rewrite Hg in R2, R3. exists a', b'. by split_and!.
Qed.

(** A peer that never sends its message is not reported, however long it is silent. *)
Lemma silence_not_reported now (s : IP) : map_Forall (λ _ i, ri_has_received i = false) (id_remote_infos s) →
  (identify_notify now : IM unit) s = (s, ROk tt).
Proof.
  intros Hn. assert (Hl : Forall (λ x, ri_has_received x.2 = false) (iter_map (id_remote_infos s))).
  { apply Forall_forall. intros [id i] Hx. unfold iter_map in Hx. rewrite hash_order_perm in Hx.
    apply elem_of_map_to_list in Hx. by eapply Hn. }
  unfold identify_notify, mbind, M_bind, gets. destruct (id_secio_enabled s); [|done]. revert Hl.
  generalize (iter_map (id_remote_infos s)). intros l Hl. induction Hl as [|[id i] l Hi Hl IH]; [done|].
  cbn in Hi |- *. rewrite Hi. cbn. unfold mbind, M_bind. cbn. exact IH.
Qed.

(** A session without a public key switches the protocol off for every other one. *)
Lemma plain_session_stops_all now cx session data (s : IP) : sc_remote_pubkey cx = None →
  let s' := ((identify_connected now cx : IM unit) s).1 in (identify_received session data : IM unit) s' = (s', ROk tt).
Proof. intros E. unfold identify_connected, identify_received, mbind, M_bind, gets. by rewrite E. Qed.

End Proofs.

(** ** A peer storage that remembers what it was told *)

Abbreviation Told := (list (bytes * list Multiaddr)) (only parsing).
#[export] Instance demo_identify_callback : IdentifyCallback Told := {
  ic_received_identify _ i c := (c ++ [(i, [])], Continue);
  ic_identify c := (c, str "main");
  ic_local_listen_addrs c := (c, [demo_addr 80; demo_addr 81]);
  ic_add_remote_listen_addrs peer l c := c ++ [(peer, l)];
  ic_add_observed_addr peer a _ c := (c ++ [(peer, [a])], Continue);
  ic_misbehave _ _ c := (c ++ [(str "misbehave", [])], Disconnect);
}.

Lemma demo_local_ok : local_ok (C := Told).
Proof. intros c. cbn. repeat constructor; by apply demo_addr_readable. Qed.

Definition demo_context (id : Z) : SessionContext := SessionContext_new id (demo_addr 90) Inbound (Some (Secp256k1 (str "key"))).

Lemma demo_contexts_ok : contexts_ok demo_context.
Proof. intros id. split; [done|]. by apply demo_addr_readable. Qed.

Lemma identify_never_panics_witness :
  ps_calls demo_handled = [CbConnected 1 []] ∧
  ∃ s, identify_run demo_context [(5, CbConnected 1 [])] (IdentifyProtocol_new ([] : Told) false) = (s, ROk tt).
Proof.
  split; [by vm_compute|].
  apply (identify_never_panics demo_first false demo_handled demo_context);
    [apply demo_stream_new|exact demo_handled_run|by vm_compute|exact demo_contexts_ok|exact demo_local_ok].
Defined.

Definition demo_identify : @IdentifyProtocol Told := IdentifyProtocol_new [] true.
Definition demo_parts : list Protocol := [Ip4 (byte_of 8) (byte_of 8) (byte_of 8) (byte_of 8); Tcp 90].

Lemma identify_exchange_witness :
  let b := (identify_connected 5 (demo_context 7) demo_identify).1 in
  let m := greeting true (demo_context 3) demo_parts ([] : Told) in
  im_listen_addrs m = [demo_addr 80; demo_addr 81] ∧
  ∃ a' b', identify_connected 5 (demo_context 3) demo_identify = (a', ROk tt) ∧
    id_acts a' = [IaQuickSend 3 (identify_encode m)] ∧
    identify_received 7 (identify_encode m) b = (b', ROk tt) ∧
    id_callback b' = [(str "main", []); (from_public_key (Secp256k1 (str "key")), [demo_addr 80; demo_addr 81]);
      (from_public_key (Secp256k1 (str "key")), [demo_addr 90])] ∧
    id_acts b' = id_acts b.
Proof.
  intros b m. split; [by vm_compute|].
  destruct (identify_exchange 5 (demo_context 3) (Secp256k1 (str "key")) demo_parts 7
    (mkRemoteInfo (from_public_key (Secp256k1 (str "key"))) (demo_context 7) 5 DEFAULT_TIMEOUT false) demo_identify b)
    as (a' & b' & E1 & E2 & E3 & E4 & E5).
  - done.
  - apply parses_from_iter. constructor; [done|constructor; [done|constructor]].
  - exact demo_local_ok.
  - by vm_compute.
  - by vm_compute.
  - done.
  - by vm_compute.
  - by vm_compute.
  - exists a', b'. split_and!; [exact E1|exact E2|exact E3|rewrite E4; by vm_compute|rewrite E5; by vm_compute].
Defined.

(** A peer that did send its message is reported as late eight seconds after it connected. *)
Lemma prompt_peer_reported :
  let b := (identify_connected 5 (demo_context 7) demo_identify).1 in
  let d := identify_encode (greeting true (demo_context 3) demo_parts ([] : Told)) in
  let b' := (identify_received 7 d b).1 in
  let n := length (id_callback b') in
  drop n (id_callback (identify_notify 13 b').1) = [(str "misbehave", [])] ∧
  drop (length (id_acts b')) (id_acts (identify_notify 13 b').1) = [IaDisconnect 7].
Proof. by vm_compute. Qed.
