(* ===== verification/Discovery.v ===== *)
(** * The discovery protocol ([protocols/discovery/src/{lib,state,addr}.rs])

    Nodes ask each other for addresses when they connect, answer with addresses of their address
    manager, and pass the listening address of a peer on to a few others from time to time. The
    address manager, the bloom filter that remembers what a peer knows and the random choices are
    interfaces. An [Instant] is a number of seconds. *)

From Stdlib Require Import ZArith Lia Bool.
From Stdlib Require Import Strings.String.
From stdpp Require Import base list gmap.
From S2P Require Import Prelude Text Channels Molecule MoleculeProofs Messages Multiaddr MultiaddrProofs Tentacle Utils Layouts ProtocolMessages Service ProtocolHandle ProtocolHandleProofs.

Open Scope Z_scope.

Definition CHECK_INTERVAL : Z := 3.
Definition ANNOUNCE_THRESHOLD : nat := 10.
Definition MAX_ADDR_TO_SEND : nat := 1000.
Definition MAX_NODE_ADDRS : nat := 3.
Definition ANNOUNCE_INTERVAL : Z := 3600 * 24.
Definition DISCOVERY_VERSION : Z := 0.
Definition DEFAULT_BUCKETS_NUM : Z := 5000.

Inductive DiscoveryMisbehavior :=
| DuplicateGetNodes
| DuplicateFirstNodes
| TooManyItems (announce : bool) (length : nat)
| TooManyAddressesInNode (length : nat)
| DiscoveryInvalidData.

Inductive DiscoveryMisbehaveResult := DmDisconnect | DmContinue.
Definition dm_is_disconnect (r : DiscoveryMisbehaveResult) : bool :=
  match r with DmDisconnect => true | DmContinue => false end.

(** The trait [AddressManager]. *)
Class AddressManager (A : Type) := {
  am_is_valid_addr : Multiaddr → A → bool;
  am_add_new_addr : Z → Multiaddr → A → A;
  am_add_new_addrs : Z → list Multiaddr → A → A;
  am_misbehave : Z → DiscoveryMisbehavior → A → A * DiscoveryMisbehaveResult;
  am_get_random : Z → A → A * list Multiaddr;
}.

(** [StableBloomFilter] of the crate [bloom_filters], made from a random seed. *)
Class BloomFilter (F : Type) := {
  bf_new : Z → Z → F;
  bf_insert : Multiaddr → F → F;
  bf_contains : Multiaddr → F → bool;
}.

(** [choose_multiple] and [shuffle] of [rand], driven by a seed. *)
Class RandomChoice := {
  choose_multiple : Z → nat → list Multiaddr → list Multiaddr;
  shuffle : Z → list Z → list Z;
}.
Class RandomChoiceLaws `{RC : RandomChoice} : Prop := {
  choose_length : ∀ seed n l, length (choose_multiple seed n l) = Nat.min n (length l);
  choose_from : ∀ seed n l a, a ∈ choose_multiple seed n l → a ∈ l;
  shuffle_perm : ∀ seed l, shuffle seed l ≡ₚ l;
}.

(** What is asked of the service. *)
Inductive DiscoveryAct :=
| DaSetNotify (interval token : Z)
| DaSend (session : Z) (data : bytes)
| DaDisconnect (session : Z).

Inductive RemoteAddress := RaInit (addr : Multiaddr) | RaListen (addr : Multiaddr).
Definition to_inner (r : RemoteAddress) : Multiaddr := match r with RaInit addr | RaListen addr => addr end.

(** [verify_nodes_message] *)
Definition verify_nodes_message (nodes : Nodes) : option DiscoveryMisbehavior :=
  let n := length (ns_items nodes) in
  let misbehavior :=
    if ns_announce nodes then
      if (ANNOUNCE_THRESHOLD <? n)%nat then Some (TooManyItems (ns_announce nodes) n) else None
    else if (MAX_ADDR_TO_SEND <? n)%nat then Some (TooManyItems (ns_announce nodes) n) else None in
  match misbehavior with
  | Some m => Some m
  | None =>
      (fix go (items : list Node) : option DiscoveryMisbehavior :=
        match items with
        | [] => None
        | item :: rest =>
            if (MAX_NODE_ADDRS <? length (nd_addresses item))%nat
            then Some (TooManyAddressesInNode (length (nd_addresses item))) else go rest
        end) (ns_items nodes)
  end.

Section Discovery.
Context {A F : Type} `{AM : AddressManager A} `{BF : BloomFilter F} `{RC : RandomChoice}.
Context `{V : Varint} `{MN : MolNumber} `{LD : DelimitedCodec} `{TC : TextCodecs} `{HO : HashOrder}.

(** [AddrKnown] *)
Definition AddrKnown_new (seed : Z) (buckets_num : Z) : F := bf_new seed buckets_num.
Definition AddrKnown_default (seed : Z) : F := AddrKnown_new seed DEFAULT_BUCKETS_NUM.
Definition known_extend (keys : list Multiaddr) (k : F) : F := foldl (λ f a, bf_insert a f) k keys.

Record SessionState := mkSessionState {
  ss_addr_known : F;
  ss_remote_addr : RemoteAddress;
  ss_last_announce : option Z;
  ss_announce_multiaddrs : list Multiaddr;
  ss_received_get_nodes : bool;
  ss_received_nodes : bool;
}.
Definition ss_put_addr_known v (s : SessionState) : SessionState :=
  mkSessionState v (ss_remote_addr s) (ss_last_announce s) (ss_announce_multiaddrs s) (ss_received_get_nodes s) (ss_received_nodes s).
Definition ss_put_remote_addr v (s : SessionState) : SessionState :=
  mkSessionState (ss_addr_known s) v (ss_last_announce s) (ss_announce_multiaddrs s) (ss_received_get_nodes s) (ss_received_nodes s).
Definition ss_put_last_announce v (s : SessionState) : SessionState :=
  mkSessionState (ss_addr_known s) (ss_remote_addr s) v (ss_announce_multiaddrs s) (ss_received_get_nodes s) (ss_received_nodes s).
Definition ss_put_announce_multiaddrs v (s : SessionState) : SessionState :=
  mkSessionState (ss_addr_known s) (ss_remote_addr s) (ss_last_announce s) v (ss_received_get_nodes s) (ss_received_nodes s).
Definition ss_put_received_get_nodes v (s : SessionState) : SessionState :=
  mkSessionState (ss_addr_known s) (ss_remote_addr s) (ss_last_announce s) (ss_announce_multiaddrs s) v (ss_received_nodes s).
Definition ss_put_received_nodes v (s : SessionState) : SessionState :=
  mkSessionState (ss_addr_known s) (ss_remote_addr s) (ss_last_announce s) (ss_announce_multiaddrs s) (ss_received_get_nodes s) v.

Record DiscoveryProtocol := mkDiscoveryProtocol {
  dp_sessions : gmap Z SessionState;
  dp_dynamic_query_cycle : option Z;
  dp_addr_mgr : A;
  dp_check_interval : option Z;
  dp_acts : list DiscoveryAct;
}.
Definition dp_put_sessions v (s : DiscoveryProtocol) : DiscoveryProtocol :=
  mkDiscoveryProtocol v (dp_dynamic_query_cycle s) (dp_addr_mgr s) (dp_check_interval s) (dp_acts s).
Definition dp_put_addr_mgr v (s : DiscoveryProtocol) : DiscoveryProtocol :=
  mkDiscoveryProtocol (dp_sessions s) (dp_dynamic_query_cycle s) v (dp_check_interval s) (dp_acts s).
Definition dp_put_acts v (s : DiscoveryProtocol) : DiscoveryProtocol :=
  mkDiscoveryProtocol (dp_sessions s) (dp_dynamic_query_cycle s) (dp_addr_mgr s) (dp_check_interval s) v.

Definition DiscoveryProtocol_new (addr_mgr : A) (query_cycle check_interval : option Z) : DiscoveryProtocol :=
  mkDiscoveryProtocol ∅ query_cycle addr_mgr check_interval [].

Abbreviation DM := (M DiscoveryProtocol Empty_set) (only parsing).

Definition discovery_act (a : DiscoveryAct) : DM unit := modify (λ s, dp_put_acts (dp_acts s ++ [a]) s).
Definition put_session (id : Z) (st : SessionState) : DM unit :=
  modify (λ s, dp_put_sessions (<[id := st]> (dp_sessions s)) s).
Definition or_die {E B} (r : res E B) : DM B := match r with ROk a => mret a | _ => panic end.

(** [context.send_message(encode(..))]: a refusal of the service is only logged, one of the codec
    is a panic. *)
Definition send_message (id : Z) (m : DiscoveryMessage) : DM unit :=
  data ← or_die (discovery_encode m); discovery_act (DaSend id data).

(** The port of the first listening address that leads to a socket. *)
Fixpoint first_port (listens : list Multiaddr) : DM (option Z) :=
  match listens with
  | [] => mret None
  | address :: rest =>
      o ← or_die (multiaddr_to_socketaddr address);
      match o with Some a => mret (Some (sa_port a)) | None => first_port rest end
  end.

(** [SessionState::new] *)
Definition SessionState_new (seed : Z) (session : SessionContext) (listens : list Multiaddr) : DM SessionState :=
  match sc_ty session with
  | Outbound =>
      port ← first_port listens;
      send_message (sc_id session) (DmGetNodes DISCOVERY_VERSION (Z.of_nat MAX_ADDR_TO_SEND) port) ;;
      mret (mkSessionState (bf_insert (sc_address session) (AddrKnown_default seed)) (RaListen (sc_address session)) None [] false false)
  | Inbound =>
      mret (mkSessionState (AddrKnown_default seed) (RaInit (sc_address session)) None [] false false)
  end.

(** [check_timer]: the new state and the address to announce. Instants do not go back. *)
Definition check_timer (now interval : Z) (s : SessionState) : SessionState * option Multiaddr :=
  if match ss_last_announce s with Some time => interval <? now - time | None => true end then
    (ss_put_last_announce (Some now) s, match ss_remote_addr s with RaListen addr => Some addr | RaInit _ => None end)
  else (s, None).

(** [send_messages] *)
Definition send_messages (id : Z) (s : SessionState) : DM SessionState :=
  if is_empty (ss_announce_multiaddrs s) then mret s
  else
    let items := map (λ addr, mkNode [addr]) (ss_announce_multiaddrs s) in
    send_message id (DmNodes (mkNodes true items)) ;;
    mret (ss_put_announce_multiaddrs [] s).

(** [RemoteAddress::update_port] *)
Definition replace_tcp (port : Z) (p : Protocol) : Protocol := match p with Tcp _ => Tcp port | value => value end.
Definition update_port (port : Z) (r : RemoteAddress) : DM RemoteAddress :=
  match r with
  | RaInit addr => ps ← or_die (iter addr); mret (RaListen (from_iter (map (replace_tcp port) ps)))
  | RaListen _ => mret r
  end.

Definition discovery_init (accepted : bool) : DM unit :=
  i ← gets dp_check_interval;
  if accepted then discovery_act (DaSetNotify (default CHECK_INTERVAL i) 0) else panic.

Definition discovery_connected (seed : Z) (session : SessionContext) (listens : list Multiaddr) : DM unit :=
  st ← SessionState_new seed session listens;
  put_session (sc_id session) st.

Definition discovery_disconnected (session : Z) : DM unit :=
  modify (λ s, dp_put_sessions (delete session (dp_sessions s)) s).

(** A call of the address manager, and the closure [check]. *)
Definition manager {B} (f : A → A * B) : DM B :=
  m ← gets dp_addr_mgr; let '(m', b) := f m in modify (dp_put_addr_mgr m') ;; mret b.
Definition check (session : Z) (behavior : DiscoveryMisbehavior) : DM bool :=
  r ← manager (am_misbehave session behavior);
  if dm_is_disconnect r then discovery_act (DaDisconnect session) ;; mret true else mret false.

Definition received_request (seed session : Z) (listen_port : option Z) (count : Z) : DM unit :=
  sessions ← gets dp_sessions;
  match sessions !! session with
  | None => mret tt
  | Some state =>
      stop ← (if ss_received_get_nodes state then check session DuplicateGetNodes else mret false);
      if stop : bool then mret tt else
      let state := ss_put_received_get_nodes true state in
      put_session session state ;;
      items ← manager (am_get_random 2500);
      state ← match listen_port with
        | Some port =>
            r ← update_port port (ss_remote_addr state);
            let state := ss_put_addr_known (bf_insert (to_inner r) (ss_addr_known state)) (ss_put_remote_addr r state) in
            put_session session state ;;
            match r with
            | RaListen addr => manager (λ m, (am_add_new_addr session addr m, tt))
            | RaInit _ => mret tt
            end ;;
            mret state
        | None => mret state
        end;
      let max := Nat.max MAX_ADDR_TO_SEND (Z.to_nat count) in
      let items := if (max <? length items)%nat then choose_multiple seed max items else items in
      put_session session (ss_put_addr_known (known_extend items (ss_addr_known state)) state) ;;
      send_message session (DmNodes (mkNodes false (map (λ addr, mkNode [addr]) items)))
  end.

Definition received_addresses (session : Z) (nodes : Nodes) : DM unit :=
  stop ← match verify_nodes_message nodes with Some m => check session m | None => mret false end;
  if stop : bool then mret tt else
  sessions ← gets dp_sessions;
  match sessions !! session with
  | None => mret tt
  | Some state =>
      if negb (ns_announce nodes) && ss_received_nodes state then check session DuplicateFirstNodes ;; mret tt
      else
        let addrs := concat (map nd_addresses (ns_items nodes)) in
        let state := ss_put_addr_known (known_extend addrs (ss_addr_known state)) state in
        put_session session (if ns_announce nodes then state else ss_put_received_nodes true state) ;;
        manager (λ m, (am_add_new_addrs session addrs m, tt))
  end.

Definition discovery_received (seed session : Z) (data : bytes) : DM unit :=
  item ← or_die (discovery_decode data);
  match item with
  | Some (DmGetNodes _ count listen_port) => received_request seed session listen_port count
  | Some (DmNodes nodes) => received_addresses session nodes
  | None => check session DiscoveryInvalidData ;; mret tt
  end.

(** The pass over the sessions in [notify]: announcements are sent, and the addresses to announce
    collected. *)
Fixpoint announce_list (now cycle : Z) (l : list (Z * SessionState)) : DM (list Multiaddr) :=
  match l with
  | [] => mret []
  | (id, state) :: rest =>
      st ← send_messages id state;
      mgr ← gets dp_addr_mgr;
      let '(st', o) := check_timer now cycle st in
      put_session id st' ;;
      r ← announce_list now cycle rest;
      mret match o with Some addr => if am_is_valid_addr addr mgr then addr :: r else r | None => r end
  end.

(** One address is passed on to three sessions. *)
Definition announce_to (addr : Multiaddr) (key : Z) : DM unit :=
  sessions ← gets dp_sessions;
  match sessions !! key with
  | Some value =>
      if (length (ss_announce_multiaddrs value) <? 10)%nat && negb (bf_contains addr (ss_addr_known value)) then
        put_session key (ss_put_addr_known (bf_insert addr (ss_addr_known value))
          (ss_put_announce_multiaddrs (ss_announce_multiaddrs value ++ [addr]) value))
      else mret tt
  | None => mret tt
  end.
Fixpoint each {B} (f : B → DM unit) (l : list B) : DM unit :=
  match l with [] => mret tt | x :: r => f x ;; each f r end.
Fixpoint announce_all (seed : Z) (keys : list Z) (l : list Multiaddr) : DM unit :=
  match l with
  | [] => mret tt
  | addr :: rest =>
      let keys := shuffle seed keys in
      each (announce_to addr) (take 3 keys) ;; announce_all (seed + 1) keys rest
  end.

Definition discovery_notify (seed now : Z) : DM unit :=
  s ← gets (λ s, s);
  l ← announce_list now (default ANNOUNCE_INTERVAL (dp_dynamic_query_cycle s)) (iter_map (dp_sessions s));
  if is_empty l then mret tt
  else keys ← gets (λ s, iter_keys (dp_sessions s)); announce_all seed keys l.

(** A callback of the handler; [context] and [listens] give the session and the addresses the
    service listens on. *)
Definition discovery_callback (context : Z → SessionContext) (listens : list Multiaddr) (seed now : Z) (c : Callback) : DM unit :=
  match c with
  | CbInit => discovery_init true
  | CbConnected session _ => discovery_connected seed (context session) listens
  | CbDisconnected session => discovery_disconnected session
  | CbReceived session data => discovery_received seed session data
  | CbNotify _ => discovery_notify seed now
  end.

End Discovery.

(** ** Properties *)

Section Proofs.
Context {A F : Type} `{AM : AddressManager A} `{BF : BloomFilter F} `{RCL : RandomChoiceLaws}.
Context `{VL : VarintLaws} `{ML : MolNumberLaws} `{LDL : DelimitedCodecLaws} `{TCL : TextCodecsLaws} `{HOL : HashOrderLaws}.
Abbreviation DP := (@DiscoveryProtocol A F) (only parsing).
Abbreviation DM := (M DP Empty_set) (only parsing).

Definition single (nd : Node) : Prop := ∃ a, nd_addresses nd = [a].

(** What a node sends, when it is asked for at most [bound] addresses. *)
Definition honest (bound : nat) (m : DiscoveryMessage) : Prop :=
  match m with
  | DmGetNodes version count _ => version = DISCOVERY_VERSION ∧ count = Z.of_nat MAX_ADDR_TO_SEND
  | DmNodes n => Forall single (ns_items n) ∧
      (length (ns_items n) <= if ns_announce n then ANNOUNCE_THRESHOLD else Nat.max MAX_ADDR_TO_SEND bound)%nat
  end.

Definition act_ok (bound : nat) (a : DiscoveryAct) : Prop :=
  match a with DaSend _ d => ∃ m, discovery_encode m = ROk d ∧ honest bound m | _ => True end.

Definition few (st : @SessionState F) : Prop := (length (ss_announce_multiaddrs st) <= ANNOUNCE_THRESHOLD)%nat.
Definition disc_inv (bound : nat) (s : DP) : Prop :=
  map_Forall (λ _ st, few st) (dp_sessions s) ∧ Forall (act_ok bound) (dp_acts s).

Lemma single_items l : Forall single (map (λ addr, mkNode [addr]) l).
Proof. apply Forall_fmap, Forall_forall. intros a _. by exists a. Qed.

Lemma keeps_act bound a : act_ok bound a → keeps (disc_inv bound) (discovery_act a : DM unit).
Proof. intros Ha. apply keeps_modify. intros s [H1 H2]. split; [done|]. cbn. apply Forall_app; split; [done|by constructor]. Qed.

Lemma keeps_put bound id st : few st → keeps (disc_inv bound) (put_session id st : DM unit).
Proof. intros Hf. apply keeps_modify. intros s [H1 H2]. split; [|done]. cbn. by apply map_Forall_insert_2. Qed.

Lemma keeps_or_die bound {E B} (r : res E B) : keeps (disc_inv bound) (or_die r : DM B).
Proof. apply keeps_id. by destruct r. Qed.

Lemma keeps_send bound id m : honest bound m → keeps (disc_inv bound) (send_message id m : DM unit).
Proof.
  intros Hm. unfold send_message. destruct (discovery_encode m) as [d| |] eqn:E; [|by apply keeps_id..].
  apply (keeps_act bound (DaSend id d)). by exists m.
Qed.

Lemma keeps_manager bound {B} (f : A → A * B) : keeps (disc_inv bound) (manager f : DM B).
Proof.
  unfold manager. apply keeps_bind; [apply keeps_gets|]. intros m. destruct (f m) as [m' b].
  apply keeps_bind; [by apply keeps_modify|]. intros _. apply keeps_ret.
Qed.
#[local] Hint Resolve keeps_ret keeps_panic keeps_gets keeps_or_die keeps_manager keeps_put keeps_send : disc.

Ltac disc_walk :=
  repeat first
    [ solve [eauto with disc]
    | apply keeps_bind; [|intros]
    | match goal with |- keeps _ (match ?x with _ => _ end) => destruct x eqn:? end ].

Lemma keeps_check bound id b : keeps (disc_inv bound) (check id b : DM bool).
Proof. unfold check. apply keeps_bind; [apply keeps_manager|]. intros r. destruct (dm_is_disconnect r); [|apply keeps_ret]. apply keeps_bind; [by apply keeps_act|]. intros _. apply keeps_ret. Qed.

Lemma keeps_first_port bound l : keeps (disc_inv bound) (first_port l : DM _).
Proof. induction l as [|a l IH]; cbn [first_port]; disc_walk. Qed.

Lemma keeps_update_port bound p r : keeps (disc_inv bound) (update_port p r : DM _).
Proof. destruct r; cbn [update_port]; disc_walk. Qed.
#[local] Hint Resolve keeps_check keeps_first_port keeps_update_port : disc.

(** A step keeps the invariant and gives a session state with few announcements. *)
Definition gives_few (bound : nat) (c : DM (@SessionState F)) : Prop :=
  ∀ s, disc_inv bound s → disc_inv bound (c s).1 ∧ ∀ st, (c s).2 = ROk st → few st.

Lemma few_bind bound {B} (c : DM SessionState) (k : SessionState → DM B) :
  gives_few bound c → (∀ st, few st → keeps (disc_inv bound) (k st)) → keeps (disc_inv bound) (c ≫= k).
Proof.
  intros Hc Hk s Hs. unfold mbind, M_bind. destruct (Hc s Hs) as [H1 H2].
  destruct (c s) as [s1 [st| |]]; try done. apply Hk; [by apply H2|done].
Qed.

Lemma few_after bound {B} (c : DM B) (k : B → DM SessionState) :
  keeps (disc_inv bound) c → (∀ b, gives_few bound (k b)) → gives_few bound (c ≫= k).
Proof.
  intros Hc Hk s Hs. unfold mbind, M_bind. specialize (Hc s Hs). destruct (c s) as [s1 [b| |]]; [by apply Hk|done..].
Qed.

Lemma few_ret bound st : few st → gives_few bound (mret st : DM _).
Proof. intros Hf s Hs. split; [done|]. by intros st' [= <-]. Qed.

Lemma few_new a r b c : few (mkSessionState a r None [] b c : @SessionState F).
Proof. unfold few. cbn. lia. Qed.
#[local] Hint Resolve few_new : disc.

Lemma keeps_connected bound seed cx listens : keeps (disc_inv bound) (discovery_connected seed cx listens : DM unit).
Proof.
  unfold discovery_connected, SessionState_new. apply few_bind; [|by intros; apply keeps_put]. destruct (sc_ty cx).
  - apply few_after; [apply keeps_first_port|]. intros p. apply few_after; [by apply keeps_send|]. intros _. apply few_ret, few_new.
  - apply few_ret, few_new.
Qed.

Lemma keeps_request bound seed id port count : (Z.to_nat count <= bound)%nat →
  keeps (disc_inv bound) (received_request seed id port count : DM unit).
Proof.
  intros Hc. unfold received_request. apply keeps_gets_bind. intros s Hs. destruct (dp_sessions s !! id) as [st|] eqn:Est; [|done].
  assert (Hf : few st) by (by eapply (proj1 Hs)). revert s Hs Est. intros s Hs _. revert s Hs.
  apply keeps_bind; [disc_walk|]. intros []; [apply keeps_ret|]. apply keeps_bind; [by apply keeps_put|]. intros _.
  apply keeps_bind; [apply keeps_manager|]. intros items. apply few_bind.
  - destruct port as [port|]; [|by apply few_ret]. apply few_after; [apply keeps_update_port|]. intros r.
    apply few_after; [by apply keeps_put|]. intros _. apply few_after; [destruct r; disc_walk|]. intros _. by apply few_ret.
  - intros st' Hf'. apply keeps_bind; [by apply keeps_put|]. intros _. apply keeps_send. split; [apply single_items|]. cbn [ns_items ns_announce].
    rewrite length_map. destruct (Nat.ltb_spec (Nat.max MAX_ADDR_TO_SEND (Z.to_nat count)) (length items)); [rewrite choose_length|]; lia.
Qed.

Lemma keeps_addresses bound id nodes : keeps (disc_inv bound) (received_addresses id nodes : DM unit).
Proof.
  unfold received_addresses. apply keeps_bind; [disc_walk|]. intros []; [apply keeps_ret|].
  apply keeps_gets_bind. intros s Hs. destruct (dp_sessions s !! id) as [st|] eqn:Est; [|done].
  assert (Hf : few st) by (by eapply (proj1 Hs)). destruct (_ && _); (eapply keeps_bind; [|intros|exact Hs]); [disc_walk| |apply keeps_put|apply keeps_manager].
  - apply keeps_ret.
  - by destruct (ns_announce nodes).
Qed.

(** A request in [data] asks for at most [bound] addresses. *)
Definition within (bound : nat) (data : bytes) : Prop :=
  ∀ v count port, discovery_decode data = ROk (Some (DmGetNodes v count port)) → (Z.to_nat count <= bound)%nat.

Lemma keeps_received bound seed id data : within bound data → keeps (disc_inv bound) (discovery_received seed id data : DM unit).
Proof.
  intros Hw. unfold discovery_received. destruct (discovery_decode data) as [[[v c p|n]|]| |] eqn:E; cbn [or_die].
  - apply (keeps_request bound seed id p c). by eapply Hw.
  - apply (keeps_addresses bound id n).
  - eapply (keeps_bind (disc_inv bound) (check id DiscoveryInvalidData)); [apply keeps_check|]. intros. apply keeps_ret.
  - by apply keeps_id.
  - by apply keeps_id.
Qed.

Lemma keeps_announce_list bound now cycle l : Forall (λ x, few x.2) l → keeps (disc_inv bound) (announce_list now cycle l : DM _).
Proof.
  induction 1 as [|[id st] l Hst Hl IH]; cbn [announce_list]; [apply keeps_ret|]. apply few_bind.
  - unfold send_messages. cbn in Hst. destruct (is_empty _); [by apply few_ret|].
    apply few_after; [|intros _; apply few_ret; unfold few; cbn; lia]. apply keeps_send. split; [apply single_items|]. cbn. by rewrite length_map.
  - intros st' Hf. apply keeps_bind; [apply keeps_gets|]. intros m. unfold check_timer.
    destruct (match ss_last_announce st' with Some _ => _ | None => _ end);
      (apply keeps_bind; [by apply keeps_put|intros _; apply keeps_bind; [exact IH|intros; apply keeps_ret]]).
Qed.

Lemma keeps_announce_to bound addr key : keeps (disc_inv bound) (announce_to addr key : DM unit).
Proof.
  unfold announce_to. apply keeps_gets_bind. intros s Hs. destruct (dp_sessions s !! key) as [v|] eqn:Ev; [|done].
  destruct (Nat.ltb_spec (length (ss_announce_multiaddrs v)) 10) as [Hl|]; [|done]. cbn [andb]. destruct (negb _); [|done].
  apply keeps_put; [|done]. unfold few, ANNOUNCE_THRESHOLD. cbn. rewrite length_app. cbn. lia.
Qed.

Lemma keeps_each bound {B} (f : B → DM unit) l : (∀ x, keeps (disc_inv bound) (f x)) → keeps (disc_inv bound) (each f l).
Proof. intros Hf. induction l as [|x l IH]; cbn [each]; [apply keeps_ret|]. by apply keeps_bind. Qed.

Lemma keeps_notify bound seed now : keeps (disc_inv bound) (discovery_notify seed now : DM unit).
Proof.
  unfold discovery_notify. apply keeps_gets_bind. intros s Hs. apply (keeps_bind (disc_inv bound)); [| |done].
  - apply keeps_announce_list, Forall_forall. intros [id st] Hx. unfold iter_map in Hx. rewrite hash_order_perm in Hx.
    apply elem_of_map_to_list in Hx. by eapply (proj1 Hs).
  - intros l. destruct (is_empty l); [apply keeps_ret|]. apply keeps_bind; [apply keeps_gets|]. intros keys. clear Hs s.
    revert seed keys. induction l as [|a l IH]; intros seed keys; cbn [announce_all]; [apply keeps_ret|].
    apply keeps_bind; [apply keeps_each; intros; apply keeps_announce_to|]. intros _. apply IH.
Qed.

Definition callback_within (bound : nat) (c : Callback) : Prop := match c with CbReceived _ data => within bound data | _ => True end.

Lemma keeps_callback bound context listens seed now c : callback_within bound c →
  keeps (disc_inv bound) (discovery_callback context listens seed now c : DM unit).
Proof.
  intros Hc. destruct c as [|id v|id|id d|t]; cbn [discovery_callback].
  - unfold discovery_init. apply keeps_bind; [apply keeps_gets|]. intros i. by apply keeps_act.
  - apply keeps_connected.
  - apply keeps_modify. intros s [H1 H2]. split; [|done]. cbn. by apply map_Forall_delete.
  - by apply keeps_received.
  - apply keeps_notify.
Qed.

(** Runs of the protocol: any callbacks, at any time and with any random choices. *)
Inductive discovery_run (context : Z → SessionContext) (s0 : DP) : list Callback → DP → Prop :=
| disc_start : discovery_run context s0 [] s0
| disc_call l s listens seed now c : discovery_run context s0 l s →
    discovery_run context s0 (l ++ [c]) ((discovery_callback context listens seed now c : DM unit) s).1.

Lemma discovery_run_inv bound context mgr cycle check l s : discovery_run context (DiscoveryProtocol_new mgr cycle check) l s →
  Forall (callback_within bound) l → disc_inv bound s.
Proof.
  induction 1 as [|l s listens seed now c Hr IH]; intros Hl.
  - split; [apply map_Forall_empty|constructor].
  - apply Forall_app in Hl as [Hl Hc]. rewrite Forall_singleton in Hc. apply (keeps_callback bound); [done|by apply IH].
Qed.

(** Messages of this form pass the check of the receiver. *)
Lemma honest_verified bound n : (bound <= MAX_ADDR_TO_SEND)%nat → honest bound (DmNodes n) → verify_nodes_message n = None.
Proof.
  intros Hb [H1 H2]. unfold verify_nodes_message.
  assert (E : (if ns_announce n then if (ANNOUNCE_THRESHOLD <? length (ns_items n))%nat then Some (TooManyItems (ns_announce n) (length (ns_items n))) else None
    else if (MAX_ADDR_TO_SEND <? length (ns_items n))%nat then Some (TooManyItems (ns_announce n) (length (ns_items n))) else None) = None).
  { rewrite Nat.max_l in H2 by done. by destruct (ns_announce n); rewrite (proj2 (Nat.ltb_ge _ _) H2). }
  rewrite E. clear E H2. induction H1 as [|nd l [a Ha] Hl IH]; [done|]. by rewrite Ha.
Qed.

(** Whatever a node is told and whatever addresses it knows, as long as no peer asks it for more
    than 1000 addresses, everything it sends is a request for 1000 addresses or a list of nodes
    that its receiver does not judge as misbehaviour. *)
Theorem discovery_messages_accepted context mgr cycle check l s id data :
  discovery_run context (DiscoveryProtocol_new mgr cycle check) l s → Forall (callback_within MAX_ADDR_TO_SEND) l →
  DaSend id data ∈ dp_acts s →
  ∃ m, discovery_encode m = ROk data ∧
    match m with
    | DmGetNodes version count _ => version = 0 ∧ count = 1000
    | DmNodes n => verify_nodes_message n = None ∧ Forall single (ns_items n)
    end.
Proof.
  intros Hr Hl Ha. destruct (discovery_run_inv _ _ _ _ _ _ _ Hr Hl) as [_ H]. rewrite Forall_forall in H.
  destruct (H _ Ha) as (m & E & Hm). exists m. split; [done|]. destruct m as [v c p|n]; [done|].
  split; [by eapply honest_verified|apply Hm].
Qed.

(** ** A request and its answer *)

Lemma message_decoded m : discovery_wf m → len (discovery_payload_encode m) <= 8 * 1024 * 1024 →
  ∃ d, discovery_encode m = ROk d ∧ discovery_decode d = ROk (Some m).
Proof.
  intros [H1 H2] Hl. destruct (ld_roundtrip _ Hl) as (d & E1 & E2). exists d. unfold discovery_encode, discovery_decode.
  rewrite E1, E2. split; [done|]. unfold discovery_payload_decode, discovery_payload_encode.
  rewrite (decode_written DiscoveryTable _ (to_payload m)); [cbn; by rewrite of_to_payload| |exact H2].
  destruct m as [v c p|[a items]]; [exact H1|]. split; [done|]. cbn. by apply Forall_fmap.
Qed.

Lemma request_len v c p : len (discovery_payload_encode (DmGetNodes v c p)) <= 40.
Proof.
  unfold discovery_payload_encode, to_payload. cbn [ly_write DiscoveryTable table_of last_field fd_write DiscoveryPayload union_of GetNodesTable field].
  rewrite !table_write_len. cbn [concat]. rewrite !app_nil_r, !len_app, !pack_len, !table_write_len. cbn [concat].
  rewrite !app_nil_r, !len_app. cbn [ly_write Uint32 converted byte_array PortOpt option_of Uint16]. rewrite !le_bytes_len.
  destruct p; cbn [ly_write converted byte_array]; rewrite ?le_bytes_len; done.
Qed.

Lemma first_port_run listens (s : DP) : Forall readable listens →
  ∃ p, (first_port listens : DM _) s = (s, ROk p) ∧ ∀ x, p = Some x → is_u16 x.
Proof.
  induction 1 as [|a l [ps Hp] Hl IH]; cbn [first_port]; [by eexists|].
  destruct (multiaddr_to_socketaddr_total _ _ Hp) as [o Ho]. rewrite Ho. cbn [or_die]. destruct o as [x|]; [|exact IH].
  eexists. split; [done|]. intros y [= <-]. by eapply to_socketaddr_port.
Qed.

(** The first step of an outgoing session. *)
Lemma connected_asks seed cx listens (s : DP) : sc_ty cx = Outbound → Forall readable listens →
  ∃ s' port d, (discovery_connected seed cx listens : DM unit) s = (s', ROk tt) ∧ (∀ x, port = Some x → is_u16 x) ∧
    discovery_decode d = ROk (Some (DmGetNodes DISCOVERY_VERSION (Z.of_nat MAX_ADDR_TO_SEND) port)) ∧
    dp_acts s' = dp_acts s ++ [DaSend (sc_id cx) d] ∧ dp_addr_mgr s' = dp_addr_mgr s ∧
    ∃ st, dp_sessions s' !! sc_id cx = Some st ∧ ss_received_nodes st = false.
Proof.
  intros Ht Hl. destruct (first_port_run listens s Hl) as (port & E & Hp).
  destruct (message_decoded (DmGetNodes DISCOVERY_VERSION (Z.of_nat MAX_ADDR_TO_SEND) port)) as (d & E1 & E2).
  { pose proof (request_len DISCOVERY_VERSION (Z.of_nat MAX_ADDR_TO_SEND) port) as Hq.
    pose proof (len_nonneg (discovery_payload_encode (DmGetNodes DISCOVERY_VERSION (Z.of_nat MAX_ADDR_TO_SEND) port))).
    split; [|unfold in_width; lia]. split_and!; [done|done|exact Hp]. }
  { pose proof (request_len DISCOVERY_VERSION (Z.of_nat MAX_ADDR_TO_SEND) port). lia. }
  unfold discovery_connected, SessionState_new, send_message, mbind, M_bind. rewrite Ht, E, E1. do 3 eexists.
  split_and!; [done|exact Hp|exact E2|done|done|]. cbn. rewrite lookup_insert_eq. by eexists.
Qed.

(** What an inbound session answers with, and what the address manager of its node has become. *)
Definition answered (seed id : Z) (port : option Z) (count : Z) (ps : list Protocol) (m : A) : A * list Multiaddr :=
  let '(m1, items) := am_get_random 2500 m in
  (match port with Some p => am_add_new_addr id (from_iter (map (replace_tcp p) ps)) m1 | None => m1 end,
   let max := Nat.max MAX_ADDR_TO_SEND (Z.to_nat count) in
   if (max <? length items)%nat then choose_multiple seed max items else items).

Lemma request_answered seed id port count addr ps st (s : DP) :
  dp_sessions s !! id = Some st → ss_received_get_nodes st = false → ss_remote_addr st = RaInit addr → parses addr ps →
  let '(m', items) := answered seed id port count ps (dp_addr_mgr s) in
  let answer := DmNodes (mkNodes false (map (λ a, mkNode [a]) items)) in
  ∀ d, discovery_encode answer = ROk d →
  ∃ s', (received_request seed id port count : DM unit) s = (s', ROk tt) ∧
    dp_addr_mgr s' = m' ∧ dp_acts s' = dp_acts s ++ [DaSend id d].
Proof.
  intros El Hg Hr Hp. unfold answered. destruct (am_get_random 2500 (dp_addr_mgr s)) as [m1 items] eqn:Er. intros d Hd.
  unfold received_request, manager, put_session, send_message, discovery_act, mbind, M_bind, gets, modify.
  rewrite El, Hg. cbn -[choose_multiple MAX_ADDR_TO_SEND Nat.ltb Nat.max Z.to_nat]. rewrite Er.
  destruct port as [port|]; cbn -[choose_multiple MAX_ADDR_TO_SEND Nat.ltb Nat.max Z.to_nat].
  - rewrite Hr. unfold update_port, mbind, M_bind. rewrite (parses_iter _ _ Hp). cbn -[choose_multiple MAX_ADDR_TO_SEND Nat.ltb Nat.max Z.to_nat].
    rewrite Hd. by eexists.
  - rewrite Hd. by eexists.
Qed.

(** An answer the codec refuses ends in a panic. *)
Lemma oversized_answer_panics seed id port count addr ps st (s : DP) :
  dp_sessions s !! id = Some st → ss_received_get_nodes st = false → ss_remote_addr st = RaInit addr → parses addr ps →
  ld_encode (discovery_payload_encode (DmNodes (mkNodes false (map (λ a, mkNode [a]) (answered seed id port count ps (dp_addr_mgr s)).2)))) = None →
  ((received_request seed id port count : DM unit) s).2 = RPanic.
Proof.
  intros El Hg Hr Hp. unfold answered. destruct (am_get_random 2500 (dp_addr_mgr s)) as [m1 items] eqn:Er. cbn [snd]. intros Hd.
  unfold received_request, manager, put_session, send_message, discovery_act, mbind, M_bind, gets, modify.
  rewrite El, Hg. cbn -[choose_multiple MAX_ADDR_TO_SEND Nat.ltb Nat.max Z.to_nat discovery_encode]. rewrite Er.
  destruct port as [port|]; cbn -[choose_multiple MAX_ADDR_TO_SEND Nat.ltb Nat.max Z.to_nat discovery_encode].
  - rewrite Hr. unfold update_port, mbind, M_bind. rewrite (parses_iter _ _ Hp).
    cbn -[choose_multiple MAX_ADDR_TO_SEND Nat.ltb Nat.max Z.to_nat discovery_encode]. unfold discovery_encode. by rewrite Hd.
  - unfold discovery_encode. by rewrite Hd.
Qed.

Lemma answer_taken id n st (s : DP) : verify_nodes_message n = None → dp_sessions s !! id = Some st →
  ss_received_nodes st = false → ∃ s', (received_addresses id n : DM unit) s = (s', ROk tt) ∧
    dp_addr_mgr s' = am_add_new_addrs id (concat (map nd_addresses (ns_items n))) (dp_addr_mgr s) ∧ dp_acts s' = dp_acts s.
Proof.
  intros Hv El Hr. unfold received_addresses, manager, put_session, mbind, M_bind, gets, modify. rewrite Hv. cbn. rewrite El, Hr.
  rewrite andb_false_r. by eexists.
Qed.

Lemma concat_single (l : list Multiaddr) : concat (map nd_addresses (map (λ a, mkNode [a]) l)) = l.
Proof. induction l as [|a l IH]; [done|]. cbn. by rewrite IH. Qed.

(** Asked for more than 1000 addresses, a node that knows more sends them, and the node that asked
    judges the answer as misbehaviour; asked for less, it still sends up to 1000. *)
Lemma large_request_judged seed id port count ps (m : A) : let items := (am_get_random 2500 m).2 in
  (MAX_ADDR_TO_SEND < length items <= Z.to_nat count)%nat →
  verify_nodes_message (mkNodes false (map (λ a, mkNode [a]) (answered seed id port count ps m).2)) = Some (TooManyItems false (length items)).
Proof.
  intros items. subst items. unfold answered. destruct (am_get_random 2500 m) as [m1 items]. cbn [snd]. intros Hl.
  rewrite (proj2 (Nat.ltb_ge _ _)) by lia. unfold verify_nodes_message. cbn [ns_announce ns_items]. rewrite length_map.
  by rewrite (proj2 (Nat.ltb_lt _ _)) by lia.
Qed.

Lemma small_request_ignored seed id port count ps (m : A) : (Z.to_nat count <= MAX_ADDR_TO_SEND)%nat →
  answered seed id port count ps m = answered seed id port (Z.of_nat MAX_ADDR_TO_SEND) ps m.
Proof. intros Hc. unfold answered. by rewrite Nat2Z.id, Nat.max_id, Nat.max_l by done. Qed.

Definition manager_ok : Prop := ∀ n (m : A), Forall readable (am_get_random n m).2.

(** A node that connects to another asks it for addresses; the other, asked for the first time
    on its inbound session, adds the listening address of the node, with the port it announced,
    and answers with the addresses it knows, 1000 of them at most; the node takes the answer
    without judging misbehaviour and adds exactly these addresses. The answer must fit the codec. *)
Theorem discovery_exchange seed seed' cx listens id addr ps st (a b : DP) :
  sc_ty cx = Outbound → Forall readable listens → manager_ok →
  dp_sessions b !! id = Some st → ss_received_get_nodes st = false → ss_remote_addr st = RaInit addr → parses addr ps →
  (∀ port, len (discovery_payload_encode (DmNodes (mkNodes false (map (λ x, mkNode [x]) (answered seed' id port (Z.of_nat MAX_ADDR_TO_SEND) ps (dp_addr_mgr b)).2))))
    <= 8 * 1024 * 1024) →
  ∃ a' request port b' answer a'',
    (discovery_connected seed cx listens : DM unit) a = (a', ROk tt) ∧ dp_acts a' = dp_acts a ++ [DaSend (sc_id cx) request] ∧
    (discovery_received seed' id request : DM unit) b = (b', ROk tt) ∧ dp_acts b' = dp_acts b ++ [DaSend id answer] ∧
    dp_addr_mgr b' = (answered seed' id port (Z.of_nat MAX_ADDR_TO_SEND) ps (dp_addr_mgr b)).1 ∧
    (discovery_received seed (sc_id cx) answer : DM unit) a' = (a'', ROk tt) ∧ dp_acts a'' = dp_acts a' ∧
    dp_addr_mgr a'' = am_add_new_addrs (sc_id cx) (answered seed' id port (Z.of_nat MAX_ADDR_TO_SEND) ps (dp_addr_mgr b)).2 (dp_addr_mgr a).
Proof.
  intros Ht Hl Hm El Hg Hr Hp Hfit.
  destruct (connected_asks seed cx listens a Ht Hl) as (a' & port & request & E1 & _ & D1 & A1 & M1 & sa & Sa & Ra).
  pose proof (request_answered seed' id port (Z.of_nat MAX_ADDR_TO_SEND) addr ps st b El Hg Hr Hp) as Hans. specialize (Hfit port).
  assert (Hitems : Forall readable (answered seed' id port (Z.of_nat MAX_ADDR_TO_SEND) ps (dp_addr_mgr b)).2 ∧
    (length (answered seed' id port (Z.of_nat MAX_ADDR_TO_SEND) ps (dp_addr_mgr b)).2 <= MAX_ADDR_TO_SEND)%nat).
  { unfold answered. specialize (Hm 2500 (dp_addr_mgr b)). destruct (am_get_random 2500 (dp_addr_mgr b)) as [m1 items]. cbn [fst snd] in *.
    rewrite Nat2Z.id, Nat.max_id. destruct (Nat.ltb_spec MAX_ADDR_TO_SEND (length items)); [|by split]. split; [|rewrite choose_length; lia].
    apply Forall_forall. intros x Hx. apply choose_from in Hx. by eapply Forall_forall in Hm. }
  destruct (answered seed' id port (Z.of_nat MAX_ADDR_TO_SEND) ps (dp_addr_mgr b)) as [m' items] eqn:Ea. cbn [fst snd] in *. destruct Hitems as [Hi Hn].
  set (n := mkNodes false (map (λ x, mkNode [x]) items)) in *.
  destruct (message_decoded (DmNodes n)) as (answer & E2 & D2); [|done|].
  { split; [|unfold in_width; pose proof (len_nonneg (discovery_payload_encode (DmNodes n))); lia].
    apply Forall_fmap, Forall_forall. intros x Hx. constructor; [|constructor]. by eapply Forall_forall in Hi. }
  destruct (Hans answer E2) as (b' & E3 & M3 & A3).
  assert (Hv : verify_nodes_message n = None).
  { apply (honest_verified 0); [lia|]. split; [apply single_items|]. cbn [n ns_items ns_announce]. rewrite length_map. lia. }
  destruct (answer_taken (sc_id cx) n sa a' Hv Sa Ra) as (a'' & E4 & M4 & A4).
  exists a', request, port, b', answer, a''. rewrite Ea. cbn [fst snd].
  split_and!; [done|done| |done|done| |done|rewrite M4, M1; unfold n; cbn [ns_items]; by rewrite concat_single];
    unfold discovery_received, mbind, M_bind; [rewrite D1|rewrite D2]; done.
Qed.

End Proofs.

(** ** Concrete nodes *)

(** A manager with a number of addresses, that keeps what it is given and disconnects a peer that
    misbehaves; an exact filter; the first choices. *)
#[export] Instance demo_manager : AddressManager (nat * list Multiaddr) := {
  am_is_valid_addr _ _ := true;
  am_add_new_addr _ a m := (m.1, m.2 ++ [a]);
  am_add_new_addrs _ l m := (m.1, m.2 ++ l);
  am_misbehave _ _ m := (m, DmDisconnect);
  am_get_random n m := (m, replicate (Nat.min (Z.to_nat n) m.1) (demo_addr 80));
}.
#[export] Instance demo_filter : BloomFilter (list Multiaddr) := {
  bf_new _ _ := [];
  bf_insert a f := a :: f;
  bf_contains a f := bool_decide (a ∈ f);
}.
#[export] Instance demo_choice : RandomChoice := { choose_multiple _ n l := take n l; shuffle _ l := l }.
#[export] Instance demo_choice_laws : RandomChoiceLaws.
Proof.
  split.
  - intros seed n l. apply length_take.
  - intros seed n l a Ha. cbn in Ha. rewrite <- (take_drop n l). apply elem_of_app. by left.
  - done.
Qed.

Abbreviation DemoDiscovery := (@DiscoveryProtocol (nat * list Multiaddr) (list Multiaddr)) (only parsing).
Definition demo_node (n : nat) : DemoDiscovery := DiscoveryProtocol_new (n, []) None None.
Definition out_session : SessionContext := SessionContext_new 3 (demo_addr 80) Outbound None.
Definition in_session (id : Z) : SessionContext := SessionContext_new id (demo_addr 4001) Inbound None.
Definition demo_asked (n : nat) : DemoDiscovery := (discovery_callback in_session [] 1 0 (CbConnected 7 []) (demo_node n)).1.

Lemma demo_manager_ok : manager_ok (A := nat * list Multiaddr).
Proof.
  intros n m. cbn [am_get_random demo_manager snd]. apply Forall_replicate. by apply demo_addr_readable.
Qed.

Definition demo_components : list Protocol := [Ip4 (byte_of 8) (byte_of 8) (byte_of 8) (byte_of 8); Tcp 4001].

Lemma discovery_exchange_witness : ∃ a' request port b' answer a'',
  discovery_connected 1 out_session [demo_addr 90] (demo_node 0) = (a', ROk tt) ∧
  discovery_received 2 7 request (demo_asked 2) = (b', ROk tt) ∧
  dp_addr_mgr b' = (answered 2 7 port 1000 demo_components (2%nat, [])).1 ∧
  discovery_received 1 3 answer a' = (a'', ROk tt) ∧ dp_addr_mgr a'' = (0%nat, [demo_addr 80; demo_addr 80]).
Proof.
  destruct (discovery_exchange 1 2 out_session [demo_addr 90] 7 (demo_addr 4001) demo_components
    (mkSessionState [] (RaInit (demo_addr 4001)) None [] false false) (demo_node 0) (demo_asked 2))
    as (a' & request & port & b' & answer & a'' & E1 & _ & E3 & _ & M3 & E4 & _ & M4).
  - done.
  - constructor; [by apply demo_addr_readable|constructor].
  - exact demo_manager_ok.
  - done.
  - done.
  - done.
  - apply parses_from_iter. constructor; [done|constructor; [done|constructor]].
  - intros port. by vm_compute.
  - exists a', request, port, b', answer, a''. split_and!; [exact E1|exact E3|exact M3|exact E4|]. rewrite M4. by vm_compute.
Defined.

Definition demo_request (count : Z) : bytes :=
  match discovery_encode (DmGetNodes 0 count (Some 90)) with ROk d => d | _ => [] end.
Definition demo_answered (n : nat) (count : Z) : DemoDiscovery := (discovery_callback in_session [] 2 0 (CbReceived 7 (demo_request count)) (demo_asked n)).1.

Lemma discovery_messages_accepted_witness :
  length (dp_acts (demo_answered 2 1000)) = 1%nat ∧
  ∃ d, DaSend 7 d ∈ dp_acts (demo_answered 2 1000) ∧ ∃ m, discovery_encode m = ROk d ∧
    match m with
    | DmGetNodes version count _ => version = 0 ∧ count = 1000
    | DmNodes n => verify_nodes_message n = None ∧ Forall single (ns_items n)
    end.
Proof.
  split; [by vm_compute|]. destruct (dp_acts (demo_answered 2 1000)) as [|[| i d|] acts] eqn:E; try (by vm_compute in E).
  assert (Hi : i = 7) by (vm_compute in E; by injection E as <-). subst i. exists d. split; [by left|].
  apply (discovery_messages_accepted in_session (2%nat, []) None None [CbConnected 7 []; CbReceived 7 (demo_request 1000)] (demo_answered 2 1000) 7 d).
  - unfold demo_answered, demo_asked.
    refine (disc_call in_session (demo_node 2) [CbConnected 7 []] _ [] 2 0 (CbReceived 7 (demo_request 1000)) _).
    refine (disc_call in_session (demo_node 2) [] _ [] 1 0 (CbConnected 7 []) _). constructor.
  - constructor; [done|]. constructor; [|constructor]. intros v c p Hd.
    assert (E2 : discovery_decode (demo_request 1000) = ROk (Some (DmGetNodes 0 1000 (Some 90)))) by by vm_compute.
    rewrite E2 in Hd. injection Hd as <- <- <-. by vm_compute.
  - rewrite E. by left.
Defined.
