(* ===== verification/Compress.v ===== *)
(** * Message compression of the connector ([connector/src/compress.rs])

    A flag byte in front of every message, and snappy above a size threshold. The [snap] crate is
    an interface. *)

From Stdlib Require Import ZArith Lia Bool.
From stdpp Require Import base list.
From S2P Require Import Prelude Text.

Open Scope Z_scope.

(** [snap::raw]: the encoder, the length a compressed block announces, and decompression into a
    buffer of a given length. *)
Class Snap := {
  compress_vec : bytes → option bytes;
  decompress_len : bytes → option Z;
  snap_decompress : bytes → Z → option bytes;
}.

Class SnapLaws `{SN : Snap} : Prop := {
  snap_len : ∀ x y, compress_vec x = Some y → decompress_len y = Some (len x);
  snap_roundtrip : ∀ x y, compress_vec x = Some y → snap_decompress y (len x) = Some x;
  snap_fills : ∀ y n b, snap_decompress y n = Some b → len b = n;
}.

Definition COMPRESSION_SIZE_THRESHOLD : Z := 1024.
Definition UNCOMPRESS_FLAG : byte := byte_of 0x00.
Definition COMPRESS_FLAG : byte := byte_of 0x80.
Definition MAX_UNCOMPRESSED_LEN : Z := Z.shiftl 1 23.

Section Compress.
Context `{SN : Snap}.

(** [Message]: its bytes. *)
Definition from_raw (data : bytes) : bytes := UNCOMPRESS_FLAG :: data.

(** [self.inner[0] = COMPRESS_FLAG], on a non-empty message. *)
Definition set_compress_flag (inner : bytes) : bytes :=
  match inner with [] => [] | _ :: rest => COMPRESS_FLAG :: rest end.

Definition compress_flag (b : byte) : bool :=
  negb (Z.land (byte_val b) (byte_val COMPRESS_FLAG) =? 0).

Definition message_compress (inner : bytes) : bytes :=
  if COMPRESSION_SIZE_THRESHOLD <? len inner then
    let input := drop 1 inner in
    let inner := take 1 inner in
    match compress_vec input with
    | Some res => set_compress_flag (inner ++ res)
    | None => inner ++ input
    end
  else inner.

(** [None] is [Err(io::ErrorKind::InvalidData)]. *)
Definition message_decompress (inner : bytes) : option bytes :=
  match inner with
  | [] => None
  | flag :: payload =>
      if compress_flag flag then
        match decompress_len payload with
        | Some n => if MAX_UNCOMPRESSED_LEN <? n then None else snap_decompress payload n
        | None => None
        end
      else Some payload
  end.

Definition compress (src : bytes) : bytes := message_compress (from_raw src).
Definition decompress (src : bytes) : option bytes := message_decompress src.

Context {SL : SnapLaws}.

Lemma compress_cases data :
  (compress data = UNCOMPRESS_FLAG :: data ∧
   (len data < COMPRESSION_SIZE_THRESHOLD ∨ compress_vec data = None)) ∨
  ∃ y, compress_vec data = Some y ∧ COMPRESSION_SIZE_THRESHOLD <= len data ∧
    compress data = COMPRESS_FLAG :: y.
Proof.
  unfold compress, message_compress, from_raw. rewrite len_cons.
  destruct (Z.ltb_spec COMPRESSION_SIZE_THRESHOLD (1 + len data)); [|left; split; [done|lia]].
  change (drop 1 (UNCOMPRESS_FLAG :: data)) with data.
  destruct (compress_vec data) as [y|] eqn:E; [right|by left; auto].
  exists y. split_and!; [done|lia|done].
Qed.

(** Decompression gives back every message of at most 8 MiB, compressed or not; a longer
    message that was compressed is refused by the receiver; and whatever arrives, what is handed
    on is at most 8 MiB or no longer than what arrived. *)
Theorem compress_roundtrip data src :
  (len data <= MAX_UNCOMPRESSED_LEN → decompress (compress data) = Some data) ∧
  (MAX_UNCOMPRESSED_LEN < len data → compress_vec data ≠ None → decompress (compress data) = None) ∧
  (∀ out, decompress src = Some out → len out <= Z.max MAX_UNCOMPRESSED_LEN (len src - 1)).
Proof.
  assert (compress_flag UNCOMPRESS_FLAG = false ∧ compress_flag COMPRESS_FLAG = true) as [F0 F1] by done.
  split_and!.
  - intros Hl. destruct (compress_cases data) as [[-> _]|(y & Hy & _ & ->)]; unfold decompress, message_decompress.
    + by rewrite F0.
    + rewrite F1, (snap_len _ _ Hy). replace (_ <? _) with false by lia. by apply snap_roundtrip.
  - intros Hl Hc. destruct (compress_cases data) as [[_ Hn]|(y & Hy & _ & ->)].
    + change MAX_UNCOMPRESSED_LEN with 8388608 in Hl. unfold COMPRESSION_SIZE_THRESHOLD in Hn.
      destruct Hn as [?|Hn]; [lia|done].
    + unfold decompress, message_decompress. rewrite F1, (snap_len _ _ Hy).
      by replace (_ <? _) with true by lia.
  - intros out. unfold decompress. destruct src as [|flag payload]; [done|]. cbn [message_decompress].
    rewrite len_cons. destruct (compress_flag flag); [|intros [= <-]; lia].
    destruct (decompress_len payload) as [n|]; [|done].
    destruct (Z.ltb_spec MAX_UNCOMPRESSED_LEN n); [done|]. intros Ho. apply snap_fills in Ho. lia.
Qed.

End Compress.

(** ** A compressor of constant messages, for concrete runs: length in three bytes and the byte *)

#[export] Instance demo_snap : Snap := {
  compress_vec x :=
    match x with
    | b :: _ => if bool_decide (x = replicate (length x) b ∧ is_u32 (len x)) then Some (be_bytes 4 (len x) ++ [b]) else None
    | [] => None
    end;
  decompress_len y := Some (be_val (take 4 y));
  snap_decompress y n :=
    match drop 4 y with
    | [b] => if bool_decide (0 <= n) then Some (replicate (Z.to_nat n) b) else None
    | _ => None
    end;
}.

#[export] Instance demo_snap_laws : SnapLaws.
Proof.
  split; cbn [compress_vec decompress_len snap_decompress demo_snap].
  - intros [|b x] y; [done|]. case_bool_decide as H; [|done]. intros Hy.
    assert (y = be_bytes 4 (len (b :: x)) ++ [b]) as -> by congruence.
    rewrite take_app_length' by (by rewrite be_bytes_length). f_equal. apply (be_val_be_bytes_id 4), H.
  - intros [|b x] y; [done|]. case_bool_decide as H; [|done]. intros Hy.
    assert (y = be_bytes 4 (len (b :: x)) ++ [b]) as -> by congruence.
    rewrite drop_app_length' by (by rewrite be_bytes_length).
    rewrite bool_decide_eq_true_2 by apply len_nonneg. unfold len. rewrite Nat2Z.id.
    destruct H as [H _]. by rewrite <- H.
  - intros y n b. destruct (drop 4 y) as [|c [|]]; try done. case_bool_decide; [|done]. intros [= <-].
    unfold len. rewrite length_replicate. lia.
Qed.

Lemma compress_roundtrip_witness :
  let data := replicate 2000 (byte_of 5) in
  compress data = COMPRESS_FLAG :: be_bytes 4 2000 ++ [byte_of 5] ∧ decompress (compress data) = Some data.
Proof.
  intros data. split; [vm_compute; reflexivity|].
  apply (proj1 (compress_roundtrip data [])). vm_compute. discriminate.
Defined.
