(* ===== verification/MessageFlow.v ===== *)
(** * Messages from one end to the other

    Two substreams over the two handles of a yamux stream: what the session of one end sends reaches
    the handlers of the other, at each priority in order, and the compression that protocols put
    around it is undone on the way. The bytes between the ends go through the modelled handles
    ([YamuxFlow]); the frames of the handles cross the connection in order, which
    [connection_frames_in_order] derives for an encrypted connection from the codec of frames and
    the encrypted stream. The codec of messages ([tokio_util]'s [Framed] with a
    [LengthDelimitedCodec] or the user's codec) is an interface. *)

From Stdlib Require Import ZArith Lia Bool.
From stdpp Require Import base list gmap relations.
From S2P Require Import Prelude Text Channels YamuxFrame YamuxStream YamuxStreamProofs YamuxFlow.
From S2P Require Import PriorityChannel Buffers Wire SecioAlgorithms SecioCipher SecioStream SecioStreamProofs.
From S2P Require Import Tentacle Substream SubstreamProofs Compress.

Open Scope Z_scope.

(** ** Lists with priorities *)

Definition with_values {A B} (l : list (Priority * A)) (bs : list B) : list (Priority * B) := zip (fst <$> l) bs.

Lemma sel_first {A} pr (x : Priority * A) l : sel pr (x :: l) = (if decide (x.1 = pr) then [x.2] else []) ++ sel pr l.
Proof. unfold sel. rewrite filter_cons. by case_decide. Qed.

(** Mapping the values of all messages maps those of each priority. *)
Lemma mapM_sel {A B} (f : A → option B) (l : list (Priority * A)) ds : mapM f (snd <$> l) = Some ds →
  (∀ pr, mapM f (sel pr l) = Some (sel pr (with_values l ds))) ∧ snd <$> with_values l ds = ds.
Proof.
  revert ds. induction l as [|[p a] l IH]; intros ds H.
  - injection H as <-. done.
  - cbn in H. destruct (f a) as [b|] eqn:Ea; cbn in H; [|done].
    destruct (mapM f (snd <$> l)) as [bs|] eqn:Em; cbn in H; [|done]. injection H as <-.
    destruct (IH bs eq_refl) as [J1 J2]. split; [|unfold with_values in *; cbn; by rewrite J2].
    intros pr. unfold with_values in *. cbn [fmap list_fmap zip zip_with fst]. rewrite !sel_first. cbn [fst snd].
    case_decide; cbn; [by rewrite Ea; cbn; rewrite J1|by rewrite J1].
Qed.

Lemma mapM_pointwise {A B} (f g : A → option B) (l : list A) : (∀ x, f x = g x) → mapM f l = mapM g l.
Proof. intros H. induction l as [|x l IH]; [done|]. cbn. by rewrite H, IH. Qed.

Lemma mapM_undo {A B} (f : A → option B) (g : B → A) (xs : list B) : Forall (λ x, f (g x) = Some x) xs →
  mapM f (g <$> xs) = Some xs.
Proof. induction 1 as [|x xs H _ IH]; [done|]. cbn. rewrite H. cbn. by rewrite IH. Qed.

Lemma prefix_fmap_inv {A B} (f : A → B) (l : list B) (xs : list A) : l `prefix_of` (f <$> xs) →
  ∃ n, l = f <$> take n xs.
Proof.
  intros [k Hk]. exists (length l). rewrite fmap_take, Hk, take_app_length. done.
Qed.

(** A prefix of a list with priorities is a prefix at each of them. *)
Lemma prefix_sel {A} pr (l k : list (Priority * A)) : l `prefix_of` k → sel pr l `prefix_of` sel pr k.
Proof. intros [x ->]. rewrite select_app. by apply prefix_app_r. Qed.

(** ** Frames cross an encrypted connection in order *)

Lemma feed_prefix c buf (x y : list bytes) fs c2 buf2 : feed c buf (x ++ y) = (fs, c2, buf2, None) →
  ∃ fs1 c1 buf1, feed c buf x = (fs1, c1, buf1, None) ∧ fs1 `prefix_of` fs.
Proof.
  revert c buf fs. induction x as [|d x IH]; intros c buf fs; [intros _; exists [], c, buf; split; [done|apply prefix_nil]|].
  cbn [app feed]. destruct (drain _ _ _) as [[[fs1 c1] buf1] [e|]]; [intros [= <- <- <-]|].
  destruct (feed c1 buf1 (x ++ y)) as [[[fs' c'] buf'] e'] eqn:E. intros [= <- <- <- ->].
  destruct (IH _ _ _ E) as (fs2 & c3 & buf3 & -> & Hp). eexists _, _, _. split; [done|]. by apply prefix_app.
Qed.

(** What a session reads from an encrypted connection are the first of the frames the session of
    the other end wrote, in order, however the bytes are cut; so are those of each stream. *)
Lemma connection_frames_in_order `{AL : AeadLaws} {T T' IOE} `{SL : SocketLaws T IOE} `{SL' : SocketLaws T' IOE}
    (t : CipherType) k (l : link (T := T) (T' := T')) c (G : list Frame) chunks :
  link_inv t k l → unused_data_header c = None → Forall (frame_ok (max_frame_size c)) G →
  lk_written l `prefix_of` encode_all G → concat chunks = lk_read l →
  ∃ fs c' buf, feed c [] chunks = (fs, c', buf, None) ∧ fs `prefix_of` G ∧
    ∀ id, filter (λ f, f_stream_id f = id) fs `prefix_of` filter (λ f, f_stream_id f = id) G.
Proof.
  intros (n & ps & qs & _ & _ & _ & _ & Hw) Hu HG [r Hr] Hch.
  rewrite Hw, <- !app_assoc, <- Hch in Hr.
  destruct (feed_prefix c [] chunks [unread (lk_r l) ps ++ concat qs ++ r] G c []) as (fs & c' & buf & E & Hp).
  { apply (feed_encoded c G _ c [] []); try done. rewrite concat_app. cbn. by rewrite app_nil_r, Hr. }
  exists fs, c', buf. split_and!; [done|done|]. intros id. destruct Hp as [k' ->]. rewrite filter_app. by apply prefix_app_r.
Qed.

(** ** Messages on a stream of bytes *)

(** [Framed] over a stream, with the codec of a protocol: the bytes of a message, and the messages
    in the bytes that were read. [mc_fits] are the messages the codec accepts (those up to its
    limit). *)
Class MessageCodec := {
  mc_fits : bytes → Prop;
  mc_encode : bytes → bytes;
  mc_decode : bytes → list bytes;
}.

(** The messages are read back one by one, as soon as their bytes are there. *)
Class MessageCodecLaws `{MC : MessageCodec} : Prop := {
  mc_prefix : ∀ ms p, Forall mc_fits ms → p `prefix_of` concat (mc_encode <$> ms) → mc_decode p `prefix_of` ms;
  mc_all : ∀ ms, Forall mc_fits ms → mc_decode (concat (mc_encode <$> ms)) = ms;
}.

Section Flow.
Context {T F ES ER SS PS YE YR : Type}.
Context `{KL : SocketLaws T ErrorKind} `{SDL : !ShutdownLaws T (SD := SD)}.
Context `{BEL : BoundedSenderLaws ES (ProtocolEvent F)} `{REL : PriorityReceiverLaws ER (ProtocolEvent F)}.
Context `{BSL : BoundedSenderLaws SS ServiceProtocolEvent}.
Context `{BPL : BoundedSenderLaws PS SessionProtocolEvent}.
Context `{USL : UnboundedSenderLaws YE StreamEvent} `{RCL : ReceiverLaws YR Frame}.
Context `{MCL : MessageCodecLaws}.

Abbreviation SU := (@Substream T F ES ER SS PS) (only parsing).
Abbreviation Stream_ := (@sys YE YR) (only parsing).

(** The end that sends and the end that receives: the opener of the stream or the other side. *)
Definition from_side (opener : bool) (y : Stream_) : side := if opener then sy_a y else sy_b y.
Definition to_side (opener : bool) (y : Stream_) : side := if opener then sy_b y else sy_a y.
Definition on_wire (opener : bool) (y : Stream_) : list Frame := if opener then sy_ab y else sy_ba y.

(** A reachable state of the two handles of a new stream. *)
Definition mux_reaches (y : Stream_) : Prop :=
  ∃ id mxa mxb es fr y0, sys_start id mxa mxb es fr = Some y0 ∧ is_u32 id ∧ recv_queue fr = [] ∧
    us_is_closed es = false ∧ INITIAL_STREAM_WINDOW <= mxa < 2 ^ 32 ∧ INITIAL_STREAM_WINDOW <= mxb < 2 ^ 32 ∧
    rtc sys_step y0 y.

Lemma mux_bytes opener y : mux_reaches y →
  sd_rd (to_side opener y) ++ YamuxStreamProofs.unread (sd_h (to_side opener y)) ++ payload (on_wire opener y) = sd_wr (from_side opener y).
Proof.
  intros (id & mxa & mxb & es & fr & y0 & Hs & Hid & Hq & Ho & Ha & Hb & Hr).
  assert (sys_inv y) as (_ & _ & _ & _ & [_ B1] & [_ B2]) by eauto using sys_steps_inv, sys_start_inv.
  by destruct opener.
Qed.

(** The two substreams with the stream between them. The first end has written to its handle the
    first bytes of the messages it gave to the codec, all of which the codec accepted; the frames
    [inc] that came in at the second are what the codec makes of the bytes read from its handle. *)
Record joined (opener : bool) (a0 a b0 b : SU) (y : Stream_) (ar : list (Priority * ProtocolEvent F))
    (inc : list bytes) : Prop := {
  jn_sized : sized a0 ∧ sized b0;
  jn_fresh : sent a0 = [] ∧ (∀ pr, waiting pr a0 = []) ∧ incoming b0 = [];
  jn_runs : ∃ inc_a ar_b, sub_run a0 ar inc_a a ∧ sub_run b0 ar_b inc b;
  jn_mux : mux_reaches y;
  jn_fits : Forall mc_fits (sent a);
  jn_written : sd_wr (from_side opener y) `prefix_of` concat (mc_encode <$> sent a);
  jn_read : inc = mc_decode (sd_rd (to_side opener y));
}.

(** Nothing is on the way: neither end is dead, the first has nothing left to send, its codec has
    written everything, and all of it crossed the stream and was read and taken. *)
Record settled (opener : bool) (a b : SU) (y : Stream_) : Prop := {
  st_alive : su_dead a = false ∧ su_dead b = false;
  st_sent : ∀ pr, waiting pr a = [];
  st_flushed : sd_wr (from_side opener y) = concat (mc_encode <$> sent a);
  st_crossed : payload (on_wire opener y) = [] ∧ YamuxStreamProofs.unread (sd_h (to_side opener y)) = [];
  st_taken : incoming b = [];
}.

(** What came in are the first of the frames that were sent. *)
Lemma joined_stream opener a0 a b0 b y ar inc : joined opener a0 a b0 b y ar inc →
  inc `prefix_of` sent a ∧ (settled opener a b y → inc = sent a).
Proof.
  intros [_ _ _ Hm Hf Hw ->]. pose proof (mux_bytes opener y Hm) as Hb. split.
  - apply mc_prefix; [done|]. etrans; [|exact Hw]. rewrite <- Hb. by apply prefix_app_r.
  - intros [_ _ Hfl [H1 H2] _]. rewrite H1, H2, !app_nil_r in Hb. rewrite Hb, Hfl. by apply mc_all.
Qed.

(** The messages that were sent, in the order the handlers of the other end see them. *)
Definition received (b0 b : SU) (ds : list bytes) : Prop :=
  fed (su_dead b) (SvReceived (sc_id (su_context b0)) <$> ds) (su_service_proto_sender b0) (su_service_proto_sender b) ∧
  fed (su_dead b) (SeReceived <$> ds) (su_session_proto_sender b0) (su_session_proto_sender b).

Lemma joined_frames opener a0 a b0 b y ar inc : joined opener a0 a b0 b y ar inc →
  ∃ frames ds, (∀ pr, sel pr frames `prefix_of` messages (sel pr ar)) ∧
    mapM (before b0) (snd <$> frames) = Some ds ∧ received b0 b ds ∧
    (settled opener a b y → ∀ pr, sel pr frames = messages (sel pr ar)).
Proof.
  intros HJ. destruct (joined_stream _ _ _ _ _ _ _ _ HJ) as [[rest Hp] Hall].
  destruct HJ as [[Sa Sb] (F1&F2&F3) (inc_a&ar_b&Ra&Rb) _ _ _ _].
  destruct (pg_out _ _ _ _ (run_progress _ _ _ _ Sa Ra)) as (out&lost&O1&O2&O3).
  destruct (pg_in _ _ _ _ (run_progress _ _ _ _ Sb Rb)) as (ok&bad&ds&I1&I2&I3&[]).
  rewrite F1 in O1. rewrite F3 in I1. cbn in O1, I1.
  assert (ok = snd <$> take (length ok) out) as Hok.
  { rewrite fmap_take, <- O1, Hp, I1, <- !app_assoc. by rewrite take_app_length. }
  exists (take (length ok) out), ds. split_and!; [|by rewrite <- Hok|by split|].
  - intros pr. specialize (O2 pr). rewrite F2 in O2. cbn in O2. rewrite <- O2.
    etrans; [apply prefix_sel, prefix_take|by apply prefix_app_r].
  - intros Hst pr. pose proof (Hall Hst) as Hs. destruct Hst as [[Da Db] Hw _ _ Hi].
    specialize (O2 pr). rewrite F2, Hw, (O3 Da) in O2. unfold nothing in O2. rewrite !app_nil_r in O2. cbn in O2.
    rewrite Hi, (I3 Db), !app_nil_r in I1. rewrite take_ge; [exact O2|].
    rewrite <- (length_fmap snd), <- O1, <- Hs, I1. done.
Qed.

(** C24: the messages a protocol sends over a stream come out at the handlers of the other end as they
    went in, when the sender compresses them and the receiver decompresses them: at each priority
    the messages received are the first of those sent, in order, none twice and none altered,
    whatever the two ends and the two handles of the stream did in between, and all of them once
    nothing is on the way and neither end is dead; in both directions of the stream. The messages
    are at most [MAX_UNCOMPRESSED_LEN] (8 MiB) long: the receiver refuses longer ones. The
    frames of the two handles cross the connection in order. *)
Theorem messages_end_to_end `{SL : SnapLaws} opener (a0 a b0 b : SU) (y : Stream_) ar inc (xs : Priority → list bytes) :
  joined opener a0 a b0 b y ar inc → (∀ d, before b0 d = decompress d) →
  (∀ pr, messages (sel pr ar) = compress <$> xs pr) →
  (∀ pr, Forall (λ x, len x <= MAX_UNCOMPRESSED_LEN) (xs pr)) →
  ∃ plain : list (Priority * bytes), (∀ pr, sel pr plain `prefix_of` xs pr) ∧ received b0 b (snd <$> plain) ∧
    (settled opener a b y → ∀ pr, sel pr plain = xs pr).
Proof.
  intros HJ Hb Hx Hl. destruct (joined_frames opener a0 a b0 b y ar inc HJ) as (frames&ds&H1&H2&H3&H4).
  rewrite (mapM_pointwise _ decompress) in H2 by done.
  destruct (mapM_sel _ _ _ H2) as [M1 M2]. exists (with_values frames ds). rewrite M2.
  assert (∀ pr n, sel pr frames = compress <$> take n (xs pr) → sel pr (with_values frames ds) = take n (xs pr)) as HS.
  { intros pr n Hn. pose proof (M1 pr) as Hm. rewrite Hn, mapM_undo in Hm; [by injection Hm|].
    apply Forall_take. eapply Forall_impl; [apply Hl|]. intros x Hlen. by apply compress_roundtrip. }
  split_and!; [|done|].
  - intros pr. specialize (H1 pr). rewrite Hx in H1. apply prefix_fmap_inv in H1 as [n Hn].
    rewrite (HS pr n Hn). apply prefix_take.
  - intros Hst pr. rewrite (HS pr (length (xs pr))); [by rewrite take_ge|]. by rewrite take_ge, <- Hx, H4 by done.
Qed.

End Flow.

(** ** A run: two messages, one of them of high priority, cross compressed *)

Definition undo (d : bytes) : ErrorKind + bytes := match decompress d with Some x => inr x | None => inl KInvalidData end.

Definition flow_end (high normal : list (ProtocolEvent unit)) (t : TestPipe) : DemoSubstream :=
  Substream_build 0 7 demo_context SessionConfig_default false (mkSlotSender [] 2 false)
    (mkTwoQueues high normal false) (Some (Buffer_new (mkSlotSender [] 5 false)))
    (Some (Buffer_new (mkSlotSender [] 5 false))) (Some undo) t.

Definition flow_messages (pr : Priority) : list bytes := match pr with High => [demo_b] | Normal => [demo_a] end.
Definition flow_arrivals : list (Priority * ProtocolEvent unit) :=
  [(Normal, PeMessage (compress demo_a)); (High, PeMessage (compress demo_b))].
Definition empty_pipe : TestPipe := mkTestPipe [] [] None None.
Definition sender_end : DemoSubstream :=
  (substream_poll_next true (substream_poll_next true (flow_end [PeMessage (compress demo_b)] [PeMessage (compress demo_a)] empty_pipe)).1).1.
Definition receiver_end : DemoSubstream :=
  (substream_poll_next true (substream_poll_next true (flow_end [] [] (mkTestPipe [] [compress demo_b; compress demo_a] None None))).1).1.

(** A codec with one byte of length. *)
Fixpoint split_messages (fuel : nat) (l : bytes) : list bytes :=
  match fuel, l with
  | S fuel, n :: rest =>
      let n := Z.to_nat (byte_val n) in
      if decide (n <= length rest)%nat then take n rest :: split_messages fuel (drop n rest) else []
  | _, _ => []
  end.

#[export] Instance byte_codec : MessageCodec := {
  mc_fits m := len m < 256;
  mc_encode m := byte_of (len m) :: m;
  mc_decode l := split_messages (length l) l;
}.

Lemma length_byte (m : bytes) : len m < 256 → Z.to_nat (byte_val (byte_of (len m))) = length m.
Proof.
  intros Hm. rewrite byte_val_of, Z.mod_small by (pose proof (len_nonneg m); lia). unfold len. by rewrite Nat2Z.id.
Qed.

Lemma split_prefix ms p fuel : Forall mc_fits ms → p `prefix_of` concat (mc_encode <$> ms) →
  split_messages fuel p `prefix_of` ms.
Proof.
  intros Hms. revert p fuel. induction Hms as [|m ms Hm _ IH]; intros p fuel Hp.
  - cbn in Hp. apply prefix_nil_inv in Hp as ->. destruct fuel; apply prefix_nil.
  - destruct p as [|b p]; [destruct fuel; apply prefix_nil|]. destruct fuel as [|fuel]; [apply prefix_nil|].
    cbn in Hp. apply prefix_cons_inv_1 in Hp as Hb. apply prefix_cons_inv_2 in Hp. subst b. cbn [split_messages].
    rewrite length_byte by done. case_decide as Hl; [|apply prefix_nil].
    destruct Hp as [r Hr]. assert (take (length m) p = m) as Ht.
    { apply (f_equal (take (length m))) in Hr. by rewrite take_app_length, take_app_le in Hr. }
    rewrite Ht. apply prefix_cons, IH. exists r. apply (f_equal (drop (length m))) in Hr.
    by rewrite drop_app_length, drop_app_le in Hr.
Qed.

Lemma split_all ms fuel : Forall mc_fits ms → (length (concat (mc_encode <$> ms)) <= fuel)%nat →
  split_messages fuel (concat (mc_encode <$> ms)) = ms.
Proof.
  intros Hms. revert fuel. induction Hms as [|m ms Hm _ IH]; intros fuel Hf; [by destruct fuel|].
  destruct fuel as [|fuel]; [cbn in Hf; lia|]. cbn in Hf |- *. rewrite length_app in Hf.
  rewrite length_byte by done. case_decide as Hd; [|rewrite length_app in Hd; lia].
  rewrite take_app_length, drop_app_length. f_equal. apply IH. cbn. lia.
Qed.

#[export] Instance byte_codec_laws : MessageCodecLaws.
Proof. split; [intros ms p; apply split_prefix|intros ms Hms; by apply split_all]. Qed.

(** The handles: the opener writes both messages at once, the frame crosses, the other side reads. *)
Definition flow_wire : bytes := concat (mc_encode <$> [compress demo_b; compress demo_a]).
Definition mux_wrote : side :=
  let h := sd_h (sy_a YamuxFlow.demo_start) in
  mkSide (poll_write 0%nat flow_wire h).1 ([] ++ written flow_wire (poll_write 0%nat flow_wire h).2) [].
Definition mux_delivered : side :=
  let h := sd_h (sy_b YamuxFlow.demo_start) in
  mkSide (set_frame_receiver (mkQueueReceiver [new_data 1 1 flow_wire] false false) h) [] [].
Definition mux_read : side :=
  let h := sd_h mux_delivered in mkSide (poll_read 100 h).1 [] ([] ++ read_bytes (poll_read 100 h).2).
Definition mux_end := YamuxFlow.mkSys mux_wrote mux_read [] ([] ++ new_frames (sd_h mux_delivered) (sd_h mux_read)).

Lemma mux_end_reached : mux_reaches mux_end.
Proof.
  exists 1, INITIAL_STREAM_WINDOW, INITIAL_STREAM_WINDOW, demo_es, demo_fr, YamuxFlow.demo_start.
  split_and!; try done.
  eapply rtc_l; [eapply (ss_op_a _ _ _ _ mux_wrote), (so_write (sy_a YamuxFlow.demo_start) 0%nat flow_wire)|].
  eapply rtc_l; [eapply (ss_deliver_b _ _ (new_data 1 1 flow_wire) [] _
    (mkQueueReceiver [new_data 1 1 flow_wire] false false)); vm_compute; reflexivity|].
  apply rtc_once. eapply (ss_op_b _ mux_delivered _ _ mux_read), (so_read mux_delivered 100). lia.
Qed.

Lemma flow_joined : joined true (flow_end [] [] empty_pipe) sender_end (flow_end [] [] empty_pipe) receiver_end mux_end
  flow_arrivals [compress demo_b; compress demo_a].
Proof.
  split; [split; split; by eexists|by split_and!; [|intros []|]| |apply mux_end_reached| |exists []; by vm_compute|by vm_compute].
  2:{ repeat constructor; by vm_compute. }
  exists [], []. split.
  - apply run_poll; [apply run_poll; [|done..]|by vm_compute..].
    apply (run_arrives _ [] [] flow_arrivals [] (flow_end [] [] empty_pipe)); [constructor|]. split; try done; by intros [].
  - apply run_poll; [apply run_poll; [|done..]|by vm_compute..].
    apply (run_arrives _ [] [] [] [compress demo_b; compress demo_a] (flow_end [] [] empty_pipe)); [constructor|].
    split; try done; by intros [].
Qed.

Example flow_received : handler_sent (su_service_proto_sender receiver_end) = [SvReceived 4 demo_b; SvReceived 4 demo_a].
Proof. by vm_compute. Qed.

Lemma messages_end_to_end_witness :
  settled true sender_end receiver_end mux_end ∧
  ∃ plain : list (Priority * bytes), (∀ pr, sel pr plain `prefix_of` flow_messages pr) ∧
    received (flow_end [] [] empty_pipe) receiver_end (snd <$> plain) ∧
    (settled true sender_end receiver_end mux_end → ∀ pr, sel pr plain = flow_messages pr).
Proof.
  split; [split; [by split|by intros []|by vm_compute|by split; vm_compute|by vm_compute]|].
  apply (messages_end_to_end true (flow_end [] [] empty_pipe) sender_end (flow_end [] [] empty_pipe) receiver_end
    mux_end flow_arrivals [compress demo_b; compress demo_a] flow_messages).
  - apply flow_joined.
  - intros d. unfold before. cbn. unfold undo. by destruct (decompress d).
  - by intros [].
  - intros []; (constructor; [by vm_compute|constructor]).
Defined.
