(* ===== verification/SharedState.v ===== *)
(** * State shared by the handlers of a connector ([connector/src/shared.rs],
    [simple_protocol_handler.rs], [simple_service_handler.rs])

    The open sessions with their mailboxes, the index from peers to sessions, and the callbacks
    that keep them. *)

From Stdlib Require Import ZArith Lia Bool.
From Stdlib Require Import Strings.String.
From stdpp Require Import base list gmap relations.
From S2P Require Import Prelude Text Messages SecioHandshake PeerId.

Open Scope Z_scope.

(** ** The shared state *)

Record SessionContext := mkSessionContext {
  cx_id : Z; cx_address : bytes; cx_outbound : bool; cx_remote_pubkey : option PublicKey }.

#[export] Instance SessionContext_eq_dec : EqDecision SessionContext.
Proof. solve_decision. Defined.

(** A mailbox is the queue of its channel; both ends of it are kept together. *)
Abbreviation NetworkInfo := (SessionContext * gmap Z (list bytes))%type.

Record SharedState := mkShared {
  session_manager : gmap Z NetworkInfo;
  peers_to_sessions : gmap bytes (list Z);
}.

Inductive IdentifySessionBy := BySessionId (id : Z) | ByMultiaddr (addr : bytes) | ByPeerId (peer : bytes).

Section Shared.
Context (peer_of : PublicKey → bytes).

Definition SharedState_new : SharedState := mkShared ∅ ∅.

Definition add_session (session : SessionContext) (st : SharedState) : SharedState :=
  let peers :=
    match cx_remote_pubkey session with
    | Some key =>
        <[peer_of key := default [] (peers_to_sessions st !! peer_of key) ++ [cx_id session]]> (peers_to_sessions st)
    | None => peers_to_sessions st
    end in
  let sessions :=
    match session_manager st !! cx_id session with
    | Some _ => session_manager st
    | None => <[cx_id session := (session, ∅)]> (session_manager st)
    end in
  mkShared sessions peers.

Definition remove_session (id : Z) (st : SharedState) : SharedState * option SessionContext :=
  let session := fst <$> session_manager st !! id in
  let sessions := delete id (session_manager st) in
  let peers :=
    match session with
    | Some s =>
        match cx_remote_pubkey s with
        | Some key =>
            let peer := peer_of key in
            let peers := alter (filter (λ x, x ≠ cx_id s)) peer (peers_to_sessions st) in
            match peers !! peer with
            | Some v => if is_empty v then delete peer peers else peers
            | None => peers
            end
        | None => peers_to_sessions st
        end
    | None => peers_to_sessions st
    end in
  (mkShared sessions peers, session).

Definition get_peer_sessions (peer : bytes) (st : SharedState) : list SessionContext :=
  omap (λ id, fst <$> session_manager st !! id) (default [] (peers_to_sessions st !! peer)).

(** The order of [values()] is that of the finite map. *)
Definition get_network_info (id : IdentifySessionBy) (st : SharedState) : option NetworkInfo :=
  match id with
  | ByMultiaddr addr => List.find (λ i, bool_decide (cx_address i.1 = addr)) (map_to_list (session_manager st)).*2
  | BySessionId id => session_manager st !! id
  | ByPeerId peer =>
      session ← head (get_peer_sessions peer st);
      session_manager st !! cx_id session
  end.

Definition get_session (id : IdentifySessionBy) (st : SharedState) : option SessionContext :=
  fst <$> get_network_info id st.

Definition add_protocol (session : SessionContext) (protocol_id : Z) (st : SharedState) : SharedState :=
  let '(s, mailbox) := default (session, ∅) (session_manager st !! cx_id session) in
  mkShared (<[cx_id session := (s, <[protocol_id := []]> mailbox)]> (session_manager st)) (peers_to_sessions st).

Definition remove_protocol (session_id protocol_id : Z) (st : SharedState) : SharedState :=
  mkShared (alter (λ i, (i.1, delete protocol_id i.2)) session_id (session_manager st)) (peers_to_sessions st).

(** The mailbox of a protocol; sending into it and receiving from it act on this queue. *)
Definition get_protocol_mailbox (session : IdentifySessionBy) (protocol_id : Z) (st : SharedState) : option (list bytes) :=
  i ← get_network_info session st; i.2 !! protocol_id.

Definition get_opened_protocol_ids (session : IdentifySessionBy) (st : SharedState) : option (list Z) :=
  (λ i, (map_to_list i.2).*1) <$> get_network_info session st.

Definition get_sessions (st : SharedState) : list SessionContext := (map_to_list (session_manager st)).*2.*1.

(** ** The callbacks *)

Inductive ServiceEvent := SessionOpen (s : SessionContext) | SessionClose (s : SessionContext) | OtherEvent.

(** [SimpleServiceHandler::handle_event]: [None] is the panic of [unimplemented!]. *)
Definition handle_event (e : ServiceEvent) (st : SharedState) : option SharedState :=
  match e with
  | SessionOpen s => Some (add_session s st)
  | SessionClose s => Some (remove_session (cx_id s) st).1
  | OtherEvent => None
  end.

(** [SimpleProtocolHandler] *)
Definition connected (s : SessionContext) (proto : Z) (st : SharedState) : SharedState := add_protocol s proto st.
Definition disconnected (s : SessionContext) (proto : Z) (st : SharedState) : SharedState := remove_protocol (cx_id s) proto st.

(** [None] is the panic for a protocol that has no mailbox. *)
Definition received (s : SessionContext) (proto : Z) (data : bytes) (st : SharedState) : option SharedState :=
  '(c, mailbox) ← session_manager st !! cx_id s;
  q ← mailbox !! proto;
  Some (mkShared (<[cx_id s := (c, <[proto := q ++ [data]]> mailbox)]> (session_manager st)) (peers_to_sessions st)).

(** ** The index agrees with the sessions *)

Definition session_peer (s : SessionContext) : option bytes := peer_of <$> cx_remote_pubkey s.

(** The sessions of [K] are the ones that were added with [add_session]. *)
Definition indexed (K : SessionContext → bool) (s : SessionContext) : option bytes := if K s then session_peer s else None.

Definition shared_ok_for (K : SessionContext → bool) (st : SharedState) : Prop :=
  (∀ i s mb, session_manager st !! i = Some (s, mb) → cx_id s = i) ∧
  (∀ p, peers_to_sessions st !! p ≠ Some []) ∧
  (∀ p i, i ∈ default [] (peers_to_sessions st !! p) ↔
    ∃ s mb, session_manager st !! i = Some (s, mb) ∧ indexed K s = Some p).

(** The callbacks in the order the service makes them: a session is opened under an identifier
    that is not in use, and protocols are opened and closed on open sessions. *)
Inductive shared_step : SharedState → SharedState → Prop :=
| sh_open s st : session_manager st !! cx_id s = None →
    shared_step st (add_session s st)
| sh_close i st : shared_step st (remove_session i st).1
| sh_connected s mb proto st : session_manager st !! cx_id s = Some (s, mb) →
    shared_step st (connected s proto st)
| sh_disconnected s proto st : shared_step st (disconnected s proto st)
| sh_received s proto data st st' : received s proto data st = Some st' → shared_step st st'.

Section Index.
Context (K : SessionContext → bool).
Abbreviation shared_ok := (shared_ok_for K).

(** Changing mailboxes only keeps the index right. *)
Definition same_sessions (m m' : gmap Z NetworkInfo) : Prop := ∀ i, fst <$> m' !! i = fst <$> m !! i.

Lemma same_sessions_ok m m' peers :
  same_sessions m m' → shared_ok (mkShared m peers) → shared_ok (mkShared m' peers).
Proof.
  intros Hs (H1 & H2 & H3). unfold shared_ok_for in *. cbn in *.
  assert (∀ i s, (∃ mb, m' !! i = Some (s, mb)) ↔ ∃ mb, m !! i = Some (s, mb)) as Hiff.
  { intros i s. specialize (Hs i). split; intros [mb Hm]; rewrite Hm in Hs; cbn in Hs.
    - destruct (m !! i) as [[s1 mb1]|]; [|done]. injection Hs as ->. eauto.
    - destruct (m' !! i) as [[s1 mb1]|]; [|done]. injection Hs as ->. eauto. }
  split_and!; [|done|].
  - intros i s mb Hm. destruct (proj1 (Hiff i s)) as [mb' Hm']; [eauto|]. by eapply H1.
  - intros p i. rewrite H3. split; intros (s & mb & Hm & Hp); [destruct (proj2 (Hiff i s))|destruct (proj1 (Hiff i s))]; eauto.
Qed.

Lemma add_session_ok s st : K s = true → session_manager st !! cx_id s = None → shared_ok st → shared_ok (add_session s st).
Proof.
  intros HK Hf (H1 & H2 & H3). unfold add_session. rewrite Hf. unfold shared_ok_for. cbn [session_manager peers_to_sessions].
  split_and!.
  - intros i s' mb [[<- [= <- _]]|[_ Hm]]%lookup_insert_Some; [done|by eapply H1].
  - intros p. destruct (cx_remote_pubkey s) as [key|]; [|apply H2].
    intros [[_ H]|[_ H]]%lookup_insert_Some; [by apply app_eq_nil in H as [_ H]|by eapply H2].
  - intros p i.
    assert ((∃ s' mb, <[cx_id s:=(s, ∅)]> (session_manager st) !! i = Some (s', mb) ∧ indexed K s' = Some p)
      ↔ (i = cx_id s ∧ session_peer s = Some p) ∨ i ∈ default [] (peers_to_sessions st !! p)) as ->.
    { rewrite H3. split.
      - intros (s' & mb & [[<- [= <- _]]|[_ Hm]]%lookup_insert_Some & Hp); [left; unfold indexed in Hp; by rewrite HK in Hp|right; eauto].
      - intros [[-> Hp]|(s' & mb & Hm & Hp)].
        + exists s, ∅. rewrite lookup_insert_eq. unfold indexed. by rewrite HK.
        + exists s', mb. rewrite lookup_insert_ne; [done|]. intros <-. by rewrite Hf in Hm. }
    unfold session_peer. destruct (cx_remote_pubkey s) as [key|]; cbn [fmap option_fmap option_map].
    + destruct (decide (p = peer_of key)) as [->|Hne].
      * rewrite lookup_insert_eq. cbn [default from_option id]. rewrite elem_of_app, list_elem_of_singleton. naive_solver.
      * rewrite lookup_insert_ne by done. naive_solver.
    + naive_solver.
Qed.

(** The index of one peer after a removal: the identifier is gone, empty lists too. *)
Definition unlist (p : bytes) (id : Z) (m : gmap bytes (list Z)) : gmap bytes (list Z) :=
  let m' := alter (filter (λ x, x ≠ id)) p m in
  match m' !! p with Some v => if is_empty v then delete p m' else m' | None => m' end.

Lemma unlist_lookup p id m q : default [] (unlist p id m !! q) =
  if decide (q = p) then filter (λ x, x ≠ id) (default [] (m !! p)) else default [] (m !! q).
Proof.
  unfold unlist. rewrite lookup_alter_eq. case_decide as Hq; [subst q|].
  - destruct (m !! p) as [v|] eqn:E; cbn; [|by rewrite lookup_alter_eq, E].
    destruct (filter (λ x, x ≠ id) v) as [|y w] eqn:Ef; cbn.
    + by rewrite lookup_delete_eq.
    + rewrite lookup_alter_eq, E. cbn. by rewrite Ef.
  - destruct (m !! p) as [v|]; cbn; [|by rewrite lookup_alter_ne].
    destruct (is_empty _); [rewrite lookup_delete_ne by done|]; by rewrite lookup_alter_ne.
Qed.

Lemma unlist_not_empty p id m : (∀ q, m !! q ≠ Some []) → ∀ q, unlist p id m !! q ≠ Some [].
Proof.
  intros Hm q. unfold unlist. rewrite lookup_alter_eq.
  destruct (m !! p) as [v|] eqn:E; cbn.
  - destruct (filter (λ x, x ≠ id) v) as [|y w] eqn:Ef; cbn.
    + destruct (decide (q = p)) as [->|]; [by rewrite lookup_delete_eq|].
      rewrite lookup_delete_ne, lookup_alter_ne by done. apply Hm.
    + destruct (decide (q = p)) as [->|]; [rewrite lookup_alter_eq, E; cbn; by rewrite Ef|].
      rewrite lookup_alter_ne by done. apply Hm.
  - destruct (decide (q = p)) as [->|]; [by rewrite lookup_alter_eq, E|].
    rewrite lookup_alter_ne by done. apply Hm.
Qed.

Lemma remove_session_ok i st : shared_ok st → shared_ok (remove_session i st).1.
Proof.
  intros (H1 & H2 & H3). unfold remove_session. cbn [fst].
  assert (∀ j s mb, delete i (session_manager st) !! j = Some (s, mb) ↔
    j ≠ i ∧ session_manager st !! j = Some (s, mb)) as Hd.
  { intros j s mb. rewrite lookup_delete_Some. naive_solver. }
  destruct (session_manager st !! i) as [[s mb]|] eqn:Ei; cbn [fmap option_fmap option_map fst].
  2:{ unfold shared_ok_for. cbn. split_and!; [|done|].
      - intros j s mb [_ Hm]%Hd. by eapply H1.
      - intros p j. rewrite H3. setoid_rewrite Hd. split; [|naive_solver].
        intros (s & mb & Hm & Hp). exists s, mb. split_and!; [|done..]. intros ->. by rewrite Ei in Hm. }
  pose proof (H1 _ _ _ Ei) as Hid. destruct (cx_remote_pubkey s) as [key|] eqn:Ek.
  - rewrite Hid. fold (unlist (peer_of key) i (peers_to_sessions st)).
    unfold shared_ok_for. cbn [session_manager peers_to_sessions]. split_and!.
    + intros j s' mb' [_ Hm]%Hd. by eapply H1.
    + by apply unlist_not_empty.
    + intros p j. rewrite unlist_lookup. setoid_rewrite Hd. case_decide as Hp; [subst p|].
      * rewrite list_elem_of_filter, H3. naive_solver.
      * rewrite H3. split; [|naive_solver]. intros (s' & mb' & Hm & Hp'). exists s', mb'.
        split_and!; [|done..]. intros ->. rewrite Ei in Hm. injection Hm as <- _.
        unfold indexed, session_peer in Hp'. rewrite Ek in Hp'. cbn in Hp'. destruct (K s); congruence.
  - unfold shared_ok_for. cbn [session_manager peers_to_sessions]. split_and!; [|done|].
    + intros j s' mb' [_ Hm]%Hd. by eapply H1.
    + intros p j. rewrite H3. setoid_rewrite Hd. split; [|naive_solver].
      intros (s' & mb' & Hm & Hp). exists s', mb'. split_and!; [|done..]. intros ->.
      rewrite Ei in Hm. injection Hm as <- _. unfold indexed, session_peer in Hp. rewrite Ek in Hp. by destruct (K s).
Qed.

(** The callbacks of protocols change mailboxes, or bring in a session that is not indexed. *)
Lemma connected_ok s proto st : (∃ mb, session_manager st !! cx_id s = Some (s, mb)) ∨ (K s = false ∧ session_manager st !! cx_id s = None) →
  shared_ok st → shared_ok (connected s proto st).
Proof.
  intros Hs Hok. unfold connected, add_protocol. destruct Hs as [[mb Hs]|[HK Hs]]; rewrite Hs; cbn [default from_option id].
  - destruct st as [m peers]. eapply same_sessions_ok; [|exact Hok]. intros j. cbn in *.
    destruct (decide (j = cx_id s)) as [->|]; [by rewrite lookup_insert_eq, Hs|by rewrite lookup_insert_ne].
  - destruct Hok as (H1 & H2 & H3). unfold shared_ok_for. cbn. split_and!; [|done|].
    + intros i s' mb [[<- [= <- _]]|[_ Hm]]%lookup_insert_Some; [done|by eapply H1].
    + intros p i. rewrite H3. split; intros (s' & mb & Hm & Hp).
      * exists s', mb. rewrite lookup_insert_ne; [done|]. intros <-. by rewrite Hs in Hm.
      * apply lookup_insert_Some in Hm as [[_ [= <- _]]|[_ Hm]]; [unfold indexed in Hp; by rewrite HK in Hp|eauto].
Qed.

Lemma disconnected_ok s proto st : shared_ok st → shared_ok (disconnected s proto st).
Proof.
  destruct st as [m peers]. intros Hok. eapply same_sessions_ok; [|exact Hok]. intros j. cbn.
  destruct (decide (j = cx_id s)) as [->|]; [|by rewrite lookup_alter_ne].
  rewrite lookup_alter_eq. by destruct (m !! cx_id s).
Qed.

Lemma shared_new_ok : shared_ok SharedState_new.
Proof.
  unfold shared_ok_for, SharedState_new. cbn. split_and!.
  - intros i s mb. by rewrite lookup_empty.
  - intros p. by rewrite lookup_empty.
  - intros p i. rewrite lookup_empty. cbn. split; [by intros ?%elem_of_nil|].
    intros (s & mb & H & _). by rewrite lookup_empty in H.
Qed.

Lemma peer_sessions_ok st p s : shared_ok st →
  s ∈ get_peer_sessions p st ↔ ∃ mb, session_manager st !! cx_id s = Some (s, mb) ∧ indexed K s = Some p.
Proof.
  intros (H1 & H2 & H3). unfold get_peer_sessions. rewrite list_elem_of_omap. split.
  - intros (i & Hi & Hs). apply H3 in Hi as (s' & mb & Hm & Hp). rewrite Hm in Hs. injection Hs as ->.
    pose proof (H1 _ _ _ Hm) as <-. eauto.
  - intros (mb & Hm & Hp). exists (cx_id s). split; [apply H3; eauto|by rewrite Hm].
Qed.

End Index.

Abbreviation shared_ok := (shared_ok_for (λ _, true)).

Lemma shared_step_ok st st' : shared_step st st' → shared_ok st → shared_ok st'.
Proof.
  intros [s st1 Hf|i st1|s mb proto st1 Hs|s proto st1|s proto data st1 st2 Hr] Hok.
  - by apply add_session_ok.
  - by apply remove_session_ok.
  - apply connected_ok; [left; eauto|done].
  - by apply disconnected_ok.
  - destruct st1 as [m peers]. unfold received in Hr. cbn in Hr.
    destruct (m !! cx_id s) as [[c mb]|] eqn:E; [|done]. cbn in Hr.
    destruct (mb !! proto); [|done]. injection Hr as <-.
    eapply same_sessions_ok; [|exact Hok]. intros j.
    destruct (decide (j = cx_id s)) as [->|]; [by rewrite lookup_insert_eq, E|by rewrite lookup_insert_ne].
Qed.

(** With the callbacks in the order the service makes them, the index from peers to sessions
    is always right: the sessions found for a peer are exactly the open sessions with its key;
    a peer is found if and only if it has one; and closing a session makes every lookup forget
    it. *)
Theorem shared_state_consistent st : rtc shared_step SharedState_new st →
  (∀ p s, s ∈ get_peer_sessions p st ↔
    ∃ mb, session_manager st !! cx_id s = Some (s, mb) ∧ session_peer s = Some p) ∧
  (∀ p, get_session (ByPeerId p) st ≠ None ↔ ∃ s, s ∈ get_peer_sessions p st) ∧
  (∀ i p s, s ∈ get_peer_sessions p (remove_session i st).1 → cx_id s ≠ i).
Proof.
  intros Hr. assert (shared_ok st) as Hok.
  { remember SharedState_new as st0. assert (shared_ok st0) by (subst; apply shared_new_ok). clear Heqst0.
    induction Hr; eauto using shared_step_ok. }
  pose proof (λ p s, peer_sessions_ok _ _ p s Hok) as Hpeer. cbn [indexed] in Hpeer. split_and!.
  - exact Hpeer.
  - intros p. unfold get_session, get_network_info.
    destruct (get_peer_sessions p st) as [|s l] eqn:E; cbn.
    + split; [done|]. by intros [s Hs%elem_of_nil].
    + split; [exists s; by left|]. intros _.
      destruct (proj1 (Hpeer p s)) as (mb & -> & _); [rewrite E; by left|done].
  - intros i p s Hs. apply (peer_sessions_ok (λ _, true)) in Hs as (mb & Hm & _); [|by apply remove_session_ok].
    unfold remove_session in Hm. cbn in Hm. by apply lookup_delete_Some in Hm as [? _].
Qed.

(** A protocol that is reported open after its session was closed brings the session back: it
    stays in the table although no close event for it will follow. *)
Lemma late_protocol_revives_session s proto st :
  session_manager (connected s proto (remove_session (cx_id s) st).1) !! cx_id s
  = Some (s, {[ proto := [] ]}).
Proof.
  unfold connected, add_protocol, remove_session. cbn. rewrite lookup_delete_eq. cbn.
  by rewrite lookup_insert_eq.
Qed.

End Shared.

Definition demo_cx : SessionContext := mkSessionContext 1 (str "/memory/1") true (Some (Secp256k1 (str "key"))).

Lemma shared_state_consistent_witness :
  let st := add_session inner demo_cx SharedState_new in
  demo_cx ∈ get_peer_sessions (str "key") st ↔
  ∃ mb, session_manager st !! cx_id demo_cx = Some (demo_cx, mb) ∧ session_peer inner demo_cx = Some (str "key").
Proof.
  intros st. apply (shared_state_consistent inner st).
  apply rtc_once. by apply sh_open.
Defined.
