(* ===== verification/SupportProtocols.v ===== *)
(** * The protocols of the network ([connector/src/support_protocols.rs])

    Identifiers, names, versions and message sizes, and what the rest of the program relies on:
    that identifiers and names do not clash and that the version lists are sorted, so that the
    protocol selection finds the highest common version. *)

From Stdlib Require Import ZArith Lia Bool.
From Stdlib Require Import Strings.String.
From stdpp Require Import base list sorting.
From S2P Require Import Prelude Text Select.

Open Scope Z_scope.

Inductive SupportProtocols :=
| Ping | Discovery | Identify | Feeler | DisconnectMessage | Sync | Relay | RelayV2 | Time | Alert.

Definition protocol_id (p : SupportProtocols) : Z :=
  match p with
  | Ping => 0 | Discovery => 1 | Identify => 2 | Feeler => 3 | DisconnectMessage => 4
  | Sync => 100 | Relay => 101 | Time => 102 | RelayV2 => 103 | Alert => 110
  end.

Definition protocol_name (p : SupportProtocols) : bytes :=
  str match p with
  | Ping => "/ckb/ping"
  | Discovery => "/ckb/discovery"
  | Identify => "/ckb/identify"
  | Feeler => "/ckb/flr"
  | DisconnectMessage => "/ckb/disconnectmsg"
  | Sync => "/ckb/syn"
  | Relay => "/ckb/rel"
  | RelayV2 => "/ckb/relay"
  | Time => "/ckb/tim"
  | Alert => "/ckb/alt"
  end.

Definition support_versions (p : SupportProtocols) : list bytes :=
  map str match p with
  | Ping | Discovery | Identify | Feeler | DisconnectMessage => ["0.0.1"; "2"]%string
  | Sync | Time | Alert => ["1"; "2"]%string
  | Relay => ["1"]%string
  | RelayV2 => ["2"]%string
  end.

Definition protocol_max_frame_length (p : SupportProtocols) : Z :=
  match p with
  | Ping => 1024
  | Discovery => 512 * 1024
  | Identify => 2 * 1024
  | Feeler => 1024
  | DisconnectMessage => 1024
  | Sync => 2 * 1024 * 1024
  | Relay | RelayV2 => 4 * 1024 * 1024
  | Time => 1024
  | Alert => 128 * 1024
  end.

(** Identifiers and names tell the protocols apart. *)
Lemma protocols_distinct p q : protocol_id p = protocol_id q ∨ protocol_name p = protocol_name q → p = q.
Proof. destruct p, q; intros [H|H]; try reflexivity; vm_compute in H; discriminate. Qed.

(** The lists are in the order the selection assumes. *)
Lemma support_versions_sorted p : StronglySorted ole (support_versions p).
Proof. destruct p; repeat constructor; vm_compute; discriminate. Qed.

(** Two nodes of any releases whose lists are these agree on the highest common version. *)
Lemma support_versions_negotiate p q :
  best_common (support_versions p) (support_versions q)
    (select_version (support_versions p) (support_versions q)).
Proof. apply select_version_best; apply support_versions_sorted. Qed.
