(* ===== verification/Node.v ===== *)
(** * The node and the connector ([p2p-node/src/{node/mod,network}.rs], [connector/src/{lib,extension}.rs])

    The callbacks of the node on the shared state, the networks with their boot nodes, and the
    connector that dials, waits for protocols, sends and receives. Messages of the crate
    [ckb_types] are an argument. What is asked of the service is recorded in order. Times are
    milliseconds. *)

From Stdlib Require Import ZArith Lia Bool.
From Stdlib Require Import Strings.String.
From stdpp Require Import base list gmap.
From S2P Require Import Prelude Text Molecule Messages SecioHandshake SecioHandshakeProofs PeerId Multiaddr MultiaddrProofs Tentacle Utils Layouts ProtocolMessages Service SharedState SupportProtocols.

Open Scope Z_scope.

(** ** Networks *)

Inductive CKBNetworkType := Mirana | Pudge | Dev.

Inductive CKBNetworkTypeError := Unknown (s : bytes).

Definition network_try_from (s : bytes) : CKBNetworkTypeError + CKBNetworkType :=
  if bool_decide (s ∈ [str "mirana"; str "ckb"; str "main"]) then inr Mirana
  else if bool_decide (s ∈ [str "pudge"; str "ckb_testnet"; str "test"]) then inr Pudge
  else if bool_decide (s ∈ [str "dev"; str "ckb_dev"]) then inr Dev
  else inl (Unknown s).

Definition into_legacy_str (n : CKBNetworkType) : bytes :=
  match n with Mirana => str "ckb" | Pudge => str "ckb_testnet" | Dev => str "ckb_dev" end.

Definition bootnode_strings (network : CKBNetworkType) : list bytes :=
  match network with
  | Mirana => map str [
      "/ip4/47.110.15.57/tcp/8114/p2p/QmXS4Kbc9HEeykHUTJCm2tNmqghbvWyYpUp6BtE5b6VrAU";
      "/ip4/13.234.144.148/tcp/8114/p2p/QmbT7QimcrcD5k2znoJiWpxoESxang6z1Gy9wof1rT1LKR";
      "/ip4/104.208.105.55/tcp/8114/p2p/QmejugEABNzAofqRhci7HAipLFvoyYKRacd272jNtnQBTE";
      "/ip4/34.64.120.143/tcp/8114/p2p/QmejEJEbDcGGMp4D6WtftMMVLkR1ZuBfMgyLFDMJymkDt6";
      "/ip4/3.218.170.86/tcp/8114/p2p/QmShw2vtVt49wJagc1zGQXGS6LkQTcHxnEV3xs6y8MAmQN";
      "/ip4/35.236.107.161/tcp/8114/p2p/QmSRj57aa9sR2AiTvMyrEea8n1sEM1cDTrfb2VHVJxnGuu";
      "/ip4/23.101.191.12/tcp/8114/p2p/QmexvXVDiRt2FBGptgK4gBJusWyyTEEaHeuCAa35EPNkZS";
      "/ip4/13.37.172.80/tcp/8114/p2p/QmXJg4iKbQzMpLhX75RyDn89Mv7N2H8vLePBR7kgZf6hYk";
      "/ip4/34.118.49.255/tcp/8114/p2p/QmeCzzVmSAU5LNYAeXhdJj8TCq335aJMqUxcvZXERBWdgS";
      "/ip4/40.115.75.216/tcp/8114/p2p/QmW3P1WYtuz9hitqctKnRZua2deHXhNePNjvtc9Qjnwp4q"]%string
  | Pudge => map str [
      "/ip4/47.111.169.36/tcp/8111/p2p/QmNQ4jky6uVqLDrPU7snqxARuNGWNLgSrTnssbRuy3ij2W";
      "/ip4/35.176.207.239/tcp/8111/p2p/QmSJTsMsMGBjzv1oBNwQU36VhQRxc2WQpFoRu1ZifYKrjZ";
      "/ip4/18.136.60.221/tcp/8111/p2p/QmTt6HeNakL8Fpmevrhdna7J4NzEMf9pLchf1CXtmtSrwb";
      "/ip4/47.74.66.72/tcp/8111/p2p/QmPhgweKm2ciYq52LjtEDmKFqHxGcg2WQ8RLCayRRycanD";
      "/ip4/47.254.175.152/tcp/8111/p2p/QmXw7RsAR9bghvW4LrjrVBEwTMbdnpTEdWEtZSVQFpUgqU";
      "/ip4/47.245.29.58/tcp/8111/p2p/QmYWiwxHasuyou5ztw5uQkHbhm6gs6RB84sbgYxZNGHgaW";
      "/ip4/47.254.234.14/tcp/8111/p2p/QmfUJGvgXRTM12rSFScXy9GyD3ssuLVSpvscP5nngbhNbU";
      "/ip4/47.89.252.15/tcp/8111/p2p/QmRcUV32qumGrhkTXCWXrMhwGZLKZTmuFzLWacMpSZJ3n9";
      "/ip4/39.104.177.87/tcp/8111/p2p/QmQ27jbnww6deXQiv7SmYAUBPA1S3vGcqP9aRsXa4VaXEi";
      "/ip4/13.228.149.113/tcp/8111/p2p/QmQoTR39rBkpZVgLApDGDoFnJ2YDBS9hYeiib1Z6aoAdEf"]%string
  | Dev => [str "/ip4/127.0.0.1/tcp/8114"]
  end.

Section Node.
Context `{V : Varint} `{TC : TextCodecs} `{PRM : Primitives} `{LD : DelimitedCodec}.
Context (build_discovery_get_nodes : option Z → Z → Z → bytes).

Fixpoint parse_all (l : list bytes) : option (list Multiaddr) :=
  match l with
  | [] => Some []
  | x :: rest => match from_str x with ROk a => a' ← parse_all rest; Some (a :: a') | _ => None end
  end.

(** [x.parse().unwrap()] for each; [None] is its panic. *)
Definition get_bootnodes (network : CKBNetworkType) : option (list Multiaddr) := parse_all (bootnode_strings network).

(** ** The node *)

(** What is asked of the service. *)
Inductive NodeAct :=
| NaDial (address : Multiaddr) (target : TargetProtocol)
| NaSend (session proto_id : Z) (data : bytes).

Record P2PNode := mkP2PNode {
  pn_network_type : CKBNetworkType;
  pn_shared : SharedState;
  pn_acts : list NodeAct;
}.
Definition pn_put_shared v (n : P2PNode) : P2PNode := mkP2PNode (pn_network_type n) v (pn_acts n).
Definition pn_put_acts v (n : P2PNode) : P2PNode := mkP2PNode (pn_network_type n) (pn_shared n) v.

Definition P2PNode_new (network_type : CKBNetworkType) (shared : SharedState) : P2PNode :=
  mkP2PNode network_type shared [].

(** The protocols of [build_protocol_metas], and whether their messages are compressed. *)
Definition build_protocol_metas : list (SupportProtocols * bool) := [(Identify, false); (Discovery, false); (Sync, true)].

Abbreviation NM := (M P2PNode Empty_set) (only parsing).

Definition node_act (a : NodeAct) : NM unit := modify (λ n, pn_put_acts (pn_acts n ++ [a]) n).

Fixpoint dial_all (l : list Multiaddr) : NM unit :=
  match l with [] => mret tt | node :: rest => node_act (NaDial node TpAll) ;; dial_all rest end.

Definition node_init : NM unit :=
  t ← gets pn_network_type;
  bootnodes ← or_panic (get_bootnodes t);
  dial_all bootnodes.

(** [connected_discovery]: [open] tells whether the service still takes tasks; [unwrap] panics when
    it does not. The older version of the protocol has a frame around its messages. *)
Definition connected_discovery (open : bool) (session : Z) (protocol_version : bytes) : NM unit :=
  let message := build_discovery_get_nodes None 1000 1 in
  message_bytes ← (if bool_decide (protocol_version = str "0.0.1") then or_panic (ld_encode message) else mret message);
  if open then node_act (NaSend session (protocol_id Discovery) message_bytes) else panic.

Definition node_connected (open : bool) (session : SharedState.SessionContext) (proto_id : Z) (protocol_version : bytes) : NM unit :=
  modify (λ n, pn_put_shared (add_protocol session proto_id (pn_shared n)) n) ;;
  if proto_id =? protocol_id Discovery then connected_discovery open (cx_id session) protocol_version else mret tt.

Definition node_disconnected (session : SharedState.SessionContext) (proto_id : Z) : NM unit :=
  modify (λ n, pn_put_shared (remove_protocol (cx_id session) proto_id (pn_shared n)) n).

(** [received] decodes and logs. *)
Definition node_received (session : SharedState.SessionContext) (proto_id : Z) (data : bytes) : NM unit := mret tt.

(** [handle_event]: the future of [context.disconnect(..)] is dropped without being polled, so
    nothing is asked of the service for an inbound session. *)
Definition node_handle_event (e : SharedState.ServiceEvent) : NM unit :=
  match e with
  | SessionOpen session =>
      if negb (cx_outbound session) then mret tt
      else modify (λ n, pn_put_shared (add_session from_public_key session (pn_shared n)) n)
  | SessionClose session =>
      modify (λ n, pn_put_shared (remove_session from_public_key (cx_id session) (pn_shared n)).1 n)
  | OtherEvent => mret tt
  end.

End Node.

(** ** The connector *)

Section Connector.

Record ConnectorBuilder := mkConnectorBuilder {
  cb_listening_addresses : list Multiaddr;
  cb_protocol_metas : list (Z * bytes);
  cb_send_buffer_size : Z;
  cb_recv_buffer_size : Z;
}.
Definition ConnectorBuilder_default : ConnectorBuilder :=
  mkConnectorBuilder [] [] (24 * 1024 * 1024) (24 * 1024 * 1024).
Definition cb_push_metas (metas : list (Z * bytes)) (b : ConnectorBuilder) : ConnectorBuilder :=
  mkConnectorBuilder (cb_listening_addresses b) (cb_protocol_metas b ++ metas) (cb_send_buffer_size b) (cb_recv_buffer_size b).
Definition cb_set_listening (l : list Multiaddr) (b : ConnectorBuilder) : ConnectorBuilder :=
  mkConnectorBuilder l (cb_protocol_metas b) (cb_send_buffer_size b) (cb_recv_buffer_size b).

(** The assertions of [build]. *)
Definition build_asserts (b : ConnectorBuilder) : bool :=
  bool_decide (length (cb_protocol_metas b) = length (remove_dups (cb_protocol_metas b).*2)) &&
  existsb (λ m, m.1 =? protocol_id Sync) (cb_protocol_metas b).

(** The protocols [connect] waits for: those that do not run for a short time only. *)
Definition expected_opened (protocols : list Z) : nat :=
  length (filter (λ id, id ≠ protocol_id Identify ∧ id ≠ protocol_id DisconnectMessage) protocols).

(** One turn of the loop of [connect]: whether the protocols are open. *)
Definition connect_ready (protocols : list Z) (node_addr : Multiaddr) (st : SharedState) : bool :=
  match get_opened_protocol_ids (ByMultiaddr node_addr) st with
  | Some ids => (expected_opened protocols <=? length ids)%nat
  | None => false
  end.

(** [connect] after the dial was sent: [elapsed k] and [shared k] are the time since the start and
    the shared state at turn [k]; between two turns the thread sleeps. [Some true] is [Ok],
    [Some false] the timeout, [None] that the turns did not suffice. *)
Fixpoint connect_loop (protocols : list Z) (node_addr : Multiaddr) (elapsed : nat → Z) (shared : nat → SharedState)
    (turns : nat) (k : nat) : option bool :=
  if elapsed k <=? 5000 then
    if connect_ready protocols node_addr (shared k) then Some true
    else match turns with
         | O => None
         | S n => connect_loop protocols node_addr elapsed shared n (S k)
         end
  else Some false.

Definition connect (accepted : bool) (protocols : list Z) (node_addr : Multiaddr) (elapsed : nat → Z)
    (shared : nat → SharedState) : option bool :=
  if accepted then connect_loop protocols node_addr elapsed shared 51 0 else Some false.

(** [send]: the task for the service, if the session is known. *)
Definition connector_send (session : IdentifySessionBy) (p : SupportProtocols) (data : bytes) (st : SharedState)
    : option (Z * Z * bytes) :=
  s ← get_session session st; Some (cx_id s, protocol_id p, data).

(** [recv] once a message is there: the oldest of the mailbox; [None] when the protocol is not
    open, [Some None] when it would wait. *)
Definition recv (session : IdentifySessionBy) (p : SupportProtocols) (st : SharedState) : option (option (bytes * SharedState)) :=
  '(s, mailbox) ← get_network_info session st;
  q ← mailbox !! protocol_id p;
  Some match q with
       | [] => None
       | m :: rest => Some (m, mkShared (<[cx_id s := (s, <[protocol_id p := rest]> mailbox)]> (session_manager st)) (peers_to_sessions st))
       end.

End Connector.

(** ** Properties *)

Section Proofs.
Context `{VL : VarintLaws} `{TCL : TextCodecsLaws} `{PRM : Primitives} `{LD : DelimitedCodec}.
Context (build_discovery_get_nodes : option Z → Z → Z → bytes).
Abbreviation NM := (M P2PNode Empty_set) (only parsing).

(** The names of networks can be read back. *)
Lemma legacy_roundtrip n : network_try_from (into_legacy_str n) = inr n.
Proof. destruct n; reflexivity. Qed.

(** *** The sessions a node knows *)

(** Steps that only ask something of the service. *)
Definition asks {A} (c : NM A) : Prop := ∀ n, pn_shared (c n).1 = pn_shared n.

Lemma asks_bind {A B} (c : NM A) (k : A → NM B) : asks c → (∀ a, asks (k a)) → asks (c ≫= k).
Proof.
  intros Hc Hk n. unfold mbind, M_bind. specialize (Hc n). destruct (c n) as [n' [a| |]]; cbn in *; [by rewrite Hk|done..].
Qed.

Lemma asks_dial_all l : asks (dial_all l : NM unit).
Proof. induction l as [|a l IH]; [done|]. by apply asks_bind. Qed.

Lemma asks_or_panic {A} (o : option A) : asks (or_panic o : NM A).
Proof. by destruct o. Qed.

Lemma asks_discovery open session version : asks (connected_discovery build_discovery_get_nodes open session version : NM unit).
Proof.
  unfold connected_discovery. apply asks_bind; [destruct (bool_decide _); [apply asks_or_panic|done]|]. intros d. by destruct open.
Qed.

(** A run of the node. The contexts of the sessions are [ctx], each under its own identifier; the
    service opens every session once ([seen] are those that were opened) and closes it once after
    that ([op] are those that are open). The callbacks of the protocols run in other tasks, so
    they come at any time: also before the session was entered, and after it was closed. A
    callback that panics leaves the shared state as it was then. *)
Context (ctx : Z → SharedState.SessionContext) (Hctx : ∀ i, cx_id (ctx i) = i).

Inductive node_run (t : CKBNetworkType) : gset Z → gset Z → P2PNode → Prop :=
| nd_new : node_run t ∅ ∅ (P2PNode_new t SharedState_new)
| nd_init seen op n : node_run t seen op n → node_run t seen op ((node_init : NM unit) n).1
| nd_open seen op n i : node_run t seen op n → i ∉ seen →
    node_run t ({[i]} ∪ seen) ({[i]} ∪ op) ((node_handle_event (SessionOpen (ctx i)) : NM unit) n).1
| nd_close seen op n i : node_run t seen op n → i ∈ op →
    node_run t seen (op ∖ {[i]}) ((node_handle_event (SessionClose (ctx i)) : NM unit) n).1
| nd_other seen op n : node_run t seen op n → node_run t seen op ((node_handle_event OtherEvent : NM unit) n).1
| nd_connected seen op n open i proto version : node_run t seen op n →
    node_run t seen op ((node_connected build_discovery_get_nodes open (ctx i) proto version : NM unit) n).1
| nd_disconnected seen op n i proto : node_run t seen op n →
    node_run t seen op ((node_disconnected (ctx i) proto : NM unit) n).1
| nd_received seen op n i proto data : node_run t seen op n →
    node_run t seen op ((node_received (ctx i) proto data : NM unit) n).1.

(** The session is found under the peer. *)
Definition made_to (op : gset Z) (p : bytes) (i : Z) : Prop :=
  i ∈ op ∧ cx_outbound (ctx i) = true ∧ session_peer from_public_key (ctx i) = Some p.

Record node_inv (seen op : gset Z) (st : SharedState) : Prop := {
  ni_ctx : ∀ i s mb, session_manager st !! i = Some (s, mb) → s = ctx i;
  ni_index : ∀ p i, i ∈ default [] (peers_to_sessions st !! p) ↔ made_to op p i;
  ni_held : ∀ i, i ∈ op → cx_outbound (ctx i) = true → is_Some (session_manager st !! i);
  ni_seen : op ⊆ seen;
}.

Lemma open_inv seen op st i : i ∉ seen → cx_outbound (ctx i) = true → node_inv seen op st →
  node_inv ({[i]} ∪ seen) ({[i]} ∪ op) (add_session from_public_key (ctx i) st).
Proof.
  intros Hi Ho [I1 I2 I3 I4]. assert (Hop : i ∉ op) by set_solver. split.
  - intros j s mb. unfold add_session. cbn [session_manager]. rewrite Hctx.
    destruct (session_manager st !! i); [apply I1|]. intros [[<- [= <- _]]|[_ Hm]]%lookup_insert_Some; [done|by eapply I1].
  - intros p j. assert (made_to ({[i]} ∪ op) p j ↔ (j = i ∧ session_peer from_public_key (ctx i) = Some p) ∨ made_to op p j) as ->.
    { unfold made_to. rewrite elem_of_union, elem_of_singleton. naive_solver. }
    rewrite <- I2. unfold add_session, session_peer. cbn [peers_to_sessions]. rewrite Hctx.
    destruct (cx_remote_pubkey (ctx i)) as [key|]; cbn [fmap option_fmap option_map]; [|naive_solver].
    destruct (decide (p = from_public_key key)) as [->|Hne].
    + rewrite lookup_insert_eq. cbn [default from_option id]. rewrite elem_of_app, list_elem_of_singleton. naive_solver.
    + rewrite lookup_insert_ne by done. naive_solver.
  - intros j Hj Hjo. unfold add_session. cbn [session_manager]. rewrite Hctx.
    destruct (decide (j = i)) as [->|Hne].
    + destruct (session_manager st !! i) eqn:E; [by rewrite E|]. by rewrite lookup_insert_eq.
    + assert (is_Some (session_manager st !! j)) as Hs by (apply I3; [set_solver|done]).
      destruct (session_manager st !! i); [done|]. by rewrite lookup_insert_ne.
  - set_solver.
Qed.

Lemma close_inv seen op st i : node_inv seen op st →
  node_inv seen (op ∖ {[i]}) (remove_session from_public_key i st).1.
Proof.
  intros [I1 I2 I3 I4]. assert (Hm : ∀ p j, made_to (op ∖ {[i]}) p j ↔ made_to op p j ∧ j ≠ i)
    by (intros p j; unfold made_to; set_solver).
  split; [| | |set_solver].
  - intros j s mb. unfold remove_session. cbn. intros [_ Hj]%lookup_delete_Some. by eapply I1.
  - intros p j. rewrite Hm, <- I2. unfold remove_session. cbn [fst peers_to_sessions].
    destruct (session_manager st !! i) as [[s mb]|] eqn:Ei; cbn [fmap option_fmap option_map fst].
    + apply I1 in Ei as ->. destruct (cx_remote_pubkey (ctx i)) as [key|] eqn:Ek.
      * rewrite Hctx. fold (unlist (from_public_key key) i (peers_to_sessions st)). rewrite unlist_lookup.
        case_decide as Hp; [subst p; rewrite list_elem_of_filter; naive_solver|].
        split; [|naive_solver]. intros Hj. split; [done|]. intros ->. apply I2 in Hj as (_ & _ & Hj).
        unfold session_peer in Hj. rewrite Ek in Hj. cbn in Hj. congruence.
      * split; [|naive_solver]. intros Hj. split; [done|]. intros ->. apply I2 in Hj as (_ & _ & Hj).
        unfold session_peer in Hj. by rewrite Ek in Hj.
    + split; [|naive_solver]. intros Hj. split; [done|]. intros ->. apply I2 in Hj as (Hj & Ho & _).
      destruct (I3 i Hj Ho) as [x Hx]. congruence.
  - intros j Hj Ho. unfold remove_session. cbn. rewrite lookup_delete_ne by set_solver. apply I3; [set_solver|done].
Qed.

Lemma protocol_inv seen op st st' : node_inv seen op st → peers_to_sessions st' = peers_to_sessions st →
  (∀ i s mb, session_manager st' !! i = Some (s, mb) → s = ctx i) →
  (∀ i, is_Some (session_manager st !! i) → is_Some (session_manager st' !! i)) → node_inv seen op st'.
Proof. intros [I1 I2 I3 I4] Hp Hs Hk. split; [done|by rewrite Hp|auto|done]. Qed.

Lemma connected_inv seen op st i proto : node_inv seen op st → node_inv seen op (add_protocol (ctx i) proto st).
Proof.
  intros Hi. pose proof (ni_ctx _ _ _ Hi) as I1. unfold add_protocol. rewrite Hctx.
  destruct (session_manager st !! i) as [[s mb]|] eqn:E; cbn [default from_option id];
    (eapply protocol_inv; [exact Hi|done|..]; cbn [session_manager]).
  1, 3: intros j s' mb' [[<- [= <- _]]|[_ Hm]]%lookup_insert_Some; [first [done|by eapply I1]|by eapply I1].
  all: intros j Hj; destruct (decide (j = i)) as [->|]; [by rewrite lookup_insert_eq|by rewrite lookup_insert_ne].
Qed.

Lemma disconnected_inv seen op st i proto : node_inv seen op st → node_inv seen op (remove_protocol i proto st).
Proof.
  intros Hi. pose proof (ni_ctx _ _ _ Hi) as I1. eapply protocol_inv; [exact Hi|done|..]; cbn.
  - intros j s mb. rewrite lookup_alter_Some. intros [(-> & [s' mb'] & Hm & [= -> _])|[_ Hm]]; by eapply I1.
  - intros j Hj. destruct (decide (j = i)) as [->|]; [|by rewrite lookup_alter_ne].
    rewrite lookup_alter_eq. by apply fmap_is_Some.
Qed.

Lemma run_node_inv t seen op n : node_run t seen op n → node_inv seen op (pn_shared n).
Proof.
  induction 1 as [|seen op n _ IH|seen op n i _ IH Hi|seen op n i _ IH Hi|seen op n _ IH|
    seen op n open i proto version _ IH|seen op n i proto _ IH|seen op n i proto data _ IH]; try done.
  - split; cbn; [intros i s mb; by rewrite lookup_empty| |set_solver..].
    intros p i. rewrite lookup_empty. cbn. unfold made_to. set_solver.
  - replace (pn_shared _) with (pn_shared n); [done|]. symmetry.
    apply (asks_bind (gets pn_network_type)); [done|]. intros t'. apply asks_bind; [apply asks_or_panic|]. apply asks_dial_all.
  - cbn. destruct (cx_outbound (ctx i)) eqn:E; cbn; [by apply open_inv|].
    destruct IH as [I1 I2 I3 I4]. split; [done| | |set_solver].
    + intros p j. rewrite I2. unfold made_to. rewrite elem_of_union, elem_of_singleton. naive_solver congruence.
    + intros j Hj Ho. apply I3; [|done]. assert (j ≠ i) by naive_solver congruence. set_solver.
  - cbn. rewrite Hctx. by apply close_inv.
  - unfold node_connected. pose proof (connected_inv _ _ _ i proto IH) as Hst.
    unfold mbind, M_bind. cbn [modify]. destruct (proto =? protocol_id Discovery); [|exact Hst].
    rewrite asks_discovery. exact Hst.
  - cbn. rewrite Hctx. by apply disconnected_inv.
Qed.

(** C35: in every run of the node, with the callbacks of protocols at any time, also before their
    session was entered and after it was closed, the sessions found for a peer are exactly those
    the node itself made to that peer and that the service has opened and not yet closed. Inbound
    sessions, although they stay open and their protocols are served, are not found under their
    peer; a session that a late protocol brings back into the table is not either. The service
    opens every session under an identifier of its own. *)
Theorem node_peer_sessions t seen op n p s : node_run t seen op n →
  s ∈ get_peer_sessions p (pn_shared n) ↔
    cx_id s ∈ op ∧ s = ctx (cx_id s) ∧ cx_outbound s = true ∧ session_peer from_public_key s = Some p.
Proof.
  intros Hr. apply run_node_inv in Hr as [I1 I2 I3 I4]. unfold get_peer_sessions. rewrite list_elem_of_omap. split.
  - intros (i & Hi & Hs). apply I2 in Hi as (H1 & H2 & H3). destruct (session_manager _ !! i) as [[s' mb]|] eqn:E; [|done].
    injection Hs as <-. apply I1 in E as ->. by rewrite Hctx.
  - intros (H1 & H2 & H3 & H4). exists (cx_id s). rewrite H2 in H3, H4. split; [by apply I2|].
    destruct (I3 _ H1 H3) as [[s' mb] Hs]. rewrite Hs. cbn. f_equal. apply I1 in Hs. congruence.
Qed.

(** *** Connecting *)

Definition clock (elapsed : nat → Z) : Prop := 0 <= elapsed O ∧ ∀ k, elapsed k + 100 <= elapsed (S k).

Lemma clock_ge elapsed k : clock elapsed → 100 * Z.of_nat k <= elapsed k.
Proof. intros [H0 H]. induction k as [|k IH]; [done|]. specialize (H k). lia. Qed.

Lemma clock_mono elapsed i j : clock elapsed → (i <= j)%nat → elapsed i <= elapsed j.
Proof. intros [_ H] Hij. induction Hij as [|j Hij IH]; [lia|]. specialize (H j). lia. Qed.

Lemma connect_loop_spec ps addr elapsed shared turns k : clock elapsed → (51 <= turns + k)%nat →
  ∃ b, connect_loop ps addr elapsed shared turns k = Some b ∧
    (b = true ↔ ∃ j, (k <= j)%nat ∧ elapsed j <= 5000 ∧ connect_ready ps addr (shared j) = true).
Proof.
  intros Hc. revert k. induction turns as [|turns IH]; intros k Hk; cbn [connect_loop];
    (destruct (Z.leb_spec (elapsed k) 5000) as [Ht|Ht];
     [|exists false; split; [done|]; split; [done|]; intros (j & Hj & Hl & _); pose proof (clock_mono elapsed k j Hc Hj); lia]).
  - pose proof (clock_ge elapsed k Hc). lia.
  - destruct (connect_ready ps addr (shared k)) eqn:Er; [exists true; split; [done|]; split; [exists k; auto|done]|].
    destruct (IH (S k)) as (b & E & Hb); [lia|]. exists b. split; [done|]. rewrite Hb. split; intros (j & Hj & Hl & Hr).
    + exists j. split_and!; [lia|done..].
    + exists j. split_and!; [|done..]. destruct (decide (j = k)) as [->|]; [congruence|lia].
Qed.

(** [connect] ends within 51 turns, because the thread sleeps a tenth of a second in each and
    gives up after five seconds; and it succeeds if and only if at one of its looks within this
    time a session with this very address had as many protocols open as it waits for. *)
Theorem connect_decides ps addr elapsed shared : clock elapsed →
  ∃ b, connect true ps addr elapsed shared = Some b ∧
    (b = true ↔ ∃ k, elapsed k <= 5000 ∧ connect_ready ps addr (shared k) = true).
Proof.
  intros Hc. destruct (connect_loop_spec ps addr elapsed shared 51 0 Hc) as (b & E & Hb); [lia|].
  exists b. split; [exact E|]. rewrite Hb. split; [intros (j & _ & H); eauto|intros (j & H); exists j; split; [lia|done]].
Qed.

(** The service gives a session of a node with a key an address with its peer identifier. *)
Definition has_peer (a : Multiaddr) : Prop := ∃ p, extract_peer_id a = ROk (Some p).

Lemma pushed_has_peer a ps key : parses a ps → len (sha256 (inner key)) = 32 → is_u64 (len (from_public_key key)) →
  extract_peer_id a = ROk None → has_peer (Multiaddr.push a (P2p (from_public_key key))).
Proof.
  intros Hp Hl Hs Hn. set (id := from_public_key key) in *. assert (Hpeer : peer_from_bytes id = inr id) by (by apply from_seed_checked).
  assert (Hw : proto_wf (P2p id)).
  { split; [|exact Hs]. unfold check_p2p, uvar, id, from_public_key, from_seed. rewrite vi_roundtrip by (lia || done).
    cbn -[len]. rewrite len_cons, Hl. done. }
  pose proof (parses_app _ _ _ _ Hp (parses_write _ Hw)) as Ha. exists id. unfold extract_peer_id, Multiaddr.push in *.
  rewrite (find_map_spec _ _ _ Hp) in Hn. injection Hn as Hn. rewrite (find_map_spec _ _ _ Ha), find_first_app, Hn.
  unfold find_first. cbn. by rewrite Hpeer.
Qed.

Lemma not_ready_without_session ps addr st : extract_peer_id addr = ROk None →
  (∀ i s mb, session_manager st !! i = Some (s, mb) → has_peer (cx_address s)) → connect_ready ps addr st = false.
Proof.
  intros Hn Hs. unfold connect_ready, get_opened_protocol_ids, get_network_info.
  destruct (List.find _ _) as [[s mb]|] eqn:E; [|done]. exfalso. apply List.find_some in E as [Hin Ha].
  apply bool_decide_eq_true in Ha. apply list_elem_of_In, list_elem_of_fmap in Hin as ([i [s' mb']] & [= <- <-] & Hi).
  apply elem_of_map_to_list in Hi. destruct (Hs _ _ _ Hi) as [p Hp]. cbn in Ha. rewrite Ha, Hn in Hp. discriminate.
Qed.

(** [connect] to an address without a peer identifier times out even when the session is open
    and all its protocols are: the service gives every session of an authenticated peer an
    address that ends in its identifier, and [connect] looks for a session with the address it
    was given. *)
Theorem connect_plain_address ps addr elapsed shared : clock elapsed → extract_peer_id addr = ROk None →
  (∀ k i s mb, session_manager (shared k) !! i = Some (s, mb) → has_peer (cx_address s)) →
  connect true ps addr elapsed shared = Some false.
Proof.
  intros Hc Hn Hs. destruct (connect_loop_spec ps addr elapsed shared 51 0 Hc) as (b & E & Hb); [lia|].
  unfold connect. rewrite E. f_equal. destruct b; [|done]. destruct (proj1 Hb eq_refl) as (j & _ & _ & Hr).
  rewrite not_ready_without_session in Hr; [done..|]. intros i s mb. apply Hs.
Qed.

(** *** Mailboxes *)

(** What the handler of one protocol of one session delivers and what is taken from its mailbox. *)
Inductive mailbox_run (s : SharedState.SessionContext) (p : SupportProtocols) (st0 : SharedState)
    : list bytes → list bytes → SharedState → Prop :=
| mb_start : mailbox_run s p st0 [] [] st0
| mb_received given taken st st' data : mailbox_run s p st0 given taken st →
    received s (protocol_id p) data st = Some st' → mailbox_run s p st0 (given ++ [data]) taken st'
| mb_recv given taken st st' data : mailbox_run s p st0 given taken st →
    recv (BySessionId (cx_id s)) p st = Some (Some (data, st')) → mailbox_run s p st0 given (taken ++ [data]) st'.

Definition mailbox_of (s : SharedState.SessionContext) (p : SupportProtocols) (st : SharedState) : option (list bytes) :=
  '(_, mailbox) ← session_manager st !! cx_id s; mailbox !! protocol_id p.

Lemma received_mailbox s proto data st st' : received s proto data st = Some st' →
  ∃ c mb q, session_manager st !! cx_id s = Some (c, mb) ∧ mb !! proto = Some q ∧
    session_manager st' = <[cx_id s := (c, <[proto := q ++ [data]]> mb)]> (session_manager st).
Proof.
  unfold received. destruct (session_manager st !! cx_id s) as [[c mb]|] eqn:E; [|done]. cbn.
  destruct (mb !! proto) as [q|] eqn:Eq; [|done]. cbn. intros [= <-]. by exists c, mb, q.
Qed.

(** After a protocol of a session opened, the messages taken from its mailbox are those its
    handler delivered, each once and in order; what is left is in the mailbox. *)
Theorem mailbox_in_order s p st0 given taken st : (∃ mb, session_manager st0 !! cx_id s = Some (s, mb)) →
  mailbox_run s p (connected s (protocol_id p) st0) given taken st →
  ∃ rest, given = taken ++ rest ∧ mailbox_of s p st = Some rest.
Proof.
  intros [mb0 H0] Hr.
  assert (∃ rest mb, given = taken ++ rest ∧ session_manager st !! cx_id s = Some (s, mb) ∧ mb !! protocol_id p = Some rest)
    as (rest & mb & E & Hm & Hq); [|exists rest; split; [done|]; unfold mailbox_of; by rewrite Hm].
  induction Hr as [|given taken st st' data Hr IH Hd|given taken st st' data Hr IH Hd].
  - unfold connected, add_protocol. rewrite H0. cbn. exists [], (<[protocol_id p := []]> mb0). by rewrite !lookup_insert_eq.
  - destruct IH as (rest & mb & -> & Hm & Hq). apply received_mailbox in Hd as (c & mb' & q & Hm' & Hq' & ->).
    rewrite Hm in Hm'. injection Hm' as <- <-. rewrite Hq in Hq'. injection Hq' as <-.
    exists (rest ++ [data]), (<[protocol_id p := rest ++ [data]]> mb). rewrite !lookup_insert_eq, app_assoc. done.
  - destruct IH as (rest & mb & -> & Hm & Hq). unfold recv in Hd. cbn in Hd. rewrite Hm in Hd. cbn in Hd. rewrite Hq in Hd. cbn in Hd.
    destruct rest as [|m rest]; [done|]. injection Hd as -> <-. exists rest, (<[protocol_id p := rest]> mb).
    cbn. rewrite !lookup_insert_eq, <- app_assoc. done.
Qed.

(** *** Boot nodes *)

(** An address of a boot node: four numbers, a port and, but for the local node, a peer. *)
Definition boot_parts (x : bytes) : option (bytes * bytes * option bytes) :=
  match split_on slash x with
  | [[]; _; ip; _; port; _; id] => Some (ip, port, Some id)
  | [[]; _; ip; _; port] => Some (ip, port, None)
  | _ => None
  end.
Definition boot_form (x : bytes) : bool :=
  match boot_parts x with
  | Some (ip, port, o) =>
      bool_decide (split_on slash x = [[]; str "ip4"; ip; str "tcp"; port] ++ match o with Some id => [str "p2p"; id] | None => [] end) &&
      bool_decide (is_Some (ip4_from_str ip)) && bool_decide (is_Some (parse_uint 16 port))
  | None => false
  end.

Lemma bootnodes_form n : forallb boot_form (bootnode_strings n) = true.
Proof. by destruct n; vm_compute. Qed.

(** The crate that decodes peer identifiers accepts those of the boot nodes. *)
Definition peer_accepted (x : bytes) : Prop :=
  ∀ ip port id, boot_parts x = Some (ip, port, Some id) → ∃ d, bs58_decode id = Some d ∧ check_p2p d = inr tt.

Lemma boot_parses x : boot_form x = true → peer_accepted x → ∃ a, from_str x = ROk a.
Proof.
  unfold boot_form. intros Hf Ha. unfold peer_accepted in Ha. destruct (boot_parts x) as [[[ip port] o]|]; [|done].
  apply andb_prop in Hf as [Hf Hp]. apply andb_prop in Hf as [Hf Hi].
  apply bool_decide_eq_true in Hf, Hi, Hp. destruct Hi as [[[[a b] c] d] Hi]. destruct Hp as [n Hp].
  assert (P1 : ∀ r, from_str_peek (str "ip4" :: ip :: r) = inr (Ip4 a b c d, r)).
  { intros r. unfold from_str_peek, with_arg, or_parsing. rewrite Hi. reflexivity. }
  assert (P2 : ∀ r, from_str_peek (str "tcp" :: port :: r) = inr (Tcp n, r)).
  { intros r. unfold from_str_peek, with_arg, or_parsing. rewrite Hp. reflexivity. }
  unfold from_str. rewrite Hf. destruct o as [id|]; cbn [app length from_str_loop]; rewrite P1, P2; [|by eexists].
  destruct (Ha ip port id eq_refl) as (w & Hw & Hc).
  assert (P3 : from_str_peek [str "p2p"; id] = inr (P2p w, [])).
  { unfold from_str_peek, with_arg, or_parsing. rewrite Hw, Hc. reflexivity. }
  rewrite P3. by eexists.
Qed.

(** Every boot node of every network has an address that can be parsed, so starting the node
    does not panic and dials all of them, given that their peer identifiers are accepted. *)
Theorem node_dials_bootnodes n : Forall peer_accepted (bootnode_strings (pn_network_type n)) →
  ∃ l, get_bootnodes (pn_network_type n) = Some l ∧ length l = length (bootnode_strings (pn_network_type n)) ∧
    (node_init : NM unit) n = (pn_put_acts (pn_acts n ++ map (λ a, NaDial a TpAll) l) n, ROk tt).
Proof.
  intros Ha. assert (Hp : ∃ l, get_bootnodes (pn_network_type n) = Some l ∧ length l = length (bootnode_strings (pn_network_type n))).
  { unfold get_bootnodes. pose proof (bootnodes_form (pn_network_type n)) as Hf. induction Ha as [|x xs Hx Hxs IH]; [by eexists|].
    cbn in Hf |- *. apply andb_prop in Hf as [Hf Hf']. destruct (boot_parses x Hf Hx) as [a ->]. destruct (IH Hf') as (l & -> & Hl).
    exists (a :: l). cbn. by rewrite Hl. }
  destruct Hp as (l & E & Hl). exists l. split_and!; [done|done|]. unfold node_init, mbind, M_bind. cbn. rewrite E. cbn.
  clear E Hl. revert n Ha. induction l as [|a l IH]; intros n Ha; [cbn; rewrite app_nil_r; by destruct n|].
  cbn [dial_all map]. unfold mbind, M_bind. cbn. rewrite IH by done. cbn. unfold pn_put_acts. cbn. by rewrite <- app_assoc.
Qed.

End Proofs.

(** ** Concrete runs *)

Definition node_key : PublicKey := Secp256k1 (str "key").
Definition node_session (id : Z) (outbound : bool) : SharedState.SessionContext :=
  SharedState.mkSessionContext id (demo_addr 80) outbound (Some node_key).
Definition demo_builder : option Z → Z → Z → bytes := λ _ _ _, str "get nodes".
Definition demo_p2p_node : P2PNode := P2PNode_new Dev SharedState_new.

Definition demo_ctx (i : Z) : SharedState.SessionContext := node_session i (i =? 1).
(** A protocol of session 1 opens before the session is entered. *)
Definition demo_early : P2PNode :=
  ((node_connected demo_builder true (demo_ctx 1) 100 (str "2") : M P2PNode Empty_set unit) demo_p2p_node).1.
Definition demo_opened : P2PNode :=
  ((node_handle_event (SessionOpen (demo_ctx 1)) : M P2PNode Empty_set unit) demo_early).1.

Lemma node_peer_sessions_witness :
  node_session 1 true ∈ get_peer_sessions (from_public_key node_key) (pn_shared demo_opened) ↔
    1 ∈ ({[1]} ∪ ∅ : gset Z) ∧ node_session 1 true = demo_ctx 1 ∧ cx_outbound (node_session 1 true) = true ∧
    session_peer from_public_key (node_session 1 true) = Some (from_public_key node_key).
Proof.
  apply (node_peer_sessions demo_builder demo_ctx (λ i, eq_refl) Dev ({[1]} ∪ ∅) ({[1]} ∪ ∅) demo_opened
    (from_public_key node_key) (node_session 1 true)).
  apply nd_open; [|set_solver]. apply nd_connected, nd_new.
Defined.

(** An inbound session is meant to be rejected; it stays, its protocols are served, and it is not
    found under its peer. *)
Lemma inbound_session_kept :
  let s := node_session 1 false in
  let n := ((node_handle_event (SessionOpen s) ;; node_connected demo_builder true s 100 (str "2") : M P2PNode Empty_set unit) demo_p2p_node).1 in
  pn_acts n = [] ∧ get_session (BySessionId 1) (pn_shared n) = Some s ∧
  get_session (ByPeerId (from_public_key node_key)) (pn_shared n) = None.
Proof. by vm_compute. Qed.

Definition demo_clock (k : nat) : Z := 100 * Z.of_nat k.
Lemma demo_clock_ok : clock demo_clock.
Proof. unfold clock, demo_clock. split; [done|]. intros k. lia. Qed.

(** The session opens at the third look and its protocols at the fifth. *)
Definition demo_shared (address : Multiaddr) (protocols : list Z) (k : nat) : SharedState :=
  let s := SharedState.mkSessionContext 1 address true (Some node_key) in
  let st := if (2 <=? k)%nat then add_session from_public_key s SharedState_new else SharedState_new in
  if (4 <=? k)%nat then foldl (λ st p, add_protocol s p st) st protocols else st.

Lemma connect_decides_witness :
  ∃ b, connect true [1; 2; 100] (demo_addr 80) demo_clock (demo_shared (demo_addr 80) [1; 100]) = Some b ∧
    (b = true ↔ ∃ k, demo_clock k <= 5000 ∧ connect_ready [1; 2; 100] (demo_addr 80) (demo_shared (demo_addr 80) [1; 100] k) = true).
Proof. apply (connect_decides [1; 2; 100] (demo_addr 80) demo_clock _ demo_clock_ok). Defined.

Lemma demo_shared_address a ps k i s mb : session_manager (demo_shared a ps k) !! i = Some (s, mb) → cx_address s = a.
Proof.
  set (P := λ st : SharedState, ∀ i s mb, session_manager st !! i = Some (s, mb) → cx_address s = a).
  assert (H0 : P SharedState_new) by (intros j c m Hm; cbn in Hm; by rewrite lookup_empty in Hm).
  set (c := SharedState.mkSessionContext 1 a true (Some node_key)).
  assert (H1 : P (add_session from_public_key c SharedState_new)).
  { intros j x m Hm. unfold add_session in Hm. cbn [session_manager SharedState_new] in Hm. rewrite lookup_empty in Hm. cbn [session_manager] in Hm.
    apply lookup_insert_Some in Hm as [[_ [= <- _]]|[_ Hm]]; [done|by eapply H0]. }
  assert (H2 : ∀ l st, P st → P (foldl (λ st p, add_protocol c p st) st l)).
  { induction l as [|p l IH]; intros st Hst; [done|]. apply IH. unfold add_protocol.
    destruct (session_manager st !! cx_id c) as [[x m]|] eqn:E; cbn [default from_option id];
      intros j y m' Hm; cbn [session_manager] in Hm; apply lookup_insert_Some in Hm as [[_ [= <- _]]|[_ Hm]]; [by eapply Hst|by eapply Hst|done|by eapply Hst]. }
  revert i s mb. change (P (demo_shared a ps k)). unfold demo_shared. destruct (4 <=? k)%nat, (2 <=? k)%nat; auto.
Qed.

Lemma connect_plain_address_witness :
  let stored := Multiaddr.push (demo_addr 80) (P2p (byte_of 18 :: byte_of 32 :: repeat (byte_of 5) 32)) in
  connect true [1; 2; 100] (demo_addr 80) demo_clock (demo_shared stored [1; 2; 100]) = Some false.
Proof.
  intros stored. apply (connect_plain_address [1; 2; 100] (demo_addr 80)); [exact demo_clock_ok|by vm_compute|].
  intros k i s mb Hk. rewrite (demo_shared_address _ _ _ _ _ _ Hk). eexists. by vm_compute.
Defined.

(** With the protocols of the node, [connect] succeeds while discovery is not open: the two that
    are open make up the number it waits for, although one of them is not waited for. *)
Lemma connect_before_all_open :
  connect true [1; 2; 100] (demo_addr 80) demo_clock (demo_shared (demo_addr 80) [2; 100]) = Some true ∧
  ∀ k, match get_opened_protocol_ids (ByMultiaddr (demo_addr 80)) (demo_shared (demo_addr 80) [2; 100] k) with
       | Some ids => bool_decide (1 ∈ ids) = false | None => True end.
Proof.
  split; [by vm_compute|]. intros k.
  do 4 (destruct k as [|k]; [by vm_compute|]). by vm_compute.
Qed.

Definition plain_session : SharedState.SessionContext := SharedState.mkSessionContext 1 [] true None.
Definition mail_start : SharedState := add_session from_public_key plain_session SharedState_new.
Definition mail_given (l : list bytes) : SharedState :=
  foldl (λ st d, default st (received plain_session 100 d st)) (connected plain_session 100 mail_start) l.
Definition mail_taken (st : SharedState) : SharedState :=
  match recv (BySessionId 1) Sync st with Some (Some (_, st')) => st' | _ => st end.

Lemma mailbox_in_order_witness :
  ∃ rest, [str "a"; str "b"] = [str "a"] ++ rest ∧ mailbox_of plain_session Sync (mail_taken (mail_given [str "a"; str "b"])) = Some rest.
Proof.
  apply (mailbox_in_order plain_session Sync mail_start [str "a"; str "b"] [str "a"]).
  - by eexists.
  - refine (mb_recv plain_session Sync _ _ [] (mail_given [str "a"; str "b"]) _ _ _ _); [|by vm_compute].
    refine (mb_received plain_session Sync _ [str "a"] _ (mail_given [str "a"]) _ _ _ _); [|by vm_compute].
    refine (mb_received plain_session Sync _ [] _ (mail_given []) _ _ _ _); [constructor|by vm_compute].
Defined.

#[local] Instance boot_codecs : TextCodecs := {
  bs58_encode b := b;
  bs58_decode _ := Some (byte_of 18 :: byte_of 32 :: repeat (byte_of 5) 32);
  ip6_to_string _ := [];
  ip6_from_str _ := None;
}.

Lemma node_dials_bootnodes_witness :
  let n := P2PNode_new Mirana SharedState_new in
  ∃ l, get_bootnodes (TC := boot_codecs) Mirana = Some l ∧ length l = 10%nat ∧
    (node_init (TC := boot_codecs) : M P2PNode Empty_set unit) n = (pn_put_acts (map (λ a, NaDial a TpAll) l) n, ROk tt).
Proof.
  intros n. apply (node_dials_bootnodes n). apply Forall_forall. intros x _ ip port id _.
  exists (byte_of 18 :: byte_of 32 :: repeat (byte_of 5) 32). by vm_compute.
Defined.
